(* ===== verification/_CoqProject ===== *)
-Q . S2P
Prelude.v
Keys.v
Manifest.v
Wire.v
Float64.v
CacheTracking.v
LocalState.v
StateCodec.v
Compress.v
Encoding.v
Staging.v
Sashimono.v
File.v
DiskCache.v
Keeps.v
Backend.v
ColdRead.v
Settings.v
Vfs.v
Compact.v
CacheView.v
CacheWrite.v
CacheSafety.v
CacheSteps.v
CacheReopen.v
CacheExamples.v
Flush.v
FlushPages.v
FlushGroups.v
FlushInv.v
FlushBundles.v
FlushManifest.v
FlushRun.v
FlushSafety.v
FlushExamples.v
Handle.v
Programs.v
HandleRead.v
HandleSafety.v
HandleExamples.v
HandleWrite.v
WriteSafety.v
WriteExamples.v
Open.v
OpenSafety.v
OpenExamples.v
Rotation.v
RotationSafety.v
RotationExamples.v
BTreePeek.v
SqliteFormat.v
PeekSafety.v
Lookahead.v
LookaheadSafety.v
BTreeWalker.v
BTreeSafety.v
Import.v
ImportSafety.v
ImportExamples.v
Publish.v
PublishSafety.v
PublishExamples.v
Maintenance.v
MaintenanceSafety.v
MaintenanceExamples.v
Replay.v
ReplayPages.v
ReplayCommit.v
ReplaySafety.v
ReplayExamples.v
Passthrough.v
Locks.v
