(* ===== verification/Prelude.v ===== *)
(** * Turbolite: a verification development

    Turbolite is a SQLite VFS.  It keeps a database as compressed and encrypted
    objects on a storage backend, serves its pages from a local disk cache, and
    uploads what transactions have written.  This library models its tiered
    storage (src/src/tiered), the B-tree walker, the codecs and the lock table,
    and proves what makes them correct.

    ** The program and how its parts interact

    A database is a sequence of pages, kept in page groups: a group is an object
    on the backend, either one compressed frame or a sequence of frames that can
    be fetched by range.  Pages that were rewritten after their group may be in
    override frames, objects of their own.  Interior and index pages are stored
    a second time in bundles.  The manifest says where every page is; it is an
    object too, and publishing it is what commits an upload.

    A connection (a file handle) reads a page from the disk cache, from a frame
    fetched by range, or by downloading a group.  It writes pages to the cache
    and to a staging log; a sync seals the log, and a flush later merges the
    logs with the cache and the stored groups, uploads them and publishes a
    manifest of the next version.  After a crash the logs that are left are
    replayed into a new cache.  A replica adopts the manifests of a writer, or
    replays pages directly.  Around this: import of a SQLite file, key rotation,
    compaction of override frames, garbage collection and validation, settings
    of a connection, locks between connections, and the lookahead, which follows
    index leaves to the pages of the table ahead of a scan.

    ** Files

    Each component has a file of definitions, named like the source it models;
    the files behind it hold its theorems ([..Safety] and the files named for a
    step of the proof) and concrete runs ([..Examples]): the witnesses of the
    theorems, and the runs behind the findings.

    - data and codecs: Manifest (manifest.rs, config.rs), Keys (keys.rs), Wire
      (wire.rs), Compress (compress.rs), Encoding (encoding.rs), Staging
      (staging.rs), Sashimono (sashimono.rs), StateCodec (a serializer for the
      witnesses), Float64 (binary64 arithmetic, for eviction scores);
    - the disk cache: CacheTracking (cache_tracking.rs), LocalState
      (local_state.rs), File (files as bytes), DiskCache (disk_cache.rs); its
      theory in CacheView, CacheWrite, CacheSafety, CacheSteps, CacheReopen,
      Keeps, CacheExamples;
    - storage: Backend (storage.rs), ColdRead (what a reader without a cache
      gets, and the well-formedness of a manifest);
    - the shared state: Vfs (the state that mod.rs and vfs.rs share, and the
      monad of programs over it), Programs (a triple for such programs);
    - the flush: Flush (flush.rs), Compact (compact.rs); FlushPages, FlushGroups,
      FlushInv, FlushBundles, FlushManifest, FlushRun, FlushSafety,
      FlushExamples;
    - the file handle: Handle and HandleWrite (handle.rs), Settings
      (settings.rs), Passthrough (the encrypted journal files of handle.rs),
      Locks (lib.rs, and the lock levels of handle.rs); HandleRead,
      HandleSafety, HandleExamples, WriteSafety, WriteExamples;
    - opening and maintenance: Open, Publish, Maintenance (vfs.rs), Rotation
      (rotation.rs), Import (import.rs), each with its [Safety] and [Examples];
    - B-trees: BTreeWalker (btree_walker.rs), BTreePeek (btree_peek.rs),
      Lookahead (lookahead.rs and its callers in handle.rs); SqliteFormat is the
      file format of SQLite, which PeekSafety and BTreeSafety compare them with;
      LookaheadSafety;
    - direct page replay: Replay (replay.rs); ReplayPages, ReplayCommit,
      ReplaySafety, ReplayExamples;
    - this file: numbers, byte lists, the error type and its notations, maps
      with an iteration order, lemmas that the components share.

    ** How state and operations correspond to the code

    Records have the fields of the structs and operations the names of the
    functions, with their guards, early returns and order of effects.  Integers
    are [Z], with [wrap64] and [saturating_*] where the code wraps or saturates;
    pages and objects are lists of bytes.  A fallible function returns [io A]:
    [Ok], [Err] with an error kind, or [Panic] where the code would abort (an
    index out of bounds, an [unwrap]); theorems say that a function does not
    panic.  The disk cache is a state monad [M] over the record [DiskCache], in
    which every system call consults a list of faults; programs over the shared
    state are [Prog], those of a connection [Op].  Failing calls of the state
    file, of a log or of the backend are arguments or part of the backend's
    state.  A map that the code iterates is a [gmap] with the order of [HashIter],
    a class, so that no theorem depends on the order.

    Third-party code is a class with laws, or a parameter: the compression
    library, AES-GCM and AES-CTR (Compress), the storage backend and its listing
    (Backend, Maintenance), CBOR and BLAKE3 (Wire), MessagePack (a codec with a
    round-trip law), file_guard (Locks).  Each class has an instance in the
    examples, so its laws can hold.

    ** The theorems

    - The cache stands for a partial map from pages to bytes, its [view]; each
      writer is an insertion into it in each page format, removals and
      compaction keep the rest, eviction follows the scores, and whatever
      happens to a cache, it serves the page last written or nothing
      (CacheWrite, CacheSafety, CacheSteps, CacheReopen).
    - What a flush publishes is read back from storage alone as the newest
      bytes; a flush that fails changes nothing that matters; it deletes only
      garbage (FlushSafety).  Reads through a handle return the database, what
      transactions write reaches storage, a crash before the flush loses none of
      it (HandleSafety, WriteSafety, OpenSafety).
    - Rotation and finalize are all-or-nothing, an import serves the file, an
      adopted manifest leaves no page of the old database in the cache, a
      collection keeps all that is referenced (RotationSafety, ReplaySafety,
      ImportSafety, PublishSafety, MaintenanceSafety).
    - Codecs: round trips, torn logs, point reads, the anchor that binds a
      manifest, the choice of a recovery plan against its declarative
      specification (Wire, Encoding, Staging, Sashimono, Passthrough).
    - B-trees: the walk ends on any file and finds a tree that is given by the
      file format; an index leaf gives the rowids of its records; a rowid is
      resolved to the leaf that holds it (BTreeSafety, PeekSafety,
      LookaheadSafety).
    - Locks exclude writers; settings go to the handle on top of the stack.

    Where a theorem has a hypothesis that the code does not enforce, its comment
    says so, and names the example that shows what happens without it: growth of the
    database in a two-phase transaction, override frames under a rotation, torn
    writes in a finalize, a truncated compressed cache, a refused lowering of a
    lock, an older extent of a journal file.  Automatic compaction after a flush
    is modelled (Compact), and the theorems about a flush hold while no group
    has enough override frames for it to start.

    ** Fuel and bounds

    Loops that are not structural carry fuel, and running out of it is [Panic]
    (or the branch that the code would take at that bound): [walk_fuel] and
    [chain_fuel] exceed the number of pages, and each step visits a new page
    (BTreeSafety proves that they end); [read_serials] and the parsers of records
    take a byte per step, so the length of the input is enough; the listing of
    keys is given one round more than there are keys; the descent of a lookahead stops
    after 64 pages, as the code does.  Page numbers stay below 2^46 and offsets
    below 2^63 where a theorem needs sums not to wrap; [geometry], [small] and
    [keys_ok] say so of a manifest.

    ** What is not modelled

    A crash is one of the process: what was written is in the file.  Loss of
    power between a write and its sync is not modelled.  An operation of the
    cache, a flush, a finalize is one step of one thread: interleavings inside
    them are left out, except that prefetch workers run between the steps of a
    read ([others] in Handle) and other writers inside a publication
    ([put_manifest_while] in Backend).  The page count that handles share is the
    manifest's.  Thread pools, the prefetch queue, the S3 and HTTP clients, the
    WAL replication glue, [open_inner] and the registration with SQLite, the C
    and language bindings, the command line, the benchmarks and the local
    single-file VFS are left out; the metrics and debug output of the modelled
    functions too. *)

From stdpp Require Export base gmap list strings numbers sorting.
From coqutil Require Import Byte.
From coqutil Require Export Word.LittleEndianList.

#[global] Open Scope Z_scope.

(* ------------------------------------------------------------------ *)
(** * Results: a value, an error, or a panic *)

(** The [io::ErrorKind]s the modelled code builds or inspects.  The message
    strings are dropped: no modelled code reads them. *)
Inductive io_kind :=
  | InvalidData | InvalidInput | NotFound | UnexpectedEof
  | Unsupported | WouldBlock | PermissionDenied | OtherKind.

#[export] Instance io_kind_eq_dec : EqDecision io_kind.
Proof. solve_decision. Defined.

(** [Result<A, E>] with a third outcome for the operations of Rust that abort
    the process: an index or slice out of range, [unwrap] on [None], a
    division by zero. *)
Inductive outcome (E A : Type) :=
  | Ok (a : A)
  | Err (e : E)
  | Panic.
Arguments Ok {_ _} _.
Arguments Err {_ _} _.
Arguments Panic {_ _}.

Abbreviation io := (outcome io_kind).

#[export] Instance outcome_ret E : MRet (outcome E) := λ A a, Ok a.
#[export] Instance outcome_bind E : MBind (outcome E) := λ A B f m,
  match m with Ok a => f a | Err e => Err e | Panic => Panic end.

Definition no_panic {E A} (m : outcome E A) : Prop := m ≠ Panic.

(** [x.ok_or_else(|| e)?]: an absent value is the error [e]. *)
Definition ok_or {E A} (o : option A) (e : E) : outcome E A :=
  match o with Some a => Ok a | None => Err e end.

(** An access that panics when it is out of range. *)
Definition or_panic {E A} (o : option A) : outcome E A :=
  match o with Some a => Ok a | None => Panic end.

(** An early return guarded by a condition. *)
Definition guard_err {E} (b : bool) (e : E) : outcome E () :=
  if b then Err e else Ok ().

Lemma bind_Ok {E A B} (f : A → outcome E B) (m : outcome E A) (b : B) :
  m ≫= f = Ok b ↔ ∃ a, m = Ok a ∧ f a = Ok b.
Proof. destruct m; cbn; naive_solver. Qed.

Lemma bind_Panic {E A B} (f : A → outcome E B) (m : outcome E A) :
  m ≫= f = Panic ↔ m = Panic ∨ ∃ a, m = Ok a ∧ f a = Panic.
Proof. destruct m; cbn; naive_solver. Qed.

Lemma ok_or_Ok {E A} (o : option A) (e : E) a : ok_or o e = Ok a ↔ o = Some a.
Proof. destruct o; cbn; naive_solver. Qed.

Lemma or_panic_Ok {E A} (o : option A) a : @or_panic E A o = Ok a ↔ o = Some a.
Proof. destruct o; cbn; naive_solver. Qed.

Lemma guard_err_Ok {E} (b : bool) (e : E) u : guard_err b e = Ok u ↔ b = false.
Proof. destruct b, u; cbn; naive_solver. Qed.

Lemma mapM_Ok {E A B} (f : A → outcome E B) (l : list A) (k : list B) :
  mapM f l = Ok k ↔ Forall2 (λ x y, f x = Ok y) l k.
Proof.
  revert k. induction l as [|x l IH]; intros k; cbn.
  - split; [intros [= <-]; constructor | by inversion 1].
  - rewrite bind_Ok. split.
    + intros (y & Hy & Hk). apply bind_Ok in Hk as (k' & Hk' & [= <-]).
      constructor; [done|]. by apply IH.
    + inversion 1 as [|? y ? k' Hy Hk]; subst. exists y. split; [done|].
      apply IH in Hk. by rewrite Hk.
Qed.

Lemma mapM_no_panic {E A B} (f : A → outcome E B) (l : list A) :
  (∀ x, x ∈ l → f x ≠ Panic) → mapM f l ≠ Panic.
Proof.
  induction l as [|x l IH]; cbn; [done|]. intros Hf Hp.
  apply bind_Panic in Hp as [Hp | (y & Hy & Hp)].
  - by apply (Hf x); [left|].
  - apply bind_Panic in Hp as [Hp | (k & Hk & Hp)]; [|done].
    apply IH in Hp; [done|]. intros z Hz. apply Hf. by right.
Qed.

Lemma guard_bind_Panic {E A} (b : bool) (e : E) (f : () → outcome E A) :
  guard_err b e ≫= f = Panic ↔ b = false ∧ f () = Panic.
Proof. destruct b; cbn; naive_solver. Qed.

Lemma guard_err_no_panic {E} (b : bool) (e : E) : guard_err b e ≠ Panic.
Proof. by destruct b. Qed.

Lemma Ok_inj {E A} (a b : A) : @Ok E A a = Ok b → a = b.
Proof. by intros [=]. Qed.

(** A [for] loop that threads a state and returns early on an error. *)
Fixpoint fold_io {E A B} (f : A → B → outcome E A) (acc : A) (l : list B) : outcome E A :=
  match l with
  | [] => Ok acc
  | x :: l => acc ← f acc x; fold_io f acc l
  end.

Lemma fold_io_app {E A B} (f : A → B → outcome E A) acc l1 l2 :
  fold_io f acc (l1 ++ l2) = (acc' ← fold_io f acc l1; fold_io f acc' l2).
Proof.
  revert acc. induction l1 as [|x l1 IH]; intros acc; [done|]. cbn.
  destruct (f acc x); cbn; [apply IH|done|done].
Qed.

Lemma fold_io_no_panic {E A B} (f : A → B → outcome E A) l acc :
  (∀ a x, x ∈ l → f a x ≠ Panic) → fold_io f acc l ≠ Panic.
Proof.
  revert acc. induction l as [|x l IH]; intros acc Hf; [done|]. cbn. intros Hp.
  apply bind_Panic in Hp as [Hp|(a & _ & Hp)]; [by apply (Hf acc x); [left|]|].
  apply IH in Hp; [done|]. intros a' y Hy. apply Hf. by right.
Qed.

(** A [for] loop that only checks: every element passes. *)
Definition check_all {E A} (f : A → outcome E ()) (l : list A) : outcome E () :=
  fold_io (λ _ x, f x) () l.

Lemma check_all_Ok {E A} (f : A → outcome E ()) l :
  check_all f l = Ok () ↔ ∀ x, x ∈ l → f x = Ok ().
Proof.
  unfold check_all. induction l as [|x l IH]; cbn.
  - split; [|done]. intros _ x Hx. by apply not_elem_of_nil in Hx.
  - rewrite bind_Ok. split.
    + intros ([] & Hx & Hl) y [->|Hy]%elem_of_cons; [done|]. by apply IH.
    + intros Hl. exists (). split; [apply Hl; by left|]. apply IH. intros y Hy. apply Hl. by right.
Qed.

(** Case analysis of a monadic chain known to have produced a value. *)
Ltac inv_ok :=
  repeat match goal with
  | H : _ ≫= _ = Ok _ |- _ => apply bind_Ok in H as (? & ? & H)
  | H : ok_or _ _ = Ok _ |- _ => apply ok_or_Ok in H
  | H : or_panic _ = Ok _ |- _ => apply or_panic_Ok in H
  | H : guard_err _ _ = Ok _ |- _ => apply guard_err_Ok in H
  | H : Ok _ = Ok _ |- _ => apply Ok_inj in H; try subst
  | H : mret _ = Ok _ |- _ => apply Ok_inj in H; try subst
  | H : Err _ = Ok _ |- _ => discriminate H
  | H : Panic = Ok _ |- _ => discriminate H
  end.

(* ------------------------------------------------------------------ *)
(** * Machine integers *)

Definition u8_max : Z := 2 ^ 8 - 1.
Definition u16_max : Z := 2 ^ 16 - 1.
Definition u32_max : Z := 2 ^ 32 - 1.
Definition u64_max : Z := 2 ^ 64 - 1.

(** Release-profile arithmetic wraps; [x as u32] and [x as u16] truncate. *)
Definition wrap16 (z : Z) : Z := z mod 2 ^ 16.
Definition wrap32 (z : Z) : Z := z mod 2 ^ 32.
Definition wrap64 (z : Z) : Z := z mod 2 ^ 64.

Definition is_u16 (z : Z) : Prop := 0 ≤ z < 2 ^ 16.
Definition is_u32 (z : Z) : Prop := 0 ≤ z < 2 ^ 32.
Definition is_u64 (z : Z) : Prop := 0 ≤ z < 2 ^ 64.

Definition saturating_sub (a b : Z) : Z := Z.max 0 (a - b).

(** [usize] is 64 bits wide on the supported targets. *)
Definition checked_add (a b : Z) : option Z :=
  if a + b <? 2 ^ 64 then Some (a + b) else None.
Definition checked_mul (a b : Z) : option Z :=
  if a * b <? 2 ^ 64 then Some (a * b) else None.
Definition saturating_add (a b : Z) : Z := Z.min (a + b) u64_max.
Definition saturating_mul (a b : Z) : Z := Z.min (a * b) u64_max.

(** [u64::div_ceil]; the divisor is not zero. *)
Definition div_ceil (a b : Z) : Z := a / b + (if a mod b =? 0 then 0 else 1).

Definition is_power_of_two (z : Z) : bool :=
  (0 <? z) && (Z.land z (z - 1) =? 0).

Lemma wrap64_id z : is_u64 z → wrap64 z = z.
Proof. intros H. by apply Z.mod_small. Qed.

Lemma wrap32_id z : is_u32 z → wrap32 z = z.
Proof. intros H. by apply Z.mod_small. Qed.

Lemma wrap16_id z : is_u16 z → wrap16 z = z.
Proof. intros H. by apply Z.mod_small. Qed.

Lemma wrap64_range z : is_u64 (wrap64 z).
Proof. apply Z.mod_pos_bound. lia. Qed.

Lemma checked_add_Some a b c : checked_add a b = Some c ↔ c = a + b ∧ a + b < 2 ^ 64.
Proof. unfold checked_add. destruct (Z.ltb_spec (a + b) (2 ^ 64)); naive_solver lia. Qed.

Lemma checked_mul_Some a b c : checked_mul a b = Some c ↔ c = a * b ∧ a * b < 2 ^ 64.
Proof. unfold checked_mul. destruct (Z.ltb_spec (a * b) (2 ^ 64)); naive_solver lia. Qed.

Lemma div_ceil_spec a b : 0 < b → 0 ≤ a → (div_ceil a b - 1) * b < a ≤ div_ceil a b * b.
Proof.
  intros Hb Ha. unfold div_ceil.
  pose proof (Z.div_mod a b). pose proof (Z.mod_pos_bound a b).
  destruct (Z.eqb_spec (a mod b) 0); nia.
Qed.

Lemma div_ceil_nonneg a b : 0 < b → 0 ≤ a → 0 ≤ div_ceil a b.
Proof. intros Hb Ha. pose proof (div_ceil_spec a b Hb Ha). nia. Qed.

Lemma div_ceil_lt a b q : 0 < b → 0 ≤ a → q < div_ceil a b ↔ q * b < a.
Proof. intros Hb Ha. pose proof (div_ceil_spec a b Hb Ha). nia. Qed.

(* ------------------------------------------------------------------ *)
(** * Byte strings *)

Abbreviation byte := Init.Byte.byte.
Abbreviation bytes := (list byte).

#[export] Instance byte_eq_dec : EqDecision byte := Byte.byte_eq_dec.

#[export] Instance byte_countable : Countable byte :=
  inj_countable Byte.to_N Byte.of_N Byte.of_to_N.

(** [to_le_bytes], [to_be_bytes] on an [n]-byte integer and their inverses. *)
Definition le_bytes (n : nat) (z : Z) : bytes := le_split n z.
Definition be_bytes (n : nat) (z : Z) : bytes := rev (le_split n z).
Definition of_le (b : bytes) : Z := le_combine b.
Definition of_be (b : bytes) : Z := le_combine (rev b).

Lemma length_le_bytes n z : length (le_bytes n z) = n.
Proof. apply length_le_split. Qed.

Lemma length_be_bytes n z : length (be_bytes n z) = n.
Proof. unfold be_bytes. by rewrite length_rev, length_le_split. Qed.

Lemma of_le_le_bytes n z : 0 ≤ z < 2 ^ (8 * Z.of_nat n) → of_le (le_bytes n z) = z.
Proof.
  intros Hz. unfold of_le, le_bytes. rewrite le_combine_split, Z.mul_comm.
  by apply Z.mod_small.
Qed.

Lemma of_be_be_bytes n z : 0 ≤ z < 2 ^ (8 * Z.of_nat n) → of_be (be_bytes n z) = z.
Proof.
  intros Hz. unfold of_be, be_bytes. rewrite rev_involutive. by apply of_le_le_bytes.
Qed.

Lemma of_le_bound b : 0 ≤ of_le b < 2 ^ (8 * Z.of_nat (length b)).
Proof. apply le_combine_bound. Qed.

Lemma of_be_bound b : 0 ≤ of_be b < 2 ^ (8 * Z.of_nat (length b)).
Proof. unfold of_be. rewrite <-(length_rev b). apply le_combine_bound. Qed.

Lemma le_bytes_of_le b : le_bytes (length b) (of_le b) = b.
Proof. apply split_le_combine. Qed.

Lemma be_bytes_of_be b : be_bytes (length b) (of_be b) = b.
Proof.
  unfold be_bytes, of_be. rewrite <-(length_rev b), split_le_combine. apply rev_involutive.
Qed.

Lemma le_bytes_inj n a b :
  0 ≤ a < 2 ^ (8 * Z.of_nat n) → 0 ≤ b < 2 ^ (8 * Z.of_nat n) →
  le_bytes n a = le_bytes n b → a = b.
Proof.
  intros Ha Hb H. apply (f_equal of_le) in H. by rewrite !of_le_le_bytes in H.
Qed.

(* ------------------------------------------------------------------ *)
(** * Slices, padding and blocks *)

(** [buf.get(a..b)] for offsets held in [usize]s; [buf[a..b]] panics instead. *)
Definition slice {A} (a b : Z) (l : list A) : option (list A) :=
  if (0 <=? a) && (a <=? b) && (b <=? Z.of_nat (length l))
  then Some (take (Z.to_nat (b - a)) (drop (Z.to_nat a) l)) else None.

(** [buf.get(i)] with a [usize] index. *)
Definition at_index {A} (l : list A) (i : Z) : option A :=
  if i <? 0 then None else l !! Z.to_nat i.

Lemma slice_Some {A} (a b : Z) (l k : list A) :
  slice a b l = Some k ↔
  0 ≤ a ≤ b ∧ b ≤ Z.of_nat (length l) ∧
  k = take (Z.to_nat (b - a)) (drop (Z.to_nat a) l).
Proof.
  unfold slice.
  destruct (Z.leb_spec 0 a), (Z.leb_spec a b), (Z.leb_spec b (Z.of_nat (length l)));
    cbn; split; intros Hs; naive_solver lia.
Qed.

Lemma slice_length {A} (a b : Z) (l k : list A) :
  slice a b l = Some k → Z.of_nat (length k) = b - a.
Proof.
  intros (? & ? & ->)%slice_Some. rewrite length_take, length_drop. lia.
Qed.

(** The slice that lies between a known prefix and suffix. *)
Lemma slice_app {A} (a b : Z) (p m s : list A) :
  a = Z.of_nat (length p) → b = a + Z.of_nat (length m) →
  slice a b (p ++ m ++ s) = Some m.
Proof.
  intros -> ->. apply slice_Some. rewrite !length_app. split; [lia|]. split; [lia|].
  rewrite Nat2Z.id, drop_app_length.
  replace (Z.to_nat _) with (length m) by lia. by rewrite take_app_length.
Qed.

Definition zeros (n : nat) : bytes := replicate n Byte.x00.

(** [raw.extend_from_slice(data)] then [resize] up to a full page: shorter
    data is padded with zeros, longer data is kept whole. *)
Definition pad_to (n : nat) (data : bytes) : bytes :=
  data ++ zeros (n - length data).

Lemma length_pad_to n data : (length data ≤ n)%nat → length (pad_to n data) = n.
Proof. intros ?. unfold pad_to, zeros. rewrite length_app, length_replicate. lia. Qed.

Lemma pad_to_id n data : length data = n → pad_to n data = data.
Proof. intros <-. unfold pad_to. by rewrite Nat.sub_diag, app_nil_r. Qed.

Lemma length_concat_blocks {A} (n : nat) (ls : list (list A)) :
  Forall (λ l, length l = n) ls → length (concat ls) = (length ls * n)%nat.
Proof. induction 1; cbn; rewrite ?length_app; lia. Qed.

(** Block [i] of a concatenation of [n]-element blocks. *)
Lemma block_lookup {A} (n : nat) (ls : list (list A)) (i : nat) (l : list A) :
  Forall (λ l, length l = n) ls → ls !! i = Some l →
  take n (drop (i * n) (concat ls)) = l.
Proof.
  intros Hn. revert i. induction Hn as [|k ls Hk Hls IH]; intros [|i]; cbn; try done.
  - intros [= <-]. subst n. by rewrite drop_0, take_app_length.
  - intros Hl. rewrite drop_app_ge, Hk by (rewrite Hk; lia).
    replace (n + i * n - n)%nat with (i * n)%nat by lia. by apply IH.
Qed.

(** [slice::chunks(n)] for a positive [n]. *)
Fixpoint chunks_from {A} (fuel n : nat) (l : list A) : list (list A) :=
  match fuel, l with
  | O, _ | _, [] => []
  | S f, _ => take n l :: chunks_from f n (drop n l)
  end.
Definition chunks {A} (n : nat) (l : list A) : list (list A) :=
  chunks_from (length l) n l.

Lemma concat_chunks_from {A} f n (l : list A) :
  (0 < n)%nat → (length l ≤ f)%nat → concat (chunks_from f n l) = l.
Proof.
  intros Hn. revert l. induction f as [|f IH]; intros [|x l] Hf; cbn in *; try done; [lia|].
  destruct n as [|n]; [lia|]. cbn. f_equal.
  rewrite IH, take_drop; [done|]. rewrite length_drop. lia.
Qed.

Lemma concat_chunks {A} n (l : list A) : (0 < n)%nat → concat (chunks n l) = l.
Proof. intros ?. by apply concat_chunks_from. Qed.

Lemma chunks_from_bounds {A} f n (l : list A) :
  (0 < n)%nat → Forall (λ c, (0 < length c ≤ n)%nat) (chunks_from f n l).
Proof.
  intros Hn. revert l. induction f as [|f IH]; intros [|x l]; cbn; constructor; [|done].
  rewrite length_take. cbn. lia.
Qed.

Lemma chunks_bounds {A} n (l : list A) :
  (0 < n)%nat → Forall (λ c, (0 < length c ≤ n)%nat) (chunks n l).
Proof. apply chunks_from_bounds. Qed.

(** [while v.len() < n { v.push(x) }]: the vector grows to [n] entries. *)
Definition grow_to {A} (n : nat) (x : A) (l : list A) : list A :=
  l ++ replicate (n - length l) x.

Lemma length_grow_to {A} n (x : A) l : length (grow_to n x l) = Nat.max n (length l).
Proof. unfold grow_to. rewrite length_app, length_replicate. lia. Qed.

Lemma grow_to_lookup {A} n (x : A) (l : list A) i y :
  l !! i = Some y → grow_to n x l !! i = Some y.
Proof. intros H. unfold grow_to. by apply lookup_app_l_Some. Qed.

(** The integers [a, b) in ascending order, as [(a..b).collect()]. *)
Definition range (a b : Z) : list Z := seqZ a (b - a).

Lemma elem_of_range a b x : x ∈ range a b ↔ a ≤ x < b.
Proof. unfold range. rewrite elem_of_seqZ. lia. Qed.

Lemma length_range a b : length (range a b) = Z.to_nat (b - a).
Proof. apply length_seqZ. Qed.

Lemma range_lookup a b i : 0 ≤ i < b - a → range a b !! Z.to_nat i = Some (a + i).
Proof. intros Hi. unfold range. rewrite lookup_seqZ. lia. Qed.

Lemma range_cons a b : a < b → range a b = a :: range (a + 1) b.
Proof.
  intros Hab. unfold range. rewrite seqZ_cons by lia. f_equal. f_equal; lia.
Qed.

Lemma range_nil a b : b ≤ a → range a b = [].
Proof. intros Hab. unfold range. by rewrite seqZ_nil by lia. Qed.

(* ------------------------------------------------------------------ *)
(** * Record update *)

(** [r <| f := v |>] replaces one field; [r <| f ::= g |>] applies a function to
    it.  A record type states how it is rebuilt from its fields; the setter of a
    field is the rebuilding function with that field's projection abstracted, and
    there is none when the projection does not occur in it. *)
Class Settable (R : Type) := { rebuild : R → R }.
Class Setter {R T : Type} (getter : R → T) := { set_field : (T → T) → R → R }.
Arguments set_field {_ _} _ {_} _ _ /.

Ltac derive_setter :=
  match goal with |- @Setter ?R ?T ?g =>
    let inst := constr:(_ : Settable R) in
    let i := eval hnf in (@rebuild R inst) in
    match eval pattern g in i with
    | (λ _, ?b) _ => fail 1 "the getter is not a field"
    | ?F _ => let r := eval cbv beta in (λ (f : T → T), F (λ x, f (g x))) in exact {| set_field := r |}
    end
  end.
#[export] Hint Extern 1 (Setter _) => derive_setter : typeclass_instances.

Declare Scope record_scope.
Delimit Scope record_scope with rec.
Notation "r <| f := v |>" := (set_field f (λ _, v) r)
  (at level 12, left associativity, f at next level, v at level 200) : record_scope.
Notation "r <| f ::= g |>" := (set_field f g r)
  (at level 12, left associativity, f at next level, g at level 200) : record_scope.
#[global] Open Scope record_scope.

(* ------------------------------------------------------------------ *)
(** * Hash tables *)

(** A [HashMap] is a [gmap]; the order in which a loop visits its entries is
    not part of its value.  Code that iterates takes the order from this
    class, so a theorem about it holds for every order a run may see. *)
Class HashIter := {
  hiter : ∀ {K V} `{Countable K}, gmap K V → list (K * V);
  hiter_perm : ∀ {K V} `{Countable K} (m : gmap K V), hiter m ≡ₚ map_to_list m
}.

(** One concrete order, for witnesses. *)
Definition canonical_iter : HashIter := {|
  hiter := λ K V _ _ m, map_to_list m;
  hiter_perm := λ K V _ _ m, Permutation_refl _
|}.

(** Another one, the reverse of it. *)
Program Definition reversed_iter : HashIter := {|
  hiter := λ K V _ _ m, reverse (map_to_list m)
|}.
Next Obligation. intros. apply reverse_Permutation. Qed.

Section hash_iter.
Context `{HI : HashIter}.

Lemma elem_of_hiter {K V} `{Countable K} (m : gmap K V) k v :
  (k, v) ∈ hiter m ↔ m !! k = Some v.
Proof. rewrite hiter_perm. apply elem_of_map_to_list. Qed.

Lemma NoDup_hiter {K V} `{Countable K} (m : gmap K V) : NoDup (hiter m).*1.
Proof. rewrite hiter_perm. apply NoDup_fst_map_to_list. Qed.

Lemma length_hiter {K V} `{Countable K} (m : gmap K V) : length (hiter m) = size m.
Proof. rewrite hiter_perm. apply length_map_to_list. Qed.

Lemma list_to_map_hiter {K V} `{Countable K} (m : gmap K V) :
  list_to_map (hiter m) = m.
Proof.
  rewrite <-(list_to_map_to_list m) at 2.
  apply list_to_map_proper; [apply NoDup_hiter | apply hiter_perm].
Qed.

(** The visiting order of a [HashSet]. *)
Definition hset_iter {K} `{Countable K} (s : gset K) : list K :=
  (hiter (gset_to_gmap () s)).*1.

Lemma elem_of_hset_iter {K} `{Countable K} (s : gset K) x : x ∈ hset_iter s ↔ x ∈ s.
Proof.
  unfold hset_iter. rewrite list_elem_of_fmap. split.
  - intros ([k []] & -> & Hk%elem_of_hiter). cbn.
    by apply lookup_gset_to_gmap_Some in Hk as [].
  - intros Hx. exists (x, ()). split; [done|]. apply elem_of_hiter.
    by apply lookup_gset_to_gmap_Some.
Qed.

Lemma NoDup_hset_iter {K} `{Countable K} (s : gset K) : NoDup (hset_iter s).
Proof. apply NoDup_hiter. Qed.
End hash_iter.

(* ------------------------------------------------------------------ *)
(** * Sorting by key *)

(** [v.sort_by_key(|(k, _)| *k)] for integer keys; where the code sorts, the
    keys are distinct, so the order of equal keys does not arise. *)
Definition key_le {V} (a b : Z * V) : Prop := a.1 ≤ b.1.

#[export] Instance key_le_dec {V} (a b : Z * V) : Decision (key_le a b).
Proof. unfold key_le. apply _. Defined.
#[export] Instance key_le_trans {V} : Transitive (@key_le V).
Proof. intros ???. unfold key_le. lia. Qed.
#[export] Instance key_le_total {V} : Total (@key_le V).
Proof. intros ??. unfold key_le. lia. Qed.

Definition sort_by_key {V} (l : list (Z * V)) : list (Z * V) := merge_sort key_le l.

Lemma sort_by_key_perm {V} (l : list (Z * V)) : sort_by_key l ≡ₚ l.
Proof. apply merge_sort_Permutation. Qed.

Lemma NoDup_fst_inj {K V} (l : list (K * V)) k v1 v2 :
  NoDup l.*1 → (k, v1) ∈ l → (k, v2) ∈ l → v1 = v2.
Proof.
  induction l as [|[k' v'] l IH]; cbn; [intros _ H; by apply not_elem_of_nil in H|].
  rewrite NoDup_cons, !elem_of_cons. intros [Hk Hnd] H1 H2.
  assert (∀ w, (k, w) ∈ l → k ∈ l.*1) as Hin.
  { intros w Hw. apply list_elem_of_fmap. by exists (k, w). }
  destruct H1 as [[= -> ->]|H1], H2 as [[= ?]|H2]; subst; auto; exfalso; eauto.
Qed.

(** Sorting entries with distinct keys gives one list whatever the order was. *)
Lemma sort_by_key_unique {V} (l1 l2 : list (Z * V)) :
  NoDup l1.*1 → l1 ≡ₚ l2 → sort_by_key l1 = sort_by_key l2.
Proof.
  intros Hnd Hp. unfold sort_by_key. apply (StronglySorted_unique_strong key_le).
  - intros [k1 v1] [k2 v2]. rewrite !merge_sort_Permutation, <-Hp.
    unfold key_le; cbn. intros H1 H2 Hle1 Hle2.
    assert (k1 = k2) as -> by lia. f_equal. by eapply NoDup_fst_inj.
  - apply (StronglySorted_merge_sort _).
  - apply (StronglySorted_merge_sort _).
  - by rewrite !merge_sort_Permutation.
Qed.

Lemma sort_by_key_hiter {V} (I1 I2 : HashIter) (m : gmap Z V) :
  sort_by_key (@hiter I1 _ _ _ _ m) = sort_by_key (@hiter I2 _ _ _ _ m).
Proof.
  apply sort_by_key_unique; [apply NoDup_hiter|]. by rewrite !hiter_perm.
Qed.

(** [pairs.into_iter().collect::<HashMap>()]: later entries win. *)
Definition collect_map {K V} `{Countable K} (l : list (K * V)) : gmap K V :=
  list_to_map (reverse l).

Lemma collect_sorted {V} `{HashIter} (m : gmap Z V) :
  collect_map (sort_by_key (hiter m)) = m.
Proof.
  unfold collect_map. rewrite <-(list_to_map_hiter m) at 2.
  apply list_to_map_proper.
  - rewrite reverse_Permutation, sort_by_key_perm. apply NoDup_hiter.
  - by rewrite reverse_Permutation, sort_by_key_perm.
Qed.

(* ------------------------------------------------------------------ *)
(** * A concrete serializer *)

(** The serializers (CBOR, MessagePack, JSON) are parameters of the models
    that use them.  This one, which writes the [Countable] code of a value in
    little-endian bytes, is the function the witnesses instantiate them with. *)
Definition count_encode {A} `{Countable A} (a : A) : bytes :=
  le_bytes (Pos.size_nat (encode a)) (Z.pos (encode a)).
Definition count_decode {A} `{Countable A} (b : bytes) : option A :=
  match of_le b with Zpos p => decode p | _ => None end.

Lemma size_nat_bound p : Z.pos p < 2 ^ (8 * Z.of_nat (Pos.size_nat p)).
Proof.
  assert (Z.pos p < 2 ^ Z.of_nat (Pos.size_nat p)) as Hp.
  { induction p as [p IH|p IH|]; cbn [Pos.size_nat]; [| |done];
      rewrite Nat2Z.inj_succ, Z.pow_succ_r by lia; lia. }
  eapply Z.lt_le_trans; [exact Hp|]. apply Z.pow_le_mono_r; lia.
Qed.

Lemma count_decode_encode {A} `{Countable A} (a : A) :
  count_decode (count_encode a) = Some a.
Proof.
  unfold count_decode, count_encode.
  rewrite of_le_le_bytes by (pose proof (size_nat_bound (encode a)); lia).
  apply decode_encode.
Qed.

(** The library's hints: [eauto with turbolite] and [autorewrite with turbolite]. *)
Create HintDb turbolite discriminated.
#[export] Hint Resolve wrap64_range NoDup_hiter NoDup_hset_iter : turbolite.
#[export] Hint Rewrite @length_le_bytes @length_be_bytes @length_app @length_take
  @length_drop @length_replicate @length_grow_to @length_range : turbolite.
