(* ===== verification/Keys.v ===== *)
(** Object keys and AES-GCM associated data (src/src/tiered/keys.rs): the names
    under which page groups, bundles and override frames are stored, and the
    slot identity every encrypted frame is bound to. *)

From Stdlib Require Import Ascii String.
From stdpp Require Import pretty.
From S2P Require Import Prelude.

#[local] Open Scope stdpp_scope.

(* ------------------------------------------------------------------ *)
(** * Data and operations *)

(** [format!("{n}")] of an unsigned integer. *)
Definition decimal (n : Z) : string := pretty (Z.to_N n).

Definition MANIFEST_KEY : string := "manifest.msgpack".

Definition page_group_key (group_id version : Z) : string :=
  "p/d/" +:+ decimal group_id +:+ "_v" +:+ decimal version.

Definition interior_chunk_key (chunk_id version : Z) : string :=
  "p/it/" +:+ decimal chunk_id +:+ "_v" +:+ decimal version.

Definition index_chunk_key (chunk_id version : Z) : string :=
  "p/ix/" +:+ decimal chunk_id +:+ "_v" +:+ decimal version.

Definition override_frame_key (group_id frame_idx version : Z) : string :=
  "p/d/" +:+ decimal group_id +:+ "_f" +:+ decimal frame_idx +:+ "_v" +:+ decimal version.

Definition aad_page_group (gid : Z) : bytes := Byte.x67 :: le_bytes 8 gid.
Definition aad_interior_bundle (chunk_id : Z) : bytes := Byte.x69 :: le_bytes 4 chunk_id.
Definition aad_index_bundle (chunk_id : Z) : bytes := Byte.x78 :: le_bytes 4 chunk_id.
Definition aad_override_frame (gid frame_idx : Z) : bytes :=
  Byte.x6f :: le_bytes 8 gid ++ le_bytes 8 frame_idx.

(** The four kinds of objects a key or an AAD names, with the widths of the
    parameters of the functions above. *)
Inductive Slot :=
  | PageGroup (gid : Z)
  | InteriorBundle (chunk_id : Z)
  | IndexBundle (chunk_id : Z)
  | OverrideFrame (gid frame_idx : Z).

Definition slot_ok (s : Slot) : Prop :=
  match s with
  | PageGroup g => is_u64 g
  | InteriorBundle c | IndexBundle c => is_u32 c
  | OverrideFrame g f => is_u64 g ∧ is_u64 f
  end.

Definition slot_key (s : Slot) (version : Z) : string :=
  match s with
  | PageGroup g => page_group_key g version
  | InteriorBundle c => interior_chunk_key c version
  | IndexBundle c => index_chunk_key c version
  | OverrideFrame g f => override_frame_key g f version
  end.

Definition slot_aad (s : Slot) : bytes :=
  match s with
  | PageGroup g => aad_page_group g
  | InteriorBundle c => aad_interior_bundle c
  | IndexBundle c => aad_index_bundle c
  | OverrideFrame g f => aad_override_frame g f
  end.

(* ------------------------------------------------------------------ *)
(** * Lemmas *)

Definition is_digit (c : ascii) : bool :=
  let n := nat_of_ascii c in (48 <=? n)%nat && (n <=? 57)%nat.

Definition all_digits (s : string) : Prop := Forall is_digit (list_ascii_of_string s).

Lemma pretty_N_char_digit x : (x < 10)%N → is_digit (pretty_N_char x).
Proof.
  intros Hx. destruct x as [|p]; [done|].
  do 4 (destruct p as [p|p|]; try done; try lia).
Qed.

Lemma pretty_N_go_digits x s : all_digits s → all_digits (pretty_N_go x s).
Proof.
  revert s. induction (N.lt_wf_0 x) as [x _ IH]; intros s Hs.
  destruct (decide (x = 0)%N) as [->|Hx]; [by rewrite pretty_N_go_0|].
  rewrite pretty_N_go_step by lia. apply IH.
  - apply N.div_lt; lia.
  - constructor; [|done]. apply pretty_N_char_digit, N.mod_lt. lia.
Qed.

Lemma decimal_digits n : all_digits (decimal n).
Proof.
  unfold decimal, pretty, pretty_N. case_decide; [by repeat constructor|].
  apply pretty_N_go_digits. constructor.
Qed.

Lemma decimal_inj a b : 0 ≤ a → 0 ≤ b → decimal a = decimal b → a = b.
Proof. intros Ha Hb H. unfold decimal in H. apply (inj pretty) in H. lia. Qed.

(** A run of digits ends at the first character that is not one. *)
Lemma digits_end a b c d x y :
  all_digits a → all_digits b → ¬ is_digit c → ¬ is_digit d →
  a +:+ String c x = b +:+ String d y → a = b ∧ c = d ∧ x = y.
Proof.
  unfold all_digits. revert b. induction a as [|h a IH]; intros [|h' b]; cbn;
    intros Ha Hb Hc Hd Heq; injection Heq as Heq1 Heq2; subst.
  - done.
  - by inversion Hb.
  - by inversion Ha.
  - inversion Ha; inversion Hb; subst.
    destruct (IH b) as (-> & -> & ->); auto.
Qed.

Lemma digits_end_key a b c d x y :
  ¬ is_digit c → ¬ is_digit d →
  0 ≤ a → 0 ≤ b → decimal a +:+ String c x = decimal b +:+ String d y →
  a = b ∧ c = d ∧ x = y.
Proof.
  intros Hc Hd Ha Hb (H & ? & ?)%digits_end; auto using decimal_digits.
  by apply decimal_inj in H.
Qed.

Lemma slot_ok_nonneg s :
  slot_ok s →
  match s with
  | PageGroup g => 0 ≤ g
  | InteriorBundle c | IndexBundle c => 0 ≤ c
  | OverrideFrame g f => 0 ≤ g ∧ 0 ≤ f
  end.
Proof. destruct s; cbn; unfold is_u64, is_u32; lia. Qed.

Lemma slot_aad_injective s1 s2 :
  slot_ok s1 → slot_ok s2 → slot_aad s1 = slot_aad s2 → s1 = s2.
Proof.
  intros H1 H2 Heq. destruct s1, s2; try discriminate Heq;
    unfold slot_aad, aad_page_group, aad_interior_bundle, aad_index_bundle,
      aad_override_frame in Heq; apply (f_equal (drop 1)) in Heq; cbn [drop] in Heq.
  1-3: by apply le_bytes_inj in Heq as ->.
  apply app_inj_1 in Heq as [Hg Hf]; [|by rewrite !length_le_bytes].
  cbn in H1, H2. destruct H1, H2.
  by apply le_bytes_inj in Hg as ->; [apply le_bytes_inj in Hf as ->|..].
Qed.

Lemma slot_key_spec s1 s2 v1 v2 :
  slot_ok s1 → slot_ok s2 → is_u64 v1 → is_u64 v2 →
  slot_key s1 v1 ≠ MANIFEST_KEY ∧
  (slot_key s1 v1 = slot_key s2 v2 → s1 = s2 ∧ v1 = v2).
Proof.
  intros H1%slot_ok_nonneg H2%slot_ok_nonneg [Hv1 _] [Hv2 _].
  split; [by destruct s1|]. intros Heq.
  destruct s1, s2; unfold slot_key, page_group_key, interior_chunk_key, index_chunk_key,
    override_frame_key in Heq; cbn in Heq; simplify_eq;
    apply digits_end_key in Heq as (-> & Hc & Hx); auto; simplify_eq;
    try (apply digits_end_key in Hx as (-> & _ & Hx); auto; simplify_eq);
    repeat match goal with
    | H : decimal _ = decimal _ |- _ => apply decimal_inj in H; [|tauto..]; subst
    end; try done; tauto.
Qed.

(* ------------------------------------------------------------------ *)
(** * Theorems *)

(** No two objects share a storage key: equal keys name the same slot at
    the same version, whatever the kinds of the two slots, and no object is
    stored under the manifest's key. *)
Theorem slot_key_inj s1 s2 v1 v2 :
  slot_ok s1 → slot_ok s2 → is_u64 v1 → is_u64 v2 →
  slot_key s1 v1 ≠ MANIFEST_KEY ∧
  (slot_key s1 v1 = slot_key s2 v2 → s1 = s2 ∧ v1 = v2).
Proof. apply slot_key_spec. Qed.

Lemma slot_key_inj_witness :
  slot_key (PageGroup 5) 10 ≠ slot_key (OverrideFrame 5 3) 10.
Proof.
  intros H. destruct (slot_key_inj (PageGroup 5) (OverrideFrame 5 3) 10 10) as [_ Hi];
    [split; lia | split; split; lia | split; lia | split; lia |].
  by destruct (Hi H).
Defined.
