(* ===== verification/Manifest.v ===== *)
(** The manifest of a tiered database (src/src/tiered/manifest.rs, with the
    types it takes from src/src/tiered/config.rs): where every page lives, the
    reverse indexes rebuilt on load, the validation of decoded manifests and
    the choice of dirty frames. *)

From S2P Require Import Prelude.

(* ------------------------------------------------------------------ *)
(** * Data *)

Inductive GroupingStrategy := Positional | BTreeAware.

#[export] Instance GroupingStrategy_eq_dec : EqDecision GroupingStrategy.
Proof. solve_decision. Defined.

Record PageLocation := { group_id : Z; index : Z }.

#[export] Instance PageLocation_eq_dec : EqDecision PageLocation.
Proof. solve_decision. Defined.

Record FrameEntry := { fe_offset : Z; fe_len : Z }.

Record SubframeOverride := { ovr_key : string; ovr_entry : FrameEntry }.

Record BTreeManifestEntry := {
  bt_name : string;
  bt_obj_type : string;
  bt_group_ids : list Z;
  bt_pages : list Z
}.

Record ReplayCursor := {
  last_applied_seq : Z;
  base_object_checksum : bytes;
  cursor_epoch : Z
}.

(** The five name and group indexes that [build_page_index] derives from
    [btrees]; they are [#[serde(skip)]] fields of the manifest. *)
Record TreeIndexes := {
  btree_groups : gmap Z (list Z);
  page_to_tree_name : gmap Z string;
  tree_name_to_groups : gmap string (list Z);
  tree_name_to_root_page : gmap string Z;
  group_to_tree_name : gmap Z string
}.

Record Manifest := {
  version : Z;
  change_counter : Z;
  page_count : Z;
  page_size : Z;
  pages_per_group : Z;
  page_group_keys : list string;
  interior_chunk_keys : gmap Z string;
  index_chunk_keys : gmap Z string;
  frame_tables : list (list FrameEntry);
  sub_pages_per_frame : Z;
  subframe_overrides : list (gmap Z SubframeOverride);
  strategy : GroupingStrategy;
  group_pages : list (list Z);
  btrees : gmap Z BTreeManifestEntry;
  page_index : gmap Z PageLocation;
  tree_indexes : TreeIndexes;
  db_header : option bytes;
  discontinuity_stamp : Z;
  cursor : ReplayCursor;
  writer_id : string
}.

#[export] Instance FrameEntry_eq_dec : EqDecision FrameEntry.
Proof. solve_decision. Defined.
#[export] Instance SubframeOverride_eq_dec : EqDecision SubframeOverride.
Proof. solve_decision. Defined.
#[export] Instance BTreeManifestEntry_eq_dec : EqDecision BTreeManifestEntry.
Proof. solve_decision. Defined.
#[export] Instance ReplayCursor_eq_dec : EqDecision ReplayCursor.
Proof. solve_decision. Defined.

#[export] Instance TreeIndexes_eq_dec : EqDecision TreeIndexes.
Proof. solve_decision. Defined.
#[export] Instance Manifest_eq_dec : EqDecision Manifest.
Proof. solve_decision. Defined.
#[export] Instance GroupingStrategy_countable : Countable GroupingStrategy.
Proof.
  refine (inj_countable' (λ s, match s with Positional => true | BTreeAware => false end)
    (λ b, if b then Positional else BTreeAware) _). by intros [].
Defined.
#[export] Instance FrameEntry_countable : Countable FrameEntry.
Proof.
  refine (inj_countable' (λ e, (fe_offset e, fe_len e))
    (λ '(o, l), {| fe_offset := o; fe_len := l |}) _). by intros [].
Defined.
#[export] Instance SubframeOverride_countable : Countable SubframeOverride.
Proof.
  refine (inj_countable' (λ o, (ovr_key o, ovr_entry o))
    (λ '(k, e), {| ovr_key := k; ovr_entry := e |}) _). by intros [].
Defined.
#[export] Instance BTreeManifestEntry_countable : Countable BTreeManifestEntry.
Proof.
  refine (inj_countable' (λ e, (bt_name e, bt_obj_type e, (bt_group_ids e, bt_pages e)))
    (λ '(n, o, (g, p)),
      {| bt_name := n; bt_obj_type := o; bt_group_ids := g; bt_pages := p |}) _). by intros [].
Defined.
#[export] Instance ReplayCursor_countable : Countable ReplayCursor.
Proof.
  refine (inj_countable' (λ c, (last_applied_seq c, base_object_checksum c, cursor_epoch c))
    (λ '(s, b, e),
      {| last_applied_seq := s; base_object_checksum := b; cursor_epoch := e |}) _). by intros [].
Defined.

Definition no_tree_indexes : TreeIndexes := {|
  btree_groups := ∅; page_to_tree_name := ∅; tree_name_to_groups := ∅;
  tree_name_to_root_page := ∅; group_to_tree_name := ∅
|}.

Definition default_cursor : ReplayCursor :=
  {| last_applied_seq := 0; base_object_checksum := []; cursor_epoch := 0 |}.

(** [Manifest::empty]. *)
Definition empty_manifest : Manifest := {|
  version := 0; change_counter := 0; page_count := 0; page_size := 0;
  pages_per_group := 0; page_group_keys := []; interior_chunk_keys := ∅;
  index_chunk_keys := ∅; frame_tables := []; sub_pages_per_frame := 0;
  subframe_overrides := []; strategy := Positional; group_pages := [];
  btrees := ∅; page_index := ∅; tree_indexes := no_tree_indexes;
  db_header := None; discontinuity_stamp := 0; cursor := default_cursor;
  writer_id := ""
|}.

(** Field updates. *)
Definition set_indexes (m : Manifest) (s : GroupingStrategy)
    (pi : gmap Z PageLocation) (ti : TreeIndexes) : Manifest := {|
  version := version m; change_counter := change_counter m;
  page_count := page_count m; page_size := page_size m;
  pages_per_group := pages_per_group m; page_group_keys := page_group_keys m;
  interior_chunk_keys := interior_chunk_keys m;
  index_chunk_keys := index_chunk_keys m; frame_tables := frame_tables m;
  sub_pages_per_frame := sub_pages_per_frame m;
  subframe_overrides := subframe_overrides m; strategy := s;
  group_pages := group_pages m; btrees := btrees m; page_index := pi;
  tree_indexes := ti; db_header := db_header m;
  discontinuity_stamp := discontinuity_stamp m; cursor := cursor m;
  writer_id := writer_id m
|}.

Definition set_groups (m : Manifest) (pc : Z) (gp : list (list Z))
    (ks : list string) (fts : list (list FrameEntry))
    (ovs : list (gmap Z SubframeOverride)) : Manifest := {|
  version := version m; change_counter := change_counter m;
  page_count := pc; page_size := page_size m;
  pages_per_group := pages_per_group m; page_group_keys := ks;
  interior_chunk_keys := interior_chunk_keys m;
  index_chunk_keys := index_chunk_keys m; frame_tables := fts;
  sub_pages_per_frame := sub_pages_per_frame m;
  subframe_overrides := ovs; strategy := strategy m;
  group_pages := gp; btrees := btrees m; page_index := page_index m;
  tree_indexes := tree_indexes m; db_header := db_header m;
  discontinuity_stamp := discontinuity_stamp m; cursor := cursor m;
  writer_id := writer_id m
|}.

Definition set_stamp (m : Manifest) (v cc : Z) (hdr : option bytes)
    (cur : ReplayCursor) (w : string) : Manifest := {|
  version := v; change_counter := cc;
  page_count := page_count m; page_size := page_size m;
  pages_per_group := pages_per_group m; page_group_keys := page_group_keys m;
  interior_chunk_keys := interior_chunk_keys m;
  index_chunk_keys := index_chunk_keys m; frame_tables := frame_tables m;
  sub_pages_per_frame := sub_pages_per_frame m;
  subframe_overrides := subframe_overrides m; strategy := strategy m;
  group_pages := group_pages m; btrees := btrees m; page_index := page_index m;
  tree_indexes := tree_indexes m; db_header := hdr;
  discontinuity_stamp := discontinuity_stamp m; cursor := cur;
  writer_id := w
|}.

#[export] Instance Manifest_settable : Settable Manifest := {| rebuild := λ m, {|
  version := version m; change_counter := change_counter m; page_count := page_count m;
  page_size := page_size m; pages_per_group := pages_per_group m; page_group_keys := page_group_keys m;
  interior_chunk_keys := interior_chunk_keys m; index_chunk_keys := index_chunk_keys m;
  frame_tables := frame_tables m; sub_pages_per_frame := sub_pages_per_frame m;
  subframe_overrides := subframe_overrides m; strategy := strategy m; group_pages := group_pages m;
  btrees := btrees m; page_index := page_index m; tree_indexes := tree_indexes m;
  db_header := db_header m; discontinuity_stamp := discontinuity_stamp m; cursor := cursor m;
  writer_id := writer_id m |} |}.

(* ------------------------------------------------------------------ *)
(** * Operations *)

Definition total_groups_for (page_count pages_per_group : Z) : Z :=
  if (pages_per_group =? 0) || (page_count =? 0) then 0
  else div_ceil page_count pages_per_group.

Definition total_groups (m : Manifest) : Z :=
  match group_pages m with
  | [] => total_groups_for (page_count m) (pages_per_group m)
  | _ :: _ => Z.of_nat (length (group_pages m))
  end.

(** [iter().enumerate()]. *)
Definition enumerate {A} (l : list A) : list (Z * A) :=
  zip (range 0 (Z.of_nat (length l))) l.

(** The inner loop over one group: later positions overwrite earlier ones. *)
Definition index_group (acc : gmap Z PageLocation) (g : Z * list Z) : gmap Z PageLocation :=
  foldl (λ acc ip, <[ip.2 := {| group_id := g.1; index := wrap32 ip.1 |}]> acc)
    acc (enumerate g.2).

Definition index_groups (gp : list (list Z)) : gmap Z PageLocation :=
  foldl index_group ∅ (enumerate gp).

Definition insert_all {K V} `{Countable K} (ks : list K) (v : V) (m : gmap K V) : gmap K V :=
  foldl (λ acc k, <[k := v]> acc) m ks.

(** One round of the loop over [btrees]. *)
Definition index_btree (gp : list (list Z)) (ti : TreeIndexes)
    (re : Z * BTreeManifestEntry) : TreeIndexes :=
  let e := re.2 in {|
    btree_groups := insert_all (bt_group_ids e) (bt_group_ids e) (btree_groups ti);
    group_to_tree_name := insert_all (bt_group_ids e) (bt_name e) (group_to_tree_name ti);
    page_to_tree_name :=
      match bt_pages e with
      | [] => foldl (λ acc gid,
                match at_index gp gid with
                | Some pages => insert_all pages (bt_name e) acc
                | None => acc
                end) (page_to_tree_name ti) (bt_group_ids e)
      | pages => insert_all pages (bt_name e) (page_to_tree_name ti)
      end;
    tree_name_to_groups := <[bt_name e := bt_group_ids e]> (tree_name_to_groups ti);
    tree_name_to_root_page := <[bt_name e := re.1]> (tree_name_to_root_page ti)
  |}.

(** The strategy after the auto-detection at the head of [build_page_index]
    and of [detect_and_normalize_strategy]. *)
Definition detected_strategy (m : Manifest) : GroupingStrategy :=
  match group_pages m, strategy m with
  | _ :: _, Positional => BTreeAware
  | _, s => s
  end.

Definition build_page_index `{HashIter} (m : Manifest) : Manifest :=
  match detected_strategy m with
  | Positional => set_indexes m Positional ∅ no_tree_indexes
  | BTreeAware =>
      set_indexes m BTreeAware (index_groups (group_pages m))
        (foldl (index_btree (group_pages m)) no_tree_indexes (hiter (btrees m)))
  end.

Definition page_location (m : Manifest) (page_num : Z) : option PageLocation :=
  match strategy m with
  | Positional =>
      if (pages_per_group m =? 0) || (page_count m <=? page_num) then None
      else Some {| group_id := page_num / pages_per_group m;
                   index := wrap32 (page_num mod pages_per_group m) |}
  | BTreeAware => page_index m !! page_num
  end.

Definition group_page_nums (m : Manifest) (gid : Z) : list Z :=
  match strategy m with
  | Positional =>
      let ppg := pages_per_group m in
      let start := wrap64 (gid * ppg) in
      range start (Z.min (wrap64 (start + ppg)) (page_count m))
  | BTreeAware => default [] (at_index (group_pages m) gid)
  end.

Definition group_size (m : Manifest) (gid : Z) : Z :=
  match strategy m with
  | Positional =>
      let ppg := pages_per_group m in
      let start := wrap64 (gid * ppg) in
      Z.min ppg (saturating_sub (page_count m) start)
  | BTreeAware =>
      match at_index (group_pages m) gid with
      | Some v => Z.of_nat (length v)
      | None => 0
      end
  end.

Definition prefetch_siblings (m : Manifest) (gid : Z) : list Z :=
  default [] (btree_groups (tree_indexes m) !! gid).

(** What survives a serialization: every field but the rebuilt indexes. *)
Definition strip_indexes (m : Manifest) : Manifest :=
  set_indexes m (strategy m) ∅ no_tree_indexes.

Definition normalize_overrides (m : Manifest) : Manifest :=
  set_groups m (page_count m) (group_pages m) (page_group_keys m) (frame_tables m)
    (grow_to (length (page_group_keys m)) ∅ (subframe_overrides m)).

Definition detect_and_normalize_strategy `{HashIter} (m : Manifest) : Manifest :=
  build_page_index
    (normalize_overrides
      (set_indexes m (detected_strategy m) (page_index m) (tree_indexes m))).

(** [staging::is_valid_page_size], used by the validation gate. *)
Definition is_valid_page_size (ps : Z) : bool :=
  is_power_of_two ps && (512 <=? ps) && (ps <=? 65536).

Definition validate_field_ranges (m : Manifest) : io () :=
  _ ← guard_err (negb (page_size m =? 0) && negb (is_valid_page_size (page_size m))) InvalidData;
  _ ← guard_err (16384 <? pages_per_group m) InvalidData;
  _ ← guard_err (u64_max / 65536 <? page_count m) InvalidData;
  let keys_len := length (page_group_keys m) in
  _ ← guard_err (keys_len <? length (frame_tables m))%nat InvalidData;
  _ ← guard_err (keys_len <? length (subframe_overrides m))%nat InvalidData;
  guard_err (keys_len <? length (group_pages m))%nat InvalidData.

(** [iter().position(|&p| p == x)]. *)
Definition position (x : Z) (l : list Z) : option nat :=
  fst <$> list_find (x =.) l.

(** The frames of a group that hold a dirty page, ascending. *)
Definition dirty_frames_for_group (dirty_page_nums group_pages : list Z)
    (frame_table : list FrameEntry) (sub_pages_per_frame : Z) : list Z :=
  if (sub_pages_per_frame =? 0) || bool_decide (frame_table = []) then []
  else
    let set : gset Z := list_to_set (omap (λ p,
      (λ pos, Z.of_nat pos / sub_pages_per_frame) <$> position p group_pages)
      dirty_page_nums) in
    merge_sort (≤) (elements set).

(* ------------------------------------------------------------------ *)
(** * Lemmas: enumeration and insertion folds *)

Lemma enumerate_lookup {A} (l : list A) i x :
  l !! i = Some x → enumerate l !! i = Some (Z.of_nat i, x).
Proof.
  intros Hx. unfold enumerate, range. apply lookup_zip_Some. split; [|done].
  apply lookup_seqZ. apply lookup_lt_Some in Hx. lia.
Qed.

Lemma elem_of_enumerate {A} (l : list A) i x :
  (i, x) ∈ enumerate l ↔ 0 ≤ i ∧ l !! Z.to_nat i = Some x.
Proof.
  split.
  - intros [n Hn]%list_elem_of_lookup. unfold enumerate, range in Hn.
    apply lookup_zip_Some in Hn as [[-> Hlt]%lookup_seqZ Hx].
    split; [lia|]. by replace (Z.to_nat _) with n by lia.
  - intros [Hi Hx]. apply enumerate_lookup in Hx.
    apply list_elem_of_lookup. exists (Z.to_nat i). rewrite Hx. do 2 f_equal. lia.
Qed.

(** [for (k, v) in l { map.insert(k, v) }]. *)
Definition insert_pairs {K V} `{Countable K} (l : list (K * V)) (m : gmap K V) : gmap K V :=
  foldl (λ acc kv, <[kv.1 := kv.2]> acc) m l.
Arguments insert_pairs : simpl never.

Section insert_pairs.
Context {K V : Type} `{Countable K}.
Implicit Types (l : list (K * V)) (m : gmap K V).

Lemma insert_pairs_cons k v l m :
  insert_pairs ((k, v) :: l) m = insert_pairs l (<[k := v]> m).
Proof. done. Qed.

Lemma insert_pairs_app l1 l2 m :
  insert_pairs (l1 ++ l2) m = insert_pairs l2 (insert_pairs l1 m).
Proof. unfold insert_pairs. by rewrite foldl_app. Qed.

Lemma insert_pairs_lookup_inv l m k v :
  insert_pairs l m !! k = Some v → (k, v) ∈ l ∨ (k ∉ l.*1 ∧ m !! k = Some v).
Proof.
  revert m. induction l as [|[k' v'] l IH]; intros m; [|rewrite insert_pairs_cons]; intros Hl.
  - right. split; [apply not_elem_of_nil|done].
  - apply IH in Hl as [Hl | [Hk Hl]]; [left; by right|].
    rewrite lookup_insert in Hl. case_decide as Hd.
    + left. injection Hl as <-. subst. left.
    + right. split; [|done]. cbn. rewrite elem_of_cons. naive_solver.
Qed.

Lemma insert_pairs_notin l m k : k ∉ l.*1 → insert_pairs l m !! k = m !! k.
Proof.
  revert m. induction l as [|[k' v'] l IH]; intros m Hk; [done|].
  rewrite insert_pairs_cons. cbn in *. rewrite not_elem_of_cons in Hk. destruct Hk as [Hne Hk].
  rewrite IH by done. by rewrite lookup_insert_ne.
Qed.

Lemma insert_pairs_in l m k : k ∈ l.*1 → is_Some (insert_pairs l m !! k).
Proof.
  revert m. induction l as [|[k' v'] l IH]; intros m Hk.
  - by apply not_elem_of_nil in Hk.
  - rewrite insert_pairs_cons. cbn in Hk. destruct (decide (k ∈ l.*1)) as [Hin|Hout]; [by apply IH|].
    rewrite insert_pairs_notin by done.
    apply elem_of_cons in Hk as [-> | Hk]; [|done]. rewrite lookup_insert_eq. eauto.
Qed.

Lemma insert_pairs_NoDup l m k v :
  NoDup l.*1 → (k, v) ∈ l → insert_pairs l m !! k = Some v.
Proof.
  intros Hnd Hin.
  destruct (insert_pairs_in l m k) as [v' Hv'].
  { apply list_elem_of_fmap. by exists (k, v). }
  destruct (insert_pairs_lookup_inv l m k v' Hv') as [Hin' | [Hout _]].
  - rewrite Hv'. f_equal. by eapply NoDup_fst_inj.
  - exfalso. apply Hout, list_elem_of_fmap. by exists (k, v).
Qed.
End insert_pairs.

Lemma insert_all_pairs {K V} `{Countable K} (ks : list K) (v : V) m :
  insert_all ks v m = insert_pairs ((λ k, (k, v)) <$> ks) m.
Proof. unfold insert_all, insert_pairs. by rewrite foldl_fmap. Qed.

Lemma insert_all_lookup {K V} `{Countable K} (ks : list K) (v : V) m k :
  insert_all ks v m !! k = if decide (k ∈ ks) then Some v else m !! k.
Proof.
  rewrite insert_all_pairs.
  assert (((λ k, (k, v)) <$> ks).*1 = ks) as Hfst.
  { rewrite <-list_fmap_compose. apply list_fmap_id. }
  case_decide as Hk.
  - destruct (insert_pairs_in ((λ k, (k, v)) <$> ks) m k) as [w Hw]; [by rewrite Hfst|].
    rewrite Hw. apply insert_pairs_lookup_inv in Hw as [Hw | [Hout _]].
    + apply list_elem_of_fmap in Hw as (? & [= -> ->] & _). done.
    + by rewrite Hfst in Hout.
  - apply insert_pairs_notin. by rewrite Hfst.
Qed.

(** The entries that [build_page_index] inserts for the groups, in order. *)
Definition group_entries (g : Z * list Z) : list (Z * PageLocation) :=
  (λ ip : Z * Z, (ip.2, {| group_id := g.1; index := wrap32 ip.1 |})) <$> enumerate g.2.

Lemma index_groups_entries gp :
  index_groups gp = insert_pairs (enumerate gp ≫= group_entries) ∅.
Proof.
  unfold index_groups. generalize (∅ : gmap Z PageLocation).
  induction (enumerate gp) as [|g l IH]; intros m; [done|].
  cbn. rewrite insert_pairs_app, IH. f_equal.
  unfold index_group, insert_pairs, group_entries. by rewrite foldl_fmap.
Qed.

Lemma group_entries_fst g : (group_entries g).*1 = g.2.
Proof.
  unfold group_entries. rewrite <-list_fmap_compose. cbn. unfold enumerate.
  rewrite (list_fmap_ext _ snd) by done.
  apply snd_zip. rewrite length_range. lia.
Qed.

Lemma entries_fst gp : (enumerate gp ≫= group_entries).*1 = concat gp.
Proof.
  assert (∀ a, ((zip (seqZ a (Z.of_nat (length gp))) gp) ≫= group_entries).*1 = concat gp) as Ha.
  { induction gp as [|g gp IH]; intros a; [done|].
    rewrite seqZ_cons by (cbn; lia). cbn [zip zip_with length concat].
    rewrite bind_cons, fmap_app, group_entries_fst. cbn [snd]. f_equal.
    rewrite <-(IH (Z.succ a)). repeat f_equal. lia. }
  unfold enumerate, range. rewrite Z.sub_0_r. apply Ha.
Qed.

Lemma elem_of_entries gp p loc :
  (p, loc) ∈ enumerate gp ≫= group_entries ↔
  ∃ g i pages, gp !! g = Some pages ∧ pages !! i = Some p ∧
    loc = {| group_id := Z.of_nat g; index := wrap32 (Z.of_nat i) |}.
Proof.
  rewrite list_elem_of_bind. split.
  - intros ([g pages] & Hin & [Hg0 Hg]%elem_of_enumerate).
    apply list_elem_of_fmap in Hin as ([i p'] & [= -> ->] & [Hi0 Hi]%elem_of_enumerate).
    exists (Z.to_nat g), (Z.to_nat i), pages. cbn in *. rewrite !Z2Nat.id by done. done.
  - intros (g & i & pages & Hg & Hi & ->). exists (Z.of_nat g, pages). split.
    + apply list_elem_of_fmap. exists (Z.of_nat i, p). split; [done|].
      apply elem_of_enumerate. rewrite Nat2Z.id. by split; [lia|].
    + apply elem_of_enumerate. rewrite Nat2Z.id. by split; [lia|].
Qed.

(* ------------------------------------------------------------------ *)
(** * Lemmas: validation *)

Lemma is_power_of_two_spec z : is_power_of_two z = true ↔ ∃ k, 0 ≤ k ∧ z = 2 ^ k.
Proof.
  unfold is_power_of_two. rewrite andb_true_iff, Z.ltb_lt, Z.eqb_eq. split.
  - intros [Hz Hl]. exists (Z.log2 z). split; [apply Z.log2_nonneg|].
    pose proof (Z.log2_spec z Hz) as [Hlo Hhi].
    destruct (Z.eq_dec z (2 ^ Z.log2 z)) as [|Hne]; [done|exfalso].
    assert (Z.log2 (z - 1) = Z.log2 z) as Heq.
    { apply Z.log2_unique; [apply Z.log2_nonneg|lia]. }
    assert (0 < 2 ^ Z.log2 z) by (apply Z.pow_pos_nonneg; [lia | apply Z.log2_nonneg]).
    apply (f_equal (λ x, Z.testbit x (Z.log2 z))) in Hl.
    rewrite Z.land_spec, Z.bit_log2, <-Heq, Z.bit_log2, Z.bits_0 in Hl by lia. done.
  - intros (k & Hk & ->). split; [by apply Z.pow_pos_nonneg|].
    rewrite Z.sub_1_r, <-Z.ones_equiv, Z.land_ones by done.
    apply Z.mod_same. apply Z.pow_nonzero; lia.
Qed.

Lemma is_valid_page_size_spec ps :
  is_valid_page_size ps = true ↔ ∃ k, 9 ≤ k ≤ 16 ∧ ps = 2 ^ k.
Proof.
  unfold is_valid_page_size. rewrite !andb_true_iff, is_power_of_two_spec, !Z.leb_le.
  split.
  - intros [[(k & Hk & ->) Hlo] Hhi]. exists k. split; [|done].
    change 512 with (2 ^ 9) in Hlo. change 65536 with (2 ^ 16) in Hhi.
    apply Z.pow_le_mono_r_iff in Hlo; [|lia..]. apply Z.pow_le_mono_r_iff in Hhi; lia.
  - intros (k & Hk & ->). split; [split|].
    + exists k. lia.
    + change 512 with (2 ^ 9). apply Z.pow_le_mono_r; lia.
    + change 65536 with (2 ^ 16). apply Z.pow_le_mono_r; lia.
Qed.

Lemma is_valid_page_size_bounds ps :
  is_valid_page_size ps = true → 512 ≤ ps ≤ 65536.
Proof. unfold is_valid_page_size. rewrite !andb_true_iff, !Z.leb_le. lia. Qed.

Lemma validate_field_ranges_no_panic m : validate_field_ranges m ≠ Panic.
Proof.
  unfold validate_field_ranges. cbn zeta.
  by do 5 (intros [_ H]%guard_bind_Panic; revert H); intros ?%guard_err_no_panic.
Qed.

Lemma validate_field_ranges_Ok m u :
  validate_field_ranges m = Ok u ↔
  (page_size m = 0 ∨ is_valid_page_size (page_size m) = true) ∧
  pages_per_group m ≤ 16384 ∧ page_count m ≤ u64_max / 65536 ∧
  (length (frame_tables m) ≤ length (page_group_keys m))%nat ∧
  (length (subframe_overrides m) ≤ length (page_group_keys m))%nat ∧
  (length (group_pages m) ≤ length (page_group_keys m))%nat.
Proof.
  unfold validate_field_ranges. cbn zeta. split.
  - intros H. inv_ok.
    repeat match goal with
    | H : (_ <? _) = false |- _ => apply Z.ltb_ge in H
    | H : (_ <? _)%nat = false |- _ => apply Nat.ltb_ge in H
    end.
    split_and!; try done.
    destruct (Z.eqb_spec (page_size m) 0); [by left|right].
    by destruct (is_valid_page_size _).
  - destruct u. intros (Hps & Hppg & Hpc & Hft & Hov & Hgp).
    assert (negb (page_size m =? 0) && negb (is_valid_page_size (page_size m)) = false) as Hb.
    { destruct Hps as [-> | ->]; [done|]. by rewrite andb_false_r. }
    apply Z.ltb_ge in Hppg, Hpc. apply Nat.ltb_ge in Hft, Hov, Hgp.
    unfold guard_err. by rewrite Hb, Hppg, Hpc, Hft, Hov, Hgp.
Qed.

(* ------------------------------------------------------------------ *)
(** * Lemmas: locations *)

(** What the theorems ask of a decoded manifest: unsigned fields, the accepted
    ranges, and no page listed twice. *)
Record well_formed (m : Manifest) : Prop := {
  wf_valid : validate_field_ranges m = Ok ();
  wf_page_count : 0 ≤ page_count m;
  wf_ppg : 0 ≤ pages_per_group m;
  wf_disjoint : NoDup (concat (group_pages m));
  wf_group_len : Forall (λ g, Z.of_nat (length g) < 2 ^ 32) (group_pages m)
}.

Lemma positional_bounds m gid :
  well_formed m → 0 ≤ gid → gid * pages_per_group m < page_count m →
  wrap64 (gid * pages_per_group m) = gid * pages_per_group m ∧
  wrap64 (gid * pages_per_group m + pages_per_group m) =
    gid * pages_per_group m + pages_per_group m.
Proof.
  intros [Hv ? ? _ _] Hg Hlt. apply validate_field_ranges_Ok in Hv.
  destruct Hv as (_ & ? & Hpc & _).
  assert (u64_max / 65536 < 2 ^ 48) by done.
  split; apply wrap64_id; unfold is_u64; nia.
Qed.

Lemma build_page_index_wf `{HashIter} m : well_formed m → well_formed (build_page_index m).
Proof.
  intros [Hv ? ? ? ?]. unfold build_page_index.
  destruct (detected_strategy m); constructor; done.
Qed.

(** [group_id]s and positions of a built B-tree-aware index. *)
Lemma index_groups_lookup gp p loc :
  NoDup (concat gp) →
  index_groups gp !! p = Some loc ↔
  ∃ g i pages, gp !! g = Some pages ∧ pages !! i = Some p ∧
    loc = {| group_id := Z.of_nat g; index := wrap32 (Z.of_nat i) |}.
Proof.
  intros Hnd. rewrite index_groups_entries, <-elem_of_entries. split.
  - intros [Hin | [_ Hin]]%insert_pairs_lookup_inv; [done|]. by rewrite lookup_empty in Hin.
  - intros Hin. apply insert_pairs_NoDup; [|done]. by rewrite entries_fst.
Qed.

Lemma lookup_at_index {A} (l : list A) i : at_index l (Z.of_nat i) = l !! i.
Proof.
  unfold at_index. rewrite Nat2Z.id. by destruct (Z.ltb_spec (Z.of_nat i) 0); [lia|].
Qed.

Lemma at_index_Some {A} (l : list A) i x :
  at_index l i = Some x ↔ 0 ≤ i ∧ l !! Z.to_nat i = Some x.
Proof.
  unfold at_index. destruct (Z.ltb_spec i 0); [|naive_solver lia].
  split; [done|]. lia.
Qed.

Lemma positional_location m gid i p :
  strategy m = Positional → well_formed m → 0 ≤ i < 2 ^ 32 → 0 ≤ p →
  page_location m p = Some {| group_id := gid; index := i |} ↔
  0 ≤ gid ∧ gid * pages_per_group m < page_count m ∧ 0 < pages_per_group m ∧
  at_index (group_page_nums m gid) i = Some p.
Proof.
  intros Hs Hwf Hi Hp. pose proof (wf_ppg _ Hwf) as Hppg.
  unfold page_location. rewrite Hs.
  destruct (Z.eqb_spec (pages_per_group m) 0) as [Hz|Hz]; cbn; [split; [done|lia]|].
  assert (pages_per_group m ≤ 16384) as Hle.
  { pose proof (wf_valid _ Hwf) as Hv. apply validate_field_ranges_Ok in Hv.
    by destruct Hv as (_ & ? & _). }
  pose proof (Z.div_mod p (pages_per_group m) Hz) as Hdm.
  pose proof (Z.mod_pos_bound p (pages_per_group m)) as Hmod.
  rewrite wrap32_id by (unfold is_u32; lia).
  unfold group_page_nums. rewrite Hs, at_index_Some. cbn zeta.
  split.
  - destruct (Z.leb_spec (page_count m) p); [done|]. intros [= <- <-].
    assert (0 ≤ p / pages_per_group m) by (apply Z.div_pos; lia).
    rewrite Z.mul_comm in Hdm.
    assert (p / pages_per_group m * pages_per_group m < page_count m) by nia.
    destruct (positional_bounds m (p / pages_per_group m)) as [-> ->]; [done..|].
    split_and!; [lia..|]. rewrite range_lookup by lia. f_equal. lia.
  - intros (Hg & Hlt & _ & _ & Hl).
    destruct (positional_bounds m gid Hwf Hg Hlt) as [Hw1 Hw2].
    rewrite Hw1, Hw2 in Hl. clear Hw1 Hw2.
    pose proof (lookup_lt_Some _ _ _ Hl) as Hlen. rewrite length_range in Hlen.
    rewrite range_lookup in Hl by lia. injection Hl as <-.
    destruct (Z.leb_spec (page_count m) (gid * pages_per_group m + i)); [lia|].
    do 2 f_equal.
    + rewrite Z.add_comm, Z.div_add, Z.div_small by lia. lia.
    + rewrite Z.add_comm, Z.mod_add, Z.mod_small by lia. lia.
Qed.

Lemma btree_location `{HashIter} m gid i p :
  detected_strategy m = BTreeAware → well_formed m → 0 ≤ i < 2 ^ 32 →
  page_location (build_page_index m) p = Some {| group_id := gid; index := i |} ↔
  0 ≤ gid ∧ at_index (group_page_nums (build_page_index m) gid) i = Some p.
Proof.
  intros Hs Hwf Hi. unfold build_page_index, page_location, group_page_nums. rewrite Hs. cbn.
  rewrite index_groups_lookup by apply Hwf. split.
  - intros (g & n & pages & Hg & Hn & [= -> Hin]). split; [lia|].
    rewrite lookup_at_index, Hg. cbn.
    pose proof (wf_group_len _ Hwf) as Hlen.
    rewrite Forall_lookup in Hlen. specialize (Hlen _ _ Hg).
    apply lookup_lt_Some in Hn as Hlt. rewrite wrap32_id in Hin by (unfold is_u32; lia).
    subst i. by rewrite lookup_at_index.
  - intros [Hgid Hl]. destruct (at_index (group_pages m) gid) as [pages|] eqn:Hg; cbn in Hl.
    2: { apply at_index_Some in Hl as [_ Hl]. by rewrite lookup_nil in Hl. }
    apply at_index_Some in Hg as [_ Hg]. apply at_index_Some in Hl as [_ Hl].
    exists (Z.to_nat gid), (Z.to_nat i), pages. rewrite !Z2Nat.id by lia.
    by rewrite wrap32_id.
Qed.

Lemma detected_Positional m :
  detected_strategy m = Positional → group_pages m = [] ∧ strategy m = Positional.
Proof. unfold detected_strategy. destruct (group_pages m), (strategy m); naive_solver. Qed.

Lemma total_groups_positional m gid :
  group_pages m = [] → 0 ≤ page_count m → 0 ≤ pages_per_group m → 0 ≤ gid →
  gid < total_groups m ↔
  0 < pages_per_group m ∧ gid * pages_per_group m < page_count m.
Proof.
  intros Hgp Hpc Hppg Hg. unfold total_groups, total_groups_for. rewrite Hgp.
  destruct (Z.eqb_spec (pages_per_group m) 0); cbn; [lia|].
  destruct (Z.eqb_spec (page_count m) 0); [nia|].
  rewrite div_ceil_lt by lia. lia.
Qed.

Lemma page_location_iff_listed_spec `{HashIter} m gid i p :
  well_formed m → 0 ≤ gid → 0 ≤ i < 2 ^ 32 → 0 ≤ p →
  page_location (build_page_index m) p = Some {| group_id := gid; index := i |} ↔
  (strategy (build_page_index m) = Positional → gid < total_groups m) ∧
  at_index (group_page_nums (build_page_index m) gid) i = Some p.
Proof.
  intros Hwf Hg Hi Hp. destruct (detected_strategy m) eqn:Hs.
  - rewrite positional_location; [| |by apply build_page_index_wf|done..];
      unfold build_page_index in *; rewrite Hs in *; [cbn|done].
    apply detected_Positional in Hs as [Hgp Hs].
    rewrite (total_groups_positional m gid Hgp) by apply Hwf || done.
    naive_solver.
  - rewrite btree_location by done. unfold build_page_index. rewrite Hs. naive_solver.
Qed.

(** C32. After [build_page_index], under either strategy, [page_location] and
    [group_page_nums] are inverse to each other: a page is located at position
    [i] of group [gid] exactly when [gid] is a group of the manifest (for a
    B-tree-aware manifest, exactly when it lists the page there) and the
    group's page list has the page at [i].  So no page is looked up in an
    object that does not hold it, and none of the listed pages is lost. *)
Theorem page_location_iff_listed `{HashIter} m gid i p :
  well_formed m → 0 ≤ gid → 0 ≤ i < 2 ^ 32 → 0 ≤ p →
  page_location (build_page_index m) p = Some {| group_id := gid; index := i |} ↔
  (strategy (build_page_index m) = Positional → gid < total_groups m) ∧
  at_index (group_page_nums (build_page_index m) gid) i = Some p.
Proof. apply page_location_iff_listed_spec. Qed.

Definition example_manifest : Manifest :=
  set_groups (set_indexes empty_manifest BTreeAware ∅ no_tree_indexes) 5
    [[0; 3]; [4; 1; 2]] ["p/d/0_v1"; "p/d/1_v1"] [] [].

Lemma example_manifest_wf : well_formed example_manifest.
Proof.
  split; [reflexivity | cbn; lia | cbn; lia | |].
  - apply (bool_decide_eq_true_1 _). reflexivity.
  - repeat constructor; cbn; lia.
Defined.

Lemma page_location_iff_listed_witness :
  page_location (@build_page_index canonical_iter example_manifest) 2 =
    Some {| group_id := 1; index := 2 |}.
Proof.
  apply (@page_location_iff_listed canonical_iter example_manifest 1 2 2);
    [exact example_manifest_wf | lia | lia | lia |].
  split; [intros [=] | reflexivity].
Defined.

(** [group_size], the allocation-free variant, is the length of
    [group_page_nums] for every group id of the manifest. *)
Theorem group_size_is_length m gid :
  well_formed m → 0 ≤ gid → (strategy m = Positional → gid * pages_per_group m < page_count m) →
  group_size m gid = Z.of_nat (length (group_page_nums m gid)).
Proof.
  intros Hwf Hg Hlt. unfold group_size, group_page_nums. destruct (strategy m) eqn:Hs.
  - cbn zeta. pose proof (wf_ppg _ Hwf). specialize (Hlt eq_refl).
    destruct (positional_bounds m gid Hwf Hg Hlt) as [Hw1 Hw2]. rewrite Hw1, Hw2.
    rewrite length_range. unfold saturating_sub. lia.
  - by destruct (at_index _ _).
Qed.

Lemma group_size_is_length_witness :
  group_size example_manifest 1 = Z.of_nat (length (group_page_nums example_manifest 1)).
Proof.
  apply (group_size_is_length example_manifest 1); [exact example_manifest_wf | lia | intros [=]].
Defined.

Lemma range_app a b c : a ≤ b ≤ c → range a b ++ range b c = range a c.
Proof.
  intros H. unfold range. replace (c - a) with ((b - a) + (c - b)) by lia.
  rewrite seqZ_app by lia. by replace (a + (b - a)) with b by lia.
Qed.

Lemma positional_prefix m n :
  strategy m = Positional → well_formed m →
  (Z.of_nat n ≤ total_groups_for (page_count m) (pages_per_group m)) →
  concat (group_page_nums m <$> range 0 (Z.of_nat n)) =
  range 0 (Z.min (Z.of_nat n * pages_per_group m) (page_count m)).
Proof.
  intros Hs Hwf. pose proof (wf_page_count _ Hwf). pose proof (wf_ppg _ Hwf).
  induction n as [|n IH]; intros Hn.
  - rewrite Z.mul_0_l, Z.min_l by lia. done.
  - unfold total_groups_for in *.
    destruct (Z.eqb_spec (pages_per_group m) 0); cbn in Hn; [lia|].
    destruct (Z.eqb_spec (page_count m) 0); [lia|].
    assert (Z.of_nat n * pages_per_group m < page_count m) as Hlt
      by (apply div_ceil_lt; lia).
    unfold range. rewrite Nat2Z.inj_succ, Z.sub_0_r, <-Z.add_1_r, seqZ_app by lia.
    rewrite fmap_app, concat_app. unfold range in IH. rewrite Z.sub_0_r in IH.
    rewrite IH by (cbn in *; lia). rewrite Z.add_0_l. change (seqZ (Z.of_nat n) 1) with [Z.of_nat n].
    cbn [fmap list_fmap concat]. rewrite app_nil_r.
    unfold group_page_nums. rewrite Hs. cbn zeta.
    destruct (positional_bounds m (Z.of_nat n)) as [Hw1 Hw2]; [done|lia|done|].
    rewrite Hw1, Hw2.
    rewrite (Z.min_l (Z.of_nat n * _)) by lia. fold (range 0 (Z.of_nat n * pages_per_group m)).
    rewrite range_app by lia. unfold range. repeat f_equal; lia.
Qed.

(** The groups of a positional manifest partition the database: listing
    them in order lists the pages 0 .. page_count, each one once. *)
Theorem positional_groups_partition m :
  strategy m = Positional → group_pages m = [] → well_formed m → 0 < pages_per_group m →
  concat (group_page_nums m <$> range 0 (total_groups m)) = range 0 (page_count m).
Proof.
  intros Hs Hgp Hwf Hppg. pose proof (wf_page_count _ Hwf).
  unfold total_groups. rewrite Hgp.
  assert (0 ≤ total_groups_for (page_count m) (pages_per_group m)) as Hnn.
  { unfold total_groups_for. destruct (_ || _); [lia|]. apply div_ceil_nonneg; lia. }
  rewrite <-(Z2Nat.id (total_groups_for _ _)) by done.
  rewrite positional_prefix by (done || lia). rewrite Z2Nat.id by done. f_equal.
  unfold total_groups_for in *. destruct (Z.eqb_spec (pages_per_group m) 0); [lia|].
  destruct (Z.eqb_spec (page_count m) 0); cbn; [lia|].
  pose proof (div_ceil_spec (page_count m) (pages_per_group m)). lia.
Qed.

Definition example_positional : Manifest :=
  {| version := 1; change_counter := 1; page_count := 7; page_size := 4096;
     pages_per_group := 3; page_group_keys := []; interior_chunk_keys := ∅;
     index_chunk_keys := ∅; frame_tables := []; sub_pages_per_frame := 0;
     subframe_overrides := []; strategy := Positional; group_pages := [];
     btrees := ∅; page_index := ∅; tree_indexes := no_tree_indexes;
     db_header := None; discontinuity_stamp := 0; cursor := default_cursor;
     writer_id := "" |}.

Lemma positional_groups_partition_witness :
  concat (group_page_nums example_positional <$> range 0 (total_groups example_positional)) =
  range 0 7.
Proof.
  apply (positional_groups_partition example_positional); [reflexivity | reflexivity | | cbn; lia].
  split; [reflexivity | cbn; lia | cbn; lia | constructor | constructor].
Defined.

(* ------------------------------------------------------------------ *)
(** * Tree indexes *)

(** The last entry of the visiting order that owns a group. *)
Definition owner (l : list (Z * BTreeManifestEntry)) (gid : Z) : option BTreeManifestEntry :=
  foldl (λ acc re, if decide (gid ∈ bt_group_ids re.2) then Some re.2 else acc) None l.

Lemma index_btree_owner gp l gid ti :
  (∀ e0, btree_groups ti !! gid = bt_group_ids <$> e0 →
    group_to_tree_name ti !! gid = bt_name <$> e0 →
    let e := foldl (λ acc re, if decide (gid ∈ bt_group_ids re.2) then Some re.2 else acc) e0 l in
    btree_groups (foldl (index_btree gp) ti l) !! gid = bt_group_ids <$> e ∧
    group_to_tree_name (foldl (index_btree gp) ti l) !! gid = bt_name <$> e).
Proof.
  revert ti. induction l as [|[r e] l IH]; intros ti e0 Hb Hn; [done|].
  cbn. apply IH; cbn; rewrite insert_all_lookup; by case_decide.
Qed.

Lemma owner_elem l gid :
  match owner l gid with
  | Some e => ∃ r, (r, e) ∈ l ∧ gid ∈ bt_group_ids e
  | None => ∀ r e, (r, e) ∈ l → gid ∉ bt_group_ids e
  end.
Proof.
  unfold owner. induction l as [|[r e] l IH] using rev_ind; [set_solver|].
  rewrite foldl_app. cbn. case_decide as Hin.
  - exists r. split; [|done]. apply elem_of_app. right. by apply list_elem_of_singleton.
  - destruct (foldl _ _ _) as [e'|].
    + destruct IH as (r' & Hr' & ?). exists r'. split; [|done]. apply elem_of_app. by left.
    + intros r' e' [?|[= -> ->]%list_elem_of_singleton]%elem_of_app; naive_solver.
Qed.

(** Whatever order the B-tree table is visited in, the prefetch siblings
    recorded for a group are the group list of one B-tree that owns the group,
    and the tree name recorded for it is the name of that same B-tree; a group
    that no B-tree owns has no siblings and no name. *)
Theorem prefetch_siblings_of_owner `{HashIter} m gid :
  strategy (build_page_index m) = BTreeAware →
  match group_to_tree_name (tree_indexes (build_page_index m)) !! gid with
  | Some name => ∃ root e, btrees m !! root = Some e ∧ gid ∈ bt_group_ids e ∧
      bt_name e = name ∧ prefetch_siblings (build_page_index m) gid = bt_group_ids e
  | None => prefetch_siblings (build_page_index m) gid = [] ∧
      ∀ root e, btrees m !! root = Some e → gid ∉ bt_group_ids e
  end.
Proof.
  unfold build_page_index, prefetch_siblings. destruct (detected_strategy m); [done|]. intros _. cbn.
  destruct (index_btree_owner (group_pages m) (hiter (btrees m)) gid no_tree_indexes None)
    as [Hb Hn]; [done|done|].
  fold (owner (hiter (btrees m)) gid) in *. rewrite Hb, Hn.
  pose proof (owner_elem (hiter (btrees m)) gid) as Ho.
  destruct (owner _ _) as [e|]; cbn.
  - destruct Ho as (r & Hr%elem_of_hiter & Hin). by exists r, e.
  - split; [done|]. intros root e He. apply (Ho root). by apply elem_of_hiter.
Qed.

Definition shared_group_manifest : Manifest :=
  let m := set_groups empty_manifest 4 [[0; 1; 2; 3]; [4]] ["a"; "b"] [] [] in {|
  version := 1; change_counter := 1; page_count := 5; page_size := 4096;
  pages_per_group := 4; page_group_keys := ["a"; "b"]; interior_chunk_keys := ∅;
  index_chunk_keys := ∅; frame_tables := []; sub_pages_per_frame := 0;
  subframe_overrides := []; strategy := BTreeAware; group_pages := group_pages m;
  btrees := {[ 0 := {| bt_name := "users"; bt_obj_type := "table"; bt_group_ids := [0];
                       bt_pages := [0; 1] |};
               2 := {| bt_name := "posts"; bt_obj_type := "table"; bt_group_ids := [0; 1];
                       bt_pages := [2; 3; 4] |} ]};
  page_index := ∅; tree_indexes := no_tree_indexes; db_header := None;
  discontinuity_stamp := 0; cursor := default_cursor; writer_id := "" |}.

Lemma prefetch_siblings_of_owner_witness :
  ∃ root e, btrees shared_group_manifest !! root = Some e ∧ 0 ∈ bt_group_ids e ∧
    prefetch_siblings (@build_page_index canonical_iter shared_group_manifest) 0 = bt_group_ids e.
Proof.
  pose proof (@prefetch_siblings_of_owner canonical_iter shared_group_manifest 0 eq_refl) as Hs.
  vm_compute (group_to_tree_name _ !! _) in Hs.
  destruct Hs as (root & e & ? & ? & _ & ?). by exists root, e.
Defined.

(** Two visiting orders of one manifest that give group 0, shared by two
    small B-trees, different siblings. *)
Lemma prefetch_siblings_depend_on_order :
  prefetch_siblings (@build_page_index canonical_iter shared_group_manifest) 0 ≠
  prefetch_siblings (@build_page_index reversed_iter shared_group_manifest) 0.
Proof. vm_compute. discriminate. Qed.

(* ------------------------------------------------------------------ *)
(** * Normalisation and dirty frames *)

Lemma grow_to_idemp {A} n (x : A) l : (n ≤ length l)%nat → grow_to n x l = l.
Proof. intros Hn. unfold grow_to. replace (n - length l)%nat with 0%nat by lia. apply app_nil_r. Qed.

Lemma detected_strategy_stable m x :
  group_pages x = group_pages m → strategy x = detected_strategy m →
  detected_strategy x = detected_strategy m.
Proof.
  intros Hg Hs. unfold detected_strategy in *. rewrite Hg, Hs.
  by destruct (group_pages m), (strategy m).
Qed.

Lemma build_page_index_strategy `{HashIter} m :
  strategy (build_page_index m) = detected_strategy m.
Proof. unfold build_page_index. by destruct (detected_strategy m). Qed.

Lemma build_page_index_group_pages `{HashIter} m :
  group_pages (build_page_index m) = group_pages m.
Proof. unfold build_page_index. by destruct (detected_strategy m). Qed.

Lemma build_page_index_idemp `{HashIter} m :
  build_page_index (build_page_index m) = build_page_index m.
Proof.
  assert (detected_strategy (build_page_index m) = detected_strategy m) as Hd.
  { apply detected_strategy_stable; [apply build_page_index_group_pages|].
    apply build_page_index_strategy. }
  unfold build_page_index at 1. rewrite Hd. unfold build_page_index.
  by destruct (detected_strategy m).
Qed.

Lemma normalize_overrides_id m :
  (length (page_group_keys m) ≤ length (subframe_overrides m))%nat →
  normalize_overrides m = m.
Proof. intros Hl. unfold normalize_overrides. rewrite grow_to_idemp by done. by destruct m. Qed.

(** [detect_and_normalize_strategy] is idempotent, leaves one override
    table per page-group key, and a manifest with explicit groups ends up
    B-tree-aware. *)
Theorem detect_and_normalize_idempotent `{HashIter} m :
  let m' := detect_and_normalize_strategy m in
  detect_and_normalize_strategy m' = m' ∧
  length (subframe_overrides m') =
    Nat.max (length (page_group_keys m)) (length (subframe_overrides m)) ∧
  (group_pages m ≠ [] → strategy m' = BTreeAware).
Proof.
  cbn zeta. unfold detect_and_normalize_strategy.
  set (n := normalize_overrides (set_indexes m _ _ _)).
  assert (detected_strategy n = detected_strategy m) as Hn by by apply detected_strategy_stable.
  assert (subframe_overrides (build_page_index n) = subframe_overrides n ∧
    page_group_keys (build_page_index n) = page_group_keys m) as [Ho Hk]
    by by (unfold build_page_index; destruct (detected_strategy n)).
  assert (length (subframe_overrides n) =
    Nat.max (length (page_group_keys m)) (length (subframe_overrides m))) as Hlen
    by (unfold n; cbn; apply length_grow_to).
  split_and!.
  - set (b := build_page_index n) in *.
    assert (detected_strategy b = strategy b) as Hb.
    { unfold b. rewrite build_page_index_strategy. apply detected_strategy_stable;
        [apply build_page_index_group_pages | apply build_page_index_strategy]. }
    replace (set_indexes b _ _ _) with b by (rewrite Hb; by destruct b).
    rewrite normalize_overrides_id by (rewrite Hk, Ho, Hlen; lia).
    apply build_page_index_idemp.
  - by rewrite Ho.
  - rewrite build_page_index_strategy, Hn. unfold detected_strategy.
    by destruct (group_pages m), (strategy m).
Qed.

Lemma position_Some x l n :
  position x l = Some n ↔ l !! n = Some x ∧ ∀ j, (j < n)%nat → l !! j ≠ Some x.
Proof.
  unfold position. rewrite fmap_Some. split.
  - intros ([k y] & Hf & ->). apply list_find_Some in Hf as (Hk & <- & Hj). cbn.
    split; [done|]. intros j Hjk Hx. by apply (Hj j x).
  - intros [Hn Hj]. exists (n, x). split; [|done]. apply list_find_Some.
    split_and!; [done..|]. intros j y Hy Hlt <-. by apply (Hj j).
Qed.

Lemma dirty_frames_spec dirty gp ft sub :
  0 ≤ sub →
  let fs := dirty_frames_for_group dirty gp ft sub in
  StronglySorted Z.lt fs ∧
  ∀ f, f ∈ fs ↔ 0 < sub ∧ ft ≠ [] ∧
    ∃ p pos, p ∈ dirty ∧ position p gp = Some pos ∧ f * sub ≤ Z.of_nat pos < (f + 1) * sub.
Proof.
  intros Hsub. unfold dirty_frames_for_group. cbn zeta.
  destruct (Z.eqb_spec sub 0) as [->|Hz]; cbn.
  { split; [constructor|]. set_solver by lia. }
  case_bool_decide as Hft; [split; [constructor|set_solver]|].
  set (S := list_to_set _ : gset Z). split.
  - assert (StronglySorted (≤) (merge_sort (≤) (elements S))) as Hs
      by (apply (StronglySorted_merge_sort _)).
    assert (NoDup (merge_sort (≤) (elements S))) as Hnd
      by (rewrite merge_sort_Permutation; apply NoDup_elements).
    induction Hs as [|x l Hl IH Hx]; constructor; apply NoDup_cons in Hnd as [Hn Hnd]; [by apply IH|].
    rewrite Forall_forall in Hx |- *. intros y Hy. specialize (Hx y Hy).
    assert (x ≠ y) by naive_solver. lia.
  - intros f. rewrite merge_sort_Permutation, elem_of_elements. unfold S.
    rewrite elem_of_list_to_set, list_elem_of_omap.
    split.
    + intros (p & Hp & (pos & Hpos & ->)%fmap_Some). split_and!; [lia|done|]. exists p, pos.
      pose proof (Z.div_mod (Z.of_nat pos) sub). pose proof (Z.mod_pos_bound (Z.of_nat pos) sub).
      split; [exact Hp|]. split; [exact Hpos|]. split; nia.
    + intros (? & _ & p & pos & Hp & Hpos & Hf). exists p. split; [done|].
      rewrite Hpos. cbn. f_equal. symmetry. apply Z.div_unique with (Z.of_nat pos - f * sub); lia.
Qed.

(** [dirty_frames_for_group] returns, in strictly ascending order, exactly
    the frames that hold the first occurrence of some dirty page in the group;
    a group without a frame table or without sub-page frames has none. *)
Theorem dirty_frames_exact dirty gp ft sub :
  0 ≤ sub →
  let fs := dirty_frames_for_group dirty gp ft sub in
  StronglySorted Z.lt fs ∧
  ∀ f, f ∈ fs ↔ 0 < sub ∧ ft ≠ [] ∧
    ∃ p pos, p ∈ dirty ∧ position p gp = Some pos ∧ f * sub ≤ Z.of_nat pos < (f + 1) * sub.
Proof. apply dirty_frames_spec. Qed.

Lemma dirty_frames_exact_witness :
  StronglySorted Z.lt (dirty_frames_for_group [7; 3; 9] [3; 4; 5; 7; 8] [{| fe_offset := 0; fe_len := 9 |}] 2)
  ∧ dirty_frames_for_group [7; 3; 9] [3; 4; 5; 7; 8] [{| fe_offset := 0; fe_len := 9 |}] 2 = [0; 1].
Proof.
  split; [|reflexivity].
  apply (dirty_frames_exact [7; 3; 9] [3; 4; 5; 7; 8] [{| fe_offset := 0; fe_len := 9 |}] 2). lia.
Defined.
