(* ===== verification/Wire.v ===== *)
(** The published manifest envelope (src/src/tiered/wire.rs): magic, version
    and a canonical CBOR body, with the legacy payloads told apart, and the
    chain anchor computed over it.  CBOR (ciborium) and BLAKE3 are
    parameters. *)

From S2P Require Import Prelude Manifest.

(* ------------------------------------------------------------------ *)
(** * Data *)

Inductive PayloadVersionError :=
  | HybridDeprecated
  | PureMsgpackDeprecated
  | Truncated (n : nat)
  | MagicMismatch (got : bytes)
  | UnsupportedVersion (found supported : Z)
  | BodyDecode
  | BodyEncode.

(** [impl From<PayloadVersionError> for io::Error]. *)
Definition io_of_payload_error (_ : PayloadVersionError) : io_kind := InvalidData.

Record CanonicalManifestV1 := {
  c_version : Z;
  c_change_counter : Z;
  c_discontinuity_stamp : Z;
  c_cursor : ReplayCursor;
  c_writer_id : string;
  c_page_count : Z;
  c_page_size : Z;
  c_pages_per_group : Z;
  c_sub_pages_per_frame : Z;
  c_strategy : GroupingStrategy;
  c_db_header : option bytes;
  c_page_group_keys : list string;
  c_frame_tables : list (list FrameEntry);
  c_group_pages : list (list Z);
  c_btrees : list (Z * BTreeManifestEntry);
  c_interior_chunk_keys : list (Z * string);
  c_index_chunk_keys : list (Z * string);
  c_subframe_overrides : list (list (Z * SubframeOverride))
}.

#[export] Instance CanonicalManifestV1_eq_dec : EqDecision CanonicalManifestV1.
Proof. solve_decision. Defined.

(** The fields one by one, each by its own code. *)
Definition canonical_fields (c : CanonicalManifestV1) : list positive :=
  [countable.encode (c_version c); countable.encode (c_change_counter c);
   countable.encode (c_discontinuity_stamp c); countable.encode (c_cursor c);
   countable.encode (c_writer_id c); countable.encode (c_page_count c);
   countable.encode (c_page_size c); countable.encode (c_pages_per_group c);
   countable.encode (c_sub_pages_per_frame c); countable.encode (c_strategy c);
   countable.encode (c_db_header c); countable.encode (c_page_group_keys c);
   countable.encode (c_frame_tables c); countable.encode (c_group_pages c);
   countable.encode (c_btrees c); countable.encode (c_interior_chunk_keys c);
   countable.encode (c_index_chunk_keys c); countable.encode (c_subframe_overrides c)].

Definition canonical_parse (l : list positive) : option CanonicalManifestV1 :=
  match l with
  | [a1; a2; a3; a4; a5; a6; a7; a8; a9; a10; a11; a12; a13; a14; a15; a16; a17; a18] =>
      v1 ← countable.decode a1; v2 ← countable.decode a2; v3 ← countable.decode a3;
      v4 ← countable.decode a4; v5 ← countable.decode a5; v6 ← countable.decode a6;
      v7 ← countable.decode a7; v8 ← countable.decode a8; v9 ← countable.decode a9;
      v10 ← countable.decode a10; v11 ← countable.decode a11; v12 ← countable.decode a12;
      v13 ← countable.decode a13; v14 ← countable.decode a14; v15 ← countable.decode a15;
      v16 ← countable.decode a16; v17 ← countable.decode a17; v18 ← countable.decode a18;
      Some {| c_version := v1; c_change_counter := v2; c_discontinuity_stamp := v3;
        c_cursor := v4; c_writer_id := v5; c_page_count := v6; c_page_size := v7;
        c_pages_per_group := v8; c_sub_pages_per_frame := v9; c_strategy := v10;
        c_db_header := v11; c_page_group_keys := v12; c_frame_tables := v13;
        c_group_pages := v14; c_btrees := v15; c_interior_chunk_keys := v16;
        c_index_chunk_keys := v17; c_subframe_overrides := v18 |}
  | _ => None
  end.

#[export] Instance CanonicalManifestV1_countable : Countable CanonicalManifestV1.
Proof.
  refine (inj_countable canonical_fields canonical_parse _).
  intros []. unfold canonical_fields, canonical_parse. cbn [c_version c_change_counter
    c_discontinuity_stamp c_cursor c_writer_id c_page_count c_page_size c_pages_per_group
    c_sub_pages_per_frame c_strategy c_db_header c_page_group_keys c_frame_tables c_group_pages
    c_btrees c_interior_chunk_keys c_index_chunk_keys c_subframe_overrides].
  by rewrite !decode_encode.
Defined.

Definition MAGIC : bytes := [Byte.x54; Byte.x4c; Byte.x4d; Byte.x31].
Definition VERSION_V1 : Z := 1.
Definition TAG_LEGACY_PURE : byte := Byte.x01.
Definition TAG_LEGACY_HYBRID : byte := Byte.x02.
Definition MAX_MANIFEST_BYTES : Z := 256 * 1024 * 1024.

(** [impl From<&Manifest> for CanonicalManifestV1]. *)
Definition canonical_of `{HashIter} (m : Manifest) : CanonicalManifestV1 := {|
  c_version := version m;
  c_change_counter := change_counter m;
  c_discontinuity_stamp := discontinuity_stamp m;
  c_cursor := cursor m;
  c_writer_id := writer_id m;
  c_page_count := page_count m;
  c_page_size := page_size m;
  c_pages_per_group := pages_per_group m;
  c_sub_pages_per_frame := sub_pages_per_frame m;
  c_strategy := strategy m;
  c_db_header := db_header m;
  c_page_group_keys := page_group_keys m;
  c_frame_tables := frame_tables m;
  c_group_pages := group_pages m;
  c_btrees := sort_by_key (hiter (btrees m));
  c_interior_chunk_keys := sort_by_key (hiter (interior_chunk_keys m));
  c_index_chunk_keys := sort_by_key (hiter (index_chunk_keys m));
  c_subframe_overrides := (λ inner, sort_by_key (hiter inner)) <$> subframe_overrides m
|}.

(** [impl From<CanonicalManifestV1> for Manifest]. *)
Definition manifest_of (c : CanonicalManifestV1) : Manifest := {|
  version := c_version c;
  change_counter := c_change_counter c;
  page_count := c_page_count c;
  page_size := c_page_size c;
  pages_per_group := c_pages_per_group c;
  page_group_keys := c_page_group_keys c;
  interior_chunk_keys := collect_map (c_interior_chunk_keys c);
  index_chunk_keys := collect_map (c_index_chunk_keys c);
  frame_tables := c_frame_tables c;
  sub_pages_per_frame := c_sub_pages_per_frame c;
  subframe_overrides := collect_map <$> c_subframe_overrides c;
  strategy := c_strategy c;
  group_pages := c_group_pages c;
  btrees := collect_map (c_btrees c);
  page_index := ∅;
  tree_indexes := no_tree_indexes;
  db_header := c_db_header c;
  discontinuity_stamp := c_discontinuity_stamp c;
  cursor := c_cursor c;
  writer_id := c_writer_id c
|}.

Definition clear_anchor (m : Manifest) : Manifest :=
  set_stamp m (version m) (change_counter m) (db_header m)
    {| last_applied_seq := last_applied_seq (cursor m); base_object_checksum := [];
       cursor_epoch := cursor_epoch (cursor m) |} (writer_id m).

(* ------------------------------------------------------------------ *)
(** * Encoding and decoding *)

Section wire.
(** [ciborium::into_writer], [ciborium::from_reader] and [blake3::hash]. *)
Variable into_writer : CanonicalManifestV1 → option bytes.
Variable from_reader : bytes → option CanonicalManifestV1.
Variable blake3 : bytes → bytes.

Definition encode `{HashIter} (m : Manifest) : outcome PayloadVersionError bytes :=
  body ← ok_or (into_writer (canonical_of m)) BodyEncode;
  Ok (MAGIC ++ be_bytes 2 VERSION_V1 ++ body).

Definition decode (data : bytes) : outcome PayloadVersionError Manifest :=
  match data with
  | [] => Err (Truncated 0)
  | b0 :: _ =>
      if decide (b0 = TAG_LEGACY_HYBRID) then Err HybridDeprecated
      else if decide (b0 = TAG_LEGACY_PURE) then Err PureMsgpackDeprecated
      else
        _ ← guard_err (length data <? length MAGIC + 2)%nat (Truncated (length data));
        got ← or_panic (slice 0 4 data);
        _ ← guard_err (bool_decide (got ≠ MAGIC)) (MagicMismatch got);
        version_bytes ← or_panic (slice 4 6 data);
        let version := of_be version_bytes in
        _ ← guard_err (negb (version =? VERSION_V1)) (UnsupportedVersion version VERSION_V1);
        body ← or_panic (slice 6 (Z.of_nat (length data)) data);
        _ ← guard_err (MAX_MANIFEST_BYTES <? Z.of_nat (length body)) BodyDecode;
        canonical ← ok_or (from_reader body) BodyDecode;
        let manifest := manifest_of canonical in
        match validate_field_ranges manifest with
        | Ok _ => Ok manifest
        | Err _ => Err BodyDecode
        | Panic => Panic
        end
  end.

Definition checksum (envelope_bytes : bytes) : bytes := blake3 envelope_bytes.

Definition base_anchor_checksum `{HashIter} (m : Manifest) :
    outcome PayloadVersionError bytes :=
  b ← encode (clear_anchor m); Ok (checksum b).
End wire.

(** [decode_manifest_bytes] (manifest.rs): the MessagePack form of the local
    state file; the decoder [rmp_serde::from_slice] is a parameter. *)
Definition decode_manifest_bytes (from_slice : bytes → option Manifest) (data : bytes) :
    io Manifest :=
  _ ← guard_err (MAX_MANIFEST_BYTES <? Z.of_nat (length data)) InvalidData;
  manifest ← ok_or (from_slice data) InvalidData;
  _ ← validate_field_ranges manifest;
  Ok manifest.

(* ------------------------------------------------------------------ *)
(** * Lemmas *)

Lemma canonical_of_order (I1 I2 : HashIter) m :
  @canonical_of I1 m = @canonical_of I2 m.
Proof.
  unfold canonical_of. f_equal; try apply sort_by_key_hiter.
  apply list_fmap_ext. intros ???. apply sort_by_key_hiter.
Qed.

Lemma manifest_of_canonical `{HashIter} m : manifest_of (canonical_of m) = strip_indexes m.
Proof.
  unfold manifest_of, canonical_of, strip_indexes, set_indexes; cbn.
  f_equal; try apply collect_sorted.
  rewrite <-list_fmap_compose, <-(list_fmap_id (subframe_overrides m)).
  rewrite <-list_fmap_compose. apply list_fmap_ext. intros i inner _. apply collect_sorted.
Qed.

Lemma canonical_of_strip `{HashIter} m : canonical_of (strip_indexes m) = canonical_of m.
Proof. done. Qed.

(** The header of an envelope, as [decode] sees it. *)
Lemma decode_envelope rd body :
  decode rd (MAGIC ++ be_bytes 2 VERSION_V1 ++ body) =
  if MAX_MANIFEST_BYTES <? Z.of_nat (length body) then Err BodyDecode else
  match rd body with
  | None => Err BodyDecode
  | Some c =>
      match validate_field_ranges (manifest_of c) with
      | Ok _ => Ok (manifest_of c) | Err _ => Err BodyDecode | Panic => Panic
      end
  end.
Proof.
  unfold decode. rewrite app_assoc. set (h := MAGIC ++ be_bytes 2 VERSION_V1).
  assert (length h = 6%nat) as Hh by done.
  assert (h ++ body = Byte.x54 :: drop 1 h ++ body) as -> by done.
  destruct (decide _); [done|]. destruct (decide _); [done|].
  change (Byte.x54 :: drop 1 h ++ body) with (h ++ body).
  assert ((length (h ++ body) <? length MAGIC + 2)%nat = false) as ->.
  { apply Nat.ltb_ge. rewrite length_app, Hh. cbn. lia. }
  assert (slice 0 4 (h ++ body) = Some MAGIC) as ->
    by by apply (slice_app 0 4 [] MAGIC (be_bytes 2 VERSION_V1 ++ body)).
  assert (slice 4 6 (h ++ body) = Some (be_bytes 2 VERSION_V1)) as ->
    by by apply (slice_app 4 6 MAGIC (be_bytes 2 VERSION_V1) body).
  assert (slice 6 (Z.of_nat (length (h ++ body))) (h ++ body) = Some body) as ->.
  { pose proof (slice_app 6 (Z.of_nat (length (h ++ body))) h body []) as Hs.
    rewrite app_nil_r in Hs. apply Hs; [done|]. rewrite length_app, Hh. lia. }
  cbn -[Z.of_nat].
  destruct (_ <? _); [done|]. cbn. by destruct (rd body).
Qed.

(** Decoding the envelope of a manifest. *)
Lemma decode_encoded `{HashIter} wr rd m b :
  (∀ c b, wr c = Some b → rd b = Some c) →
  encode wr m = Ok b → Z.of_nat (length b) ≤ 6 + MAX_MANIFEST_BYTES →
  validate_field_ranges (strip_indexes m) = Ok () →
  decode rd b = Ok (strip_indexes m).
Proof.
  intros Hcbor He Hlen Hv. unfold encode in He. inv_ok.
  rewrite decode_envelope. rewrite !length_app, length_be_bytes in Hlen.
  change (length MAGIC) with 4%nat in Hlen.
  destruct (Z.ltb_spec MAX_MANIFEST_BYTES (Z.of_nat (length x))); [lia|].
  by rewrite (Hcbor _ _ H0), manifest_of_canonical, Hv.
Qed.

(* ------------------------------------------------------------------ *)
(** * Theorems *)

(** C18. A manifest that encodes, fits the size cap and passes the field-range
    gate decodes to itself with the rebuilt indexes empty, whatever order the
    writer's hash tables were visited in. *)
Theorem decode_encode_roundtrip `{HashIter} wr rd m b :
  (∀ c b, wr c = Some b → rd b = Some c) →
  encode wr m = Ok b → Z.of_nat (length b) ≤ 6 + MAX_MANIFEST_BYTES →
  validate_field_ranges (strip_indexes m) = Ok () →
  decode rd b = Ok (strip_indexes m).
Proof. apply decode_encoded. Qed.

(** The encoded bytes are a function of the logical manifest: two runs
    that visit the hash tables in different orders, from manifests that differ
    at most in the rebuilt indexes, produce the same envelope. *)
Theorem encode_canonical (I1 I2 : HashIter) wr m1 m2 :
  strip_indexes m1 = strip_indexes m2 → @encode wr I1 m1 = @encode wr I2 m2.
Proof.
  intros Heq. unfold encode.
  rewrite <-(@canonical_of_strip I1 m1), <-(@canonical_of_strip I2 m2), Heq.
  by rewrite (canonical_of_order I1 I2).
Qed.

(** C34. [base_anchor_checksum] ignores the anchor field and nothing else that
    is published: two manifests with the same anchor either agree on every
    published field but [cursor.base_object_checksum], or exhibit a BLAKE3
    collision. *)
Theorem base_anchor_binds `{HashIter} wr rd blake3 m1 m2 :
  (∀ c b, wr c = Some b → rd b = Some c) →
  (strip_indexes (clear_anchor m1) = strip_indexes (clear_anchor m2) →
    base_anchor_checksum wr blake3 m1 = base_anchor_checksum wr blake3 m2) ∧
  ∀ a, base_anchor_checksum wr blake3 m1 = Ok a → base_anchor_checksum wr blake3 m2 = Ok a →
    strip_indexes (clear_anchor m1) = strip_indexes (clear_anchor m2) ∨
    ∃ b1 b2, b1 ≠ b2 ∧ blake3 b1 = blake3 b2.
Proof.
  intros Hcbor. split.
  - intros Heq. unfold base_anchor_checksum, encode.
    by rewrite <-(canonical_of_strip (clear_anchor m1)), Heq, canonical_of_strip.
  - intros a H1 H2. unfold base_anchor_checksum, checksum, encode in *. inv_ok.
    match goal with
    | Ha : wr (canonical_of (clear_anchor m1)) = Some ?x1,
      Hb : wr (canonical_of (clear_anchor m2)) = Some ?x2 |- _ =>
        destruct (decide (x1 = x2)) as [<-|Hne];
        [left | right; exists (MAGIC ++ be_bytes 2 VERSION_V1 ++ x1),
                  (MAGIC ++ be_bytes 2 VERSION_V1 ++ x2)]
    end.
    + rewrite <-!manifest_of_canonical. f_equal.
      match goal with Ha : wr _ = Some ?x, Hb : wr _ = Some ?x |- _ =>
        apply Hcbor in Ha, Hb; congruence end.
    + split; [|congruence]. intros Heq. apply Hne. by do 2 apply app_inv_head in Heq.
Qed.

(** [decode] never panics, and it classifies every input: the empty and
    the short payloads, the two legacy tags, a wrong magic, an unknown
    version; what it accepts has the magic and version 1, is within the size
    cap, passes the field-range gate and has no indexes from the wire. *)
Theorem decode_classifies rd data :
  match decode rd data with
  | Panic => False
  | Ok m => ∃ body c, data = MAGIC ++ be_bytes 2 VERSION_V1 ++ body ∧ rd body = Some c ∧
      m = manifest_of c ∧ Z.of_nat (length body) ≤ MAX_MANIFEST_BYTES ∧
      validate_field_ranges m = Ok () ∧ m = strip_indexes m
  | Err HybridDeprecated => data !! 0%nat = Some TAG_LEGACY_HYBRID
  | Err PureMsgpackDeprecated => data !! 0%nat = Some TAG_LEGACY_PURE
  | Err (Truncated n) => n = length data ∧ (n < 6)%nat
  | Err (MagicMismatch got) => got = take 4 data ∧ got ≠ MAGIC
  | Err (UnsupportedVersion v s) => take 4 data = MAGIC ∧ v = of_be (take 2 (drop 4 data)) ∧
      v ≠ VERSION_V1 ∧ s = VERSION_V1
  | Err BodyDecode => take 4 data = MAGIC ∧ of_be (take 2 (drop 4 data)) = VERSION_V1
  | Err BodyEncode => False
  end.
Proof.
  destruct data as [|b0 data]; [by cbn; split; [|lia]|].
  unfold decode. set (d := b0 :: data).
  destruct (decide (b0 = TAG_LEGACY_HYBRID)) as [->|]; [done|].
  destruct (decide (b0 = TAG_LEGACY_PURE)) as [->|]; [done|].
  destruct (Nat.ltb_spec (length d) (length MAGIC + 2)) as [Hlt|Hge]; cbn [guard_err].
  { split; [done|]. cbn in Hlt |- *. lia. }
  assert (6 ≤ length d)%nat as Hd by (cbn in Hge |- *; lia).
  assert (slice 0 4 d = Some (take 4 d)) as -> by (apply slice_Some; split_and!; [lia..|done]).
  assert (slice 4 6 d = Some (take 2 (drop 4 d))) as ->
    by (apply slice_Some; split_and!; [lia..|done]).
  assert (slice 6 (Z.of_nat (length d)) d = Some (drop 6 d)) as ->.
  { apply slice_Some. split_and!; [lia..|]. symmetry. apply take_ge. rewrite length_drop. lia. }
  cbn [or_panic mbind outcome_bind].
  destruct (decide (take 4 d = MAGIC)) as [Hm|Hm]; [rewrite bool_decide_eq_false_2 by naive_solver
    | by rewrite bool_decide_eq_true_2].
  cbn [guard_err mbind outcome_bind].
  destruct (Z.eqb_spec (of_be (take 2 (drop 4 d))) VERSION_V1) as [Hver|Hver];
    cbn [negb guard_err mbind outcome_bind]; [|done].
  assert (d = MAGIC ++ be_bytes 2 VERSION_V1 ++ drop 6 d) as Hsplit.
  { rewrite <-Hm, <-Hver.
    assert (be_bytes 2 (of_be (take 2 (drop 4 d))) = take 2 (drop 4 d)) as ->.
    { rewrite <-(be_bytes_of_be (take 2 (drop 4 d))) at 2. f_equal.
      rewrite length_take, length_drop. lia. }
    change 6%nat with (4 + 2)%nat.
    by rewrite <-drop_drop, !take_drop. }
  set (body := drop 6 d) in *.
  destruct (Z.ltb_spec MAX_MANIFEST_BYTES (Z.of_nat (length body))); cbn [guard_err mbind outcome_bind]; [by split|].
  destruct (rd body) as [c|] eqn:Hc; cbn [ok_or mbind outcome_bind]; [|by split].
  destruct (validate_field_ranges (manifest_of c)) as [[]| |] eqn:Hv; [| by split |].
  - exists body, c. split_and!; try done.
  - by apply validate_field_ranges_no_panic in Hv.
Qed.

(* ------------------------------------------------------------------ *)
(** * Witnesses *)

(** A CBOR codec that meets the hypothesis. *)
Definition toy_writer (c : CanonicalManifestV1) : option bytes := Some (count_encode c).
Definition toy_reader (b : bytes) : option CanonicalManifestV1 := count_decode b.

Lemma toy_cbor c b : toy_writer c = Some b → toy_reader b = Some c.
Proof. intros [= <-]. apply count_decode_encode. Qed.

Definition toy_envelope : bytes :=
  match @encode toy_writer canonical_iter shared_group_manifest with Ok b => b | _ => [] end.

Lemma decode_encode_roundtrip_witness :
  decode toy_reader toy_envelope = Ok (strip_indexes shared_group_manifest).
Proof.
  apply (@decode_encode_roundtrip canonical_iter toy_writer toy_reader).
  - exact toy_cbor.
  - reflexivity.
  - apply Z.leb_le. vm_compute. reflexivity.
  - vm_compute. reflexivity.
Defined.

Lemma encode_canonical_witness :
  @encode toy_writer canonical_iter shared_group_manifest =
  @encode toy_writer reversed_iter (@build_page_index reversed_iter shared_group_manifest).
Proof. apply (encode_canonical canonical_iter reversed_iter). reflexivity. Defined.

Lemma base_anchor_binds_witness :
  @base_anchor_checksum toy_writer (λ b, b) canonical_iter shared_group_manifest =
  @base_anchor_checksum toy_writer (λ b, b) canonical_iter
    (set_stamp shared_group_manifest 1 1 None
      {| last_applied_seq := 0; base_object_checksum := [Byte.x01]; cursor_epoch := 0 |} "").
Proof.
  apply (@base_anchor_binds canonical_iter toy_writer toy_reader (λ b, b)); [exact toy_cbor|].
  reflexivity.
Defined.
