(* ===== verification/Float64.v ===== *)
(** IEEE-754 binary64 as the code uses it ([f64]): the Standard Library's
    executable specification of floating-point arithmetic at precision 53, and
    bounds on the results of sums and quotients of non-negative numbers. *)

From Stdlib Require Import SpecFloat.
From S2P Require Import Prelude.

Abbreviation f64 := spec_float.

Definition f64_add : f64 → f64 → f64 := SFadd 53 1024.
Definition f64_sub : f64 → f64 → f64 := SFsub 53 1024.
Definition f64_div : f64 → f64 → f64 := SFdiv 53 1024.
Definition f64_lt : f64 → f64 → bool := SFltb.

(** [x as f64] of an integer. *)
Definition f64_of (z : Z) : f64 := binary_normalize 53 1024 z 0 false.

(** [f64::min]: a NaN argument is ignored. *)
Definition f64_min (x y : f64) : f64 :=
  match x, y with
  | S754_nan, _ => y
  | _, S754_nan => x
  | _, _ => if SFltb y x then y else x
  end.

(** The exponent of the float a magnitude is rounded to. *)
Definition f64_exp (mag : Z) : Z := fexp 53 1024 mag.

Lemma f64_exp_unfold g : f64_exp g = Z.max (g - 53) (-1074).
Proof. reflexivity. Qed.

(* ------------------------------------------------------------------ *)
(** * The order *)

Lemma f64_lt_trans x y z : f64_lt x y → f64_lt y z → f64_lt x z.
Proof.
  unfold f64_lt, SFltb, SFcompare.
  destruct x as [?|[]| |[] mx ex], y as [?|[]| |[] my ey], z as [?|[]| |[] mz ez]; try done;
  fold (Pos.compare mx my) (Pos.compare my mz) (Pos.compare mx mz);
  destruct (Z.compare_spec ex ey), (Z.compare_spec ey ez), (Z.compare_spec ex ez);
    try done; try lia;
  destruct (Pos.compare_spec mx my), (Pos.compare_spec my mz), (Pos.compare_spec mx mz);
    try done; lia.
Qed.

(** The order of the numbers (every float but NaN) is total. *)
Lemma f64_lt_cotrans x y z : y ≠ S754_nan → f64_lt x z → f64_lt x y ∨ f64_lt y z.
Proof.
  unfold f64_lt, SFltb, SFcompare. intros Hy.
  destruct x as [?|[]| |[] mx ex], y as [?|[]| |[] my ey], z as [?|[]| |[] mz ez];
    cbn; try done; try (by left); try (by right);
  fold (Pos.compare mx my) (Pos.compare my mz) (Pos.compare mx mz);
  destruct (Z.compare_spec ex ey), (Z.compare_spec ey ez), (Z.compare_spec ex ez);
    try done; try lia; try tauto;
  destruct (Pos.compare_spec mx my), (Pos.compare_spec my mz), (Pos.compare_spec mx mz);
    try done; try lia; tauto.
Qed.

Lemma f64_lt_irrefl x : ¬ f64_lt x x.
Proof.
  unfold f64_lt, SFltb, SFcompare. destruct x as [[]|[]| |s m e]; cbn; try tauto.
  rewrite Z.compare_refl. fold (Pos.compare m m). rewrite Pos.compare_refl. destruct s; cbn; tauto.
Qed.

(* ------------------------------------------------------------------ *)
(** * Digits and shifts *)

Lemma digits_bounds p : 2 ^ (Z.pos (digits2_pos p) - 1) ≤ Z.pos p < 2 ^ Z.pos (digits2_pos p).
Proof.
  induction p as [p IH|p IH|]; cbn [digits2_pos]; [| |done];
    rewrite Pos2Z.inj_succ; rewrite Z.pow_succ_r by lia;
    replace (Z.succ (Z.pos (digits2_pos p)) - 1) with (Z.succ (Z.pos (digits2_pos p) - 1)) by lia;
    rewrite Z.pow_succ_r by lia; lia.
Qed.

(** [Zdigits2 m] is the only [d] with [2^(d-1) <= m < 2^d]. *)
Lemma Zdigits2_spec m d : 0 < m → 0 < d → Zdigits2 m = d ↔ 2 ^ (d - 1) ≤ m < 2 ^ d.
Proof.
  intros Hm Hd. destruct m as [|p|p]; [lia| |lia]. cbn [Zdigits2].
  pose proof (digits_bounds p) as Hb. split; [by intros <-|]. intros Hp.
  assert (Z.pos (digits2_pos p) - 1 < d) by (apply (Z.pow_lt_mono_r_iff 2); lia).
  assert (d - 1 < Z.pos (digits2_pos p)) by (apply (Z.pow_lt_mono_r_iff 2); lia).
  lia.
Qed.

Lemma Zdigits2_pos m : 0 < m → 0 < Zdigits2 m ∧ 2 ^ (Zdigits2 m - 1) ≤ m < 2 ^ Zdigits2 m.
Proof.
  intros Hm. assert (0 < Zdigits2 m) by (destruct m; cbn; lia).
  split; [done|]. by apply Zdigits2_spec.
Qed.

(** Multiplying by [2^k] adds [k] digits, dividing removes them. *)
Lemma Zdigits2_shift m k : 0 < m → 0 ≤ k → Zdigits2 (m * 2 ^ k) = Zdigits2 m + k.
Proof.
  intros Hm Hk. destruct (Zdigits2_pos m Hm) as (Hd & H1 & H2).
  assert (0 < 2 ^ k) by lia.
  apply Zdigits2_spec; [nia|lia|].
  replace (Zdigits2 m + k - 1) with (Zdigits2 m - 1 + k) by lia.
  rewrite !Z.pow_add_r by lia. nia.
Qed.

Lemma Zdigits2_div m k : 0 < m → 0 ≤ k < Zdigits2 m → Zdigits2 (m / 2 ^ k) = Zdigits2 m - k.
Proof.
  intros Hm Hk. destruct (Zdigits2_pos m Hm) as (Hd & H1 & H2).
  assert (0 < 2 ^ k) by lia.
  replace (Zdigits2 m - 1) with (Zdigits2 m - k - 1 + k) in H1 by lia.
  replace (Zdigits2 m) with (Zdigits2 m - k + k) in H2 by lia.
  rewrite Z.pow_add_r in H1, H2 by lia.
  assert (2 ^ (Zdigits2 m - k - 1) ≤ m / 2 ^ k) by (apply Z.div_le_lower_bound; lia).
  assert (m / 2 ^ k < 2 ^ (Zdigits2 m - k)) by (apply Z.div_lt_upper_bound; lia).
  assert (0 < 2 ^ (Zdigits2 m - k - 1)) by lia.
  apply Zdigits2_spec; lia.
Qed.

Lemma Zdigits2_mono a b : 0 < a ≤ b → Zdigits2 a ≤ Zdigits2 b.
Proof.
  intros Hab. destruct (Zdigits2_pos a) as (? & ? & ?), (Zdigits2_pos b) as (? & ? & ?); try lia.
  assert (Zdigits2 a - 1 < Zdigits2 b); [|lia]. apply (Z.pow_lt_mono_r_iff 2); lia.
Qed.

Lemma Zdigits2_lt m d : 0 < m → 0 ≤ d → m < 2 ^ d → Zdigits2 m ≤ d.
Proof.
  intros Hm Hd Hlt. destruct (Zdigits2_pos m Hm) as (? & ? & ?).
  assert (Zdigits2 m - 1 < d); [|lia]. apply (Z.pow_lt_mono_r_iff 2); lia.
Qed.

Lemma iter_xO_shift p q : Z.pos (Pos.iter xO p q) = Z.pos p * 2 ^ Z.pos q.
Proof.
  induction q as [|q IH] using Pos.peano_ind; [cbn; lia|].
  rewrite Pos.iter_succ. rewrite Pos2Z.inj_succ, Z.pow_succ_r by lia. lia.
Qed.

Lemma shl_align_spec m e e' :
  Z.pos (shl_align m e e').1 = Z.pos m * 2 ^ Z.max 0 (e - e') ∧
  (shl_align m e e').2 = Z.min e e'.
Proof.
  unfold shl_align. destruct (e' - e) as [|d|d] eqn:Hd; cbn [fst snd].
  - replace (Z.max 0 (e - e')) with 0 by lia. lia.
  - replace (Z.max 0 (e - e')) with 0 by lia. lia.
  - rewrite iter_xO_shift. replace (Z.max 0 (e - e')) with (Z.pos d) by lia. lia.
Qed.

Lemma shr_1_m mrs : 0 ≤ shr_m mrs → shr_m (shr_1 mrs) = shr_m mrs / 2.
Proof.
  destruct mrs as [m r s]. cbn [shr_m]. intros Hm. rewrite <-Z.div2_div.
  by destruct m as [|[p|p|]|p].
Qed.

Lemma shr_iter_m p mrs :
  0 ≤ shr_m mrs → shr_m (SpecFloat.iter_pos shr_1 p mrs) = shr_m mrs / 2 ^ Z.pos p.
Proof.
  revert mrs. induction p as [p IH|p IH|]; intros mrs Hm; cbn [SpecFloat.iter_pos].
  - assert (0 ≤ shr_m (shr_1 mrs)) as H1 by (rewrite shr_1_m by done; apply Z.div_pos; lia).
    rewrite IH by (rewrite IH by done; apply Z.div_pos; lia). rewrite IH, shr_1_m by done.
    rewrite !Z.div_div by lia. f_equal.
    replace (Z.pos p~1) with (1 + Z.pos p + Z.pos p) by lia. rewrite !Z.pow_add_r by lia. lia.
  - rewrite IH by (rewrite IH by done; apply Z.div_pos; lia). rewrite IH by done.
    rewrite Z.div_div by lia. f_equal.
    replace (Z.pos p~0) with (Z.pos p + Z.pos p) by lia. by rewrite !Z.pow_add_r by lia.
  - by rewrite shr_1_m.
Qed.

(** One alignment to the exponent of the format truncates the mantissa. *)
Lemma shr_fexp_spec m e l :
  0 ≤ m →
  let k := Z.max 0 (f64_exp (Zdigits2 m + e) - e) in
  shr_m (shr_fexp 53 1024 m e l).1 = m / 2 ^ k ∧ (shr_fexp 53 1024 m e l).2 = e + k.
Proof.
  intros Hm k. unfold shr_fexp, f64_exp in *. set (n := fexp 53 1024 _ - e) in *.
  assert (shr_m (shr_record_of_loc m l) = m) as Hr by by destruct l as [|[]].
  destruct n as [|p|p]; unfold k, shr; cbn [fst snd];
    [rewrite Z.max_id|rewrite Z.max_r by lia|rewrite Z.max_l by lia];
    rewrite ?Hr, ?Z.pow_0_r, ?Z.div_1_r, ?Z.add_0_r; try done.
  by rewrite shr_iter_m, Hr by by rewrite Hr.
Qed.

(* ------------------------------------------------------------------ *)
(** * Rounding *)

(** A non-negative float of magnitude at most [k]: zero, or a mantissa and
    exponent in the canonical form of the format. *)
Definition canon (k : Z) (x : f64) : Prop :=
  match x with
  | S754_zero false => True
  | S754_finite false m e => e = f64_exp (Zdigits2 (Z.pos m) + e) ∧ Zdigits2 (Z.pos m) + e ≤ k
  | _ => False
  end.

(** Its magnitude is at least [k]. *)
Definition at_least (k : Z) (x : f64) : Prop :=
  match x with
  | S754_finite false m e => k ≤ Zdigits2 (Z.pos m) + e
  | _ => False
  end.

Lemma canon_mono k k' x : k ≤ k' → canon k x → canon k' x.
Proof. intros Hk. destruct x as [[]| | |[] m e]; cbn; lia || tauto. Qed.

Lemma canon_lt k x y : canon k x → canon (k + 100) y → at_least (k + 1) y → -1000 ≤ k → f64_lt x y.
Proof.
  intros Hx Hy Ha Hk. destruct x as [[]| | |[] m e], y as [[]| | |[] m' e']; try done.
  cbn in Hx, Hy, Ha. unfold f64_lt, SFltb, SFcompare.
  rewrite f64_exp_unfold in Hx, Hy. assert (e < e') as Hlt by lia.
  by rewrite (proj2 (Z.compare_lt_iff _ _) Hlt).
Qed.

(** The second alignment, of a rounded mantissa. *)
Lemma align_spec r e :
  0 < r → let d := Zdigits2 r in
  e ≤ f64_exp (d + e) → f64_exp (d + e) - e < d →
  ∃ m' : positive, shr_m (shr_fexp 53 1024 r e loc_Exact).1 = Z.pos m' ∧
    Zdigits2 (Z.pos m') + f64_exp (d + e) = d + e ∧
    (shr_fexp 53 1024 r e loc_Exact).2 = f64_exp (d + e).
Proof.
  intros Hr d He Hk. destruct (shr_fexp_spec r e loc_Exact ltac:(lia)) as [-> ->].
  fold d. rewrite Z.max_r by lia. set (k := f64_exp (d + e) - e) in *.
  assert (Zdigits2 (r / 2 ^ k) = d - k) as Hd by (apply Zdigits2_div; lia).
  destruct (Zdigits2_pos r Hr) as (_ & Hlow & _). fold d in Hlow.
  assert (0 < r / 2 ^ k) as Hq.
  { apply Z.div_str_pos. split; [lia|]. etrans; [|exact Hlow]. apply Z.pow_le_mono_r; lia. }
  destruct (r / 2 ^ k) as [|m'|]; try lia. exists m'. split_and!; [done|lia|lia].
Qed.

Lemma round_cases q l : round_nearest_even q l = q ∨ round_nearest_even q l = q + 1.
Proof. destruct l as [|[]]; cbn; try destruct (Z.even q); auto. Qed.

Lemma round_aux_spec m e l :
  0 < m → e ≤ f64_exp (Zdigits2 m + e) → Zdigits2 m + e ≤ 900 →
  let x := binary_round_aux 53 1024 false m e l in
  canon (Z.max (Zdigits2 m + e) (-1074) + 1) x ∧
  (-1074 < Zdigits2 m + e → at_least (Zdigits2 m + e) x).
Proof.
  intros Hm He Hub. cbn zeta. unfold binary_round_aux.
  pose proof (shr_fexp_spec m e l ltac:(lia)) as [H1 H2].
  destruct (shr_fexp 53 1024 m e l) as [mrs e1]. cbn [fst snd] in H1, H2.
  set (g := Zdigits2 m + e) in *.
  assert (e1 = f64_exp g) as -> by lia. rewrite Z.max_r in H1 by lia. clear H2.
  rewrite H1. set (q := m / _) in *.
  assert (0 ≤ q) as Hq0 by (apply Z.div_pos; lia).
  assert (0 < q → Zdigits2 q = g - f64_exp g) as Hq.
  { intros Hq. unfold q. rewrite Zdigits2_div; [lia|lia|]. split; [lia|].
    destruct (Z.lt_ge_cases (f64_exp g - e) (Zdigits2 m)) as [|Hge]; [done|].
    destruct (Zdigits2_pos m Hm) as (_ & _ & Hlt). unfold q in Hq.
    rewrite Z.div_small in Hq; [lia|]. split; [lia|].
    eapply Z.lt_le_trans; [exact Hlt|]. apply Z.pow_le_mono_r; lia. }
  assert (-1074 < g → 0 < q) as Hqpos.
  { intros Hg. unfold q. destruct (Zdigits2_pos m Hm) as (_ & Hlow & _).
    apply Z.div_str_pos. split; [lia|]. etrans; [|exact Hlow].
    apply Z.pow_le_mono_r; [lia|]. rewrite f64_exp_unfold in *. lia. }
  set (r := round_nearest_even q _).
  assert (r = q ∨ r = q + 1) as Hr by apply round_cases.
  destruct (decide (r = 0)) as [Hr0|Hr0].
  { rewrite Hr0. destruct (shr_fexp_spec 0 (f64_exp g) loc_Exact ltac:(lia)) as [Hz _].
    destruct (shr_fexp 53 1024 0 _ _) as [mrs0 e0]. cbn [fst] in Hz.
    rewrite Hz, Zdiv_0_l. split; [done|]. intros Hg. specialize (Hqpos Hg). lia. }
  assert (Zdigits2 r + f64_exp g ≤ Z.max g (-1074) + 1 ∧ f64_exp g ≤ f64_exp (Zdigits2 r + f64_exp g) ∧
    f64_exp (Zdigits2 r + f64_exp g) - f64_exp g < Zdigits2 r ∧
    (0 < q → g ≤ Zdigits2 r + f64_exp g)) as (Hd1 & Hd2 & Hd3 & Hd4).
  { destruct (decide (0 < q)) as [Hq'|Hq'].
    - specialize (Hq Hq'). destruct (Zdigits2_pos q Hq') as [Hqd _].
      assert (Zdigits2 q ≤ Zdigits2 r) by (apply Zdigits2_mono; lia).
      assert (Zdigits2 r ≤ Zdigits2 q + 1).
      { apply Zdigits2_lt; [lia|lia|]. destruct (Zdigits2_pos q Hq') as (? & ? & ?).
        rewrite Z.pow_add_r, Z.pow_1_r by lia. lia. }
      rewrite !f64_exp_unfold in *. lia.
    - assert (r = 1) as -> by lia. cbn [Zdigits2 digits2_pos].
      assert (g ≤ -1074) by lia. rewrite !f64_exp_unfold in *. lia. }
  destruct (align_spec r (f64_exp g)) as (m' & Hm' & Hmag & He'); [lia|done|done|].
  destruct (shr_fexp _ _ r _ _) as [mrs' e']. cbn [fst snd] in *. subst e'. rewrite Hm'.
  assert (f64_exp (Zdigits2 r + f64_exp g) ≤ 1024 - 53) as Hle%Z.leb_le
    by (rewrite !f64_exp_unfold in *; lia).
  rewrite Hle. cbn [canon at_least]. rewrite Hmag. split; [lia|]. intros Hg. apply Hd4, Hqpos, Hg.
Qed.

Lemma round_spec m e :
  let g := Zdigits2 (Z.pos m) + e in
  g ≤ 900 →
  canon (Z.max g (-1074) + 1) (binary_round 53 1024 false m e) ∧
  (-1074 < g → at_least g (binary_round 53 1024 false m e)).
Proof.
  intros g Hg. unfold binary_round.
  change (fexp 53 1024 (Z.pos (digits2_pos m) + e)) with (f64_exp g).
  destruct (shl_align_spec m e (f64_exp g)) as [H1 H2].
  destruct (shl_align m e (f64_exp g)) as [mz ez]. cbn [fst snd] in H1, H2.
  assert (Zdigits2 (Z.pos mz) + ez = g) as Hmag
    by (rewrite H1, H2, Zdigits2_shift by lia; unfold g; lia).
  pose proof (round_aux_spec (Z.pos mz) ez loc_Exact) as Ha. rewrite Hmag in Ha.
  apply Ha; lia.
Qed.

(** A non-negative float of magnitude between [j] and [k], or zero. *)
Definition span (j k : Z) (x : f64) : Prop :=
  canon k x ∧ (x = S754_zero false ∨ at_least j x).

Lemma span_mono j k j' k' x : j' ≤ j → k ≤ k' → span j k x → span j' k' x.
Proof.
  intros Hj Hk [Hc Ha]. split; [by eapply canon_mono|]. destruct Ha as [->|Ha]; [by left|right].
  destruct x as [[]| | |[] m e]; cbn in *; lia || tauto.
Qed.

Lemma span_zero j k : span j k (S754_zero false).
Proof. split; [done|by left]. Qed.

Lemma f64_of_span z : 0 ≤ z < 2 ^ 64 → span 1 65 (f64_of z).
Proof.
  intros Hz. destruct z as [|p|p]; [apply span_zero| |lia].
  destruct (Zdigits2_pos (Z.pos p)) as (H1 & _ & _); [lia|].
  assert (Zdigits2 (Z.pos p) ≤ 64) by (apply Zdigits2_lt; lia).
  destruct (round_spec p 0) as [Hc Ha]; [lia|].
  unfold f64_of, binary_normalize. split; [eapply canon_mono; [|exact Hc]; lia|right].
  specialize (Ha ltac:(lia)). revert Ha. destruct (binary_round _ _ _ _ _) as [| | |[] m e]; cbn; lia.
Qed.

Lemma canon_exp k m e : canon k (S754_finite false m e) → -1074 ≤ e.
Proof. cbn. rewrite f64_exp_unfold. lia. Qed.

Lemma f64_add_spec k x y :
  canon k x → canon k y → -1000 ≤ k ≤ 800 →
  canon (k + 2) (f64_add x y) ∧
  ∀ j, at_least j x ∨ at_least j y → at_least j (f64_add x y).
Proof.
  intros Hx Hy Hk.
  destruct x as [[]| | |[] mx ex], y as [[]| | |[] my ey]; try done; unfold f64_add; cbn [SFadd].
  - split; [done|]. cbn. tauto.
  - split; [by eapply canon_mono; [|exact Hy]; lia|]. cbn. tauto.
  - split; [by eapply canon_mono; [|exact Hx]; lia|]. cbn. tauto.
  - pose proof (canon_exp _ _ _ Hx) as Hex. pose proof (canon_exp _ _ _ Hy) as Hey.
    destruct Hx as [_ Hx], Hy as [_ Hy]. set (ez := Z.min ex ey).
    destruct (shl_align_spec mx ex ez) as [-> _], (shl_align_spec my ey ez) as [-> _].
    rewrite !Z.max_r by lia. cbn [cond_Zopp].
    set (a := Z.pos mx * 2 ^ (ex - ez)). set (b := Z.pos my * 2 ^ (ey - ez)).
    assert (0 < a) as Ha by (unfold a; lia). assert (0 < b) as Hb by (unfold b; lia).
    assert (Zdigits2 a = Zdigits2 (Z.pos mx) + (ex - ez)) as Hda by (apply Zdigits2_shift; lia).
    assert (Zdigits2 b = Zdigits2 (Z.pos my) + (ey - ez)) as Hdb by (apply Zdigits2_shift; lia).
    clearbody a b.
    assert (Zdigits2 a ≤ Zdigits2 (a + b)) by (apply Zdigits2_mono; lia).
    assert (Zdigits2 b ≤ Zdigits2 (a + b)) by (apply Zdigits2_mono; lia).
    destruct (Zdigits2_pos a Ha) as (? & _ & Hua), (Zdigits2_pos b Hb) as (? & _ & Hub).
    assert (a < 2 ^ (k - ez)) by (eapply Z.lt_le_trans; [exact Hua|]; apply Z.pow_le_mono_r; lia).
    assert (b < 2 ^ (k - ez)) by (eapply Z.lt_le_trans; [exact Hub|]; apply Z.pow_le_mono_r; lia).
    assert (Zdigits2 (a + b) ≤ k - ez + 1).
    { apply Zdigits2_lt; [lia|lia|]. rewrite Z.pow_add_r, Z.pow_1_r by lia. lia. }
    destruct (a + b) as [|s|s] eqn:Hs; try lia. cbn [binary_normalize].
    destruct (round_spec s ez) as [Hc Hl]; [lia|].
    split; [eapply canon_mono; [|exact Hc]; lia|]. specialize (Hl ltac:(lia)).
    intros j Hj. cbn -[Zdigits2] in Hj. revert Hl.
    destruct (binary_round _ _ _ _ _) as [| | |[] m' e']; cbn -[Zdigits2]; lia.
Qed.

Lemma f64_add_span j k x y :
  span j k x → span j k y → -1000 ≤ k ≤ 800 → span j (k + 2) (f64_add x y).
Proof.
  intros [Hx Hx'] [Hy Hy'] Hk. destruct (f64_add_spec k x y Hx Hy Hk) as [Hc Hl].
  split; [done|]. destruct Hx' as [->|Hx']; [|right; apply Hl; by left].
  destruct Hy' as [->|Hy']; [by left|right; apply Hl; by right].
Qed.

(** The digits of a quotient. *)
Lemma quotient_digits a b da db :
  2 ^ (da - 1) ≤ a < 2 ^ da → 2 ^ (db - 1) ≤ b < 2 ^ db → db + 1 ≤ da → 0 < db →
  0 < a / b ∧ da - db ≤ Zdigits2 (a / b) ≤ da - db + 1.
Proof.
  intros Ha Hb Hd Hdb. assert (0 < 2 ^ (db - 1)) by lia.
  assert (2 ^ (da - db - 1) ≤ a / b) as Hlow.
  { apply Z.div_le_lower_bound; [lia|].
    replace (da - 1) with (db + (da - db - 1)) in Ha by lia. rewrite Z.pow_add_r in Ha by lia.
    assert (0 < 2 ^ (da - db - 1)) by lia. nia. }
  assert (a / b < 2 ^ (da - db + 1)) as Hup.
  { apply Z.div_lt_upper_bound; [lia|].
    replace (2 ^ da) with (2 ^ (db - 1) * 2 ^ (da - db + 1)) in Ha
      by (rewrite <-Z.pow_add_r by lia; f_equal; lia).
    assert (0 < 2 ^ (da - db + 1)) by lia. nia. }
  assert (0 < a / b) as Hq by (assert (0 < 2 ^ (da - db - 1)) by lia; lia).
  split; [done|]. destruct (Zdigits2_pos (a / b) Hq) as (? & ? & ?). split.
  - assert (da - db - 1 < Zdigits2 (a / b)); [|lia]. apply (Z.pow_lt_mono_r_iff 2); lia.
  - apply Zdigits2_lt; lia.
Qed.

Lemma f64_div_span j k x mb eb :
  let gb := Zdigits2 (Z.pos mb) + eb in
  span j k x → -900 ≤ j - gb → k - gb ≤ 800 →
  span (j - gb) (Z.max (k - gb) (-1000) + 2) (f64_div x (S754_finite false mb eb)).
Proof.
  intros gb [Hc Hl] Hj Hk. unfold f64_div.
  destruct x as [[]| | |[] ma ea]; try done; try apply span_zero.
  destruct Hl as [|Hl]; [done|]. cbn [canon at_least] in Hc, Hl. destruct Hc as [Hea Hk'].
  cbn [SFdiv xorb]. unfold SFdiv_core_binary. cbn [Zdigits2].
  set (da := Z.pos (digits2_pos ma)). set (db := Z.pos (digits2_pos mb)).
  change (Zdigits2 (Z.pos ma)) with da in *. unfold gb in *. clear gb.
  change (Zdigits2 (Z.pos mb)) with db in *.
  set (e' := Z.min (fexp 53 1024 (da + ea - (db + eb))) (ea - eb)).
  fold (f64_exp (da + ea - (db + eb))) in e'. set (s := ea - eb - e').
  assert (0 ≤ s) as Hs by (unfold s, e'; lia).
  assert (match s with 0 => Z.pos ma | Z.pos _ => Z.shiftl (Z.pos ma) s | Z.neg _ => 0 end =
    Z.pos ma * 2 ^ s) as ->.
  { rewrite <-Z.shiftl_mul_pow2 by done. by destruct s. }
  assert (Zdigits2 (Z.pos ma * 2 ^ s) = da + s) as Hm by (apply Zdigits2_shift; lia).
  set (m := Z.pos ma * 2 ^ s) in *. assert (0 < m) as Hm0 by (unfold m; lia). clearbody m.
  replace (Z.div_eucl m (Z.pos mb)) with (m / Z.pos mb, m mod Z.pos mb)
    by (unfold Z.div, Z.modulo; by destruct (Z.div_eucl m (Z.pos mb))).
  destruct (Zdigits2_pos m Hm0) as (_ & Hm1 & Hm2). rewrite Hm in Hm1, Hm2.
  assert (0 < da ∧ 0 < db) as [Hda Hdb] by (unfold da, db; lia).
  assert (2 ^ (db - 1) ≤ Z.pos mb < 2 ^ db) as Hb by (apply (Zdigits2_pos (Z.pos mb)); lia).
  assert (db + 1 ≤ da + s) as Hds by (unfold s, e'; rewrite f64_exp_unfold; lia).
  destruct (quotient_digits m (Z.pos mb) (da + s) db) as [Hq0 Hq]; [done..|].
  destruct (round_aux_spec (m / Z.pos mb) e' (new_location (Z.pos mb) (m mod Z.pos mb)))
    as [Hc' Hl']; [done| |unfold s in *; lia|].
  { transitivity (f64_exp (da + ea - (db + eb))); [unfold e'; lia|].
    rewrite !f64_exp_unfold. unfold s in Hq. lia. }
  split; [eapply canon_mono; [|exact Hc']; unfold s in *; lia|right].
  specialize (Hl' ltac:(unfold s in *; lia)). revert Hl'.
  destruct (binary_round_aux _ _ _ _ _ _) as [| | |[] m' e'']; cbn -[Zdigits2]; unfold s in *; lia.
Qed.

(** [x.min(1.0)] of a non-negative number: below one, or one. *)
Lemma f64_min_one j k x :
  span j k x → j ≤ 1 →
  span j 1 (f64_min x (f64_of 1)) ∧
  (f64_min x (f64_of 1) = f64_of 1 ∨ canon 0 (f64_min x (f64_of 1))).
Proof.
  intros [Hc Hl] Hj. change (f64_of 1) with (S754_finite false 4503599627370496 (-52)).
  destruct x as [[]| | |[] m e]; try done; [split; [apply span_zero|by right]|].
  destruct Hl as [|Hl]; [done|]. unfold f64_min.
  destruct (SFltb _ _) eqn:Hlt.
  - split; [|by left]. split; [done|right]. cbn. lia.
  - assert (canon 0 (S754_finite false m e) ∨ S754_finite false m e =
      S754_finite false 4503599627370496 (-52)) as Hx.
    { cbn [canon at_least] in *. destruct Hc as [He Hk]. rewrite f64_exp_unfold in He |- *.
      destruct (Zdigits2_pos (Z.pos m)) as (Hd & Hm & _); [lia|].
      destruct (Z.lt_ge_cases e (-52)) as [Hlow|Hge]; [left; lia|].
      revert Hlt. unfold SFltb, SFcompare.
      destruct (Z.compare_spec (-52) e) as [<-|Hgt|]; [|done|lia]. right.
      assert (Zdigits2 (Z.pos m) = 53) as H53 by lia. rewrite H53 in Hm.
      fold (Pos.compare 4503599627370496 m) in Hlt.
      destruct (Pos.compare_spec 4503599627370496 m) as [<-|?|Hm']; [done|done|].
      assert (2 ^ (53 - 1) = 4503599627370496) as Hp by reflexivity. rewrite Hp in Hm.
      exfalso. exact (proj1 (Z.le_ngt _ _) Hm (Pos2Z.pos_lt_pos _ _ Hm')). }
    destruct Hx as [Hx|Hx]; [|rewrite Hx; split; [split;
      [split; [reflexivity|vm_compute; congruence]|right; cbn; lia]|by left]].
    split; [|by right]. split; [eapply canon_mono; [|exact Hx]; lia|by right].
Qed.

(** [1.0 - x] for [x] at most one. *)
Lemma f64_one_minus x :
  x = f64_of 1 ∨ canon 0 x → span (-1073) 1 (f64_sub (f64_of 1) x).
Proof.
  intros [->|Hc]; [apply span_zero|].
  change (f64_of 1) with (S754_finite false 4503599627370496 (-52)).
  destruct x as [[]| | |[] m e]; try done;
    [split; [split; [reflexivity|vm_compute; congruence]|right; vm_compute; congruence]|].
  pose proof (canon_exp _ _ _ Hc) as He. destruct Hc as [Hc Hk].
  rewrite f64_exp_unfold in Hc. unfold f64_sub. cbn [SFsub].
  assert (e ≤ -53) by lia. rewrite Z.min_r by lia.
  destruct (shl_align_spec 4503599627370496 (-52) e) as [-> _], (shl_align_spec m e e) as [-> _].
  rewrite Z.sub_diag, Z.max_id, Z.max_r, Z.pow_0_r, Z.mul_1_r by lia. cbn [cond_Zopp].
  change 4503599627370496 with (2 ^ 52). rewrite <-Z.pow_add_r by lia.
  replace (52 + (-52 - e)) with (- e) by lia.
  destruct (Zdigits2_pos (Z.pos m)) as (Hd & _ & Hm); [lia|].
  assert (Z.pos m < 2 ^ (- e)) by (eapply Z.lt_le_trans; [exact Hm|]; apply Z.pow_le_mono_r; lia).
  destruct (2 ^ (- e) - Z.pos m) as [|d|d] eqn:Hs; try lia. cbn [binary_normalize].
  destruct (Zdigits2_pos (Z.pos d)) as (? & _ & _); [lia|].
  assert (Zdigits2 (Z.pos d) ≤ - e) by (apply Zdigits2_lt; lia).
  destruct (round_spec d e) as [Hc' Hl]; [lia|].
  split; [eapply canon_mono; [|exact Hc']; lia|right]. specialize (Hl ltac:(lia)). revert Hl.
  destruct (binary_round _ _ _ _ _) as [| | |[] m' e']; cbn -[Zdigits2]; lia.
Qed.
