(* ===== verification/CacheTracking.v ===== *)
(** Local cache tracking (src/src/tiered/cache_tracking.rs and the tracker
    entries of src/src/tiered/local_state.rs): the page bitmap, and the
    sub-chunk tracker with its tiers, eviction scores and byte accounting. *)

From Stdlib Require Import SpecFloat.
From S2P Require Import Prelude Float64.

(* ------------------------------------------------------------------ *)
(** * The page bitmap *)

(** [bits: Vec<AtomicU8>]; a byte is an integer in [0, 256).  The atomic
    operations act on one byte each, so a run is a sequence of them. *)
Record PageBitmap := { bits : list Z }.

(** [new_with_state] over the persisted bytes, if any. *)
Definition bitmap_new_with_state (raw : option (list Z)) : PageBitmap :=
  {| bits := match raw with Some raw => raw | None => [] end |}.

Definition is_present (bm : PageBitmap) (page : Z) : bool :=
  let byte_idx := page / 8 in
  let bit_idx := page mod 8 in
  match at_index (bits bm) byte_idx with
  | None => false
  | Some b => negb (Z.land b (Z.shiftl 1 bit_idx) =? 0)
  end.

(** [bits[byte_idx].fetch_or(..)] and [fetch_and(..)], when in range. *)
Definition update_byte (bm : PageBitmap) (byte_idx : Z) (f : Z → Z) : PageBitmap :=
  if byte_idx <? Z.of_nat (length (bits bm))
  then {| bits := alter f (Z.to_nat byte_idx) (bits bm) |} else bm.

Definition mark_present (bm : PageBitmap) (page : Z) : PageBitmap :=
  update_byte bm (page / 8) (λ b, Z.lor b (Z.shiftl 1 (page mod 8))).

Definition clear (bm : PageBitmap) (page : Z) : PageBitmap :=
  update_byte bm (page / 8) (λ b, Z.land b (Z.lxor u8_max (Z.shiftl 1 (page mod 8)))).

Definition clear_range (bm : PageBitmap) (start count : Z) : PageBitmap :=
  foldl clear bm (range start (wrap64 (start + count))).

Definition bitmap_clear_all (bm : PageBitmap) : PageBitmap :=
  {| bits := (λ _, 0) <$> bits bm |}.

Definition bit_capacity (bm : PageBitmap) : Z := Z.of_nat (length (bits bm)) * 8.

Definition clear_at_or_above (bm : PageBitmap) (floor : Z) : PageBitmap :=
  foldl clear bm (range floor (bit_capacity bm)).

Definition resize (bm : PageBitmap) (page_count : Z) : PageBitmap :=
  {| bits := grow_to (Z.to_nat (div_ceil page_count 8)) 0 (bits bm) |}.

Definition ensure_capacity (bm : PageBitmap) (page : Z) : PageBitmap :=
  {| bits := grow_to (Z.to_nat (page / 8 + 1)) 0 (bits bm) |}.

Definition to_bytes (bm : PageBitmap) : list Z := bits bm.

(** The operations on a bitmap, and the set of pages they stand for. *)
Inductive bitmap_op :=
  | OpMark (page : Z)
  | OpClear (page : Z)
  | OpClearRange (start count : Z)
  | OpClearAll
  | OpClearAbove (floor : Z)
  | OpResize (page_count : Z)
  | OpEnsure (page : Z).

Definition bitmap_step (bm : PageBitmap) (op : bitmap_op) : PageBitmap :=
  match op with
  | OpMark p => mark_present bm p
  | OpClear p => clear bm p
  | OpClearRange s c => clear_range bm s c
  | OpClearAll => bitmap_clear_all bm
  | OpClearAbove f => clear_at_or_above bm f
  | OpResize n => resize bm n
  | OpEnsure p => ensure_capacity bm p
  end.

(** The arguments are [u64]s, and [start + count] does not wrap. *)
Definition bitmap_op_ok (op : bitmap_op) : Prop :=
  match op with
  | OpMark p | OpClear p | OpClearAbove p | OpResize p | OpEnsure p => is_u64 p
  | OpClearRange s c => 0 ≤ s ∧ 0 ≤ c ∧ s + c < 2 ^ 64
  | OpClearAll => True
  end.

(** The abstract state: a capacity in pages and a set of pages below it. *)
Definition page_set : Type := Z * gset Z.

Definition page_set_step (st : page_set) (op : bitmap_op) : page_set :=
  let '(cap, s) := st in
  match op with
  | OpMark p => (cap, if p <? cap then {[ p ]} ∪ s else s)
  | OpClear p => (cap, s ∖ {[ p ]})
  | OpClearRange a c => (cap, filter (λ p, ¬ (a ≤ p < a + c)) s)
  | OpClearAll => (cap, ∅)
  | OpClearAbove f => (cap, filter (λ p, p < f) s)
  | OpResize n => (Z.max cap (8 * div_ceil n 8), s)
  | OpEnsure p => (Z.max cap (8 * (p / 8 + 1)), s)
  end.

(** The bitmap [bm] stands for the abstract state [st]. *)
Definition bitmap_repr (bm : PageBitmap) (st : page_set) : Prop :=
  bit_capacity bm = st.1 ∧ ∀ p, 0 ≤ p → is_present bm p ↔ p ∈ st.2.

(* ------------------------------------------------------------------ *)
(** ** Lemmas *)

Lemma is_present_testbit bm p :
  0 ≤ p → is_present bm p ↔ ∃ b, bits bm !! Z.to_nat (p / 8) = Some b ∧ Z.testbit b (p mod 8) = true.
Proof.
  intros Hp. pose proof (Z.mod_pos_bound p 8 ltac:(lia)) as Hm.
  unfold is_present, at_index. destruct (Z.ltb_spec (p / 8) 0) as [Hn|_].
  { assert (0 ≤ p / 8) by (apply Z.div_pos; lia). lia. }
  destruct (bits bm !! _) as [b|]; [|naive_solver].
  assert (Z.land b (Z.shiftl 1 (p mod 8)) =? 0 = negb (Z.testbit b (p mod 8))) as ->.
  { rewrite Z.shiftl_1_l. destruct (Z.testbit b (p mod 8)) eqn:Hb; cbn.
    - apply Z.eqb_neq. intros H0. apply (f_equal (λ z, Z.testbit z (p mod 8))) in H0.
      rewrite Z.land_spec, Hb, Z.pow2_bits_true, Z.bits_0 in H0 by lia. done.
    - apply Z.eqb_eq, Z.bits_inj'. intros i Hi. rewrite Z.land_spec, Z.bits_0, Z.pow2_bits_eqb by lia.
      destruct (Z.eqb_spec (p mod 8) i) as [<-|]; [by rewrite Hb|]. by rewrite andb_false_r. }
  rewrite negb_involutive. split; [|naive_solver]. intros Hb. exists b. split; [done|].
  by apply Is_true_eq_true.
Qed.

Lemma update_byte_length bm i f : length (bits (update_byte bm i f)) = length (bits bm).
Proof. unfold update_byte. case_match; cbn; by rewrite ?length_alter. Qed.

Lemma mark_present_spec bm p q :
  0 ≤ p → 0 ≤ q →
  is_present (mark_present bm p) q ↔ is_present bm q ∨ (q = p ∧ p < bit_capacity bm).
Proof.
  intros Hp Hq. rewrite !is_present_testbit by done. unfold mark_present, update_byte, bit_capacity.
  pose proof (Z.mod_pos_bound p 8 ltac:(lia)). pose proof (Z.mod_pos_bound q 8 ltac:(lia)).
  pose proof (Z.div_mod p 8 ltac:(lia)) as Hdp. pose proof (Z.div_mod q 8 ltac:(lia)) as Hdq.
  assert (0 ≤ p / 8 ∧ 0 ≤ q / 8) as [? ?] by (split; apply Z.div_pos; lia).
  destruct (Z.ltb_spec (p / 8) (Z.of_nat (length (bits bm)))) as [Hlt|Hge]; cbn.
  - destruct (decide (q / 8 = p / 8)) as [Heq|Hne].
    + rewrite Heq, list_lookup_alter_eq. destruct (bits bm !! Z.to_nat (p / 8)) as [b|] eqn:Hb.
      2: { apply lookup_ge_None in Hb. lia. }
      cbn. split.
      * intros (? & [= <-] & Ht). rewrite Z.lor_spec, Z.shiftl_1_l, Z.pow2_bits_eqb in Ht by lia.
        apply orb_true_iff in Ht as [Ht|Ht%Z.eqb_eq]; [left; eauto|right; lia].
      * intros [(b' & [= <-] & Ht)|[-> _]]; eexists; (split; [done|]);
          rewrite Z.lor_spec, ?Ht; [done|].
        rewrite Z.shiftl_1_l, Z.pow2_bits_true by lia. apply orb_true_r.
    + rewrite list_lookup_alter_ne by lia. split; [by left|]. intros [?|[-> _]]; [done|lia].
  - split; [by left|]. intros [?|[-> ?]]; [done|lia].
Qed.

Lemma clear_spec bm p q :
  0 ≤ p → 0 ≤ q → is_present (clear bm p) q ↔ is_present bm q ∧ q ≠ p.
Proof.
  intros Hp Hq. rewrite !is_present_testbit by done. unfold clear, update_byte.
  pose proof (Z.mod_pos_bound p 8 ltac:(lia)). pose proof (Z.mod_pos_bound q 8 ltac:(lia)).
  pose proof (Z.div_mod p 8 ltac:(lia)) as Hdp. pose proof (Z.div_mod q 8 ltac:(lia)) as Hdq.
  assert (0 ≤ p / 8 ∧ 0 ≤ q / 8) as [? ?] by (split; apply Z.div_pos; lia).
  destruct (Z.ltb_spec (p / 8) (Z.of_nat (length (bits bm)))) as [Hlt|Hge]; cbn.
  - destruct (decide (q / 8 = p / 8)) as [Heq|Hne].
    + rewrite Heq, list_lookup_alter_eq. destruct (bits bm !! Z.to_nat (p / 8)) as [b|] eqn:Hb; cbn;
        [|naive_solver].
      assert (Z.testbit u8_max (q mod 8) = true) as H8.
      { unfold u8_max. change (2 ^ 8 - 1) with (Z.ones 8). apply Z.ones_spec_low. lia. }
      assert (Z.testbit (Z.land b (Z.lxor u8_max (Z.shiftl 1 (p mod 8)))) (q mod 8) =
        Z.testbit b (q mod 8) && negb (p mod 8 =? q mod 8)) as Ht.
      { by rewrite Z.land_spec, Z.lxor_spec, Z.shiftl_1_l, Z.pow2_bits_eqb, H8 by lia. }
      split.
      * intros (? & [= <-] & Hx). rewrite Ht in Hx. apply andb_true_iff in Hx as [Hx Hn].
        apply negb_true_iff, Z.eqb_neq in Hn. split; [eauto|]. intros ->. done.
      * intros [(? & [= <-] & Hx) Hne]. eexists. split; [done|]. rewrite Ht, Hx. cbn.
        apply negb_true_iff, Z.eqb_neq. lia.
    + rewrite list_lookup_alter_ne by lia. split; [|naive_solver]. intros ?. split; [done|].
      intros ->. lia.
  - split; [|naive_solver]. intros (b & Hb & Ht). split; [eauto|]. intros ->.
    apply lookup_lt_Some in Hb. lia.
Qed.

Lemma clear_fold_spec bm l q :
  0 ≤ q → Forall (λ p, 0 ≤ p) l → is_present (foldl clear bm l) q ↔ is_present bm q ∧ q ∉ l.
Proof.
  intros Hq Hl. revert bm. induction Hl as [|p l Hp Hl IH]; intros bm; cbn; [set_solver|].
  rewrite IH, clear_spec, not_elem_of_cons by done. tauto.
Qed.

Lemma clear_fold_length bm l : length (bits (foldl clear bm l)) = length (bits bm).
Proof.
  revert bm. induction l as [|p l IH]; intros bm; cbn; [done|].
  rewrite IH. apply update_byte_length.
Qed.

Lemma present_below_capacity bm q : 0 ≤ q → is_present bm q → q < bit_capacity bm.
Proof.
  intros Hq (b & Hb & _)%is_present_testbit; [|done]. apply lookup_lt_Some in Hb.
  unfold bit_capacity. pose proof (Z.div_mod q 8 ltac:(lia)).
  pose proof (Z.mod_pos_bound q 8 ltac:(lia)). lia.
Qed.

Lemma grow_bitmap_spec bm n q :
  0 ≤ q → is_present {| bits := grow_to n 0 (bits bm) |} q ↔ is_present bm q.
Proof.
  intros Hq. rewrite !is_present_testbit by done. cbn. unfold grow_to. split.
  - intros (b & Hb & Ht). apply lookup_app_Some in Hb as [Hb|[_ Hb]]; [eauto|].
    apply lookup_replicate in Hb as [-> _]. by rewrite Z.bits_0 in Ht.
  - intros (b & Hb & Ht). exists b. split; [|done]. by apply lookup_app_l_Some.
Qed.

Lemma fmap_zero_present bm q : 0 ≤ q → ¬ is_present (bitmap_clear_all bm) q.
Proof.
  intros Hq (b & Hb & Ht)%is_present_testbit; [|done]. cbn in Hb.
  apply list_lookup_fmap_Some in Hb as (? & -> & _). by rewrite Z.bits_0 in Ht.
Qed.

Lemma div_ceil_8 n : 0 ≤ n → Z.of_nat (Z.to_nat (div_ceil n 8)) = div_ceil n 8.
Proof. intros Hn. apply Z2Nat.id, div_ceil_nonneg; lia. Qed.

(** The bitmap refines a finite set of pages: every operation acts on the
    set as its name says (marking beyond the capacity does nothing, growing
    adds no page, [clear_at_or_above] leaves exactly the pages below the
    floor), and so does every sequence of operations. *)
Theorem bitmap_refines_set bm st ops :
  bitmap_repr bm st → Forall bitmap_op_ok ops →
  bitmap_repr (foldl bitmap_step bm ops) (foldl page_set_step st ops).
Proof.
  intros Hr Hops. revert bm st Hr. induction Hops as [|op ops Hop _ IH]; intros bm st Hr; [done|].
  cbn. apply IH. clear IH ops. destruct st as [cap s]. destruct Hr as [Hcap Hset]. cbn in Hcap.
  subst cap. destruct op as [p|p|a c| |f|n|p]; cbn in *; split; cbn;
    unfold bit_capacity in *; unfold is_u64 in *; cbn in *.
  - unfold mark_present. by rewrite update_byte_length.
  - intros q Hq. rewrite mark_present_spec, Hset by lia. unfold bit_capacity.
    destruct (Z.ltb_spec p (Z.of_nat (length (bits bm)) * 8)); set_solver by lia.
  - unfold clear. by rewrite update_byte_length.
  - intros q Hq. rewrite clear_spec, Hset by lia. set_solver.
  - unfold clear_range. by rewrite clear_fold_length.
  - intros q Hq. unfold clear_range. rewrite wrap64_id by (unfold is_u64; lia).
    assert (Forall (λ x, 0 ≤ x) (range a (a + c)))
      by (apply Forall_forall; intros x Hx%elem_of_range; lia).
    rewrite clear_fold_spec, Hset, elem_of_range, elem_of_filter by done. tauto.
  - by rewrite length_fmap.
  - intros q Hq. pose proof (fmap_zero_present bm q Hq). set_solver.
  - unfold clear_at_or_above. by rewrite clear_fold_length.
  - intros q Hq. unfold clear_at_or_above.
    assert (Forall (λ x, 0 ≤ x) (range f (bit_capacity bm)))
      by (apply Forall_forall; intros x Hx%elem_of_range; lia).
    rewrite clear_fold_spec, elem_of_range, elem_of_filter, <-Hset by done.
    split; [|intros [? ?]; split; [done|lia]].
    intros [Hp Hn]. apply present_below_capacity in Hp as Hlt; [|done]. split; [lia|done].
  - rewrite length_grow_to, Nat2Z.inj_max, div_ceil_8 by lia. lia.
  - intros q Hq. unfold resize. by rewrite grow_bitmap_spec, Hset.
  - rewrite length_grow_to, Nat2Z.inj_max. assert (0 ≤ p / 8) by (apply Z.div_pos; lia). lia.
  - intros q Hq. unfold ensure_capacity. by rewrite grow_bitmap_spec, Hset.
Qed.

Definition example_ops : list bitmap_op :=
  [OpEnsure 20; OpMark 3; OpMark 20; OpMark 99; OpClear 3; OpMark 7; OpClearAbove 8].

Lemma bitmap_refines_set_witness :
  bitmap_repr (foldl bitmap_step {| bits := [] |} example_ops) (24, {[ 7 ]}).
Proof.
  change (24, {[ 7 ]}) with ((24, {[ 7 ]}) : page_set).
  replace ((24, {[ 7 ]}) : page_set) with (foldl page_set_step (0, ∅) example_ops)
    by (apply (bool_decide_eq_true_1 _); vm_compute; reflexivity).
  apply (bitmap_refines_set {| bits := [] |} (0, ∅) example_ops).
  - split; [done|]. intros p Hp. rewrite is_present_testbit by done. cbn. set_solver.
  - repeat constructor; cbn; lia.
Defined.

(* ------------------------------------------------------------------ *)
(** * The sub-chunk tracker *)

Record SubChunkId := { sc_group_id : Z; sc_frame_index : Z }.

#[export] Instance SubChunkId_eq_dec : EqDecision SubChunkId.
Proof. solve_decision. Defined.
#[export] Instance SubChunkId_countable : Countable SubChunkId.
Proof.
  refine (inj_countable' (λ i, (sc_group_id i, sc_frame_index i))
    (λ '(g, f), {| sc_group_id := g; sc_frame_index := f |}) _). by intros [].
Defined.

Inductive SubChunkTier := Pinned | Index | Data.

#[export] Instance SubChunkTier_eq_dec : EqDecision SubChunkTier.
Proof. solve_decision. Defined.

(** [tier as u8]; the derived order compares these numbers. *)
Definition tier_u8 (t : SubChunkTier) : Z :=
  match t with Pinned => 0 | Index => 1 | Data => 2 end.

Definition tier_of_u8 (b : Z) : SubChunkTier :=
  if b =? 0 then Pinned else if b =? 1 then Index else Data.

Definition ACCESS_COUNT_CAP : Z := 64.
Definition RECENCY_WINDOW_SECS : Z := 3600.

(** An [Instant] is a number of nanoseconds; [now] is an argument of the
    operations that read the clock. *)
Record SubChunkTracker := {
  present : gset SubChunkId;
  tiers : gmap SubChunkId SubChunkTier;
  access_times : gmap SubChunkId Z;
  access_counts : gmap SubChunkId Z;
  current_cache_bytes : Z;
  sub_chunk_byte_size : Z;
  tr_pages_per_group : Z;
  tr_sub_pages_per_frame : Z
}.

(** [local_state::TrackerEntry]. *)
Record TrackerEntry := { te_id : SubChunkId; te_tier : Z; te_access_count : Z }.

Definition tier_of (t : SubChunkTracker) (id : SubChunkId) : SubChunkTier :=
  default Data (tiers t !! id).

(** [local_state::tracker_entries]. *)
Definition tracker_entries `{HashIter} (t : SubChunkTracker) : list TrackerEntry :=
  (λ id, {| te_id := id; te_tier := tier_u8 (tier_of t id);
            te_access_count := default 0 (access_counts t !! id) |}) <$> hset_iter (present t).

(** [local_state::tracker_maps]. *)
Definition tracker_maps (entries : list TrackerEntry) :
    gset SubChunkId * gmap SubChunkId SubChunkTier * gmap SubChunkId Z :=
  foldl (λ '(p, ts, cs) e,
    ({[ te_id e ]} ∪ p, <[te_id e := tier_of_u8 (te_tier e)]> ts,
     if 0 <? te_access_count e then <[te_id e := te_access_count e]> cs else cs))
    (∅, ∅, ∅) entries.

Definition from_parts (now ppg spf : Z) (p : gset SubChunkId)
    (ts : gmap SubChunkId SubChunkTier) (cs : gmap SubChunkId Z) : SubChunkTracker := {|
  present := p; tiers := ts; access_times := gset_to_gmap now p; access_counts := cs;
  current_cache_bytes := 0; sub_chunk_byte_size := 0;
  tr_pages_per_group := ppg; tr_sub_pages_per_frame := spf
|}.

Definition new_with_state (now ppg spf : Z) (entries : option (list TrackerEntry)) :
    SubChunkTracker :=
  let '(p, ts, cs) := match entries with Some es => tracker_maps es | None => (∅, ∅, ∅) end in
  from_parts now ppg spf p ts cs.

Definition sub_chunk_for_page (t : SubChunkTracker) (page_num : Z) : SubChunkId :=
  let ppg := tr_pages_per_group t in
  let spf := tr_sub_pages_per_frame t in
  if (ppg =? 0) || (spf =? 0) then {| sc_group_id := 0; sc_frame_index := 0 |}
  else {| sc_group_id := wrap32 (page_num / ppg);
          sc_frame_index := wrap16 (wrap32 (page_num mod ppg) / spf) |}.

Definition sub_chunk_id_for (t : SubChunkTracker) (gid index_in_group : Z) : SubChunkId :=
  let spf := tr_sub_pages_per_frame t in
  let frame_idx := if spf =? 0 then 0 else index_in_group / spf in
  {| sc_group_id := wrap32 gid; sc_frame_index := wrap16 frame_idx |}.

Definition is_sub_chunk_present (t : SubChunkTracker) (id : SubChunkId) : bool :=
  bool_decide (id ∈ present t).

Definition page_is_present (t : SubChunkTracker) (page_num : Z) : bool :=
  is_sub_chunk_present t (sub_chunk_for_page t page_num).

Definition set_sub_chunk_byte_size (t : SubChunkTracker) (byte_size : Z) : SubChunkTracker := {|
  present := present t; tiers := tiers t; access_times := access_times t;
  access_counts := access_counts t;
  current_cache_bytes := wrap64 (Z.of_nat (size (present t)) * byte_size);
  sub_chunk_byte_size := byte_size;
  tr_pages_per_group := tr_pages_per_group t;
  tr_sub_pages_per_frame := tr_sub_pages_per_frame t
|}.

(** Replacing the four tables and the byte count. *)
Definition with_maps (t : SubChunkTracker) (p : gset SubChunkId) (b : Z)
    (ts : gmap SubChunkId SubChunkTier) (at' : gmap SubChunkId Z) (cs : gmap SubChunkId Z) :
    SubChunkTracker := {|
  present := p; tiers := ts; access_times := at'; access_counts := cs;
  current_cache_bytes := b; sub_chunk_byte_size := sub_chunk_byte_size t;
  tr_pages_per_group := tr_pages_per_group t;
  tr_sub_pages_per_frame := tr_sub_pages_per_frame t
|}.

(** [if self.present.insert(id) { current_cache_bytes += .. }]. *)
Definition bytes_after_insert (t : SubChunkTracker) (id : SubChunkId) : Z :=
  if decide (id ∈ present t) then current_cache_bytes t
  else wrap64 (current_cache_bytes t + sub_chunk_byte_size t).

(** [access_times.entry(id).or_insert_with(Instant::now)]. *)
Definition or_insert (m : gmap SubChunkId Z) (id : SubChunkId) (v : Z) : gmap SubChunkId Z :=
  match m !! id with Some _ => m | None => <[id := v]> m end.

Definition tracker_mark_present (t : SubChunkTracker) (now : Z) (id : SubChunkId)
    (tier : SubChunkTier) : SubChunkTracker :=
  with_maps t ({[ id ]} ∪ present t) (bytes_after_insert t id)
    (match tiers t !! id with
     | Some t0 => if tier_u8 t0 <=? tier_u8 tier then tiers t else <[id := tier]> (tiers t)
     | None => <[id := tier]> (tiers t)
     end)
    (<[id := now]> (access_times t)) (access_counts t).

Definition mark_pinned (t : SubChunkTracker) (now : Z) (id : SubChunkId) : SubChunkTracker :=
  with_maps t ({[ id ]} ∪ present t) (bytes_after_insert t id)
    (<[id := Pinned]> (tiers t)) (or_insert (access_times t) id now) (access_counts t).

Definition mark_index (t : SubChunkTracker) (now : Z) (id : SubChunkId) : SubChunkTracker :=
  with_maps t ({[ id ]} ∪ present t) (bytes_after_insert t id)
    (match tiers t !! id with
     | Some Pinned => tiers t
     | _ => <[id := Index]> (tiers t)
     end)
    (or_insert (access_times t) id now) (access_counts t).

Definition touch (t : SubChunkTracker) (now : Z) (id : SubChunkId) : SubChunkTracker :=
  let count := default 0 (access_counts t !! id) in
  with_maps t (present t) (current_cache_bytes t) (tiers t) (<[id := now]> (access_times t))
    (<[id := if count <? ACCESS_COUNT_CAP then count + 1 else count]> (access_counts t)).

Definition touch_page (t : SubChunkTracker) (now page_num : Z) : SubChunkTracker :=
  touch t now (sub_chunk_for_page t page_num).

Definition remove (t : SubChunkTracker) (id : SubChunkId) : SubChunkTracker :=
  with_maps t (present t ∖ {[ id ]})
    (if decide (id ∈ present t)
     then saturating_sub (current_cache_bytes t) (sub_chunk_byte_size t)
     else current_cache_bytes t)
    (delete id (tiers t)) (delete id (access_times t)) (delete id (access_counts t)).

(* ------------------------------------------------------------------ *)
(** ** Eviction *)

(** [Duration::as_secs_f64]. *)
Definition as_secs_f64 (ns : Z) : f64 :=
  f64_add (f64_of (ns / 10 ^ 9)) (f64_div (f64_of (ns mod 10 ^ 9)) (f64_of (10 ^ 9))).

(** The score of an evictable sub-chunk, from its tier, its last access (the
    epoch [now - 3600 s] when unknown) and its access count. *)
Definition tier_bonus (tier : SubChunkTier) : f64 :=
  match tier with Index => f64_of 10 | _ => f64_of 0 end.

Definition recency_score (now access : Z) : f64 :=
  let age_secs := as_secs_f64 (saturating_sub now access) in
  f64_sub (f64_of 1)
    (f64_min (f64_div age_secs (as_secs_f64 (RECENCY_WINDOW_SECS * 10 ^ 9))) (f64_of 1)).

Definition frequency_score (count : Z) : f64 :=
  f64_min (f64_div (f64_of count) (f64_of ACCESS_COUNT_CAP)) (f64_of 1).

Definition eviction_score (tier : SubChunkTier) (now access count : Z) : f64 :=
  f64_add (f64_add (tier_bonus tier) (recency_score now access)) (frequency_score count).

Definition score_of (t : SubChunkTracker) (now : Z) (id : SubChunkId) : f64 :=
  eviction_score (tier_of t id) now
    (default (now - RECENCY_WINDOW_SECS * 10 ^ 9) (access_times t !! id))
    (default 0 (access_counts t !! id)).

(** The two guards of the eviction loops. *)
Definition evictable (t : SubChunkTracker) (skip_groups : gset Z) (id : SubChunkId) : bool :=
  negb (bool_decide (tier_of t id = Pinned)) &&
  negb (bool_decide (sc_group_id id ∈ skip_groups)).

Definition score_evictable `{HashIter} (t : SubChunkTracker) (now : Z) (skip_groups : gset Z) :
    list (SubChunkId * f64) :=
  (λ id, (id, score_of t now id)) <$> filter (evictable t skip_groups) (hset_iter (present t)).

(** One round of the loop: a strictly lower score replaces the candidate. *)
Definition better (candidate : option (SubChunkId * f64)) (x : SubChunkId * f64) :
    option (SubChunkId * f64) :=
  match candidate with
  | None => Some x
  | Some c => if f64_lt x.2 c.2 then Some x else candidate
  end.

Definition evict_one_skipping `{HashIter} (t : SubChunkTracker) (now : Z) (skip_groups : gset Z) :
    option SubChunkId * SubChunkTracker :=
  match foldl better None (score_evictable t now skip_groups) with
  | Some (id, _) => (Some id, remove t id)
  | None => (None, t)
  end.

Definition evict_one `{HashIter} (t : SubChunkTracker) (now : Z) :
    option SubChunkId * SubChunkTracker :=
  evict_one_skipping t now ∅.

Definition remove_all (t : SubChunkTracker) (ids : list SubChunkId) : SubChunkTracker :=
  foldl remove t ids.

Definition evict_expired_in_tier `{HashIter} (t : SubChunkTracker) (now : Z)
    (tier : SubChunkTier) (ttl : Z) : list SubChunkId * SubChunkTracker :=
  let expired := filter (λ id, tier_of t id = tier ∧
    ttl < saturating_sub now (default now (access_times t !! id))) (hset_iter (present t)) in
  (expired, remove_all t expired).

Definition remove_group `{HashIter} (t : SubChunkTracker) (group_id : Z) : SubChunkTracker :=
  remove_all t (filter (λ id, sc_group_id id = group_id) (hset_iter (present t))).

Definition clear_data `{HashIter} (t : SubChunkTracker) : SubChunkTracker :=
  remove_all t (filter (λ id, tier_of t id ≠ Pinned) (hset_iter (present t))).

Definition clear_data_only `{HashIter} (t : SubChunkTracker) : SubChunkTracker :=
  remove_all t (filter (λ id, tier_of t id = Data) (hset_iter (present t))).

Definition clear_index_and_data `{HashIter} (t : SubChunkTracker) : SubChunkTracker :=
  remove_all t (filter (λ id, tier_of t id ≠ Pinned) (hset_iter (present t))).

Definition tracker_clear_all (t : SubChunkTracker) : SubChunkTracker :=
  with_maps t ∅ 0 ∅ ∅ ∅.

Definition len (t : SubChunkTracker) : Z := Z.of_nat (size (present t)).

Definition count_tier (t : SubChunkTracker) (tier : SubChunkTier) : Z :=
  Z.of_nat (size (filter (λ id, tier_of t id = tier) (present t))).

Definition pinned_bytes (t : SubChunkTracker) : Z :=
  wrap64 (count_tier t Pinned * sub_chunk_byte_size t).

(** The half-open range of page numbers a sub-chunk covers, positionally. *)
Definition pages_for_sub_chunk (t : SubChunkTracker) (id : SubChunkId) (page_count : Z) : Z * Z :=
  let start := wrap64 (wrap64 (sc_group_id id * tr_pages_per_group t) +
    wrap64 (sc_frame_index id * tr_sub_pages_per_frame t)) in
  (start, Z.min (wrap64 (start + tr_sub_pages_per_frame t)) page_count).

Inductive tracker_op :=
  | TMark (id : SubChunkId) (tier : SubChunkTier)
  | TPin (id : SubChunkId)
  | TIndex (id : SubChunkId)
  | TTouch (id : SubChunkId)
  | TRemove (id : SubChunkId)
  | TEvict (skip : gset Z)
  | TExpire (tier : SubChunkTier) (ttl : Z)
  | TRemoveGroup (gid : Z)
  | TClearData
  | TClearDataOnly
  | TClearIndexAndData
  | TClearAll
  | TSetByteSize (n : Z).

Definition tracker_step `{HashIter} (t : SubChunkTracker) (now : Z) (op : tracker_op) :
    SubChunkTracker :=
  match op with
  | TMark id tier => tracker_mark_present t now id tier
  | TPin id => mark_pinned t now id
  | TIndex id => mark_index t now id
  | TTouch id => touch t now id
  | TRemove id => remove t id
  | TEvict skip => (evict_one_skipping t now skip).2
  | TExpire tier ttl => (evict_expired_in_tier t now tier ttl).2
  | TRemoveGroup gid => remove_group t gid
  | TClearData => clear_data t
  | TClearDataOnly => clear_data_only t
  | TClearIndexAndData => clear_index_and_data t
  | TClearAll => tracker_clear_all t
  | TSetByteSize n => set_sub_chunk_byte_size t n
  end.

(** The invariant: the byte count is that of the present sub-chunks, the tier
    table knows exactly the present sub-chunks, and the counts are [u32]s. *)
Record tracker_inv (t : SubChunkTracker) : Prop := {
  inv_bytes : current_cache_bytes t = len t * sub_chunk_byte_size t;
  inv_size : 0 ≤ sub_chunk_byte_size t;
  inv_tiers : dom (tiers t) = present t;
  inv_counts : map_Forall (λ _ c, 0 ≤ c < 2 ^ 32) (access_counts t)
}.

Definition op_size_ok (op : tracker_op) : Prop :=
  match op with TSetByteSize n => 0 ≤ n | _ => True end.

(* ------------------------------------------------------------------ *)
(** ** Lemmas *)

Lemma remove_inv t id : tracker_inv t → tracker_inv (remove t id).
Proof.
  intros [Hb Hs Ht Hc]. split; cbn; [|done|by rewrite dom_delete_L, Ht|by apply map_Forall_delete].
  unfold len in *. cbn. destruct (decide (id ∈ present t)) as [Hin|Hout].
  - rewrite Hb. rewrite size_difference by set_solver. rewrite size_singleton.
    assert (1 ≤ size (present t))%nat.
    { rewrite <-(size_singleton (C := gset SubChunkId) id). apply subseteq_size. set_solver. }
    unfold saturating_sub. nia.
  - by replace (present t ∖ {[ id ]}) with (present t) by set_solver.
Qed.

Lemma remove_all_inv t ids : tracker_inv t → tracker_inv (remove_all t ids).
Proof.
  unfold remove_all. revert t. induction ids as [|id ids IH]; intros t Ht; [done|].
  apply IH. by apply remove_inv.
Qed.

Lemma remove_all_present t ids : present (remove_all t ids) = present t ∖ list_to_set ids.
Proof.
  unfold remove_all. revert t. induction ids as [|id ids IH]; intros t; cbn; [set_solver|].
  rewrite IH. cbn. set_solver.
Qed.

Lemma remove_all_filter `{HashIter} t (P : SubChunkId → Prop) `{!∀ x, Decision (P x)} :
  present (remove_all t (filter P (hset_iter (present t)))) = filter (λ id, ¬ P id) (present t).
Proof.
  rewrite remove_all_present. apply set_eq. intros id.
  rewrite elem_of_difference, elem_of_list_to_set, elem_of_filter, list_elem_of_filter,
    elem_of_hset_iter. destruct (decide (P id)); tauto.
Qed.

Lemma remove_tier_of t id id' : id ≠ id' → tier_of (remove t id) id' = tier_of t id'.
Proof. intros Hne. unfold tier_of. cbn. by rewrite lookup_delete_ne. Qed.

Lemma insert_bytes t id ts at' cs :
  tracker_inv t → dom ts = {[ id ]} ∪ present t → cs = access_counts t →
  let t' := with_maps t ({[ id ]} ∪ present t) (bytes_after_insert t id) ts at' cs in
  len t' * sub_chunk_byte_size t' < 2 ^ 64 → tracker_inv t'.
Proof.
  intros [Hb Hs Ht Hc] Hd -> t'. subst t'. unfold len, bytes_after_insert. cbn. intros Hlt.
  split; cbn; [|done|done|done]. unfold len in *. cbn.
  destruct (decide (id ∈ present t)) as [Hin|Hout].
  - by replace ({[ id ]} ∪ present t) with (present t) by set_solver.
  - rewrite size_union, size_singleton in * by set_solver.
    rewrite wrap64_id; [lia|]. split; nia.
Qed.

(** The fold keeps a candidate that no element seen so far beats. *)
Lemma better_min l :
  match foldl better None l with
  | None => l = []
  | Some c => c ∈ l ∧ ∀ x, x ∈ l → ¬ f64_lt x.2 c.2
  end.
Proof.
  induction l as [|x l IH] using rev_ind; [done|]. rewrite foldl_app. cbn.
  destruct (foldl better None l) as [c|]; cbn.
  - destruct IH as [Hc Hmin]. destruct (f64_lt x.2 c.2) eqn:Hlt.
    + split; [apply elem_of_app; right; by left|].
      intros y [Hy|Hy%list_elem_of_singleton]%elem_of_app; [|subst; apply f64_lt_irrefl].
      intros Hyx. apply (Hmin y Hy). eapply f64_lt_trans; [exact Hyx|]. by rewrite Hlt.
    + split; [apply elem_of_app; by left|].
      intros y [Hy|Hy%list_elem_of_singleton]%elem_of_app; [by apply Hmin|].
      subst. rewrite Hlt. cbn. tauto.
  - subst l. split; [by left|]. intros y Hy%list_elem_of_singleton. subst. apply f64_lt_irrefl.
Qed.

Lemma elem_of_score_evictable `{HashIter} t now skip id s :
  (id, s) ∈ score_evictable t now skip ↔
  s = score_of t now id ∧ id ∈ present t ∧ tier_of t id ≠ Pinned ∧ sc_group_id id ∉ skip.
Proof.
  assert (∀ i, evictable t skip i ↔ tier_of t i ≠ Pinned ∧ sc_group_id i ∉ skip) as Hev.
  { intros i. unfold evictable. rewrite andb_True, !negb_True, !bool_decide_spec. done. }
  unfold score_evictable. rewrite list_elem_of_fmap. split.
  - intros (id' & [= -> ->] & [He Hin]%list_elem_of_filter).
    rewrite Hev in He. rewrite elem_of_hset_iter in Hin. tauto.
  - intros (-> & Hin & He). exists id. split; [done|].
    by rewrite list_elem_of_filter, elem_of_hset_iter, Hev.
Qed.

Lemma dom_mark (ts : gmap SubChunkId SubChunkTier) id v :
  dom (<[id := v]> ts) = {[ id ]} ∪ dom ts.
Proof. apply dom_insert_L. Qed.

Lemma dom_known (ts : gmap SubChunkId SubChunkTier) id v :
  ts !! id = Some v → dom ts = {[ id ]} ∪ dom ts.
Proof. intros Hv. apply elem_of_dom_2 in Hv. set_solver. Qed.

(* ------------------------------------------------------------------ *)
(** ** Theorems *)

(** C31. Every operation of the tracker keeps the invariant: the running byte
    count is the number of present sub-chunks times their size (as long as
    that fits in 64 bits), exactly the present sub-chunks have a tier, and
    the access counts stay in range. *)
Theorem tracker_step_inv `{HashIter} t now op :
  tracker_inv t → op_size_ok op →
  len (tracker_step t now op) * sub_chunk_byte_size (tracker_step t now op) < 2 ^ 64 →
  tracker_inv (tracker_step t now op).
Proof.
  intros Hinv Hop. destruct op; cbn [tracker_step]; intros Hlt.
  - apply insert_bytes; [done| |done|done]. pose proof (inv_tiers _ Hinv) as Ht.
    destruct (tiers t !! id) as [t0|] eqn:Hid; [case_match|]; rewrite ?dom_mark, ?Ht; try done.
    rewrite <-Ht. by eapply dom_known.
  - apply insert_bytes; [done| |done|done]. by rewrite dom_mark, (inv_tiers _ Hinv).
  - apply insert_bytes; [done| |done|done]. pose proof (inv_tiers _ Hinv) as Ht.
    destruct (tiers t !! id) as [[]|] eqn:Hid; rewrite ?dom_mark, ?Ht; try done.
    rewrite <-Ht. by eapply dom_known.
  - destruct Hinv as [Hb Hs Ht Hc]. split; cbn; [done..|].
    apply map_Forall_insert_2; [|done].
    assert (0 ≤ default 0 (access_counts t !! id) < 2 ^ 32) as Hd.
    { destruct (access_counts t !! id) eqn:Hid; [by apply (Hc id)|]. done. }
    unfold ACCESS_COUNT_CAP. case_match; lia.
  - by apply remove_inv.
  - unfold evict_one_skipping. destruct (foldl _ _ _) as [[id s]|]; [by apply remove_inv|done].
  - by apply remove_all_inv.
  - by apply remove_all_inv.
  - by apply remove_all_inv.
  - by apply remove_all_inv.
  - by apply remove_all_inv.
  - destruct Hinv. by split.
  - destruct Hinv as [Hb Hs Ht Hc]. split; cbn in *; try done.
    unfold len in *. cbn in *. rewrite wrap64_id; [done|]. split; [nia|done].
Qed.

Definition sc (g f : Z) : SubChunkId := {| sc_group_id := g; sc_frame_index := f |}.

(** A tracker with one sub-chunk per tier, one of them twice touched. *)
Definition example_tracker : SubChunkTracker :=
  let t := set_sub_chunk_byte_size (new_with_state 0 8 2 None) 8192 in
  let t := mark_pinned t 0 (sc 0 0) in
  let t := mark_index t (10 ^ 9) (sc 1 0) in
  let t := tracker_mark_present t (2 * 10 ^ 9) (sc 1 1) Data in
  let t := tracker_mark_present t (3 * 10 ^ 9) (sc 2 1) Data in
  touch t (4 * 10 ^ 9) (sc 1 1).

Lemma example_tracker_inv : tracker_inv example_tracker.
Proof.
  split; [reflexivity | cbn; lia | |].
  - apply (bool_decide_eq_true_1 _). vm_compute. reflexivity.
  - apply (bool_decide_eq_true_1 _). vm_compute. reflexivity.
Defined.

Lemma tracker_step_inv_witness :
  tracker_inv (@tracker_step canonical_iter example_tracker (5 * 10 ^ 9) (TEvict {[ 3 ]})).
Proof.
  apply (@tracker_step_inv canonical_iter example_tracker);
    [exact example_tracker_inv | exact I | vm_compute; reflexivity].
Defined.

(** [evict_one_skipping] evicts a present sub-chunk that is not pinned and
    not of a skipped group, and no other such sub-chunk has a lower score; it
    evicts nothing only when there is no such sub-chunk.  It changes the
    tracker by that one removal. *)
Theorem evict_one_skipping_minimal `{HashIter} t now skip :
  match evict_one_skipping t now skip with
  | (Some id, t') =>
      t' = remove t id ∧ present t' = present t ∖ {[ id ]} ∧ id ∈ present t ∧
      tier_of t id ≠ Pinned ∧ sc_group_id id ∉ skip ∧
      ∀ id', id' ∈ present t → tier_of t id' ≠ Pinned → sc_group_id id' ∉ skip →
        ¬ f64_lt (score_of t now id') (score_of t now id)
  | (None, t') =>
      t' = t ∧ ∀ id, id ∈ present t → tier_of t id = Pinned ∨ sc_group_id id ∈ skip
  end.
Proof.
  unfold evict_one_skipping. pose proof (better_min (score_evictable t now skip)) as Hmin.
  destruct (foldl better None _) as [[id s]|].
  - destruct Hmin as [(-> & Hin & Hp & Hs)%elem_of_score_evictable Hmin].
    split_and!; try done. intros id' Hin' Hp' Hs'.
    apply (Hmin (id', score_of t now id')). by apply elem_of_score_evictable.
  - split; [done|]. intros id Hin.
    destruct (decide (tier_of t id = Pinned)), (decide (sc_group_id id ∈ skip)); auto.
    exfalso. assert ((id, score_of t now id) ∈ score_evictable t now skip) as Hel
      by by apply elem_of_score_evictable.
    rewrite Hmin in Hel. set_solver.
Qed.

Lemma evict_one_skipping_minimal_witness :
  (@evict_one_skipping canonical_iter example_tracker (5 * 10 ^ 9) ∅).1 = Some (sc 2 1) ∧
  ¬ f64_lt (score_of example_tracker (5 * 10 ^ 9) (sc 1 1))
      (score_of example_tracker (5 * 10 ^ 9) (sc 2 1)).
Proof.
  pose proof (@evict_one_skipping_minimal canonical_iter example_tracker (5 * 10 ^ 9) ∅) as H.
  assert ((@evict_one_skipping canonical_iter example_tracker (5 * 10 ^ 9) ∅).1 = Some (sc 2 1))
    as He by (vm_compute; reflexivity).
  split; [exact He|]. destruct (evict_one_skipping _ _ _) as [o t']. cbn in He. subst o.
  destruct H as (_ & _ & _ & _ & _ & Hmin).
  apply Hmin; [by apply (bool_decide_eq_true_1 _) | by vm_compute | set_solver].
Defined.

(** The scores of one tier lie in a range of their own. *)
Lemma as_secs_span ns : 0 ≤ ns < 2 ^ 64 * 10 ^ 9 → span (-29) 67 (as_secs_f64 ns).
Proof.
  intros Hns. unfold as_secs_f64.
  assert (0 ≤ ns / 10 ^ 9 < 2 ^ 64) by (split; [apply Z.div_pos; lia|apply Z.div_lt_upper_bound; lia]).
  pose proof (Z.mod_pos_bound ns (10 ^ 9) ltac:(lia)).
  apply (f64_add_span (-29) 65); [| |lia].
  - eapply span_mono; [| |by apply f64_of_span]; lia.
  - change (f64_of (10 ^ 9)) with (S754_finite false 8388608000000000 (-23)).
    assert (span (1 - (53 + -23)) (Z.max (65 - (53 + -23)) (-1000) + 2)
      (f64_div (f64_of (ns mod 10 ^ 9)) (S754_finite false 8388608000000000 (-23)))) as Hd.
    { apply (f64_div_span 1 65 _ 8388608000000000 (-23)); [apply f64_of_span; lia|..];
        vm_compute; congruence. }
    eapply span_mono; [| |exact Hd]; lia.
Qed.

Lemma recency_span now access :
  now - access < 2 ^ 64 * 10 ^ 9 → span (-1073) 1 (recency_score now access).
Proof.
  intros Hage. unfold recency_score.
  change (as_secs_f64 (RECENCY_WINDOW_SECS * 10 ^ 9)) with (S754_finite false 7916483719987200 (-41)).
  assert (0 ≤ saturating_sub now access < 2 ^ 64 * 10 ^ 9) as Hs by (unfold saturating_sub; lia).
  pose proof (f64_div_span (-29) 67 _ 7916483719987200 (-41) (as_secs_span _ Hs)
    ltac:(vm_compute; congruence) ltac:(vm_compute; congruence)) as Hd.
  apply f64_one_minus. eapply (f64_min_one _ _ _ Hd). vm_compute. congruence.
Qed.

Lemma frequency_span count : 0 ≤ count < 2 ^ 32 → span (-1073) 1 (frequency_score count).
Proof.
  intros Hc. unfold frequency_score.
  change (f64_of ACCESS_COUNT_CAP) with (S754_finite false 4503599627370496 (-46)).
  pose proof (f64_div_span 1 65 _ 4503599627370496 (-46) (f64_of_span count ltac:(lia))
    ltac:(vm_compute; congruence) ltac:(vm_compute; congruence)) as Hd.
  eapply span_mono; [| |eapply (f64_min_one _ _ _ Hd); vm_compute; congruence]; [|lia].
  vm_compute. congruence.
Qed.

Lemma score_bounds tier now access count :
  now - access < 2 ^ 64 * 10 ^ 9 → 0 ≤ count < 2 ^ 32 →
  canon (match tier with Index => 8 | _ => 3 end) (eviction_score tier now access count) ∧
  (tier = Index → at_least 4 (eviction_score tier now access count)).
Proof.
  intros Ha Hc. destruct (recency_span now access Ha) as [Hr _].
  destruct (frequency_span count Hc) as [Hf _]. unfold eviction_score.
  set (r := recency_score now access) in *. set (f := frequency_score count) in *.
  clearbody r f. destruct tier; cbn [tier_bonus].
  1, 3: change (f64_of 0) with (S754_zero false);
    assert (f64_add (S754_zero false) r = r) as -> by (by destruct r as [[]| | |[]]);
    destruct (f64_add_spec 1 r f) as [H2 _]; [done|done|lia|]; by split.
  change (f64_of 10) with (S754_finite false 5629499534213120 (-49)).
  destruct (f64_add_spec 4 (S754_finite false 5629499534213120 (-49)) r) as [H1 H1'];
    [split; [reflexivity|vm_compute; congruence]|by eapply canon_mono; [|exact Hr]; lia|lia|].
  destruct (f64_add_spec 6 _ f H1 ltac:(by eapply canon_mono; [|exact Hf]; lia) ltac:(lia))
    as [H2 H2'].
  split; [done|]. intros _. apply H2'. left. apply H1'. left. vm_compute. congruence.
Qed.

(** The scores are numbers when no access lies centuries in the past. *)
Lemma score_not_nan t now id :
  tracker_inv t → map_Forall (λ _ a, now - a < 2 ^ 64 * 10 ^ 9) (access_times t) →
  score_of t now id ≠ S754_nan.
Proof.
  intros Hinv Hat Hn. unfold score_of in Hn.
  destruct (score_bounds (tier_of t id) now
    (default (now - RECENCY_WINDOW_SECS * 10 ^ 9) (access_times t !! id))
    (default 0 (access_counts t !! id))) as [Hc _].
  - destruct (access_times t !! id) as [a|] eqn:Hi; cbn; [by apply (Hat id)|].
    unfold RECENCY_WINDOW_SECS. lia.
  - destruct (access_counts t !! id) as [c|] eqn:Hi; cbn; [|done]. by apply (inv_counts _ Hinv id).
  - by rewrite Hn in Hc.
Qed.

(** The tier dominates recency and frequency in floating-point arithmetic
    too: however hot it is, a data sub-chunk scores strictly below every index
    sub-chunk, so an index sub-chunk is evicted only when no data sub-chunk
    outside the skipped groups is left. *)
Theorem data_evicted_before_index `{HashIter} t now skip id t' :
  tracker_inv t → map_Forall (λ _ a, now - a < 2 ^ 64 * 10 ^ 9) (access_times t) →
  evict_one_skipping t now skip = (Some id, t') → tier_of t id = Index →
  ∀ id', id' ∈ present t → sc_group_id id' ∉ skip → tier_of t id' ≠ Data.
Proof.
  intros Hinv Hat Hev Hidx id' Hin Hskip Hdata.
  assert (∀ i, now - default (now - RECENCY_WINDOW_SECS * 10 ^ 9) (access_times t !! i)
    < 2 ^ 64 * 10 ^ 9) as Ha.
  { intros i. destruct (access_times t !! i) as [a|] eqn:Hi; cbn; [by apply (Hat i)|].
    unfold RECENCY_WINDOW_SECS. lia. }
  assert (∀ i, 0 ≤ default 0 (access_counts t !! i) < 2 ^ 32) as Hc.
  { intros i. destruct (access_counts t !! i) as [c|] eqn:Hi; cbn; [|done].
    by apply (inv_counts _ Hinv i). }
  unfold evict_one_skipping in Hev.
  pose proof (better_min (score_evictable t now skip)) as Hmin.
  destruct (foldl better None _) as [[i s]|]; [|done]. injection Hev as -> _.
  destruct Hmin as [(-> & _)%elem_of_score_evictable Hmin].
  apply (Hmin (id', score_of t now id')); [by apply elem_of_score_evictable; rewrite Hdata|].
  cbn. unfold score_of. rewrite Hidx, Hdata.
  destruct (score_bounds Data now _ _ (Ha id') (Hc id')) as [H1 _].
  destruct (score_bounds Index now _ _ (Ha id) (Hc id)) as [H2 H3].
  apply (canon_lt 3); [done|by eapply canon_mono; [|exact H2]|by apply H3|done].
Qed.

Lemma data_evicted_before_index_witness :
  tier_of (remove example_tracker (sc 2 1)) (sc 1 1) = Data ∧
  ∀ id t', @evict_one_skipping canonical_iter example_tracker (5 * 10 ^ 9) ∅ = (Some id, t') →
    tier_of example_tracker id ≠ Index.
Proof.
  split; [reflexivity|]. intros id t' Hev Hidx.
  assert (map_Forall (λ _ a, 5 * 10 ^ 9 - a < 2 ^ 64 * 10 ^ 9) (access_times example_tracker)) as Hat
    by (apply (bool_decide_eq_true_1 _); vm_compute; reflexivity).
  pose proof (@data_evicted_before_index canonical_iter example_tracker (5 * 10 ^ 9) ∅ id t'
    example_tracker_inv Hat Hev Hidx (sc 1 1)) as Hd.
  apply Hd; [by apply (bool_decide_eq_true_1 _)|apply not_elem_of_empty|vm_compute; reflexivity].
Defined.

(** The bulk operations leave exactly the sub-chunks they promise to keep:
    all but the group's, all but the data ones, only the pinned ones, all but
    the expired ones of a tier; the evicted ids are returned. *)
Theorem bulk_removals_exact `{HashIter} t now :
  (∀ gid, present (remove_group t gid) = filter (λ id, sc_group_id id ≠ gid) (present t)) ∧
  present (clear_data_only t) = filter (λ id, tier_of t id ≠ Data) (present t) ∧
  present (clear_index_and_data t) = filter (λ id, tier_of t id = Pinned) (present t) ∧
  present (clear_data t) = filter (λ id, tier_of t id = Pinned) (present t) ∧
  (∀ tier ttl, let '(expired, t') := evict_expired_in_tier t now tier ttl in
    NoDup expired ∧ present t' = present t ∖ list_to_set expired ∧
    ∀ id, id ∈ expired ↔ id ∈ present t ∧ tier_of t id = tier ∧
      ttl < saturating_sub now (default now (access_times t !! id))).
Proof.
  assert (filter (λ id, tier_of t id = Pinned) (present t) =
    filter (λ id, ¬ tier_of t id ≠ Pinned) (present t)) as ->.
  { apply set_eq. intros id. rewrite !elem_of_filter.
    destruct (decide (tier_of t id = Pinned)); tauto. }
  split_and!.
  - intros gid. apply remove_all_filter.
  - apply remove_all_filter.
  - apply remove_all_filter.
  - apply remove_all_filter.
  - intros tier ttl. unfold evict_expired_in_tier. split_and!.
    + apply NoDup_filter, NoDup_hset_iter.
    + apply remove_all_present.
    + intros id. rewrite list_elem_of_filter, elem_of_hset_iter. tauto.
Qed.

(* ------------------------------------------------------------------ *)
(** ** Persistence *)

Lemma tier_u8_inv tier : tier_of_u8 (tier_u8 tier) = tier.
Proof. by destruct tier. Qed.

(** What [tracker_maps] makes of entries with distinct ids. *)
Lemma tracker_maps_spec es :
  NoDup (te_id <$> es) →
  let '(p, ts, cs) := tracker_maps es in
  p = list_to_set (te_id <$> es) ∧
  (∀ id, id ∉ te_id <$> es → ts !! id = None ∧ cs !! id = None) ∧
  ∀ e, e ∈ es →
    ts !! te_id e = Some (tier_of_u8 (te_tier e)) ∧
    cs !! te_id e = if 0 <? te_access_count e then Some (te_access_count e) else None.
Proof.
  induction es as [|e es IH] using rev_ind; intros Hnd; [cbn; set_solver|].
  unfold tracker_maps in *. rewrite foldl_app. cbn.
  rewrite fmap_app, NoDup_app in Hnd. destruct Hnd as (Hnd & Hout & _).
  assert (te_id e ∉ te_id <$> es) as He by (intros Hin; apply (Hout _ Hin); cbn; set_solver).
  specialize (IH Hnd). destruct (foldl _ _ es) as [[p ts] cs]. destruct IH as (-> & Hnone & Hsome).
  split_and!.
  - rewrite fmap_app, list_to_set_app_L. cbn. set_solver.
  - intros id Hid. rewrite fmap_app, not_elem_of_app in Hid. cbn in Hid.
    destruct Hid as [Hid Hne%not_elem_of_cons]. destruct Hne as [Hne _].
    destruct (Hnone id Hid) as [? ?].
    split; [|case_match]; rewrite ?lookup_insert_ne by done; done.
  - intros e' [Hin|Hin%list_elem_of_singleton]%elem_of_app.
    + assert (te_id e ≠ te_id e') as Hne.
      { intros Heq. apply He. rewrite Heq. by apply list_elem_of_fmap_2. }
      destruct (Hsome e' Hin) as [? ?].
      split; [|case_match; case_match]; rewrite ?lookup_insert_ne by done; done.
    + subst e'. rewrite lookup_insert_eq. split; [done|].
      case_match; [by rewrite lookup_insert_eq|]. by apply Hnone.
Qed.

(** Persisting the tracker and loading it back restores the present set,
    every tier and every positive access count of a present sub-chunk; the
    access times restart at the load time, and counts of sub-chunks that are
    not cached are dropped. *)
Theorem tracker_persist_roundtrip `{HashIter} t now :
  tracker_inv t →
  let t' := new_with_state now (tr_pages_per_group t) (tr_sub_pages_per_frame t)
              (Some (tracker_entries t)) in
  present t' = present t ∧ tiers t' = tiers t ∧
  access_counts t' = filter (λ kv, 0 < kv.2 ∧ kv.1 ∈ present t) (access_counts t) ∧
  access_times t' = gset_to_gmap now (present t) ∧
  tracker_inv (set_sub_chunk_byte_size t' 0).
Proof.
  intros Hinv. unfold new_with_state.
  assert (te_id <$> tracker_entries t = hset_iter (present t)) as Hids.
  { unfold tracker_entries. rewrite <-list_fmap_compose. apply list_fmap_id. }
  pose proof (tracker_maps_spec (tracker_entries t)) as Hspec. rewrite Hids in Hspec.
  specialize (Hspec (NoDup_hset_iter _)).
  destruct (tracker_maps _) as [[p ts] cs]. destruct Hspec as (-> & Hnone & Hsome). cbn.
  assert (list_to_set (hset_iter (present t)) = present t) as ->.
  { apply set_eq. intros id. by rewrite elem_of_list_to_set, elem_of_hset_iter. }
  assert (∀ id, id ∈ present t → ts !! id = Some (tier_of t id) ∧
    cs !! id = if 0 <? default 0 (access_counts t !! id)
               then Some (default 0 (access_counts t !! id)) else None) as Hin.
  { intros id Hid.
    destruct (Hsome {| te_id := id; te_tier := tier_u8 (tier_of t id);
      te_access_count := default 0 (access_counts t !! id) |}) as [H1 H2].
    - unfold tracker_entries. apply list_elem_of_fmap. exists id. split; [done|].
      by apply elem_of_hset_iter.
    - cbn in H1, H2. by rewrite tier_u8_inv in H1. }
  assert (∀ id, id ∉ present t → ts !! id = None ∧ cs !! id = None) as Hout.
  { intros id Hid. apply Hnone. by rewrite elem_of_hset_iter. }
  assert (ts = tiers t) as Hts.
  { apply map_eq. intros id. destruct (decide (id ∈ present t)) as [Hid|Hid].
    - destruct (Hin id Hid) as [-> _]. rewrite <-(inv_tiers _ Hinv) in Hid.
      apply elem_of_dom in Hid as [tier Htier]. unfold tier_of. by rewrite Htier.
    - destruct (Hout id Hid) as [-> _]. rewrite <-(inv_tiers _ Hinv) in Hid.
      by apply not_elem_of_dom in Hid. }
  assert (cs = filter (λ kv, 0 < kv.2 ∧ kv.1 ∈ present t) (access_counts t)) as Hcs.
  { apply map_eq. intros id. symmetry. destruct (decide (id ∈ present t)) as [Hid|Hid].
    - destruct (Hin id Hid) as [_ ->].
      destruct (access_counts t !! id) as [c|] eqn:Hc; cbn.
      + destruct (Z.ltb_spec 0 c).
        * by apply map_lookup_filter_Some.
        * apply map_lookup_filter_None. right. intros c' Hc' [? _]. rewrite Hc in Hc'.
          injection Hc' as <-. cbn in *. lia.
      + apply map_lookup_filter_None. by left.
    - destruct (Hout id Hid) as [_ ->]. apply map_lookup_filter_None. right.
      intros c _ [_ ?]. done. }
  rewrite Hts, Hcs. split_and!; try done. split; cbn; [|done|apply Hinv|].
  - by rewrite !Z.mul_0_r.
  - intros id c [Hc _]%map_lookup_filter_Some. by apply (inv_counts _ Hinv id).
Qed.

Lemma tracker_persist_roundtrip_witness :
  access_counts (new_with_state 9 8 2 (Some (@tracker_entries canonical_iter example_tracker)))
  = {[ sc 1 1 := 1 ]}.
Proof.
  destruct (@tracker_persist_roundtrip canonical_iter example_tracker 9 example_tracker_inv)
    as (_ & _ & Hc & _).
  transitivity (filter (λ kv : SubChunkId * Z, 0 < kv.2 ∧ kv.1 ∈ present example_tracker)
    (access_counts example_tracker)); [exact Hc|].
  apply (bool_decide_eq_true_1 _). vm_compute. reflexivity.
Defined.
