(* ===== verification/LocalState.v ===== *)
(** The local recovery file (src/src/tiered/local_state.rs, with the loaders and
    savers of src/src/tiered/manifest.rs): one MessagePack file per cache
    directory, replaced atomically, updated under a lock.  The MessagePack
    codec (rmp_serde) is a parameter; each file-system call may fail. *)

From S2P Require Import Prelude Manifest CacheTracking.

(* ------------------------------------------------------------------ *)
(** * Data *)

(** [disk_cache::CacheIndexEntry]. *)
Record CacheIndexEntry := { ce_offset : Z; compressed_len : Z }.

Record CacheIndexState := { cis_entries : gmap Z CacheIndexEntry; cis_next_offset : Z }.

Record LocalState := {
  format_version : Z;
  ls_manifest : option Manifest;
  dirty_groups : option (list Z);
  page_bitmap : option (list Z);
  sub_chunk_tracker : option (list TrackerEntry);
  cache_index : option CacheIndexState
}.

(** [LocalState::default]. *)
Definition default_state : LocalState := {|
  format_version := 0; ls_manifest := None; dirty_groups := None; page_bitmap := None;
  sub_chunk_tracker := None; cache_index := None
|}.

Definition with_version (s : LocalState) (v : Z) : LocalState := {|
  format_version := v; ls_manifest := ls_manifest s; dirty_groups := dirty_groups s;
  page_bitmap := page_bitmap s; sub_chunk_tracker := sub_chunk_tracker s;
  cache_index := cache_index s
|}.

Definition with_manifest (s : LocalState) (m : Manifest) : LocalState := {|
  format_version := format_version s; ls_manifest := Some m; dirty_groups := dirty_groups s;
  page_bitmap := page_bitmap s; sub_chunk_tracker := sub_chunk_tracker s;
  cache_index := cache_index s
|}.

Definition with_dirty_groups (s : LocalState) (d : list Z) : LocalState := {|
  format_version := format_version s; ls_manifest := ls_manifest s; dirty_groups := Some d;
  page_bitmap := page_bitmap s; sub_chunk_tracker := sub_chunk_tracker s;
  cache_index := cache_index s
|}.

Definition normalized (s : LocalState) : LocalState :=
  if format_version s =? 0 then with_version s 1 else s.

(** The contents of [local_state.msgpack], [None] when the file is missing. *)
Abbreviation state_file := (option bytes).

(** The file-system calls of [update], in order: those before the state is
    known, then those of [persist]. *)
Inductive persist_step :=
  | CreateCacheDir | OpenLock | LockExclusive | ReadState | CreateDirAll | OpenTmp | WriteAll | SyncTmp | RenameTmp | OpenDir | SyncDir.

#[export] Instance persist_step_eq_dec : EqDecision persist_step.
Proof. solve_decision. Defined.

(* ------------------------------------------------------------------ *)
(** * Operations *)

(** What a serialization keeps: not the indexes of the manifest, which are
    [#[serde(skip)]] fields. *)
Definition unindexed (s : LocalState) : LocalState := {|
  format_version := format_version s; ls_manifest := strip_indexes <$> ls_manifest s;
  dirty_groups := dirty_groups s; page_bitmap := page_bitmap s;
  sub_chunk_tracker := sub_chunk_tracker s; cache_index := cache_index s
|}.

(** What the code relies on of [rmp_serde]. *)
Definition codec_law (to_vec : LocalState → option bytes) (from_slice : bytes → option LocalState) : Prop :=
  ∀ s b, to_vec s = Some b → from_slice b = Some (unindexed s).

(** What an update does to the value the file stands for. *)
Definition updated (f : LocalState → LocalState) (s : LocalState) : LocalState :=
  unindexed (with_version (f s) 1).

Section local_state.
Variable to_vec : LocalState → option bytes.
Variable from_slice : bytes → option LocalState.

(** [fs::read]; [fail] is the error of the call, if any.  [NotFound] is the error
    of a missing file. *)
Definition read_state (fail : option io_kind) (file : state_file) : io bytes :=
  match fail with
  | Some e => if decide (e = NotFound) then ok_or file NotFound else Err e
  | None => ok_or file NotFound
  end.

Definition load (fail : option io_kind) (file : state_file) : io (option LocalState) :=
  match read_state fail file with
  | Ok data =>
      state ← ok_or (from_slice data) InvalidData;
      Ok (Some (normalized state))
  | Err NotFound => Ok None
  | Err e => Err e
  | Panic => Panic
  end.

Definition load_or_default (fail : option io_kind) (file : state_file) : io LocalState :=
  state ← load fail file;
  Ok (normalized (default default_state state)).

(** The error of a call, when it is the one that fails. *)
Definition failing_call (fail : option (persist_step * io_kind)) (s : persist_step) : option io_kind :=
  match fail with
  | Some (s', e) => if decide (s = s') then Some e else None
  | None => None
  end.

(** [persist]: the result and the file afterwards, when the call named by
    [fail] (if any) returns the error [e].  The temporary file has a name of
    its own, so only the rename changes the state file. *)
Definition persist (fail : option (persist_step * io_kind)) (file : state_file)
    (state : LocalState) : io () * state_file :=
  let failing := failing_call fail in
  match failing CreateDirAll with
  | Some e => (Err e, file)
  | None =>
  match to_vec (with_version (normalized state) 1) with
  | None => (Err OtherKind, file)
  | Some data =>
  match failing OpenTmp with Some e => (Err e, file) | None =>
  match failing WriteAll with Some e => (Err e, file) | None =>
  match failing SyncTmp with Some e => (Err e, file) | None =>
  match failing RenameTmp with Some e => (Err e, file) | None =>
  match failing OpenDir with Some e => (Err e, Some data) | None =>
  match failing SyncDir with Some e => (Err e, Some data) | None =>
  (Ok (), Some data)
  end end end end end end end end.

(** [update]: the process lock and the file lock are held around the whole
    read-modify-write, so updates are atomic steps on the file. *)
Definition update (fail : option (persist_step * io_kind)) (file : state_file)
    (f : LocalState → LocalState) : io () * state_file :=
  match failing_call fail CreateCacheDir with Some e => (Err e, file) | None =>
  match failing_call fail OpenLock with Some e => (Err e, file) | None =>
  match failing_call fail LockExclusive with Some e => (Err e, file) | None =>
  match load_or_default (failing_call fail ReadState) file with
  | Ok state => persist fail file (f state)
  | Err e => (Err e, file)
  | Panic => (Panic, file)
  end end end end.

Definition persist_manifest_local (fail : option (persist_step * io_kind)) (file : state_file)
    (m : Manifest) : io () * state_file :=
  update fail file (λ s, with_manifest s m).

Definition load_manifest_local (fail : option io_kind) (file : state_file) : io (option Manifest) :=
  state ← load fail file;
  Ok (state ≫= ls_manifest).

Definition persist_dirty_groups (fail : option (persist_step * io_kind)) (file : state_file)
    (dirty : list Z) : io () * state_file :=
  update fail file (λ s, with_dirty_groups s dirty).

Definition load_dirty_groups (fail : option io_kind) (file : state_file) : io (list Z) :=
  state ← load fail file;
  Ok (default [] (state ≫= dirty_groups)).

(* ------------------------------------------------------------------ *)
(** * Theorems *)

Hypothesis codec : codec_law to_vec from_slice.

Lemma normalized_version_1 s : normalized (with_version s 1) = with_version s 1.
Proof. done. Qed.

Lemma with_version_normalized s v : with_version (normalized s) v = with_version s v.
Proof. unfold normalized. by case_match. Qed.

Lemma persist_cases fail file s r file' :
  persist fail file s = (r, file') →
  (file' = file ∧ r ≠ Ok ()) ∨
  (∃ b, to_vec (with_version s 1) = Some b ∧ file' = Some b ∧ (fail = None → r = Ok ())).
Proof.
  unfold persist. cbn zeta. rewrite with_version_normalized.
  destruct (to_vec _) as [b|] eqn:Hb;
    destruct fail as [[[] e]|]; cbn; intros [= <- <-]; (by left) || right; exists b; done.
Qed.

Lemma load_encoded s b :
  to_vec (with_version s 1) = Some b → load_or_default None (Some b) = Ok (unindexed (with_version s 1)).
Proof. intros Hb. unfold load_or_default, load. cbn. by rewrite (codec _ _ Hb). Qed.

(** A read that fails fails the load, and one that does not gives what is there. *)
Lemma load_read fail file :
  load_or_default fail file = load_or_default None file ∨ ∃ e, fail = Some e ∧ load_or_default fail file = Err e.
Proof.
  unfold load_or_default, load, read_state. destruct fail as [e|]; [|by left].
  case_decide as He; [by left|]. right. exists e. by destruct e.
Qed.

Lemma load_no_panic file : load_or_default None file ≠ Panic.
Proof. unfold load_or_default, load, read_state. destruct file as [b|]; [|done]. cbn. by destruct (from_slice b). Qed.

(** An update fails before it has done anything, or persists the new state. *)
Lemma update_cases fail file f r file' :
  update fail file f = (r, file') →
  (∃ s e, fail = Some (s, e) ∧ file' = file ∧ r = Err e) ∨
  (r, file') = match load_or_default None file with
               | Ok state => persist fail file (f state)
               | Err e => (Err e, file)
               | Panic => (Panic, file)
               end.
Proof.
  unfold update. destruct (load_read (failing_call fail ReadState) file) as [->|(e & Hf & ->)].
  - destruct fail as [[[] e]|]; cbn; intros Hu; first [by right|left; injection Hu as <- <-; by eexists _, _].
  - destruct fail as [[[] e']|]; cbn in Hf |- *; try done. injection Hf as ->. intros [= <- <-]. left. by eexists _, _.
Qed.

(** C14. An update that reports success leaves a file that loads to the updated
    state; one that fails, at whichever file-system call, leaves either the
    old file untouched or the complete new one, never anything else.  A
    corrupt file makes the update fail and is kept. *)
Theorem update_atomic fail file f r file' :
  update fail file f = (r, file') →
  match load_or_default None file with
  | Ok s =>
      (file' = file ∧ r ≠ Ok ()) ∨
      (load_or_default None file' = Ok (updated f s) ∧ (fail = None → r = Ok ()))
  | Err e => file' = file ∧ (r = Err e ∨ ∃ s e', fail = Some (s, e') ∧ r = Err e')
  | Panic => False
  end.
Proof.
  intros [(s & e & -> & -> & ->)|Hu]%update_cases; pose proof (load_no_panic file) as Hp;
    destruct (load_or_default None file) as [st|e'|] eqn:Hl; try done.
  - by left.
  - split; [done|]. right. by eexists _, _.
  - symmetry in Hu. apply persist_cases in Hu as [Hf|(b & Hb & -> & Hr)]; [by left|right].
    split; [|done]. by apply load_encoded.
  - injection Hu as -> ->. split; [done|by left].
Qed.

(** A run of updates, each one a whole critical section of the lock. *)
Fixpoint run_updates (file : state_file) (fs : list (LocalState → LocalState)) :
    io () * state_file :=
  match fs with
  | [] => (Ok (), file)
  | f :: fs =>
      match update None file f with
      | (Ok _, file') => run_updates file' fs
      | (r, file') => (r, file')
      end
  end.

Lemma run_updates_ok file s fs file' :
  load_or_default None file = Ok s → run_updates file fs = (Ok (), file') →
  load_or_default None file' = Ok (foldl (λ s f, updated f s) s fs).
Proof.
  revert file s. induction fs as [|f fs IH]; intros file s Hl; cbn [run_updates foldl]; [by intros [= <-]|].
  destruct (update None file f) as [r file1] eqn:Hu.
  apply update_cases in Hu as [(? & ? & [=] & _)|Hu]. rewrite Hl in Hu. symmetry in Hu.
  apply persist_cases in Hu as [[-> Hr]|(b & Hb & -> & Hr)].
  - destruct r as [[]| |]; by intros [=].
  - rewrite (Hr eq_refl). intros Hrun. eapply IH; [|exact Hrun]. by apply load_encoded.
Qed.

Definition neutral (f : LocalState → LocalState) : Prop :=
  ∀ s, ls_manifest (f s) = ls_manifest s ∧ dirty_groups (f s) = dirty_groups s.

Lemma neutral_fold fs s :
  Forall neutral fs →
  strip_indexes <$> ls_manifest (foldl (λ s f, updated f s) s fs) = strip_indexes <$> ls_manifest s ∧
  (ls_manifest s = strip_indexes <$> ls_manifest s →
     ls_manifest (foldl (λ s f, updated f s) s fs) = ls_manifest s) ∧
  dirty_groups (foldl (λ s f, updated f s) s fs) = dirty_groups s.
Proof.
  intros Hfs. revert s. induction Hfs as [|f fs Hf _ IH]; intros s; [done|].
  cbn. destruct (IH (updated f s)) as (H1 & H2 & ->). destruct (Hf s) as [Hm Hd].
  assert (∀ x : option Manifest, strip_indexes <$> (strip_indexes <$> x) = strip_indexes <$> x) as Hidem by (by intros []).
  assert (ls_manifest (updated f s) = strip_indexes <$> ls_manifest s) as Hu by (cbn; by rewrite Hm).
  rewrite Hu, Hidem in H1. split; [done|]. split; [|done]. intros Hs. rewrite H2, Hu; [done|]. by rewrite Hu, Hidem.
Qed.

Lemma load_fields file s :
  load_or_default None file = Ok s →
  load_manifest_local None file = Ok (ls_manifest s) ∧
  load_dirty_groups None file = Ok (default [] (dirty_groups s)).
Proof.
  unfold load_or_default, load_manifest_local, load_dirty_groups.
  destruct (load None file) as [[x|]| |]; cbn; intros [= <-];
    unfold normalized; by repeat case_match.
Qed.

(** Updates of different fields never lose one another: in whatever order
    the lock serialises the saving of a manifest and of a dirty-group list,
    amid any other updates that leave the two fields alone, both are read
    back, the manifest without its indexes. *)
Theorem updates_keep_both_fields file s fs1 fs2 fs3 m dirty file' :
  load_or_default None file = Ok s → Forall neutral (fs1 ++ fs2 ++ fs3) →
  let save_m s := with_manifest s m in
  let save_d s := with_dirty_groups s dirty in
  run_updates file (fs1 ++ save_m :: fs2 ++ save_d :: fs3) = (Ok (), file') ∨
  run_updates file (fs1 ++ save_d :: fs2 ++ save_m :: fs3) = (Ok (), file') →
  load_manifest_local None file' = Ok (Some (strip_indexes m)) ∧ load_dirty_groups None file' = Ok dirty.
Proof.
  intros Hl Hn. rewrite !Forall_app in Hn. destruct Hn as (H1 & H2 & H3). cbn zeta.
  intros [Hrun|Hrun]; apply (run_updates_ok _ s) in Hrun; try done;
    apply load_fields in Hrun as [-> ->]; rewrite foldl_app; cbn; rewrite foldl_app; cbn;
    set (x1 := foldl _ s fs1);
    match goal with |- context [foldl _ ?x fs2] => set (x2 := foldl _ x fs2); destruct (neutral_fold fs2 x H2) as (_ & Hm2 & Hd2) end;
    match goal with |- context [foldl _ ?x fs3] => destruct (neutral_fold fs3 x H3) as (_ & Hm3 & Hd3) end;
    (rewrite Hm3, Hd3; [cbn|cbn; try fold x2 in Hm2; rewrite ?Hm2; done]);
    fold x2 in Hm2, Hd2; by rewrite ?Hm2, ?Hd2.
Qed.
End local_state.

#[global] Arguments update : simpl never.

(* ------------------------------------------------------------------ *)
(** * Witnesses *)

(** A codec for the states the witnesses meet: a version, dirty groups, and no
    manifest or the empty one. *)
Definition toy_to_vec (s : LocalState) : option bytes :=
  match s with
  | {| page_bitmap := None; sub_chunk_tracker := None; cache_index := None |} =>
      if decide (ls_manifest s = None) then
        Some (count_encode (format_version s, dirty_groups s, false))
      else if decide (ls_manifest s = Some empty_manifest) then
        Some (count_encode (format_version s, dirty_groups s, true))
      else None
  | _ => None
  end.
Definition toy_from_slice (b : bytes) : option LocalState :=
  (λ '(v, d, has), {| format_version := v;
     ls_manifest := if has : bool then Some empty_manifest else None; dirty_groups := d;
     page_bitmap := None; sub_chunk_tracker := None; cache_index := None |}) <$> count_decode b.

Lemma toy_codec : codec_law toy_to_vec toy_from_slice.
Proof.
  intros s b. destruct s as [v m d [?|] [?|] [?|]]; cbn -[decide]; try done.
  destruct (decide (m = None)) as [->|]; [|destruct (decide (m = Some empty_manifest)) as [->|];
    [|done]]; intros [= <-]; unfold toy_from_slice; by rewrite count_decode_encode.
Qed.

Lemma update_atomic_witness :
  load_or_default toy_from_slice None
    (persist_dirty_groups toy_to_vec toy_from_slice (Some (SyncDir, OtherKind)) None [4; 7]).2 =
  Ok (with_version (with_dirty_groups default_state [4; 7]) 1).
Proof.
  destruct (update_atomic toy_to_vec toy_from_slice toy_codec (Some (SyncDir, OtherKind)) None
    (λ s, with_dirty_groups s [4; 7]) (Err OtherKind)
    (toy_to_vec (with_version (with_dirty_groups default_state [4; 7]) 1)) eq_refl)
    as [[H _]|[H _]]; [discriminate H|exact H].
Defined.

Lemma updates_keep_both_fields_witness :
  let file := (run_updates toy_to_vec toy_from_slice None
    [(λ s, with_manifest s empty_manifest); (λ s, with_dirty_groups s [4; 7])]).2 in
  load_manifest_local toy_from_slice None file = Ok (Some empty_manifest) ∧
  load_dirty_groups toy_from_slice None file = Ok [4; 7].
Proof.
  apply (updates_keep_both_fields toy_to_vec toy_from_slice toy_codec None
    (with_version default_state 1) [] [] [] empty_manifest [4; 7]).
  - reflexivity.
  - constructor.
  - left. vm_compute. reflexivity.
Defined.
