(* ===== verification/StateCodec.v ===== *)
(** A serializer of manifests and of the local state that keeps what [serde]
    keeps: the function the witnesses use for [rmp_serde].  Each field is a
    frame of its own. *)

From Stdlib Require Import Strings.Byte.
From stdpp Require Import strings.
From S2P Require Import Prelude Manifest CacheTracking LocalState.

(* ------------------------------------------------------------------ *)
(** * Frames *)

(** A byte is preceded by 1, the end is 0. *)
Definition frame (b : bytes) : bytes := foldr (λ x l, x01 :: x :: l) [x00] b.

Fixpoint unframe (l : bytes) : option (bytes * bytes) :=
  match l with
  | x00 :: l => Some ([], l)
  | x01 :: x :: l => '(b, l) ← unframe l; Some (x :: b, l)
  | _ => None
  end.

Lemma unframe_frame b l : unframe (frame b ++ l) = Some (b, l).
Proof. unfold frame. induction b as [|x b IH]; [done|]. cbn in *. by rewrite IH. Qed.

Definition put_field {A} `{Countable A} (a : A) : bytes := frame (count_encode a).

Definition get_field {A} `{Countable A} (l : bytes) : option (A * bytes) :=
  '(b, l) ← unframe l; a ← count_decode b; Some (a, l).

Lemma get_put_field {A} `{Countable A} (a : A) l : get_field (put_field a ++ l) = Some (a, l).
Proof. unfold get_field, put_field. rewrite unframe_frame. cbn. by rewrite count_decode_encode. Qed.

(* ------------------------------------------------------------------ *)
(** * The data *)

#[export] Instance CacheIndexEntry_eq_dec : EqDecision CacheIndexEntry.
Proof. solve_decision. Defined.
#[export] Instance CacheIndexEntry_countable : Countable CacheIndexEntry.
Proof.
  refine (inj_countable' (λ e, (ce_offset e, compressed_len e)) (λ '(a, b), {| ce_offset := a; compressed_len := b |}) _).
  by intros [].
Defined.
#[export] Instance CacheIndexState_eq_dec : EqDecision CacheIndexState.
Proof. solve_decision. Defined.
#[export] Instance CacheIndexState_countable : Countable CacheIndexState.
Proof.
  refine (inj_countable' (λ s, (cis_entries s, cis_next_offset s)) (λ '(a, b), {| cis_entries := a; cis_next_offset := b |}) _).
  by intros [].
Defined.
#[export] Instance TrackerEntry_eq_dec : EqDecision TrackerEntry.
Proof. solve_decision. Defined.
#[export] Instance TrackerEntry_countable : Countable TrackerEntry.
Proof.
  refine (inj_countable' (λ e, (te_id e, te_tier e, te_access_count e))
    (λ '(a, b, c), {| te_id := a; te_tier := b; te_access_count := c |}) _). by intros [].
Defined.

Definition put_manifest_fields (m : Manifest) : bytes :=
  put_field (version m) ++ put_field (change_counter m) ++ put_field (page_count m) ++ put_field (page_size m) ++
  put_field (pages_per_group m) ++ put_field (page_group_keys m) ++ put_field (interior_chunk_keys m) ++
  put_field (index_chunk_keys m) ++ put_field (frame_tables m) ++ put_field (sub_pages_per_frame m) ++
  put_field (subframe_overrides m) ++ put_field (strategy m) ++ put_field (group_pages m) ++ put_field (btrees m) ++
  put_field (db_header m) ++ put_field (discontinuity_stamp m) ++ put_field (cursor m) ++ put_field (writer_id m).

Definition get_manifest_fields (l : bytes) : option (Manifest * bytes) :=
  '(a1, l) ← get_field l; '(a2, l) ← get_field l; '(a3, l) ← get_field l; '(a4, l) ← get_field l;
  '(a5, l) ← get_field l; '(a6, l) ← get_field l; '(a7, l) ← get_field l; '(a8, l) ← get_field l;
  '(a9, l) ← get_field l; '(a10, l) ← get_field l; '(a11, l) ← get_field l; '(a12, l) ← get_field l;
  '(a13, l) ← get_field l; '(a14, l) ← get_field l; '(a15, l) ← get_field l; '(a16, l) ← get_field l;
  '(a17, l) ← get_field l; '(a18, l) ← get_field l;
  Some ({| version := a1; change_counter := a2; page_count := a3; page_size := a4; pages_per_group := a5;
     page_group_keys := a6; interior_chunk_keys := a7; index_chunk_keys := a8; frame_tables := a9;
     sub_pages_per_frame := a10; subframe_overrides := a11; strategy := a12; group_pages := a13; btrees := a14;
     page_index := ∅; tree_indexes := no_tree_indexes; db_header := a15; discontinuity_stamp := a16;
     cursor := a17; writer_id := a18 |}, l).

Lemma get_put_manifest m l : get_manifest_fields (put_manifest_fields m ++ l) = Some (strip_indexes m, l).
Proof.
  unfold get_manifest_fields, put_manifest_fields. rewrite <-!(assoc_L (++)).
  do 18 (rewrite get_put_field; cbn [mbind option_bind]). reflexivity.
Qed.

Definition manifest_to_vec (m : Manifest) : option bytes := Some (put_manifest_fields m).
Definition manifest_from_slice (b : bytes) : option Manifest := fst <$> get_manifest_fields b.

Lemma manifest_codec m : manifest_from_slice (put_manifest_fields m) = Some (strip_indexes m).
Proof. unfold manifest_from_slice. by rewrite <-(app_nil_r (put_manifest_fields m)), get_put_manifest. Qed.

(** The manifest comes last. *)
Definition full_to_vec (s : LocalState) : option bytes := Some (
  put_field (format_version s) ++ put_field (dirty_groups s) ++ put_field (page_bitmap s) ++
  put_field (sub_chunk_tracker s) ++ put_field (cache_index s) ++
  match ls_manifest s with Some m => x01 :: put_manifest_fields m | None => [x00] end).

Definition full_from_slice (l : bytes) : option LocalState :=
  '(a1, l) ← get_field l; '(a2, l) ← get_field l; '(a3, l) ← get_field l; '(a4, l) ← get_field l;
  '(a5, l) ← get_field l;
  m ← match l with x01 :: l => Some <$> manifest_from_slice l | x00 :: _ => Some None | _ => None end;
  Some {| format_version := a1; dirty_groups := a2; page_bitmap := a3; sub_chunk_tracker := a4; cache_index := a5;
          ls_manifest := m |}.

Lemma full_codec : codec_law full_to_vec full_from_slice.
Proof.
  intros s b [= <-]. unfold full_from_slice. do 5 (rewrite get_put_field; cbn [mbind option_bind]).
  destruct s as [v [m|] d p t i]; cbn; [by rewrite manifest_codec|done].
Qed.
