(* ===== verification/Compress.v ===== *)
(** Compression and encryption (src/src/compress.rs): the functions the encoders
    call, over an interface for the third-party libraries (zstd, AES-GCM) that
    states the behaviour the code relies on. *)

From S2P Require Import Prelude.

(* ------------------------------------------------------------------ *)
(** * The libraries *)

(** The zstd library at one level and dictionary.  A decoder is a stream: the
    bytes it yields, then the end or an error. *)
Class Compression := {
  encode_all : bytes → option bytes;
  decode_stream : bytes → option (bytes * option io_kind);
  decode_encode_all : ∀ d c, encode_all d = Some c → decode_stream c = Some (d, None)
}.

(** AES-256-GCM: what was sealed opens under the same key, nonce and associated
    data, and under no other associated data. *)
Class Aead (K : Type) := {
  gcm_encrypt : K → bytes → bytes → bytes → option bytes;
  gcm_decrypt : K → bytes → bytes → bytes → option bytes;
  gcm_open_seal : ∀ k n aad m c,
    gcm_encrypt k n aad m = Some c → gcm_decrypt k n aad c = Some m;
  gcm_binds_aad : ∀ k n aad aad' m c,
    gcm_encrypt k n aad m = Some c → aad ≠ aad' → gcm_decrypt k n aad' c = None
}.

(** AES-256-CTR: the keystream byte at a position, for a key and a 16-byte
    initial counter block. *)
Class StreamCipher (K : Type) := { keystream : K → bytes → Z → byte }.

(* ------------------------------------------------------------------ *)
(** * The functions *)

Section compress.
Context `{Compression}.

Definition compress (data : bytes) : io bytes := ok_or (encode_all data) OtherKind.

(** [decompress]: the whole stream, or the error it ends with. *)
Definition decompress (data : bytes) : io bytes :=
  match decode_stream data with
  | Some (out, None) => Ok out
  | _ => Err OtherKind
  end.

(** [decompress_capped]: at most [max_len + 1] bytes are read from the
    decoder; an error beyond them is not reached. *)
Definition decompress_capped (data : bytes) (max_len : Z) : io bytes :=
  let cap := saturating_add max_len 1 in
  stream ← ok_or (decode_stream data) OtherKind;
  output ← (if cap <=? Z.of_nat (length stream.1) then Ok (take (Z.to_nat cap) stream.1)
            else match stream.2 with Some e => Err e | None => Ok stream.1 end);
  if max_len <? Z.of_nat (length output) then Err InvalidData else Ok output.

Lemma decompress_compress d c : compress d = Ok c → decompress c = Ok d.
Proof. intros Hc%ok_or_Ok. unfold decompress. by rewrite (decode_encode_all _ _ Hc). Qed.

Lemma decompress_capped_compress d c max_len :
  compress d = Ok c → Z.of_nat (length d) ≤ max_len < u64_max →
  decompress_capped c max_len = Ok d.
Proof.
  intros Hc%ok_or_Ok Hlen. unfold decompress_capped. rewrite (decode_encode_all _ _ Hc). cbn.
  unfold saturating_add. rewrite Z.min_l by lia.
  destruct (Z.leb_spec (max_len + 1) (Z.of_nat (length d))); [lia|]. cbn.
  by destruct (Z.ltb_spec max_len (Z.of_nat (length d))); [lia|].
Qed.

(** A hostile stream never yields more than the cap. *)
Lemma decompress_capped_bound c max_len out :
  decompress_capped c max_len = Ok out → Z.of_nat (length out) ≤ max_len.
Proof.
  unfold decompress_capped. intros Ho. inv_ok.
  destruct (Z.ltb_spec max_len (Z.of_nat (length x0))); [done|]. by inv_ok.
Qed.

Lemma decompress_capped_no_panic c max_len : decompress_capped c max_len ≠ Panic.
Proof.
  unfold decompress_capped. intros Hp. destruct (decode_stream c) as [[out err]|]; [cbn in Hp|done].
  destruct (_ <=? _), err; cbn in Hp; try done; by case_match.
Qed.
End compress.

Section encrypt.
Context `{Aead K}.

Definition GCM_RANDOM_NONCE_OVERHEAD : Z := 12 + 16.

(** The nonce is the twelve bytes drawn from the thread's random generator. *)
Definition encrypt_gcm_random_nonce (nonce data aad : bytes) (key : K) : io bytes :=
  ciphertext ← ok_or (gcm_encrypt key nonce aad data) OtherKind;
  Ok (nonce ++ ciphertext).

Definition decrypt_gcm_random_nonce (data aad : bytes) (key : K) : io bytes :=
  _ ← guard_err (length data <? 12)%nat InvalidData;
  ok_or (gcm_decrypt key (take 12 data) aad (drop 12 data)) OtherKind.

Lemma decrypt_encrypt nonce data aad key c :
  length nonce = 12%nat → encrypt_gcm_random_nonce nonce data aad key = Ok c →
  decrypt_gcm_random_nonce c aad key = Ok data.
Proof.
  intros Hn He. unfold encrypt_gcm_random_nonce in He. inv_ok.
  unfold decrypt_gcm_random_nonce. rewrite length_app, Hn. cbn -[take drop].
  rewrite take_app_length' , drop_app_length' by done.
  match goal with He : gcm_encrypt _ _ _ _ = Some _ |- _ => by rewrite (gcm_open_seal _ _ _ _ _ He) end.
Qed.

Lemma decrypt_wrong_aad nonce data aad aad' key c :
  length nonce = 12%nat → encrypt_gcm_random_nonce nonce data aad key = Ok c → aad ≠ aad' →
  decrypt_gcm_random_nonce c aad' key = Err OtherKind.
Proof.
  intros Hn He Hne. unfold encrypt_gcm_random_nonce in He. inv_ok.
  unfold decrypt_gcm_random_nonce. rewrite length_app, Hn. cbn -[take drop].
  rewrite take_app_length' , drop_app_length' by done.
  match goal with He : gcm_encrypt _ _ _ _ = Some _ |- _ =>
    by rewrite (gcm_binds_aad _ _ _ _ _ _ He Hne) end.
Qed.

Lemma decrypt_no_panic data aad key : decrypt_gcm_random_nonce data aad key ≠ Panic.
Proof.
  unfold decrypt_gcm_random_nonce. intros [_ Hp]%guard_bind_Panic. by destruct (gcm_decrypt _ _ _ _).
Qed.
End encrypt.

Section ctr.
Context `{StreamCipher K}.

Definition byte_xor (a b : byte) : byte :=
  Byte.byte.of_Z (Z.lxor (Byte.byte.unsigned a) (Byte.byte.unsigned b)).

(** [iv[0..8] = nonce], the rest zero; [skip] seeks the keystream. *)
Definition ctr_xor_at (data : bytes) (nonce skip : Z) (key : K) : io bytes :=
  let iv := le_bytes 8 nonce ++ zeros 8 in
  Ok (imap (λ i b, byte_xor b (keystream key iv (skip + Z.of_nat i))) data).

Definition encrypt_ctr (data : bytes) (nonce : Z) (key : K) : io bytes :=
  ctr_xor_at data nonce 0 key.

Definition decrypt_ctr (data : bytes) (nonce : Z) (key : K) : io bytes :=
  encrypt_ctr data nonce key.

Lemma byte_xor_cancel a b : byte_xor (byte_xor a b) b = a.
Proof.
  unfold byte_xor. rewrite Byte.byte.unsigned_of_Z. unfold Byte.byte.wrap.
  pose proof (Byte.byte.unsigned_range a) as Ha. pose proof (Byte.byte.unsigned_range b) as Hb.
  rewrite Z.mod_small; [|]; [by rewrite Z.lxor_assoc, Z.lxor_nilpotent, Z.lxor_0_r, Byte.byte.of_Z_unsigned|].
  split; [apply Z.lxor_nonneg; lia|].
  assert (Z.lxor (Byte.byte.unsigned a) (Byte.byte.unsigned b) =
    Z.lxor (Byte.byte.unsigned a) (Byte.byte.unsigned b) mod 2 ^ 8) as ->;
    [|by apply Z.mod_pos_bound].
  rewrite <-Z.land_ones by lia. apply Z.bits_inj'. intros i Hi.
  rewrite Z.land_spec. destruct (Z.lt_ge_cases i 8) as [Hlt|Hge].
  - by rewrite Z.ones_spec_low, andb_true_r by lia.
  - rewrite Z.ones_spec_high, andb_false_r by lia. rewrite Z.lxor_spec.
    assert (∀ x, 0 ≤ x < 2 ^ 8 → Z.testbit x i = false) as Hbits; [|by rewrite !Hbits].
    intros x Hx. destruct (decide (x = 0)) as [->|]; [by rewrite Z.bits_0|].
    apply Z.bits_above_log2; [lia|].
    assert (Z.log2 x < 8) by (apply Z.log2_lt_pow2; lia). lia.
Qed.

(** Decrypting a sub-range with the keystream sought to its offset gives that
    range of the plaintext. *)
Lemma ctr_subrange data nonce skip key c a n :
  ctr_xor_at data nonce skip key = Ok c →
  ctr_xor_at (take n (drop a c)) nonce (skip + Z.of_nat a) key = Ok (take n (drop a data)).
Proof.
  intros [= <-]. unfold ctr_xor_at. f_equal. apply list_eq. intros i.
  rewrite list_lookup_imap. destruct (decide (i < n)%nat) as [Hin|Hout].
  - rewrite !lookup_take_lt by done. rewrite !lookup_drop, list_lookup_imap.
    destruct (data !! (a + i)%nat) as [b|]; cbn; [|done]. f_equal.
    replace (skip + Z.of_nat a + Z.of_nat i) with (skip + Z.of_nat (a + i)) by lia.
    apply byte_xor_cancel.
  - by rewrite !lookup_take_ge by lia.
Qed.

Lemma decrypt_encrypt_ctr data nonce key c :
  encrypt_ctr data nonce key = Ok c → decrypt_ctr c nonce key = Ok data.
Proof.
  intros Hc. unfold decrypt_ctr, encrypt_ctr in *.
  apply (ctr_subrange _ _ _ _ _ 0 (length data)) in Hc as Hs.
  assert (length c = length data) as Hl
    by (unfold ctr_xor_at in Hc; apply Ok_inj in Hc; subst c; apply length_imap).
  rewrite !drop_0, !take_ge in Hs by lia. exact Hs.
Qed.
End ctr.

(* ------------------------------------------------------------------ *)
(** * Instances for the witnesses *)

(** The crate's own fallback when no compression feature is enabled. *)
#[export] Program Instance stored : Compression := {|
  encode_all d := Some d;
  decode_stream c := Some (c, None)
|}.
Next Obligation. by intros d c [= ->]. Qed.

(** A sealing function that keeps the associated data in front of the message,
    and adds sixteen bytes when there is none. *)
Definition toy_seal (aad m : bytes) : bytes :=
  le_bytes 8 (Z.of_nat (length aad)) ++ aad ++ zeros 8 ++ m.
Definition toy_open (aad c : bytes) : option bytes :=
  if decide (take (8 + length aad) c = le_bytes 8 (Z.of_nat (length aad)) ++ aad)
  then Some (drop 8 (drop (8 + length aad) c)) else None.

#[export] Program Instance toy_aead : Aead () := {|
  gcm_encrypt k n aad m :=
    if decide (Z.of_nat (length aad) < 2 ^ 64) then Some (toy_seal aad m) else None;
  gcm_decrypt k n aad c :=
    if decide (Z.of_nat (length aad) < 2 ^ 64) then toy_open aad c else None
|}.
Next Obligation.
  intros k n aad m c. cbn. destruct (decide _) as [Hlt|]; [|done]. intros [= <-].
  unfold toy_open, toy_seal. rewrite app_assoc.
  rewrite take_app_length', drop_app_length' by (rewrite length_app, length_le_bytes; done).
  rewrite decide_True by done. by rewrite drop_app_length'.
Qed.
Next Obligation.
  intros k n aad aad' m c. cbn. destruct (decide (Z.of_nat (length aad) < _)) as [Hlt|]; [|done].
  intros [= <-] Hne. destruct (decide _) as [Hlt'|]; [|done].
  unfold toy_open, toy_seal. rewrite decide_False; [done|]. intros Heq.
  assert (length aad = length aad') as Hlen.
  { apply (f_equal (take 8)) in Heq. rewrite take_take, Nat.min_l in Heq by lia.
    rewrite !take_app_length' in Heq by by rewrite length_le_bytes.
    apply le_bytes_inj in Heq; lia. }
  apply Hne. rewrite <-Hlen in Heq. rewrite app_assoc in Heq.
  rewrite take_app_length' in Heq by (rewrite length_app, length_le_bytes; done).
  by apply app_inv_head in Heq.
Qed.
