(* ===== verification/Encoding.v ===== *)
(** Object bodies (src/src/tiered/encoding.rs): page groups as one frame or as
    seekable frames, interior and index bundles, override frames; their
    encoders and their decoders of untrusted bytes. *)

From S2P Require Import Prelude Keys Manifest Compress.

Definition MAX_TIERED_DECOMPRESSED_BYTES : Z := 2 ^ 30.

Section encoding.
Context `{Compression} `{Aead K}.

(* ------------------------------------------------------------------ *)
(** * Encoders *)

(** The encryption step at the end of every encoder; [nonce] is the random
    draw of this frame. *)
Definition encrypt_if_needed (nonce data aad : bytes) (key : option K) : io bytes :=
  match key with
  | Some k => encrypt_gcm_random_nonce nonce data aad k
  | None => Ok data
  end.

Definition decrypt_if_needed (data aad : bytes) (key : option K) : io bytes :=
  match key with
  | Some k => decrypt_gcm_random_nonce data aad k
  | None => Ok data
  end.

(** One page slot: data padded to the page size, or zeros. *)
Definition page_bytes (page_size : Z) (page : option bytes) : bytes :=
  match page with
  | Some data => pad_to (Z.to_nat page_size) data
  | None => zeros (Z.to_nat page_size)
  end.

Definition encode_page_group (pages : list (option bytes)) (page_size : Z)
    (nonce aad : bytes) (key : option K) : io bytes :=
  let page_count := wrap32 (Z.of_nat (length pages)) in
  let raw := le_bytes 4 page_count ++ le_bytes 4 page_size ++
    concat (page_bytes page_size <$> take (Z.to_nat page_count) pages) in
  compressed ← compress raw;
  encrypt_if_needed nonce compressed aad key.

(** One round of the frame loop; [nonces] gives each frame's random draw. *)
Definition encode_frame (pages : list (option bytes)) (page_size sub_ppg : Z)
    (nonces : Z → bytes) (aad : bytes) (key : option K)
    (acc : bytes * list FrameEntry) (frame_idx : Z) : io (bytes * list FrameEntry) :=
  let start := frame_idx * sub_ppg in
  let end_ := Z.min (start + sub_ppg) (Z.of_nat (length pages)) in
  let raw := concat (page_bytes page_size <$>
    take (Z.to_nat (end_ - start)) (drop (Z.to_nat start) pages)) in
  let offset := Z.of_nat (length acc.1) in
  compressed ← compress raw;
  frame_data ← encrypt_if_needed (nonces frame_idx) compressed aad key;
  Ok (acc.1 ++ frame_data,
      acc.2 ++ [{| fe_offset := offset; fe_len := wrap32 (Z.of_nat (length frame_data)) |}]).

Definition encode_page_group_seekable (pages : list (option bytes)) (page_size sub_ppg : Z)
    (nonces : Z → bytes) (aad : bytes) (key : option K) : io (bytes * list FrameEntry) :=
  if sub_ppg =? 0 then Panic else
  let num_frames := div_ceil (Z.of_nat (length pages)) sub_ppg in
  fold_io (encode_frame pages page_size sub_ppg nonces aad key) ([], []) (range 0 num_frames).

Definition encode_interior_bundle (pages : list (Z * bytes)) (page_size : Z)
    (nonce aad : bytes) (key : option K) : io bytes :=
  let page_count := wrap32 (Z.of_nat (length pages)) in
  let raw := le_bytes 4 page_count ++ le_bytes 4 page_size ++
    concat ((λ p, le_bytes 8 p.1) <$> pages) ++
    concat ((λ p, page_bytes page_size (Some p.2)) <$> pages) in
  compressed ← compress raw;
  encrypt_if_needed nonce compressed aad key.

Definition encode_override_frame (dirty_pages : list (Z * bytes)) (page_size : Z)
    (nonce aad : bytes) (key : option K) : io bytes :=
  let raw := concat ((λ p, page_bytes page_size (Some p.2)) <$> dirty_pages) in
  frame_data ← compress raw;
  encrypt_if_needed nonce frame_data aad key.

(* ------------------------------------------------------------------ *)
(** * Decoders *)

Definition decode_seekable_subchunk (compressed_frame aad : bytes) (key : option K) : io bytes :=
  data ← decrypt_if_needed compressed_frame aad key;
  decompress_capped data MAX_TIERED_DECOMPRESSED_BYTES.

(** One round of the loop over the frame table.  [start + len] is a [usize]
    sum and wraps; the slice panics when it is not a range of the data. *)
Definition decode_frame (data : bytes) (actual_pages page_size : Z) (aad : bytes) (key : option K)
    (output : bytes) (entry : FrameEntry) : io bytes :=
  let start := fe_offset entry in
  let end_ := wrap64 (start + fe_len entry) in
  _ ← guard_err (Z.of_nat (length data) <? end_) InvalidData;
  frame ← or_panic (slice start end_ data);
  decrypted ← decrypt_if_needed frame aad key;
  let frame_cap := match checked_mul actual_pages page_size with
                   | Some n => if 0 <? n then n else MAX_TIERED_DECOMPRESSED_BYTES
                   | None => MAX_TIERED_DECOMPRESSED_BYTES
                   end in
  decompressed ← decompress_capped decrypted frame_cap;
  Ok (output ++ decompressed).

Definition decode_page_group_seekable_full (data : bytes) (frame_table : list FrameEntry)
    (page_size pages_per_group total_page_count group_start : Z) (aad : bytes) (key : option K) :
    io (Z * Z * bytes) :=
  let actual_pages :=
    wrap32 (Z.min pages_per_group (saturating_sub total_page_count group_start)) in
  output ← fold_io (decode_frame data actual_pages page_size aad key) [] frame_table;
  if page_size =? 0 then Panic else
  let decoded_pages := wrap32 (Z.of_nat (length output) / page_size) in
  let actual_pages := Z.min actual_pages decoded_pages in
  let expected_len := actual_pages * page_size in
  Ok (actual_pages, page_size, take (Z.to_nat expected_len) output).

Definition checked_group_expected_len (page_count page_size : Z) : io Z :=
  ok_or (n ← checked_mul page_count page_size; checked_add n 8) InvalidData.

(** The common head of the two whole-group decoders. *)
Definition group_header (compressed aad : bytes) (key : option K) : io (bytes * Z * Z * Z) :=
  decrypted ← decrypt_if_needed compressed aad key;
  raw ← decompress_capped decrypted MAX_TIERED_DECOMPRESSED_BYTES;
  _ ← guard_err (length raw <? 8)%nat InvalidData;
  page_count ← or_panic (of_le <$> slice 0 4 raw);
  page_size ← or_panic (of_le <$> slice 4 8 raw);
  expected_len ← checked_group_expected_len page_count page_size;
  _ ← guard_err (Z.of_nat (length raw) <? expected_len) InvalidData;
  Ok (raw, page_count, page_size, expected_len).

Definition decode_page_group (compressed aad : bytes) (key : option K) :
    io (Z * Z * list bytes) :=
  '(raw, page_count, page_size, _) ← group_header compressed aad key;
  pages ← mapM (λ i, let start := 8 + i * page_size in
                     or_panic (slice start (start + page_size) raw)) (range 0 page_count);
  Ok (page_count, page_size, pages).

Definition decode_page_group_bulk (compressed aad : bytes) (key : option K) :
    io (Z * Z * bytes) :=
  '(raw, page_count, page_size, expected_len) ← group_header compressed aad key;
  page_data ← or_panic (slice 8 expected_len raw);
  Ok (page_count, page_size, page_data).

Definition decode_interior_bundle (compressed aad : bytes) (key : option K) :
    io (list (Z * bytes)) :=
  decrypted ← decrypt_if_needed compressed aad key;
  raw ← decompress_capped decrypted MAX_TIERED_DECOMPRESSED_BYTES;
  _ ← guard_err (length raw <? 8)%nat InvalidData;
  page_count ← or_panic (of_le <$> slice 0 4 raw);
  page_size ← or_panic (of_le <$> slice 4 8 raw);
  pnums_end ← ok_or (n ← checked_mul page_count 8; checked_add n 8) InvalidData;
  expected_len ← ok_or (n ← checked_mul page_count page_size; checked_add n pnums_end) InvalidData;
  _ ← guard_err (Z.of_nat (length raw) <? expected_len) InvalidData;
  mapM (λ i,
    let pnum_offset := 8 + i * 8 in
    pnum ← or_panic (of_le <$> slice pnum_offset (pnum_offset + 8) raw);
    let data_offset := pnums_end + i * page_size in
    data ← or_panic (slice data_offset (data_offset + page_size) raw);
    Ok (pnum, data)) (range 0 page_count).

(* ------------------------------------------------------------------ *)
(** * Lemmas *)

(** A page that fits its slot. *)
Definition page_ok (page_size : Z) (page : option bytes) : Prop :=
  match page with Some d => Z.of_nat (length d) ≤ page_size | None => True end.

Lemma page_bytes_length ps p :
  0 ≤ ps → page_ok ps p → length (page_bytes ps p) = Z.to_nat ps.
Proof.
  intros Hps Hp. destruct p as [d|]; cbn in *; [apply length_pad_to; lia|].
  apply length_replicate.
Qed.

Lemma pages_length ps (pages : list (option bytes)) :
  0 ≤ ps → Forall (page_ok ps) pages →
  Forall (λ l, length l = Z.to_nat ps) (page_bytes ps <$> pages).
Proof.
  intros Hps Hok. apply Forall_fmap. eapply Forall_impl; [exact Hok|].
  intros p Hp. by apply page_bytes_length.
Qed.

Lemma concat_pages_length ps pages :
  0 ≤ ps → Forall (page_ok ps) pages →
  Z.of_nat (length (concat (page_bytes ps <$> pages))) = Z.of_nat (length pages) * ps.
Proof.
  intros Hps Hok. rewrite (length_concat_blocks (Z.to_nat ps)) by by apply pages_length.
  rewrite length_fmap. lia.
Qed.

Lemma decrypt_if_needed_encrypt nonce data aad key c :
  length nonce = 12%nat → encrypt_if_needed nonce data aad key = Ok c →
  decrypt_if_needed c aad key = Ok data.
Proof.
  intros Hn He. destruct key; cbn in *; [by eapply decrypt_encrypt|]. by inv_ok.
Qed.

Lemma decrypt_if_needed_no_panic data aad key : decrypt_if_needed data aad key ≠ Panic.
Proof. destruct key; cbn; [apply decrypt_no_panic|done]. Qed.

(** Decoding what an encoder compressed and sealed. *)
Lemma open_sealed raw compressed nonce aad key c cap :
  length nonce = 12%nat → compress raw = Ok compressed →
  encrypt_if_needed nonce compressed aad key = Ok c →
  Z.of_nat (length raw) ≤ cap < u64_max →
  (decrypted ← decrypt_if_needed c aad key; decompress_capped decrypted cap) = Ok raw.
Proof.
  intros Hn Hc He Hcap. rewrite (decrypt_if_needed_encrypt _ _ _ _ _ Hn He). cbn.
  by apply decompress_capped_compress.
Qed.

Lemma mapM_range {A} (f : Z → io A) (l : list A) :
  (∀ i x, l !! i = Some x → f (Z.of_nat i) = Ok x) →
  mapM f (range 0 (Z.of_nat (length l))) = Ok l.
Proof.
  intros Hf. apply mapM_Ok. apply Forall2_same_length_lookup. split.
  - rewrite length_range. lia.
  - intros i x y Hx Hy. unfold range in Hx. apply lookup_seqZ in Hx as [-> _].
    rewrite Z.add_0_l. by apply Hf.
Qed.

(** Slice [i] of the blocks that follow a header. *)
Lemma slice_block (hdr tail : bytes) (n : Z) (ls : list bytes) (i : nat) l :
  0 ≤ n → Forall (λ l, length l = Z.to_nat n) ls → ls !! i = Some l →
  let start := Z.of_nat (length hdr) + Z.of_nat i * n in
  slice start (start + n) (hdr ++ concat ls ++ tail) = Some l.
Proof.
  intros Hn Hls Hl start. pose proof (take_drop_middle ls i l Hl) as Hsplit.
  assert (length l = Z.to_nat n) as Hlen.
  { rewrite Forall_lookup in Hls. by apply (Hls i). }
  rewrite <-Hsplit at 1. rewrite concat_app. cbn.
  rewrite <-!app_assoc, app_assoc. apply slice_app; [|unfold start; lia].
  rewrite length_app, (length_concat_blocks (Z.to_nat n)) by by apply Forall_take.
  apply lookup_lt_Some in Hl. rewrite length_take. unfold start. lia.
Qed.

Lemma checked_expected n ps :
  0 ≤ n → 0 ≤ ps → 8 + n * ps ≤ 2 ^ 30 →
  checked_group_expected_len n ps = Ok (n * ps + 8).
Proof.
  intros Hn Hps Hb. unfold checked_group_expected_len, checked_mul, checked_add.
  destruct (Z.ltb_spec (n * ps) (2 ^ 64)); [|lia]. cbn.
  by destruct (Z.ltb_spec (n * ps + 8) (2 ^ 64)); [|lia].
Qed.

Lemma slice_header n ps (body : bytes) :
  is_u32 n → is_u32 ps →
  of_le <$> slice 0 4 (le_bytes 4 n ++ le_bytes 4 ps ++ body) = Some n ∧
  of_le <$> slice 4 8 (le_bytes 4 n ++ le_bytes 4 ps ++ body) = Some ps.
Proof.
  intros Hn Hps. split.
  - assert (slice 0 4 (le_bytes 4 n ++ le_bytes 4 ps ++ body) = Some (le_bytes 4 n)) as ->
      by (by apply (slice_app 0 4 [])).
    cbn. by rewrite of_le_le_bytes.
  - rewrite (slice_app 4 8 (le_bytes 4 n) (le_bytes 4 ps)) by by rewrite ?length_le_bytes.
    cbn. by rewrite of_le_le_bytes.
Qed.

Lemma group_header_encoded pages ps nonce aad key blob :
  is_u32 ps → Forall (page_ok ps) pages → 8 + Z.of_nat (length pages) * ps ≤ 2 ^ 30 →
  is_u32 (Z.of_nat (length pages)) → length nonce = 12%nat →
  encode_page_group pages ps nonce aad key = Ok blob →
  group_header blob aad key =
    Ok (le_bytes 4 (Z.of_nat (length pages)) ++ le_bytes 4 ps ++ concat (page_bytes ps <$> pages),
        Z.of_nat (length pages), ps, Z.of_nat (length pages) * ps + 8).
Proof.
  intros Hps Hok Hb Hn Hnonce He. unfold encode_page_group in He. cbv zeta in He. inv_ok.
  rewrite wrap32_id, Nat2Z.id, firstn_all in * by done.
  set (n := Z.of_nat (length pages)) in *.
  set (body := concat (page_bytes ps <$> pages)) in *.
  assert (Z.of_nat (length body) = n * ps) as Hlen
    by (apply concat_pages_length; [apply Hps|done]).
  assert (Z.of_nat (length (le_bytes 4 n ++ le_bytes 4 ps ++ body)) = n * ps + 8) as Hraw
    by (rewrite !length_app, !length_le_bytes; lia).
  match goal with Hc : compress _ = Ok _ |- _ =>
    pose proof (open_sealed _ _ _ _ _ _ MAX_TIERED_DECOMPRESSED_BYTES Hnonce Hc He) as Hopen end.
  unfold group_header. unfold MAX_TIERED_DECOMPRESSED_BYTES, u64_max in *.
  specialize (Hopen ltac:(lia)). apply bind_Ok in Hopen as (d & Hd & Hraw'). rewrite Hd. cbn.
  rewrite Hraw'. cbn.
  destruct (slice_header n ps body Hn Hps) as [-> ->].
  destruct (Nat.ltb_spec (length (le_bytes 4 n ++ le_bytes 4 ps ++ body)) 8); [lia|]. cbn.
  rewrite checked_expected by (unfold is_u32 in *; lia). cbn.
  rewrite Hraw, Z.ltb_irrefl. done.
Qed.

Lemma page_group_roundtrip_spec pages ps nonce aad key blob :
  is_u32 ps → Forall (page_ok ps) pages → 8 + Z.of_nat (length pages) * ps ≤ 2 ^ 30 →
  is_u32 (Z.of_nat (length pages)) → length nonce = 12%nat →
  encode_page_group pages ps nonce aad key = Ok blob →
  decode_page_group blob aad key =
    Ok (Z.of_nat (length pages), ps, page_bytes ps <$> pages) ∧
  decode_page_group_bulk blob aad key =
    Ok (Z.of_nat (length pages), ps, concat (page_bytes ps <$> pages)).
Proof.
  intros Hps Hok Hb Hn Hnonce He.
  pose proof (group_header_encoded _ _ _ _ _ _ Hps Hok Hb Hn Hnonce He) as Hh.
  pose proof (pages_length ps pages ltac:(apply Hps) Hok) as Hlens.
  pose proof (concat_pages_length ps pages ltac:(apply Hps) Hok) as Hlen.
  set (ls := page_bytes ps <$> pages) in *. set (n := Z.of_nat (length pages)) in *.
  assert (n = Z.of_nat (length ls)) as Hls by (unfold ls; by rewrite length_fmap).
  set (hdr := le_bytes 4 n ++ le_bytes 4 ps) in *.
  assert (length hdr = 8%nat) as Hhdr by (unfold hdr; by rewrite length_app, !length_le_bytes).
  rewrite app_assoc in Hh. fold hdr in Hh.
  unfold decode_page_group, decode_page_group_bulk. rewrite Hh. cbn. split.
  - rewrite Hls at 1. rewrite (mapM_range _ ls); [done|]. intros i x Hx. cbn.
    pose proof (slice_block hdr [] ps ls i x ltac:(apply Hps) Hlens Hx) as Hs.
    rewrite Hhdr, app_nil_r in Hs. cbv zeta in Hs. change (Z.of_nat 8) with 8 in Hs. by rewrite Hs.
  - pose proof (slice_app 8 (n * ps + 8) hdr (concat ls) []) as Hs. rewrite app_nil_r in Hs.
    rewrite Hs; [done|by rewrite Hhdr|lia].
Qed.

(** A page group decodes to what was encoded: the page count, the page size
    and every page in order, short pages padded and missing pages zeroed, none
    dropped at the end; the bulk decoder returns their concatenation. *)
Theorem page_group_roundtrip pages ps nonce aad key blob :
  is_u32 ps → Forall (page_ok ps) pages → 8 + Z.of_nat (length pages) * ps ≤ 2 ^ 30 →
  is_u32 (Z.of_nat (length pages)) → length nonce = 12%nat →
  encode_page_group pages ps nonce aad key = Ok blob →
  decode_page_group blob aad key =
    Ok (Z.of_nat (length pages), ps, page_bytes ps <$> pages) ∧
  decode_page_group_bulk blob aad key =
    Ok (Z.of_nat (length pages), ps, concat (page_bytes ps <$> pages)).
Proof. apply page_group_roundtrip_spec. Qed.

Lemma interior_bundle_roundtrip_spec pages ps nonce aad key blob :
  is_u32 ps → Forall (λ p, is_u64 p.1 ∧ Z.of_nat (length p.2) ≤ ps) pages →
  8 + Z.of_nat (length pages) * (8 + ps) ≤ 2 ^ 30 → length nonce = 12%nat →
  encode_interior_bundle pages ps nonce aad key = Ok blob →
  decode_interior_bundle blob aad key =
    Ok ((λ p, (p.1, page_bytes ps (Some p.2))) <$> pages).
Proof.
  intros Hps Hok Hb Hnonce He. unfold encode_interior_bundle in He. cbv zeta in He. inv_ok.
  set (n := Z.of_nat (length pages)) in *.
  assert (is_u32 n) as Hn by (unfold is_u32 in *; nia). rewrite wrap32_id in * by done.
  set (nums := (λ p : Z * bytes, le_bytes 8 p.1) <$> pages) in *.
  set (ls := (λ p : Z * bytes, page_bytes ps (Some p.2)) <$> pages) in *.
  assert (Forall (λ l, length l = Z.to_nat 8) nums) as Hnums.
  { apply Forall_fmap, Forall_true. intros p. apply length_le_bytes. }
  assert (Forall (λ l, length l = Z.to_nat ps) ls) as Hls.
  { apply Forall_fmap. eapply Forall_impl; [exact Hok|]. intros p [_ Hp].
    apply page_bytes_length; [apply Hps|done]. }
  assert (Z.of_nat (length (concat nums)) = n * 8) as Hl1.
  { rewrite (length_concat_blocks _ _ Hnums). unfold nums. rewrite length_fmap. lia. }
  assert (Z.of_nat (length (concat ls)) = n * ps) as Hl2.
  { rewrite (length_concat_blocks _ _ Hls). unfold ls. rewrite length_fmap.
    unfold is_u32 in Hps. lia. }
  match goal with Hc : compress _ = Ok _ |- _ =>
    pose proof (open_sealed _ _ _ _ _ _ MAX_TIERED_DECOMPRESSED_BYTES Hnonce Hc He) as Hopen end.
  assert (Z.of_nat (length (le_bytes 4 n ++ le_bytes 4 ps ++ concat nums ++ concat ls)) =
    n * ps + (n * 8 + 8)) as Hraw by (rewrite !length_app, !length_le_bytes; lia).
  unfold decode_interior_bundle. unfold MAX_TIERED_DECOMPRESSED_BYTES, u64_max in *.
  specialize (Hopen ltac:(nia)). apply bind_Ok in Hopen as (d & Hd & Hraw'). rewrite Hd. cbn.
  rewrite Hraw'. cbn.
  destruct (slice_header n ps (concat nums ++ concat ls) Hn Hps) as [-> ->].
  destruct (Nat.ltb_spec (length (le_bytes 4 n ++ le_bytes 4 ps ++ concat nums ++ concat ls)) 8);
    [unfold is_u32 in *; nia|]. cbn.
  assert ((n0 ← checked_mul n 8; checked_add n0 8) = Some (n * 8 + 8)) as ->.
  { unfold checked_mul, checked_add. destruct (Z.ltb_spec (n * 8) (2 ^ 64)); [|lia]. cbn.
    by destruct (Z.ltb_spec (n * 8 + 8) (2 ^ 64)); [|lia]. }
  cbn.
  assert ((n0 ← checked_mul n ps; checked_add n0 (n * 8 + 8)) = Some (n * ps + (n * 8 + 8))) as ->.
  { unfold checked_mul, checked_add. destruct (Z.ltb_spec (n * ps) (2 ^ 64)); [|lia]. cbn.
    by destruct (Z.ltb_spec (n * ps + (n * 8 + 8)) (2 ^ 64)); [|lia]. }
  cbn. rewrite Hraw, Z.ltb_irrefl. cbn.
  set (res := (λ p, (p.1, page_bytes ps (Some p.2))) <$> pages).
  assert (range 0 n = range 0 (Z.of_nat (length res))) as ->
    by (unfold res; by rewrite length_fmap).
  apply (mapM_range _ res). intros i [p pd] Hi.
  apply list_lookup_fmap_Some in Hi as ([p' d'] & [= -> ->] & Hi). cbn.
  set (hdr := le_bytes 4 n ++ le_bytes 4 ps) in *.
  assert (length hdr = 8%nat) as Hhdr by (unfold hdr; by rewrite length_app, !length_le_bytes).
  pose proof (slice_block hdr (concat ls) 8 nums i (le_bytes 8 p') ltac:(lia) Hnums) as Hs1.
  pose proof (slice_block (hdr ++ concat nums) [] ps ls i (page_bytes ps (Some d'))
    ltac:(apply Hps) Hls) as Hs2.
  cbv zeta in Hs1, Hs2. rewrite Hhdr in Hs1. rewrite length_app, Hhdr, app_nil_r in Hs2.
  replace (Z.of_nat (8 + length (concat nums))) with (n * 8 + 8) in Hs2 by lia.
  unfold hdr in Hs1, Hs2. rewrite <-app_assoc in Hs1. rewrite <-!app_assoc in Hs2.
  change (Z.of_nat 8) with 8 in Hs1. rewrite Hs1, Hs2.
  - cbn. rewrite Forall_lookup in Hok. destruct (Hok i _ Hi) as [Hp _].
    by rewrite of_le_le_bytes.
  - unfold ls. by rewrite list_lookup_fmap, Hi.
  - unfold nums. by rewrite list_lookup_fmap, Hi.
Qed.

(** An interior or index bundle decodes to its page numbers and pages. *)
Theorem interior_bundle_roundtrip pages ps nonce aad key blob :
  is_u32 ps → Forall (λ p, is_u64 p.1 ∧ Z.of_nat (length p.2) ≤ ps) pages →
  8 + Z.of_nat (length pages) * (8 + ps) ≤ 2 ^ 30 → length nonce = 12%nat →
  encode_interior_bundle pages ps nonce aad key = Ok blob →
  decode_interior_bundle blob aad key =
    Ok ((λ p, (p.1, page_bytes ps (Some p.2))) <$> pages).
Proof. apply interior_bundle_roundtrip_spec. Qed.

(* ------------------------------------------------------------------ *)
(** ** Seekable groups *)

(** The pages of frame [f]. *)
Definition frame_pages (pages : list (option bytes)) (sub_ppg f : Z) : list (option bytes) :=
  let start := f * sub_ppg in
  let end_ := Z.min (start + sub_ppg) (Z.of_nat (length pages)) in
  take (Z.to_nat (end_ - start)) (drop (Z.to_nat start) pages).

Lemma range_snoc a n : a ≤ n → range a (n + 1) = range a n ++ [n].
Proof.
  intros Ha. unfold range. replace (n + 1 - a) with ((n - a) + 1) by lia.
  rewrite seqZ_app by lia. f_equal. change (seqZ (a + (n - a)) 1) with [a + (n - a)].
  f_equal. lia.
Qed.

(** The bytes of frame [f], for each frame of a finished prefix. *)
Definition frame_at (pages : list (option bytes)) (ps sub_ppg : Z) (nonces : Z → bytes)
    (aad : bytes) (key : option K) (blob : bytes) (f : Z) (e : FrameEntry) : Prop :=
  ∃ c frame, compress (concat (page_bytes ps <$> frame_pages pages sub_ppg f)) = Ok c ∧
    encrypt_if_needed (nonces f) c aad key = Ok frame ∧
    slice (fe_offset e) (fe_offset e + fe_len e) blob = Some frame.

Lemma slice_prefix {A} a b (l k : list A) x : slice a b l = Some x → slice a b (l ++ k) = Some x.
Proof.
  intros (Hab & Hb & ->)%slice_Some. apply slice_Some. rewrite length_app. split_and!; [lia..|].
  rewrite drop_app_le by lia. rewrite take_app_le; [done|]. rewrite length_drop. lia.
Qed.

Lemma encode_frames_spec pages ps sub_ppg nonces aad key n blob table :
  0 ≤ n → fold_io (encode_frame pages ps sub_ppg nonces aad key) ([], []) (range 0 n) = Ok (blob, table) →
  Z.of_nat (length blob) < 2 ^ 32 →
  Z.of_nat (length table) = n ∧
  ∀ f, 0 ≤ f < n → ∃ e, table !! Z.to_nat f = Some e ∧ frame_at pages ps sub_ppg nonces aad key blob f e.
Proof.
  intros Hn. revert blob table. pattern n. apply natlike_ind; [|clear n Hn|done].
  { intros blob table. cbn. intros [= <- <-] _. split; [done|]. intros; lia. }
  intros n Hn IH blob table He Hlen. rewrite <-Z.add_1_r in *.
  rewrite range_snoc, fold_io_app in He by lia. apply bind_Ok in He as ([b t] & Hbt & He).
  cbn in He. unfold encode_frame in He. cbn [fst snd] in He. inv_ok. simplify_eq.
  rewrite length_app in Hlen. destruct (IH b t Hbt ltac:(lia)) as [Ht Hfr]. split.
  - rewrite length_app. cbn. lia.
  - intros f Hf. destruct (decide (f = n)) as [->|Hne].
    + eexists. split; [rewrite lookup_app_r by lia;
        replace (Z.to_nat n - length t)%nat with 0%nat by lia; done|].
      eexists _, _. split_and!; [done|done|]. cbn.
      rewrite wrap32_id by (unfold is_u32; lia).
      rewrite <-(app_nil_r (b ++ _)), <-app_assoc. by apply slice_app.
    + destruct (Hfr f ltac:(lia)) as (e & He' & c & frame & ? & ? & ?). exists e. split.
      * rewrite lookup_app_l; [done|]. by apply lookup_lt_Some in He'.
      * exists c, frame. split_and!; [done..|]. by apply slice_prefix.
Qed.

Lemma frame_pages_ok ps pages sub_ppg f :
  Forall (page_ok ps) pages → Forall (page_ok ps) (frame_pages pages sub_ppg f).
Proof. intros Hok. by apply Forall_take, Forall_drop. Qed.

Lemma frame_pages_length pages sub_ppg f :
  0 ≤ f → 0 < sub_ppg → f * sub_ppg ≤ Z.of_nat (length pages) →
  Z.of_nat (length (frame_pages pages sub_ppg f)) =
    Z.min sub_ppg (Z.of_nat (length pages) - f * sub_ppg).
Proof.
  intros Hf Hsub Hle. unfold frame_pages. rewrite length_take, length_drop. nia.
Qed.

Lemma frame_pages_lookup pages sub_ppg i :
  0 < sub_ppg → 0 ≤ i < Z.of_nat (length pages) →
  frame_pages pages sub_ppg (i / sub_ppg) !! Z.to_nat (i mod sub_ppg) = pages !! Z.to_nat i.
Proof.
  intros Hsub Hi. pose proof (Z.div_mod i sub_ppg ltac:(lia)).
  pose proof (Z.mod_pos_bound i sub_ppg ltac:(lia)).
  assert (0 ≤ i / sub_ppg) by (apply Z.div_pos; lia).
  unfold frame_pages. rewrite lookup_take_lt by nia. rewrite lookup_drop. f_equal. nia.
Qed.

(** The frames in order are the pages in order. *)
Lemma frames_prefix pages sub_ppg n :
  0 < sub_ppg → 0 ≤ n → (n - 1) * sub_ppg < Z.of_nat (length pages) ∨ n = 0 →
  concat (frame_pages pages sub_ppg <$> range 0 n) = take (Z.to_nat (n * sub_ppg)) pages.
Proof.
  intros Hsub Hn. pattern n. apply natlike_ind; [done|clear n Hn|done].
  intros n Hn IH Hle. rewrite <-Z.add_1_r in *. rewrite range_snoc by lia.
  rewrite fmap_app, concat_app, IH by (destruct (decide (n = 0)); [by right|left; nia]). cbn.
  rewrite app_nil_r. unfold frame_pages. cbn zeta.
  destruct Hle as [Hle|]; [|lia]. replace (n + 1 - 1) with n in Hle by lia.
  assert (0 ≤ n * sub_ppg) by nia.
  rewrite <-(take_drop (Z.to_nat (n * sub_ppg)) (take (Z.to_nat ((n + 1) * sub_ppg)) pages)).
  rewrite take_take, Nat.min_l by nia. f_equal. rewrite skipn_firstn_comm.
  destruct (Z.le_gt_cases (n * sub_ppg + sub_ppg) (Z.of_nat (length pages))).
  - rewrite Z.min_l by lia. f_equal. nia.
  - rewrite Z.min_r by lia. rewrite !take_ge by (rewrite length_drop; nia). done.
Qed.

Lemma seekable_point_read_spec pages ps sub_ppg nonces aad key blob table i p :
  encode_page_group_seekable pages ps sub_ppg nonces aad key = Ok (blob, table) →
  Z.of_nat (length blob) < 2 ^ 32 → (∀ f, length (nonces f) = 12%nat) →
  0 ≤ ps → Forall (page_ok ps) pages → 0 < sub_ppg → sub_ppg * ps ≤ 2 ^ 30 →
  pages !! i = Some p →
  ∃ e frame raw, table !! Z.to_nat (Z.of_nat i / sub_ppg) = Some e ∧
    slice (fe_offset e) (fe_offset e + fe_len e) blob = Some frame ∧
    decode_seekable_subchunk frame aad key = Ok raw ∧
    slice (Z.of_nat i mod sub_ppg * ps) (Z.of_nat i mod sub_ppg * ps + ps) raw =
      Some (page_bytes ps p).
Proof.
  intros He Hlen Hnonce Hps Hok Hsub Hcap Hp. pose proof (lookup_lt_Some _ _ _ Hp) as Hi.
  unfold encode_page_group_seekable in He. destruct (Z.eqb_spec sub_ppg 0) as [|Hz]; [lia|].
  set (f := Z.of_nat i / sub_ppg).
  pose proof (Z.div_mod (Z.of_nat i) sub_ppg ltac:(lia)) as Hdm. fold f in Hdm.
  pose proof (Z.mod_pos_bound (Z.of_nat i) sub_ppg ltac:(lia)) as Hmod.
  assert (0 ≤ f) as Hf0 by (apply Z.div_pos; lia).
  assert (f < div_ceil (Z.of_nat (length pages)) sub_ppg) as Hf by (apply div_ceil_lt; nia).
  apply encode_frames_spec in He as [_ Hfr]; [|apply div_ceil_nonneg; lia|done].
  destruct (Hfr f ltac:(lia)) as (e & He & c & frame & Hc & Henc & Hs).
  set (raw := concat (page_bytes ps <$> frame_pages pages sub_ppg f)) in *.
  exists e, frame, raw. split_and!; [done|done| |].
  - eapply open_sealed; [apply Hnonce|exact Hc|exact Henc|].
    unfold raw. rewrite concat_pages_length by (done || by apply frame_pages_ok).
    rewrite frame_pages_length by nia. unfold MAX_TIERED_DECOMPRESSED_BYTES, u64_max. nia.
  - assert ((page_bytes ps <$> frame_pages pages sub_ppg f) !! Z.to_nat (Z.of_nat i mod sub_ppg) =
      Some (page_bytes ps p)) as Hl.
    { unfold f. rewrite list_lookup_fmap, frame_pages_lookup by lia.
      by rewrite Nat2Z.id, Hp. }
    pose proof (slice_block [] [] ps _ _ _ Hps
      (pages_length ps _ Hps (frame_pages_ok ps pages sub_ppg f Hok)) Hl) as Hb.
    cbn zeta in Hb. rewrite app_nil_r, Z2Nat.id in Hb by lia. exact Hb.
Qed.

(** C19. A single page is read from a seekable group by fetching one byte range:
    the frame table's entry for the page's frame cuts a frame out of the
    object that decodes, on its own, to a buffer holding that page's bytes at
    the page's offset in the frame. *)
Theorem seekable_point_read pages ps sub_ppg nonces aad key blob table i p :
  encode_page_group_seekable pages ps sub_ppg nonces aad key = Ok (blob, table) →
  Z.of_nat (length blob) < 2 ^ 32 → (∀ f, length (nonces f) = 12%nat) →
  0 ≤ ps → Forall (page_ok ps) pages → 0 < sub_ppg → sub_ppg * ps ≤ 2 ^ 30 →
  pages !! i = Some p →
  ∃ e frame raw, table !! Z.to_nat (Z.of_nat i / sub_ppg) = Some e ∧
    slice (fe_offset e) (fe_offset e + fe_len e) blob = Some frame ∧
    decode_seekable_subchunk frame aad key = Ok raw ∧
    slice (Z.of_nat i mod sub_ppg * ps) (Z.of_nat i mod sub_ppg * ps + ps) raw =
      Some (page_bytes ps p).
Proof. apply seekable_point_read_spec. Qed.

Lemma decode_frame_spec pages ps sub_ppg nonces aad key blob f e output n :
  Z.of_nat (length blob) < 2 ^ 32 → length (nonces f) = 12%nat →
  0 < ps → Forall (page_ok ps) pages → 0 < sub_ppg → 0 ≤ f →
  f * sub_ppg < Z.of_nat (length pages) → n = Z.of_nat (length pages) → n * ps < 2 ^ 63 →
  frame_at pages ps sub_ppg nonces aad key blob f e →
  decode_frame blob n ps aad key output e =
    Ok (output ++ concat (page_bytes ps <$> frame_pages pages sub_ppg f)).
Proof.
  intros Hlen Hnonce Hps Hok Hsub Hf Hlt -> Hn (c & frame & Hc & Henc & Hs).
  pose proof Hs as (Hab & Hb & _)%slice_Some. unfold decode_frame. cbn zeta.
  rewrite wrap64_id by (unfold is_u64; lia).
  destruct (Z.ltb_spec (Z.of_nat (length blob)) (fe_offset e + fe_len e)); [lia|]. cbn.
  rewrite Hs. cbn. unfold checked_mul.
  destruct (Z.ltb_spec (Z.of_nat (length pages) * ps) (2 ^ 64)); [|lia].
  destruct (Z.ltb_spec 0 (Z.of_nat (length pages) * ps)); [|nia].
  set (raw := concat _) in *.
  assert (Z.of_nat (length raw) ≤ Z.of_nat (length pages) * ps) as Hraw.
  { unfold raw. rewrite concat_pages_length by (lia || by apply frame_pages_ok).
    rewrite frame_pages_length by lia. nia. }
  pose proof (open_sealed raw c (nonces f) aad key frame (Z.of_nat (length pages) * ps) Hnonce Hc Henc)
    as Ho. unfold u64_max in Ho. specialize (Ho ltac:(lia)).
  apply bind_Ok in Ho as (d & Hd & Ho). rewrite Hd. cbn. by rewrite Ho.
Qed.

Lemma seekable_full_roundtrip_spec pages ps sub_ppg nonces aad key blob table ppg total start :
  encode_page_group_seekable pages ps sub_ppg nonces aad key = Ok (blob, table) →
  Z.of_nat (length blob) < 2 ^ 32 → (∀ f, length (nonces f) = 12%nat) →
  0 < ps → Forall (page_ok ps) pages → 0 < sub_ppg →
  Z.min ppg (saturating_sub total start) = Z.of_nat (length pages) →
  Z.of_nat (length pages) < 2 ^ 31 → Z.of_nat (length pages) * ps < 2 ^ 63 →
  decode_page_group_seekable_full blob table ps ppg total start aad key =
    Ok (Z.of_nat (length pages), ps, concat (page_bytes ps <$> pages)).
Proof.
  intros He Hlen Hnonce Hps Hok Hsub Hn H31 H63.
  unfold encode_page_group_seekable in He. destruct (Z.eqb_spec sub_ppg 0) as [|Hz]; [lia|].
  set (n := Z.of_nat (length pages)) in *. set (nf := div_ceil n sub_ppg) in *.
  assert (0 ≤ nf) as Hnf by (apply div_ceil_nonneg; lia).
  destruct (encode_frames_spec _ _ _ _ _ _ _ _ _ Hnf He Hlen) as [Htl Hfr].
  assert (∀ k, 0 ≤ k → k ≤ nf →
    fold_io (decode_frame blob n ps aad key) [] (take (Z.to_nat k) table) =
    Ok (concat (page_bytes ps <$> concat (frame_pages pages sub_ppg <$> range 0 k)))) as Hfold.
  { intros k Hk. pattern k. apply natlike_ind; [done|clear k Hk|done].
    intros k Hk IH Hle. rewrite <-Z.add_1_r in *.
    destruct (Hfr k ltac:(lia)) as (e & Hek & Hat).
    replace (Z.to_nat (k + 1)) with (S (Z.to_nat k)) by lia.
    rewrite (take_S_r _ _ e) by done. rewrite fold_io_app, IH by lia. cbn.
    assert (k * sub_ppg < n) by (apply div_ceil_lt; unfold nf in *; lia).
    rewrite (decode_frame_spec pages ps sub_ppg nonces aad key blob k e _ n) by (done || lia). cbn.
    rewrite range_snoc, fmap_app, concat_app, fmap_app, concat_app by lia. cbn.
    by rewrite app_nil_r. }
  unfold decode_page_group_seekable_full. cbn zeta. rewrite Hn, wrap32_id by (unfold is_u32; lia).
  rewrite <-(take_ge table (Z.to_nat nf)) by lia. rewrite Hfold by lia. cbn.
  destruct (Z.eqb_spec ps 0); [lia|].
  assert (concat (frame_pages pages sub_ppg <$> range 0 nf) = pages) as ->.
  { pose proof (div_ceil_spec n sub_ppg ltac:(lia) ltac:(lia)) as Hspec. fold nf in Hspec.
    rewrite frames_prefix; [apply take_ge; lia|lia|lia|].
    destruct (decide (nf = 0)); [by right|left; lia]. }
  rewrite concat_pages_length by (lia || done). fold n. rewrite Z.div_mul by lia.
  rewrite wrap32_id, Z.min_id by (unfold is_u32; lia). do 2 f_equal.
  apply take_ge. pose proof (concat_pages_length ps pages ltac:(lia) Hok). lia.
Qed.

(** The full decoder of a seekable group returns the page count, the page
    size and all pages in order, for the page count the manifest records. *)
Theorem seekable_full_roundtrip pages ps sub_ppg nonces aad key blob table ppg total start :
  encode_page_group_seekable pages ps sub_ppg nonces aad key = Ok (blob, table) →
  Z.of_nat (length blob) < 2 ^ 32 → (∀ f, length (nonces f) = 12%nat) →
  0 < ps → Forall (page_ok ps) pages → 0 < sub_ppg →
  Z.min ppg (saturating_sub total start) = Z.of_nat (length pages) →
  Z.of_nat (length pages) < 2 ^ 31 → Z.of_nat (length pages) * ps < 2 ^ 63 →
  decode_page_group_seekable_full blob table ps ppg total start aad key =
    Ok (Z.of_nat (length pages), ps, concat (page_bytes ps <$> pages)).
Proof. apply seekable_full_roundtrip_spec. Qed.

(** An override frame decodes to the bytes of its pages, one page size
    each. *)
Theorem override_frame_roundtrip dirty ps nonce aad key frame :
  0 ≤ ps → Forall (λ p, page_ok ps (Some p.2)) dirty →
  Z.of_nat (length dirty) * ps ≤ 2 ^ 30 → length nonce = 12%nat →
  encode_override_frame dirty ps nonce aad key = Ok frame →
  decode_seekable_subchunk frame aad key =
    Ok (concat ((λ p, page_bytes ps (Some p.2)) <$> dirty)).
Proof.
  intros Hps Hok Hb Hnonce He. unfold encode_override_frame in He. cbn zeta in He. inv_ok.
  eapply open_sealed; [exact Hnonce|eassumption|exact He|].
  assert ((λ p : Z * bytes, page_bytes ps (Some p.2)) <$> dirty =
    page_bytes ps <$> ((λ p : Z * bytes, Some p.2) <$> dirty)) as -> by by rewrite <-list_fmap_compose.
  rewrite concat_pages_length by (done || by apply Forall_fmap). rewrite length_fmap.
  unfold MAX_TIERED_DECOMPRESSED_BYTES, u64_max. lia.
Qed.

(* ------------------------------------------------------------------ *)
(** ** Untrusted input *)

Lemma group_header_spec data aad key :
  group_header data aad key ≠ Panic ∧
  ∀ raw n ps el, group_header data aad key = Ok (raw, n, ps, el) →
    is_u32 n ∧ is_u32 ps ∧ el = n * ps + 8 ∧ el ≤ Z.of_nat (length raw) ≤ 2 ^ 30.
Proof.
  unfold group_header.
  destruct (decrypt_if_needed data aad key) as [d| |] eqn:Hd; cbn -[Nat.ltb];
    [|by split|by apply decrypt_if_needed_no_panic in Hd].
  destruct (decompress_capped d _) as [raw| |] eqn:Hr; cbn -[Nat.ltb];
    [|by split|by apply decompress_capped_no_panic in Hr].
  apply decompress_capped_bound in Hr.
  destruct (Nat.ltb_spec (length raw) 8); cbn; [by split|].
  destruct (slice 0 4 raw) as [s1|] eqn:Hs1.
  2: { assert (slice 0 4 raw = Some (take 4 raw)) by (apply slice_Some; split_and!; [lia..|done]).
       congruence. }
  destruct (slice 4 8 raw) as [s2|] eqn:Hs2.
  2: { assert (slice 4 8 raw = Some (take 4 (drop 4 raw))) by (apply slice_Some; split_and!; [lia..|done]).
       congruence. }
  cbn. apply slice_length in Hs1, Hs2.
  pose proof (of_le_bound s1) as Hb1. pose proof (of_le_bound s2) as Hb2.
  rewrite Hs1 in Hb1. rewrite Hs2 in Hb2.
  change (2 ^ (8 * (4 - 0))) with (2 ^ 32) in Hb1. change (2 ^ (8 * (8 - 4))) with (2 ^ 32) in Hb2.
  unfold checked_group_expected_len, checked_mul, checked_add.
  destruct (Z.ltb_spec (of_le s1 * of_le s2) (2 ^ 64)); cbn; [|by split].
  destruct (Z.ltb_spec (of_le s1 * of_le s2 + 8) (2 ^ 64)); cbn; [|by split].
  destruct (Z.ltb_spec (Z.of_nat (length raw)) (of_le s1 * of_le s2 + 8)); cbn; [by split|].
  split; [done|]. intros ? ? ? ? [= <- <- <- <-]. unfold MAX_TIERED_DECOMPRESSED_BYTES in Hr.
  split_and!; done.
Qed.

Lemma slice_in_range {A} a b (l : list A) :
  0 ≤ a ≤ b → b ≤ Z.of_nat (length l) → ∃ k, slice a b l = Some k ∧ Z.of_nat (length k) = b - a.
Proof.
  intros Hab Hb. destruct (slice a b l) as [k|] eqn:Hs.
  - exists k. split; [done|]. by apply slice_length in Hs.
  - assert (slice a b l = Some (take (Z.to_nat (b - a)) (drop (Z.to_nat a) l)))
      by (by apply slice_Some). congruence.
Qed.

(** A list of consecutive blocks of a buffer. *)
Lemma concat_blocks {A} (k : nat) (ls : list (list A)) (body : list A) :
  (∀ i l, ls !! i = Some l → l = take k (drop (i * k) body)) →
  (length ls * k = length body)%nat → concat ls = body.
Proof.
  revert body. induction ls as [|l ls IH]; intros body Hl Hlen; cbn in *.
  - by destruct body.
  - rewrite (Hl 0%nat l eq_refl), (IH (drop k body)).
    + rewrite Nat.mul_0_l, drop_0. apply take_drop.
    + intros i l' Hl'. rewrite drop_drop. apply (Hl (S i) l' Hl').
    + rewrite length_drop. lia.
Qed.

(** The group decoders never panic on untrusted bytes, and what they accept
    has the announced shape within the decompression cap: as many pages as the
    header says, each of the header's page size. *)
Theorem group_decoders_total data aad key :
  match decode_page_group data aad key with
  | Ok (n, ps, pages) => Z.of_nat (length pages) = n ∧
      Forall (λ p, Z.of_nat (length p) = ps) pages ∧ n * ps + 8 ≤ 2 ^ 30 ∧
      decode_page_group_bulk data aad key = Ok (n, ps, concat pages)
  | Err e => decode_page_group_bulk data aad key = Err e
  | Panic => False
  end.
Proof.
  unfold decode_page_group, decode_page_group_bulk.
  destruct (group_header_spec data aad key) as [Hnp Hok].
  destruct (group_header data aad key) as [[[[raw n] ps] el]| |]; [|done|done]. cbn.
  destruct (Hok _ _ _ _ eq_refl) as (Hn & Hps & -> & Hlen). clear Hok Hnp.
  unfold is_u32 in *. assert (0 ≤ n * ps) by nia.
  destruct (slice_in_range 8 (n * ps + 8) raw) as (body & Hbody & Hbl); [lia..|]. rewrite Hbody. cbn.
  set (f i := or_panic (slice (8 + i * ps) (8 + i * ps + ps) raw) : io bytes).
  set (pages := (λ i, take (Z.to_nat ps) (drop (Z.to_nat (i * ps)) body)) <$> range 0 n).
  assert (∀ i, i ∈ range 0 n → f i = Ok (take (Z.to_nat ps) (drop (Z.to_nat (i * ps)) body))) as Hf.
  { intros i Hi%elem_of_range.
    destruct (slice_in_range (8 + i * ps) (8 + i * ps + ps) raw) as (p & Hp & _); [nia..|].
    unfold f. rewrite Hp. cbn. f_equal.
    apply slice_Some in Hp as (_ & _ & ->). apply slice_Some in Hbody as (_ & _ & ->).
    rewrite skipn_firstn_comm, drop_drop, take_take. f_equal; [nia|]. f_equal. nia. }
  assert (mapM f (range 0 n) = Ok pages) as ->.
  { apply mapM_Ok. unfold pages. apply Forall2_fmap_r, Forall_Forall2_diag, Forall_forall, Hf. }
  assert (Z.of_nat (length pages) = n) as Hpl
    by (unfold pages; rewrite length_fmap, length_range; lia).
  assert (∀ i p, pages !! i = Some p → p = take (Z.to_nat ps) (drop (i * Z.to_nat ps) body)) as Hget.
  { intros i p Hp. unfold pages in Hp. apply list_lookup_fmap_Some in Hp as (j & -> & Hj).
    unfold range in Hj. apply lookup_seqZ in Hj as [-> _]. do 2 f_equal. nia. }
  cbn. split_and!; [done| |lia|].
  - apply Forall_lookup. intros i p Hp. pose proof (lookup_lt_Some _ _ _ Hp).
    rewrite (Hget i p Hp), length_take, length_drop. nia.
  - do 2 f_equal. symmetry. apply (concat_blocks (Z.to_nat ps)); [done|nia].
Qed.

Lemma header_words (raw : bytes) :
  (8 ≤ length raw)%nat → ∃ n ps, of_le <$> slice 0 4 raw = Some n ∧
    of_le <$> slice 4 8 raw = Some ps ∧ is_u32 n ∧ is_u32 ps.
Proof.
  intros Hl. destruct (slice_in_range 0 4 raw) as (s1 & -> & Hs1); [lia..|].
  destruct (slice_in_range 4 8 raw) as (s2 & -> & Hs2); [lia..|].
  exists (of_le s1), (of_le s2). pose proof (of_le_bound s1) as Hb1. pose proof (of_le_bound s2) as Hb2.
  rewrite Hs1 in Hb1. rewrite Hs2 in Hb2. done.
Qed.

Lemma decode_frame_no_panic data n ps aad key output e :
  0 ≤ fe_offset e → 0 ≤ fe_len e → fe_offset e + fe_len e < 2 ^ 64 →
  decode_frame data n ps aad key output e ≠ Panic.
Proof.
  intros Ho Hl Hsum. unfold decode_frame. cbn zeta. rewrite wrap64_id by (unfold is_u64; lia).
  intros [Hlt%Z.ltb_ge Hp]%guard_bind_Panic.
  destruct (slice_in_range (fe_offset e) (fe_offset e + fe_len e) data) as (fr & Hs & _); [lia..|].
  rewrite Hs in Hp. cbn in Hp.
  apply bind_Panic in Hp as [Hp|(d & _ & Hp)]; [by apply decrypt_if_needed_no_panic in Hp|].
  apply bind_Panic in Hp as [Hp|(d' & _ & Hp)]; [by apply decompress_capped_no_panic in Hp|done].
Qed.

Lemma decode_interior_bundle_total data aad key :
  match decode_interior_bundle data aad key with
  | Ok pages => ∃ size, Forall (λ p, is_u64 p.1 ∧ Z.of_nat (length p.2) = size) pages ∧
      8 + Z.of_nat (length pages) * (8 + size) ≤ 2 ^ 30
  | Err _ => True
  | Panic => False
  end.
Proof.
  unfold decode_interior_bundle.
  destruct (decrypt_if_needed data aad key) as [d| |] eqn:Hd; cbn -[Nat.ltb];
    [|done|by apply decrypt_if_needed_no_panic in Hd].
  destruct (decompress_capped d _) as [raw| |] eqn:Hr; cbn -[Nat.ltb];
    [|done|by apply decompress_capped_no_panic in Hr].
  apply decompress_capped_bound in Hr. unfold MAX_TIERED_DECOMPRESSED_BYTES in Hr.
  destruct (Nat.ltb_spec (length raw) 8); cbn; [done|].
  destruct (header_words raw) as (n & ps & -> & -> & Hn & Hps); [lia|]. cbn.
  unfold checked_mul, checked_add, is_u32 in *.
  destruct (Z.ltb_spec (n * 8) (2 ^ 64)); cbn; [|done].
  destruct (Z.ltb_spec (n * 8 + 8) (2 ^ 64)); cbn; [|done].
  destruct (Z.ltb_spec (n * ps) (2 ^ 64)); cbn; [|done].
  destruct (Z.ltb_spec (n * ps + (n * 8 + 8)) (2 ^ 64)); cbn; [|done].
  destruct (Z.ltb_spec (Z.of_nat (length raw)) (n * ps + (n * 8 + 8))); cbn; [done|].
  set (f := λ i, _ : io (Z * bytes)).
  assert (∀ i, i ∈ range 0 n → ∃ p, f i = Ok p ∧ is_u64 p.1 ∧ Z.of_nat (length p.2) = ps) as Hf.
  { intros i Hi%elem_of_range. unfold f.
    destruct (slice_in_range (8 + i * 8) (8 + i * 8 + 8) raw) as (s1 & -> & Hs1); [nia..|]. cbn.
    destruct (slice_in_range (n * 8 + 8 + i * ps) (n * 8 + 8 + i * ps + ps) raw)
      as (s2 & -> & Hs2); [nia..|]. cbn.
    eexists. split; [done|]. cbn. split; [|lia].
    pose proof (of_le_bound s1) as Hb. replace (Z.of_nat (length s1)) with 8 in Hb by lia. exact Hb. }
  clearbody f. destruct (mapM f (range 0 n)) as [pages|e|] eqn:Hm; [|done|].
  - apply mapM_Ok in Hm as Hpages. pose proof (Forall2_length _ _ _ Hpages) as Hpl.
    rewrite length_range in Hpl. exists ps. split; [|nia].
    apply Forall_lookup. intros i p Hp.
    destruct (Forall2_lookup_r _ _ _ _ _ Hpages Hp) as (j & Hj & Hfj).
    apply list_elem_of_lookup_2 in Hj. destruct (Hf j Hj) as (p' & Hp' & ?).
    rewrite Hfj in Hp'. by apply Ok_inj in Hp' as ->.
  - apply mapM_no_panic in Hm; [done|]. intros x Hx. by destruct (Hf x Hx) as (p & -> & _).
Qed.

(** Nor do the other decoders, for a positive page size and frame entries
    whose end does not overflow; a bundle's pages have one size. *)
Theorem bundle_and_frame_decoders_total data table ps ppg total start aad key :
  0 < ps → Forall (λ e, 0 ≤ fe_offset e ∧ 0 ≤ fe_len e ∧ fe_offset e + fe_len e < 2 ^ 64) table →
  decode_seekable_subchunk data aad key ≠ Panic ∧
  decode_page_group_seekable_full data table ps ppg total start aad key ≠ Panic ∧
  match decode_interior_bundle data aad key with
  | Ok pages => ∃ size, Forall (λ p, is_u64 p.1 ∧ Z.of_nat (length p.2) = size) pages ∧
      8 + Z.of_nat (length pages) * (8 + size) ≤ 2 ^ 30
  | Err _ => True
  | Panic => False
  end.
Proof.
  intros Hps Htable. split_and!.
  - unfold decode_seekable_subchunk. intros [Hp|(d & _ & Hp)]%bind_Panic.
    + by apply decrypt_if_needed_no_panic in Hp.
    + by apply decompress_capped_no_panic in Hp.
  - unfold decode_page_group_seekable_full. cbn zeta. intros [Hp|(d & _ & Hp)]%bind_Panic.
    + apply fold_io_no_panic in Hp; [done|]. intros a x Hx. rewrite Forall_forall in Htable.
      destruct (Htable x Hx) as (? & ? & ?). by apply decode_frame_no_panic.
    + destruct (Z.eqb_spec ps 0); [lia|done].
  - apply decode_interior_bundle_total.
Qed.

(** A frame entry near the top of the address space: the end wraps below the
    start, passes the length check, and the slice panics. *)
Lemma seekable_full_wrapped_offset_panics data e ps ppg total start aad key :
  fe_offset e = 2 ^ 64 - 1 → fe_len e = 1 →
  decode_page_group_seekable_full data [e] ps ppg total start aad key = Panic.
Proof.
  intros Ho Hl. unfold decode_page_group_seekable_full. cbn zeta. cbn [fold_io].
  unfold decode_frame at 1. cbn zeta. rewrite Ho, Hl.
  change (wrap64 (2 ^ 64 - 1 + 1)) with 0.
  destruct (Z.ltb_spec (Z.of_nat (length data)) 0); [lia|]. cbn [guard_err mbind outcome_bind].
  destruct (slice (2 ^ 64 - 1) 0 data) eqn:Hs; [|done].
  apply slice_Some in Hs. lia.
Qed.

(** An eight-byte body with a zero page size passes the truncation guard with
    any page count: the guard does not bound the count that
    [decode_page_group] then allocates for. *)
Lemma zero_page_size_unbounded data aad :
  decompress_capped data MAX_TIERED_DECOMPRESSED_BYTES = Ok (le_bytes 4 u32_max ++ le_bytes 4 0) →
  group_header data aad None = Ok (le_bytes 4 u32_max ++ le_bytes 4 0, u32_max, 0, 8).
Proof. intros Hd. unfold group_header. cbn [decrypt_if_needed mbind outcome_bind]. by rewrite Hd. Qed.

(** An encrypted object presented under another slot's identity is
    rejected by every decoder: no page of one page group, bundle or override
    frame is ever accepted as part of another. *)
Theorem encrypted_slot_bound s1 s2 nonce data k c :
  slot_ok s1 → slot_ok s2 → s1 ≠ s2 → length nonce = 12%nat →
  encrypt_if_needed nonce data (slot_aad s1) (Some k) = Ok c →
  decode_page_group c (slot_aad s2) (Some k) = Err OtherKind ∧
  decode_page_group_bulk c (slot_aad s2) (Some k) = Err OtherKind ∧
  decode_interior_bundle c (slot_aad s2) (Some k) = Err OtherKind ∧
  decode_seekable_subchunk c (slot_aad s2) (Some k) = Err OtherKind.
Proof.
  intros H1 H2 Hne Hn He. cbn in He.
  assert (slot_aad s1 ≠ slot_aad s2) as Haad by (intros Heq; by apply Hne, slot_aad_injective).
  pose proof (decrypt_wrong_aad _ _ _ _ _ _ Hn He Haad) as Hd.
  unfold decode_page_group, decode_page_group_bulk, decode_interior_bundle,
    decode_seekable_subchunk, group_header. cbn [decrypt_if_needed]. by rewrite Hd.
Qed.
End encoding.

(* ------------------------------------------------------------------ *)
(** * Witnesses *)

(** Three page slots of four bytes, the middle one missing. *)
Definition example_pages : list (option bytes) :=
  [Some [Byte.x41; Byte.x42]; None; Some [Byte.x43; Byte.x44; Byte.x45; Byte.x46]].
Definition example_nonce : bytes := replicate 12 Byte.x07.
Definition example_aad : bytes := aad_page_group 9.

Lemma example_pages_ok : Forall (page_ok 4) example_pages.
Proof. repeat constructor; cbn; lia. Qed.

Definition from_ok {E A} (d : A) (o : outcome E A) : A := match o with Ok a => a | _ => d end.

Lemma page_group_roundtrip_witness :
  decode_page_group
    (from_ok [] (encode_page_group example_pages 4 example_nonce example_aad (Some ())))
    example_aad (Some ()) =
  Ok (3, 4, [[Byte.x41; Byte.x42; Byte.x00; Byte.x00]; zeros 4;
             [Byte.x43; Byte.x44; Byte.x45; Byte.x46]]).
Proof.
  apply (page_group_roundtrip example_pages 4 example_nonce example_aad (Some ()));
    [split; lia | exact example_pages_ok | cbn; lia | split; cbn; lia | reflexivity | reflexivity].
Defined.

Lemma interior_bundle_roundtrip_witness :
  decode_interior_bundle
    (from_ok [] (encode_interior_bundle [(7, [Byte.x41]); (2, zeros 2)] 2 example_nonce example_aad
      (Some ()))) example_aad (Some ()) =
  Ok [(7, [Byte.x41; Byte.x00]); (2, zeros 2)].
Proof.
  apply (interior_bundle_roundtrip [(7, [Byte.x41]); (2, zeros 2)] 2 example_nonce example_aad
    (Some ())); [split; lia | repeat constructor; cbn; lia | cbn; lia | reflexivity | reflexivity].
Defined.

Definition example_seekable : bytes * list FrameEntry :=
  from_ok ([], []) (encode_page_group_seekable example_pages 4 2 (λ _, example_nonce) example_aad
    (Some ())).

Lemma seekable_point_read_witness :
  ∃ e frame raw, example_seekable.2 !! 1%nat = Some e ∧
    slice (fe_offset e) (fe_offset e + fe_len e) example_seekable.1 = Some frame ∧
    decode_seekable_subchunk frame example_aad (Some ()) = Ok raw ∧
    slice 0 4 raw = Some [Byte.x43; Byte.x44; Byte.x45; Byte.x46].
Proof.
  apply (seekable_point_read example_pages 4 2 (λ _, example_nonce) example_aad (Some ())
    example_seekable.1 example_seekable.2 2 (Some [Byte.x43; Byte.x44; Byte.x45; Byte.x46]));
    [reflexivity | vm_compute; reflexivity | reflexivity | lia | exact example_pages_ok | lia | lia
    | reflexivity].
Defined.

Lemma seekable_full_roundtrip_witness :
  decode_page_group_seekable_full example_seekable.1 example_seekable.2 4 8 11 8 example_aad
    (Some ()) = Ok (3, 4, concat (page_bytes 4 <$> example_pages)).
Proof.
  apply (seekable_full_roundtrip example_pages 4 2 (λ _, example_nonce) example_aad (Some ()));
    [reflexivity | vm_compute; reflexivity | reflexivity | lia | exact example_pages_ok | lia
    | reflexivity | cbn; lia | cbn; lia].
Defined.

Lemma override_frame_roundtrip_witness :
  decode_seekable_subchunk
    (from_ok [] (encode_override_frame [(3, [Byte.x41])] 2 example_nonce (aad_override_frame 9 1)
      (Some ()))) (aad_override_frame 9 1) (Some ()) = Ok [Byte.x41; Byte.x00].
Proof.
  apply (override_frame_roundtrip [(3, [Byte.x41])] 2 example_nonce (aad_override_frame 9 1)
    (Some ())); [lia | repeat constructor; cbn; lia | cbn; lia | reflexivity | reflexivity].
Defined.

Lemma bundle_and_frame_decoders_total_witness :
  decode_page_group_seekable_full [] [{| fe_offset := 5; fe_len := 9 |}] 4 8 11 8 []
    (None : option ()) ≠ Panic.
Proof.
  apply (bundle_and_frame_decoders_total [] [{| fe_offset := 5; fe_len := 9 |}] 4 8 11 8 [] None);
    [lia | repeat constructor; cbn; lia].
Defined.

Lemma encrypted_slot_bound_witness :
  decode_page_group
    (from_ok [] (encrypt_if_needed example_nonce [Byte.x41] (slot_aad (InteriorBundle 7)) (Some ())))
    (slot_aad (IndexBundle 7)) (Some ()) = Err OtherKind.
Proof.
  apply (encrypted_slot_bound (InteriorBundle 7) (IndexBundle 7) example_nonce [Byte.x41] ());
    [split; lia | split; lia | discriminate | reflexivity | reflexivity].
Defined.
