(* ===== verification/Staging.v ===== *)
(** The staging log of a two-phase checkpoint (src/src/tiered/staging.rs): the
    bytes a writer appends, the two readers, and the scan for logs left by an
    interrupted flush. *)

From Stdlib Require Import Ascii String.
From stdpp Require Import pretty.
From S2P Require Import Prelude Keys Manifest.

#[local] Open Scope stdpp_scope.

Definition MANIFEST_MAGIC : Z := 0xCAFEFACEDEADBEEF.

(* ------------------------------------------------------------------ *)
(** * The writer *)

(** What the log file will hold, in order. *)
Record StagingWriter := { sw_bytes : bytes; sw_page_size : Z; sw_pages_written : Z }.

Definition open_log (page_size : Z) : StagingWriter :=
  {| sw_bytes := le_bytes 4 page_size; sw_page_size := page_size; sw_pages_written := 0 |}.

Definition append (w : StagingWriter) (page_num : Z) (data : bytes) : StagingWriter :=
  {| sw_bytes := sw_bytes w ++ le_bytes 8 page_num ++ data;
     sw_page_size := sw_page_size w; sw_pages_written := wrap64 (sw_pages_written w + 1) |}.

Definition append_manifest (w : StagingWriter) (manifest_bytes : bytes) : StagingWriter :=
  {| sw_bytes := sw_bytes w ++ le_bytes 8 MANIFEST_MAGIC ++
       le_bytes 8 (Z.of_nat (length manifest_bytes)) ++ manifest_bytes;
     sw_page_size := sw_page_size w; sw_pages_written := sw_pages_written w |}.

Definition finalize (w : StagingWriter) : bytes * Z := (sw_bytes w, sw_pages_written w).

(* ------------------------------------------------------------------ *)
(** * The readers *)

(** [read_exact] of [n] bytes from what is left of the file; [None] is
    [UnexpectedEof]. *)
Definition read_exact (n : nat) (rest : bytes) : option (bytes * bytes) :=
  if (n <=? length rest)%nat then Some (take n rest, drop n rest) else None.

(** The record loop of [read_staging_log]; each round reads at least eight
    bytes, so the length of the file is enough fuel. *)
Fixpoint read_pages (fuel : nat) (page_size : Z) (rest : bytes) (pages : gmap Z bytes) :
    gmap Z bytes :=
  match fuel with
  | O => pages
  | S fuel =>
      match read_exact 8 rest with
      | None => pages
      | Some (page_num_buf, rest) =>
          let page_num := of_le page_num_buf in
          if page_num =? MANIFEST_MAGIC then pages
          else match read_exact (Z.to_nat page_size) rest with
               | None => pages
               | Some (page_buf, rest) =>
                   read_pages fuel page_size rest (<[page_num := page_buf]> pages)
               end
      end
  end.

Definition read_staging_log (file : bytes) : io (gmap Z bytes) :=
  if (length file <? 4)%nat then Ok ∅
  else
    '(ps_buf, rest) ← ok_or (read_exact 4 file) UnexpectedEof;
    let page_size := of_le ps_buf in
    if negb (is_valid_page_size page_size) then Ok ∅
    else Ok (read_pages (S (length rest)) page_size rest ∅).

Fixpoint find_manifest (fuel : nat) (page_size file_len : Z) (rest : bytes) : io (option bytes) :=
  match fuel with
  | O => Ok None
  | S fuel =>
      match read_exact 8 rest with
      | None => Ok None
      | Some (buf, rest) =>
          if of_le buf =? MANIFEST_MAGIC then
            '(len_buf, rest) ← ok_or (read_exact 8 rest) UnexpectedEof;
            let manifest_len := of_le len_buf in
            if file_len <? manifest_len then Ok None
            else
              '(manifest_data, _) ← ok_or (read_exact (Z.to_nat manifest_len) rest) UnexpectedEof;
              Ok (Some manifest_data)
          else
            '(_, rest) ← ok_or (read_exact (Z.to_nat page_size) rest) UnexpectedEof;
            find_manifest fuel page_size file_len rest
      end
  end.

Definition read_staging_manifest (file : bytes) : io (option bytes) :=
  let file_len := Z.of_nat (length file) in
  if file_len <? 4 then Ok None
  else
    '(ps_buf, rest) ← ok_or (read_exact 4 file) UnexpectedEof;
    let page_size := of_le ps_buf in
    if negb (is_valid_page_size page_size) then Ok None
    else find_manifest (S (length rest)) page_size file_len rest.

(* ------------------------------------------------------------------ *)
(** * The recovery scan *)

Record PendingFlush := { staging_path : string; pf_version : Z; pf_page_size : Z }.

(** [str::parse::<u64>]. *)
Fixpoint parse_digits (acc : Z) (l : list ascii) : option Z :=
  match l with
  | [] => Some acc
  | c :: l =>
      if is_digit c then
        m ← checked_mul acc 10;
        a ← checked_add m (Z.of_nat (nat_of_ascii c) - 48);
        parse_digits a l
      else None
  end.

Definition parse_u64 (s : string) : option Z :=
  match list_ascii_of_string s with
  | [] => None
  | c :: l =>
      if (nat_of_ascii c =? 43)%nat && negb (bool_decide (l = [])) then parse_digits 0 l
      else parse_digits 0 (c :: l)
  end.

(** [Path::file_stem] and [Path::extension] of a file name. *)
Fixpoint rsplit_dot (l : list ascii) : option (list ascii * list ascii) :=
  match l with
  | [] => None
  | c :: l =>
      match rsplit_dot l with
      | Some (before, after) => Some (c :: before, after)
      | None => if (nat_of_ascii c =? 46)%nat then Some ([], l) else None
      end
  end.

Definition stem_and_extension (name : string) : string * option string :=
  if decide (name = "..") then (name, None) else
  match rsplit_dot (list_ascii_of_string name) with
  | None | Some ([], _) => (name, None)
  | Some (before, after) =>
      (string_of_list_ascii before, Some (string_of_list_ascii after))
  end.

(** One directory entry: its name and contents. *)
Definition recover_entry (page_size : Z) (entry : string * bytes) : option PendingFlush :=
  let '(stem, ext) := stem_and_extension entry.1 in
  if negb (bool_decide (ext = Some "log")) then None
  else match parse_u64 stem with
  | None => None
  | Some version =>
      if (length entry.2 =? 0)%nat then None
      else
        let file_ps :=
          match read_exact 4 entry.2 with
          | Some (buf, _) =>
              let ps := of_le buf in
              if (0 <? ps) && (ps <=? 65536) then ps else page_size
          | None => page_size
          end in
        Some {| staging_path := entry.1; pf_version := version; pf_page_size := file_ps |}
  end.

(** The scan of a directory listing, in the order the system gives it.  Empty
    log files are also removed, see [empty_logs]. *)
Definition recover_staging_logs (entries : list (string * bytes)) (page_size : Z) :
    list PendingFlush :=
  snd <$> sort_by_key ((λ p, (pf_version p, p)) <$> omap (recover_entry page_size) entries).

Definition empty_logs (entries : list (string * bytes)) : list string :=
  omap (λ e, let '(stem, ext) := stem_and_extension e.1 in
    if bool_decide (ext = Some "log") && bool_decide (is_Some (parse_u64 stem)) &&
       (length e.2 =? 0)%nat
    then Some e.1 else None) entries.

(* ------------------------------------------------------------------ *)
(** * Lemmas *)

(** A page record as the writer emits it. *)
Definition record_bytes (r : Z * bytes) : bytes := le_bytes 8 r.1 ++ r.2.

Definition record_ok (ps : Z) (r : Z * bytes) : Prop :=
  is_u64 r.1 ∧ r.1 ≠ MANIFEST_MAGIC ∧ length r.2 = Z.to_nat ps.

Definition write_log (ps : Z) (rs : list (Z * bytes)) : StagingWriter :=
  foldl (λ w r, append w r.1 r.2) (open_log ps) rs.

Lemma write_log_bytes ps rs :
  sw_bytes (write_log ps rs) = le_bytes 4 ps ++ concat (record_bytes <$> rs).
Proof.
  unfold write_log. induction rs as [|r rs IH] using rev_ind; [by rewrite app_nil_r|].
  rewrite foldl_app. cbn. rewrite IH, fmap_app, concat_app, <-app_assoc. cbn.
  by rewrite app_nil_r.
Qed.

Lemma read_exact_app n a b : length a = n → read_exact n (a ++ b) = Some (a, b).
Proof.
  intros <-. unfold read_exact. rewrite length_app.
  destruct (Nat.leb_spec (length a) (length a + length b)); [|lia].
  by rewrite take_app_length, drop_app_length.
Qed.

Lemma read_exact_short n a : (length a < n)%nat → read_exact n a = None.
Proof. intros Hl. unfold read_exact. by destruct (Nat.leb_spec n (length a)); [lia|]. Qed.

Lemma read_exact_length n rest a b :
  read_exact n rest = Some (a, b) → rest = a ++ b ∧ length a = n.
Proof.
  unfold read_exact. destruct (Nat.leb_spec n (length rest)); [|done]. intros [= <- <-].
  split; [by rewrite take_drop|]. rewrite length_take. lia.
Qed.

(** The pages of complete records, later records first in line. *)
Definition pages_of (rs : list (Z * bytes)) (pages : gmap Z bytes) : gmap Z bytes :=
  foldl (λ acc r, <[r.1 := r.2]> acc) pages rs.

Lemma length_record r : length (record_bytes r) = (8 + length r.2)%nat.
Proof. unfold record_bytes. by rewrite length_app, length_le_bytes. Qed.

(** Any cut through a sequence of records leaves the complete ones before it. *)
Lemma read_pages_prefix ps rs fuel pages k :
  Forall (record_ok ps) rs → (k ≤ fuel)%nat →
  (k ≤ length (concat (record_bytes <$> rs)))%nat →
  read_pages (S fuel) ps (take k (concat (record_bytes <$> rs))) pages =
    pages_of (take (k / (8 + Z.to_nat ps)) rs) pages.
Proof.
  revert pages fuel k. induction rs as [|r rs IH]; intros pages fuel k Hrs Hfuel Hk.
  - cbn in Hk. by replace k with 0%nat by lia.
  - inversion Hrs as [|? ? (Hu & Hm & Hl) Hrs']; subst.
    cbn [fmap list_fmap concat] in Hk |- *. rewrite length_app, length_record, Hl in Hk.
    unfold record_bytes at 1. rewrite <-!app_assoc.
    set (n := (8 + Z.to_nat ps)%nat) in *.
    destruct (Nat.lt_ge_cases k n) as [Hlt|Hge].
    + rewrite Nat.div_small, take_0 by done. cbn [pages_of foldl read_pages].
      destruct (Nat.lt_ge_cases k 8) as [H8|H8].
      * rewrite read_exact_short; [done|]. rewrite length_take. lia.
      * rewrite take_app_ge by (rewrite length_le_bytes; lia).
        rewrite read_exact_app by apply length_le_bytes. rewrite of_le_le_bytes by done.
        destruct (Z.eqb_spec r.1 MANIFEST_MAGIC); [done|].
        rewrite read_exact_short; [done|]. rewrite length_take, length_le_bytes. lia.
    + assert (k / n = S ((k - n) / n))%nat as ->.
      { replace k with ((k - n) + 1 * n)%nat at 1 by lia. rewrite Nat.div_add by lia. lia. }
      cbn [take pages_of foldl].
      rewrite take_app_ge by (rewrite length_le_bytes; lia). rewrite length_le_bytes.
      rewrite take_app_ge by lia. rewrite Hl. cbn [read_pages].
      rewrite read_exact_app by apply length_le_bytes. rewrite of_le_le_bytes by done.
      destruct (Z.eqb_spec r.1 MANIFEST_MAGIC); [done|].
      rewrite read_exact_app by done. destruct fuel as [|fuel]; [lia|].
      replace (k - 8 - Z.to_nat ps)%nat with (k - n)%nat by lia.
      apply IH; [done|lia|lia].
Qed.

Lemma read_pages_records ps rs t fuel pages :
  Forall (record_ok ps) rs → (length (concat (record_bytes <$> rs) ++ t) < fuel)%nat →
  ∃ fuel', (length t < fuel')%nat ∧
  read_pages fuel ps (concat (record_bytes <$> rs) ++ t) pages =
    read_pages fuel' ps t (pages_of rs pages).
Proof.
  revert pages fuel. induction rs as [|r rs IH]; intros pages fuel Hrs Hfuel.
  - by exists fuel.
  - inversion Hrs as [|? ? (Hu & Hm & Hl) Hrs']; subst.
    cbn [fmap list_fmap concat] in Hfuel |- *.
    rewrite length_app, length_app, length_record, Hl in Hfuel.
    unfold record_bytes at 1. rewrite <-!app_assoc. destruct fuel as [|fuel]; [lia|].
    cbn [read_pages]. rewrite read_exact_app by apply length_le_bytes.
    rewrite of_le_le_bytes by done. destruct (Z.eqb_spec r.1 MANIFEST_MAGIC); [done|].
    rewrite read_exact_app by done. apply IH; [done|]. rewrite length_app. lia.
Qed.

Lemma find_manifest_records ps fl rs t fuel :
  Forall (record_ok ps) rs → (length (concat (record_bytes <$> rs) ++ t) < fuel)%nat →
  ∃ fuel', (length t < fuel')%nat ∧
  find_manifest fuel ps fl (concat (record_bytes <$> rs) ++ t) = find_manifest fuel' ps fl t.
Proof.
  revert fuel. induction rs as [|r rs IH]; intros fuel Hrs Hfuel.
  - by exists fuel.
  - inversion Hrs as [|? ? (Hu & Hm & Hl) Hrs']; subst.
    cbn [fmap list_fmap concat] in Hfuel |- *.
    rewrite length_app, length_app, length_record, Hl in Hfuel.
    unfold record_bytes at 1. rewrite <-!app_assoc. destruct fuel as [|fuel]; [lia|].
    cbn [find_manifest]. rewrite read_exact_app by apply length_le_bytes.
    rewrite of_le_le_bytes by done. destruct (Z.eqb_spec r.1 MANIFEST_MAGIC); [done|].
    rewrite read_exact_app by done. cbn. apply IH; [done|]. rewrite length_app. lia.
Qed.

(** A cut of a log is a cut of its records, or all of them and a cut of what
    follows. *)
Lemma take_app_cases {A} k (a b : list A) :
  (k ≤ length a)%nat ∧ take k (a ++ b) = take k a ∨
  (length a ≤ k)%nat ∧ take k (a ++ b) = a ++ take (k - length a) b.
Proof.
  destruct (Nat.le_gt_cases k (length a)); [left|right]; (split; [lia|]).
  - by apply take_app_le.
  - apply take_app_ge. lia.
Qed.

Lemma valid_header ps : is_valid_page_size ps = true → is_u32 ps ∧ 512 ≤ ps.
Proof.
  unfold is_valid_page_size. intros [[_ Hl%Z.leb_le]%andb_true_iff Hu%Z.leb_le]%andb_true_iff.
  unfold is_u32. lia.
Qed.

Lemma concat_records_length ps rs :
  Forall (record_ok ps) rs →
  length (concat (record_bytes <$> rs)) = (length rs * (8 + Z.to_nat ps))%nat.
Proof.
  induction 1 as [|r rs (_ & _ & Hl) _ IH]; [done|]. cbn [fmap list_fmap concat].
  rewrite length_app, length_record, IH, Hl. cbn. lia.
Qed.

(** C26. Crash safety of the log: cut at any byte - in the header, in a record, in
    the manifest trailer or nowhere - it reads back exactly the pages of the
    complete records before the cut, the last write of a page winning, and
    never an error. *)
Theorem staging_log_torn_prefix ps rs m k :
  is_valid_page_size ps = true → Forall (record_ok ps) rs →
  read_staging_log (take k (finalize (append_manifest (write_log ps rs) m)).1) =
    Ok (pages_of (take ((k - 4) / (8 + Z.to_nat ps)) rs) ∅).
Proof.
  intros Hps Hrs. destruct (valid_header ps Hps) as [Hu H512].
  unfold finalize, append_manifest. cbn [fst sw_bytes]. rewrite write_log_bytes, <-app_assoc.
  set (body := concat (record_bytes <$> rs)). set (n := (8 + Z.to_nat ps)%nat).
  assert (length body = (length rs * n)%nat) as Hbody by by apply concat_records_length.
  set (tr := le_bytes 8 MANIFEST_MAGIC ++ _).
  destruct (take_app_cases k (le_bytes 4 ps) (body ++ tr)) as [[Hk ->]|[Hk ->]];
    rewrite length_le_bytes in *.
  - replace (k - 4)%nat with 0%nat by lia. rewrite Nat.div_small, take_0 by (unfold n; lia).
    unfold read_staging_log. destruct (Nat.lt_ge_cases k 4) as [Hlt|Hge].
    + destruct (Nat.ltb_spec (length (take k (le_bytes 4 ps))) 4) as [|Hge]; [done|].
      rewrite length_take in Hge. lia.
    + rewrite take_ge by (by rewrite length_le_bytes). rewrite length_le_bytes.
      rewrite <-(app_nil_r (le_bytes 4 ps)), read_exact_app by apply length_le_bytes.
      cbn -[of_le is_valid_page_size]. rewrite of_le_le_bytes, Hps by done. done.
  - unfold read_staging_log. rewrite length_app, length_le_bytes.
    destruct (Nat.ltb_spec (4 + length (take (k - 4) (body ++ tr))) 4); [lia|].
    rewrite read_exact_app by apply length_le_bytes. cbn -[of_le is_valid_page_size read_pages].
    rewrite of_le_le_bytes, Hps by done. cbn [negb]. f_equal.
    destruct (take_app_cases (k - 4) body tr) as [[Hin ->]|[Hout ->]].
    + rewrite length_take, Nat.min_l by done. by apply read_pages_prefix.
    + assert (length rs ≤ (k - 4) / n)%nat as Hall by (apply Nat.div_le_lower_bound; lia).
      rewrite (take_ge rs) by exact Hall.
      set (t := take _ tr).
      destruct (read_pages_records ps rs t (S (length (body ++ t))) ∅ Hrs) as ([|f] & Hf & Hr);
        [fold body; lia|lia|]. fold body in Hr. rewrite Hr. cbn [read_pages].
      destruct (take_app_cases (k - 4 - length body) (le_bytes 8 MANIFEST_MAGIC)
        (le_bytes 8 (Z.of_nat (length m)) ++ m)) as [[Ht Heq]|[Ht Heq]];
        rewrite length_le_bytes in Ht; unfold t, tr; rewrite Heq.
      * destruct (decide (k - 4 - length body = 8)%nat) as [->|Hne].
        -- rewrite take_ge by done. by rewrite <-(app_nil_r (le_bytes 8 _)), read_exact_app.
        -- rewrite read_exact_short; [done|]. rewrite length_take, length_le_bytes. lia.
      * rewrite read_exact_app by done. done.
Qed.

Definition example_log : bytes * Z :=
  finalize (append_manifest (write_log 512 [(3, zeros 512); (5, zeros 512); (3, replicate 512 Byte.x41)])
    [Byte.x4d]).

Lemma staging_log_torn_prefix_witness :
  read_staging_log (take 1100 example_log.1) = Ok {[ 3 := zeros 512; 5 := zeros 512 ]}.
Proof.
  transitivity (Ok (E := io_kind) (pages_of (take ((1100 - 4) / (8 + Z.to_nat 512))
    [(3, zeros 512); (5, zeros 512); (3, replicate 512 Byte.x41)]) ∅)).
  - apply (staging_log_torn_prefix 512 [(3, zeros 512); (5, zeros 512); (3, replicate 512 Byte.x41)]
      [Byte.x4d] 1100); [reflexivity|].
    repeat constructor; cbn; try lia; discriminate.
  - vm_compute. reflexivity.
Defined.

(** No manifest in the given result. *)
Definition no_manifest (r : io (option bytes)) : Prop := ∀ m, r ≠ Ok (Some m).

Lemma find_manifest_prefix ps fl rs fuel k :
  Forall (record_ok ps) rs → (k ≤ length (concat (record_bytes <$> rs)))%nat →
  no_manifest (find_manifest fuel ps fl (take k (concat (record_bytes <$> rs)))).
Proof.
  revert fuel k. induction rs as [|r rs IH]; intros [|fuel] k Hrs Hk m'; try done.
  - by destruct k.
  - inversion Hrs as [|? ? (Hu & Hm & Hl) Hrs']; subst.
    cbn [fmap list_fmap concat] in Hk |- *. rewrite length_app, length_record, Hl in Hk.
    unfold record_bytes at 1. rewrite <-!app_assoc. cbn [find_manifest].
    destruct (Nat.lt_ge_cases k 8) as [H8|H8].
    { rewrite read_exact_short; [done|]. rewrite length_take. lia. }
    rewrite take_app_ge, length_le_bytes by (rewrite length_le_bytes; lia).
    rewrite read_exact_app by apply length_le_bytes. rewrite of_le_le_bytes by done.
    destruct (Z.eqb_spec r.1 MANIFEST_MAGIC); [done|].
    destruct (Nat.lt_ge_cases (k - 8) (Z.to_nat ps)) as [Hlt|Hge].
    { rewrite read_exact_short; [done|]. rewrite length_take. lia. }
    rewrite take_app_ge, Hl by lia. rewrite read_exact_app by done. cbn.
    apply IH; [done|lia].
Qed.

Lemma find_manifest_trailer_cut ps fl m fuel j :
  is_u64 (Z.of_nat (length m)) → (j < 16 + length m)%nat →
  no_manifest (find_manifest fuel ps fl
    (take j (le_bytes 8 MANIFEST_MAGIC ++ le_bytes 8 (Z.of_nat (length m)) ++ m))).
Proof.
  intros Hm Hj m'. destruct fuel as [|fuel]; [done|]. cbn [find_manifest].
  destruct (Nat.lt_ge_cases j 8) as [H8|H8].
  { rewrite read_exact_short; [done|]. rewrite length_take. lia. }
  rewrite take_app_ge, length_le_bytes by (rewrite length_le_bytes; lia).
  rewrite read_exact_app by done. rewrite of_le_le_bytes, Z.eqb_refl by done.
  destruct (Nat.lt_ge_cases (j - 8) 8) as [H16|H16].
  { rewrite read_exact_short; [done|]. rewrite length_take. lia. }
  rewrite take_app_ge, length_le_bytes by (rewrite length_le_bytes; lia).
  rewrite read_exact_app by done. cbn [ok_or mbind outcome_bind].
  rewrite of_le_le_bytes by done. case_match; [done|].
  rewrite read_exact_short; [done|]. rewrite length_take. lia.
Qed.

Lemma read_manifest_header ps rest : is_valid_page_size ps = true →
  read_staging_manifest (le_bytes 4 ps ++ rest) = find_manifest (S (length rest)) ps (4 + Z.of_nat (length rest)) rest.
Proof.
  intros Hps. destruct (valid_header ps Hps) as [Hu _]. unfold read_staging_manifest. rewrite length_app, length_le_bytes.
  destruct (Z.ltb_spec (Z.of_nat (4 + length rest)) 4); [lia|].
  rewrite read_exact_app by apply length_le_bytes.
  cbn [ok_or mbind outcome_bind]. rewrite of_le_le_bytes, Hps by done. cbn [negb]. f_equal. lia.
Qed.

(** A whole log with its trailer. *)
Definition sealed_log (ps : Z) (rs : list (Z * bytes)) (m : bytes) : bytes :=
  (finalize (append_manifest (write_log ps rs) m)).1.

Lemma read_sealed_manifest ps rs m :
  is_valid_page_size ps = true → Forall (record_ok ps) rs → is_u64 (Z.of_nat (length m)) →
  read_staging_manifest (sealed_log ps rs m) = Ok (Some m).
Proof.
  intros Hps Hrs Hm. unfold sealed_log, finalize, append_manifest. cbn [fst sw_bytes].
  rewrite write_log_bytes, <-app_assoc, read_manifest_header by done. set (body := concat (record_bytes <$> rs)).
  set (tr := le_bytes 8 MANIFEST_MAGIC ++ _).
  assert (length tr = 16 + length m)%nat as Htr by (unfold tr; rewrite !length_app, !length_le_bytes; lia).
  destruct (find_manifest_records ps (4 + Z.of_nat (length (body ++ tr))) rs tr
    (S (length (body ++ tr))) Hrs) as ([|f] & Hf & Hr); [fold body; lia|lia|].
  fold body in Hr. rewrite Hr. clear Hr. rewrite length_app, Htr.
  set (fl := 4 + Z.of_nat (length body + (16 + length m))). unfold tr. cbn [find_manifest].
  rewrite read_exact_app by done. rewrite of_le_le_bytes, Z.eqb_refl by done.
  rewrite read_exact_app by done. cbn [ok_or mbind outcome_bind].
  rewrite of_le_le_bytes by done.
  destruct (Z.ltb_spec fl (Z.of_nat (length m))); [lia|].
  rewrite Nat2Z.id. pose proof (read_exact_app (length m) m [] eq_refl) as Hm'.
  rewrite app_nil_r in Hm'. by rewrite Hm'.
Qed.

(** A sealed log reads back to its pages. *)
Lemma read_sealed ps rs m :
  is_valid_page_size ps = true → Forall (record_ok ps) rs →
  read_staging_log (sealed_log ps rs m) = Ok (pages_of rs ∅).
Proof.
  intros Hps Hrs. destruct (valid_header _ Hps) as [Hu _]. unfold sealed_log, finalize, append_manifest. cbn [fst sw_bytes].
  rewrite write_log_bytes, <-app_assoc. set (body := concat _). set (tr := le_bytes 8 MANIFEST_MAGIC ++ _).
  assert (read_exact 8 tr = Some (le_bytes 8 MANIFEST_MAGIC, le_bytes 8 (Z.of_nat (length m)) ++ m)) as Htr
    by apply read_exact_app, length_le_bytes.
  unfold read_staging_log. rewrite length_app, length_le_bytes.
  destruct (Nat.ltb_spec (4 + length (body ++ tr)) 4); [lia|].
  rewrite read_exact_app by apply length_le_bytes. cbn [ok_or mbind outcome_bind].
  rewrite of_le_le_bytes, Hps by done. cbn [negb].
  destruct (read_pages_records ps rs tr (S (length (body ++ tr))) ∅ Hrs) as (fuel & Hfuel & Hr); [unfold body; lia|].
  fold body in Hr. rewrite Hr. f_equal. destruct fuel as [|fuel]; [lia|]. cbn [read_pages]. rewrite Htr.
  by rewrite (of_le_le_bytes 8 MANIFEST_MAGIC) by done.
Qed.

(** The manifest trailer is all or nothing: it is read back from the whole
    log, and no log cut short yields a manifest. *)
Theorem staging_manifest_all_or_nothing ps rs m :
  is_valid_page_size ps = true → Forall (record_ok ps) rs → is_u64 (Z.of_nat (length m)) →
  let log := (finalize (append_manifest (write_log ps rs) m)).1 in
  read_staging_manifest log = Ok (Some m) ∧
  ∀ k m', (k < length log)%nat → read_staging_manifest (take k log) ≠ Ok (Some m').
Proof.
  intros Hps Hrs Hm log. split; [by apply read_sealed_manifest|].
  unfold log, finalize, append_manifest. cbn [fst sw_bytes]. clear log.
  rewrite write_log_bytes, <-app_assoc. set (body := concat (record_bytes <$> rs)).
  set (tr := le_bytes 8 MANIFEST_MAGIC ++ _).
  assert (length tr = 16 + length m)%nat as Htr
    by (unfold tr; rewrite !length_app, !length_le_bytes; lia).
  pose proof (λ rest, read_manifest_header ps rest Hps) as Hread.
  intros k m'. rewrite !length_app, length_le_bytes. intros Hk.
  destruct (take_app_cases k (le_bytes 4 ps) (body ++ tr)) as [[Hk' ->]|[Hk' ->]];
    rewrite length_le_bytes in *.
  - destruct (decide (k = 4)%nat) as [->|Hne].
    + rewrite take_ge by done. by rewrite <-(app_nil_r (le_bytes 4 ps)), Hread.
    + unfold read_staging_manifest. rewrite length_take, length_le_bytes.
      by destruct (Z.ltb_spec (Z.of_nat (k `min` 4)) 4); [|lia].
  - rewrite Hread. destruct (take_app_cases (k - 4) body tr) as [[Hin ->]|[Hout ->]].
    + by apply find_manifest_prefix.
    + set (t := take _ tr).
      destruct (find_manifest_records ps (4 + Z.of_nat (length (body ++ t))) rs t
        (S (length (body ++ t))) Hrs) as (f & _ & Hr); [fold body; lia|].
      fold body in Hr. rewrite Hr. apply find_manifest_trailer_cut; [done|lia].
Qed.

Lemma staging_manifest_all_or_nothing_witness :
  read_staging_manifest example_log.1 = Ok (Some [Byte.x4d]) ∧
  read_staging_manifest (take 1580 example_log.1) ≠ Ok (Some []).
Proof.
  destruct (staging_manifest_all_or_nothing 512
    [(3, zeros 512); (5, zeros 512); (3, replicate 512 Byte.x41)] [Byte.x4d]) as [H1 H2];
    [reflexivity | repeat constructor; cbn; try lia; discriminate | split; cbn; lia |].
  split; [exact H1|]. apply H2. apply Nat.ltb_lt. vm_compute. reflexivity.
Defined.

(* ------------------------------------------------------------------ *)
(** * Recovery *)

Lemma pretty_char_code x :
  (x < 10)%N → is_digit (pretty_N_char x) = true ∧
  Z.of_nat (nat_of_ascii (pretty_N_char x)) = 48 + Z.of_N x.
Proof.
  intros Hx. destruct x as [|p]; [done|].
  do 4 (destruct p as [p|p|]; try done; try lia).
Qed.

Lemma parse_digits_go x s :
  Z.of_N x < 2 ^ 64 →
  parse_digits 0 (list_ascii_of_string (pretty_N_go x s)) =
  parse_digits (Z.of_N x) (list_ascii_of_string s).
Proof.
  revert s. induction (N.lt_wf_0 x) as [x _ IH]; intros s Hx.
  destruct (decide (x = 0)%N) as [->|Hx0]; [by rewrite pretty_N_go_0|].
  rewrite pretty_N_go_step by lia.
  assert (x `mod` 10 < 10)%N as Hm by (apply N.mod_lt; lia).
  pose proof (N.div_mod x 10 ltac:(lia)) as Hdm.
  assert (x `div` 10 < x)%N by (apply N.div_lt; lia).
  rewrite IH by lia. cbn [list_ascii_of_string parse_digits].
  destruct (pretty_char_code _ Hm) as [-> ->]. unfold checked_mul, checked_add.
  generalize dependent (x `div` 10)%N. generalize dependent (x `mod` 10)%N.
  intros r _ q Hdm _. destruct (Z.ltb_spec (Z.of_N q * 10) (2 ^ 64)); [|lia].
  cbn [mbind option_bind].
  replace (Z.of_N q * 10 + (48 + Z.of_N r - 48)) with (Z.of_N x) by lia.
  destruct (Z.ltb_spec (Z.of_N x) (2 ^ 64)); [done|lia].
Qed.

Lemma parse_u64_decimal v : is_u64 v → parse_u64 (decimal v) = Some v.
Proof.
  intros Hv. pose proof (decimal_digits v) as Hd. unfold all_digits in Hd. unfold parse_u64.
  assert (parse_digits 0 (list_ascii_of_string (decimal v)) = Some v) as Hp.
  { unfold decimal, pretty, pretty_N. case_decide as H0.
    - assert (v = 0) as -> by (unfold is_u64 in Hv; lia). reflexivity.
    - rewrite parse_digits_go by (unfold is_u64 in Hv; lia). cbn. f_equal.
      unfold is_u64 in Hv. lia. }
  destruct (list_ascii_of_string (decimal v)) as [|c l] eqn:Hl.
  - exfalso. unfold decimal, pretty, pretty_N in Hl. case_decide; [done|].
    assert (∀ x s, s ≠ ""%string ∨ x ≠ 0%N → list_ascii_of_string (pretty_N_go x s) ≠ []) as Hne.
    { intros x. induction (N.lt_wf_0 x) as [x _ IH]; intros s Hs.
      destruct (decide (x = 0)%N) as [->|Hx0].
      - rewrite pretty_N_go_0. destruct s; [by destruct Hs|done].
      - rewrite pretty_N_go_step by lia. apply IH; [apply N.div_lt; lia|]. by left. }
    apply (Hne (Z.to_N v) ""%string); [by right|done].
  - inversion Hd as [|? ? Hc _]; subst.
    destruct (Nat.eqb_spec (nat_of_ascii c) 43) as [H43|]; [|done].
    unfold is_digit in Hc. rewrite H43 in Hc. done.
Qed.

Lemma rsplit_dot_log l :
  (∀ c, c ∈ l → nat_of_ascii c ≠ 46%nat) →
  rsplit_dot (l ++ list_ascii_of_string ".log") = Some (l, list_ascii_of_string "log").
Proof.
  induction l as [|c l IH]; intros Hl; [done|]. cbn [app rsplit_dot].
  rewrite IH; [done|]. intros d Hd. apply Hl. by right.
Qed.

Lemma list_ascii_app a b :
  list_ascii_of_string (a +:+ b) = list_ascii_of_string a ++ list_ascii_of_string b.
Proof. induction a as [|c a IH]; cbn; [done|]. by rewrite <-IH. Qed.

Lemma log_name_split v :
  is_u64 v → stem_and_extension (decimal v +:+ ".log") = (decimal v, Some "log"%string).
Proof.
  intros Hv. unfold stem_and_extension. pose proof (parse_u64_decimal v Hv) as Hp.
  destruct (decide _) as [Heq|_].
  { apply (f_equal list_ascii_of_string) in Heq. rewrite list_ascii_app in Heq.
    apply (f_equal (λ l, last l)) in Heq. rewrite last_app in Heq. done. }
  rewrite list_ascii_app, rsplit_dot_log.
  - destruct (list_ascii_of_string (decimal v)) as [|c l] eqn:Hl.
    + unfold parse_u64 in Hp. by rewrite Hl in Hp.
    + rewrite <-Hl. by rewrite string_of_list_ascii_of_string.
  - intros c Hc. pose proof (decimal_digits v) as Hd. unfold all_digits in Hd.
    rewrite Forall_forall in Hd. specialize (Hd c Hc). unfold is_digit in Hd.
    intros H46. by rewrite H46 in Hd.
Qed.

Lemma recover_entry_log fallback v ps rest : is_u64 v → is_valid_page_size ps = true →
  recover_entry fallback ((decimal v +:+ ".log")%string, le_bytes 4 ps ++ rest) =
  Some {| staging_path := decimal v +:+ ".log"; pf_version := v; pf_page_size := ps |}.
Proof.
  intros Hv Hps. destruct (valid_header ps Hps) as [Hu H512]. unfold recover_entry. cbn [fst snd].
  rewrite (log_name_split v Hv). rewrite bool_decide_eq_true_2 by done. cbn [negb].
  rewrite (parse_u64_decimal v Hv), length_app, length_le_bytes. cbn [Nat.eqb Nat.add].
  rewrite read_exact_app by apply length_le_bytes. rewrite of_le_le_bytes by done.
  unfold is_valid_page_size in Hps. apply andb_true_iff in Hps as [_ Hle]. rewrite Hle.
  by destruct (Z.ltb_spec 0 ps); [|lia].
Qed.

(** A restart finds every log a writer opened: the file written for version
    [v], complete or cut short after its header, is recovered under that
    version and with its own page size; the pending flushes come oldest version
    first; and only non-empty [<number>.log] files are pending. *)
Theorem recover_finds_logs entries fallback :
  let pending := recover_staging_logs entries fallback in
  (∀ v ps rs k, is_u64 v → is_valid_page_size ps = true →
    (decimal v +:+ ".log", take (4 + k) (sw_bytes (write_log ps rs))) ∈ entries →
    {| staging_path := decimal v +:+ ".log"; pf_version := v; pf_page_size := ps |} ∈ pending) ∧
  StronglySorted (λ p q, pf_version p ≤ pf_version q) pending ∧
  (∀ p, p ∈ pending → ∃ stem contents, (staging_path p, contents) ∈ entries ∧ contents ≠ [] ∧
    stem_and_extension (staging_path p) = (stem, Some "log"%string) ∧
    parse_u64 stem = Some (pf_version p)).
Proof.
  intros pending.
  assert (∀ p, p ∈ pending ↔ ∃ e, e ∈ entries ∧ recover_entry fallback e = Some p) as Hin.
  { intros p. unfold pending, recover_staging_logs. rewrite list_elem_of_fmap. split.
    - intros ([v q] & -> & Hq). rewrite sort_by_key_perm in Hq.
      apply list_elem_of_fmap in Hq as (q' & [= -> ->] & Hq). cbn. by apply list_elem_of_omap.
    - intros He. exists (pf_version p, p). split; [done|]. rewrite sort_by_key_perm.
      apply list_elem_of_fmap. exists p. split; [done|]. by apply list_elem_of_omap. }
  split_and!.
  - intros v ps rs k Hv Hps Hel. apply Hin. eexists. split; [exact Hel|].
    rewrite write_log_bytes, take_app_ge by (rewrite length_le_bytes; lia). by apply recover_entry_log.
  - unfold pending, recover_staging_logs, sort_by_key.
    set (l := (λ p, (pf_version p, p)) <$> _).
    assert (∀ x, x ∈ merge_sort key_le l → x.1 = pf_version x.2) as Hkey.
    { intros x Hx. rewrite merge_sort_Permutation in Hx.
      by apply list_elem_of_fmap in Hx as (q & -> & _). }
    pose proof (StronglySorted_merge_sort key_le l) as Hs.
    induction Hs as [|x xs Hs IH Hx]; [constructor|]. cbn. constructor.
    + apply IH. intros y Hy. apply Hkey. by right.
    + apply Forall_fmap. rewrite Forall_forall in Hx |- *. intros y Hy. cbn.
      rewrite <-(Hkey x), <-(Hkey y) by (by left || by right). by apply Hx.
  - intros p (e & He & Hr)%Hin. destruct e as [name contents]. unfold recover_entry in Hr.
    cbn [fst snd] in Hr.
    destruct (stem_and_extension name) as [stem ext] eqn:Hse.
    case_bool_decide as Hext; [subst ext|done]. cbn [negb] in Hr.
    destruct (parse_u64 stem) as [v|] eqn:Hv; [|done].
    destruct (Nat.eqb_spec (length contents) 0); [done|]. injection Hr as <-. cbn.
    exists stem, contents. split_and!; [done| |done|done]. by intros ->.
Qed.

Definition example_listing : list (string * bytes) :=
  [("12.log", take 900 (sw_bytes (write_log 512 [(3, zeros 512); (5, zeros 512)])));
   ("notes.txt", zeros 3); ("7.log", []);
   ("9.log", sw_bytes (write_log 1024 []))]%string.

Lemma recover_finds_logs_witness :
  {| staging_path := "12.log"; pf_version := 12; pf_page_size := 512 |} ∈
    recover_staging_logs example_listing 4096 ∧
  pf_version <$> recover_staging_logs example_listing 4096 = [9; 12].
Proof.
  split; [|vm_compute; reflexivity].
  apply (proj1 (recover_finds_logs example_listing 4096) 12 512
    [(3, zeros 512); (5, zeros 512)] 896%nat); [split; lia | reflexivity | left].
Defined.
