(* ===== verification/Sashimono.v ===== *)
(** The delta-chain contract (src/src/tiered/sashimono.rs): validation of root
    pointers, checkpoints and deltas, the order of root updates, and the choice
    of the deltas a recovery replays on a checkpoint. *)

From Stdlib Require Import String Ascii.
From S2P Require Import Prelude.

#[local] Open Scope stdpp_scope.

(* ------------------------------------------------------------------ *)
(** * Data *)

Definition SASHIMONO_FORMAT_VERSION : Z := 1.

Inductive ObjectKind := RootPointer | Checkpoint | Delta.

#[export] Instance ObjectKind_eq_dec : EqDecision ObjectKind.
Proof. solve_decision. Defined.

Inductive CommittedBoundary :=
  AfterSqliteCommit | AfterWalFlush | AfterCheckpoint | ExplicitBarrier.

#[export] Instance CommittedBoundary_eq_dec : EqDecision CommittedBoundary.
Proof. solve_decision. Defined.

Record RootPointerV1 := {
  rp_kind : ObjectKind;
  rp_format_version : Z;
  rp_tenant_scope : string;
  rp_database_id : string;
  rp_database_incarnation_id : string;
  rp_object_prefix : string;
  rp_root_generation : Z;
  rp_writer_id : string;
  rp_lease_epoch : Z;
  rp_checkpoint_id : string;
  rp_latest_delta_sequence : Z;
  rp_latest_database_version : Z;
  rp_state_checksum : Z
}.

Record PageObjectRefV1 := {
  po_first_page : Z;
  po_page_count : Z;
  po_key : string;
  po_checksum : Z
}.

Record CheckpointV1 := {
  cp_kind : ObjectKind;
  cp_format_version : Z;
  cp_tenant_scope : string;
  cp_database_id : string;
  cp_database_incarnation_id : string;
  cp_object_prefix : string;
  cp_writer_id : string;
  cp_lease_epoch : Z;
  cp_checkpoint_id : string;
  cp_checkpoint_delta_sequence : Z;
  cp_database_version : Z;
  cp_page_size : Z;
  cp_database_page_count : Z;
  cp_page_objects : list PageObjectRefV1
}.

Record DeltaPageV1 := { dp_page_number : Z; dp_bytes : bytes }.

Record DeltaV1 := {
  d_kind : ObjectKind;
  d_format_version : Z;
  d_tenant_scope : string;
  d_database_id : string;
  d_database_incarnation_id : string;
  d_object_prefix : string;
  d_writer_id : string;
  d_lease_epoch : Z;
  d_base_database_version : Z;
  d_end_database_version : Z;
  d_sequence : Z;
  d_page_size : Z;
  d_base_database_page_count : Z;
  d_end_database_page_count : Z;
  d_committed_boundary : CommittedBoundary;
  d_changed_pages : list DeltaPageV1;
  d_checksum : Z;
  d_replay_idempotency_key : string
}.

Inductive ContractError :=
  | WrongKind (expected actual : ObjectKind)
  | UnsupportedFormatVersion (v : Z)
  | EmptyField (field : string)
  | ZeroField (field : string)
  | RootRollback
  | StaleLeaseEpoch
  | RootIdentityMismatch
  | WrongObjectPrefix
  | NonContiguousDelta (expected actual : Z)
  | VersionMismatch (expected actual : Z)
  | PageSizeMismatch (expected actual : Z)
  | DatabaseSizeMismatch (expected actual : Z)
  | MissingCheckpoint (id : string)
  | MissingDelta (sequence : Z)
  | DuplicateDelta (sequence : Z)
  | ReplayChainTooLong (max actual : Z)
  | DeltaPageOutOfRange (page_number end_page_count : Z)
  | PageObjectOutOfRange (first_page page_count database_page_count : Z)
  | DeltaPageWrongSize (page_number expected actual : Z)
  | DeltaChecksumMismatch (expected actual : Z).

Abbreviation result := (outcome ContractError).

Record RecoveryPlanV1 := { plan_checkpoint : CheckpointV1; plan_deltas : list DeltaV1 }.

(* ------------------------------------------------------------------ *)
(** * Validation *)

Definition require_kind (actual expected : ObjectKind) : result () :=
  guard_err (negb (bool_decide (actual = expected))) (WrongKind expected actual).

Definition require_nonempty (field value : string) : result () :=
  guard_err (bool_decide (value = ""%string)) (EmptyField field).

Definition require_nonzero (field : string) (value : Z) : result () :=
  guard_err (value =? 0) (ZeroField field).

Definition validate_common (format_version : Z)
    (tenant_scope database_id database_incarnation_id object_prefix writer_id : string)
    (lease_epoch : Z) : result () :=
  _ ← guard_err (negb (format_version =? SASHIMONO_FORMAT_VERSION))
        (UnsupportedFormatVersion format_version);
  _ ← require_nonempty "tenant_scope" tenant_scope;
  _ ← require_nonempty "database_id" database_id;
  _ ← require_nonempty "database_incarnation_id" database_incarnation_id;
  _ ← require_nonempty "object_prefix" object_prefix;
  _ ← require_nonempty "writer_id" writer_id;
  require_nonzero "lease_epoch" lease_epoch.

Definition root_validate (r : RootPointerV1) : result () :=
  _ ← require_kind (rp_kind r) RootPointer;
  _ ← validate_common (rp_format_version r) (rp_tenant_scope r) (rp_database_id r)
        (rp_database_incarnation_id r) (rp_object_prefix r) (rp_writer_id r) (rp_lease_epoch r);
  _ ← require_nonempty "checkpoint_id" (rp_checkpoint_id r);
  _ ← require_nonzero "root_generation" (rp_root_generation r);
  require_nonzero "state_checksum" (rp_state_checksum r).

Definition validate_update_from (r previous : RootPointerV1) : result () :=
  _ ← root_validate r;
  _ ← root_validate previous;
  _ ← guard_err (negb (bool_decide (rp_tenant_scope r = rp_tenant_scope previous))
        || negb (bool_decide (rp_database_id r = rp_database_id previous))
        || negb (bool_decide (rp_database_incarnation_id r = rp_database_incarnation_id previous))
        || negb (bool_decide (rp_object_prefix r = rp_object_prefix previous))
        || bool_decide (rp_checkpoint_id r = ""%string)) RootIdentityMismatch;
  _ ← guard_err (rp_root_generation r <=? rp_root_generation previous) RootRollback;
  _ ← guard_err ((rp_latest_delta_sequence r <? rp_latest_delta_sequence previous)
        || (rp_latest_database_version r <? rp_latest_database_version previous)) RootRollback;
  guard_err (rp_lease_epoch r <? rp_lease_epoch previous) StaleLeaseEpoch.

(** [key.strip_prefix(prefix).is_some_and(|rest| rest.starts_with('/'))]. *)
Definition key_has_object_prefix (key object_prefix : string) : bool :=
  String.prefix (object_prefix +:+ "/") key.

Definition page_object_validate (p : PageObjectRefV1) (database_page_count : Z)
    (object_prefix : string) : result () :=
  let out := PageObjectOutOfRange (po_first_page p) (po_page_count p) database_page_count in
  _ ← require_nonempty "page_object.key" (po_key p);
  _ ← require_nonzero "page_object.page_count" (po_page_count p);
  _ ← require_nonzero "page_object.checksum" (po_checksum p);
  _ ← guard_err (negb (key_has_object_prefix (po_key p) object_prefix)) WrongObjectPrefix;
  end_ ← ok_or (checked_add (po_first_page p) (po_page_count p)) out;
  guard_err (database_page_count <? end_) out.

Definition checkpoint_validate (c : CheckpointV1) : result () :=
  _ ← require_kind (cp_kind c) Checkpoint;
  _ ← validate_common (cp_format_version c) (cp_tenant_scope c) (cp_database_id c)
        (cp_database_incarnation_id c) (cp_object_prefix c) (cp_writer_id c) (cp_lease_epoch c);
  _ ← require_nonempty "checkpoint_id" (cp_checkpoint_id c);
  _ ← require_nonzero "database_version" (cp_database_version c);
  _ ← require_nonzero "page_size" (cp_page_size c);
  _ ← require_nonzero "database_page_count" (cp_database_page_count c);
  _ ← guard_err (bool_decide (length (cp_page_objects c) = 0%nat)) (EmptyField "page_objects");
  check_all (λ p, page_object_validate p (cp_database_page_count c) (cp_object_prefix c))
    (cp_page_objects c).

Definition committed_boundary_discriminant (b : CommittedBoundary) : Z :=
  match b with
  | AfterSqliteCommit => 1 | AfterWalFlush => 2 | AfterCheckpoint => 3 | ExplicitBarrier => 4
  end.

(** Sums of bytes, wrapping at 64 bits. *)
Definition add_str (sum : Z) (value : string) : Z :=
  foldl (λ s c, wrap64 (s + Z.of_nat (nat_of_ascii c))) sum (list_ascii_of_string value).

Definition fixture_checksum (d : DeltaV1) : Z :=
  let sum := add_str 0 (d_tenant_scope d) in
  let sum := add_str sum (d_database_id d) in
  let sum := add_str sum (d_database_incarnation_id d) in
  let sum := add_str sum (d_object_prefix d) in
  let sum := add_str sum (d_writer_id d) in
  let sum := wrap64 (sum + d_lease_epoch d) in
  let sum := wrap64 (sum + d_base_database_version d) in
  let sum := wrap64 (sum + d_end_database_version d) in
  let sum := wrap64 (sum + d_sequence d) in
  let sum := wrap64 (sum + d_page_size d) in
  let sum := wrap64 (sum + d_base_database_page_count d) in
  let sum := wrap64 (sum + d_end_database_page_count d) in
  let sum := wrap64 (sum + committed_boundary_discriminant (d_committed_boundary d)) in
  let sum := add_str sum (d_replay_idempotency_key d) in
  foldl (λ s p, foldl (λ s b, wrap64 (s + Byte.byte.unsigned b))
    (wrap64 (s + dp_page_number p)) (dp_bytes p)) sum (d_changed_pages d).

Definition delta_page_validate (p : DeltaPageV1) (page_size end_page_count : Z) : result () :=
  _ ← guard_err (end_page_count <=? dp_page_number p)
        (DeltaPageOutOfRange (dp_page_number p) end_page_count);
  let actual := Z.of_nat (length (dp_bytes p)) in
  guard_err (negb (actual =? page_size)) (DeltaPageWrongSize (dp_page_number p) page_size actual).

Definition delta_validate (d : DeltaV1) : result () :=
  _ ← require_kind (d_kind d) Delta;
  _ ← validate_common (d_format_version d) (d_tenant_scope d) (d_database_id d)
        (d_database_incarnation_id d) (d_object_prefix d) (d_writer_id d) (d_lease_epoch d);
  _ ← require_nonzero "base_database_version" (d_base_database_version d);
  _ ← require_nonzero "end_database_version" (d_end_database_version d);
  _ ← require_nonzero "sequence" (d_sequence d);
  _ ← require_nonzero "page_size" (d_page_size d);
  _ ← require_nonempty "replay_idempotency_key" (d_replay_idempotency_key d);
  _ ← guard_err (d_end_database_version d <=? d_base_database_version d)
        (VersionMismatch (wrap64 (d_base_database_version d + 1)) (d_end_database_version d));
  _ ← check_all (λ p, delta_page_validate p (d_page_size d) (d_end_database_page_count d))
        (d_changed_pages d);
  let expected := fixture_checksum d in
  guard_err (negb (d_checksum d =? expected)) (DeltaChecksumMismatch expected (d_checksum d)).

Definition delta_has_root_identity (d : DeltaV1) (r : RootPointerV1) : bool :=
  bool_decide (d_tenant_scope d = rp_tenant_scope r)
  && bool_decide (d_database_id d = rp_database_id r)
  && bool_decide (d_database_incarnation_id d = rp_database_incarnation_id r)
  && bool_decide (d_object_prefix d = rp_object_prefix r)
  && bool_decide (d_writer_id d = rp_writer_id r)
  && (d_lease_epoch d =? rp_lease_epoch r).

Definition validate_after_root (d : DeltaV1) (r : RootPointerV1) : result () :=
  _ ← delta_validate d;
  _ ← root_validate r;
  _ ← guard_err (negb (delta_has_root_identity d r)) RootIdentityMismatch;
  let next := wrap64 (rp_latest_delta_sequence r + 1) in
  _ ← guard_err (negb (d_sequence d =? next)) (NonContiguousDelta next (d_sequence d));
  guard_err (negb (d_base_database_version d =? rp_latest_database_version r))
    (VersionMismatch (rp_latest_database_version r) (d_base_database_version d)).

Definition validate_checkpoint_for_root (c : CheckpointV1) (r : RootPointerV1) : result () :=
  _ ← checkpoint_validate c;
  _ ← guard_err (negb (bool_decide (cp_tenant_scope c = rp_tenant_scope r))
        || negb (bool_decide (cp_database_id c = rp_database_id r))
        || negb (bool_decide (cp_database_incarnation_id c = rp_database_incarnation_id r))
        || negb (bool_decide (cp_object_prefix c = rp_object_prefix r))
        || negb (bool_decide (cp_writer_id c = rp_writer_id r))
        || negb (cp_lease_epoch c =? rp_lease_epoch r)
        || negb (bool_decide (cp_checkpoint_id c = rp_checkpoint_id r))) RootIdentityMismatch;
  guard_err (rp_latest_database_version r <? cp_database_version c)
    (VersionMismatch (rp_latest_database_version r) (cp_database_version c)).

Definition validate_delta_after_state (d : DeltaV1) (r : RootPointerV1)
    (expected_sequence expected_version expected_page_count expected_page_size : Z) : result () :=
  _ ← delta_validate d;
  _ ← guard_err (negb (delta_has_root_identity d r)) RootIdentityMismatch;
  _ ← guard_err (negb (d_sequence d =? expected_sequence))
        (NonContiguousDelta expected_sequence (d_sequence d));
  _ ← guard_err (negb (d_base_database_version d =? expected_version))
        (VersionMismatch expected_version (d_base_database_version d));
  _ ← guard_err (negb (d_base_database_page_count d =? expected_page_count))
        (DatabaseSizeMismatch expected_page_count (d_base_database_page_count d));
  guard_err (negb (d_page_size d =? expected_page_size))
    (PageSizeMismatch expected_page_size (d_page_size d)).

(* ------------------------------------------------------------------ *)
(** * Recovery *)

(** The deltas planned so far, and the version and page count they lead to. *)
Record PlanState := { planned : list DeltaV1; expected_version : Z; expected_page_count : Z }.

(** One round of the loop over the expected sequence numbers. *)
Definition plan_step (r : RootPointerV1) (deltas : list DeltaV1) (page_size : Z)
    (st : PlanState) (expected_sequence : Z) : result PlanState :=
  let candidates := filter (λ d, (d_sequence d =? expected_sequence) &&
    delta_has_root_identity d r) deltas in
  delta ← match candidates with
          | [] => Err (MissingDelta expected_sequence)
          | [d] => Ok d
          | _ => Err (DuplicateDelta expected_sequence)
          end;
  _ ← validate_delta_after_state delta r expected_sequence (expected_version st)
        (expected_page_count st) page_size;
  Ok {| planned := planned st ++ [delta];
        expected_version := d_end_database_version delta;
        expected_page_count := d_end_database_page_count delta |}.

Definition select_recovery_plan (r : RootPointerV1) (checkpoints : list CheckpointV1)
    (deltas : list DeltaV1) (max_delta_replay : Z) : result RecoveryPlanV1 :=
  _ ← root_validate r;
  checkpoint ← ok_or (snd <$> list_find (λ c, cp_checkpoint_id c = rp_checkpoint_id r) checkpoints)
                 (MissingCheckpoint (rp_checkpoint_id r));
  _ ← validate_checkpoint_for_root checkpoint r;
  let base := cp_checkpoint_delta_sequence checkpoint in
  let latest := rp_latest_delta_sequence r in
  _ ← guard_err (latest <? base) (NonContiguousDelta base latest);
  let replay_len := latest - base in
  _ ← guard_err (max_delta_replay <? replay_len) (ReplayChainTooLong max_delta_replay replay_len);
  st ← fold_io (plan_step r deltas (cp_page_size checkpoint))
         {| planned := []; expected_version := cp_database_version checkpoint;
            expected_page_count := cp_database_page_count checkpoint |}
         (range (wrap64 (base + 1)) (latest + 1));
  _ ← guard_err (negb (expected_version st =? rp_latest_database_version r))
        (VersionMismatch (rp_latest_database_version r) (expected_version st));
  Ok {| plan_checkpoint := checkpoint; plan_deltas := planned st |}.

(* ------------------------------------------------------------------ *)
(** * What a recovery plan is *)

(** A chain of deltas from one state of the database to another: each delta is
    the only one of its sequence number that the lease holder of the root
    wrote, is valid, and starts where the one before it ends. *)
Inductive delta_chain (r : RootPointerV1) (deltas : list DeltaV1) (page_size : Z) :
    Z → Z → Z → list DeltaV1 → Z → Z → Prop :=
  | chain_nil seq ver pages : delta_chain r deltas page_size seq ver pages [] seq ver
  | chain_cons seq ver pages d ds seq' ver' :
      filter (λ x, d_sequence x = seq + 1 ∧ delta_has_root_identity x r) deltas = [d] →
      delta_validate d = Ok () →
      d_base_database_version d = ver → d_base_database_page_count d = pages →
      d_page_size d = page_size →
      delta_chain r deltas page_size (seq + 1) (d_end_database_version d)
        (d_end_database_page_count d) ds seq' ver' →
      delta_chain r deltas page_size seq ver pages (d :: ds) seq' ver'.

(** The specification of [select_recovery_plan]. *)
Record is_plan (r : RootPointerV1) (checkpoints : list CheckpointV1) (deltas : list DeltaV1)
    (max_delta_replay : Z) (plan : RecoveryPlanV1) : Prop := {
  ip_root : root_validate r = Ok ();
  ip_find : snd <$> list_find (λ c, cp_checkpoint_id c = rp_checkpoint_id r) checkpoints =
              Some (plan_checkpoint plan);
  ip_checkpoint : validate_checkpoint_for_root (plan_checkpoint plan) r = Ok ();
  ip_order : cp_checkpoint_delta_sequence (plan_checkpoint plan) ≤ rp_latest_delta_sequence r;
  ip_bound : rp_latest_delta_sequence r - cp_checkpoint_delta_sequence (plan_checkpoint plan)
               ≤ max_delta_replay;
  ip_chain : delta_chain r deltas (cp_page_size (plan_checkpoint plan))
    (cp_checkpoint_delta_sequence (plan_checkpoint plan))
    (cp_database_version (plan_checkpoint plan))
    (cp_database_page_count (plan_checkpoint plan)) (plan_deltas plan)
    (rp_latest_delta_sequence r) (rp_latest_database_version r)
}.

(* ------------------------------------------------------------------ *)
(** * Lemmas *)

Lemma negb_eqb a b : negb (a =? b) = false ↔ a = b.
Proof. rewrite negb_false_iff. apply Z.eqb_eq. Qed.

Lemma validate_delta_after_state_Ok d r seq ver pages ps :
  validate_delta_after_state d r seq ver pages ps = Ok () ↔
  delta_validate d = Ok () ∧ delta_has_root_identity d r ∧ d_sequence d = seq ∧
  d_base_database_version d = ver ∧ d_base_database_page_count d = pages ∧ d_page_size d = ps.
Proof.
  unfold validate_delta_after_state. split.
  - intros Hv. inv_ok. rewrite !negb_eqb, ?negb_false_iff in *.
    repeat match goal with u : () |- _ => destruct u end.
    split_and!; try done. by apply Is_true_true.
  - intros (-> & Hid & -> & -> & -> & ->). cbn. rewrite Is_true_true in Hid. rewrite Hid. cbn.
    by rewrite !Z.eqb_refl.
Qed.

Lemma candidates_filter r (deltas : list DeltaV1) seq :
  filter (λ d, (d_sequence d =? seq) && delta_has_root_identity d r) deltas =
  filter (λ x, d_sequence x = seq ∧ delta_has_root_identity x r) deltas.
Proof.
  apply list_filter_iff. intros d. rewrite andb_True.
  destruct (Z.eqb_spec (d_sequence d) seq); cbn; tauto.
Qed.

Lemma plan_step_Ok r deltas ps st seq st' :
  plan_step r deltas ps st seq = Ok st' ↔
  ∃ d, filter (λ x, d_sequence x = seq ∧ delta_has_root_identity x r) deltas = [d] ∧
    delta_validate d = Ok () ∧ d_base_database_version d = expected_version st ∧
    d_base_database_page_count d = expected_page_count st ∧ d_page_size d = ps ∧
    st' = {| planned := planned st ++ [d]; expected_version := d_end_database_version d;
             expected_page_count := d_end_database_page_count d |}.
Proof.
  unfold plan_step. rewrite candidates_filter.
  destruct (filter _ deltas) as [|d [|d2 ds]] eqn:Hf; cbn.
  - split; [done|]. by intros (d & ? & _).
  - rewrite bind_Ok. split.
    + intros ([] & Hv%validate_delta_after_state_Ok & [= <-]). exists d. naive_solver.
    + intros (d' & [= <-] & Hv & Hb & Hp & Hs & ->). exists (). split; [|done].
      apply validate_delta_after_state_Ok. assert (d ∈ filter (λ x, d_sequence x = seq ∧
        delta_has_root_identity x r) deltas) as Hin by (rewrite Hf; by left).
      apply list_elem_of_filter in Hin. naive_solver.
  - split; [done|]. by intros (d' & ? & _).
Qed.

Lemma plan_fold r deltas ps n st seq st' :
  fold_io (plan_step r deltas ps) st (range (seq + 1) (seq + Z.of_nat n + 1)) = Ok st' →
  ∃ ds, planned st' = planned st ++ ds ∧
    delta_chain r deltas ps seq (expected_version st) (expected_page_count st) ds
      (seq + Z.of_nat n) (expected_version st').
Proof.
  revert seq st. induction n as [|n IH]; intros seq st.
  - rewrite Z.add_0_r. unfold range. rewrite Z.sub_diag. cbn. intros [= <-].
    exists []. split; [by rewrite app_nil_r|constructor].
  - rewrite range_cons by lia. cbn [fold_io]. intros (st1 & Hs & Hf)%bind_Ok.
    apply plan_step_Ok in Hs as (d & Hd & Hv & Hb & Hp & Hps & ->).
    replace (seq + Z.of_nat (S n) + 1) with (seq + 1 + Z.of_nat n + 1) in Hf by lia.
    apply IH in Hf as (ds & Hpl & Hc). cbn in Hpl, Hc.
    exists (d :: ds). split; [by rewrite Hpl, <-app_assoc|].
    econstructor; [exact Hd|done|done|done|done|].
    by replace (seq + Z.of_nat (S n)) with (seq + 1 + Z.of_nat n) by lia.
Qed.

Lemma chain_fold r deltas ps seq ver pages ds seq' ver' st :
  delta_chain r deltas ps seq ver pages ds seq' ver' →
  expected_version st = ver → expected_page_count st = pages →
  seq ≤ seq' ∧ ∃ st', fold_io (plan_step r deltas ps) st (range (seq + 1) (seq' + 1)) = Ok st' ∧
    planned st' = planned st ++ ds ∧ expected_version st' = ver'.
Proof.
  intros Hc. revert st. induction Hc as [seq ver pages|seq ver pages d ds seq' ver' Hd Hv Hb Hp Hps Hc IH];
    intros st Hver Hpages.
  - split; [lia|]. exists st. unfold range. rewrite Z.sub_diag, app_nil_r. done.
  - set (st1 := {| planned := planned st ++ [d]; expected_version := d_end_database_version d;
                   expected_page_count := d_end_database_page_count d |}).
    destruct (IH st1 eq_refl eq_refl) as (Hle & st' & Hf & Hpl & Hve).
    split; [lia|]. exists st'. cbn in Hpl. rewrite <-app_assoc in Hpl. split_and!; [|done|done].
    rewrite range_cons by lia. cbn [fold_io].
    assert (plan_step r deltas ps st (seq + 1) = Ok st1) as ->; [|exact Hf].
    apply plan_step_Ok. exists d. by subst.
Qed.

Lemma chain_seq_le r deltas ps seq ver pages ds seq' ver' :
  delta_chain r deltas ps seq ver pages ds seq' ver' → seq ≤ seq'.
Proof. induction 1; lia. Qed.

Lemma chain_sequences r deltas ps seq ver pages ds seq' ver' :
  delta_chain r deltas ps seq ver pages ds seq' ver' →
  d_sequence <$> ds = range (seq + 1) (seq' + 1).
Proof.
  induction 1 as [|seq ver pages d ds seq' ver' Hd Hv Hb Hp Hps Hc IH].
  - unfold range. by rewrite Z.sub_diag.
  - assert (seq + 1 ≤ seq') by by eapply chain_seq_le.
    rewrite range_cons by lia. cbn. rewrite IH. f_equal.
    assert (d ∈ filter (λ x, d_sequence x = seq + 1 ∧ delta_has_root_identity x r) deltas) as Hin
      by (rewrite Hd; by left).
    by apply list_elem_of_filter in Hin as [[? _] _].
Qed.

(* ------------------------------------------------------------------ *)
(** * Theorems *)

Lemma recovery_plan_spec r checkpoints deltas max plan :
  rp_latest_delta_sequence r < u64_max →
  Forall (λ c, 0 ≤ cp_checkpoint_delta_sequence c) checkpoints →
  select_recovery_plan r checkpoints deltas max = Ok plan ↔
  is_plan r checkpoints deltas max plan.
Proof.
  intros Hlatest Hcps. unfold select_recovery_plan.
  destruct (snd <$> list_find _ checkpoints) as [c|] eqn:Hfind.
  2: { split; [intros Hs; inv_ok; done|]. intros []. congruence. }
  assert (0 ≤ cp_checkpoint_delta_sequence c) as Hc0.
  { apply fmap_Some in Hfind as ([i c'] & [Hi _]%list_find_Some & ->).
    rewrite Forall_lookup in Hcps. by apply (Hcps i). }
  cbn zeta. cbn [ok_or]. split.
  - intros Hs. inv_ok. simplify_eq. rewrite negb_eqb in *.
    repeat match goal with u : () |- _ => destruct u end.
    match goal with H : (_ <? _) = false |- _ => apply Z.ltb_ge in H end.
    match goal with H : (_ <? _) = false |- _ => apply Z.ltb_ge in H end.
    match goal with H : fold_io _ _ _ = Ok _ |- _ => rename H into Hf end.
    rewrite wrap64_id in Hf by (unfold is_u64, u64_max in *; lia).
    match type of Hf with fold_io _ _ (range (cp_checkpoint_delta_sequence ?x + 1) _) = _ =>
      set (n := Z.to_nat (rp_latest_delta_sequence r - cp_checkpoint_delta_sequence x)) in *;
      replace (rp_latest_delta_sequence r + 1) with
        (cp_checkpoint_delta_sequence x + Z.of_nat n + 1) in Hf by lia;
      apply plan_fold in Hf as (ds & Hpl & Hch);
      replace (cp_checkpoint_delta_sequence x + Z.of_nat n) with (rp_latest_delta_sequence r)
        in Hch by lia
    end.
    cbn in Hpl, Hch. split; cbn; try done; try lia. congruence.
  - intros [Hr Hf Hv Ho Hb Hch]. assert (c = plan_checkpoint plan) as Hc by congruence.
    subst c. rewrite Hr. cbn. rewrite Hv. cbn.
    destruct (Z.ltb_spec (rp_latest_delta_sequence r)
      (cp_checkpoint_delta_sequence (plan_checkpoint plan))); [lia|]. cbn.
    destruct (Z.ltb_spec max (rp_latest_delta_sequence r -
      cp_checkpoint_delta_sequence (plan_checkpoint plan))); [lia|]. cbn.
    rewrite wrap64_id by (unfold is_u64, u64_max in *; lia).
    eapply (chain_fold _ _ _ _ _ _ _ _ _ {| planned := [];
      expected_version := cp_database_version (plan_checkpoint plan);
      expected_page_count := cp_database_page_count (plan_checkpoint plan) |})
      in Hch as (_ & st & -> & Hpl & Hve); [|done|done]. cbn.
    rewrite Hve, Z.eqb_refl. cbn. rewrite Hpl. by destruct plan.
Qed.

(** C9. [select_recovery_plan] returns a plan exactly when the specification has
    one: the root's checkpoint, and the unbroken chain of that lease holder's
    valid deltas, one per sequence number, from the checkpoint's sequence,
    version, page count and page size up to the root's sequence and version,
    within the replay bound.  The planned sequence numbers are consecutive. *)
Theorem recovery_plan_iff r checkpoints deltas max plan :
  rp_latest_delta_sequence r < u64_max →
  Forall (λ c, 0 ≤ cp_checkpoint_delta_sequence c) checkpoints →
  (select_recovery_plan r checkpoints deltas max = Ok plan ↔
   is_plan r checkpoints deltas max plan) ∧
  (is_plan r checkpoints deltas max plan →
   d_sequence <$> plan_deltas plan =
     range (cp_checkpoint_delta_sequence (plan_checkpoint plan) + 1)
       (rp_latest_delta_sequence r + 1)).
Proof.
  intros Hlatest Hcps. split; [by apply recovery_plan_spec|]. intros [_ _ _ _ _ Hc].
  by apply chain_sequences in Hc.
Qed.

(** The deltas of the root's lease holder. *)
Definition own_deltas (r : RootPointerV1) (deltas : list DeltaV1) : list DeltaV1 :=
  filter (λ d, delta_has_root_identity d r) deltas.

Lemma candidates_own r deltas seq :
  filter (λ x, d_sequence x = seq ∧ delta_has_root_identity x r) deltas =
  filter (λ x, d_sequence x = seq) (own_deltas r deltas).
Proof. unfold own_deltas. by rewrite list_filter_filter. Qed.

Lemma plan_step_own r deltas1 deltas2 ps st seq :
  own_deltas r deltas1 ≡ₚ own_deltas r deltas2 →
  plan_step r deltas1 ps st seq = plan_step r deltas2 ps st seq.
Proof.
  intros Hp. unfold plan_step. rewrite !candidates_filter, !candidates_own.
  assert (filter (λ x, d_sequence x = seq) (own_deltas r deltas1) ≡ₚ
    filter (λ x, d_sequence x = seq) (own_deltas r deltas2)) as Hf by by rewrite Hp.
  destruct (filter _ (own_deltas r deltas1)) as [|d1 [|d1' l1]] eqn:H1,
    (filter _ (own_deltas r deltas2)) as [|d2 [|d2' l2]] eqn:H2;
    pose proof (Permutation_length Hf) as Hl; try discriminate Hl; try done.
  by apply Permutation_singleton_r in Hf as [= ->].
Qed.

(** Recovery reads only what the root's lease holder wrote: deltas of other
    writers, epochs, incarnations or prefixes, and the order in which the
    deltas are listed, change neither the plan nor the error. *)
Theorem recovery_ignores_foreign_deltas r checkpoints deltas1 deltas2 max :
  own_deltas r deltas1 ≡ₚ own_deltas r deltas2 →
  select_recovery_plan r checkpoints deltas1 max =
  select_recovery_plan r checkpoints deltas2 max.
Proof.
  intros Hp. unfold select_recovery_plan. cbn zeta.
  assert (∀ ps st l, fold_io (plan_step r deltas1 ps) st l = fold_io (plan_step r deltas2 ps) st l)
    as Hfold.
  { intros ps st l. revert st. induction l as [|seq l IH]; intros st; [done|]. cbn [fold_io].
    rewrite (plan_step_own r deltas1 deltas2) by done.
    destruct (plan_step r deltas2 ps st seq); cbn; auto. }
  destruct (root_validate r); [|done|done].
  destruct (ok_or _ _) as [c| |]; [|done|done]. cbn.
  destruct (validate_checkpoint_for_root c r); [|done|done]. cbn. by rewrite Hfold.
Qed.

Lemma update_from_Ok r p :
  validate_update_from r p = Ok () ↔
  root_validate r = Ok () ∧ root_validate p = Ok () ∧
  rp_tenant_scope r = rp_tenant_scope p ∧ rp_database_id r = rp_database_id p ∧
  rp_database_incarnation_id r = rp_database_incarnation_id p ∧
  rp_object_prefix r = rp_object_prefix p ∧ rp_checkpoint_id r ≠ ""%string ∧
  rp_root_generation p < rp_root_generation r ∧
  rp_latest_delta_sequence p ≤ rp_latest_delta_sequence r ∧
  rp_latest_database_version p ≤ rp_latest_database_version r ∧
  rp_lease_epoch p ≤ rp_lease_epoch r.
Proof.
  unfold validate_update_from. split.
  - intros Hv. inv_ok. repeat match goal with u : () |- _ => destruct u end.
    rewrite !orb_false_iff, !negb_false_iff, !bool_decide_eq_true, bool_decide_eq_false in *.
    rewrite ?Z.ltb_ge, ?Z.leb_gt in *. naive_solver.
  - intros (-> & -> & -> & -> & -> & -> & Hc & Hg & Hs & Hver & He). cbn.
    rewrite !(bool_decide_eq_true_2 (_ = _)) by done. rewrite bool_decide_eq_false_2 by done. cbn.
    rewrite (proj2 (Z.leb_gt _ _) Hg), (proj2 (Z.ltb_ge _ _) Hs), (proj2 (Z.ltb_ge _ _) Hver). cbn.
    by rewrite (proj2 (Z.ltb_ge _ _) He).
Qed.

(** Accepted root updates form a strict order: a root never updates itself,
    updates compose, and no sequence of updates leads back, since the
    generation strictly grows while sequence, version and lease epoch never
    shrink and the identity stays. *)
Theorem root_updates_strict_order a b c :
  validate_update_from a a ≠ Ok () ∧
  (validate_update_from b a = Ok () → validate_update_from c b = Ok () →
    validate_update_from c a = Ok ()) ∧
  (validate_update_from b a = Ok () →
    rp_root_generation a < rp_root_generation b ∧
    rp_latest_delta_sequence a ≤ rp_latest_delta_sequence b ∧
    rp_lease_epoch a ≤ rp_lease_epoch b ∧ validate_update_from a b ≠ Ok ()).
Proof.
  rewrite !update_from_Ok. split_and!; [lia| |].
  - intros Hb Hc. destruct Hb as (? & ? & ? & ? & ? & ? & ? & ? & ? & ? & ?).
    destruct Hc as (? & ? & ? & ? & ? & ? & ? & ? & ? & ? & ?).
    split_and!; try congruence; lia.
  - intros (? & ? & ? & ? & ? & ? & ? & ? & ? & ? & ?). split_and!; [lia..|].
    intros (? & ? & ? & ? & ? & ? & ? & ? & _). lia.
Qed.

(** [r'] is [r] advanced by the delta [d]. *)
Record advanced_root (r r' : RootPointerV1) (d : DeltaV1) : Prop := {
  ar_tenant : rp_tenant_scope r' = rp_tenant_scope r;
  ar_db : rp_database_id r' = rp_database_id r;
  ar_inc : rp_database_incarnation_id r' = rp_database_incarnation_id r;
  ar_prefix : rp_object_prefix r' = rp_object_prefix r;
  ar_writer : rp_writer_id r' = rp_writer_id r;
  ar_epoch : rp_lease_epoch r' = rp_lease_epoch r;
  ar_checkpoint : rp_checkpoint_id r' = rp_checkpoint_id r;
  ar_sequence : rp_latest_delta_sequence r' = d_sequence d;
  ar_version : rp_latest_database_version r' = d_end_database_version d
}.

Lemma identity_advanced r r' d x :
  advanced_root r r' d → delta_has_root_identity x r' = delta_has_root_identity x r.
Proof.
  intros [Ht Hdb Hi Hpr Hw He _ _ _]. unfold delta_has_root_identity.
  by rewrite Ht, Hdb, Hi, Hpr, Hw, He.
Qed.

(** The page count a chain of deltas leads to. *)
Definition chain_pages (pages : Z) (ds : list DeltaV1) : Z :=
  foldl (λ _ d, d_end_database_page_count d) pages ds.

Lemma chain_snoc r r' d deltas ps seq ver pages ds seq' ver' :
  delta_chain r deltas ps seq ver pages ds seq' ver' → advanced_root r r' d →
  delta_validate d = Ok () → delta_has_root_identity d r → d_sequence d = seq' + 1 →
  d_base_database_version d = ver' → d_base_database_page_count d = chain_pages pages ds →
  d_page_size d = ps → (∀ x, x ∈ deltas → d_sequence x = seq' + 1 → ¬ delta_has_root_identity x r) →
  delta_chain r' (deltas ++ [d]) ps seq ver pages (ds ++ [d]) (seq' + 1) (d_end_database_version d).
Proof.
  intros Hc Har Hv Hid Hseq Hver Hpages Hps Hnew.
  assert (∀ s, filter (λ x, d_sequence x = s ∧ delta_has_root_identity x r') (deltas ++ [d]) =
    filter (λ x, d_sequence x = s ∧ delta_has_root_identity x r) deltas ++
    filter (λ x, d_sequence x = s ∧ delta_has_root_identity x r) [d]) as Hfilter.
  { intros s. rewrite <-filter_app. apply list_filter_iff. intros x.
    by rewrite (identity_advanced _ _ _ _ Har). }
  induction Hc as [seq ver pages|seq ver pages d0 ds seq' ver' Hd Hv0 Hb Hp Hps0 Hc IH].
  - econstructor; [|done|done|done|done|constructor]. rewrite Hfilter.
    assert (filter (λ x, d_sequence x = seq + 1 ∧ delta_has_root_identity x r) deltas = []) as ->.
    + destruct (filter _ deltas) as [|x l] eqn:Hx; [done|].
      assert (x ∈ filter (λ x, d_sequence x = seq + 1 ∧ delta_has_root_identity x r) deltas) as Hin
        by (rewrite Hx; by left).
      apply list_elem_of_filter in Hin as [[Hs Hi] Hin]. by destruct (Hnew x).
    + by rewrite filter_cons_True.
  - cbn. econstructor; [|done|done|done|done|by apply IH]. rewrite Hfilter, Hd.
    rewrite filter_cons_False, filter_nil, app_nil_r; [done|].
    assert (seq + 1 ≤ seq') by by eapply chain_seq_le.
    intros [Hs _]. lia.
Qed.

(** Publishing works: when a delta accepted after the root (and starting
    from the page count and page size the recovered state has) is stored and
    the root is advanced to it, recovery under the new root plans the old
    deltas followed by the new one. *)
Theorem published_delta_recovered r r' checkpoints deltas max plan d :
  rp_latest_delta_sequence r + 1 < u64_max → 0 ≤ rp_latest_delta_sequence r →
  Forall (λ c, 0 ≤ cp_checkpoint_delta_sequence c) checkpoints →
  select_recovery_plan r checkpoints deltas max = Ok plan →
  validate_after_root d r = Ok () →
  d_base_database_page_count d =
    chain_pages (cp_database_page_count (plan_checkpoint plan)) (plan_deltas plan) →
  d_page_size d = cp_page_size (plan_checkpoint plan) →
  (∀ x, x ∈ deltas → d_sequence x = d_sequence d → ¬ delta_has_root_identity x r) →
  advanced_root r r' d → root_validate r' = Ok () →
  select_recovery_plan r' checkpoints (deltas ++ [d]) (max + 1) =
    Ok {| plan_checkpoint := plan_checkpoint plan; plan_deltas := plan_deltas plan ++ [d] |}.
Proof.
  intros Hlatest H0 Hcps Hplan Hd Hpages Hps Hnew Har Hr'.
  apply recovery_plan_spec in Hplan as [_ Hf Hv Ho Hb Hc]; [|unfold u64_max in *; lia|done].
  unfold validate_after_root in Hd. inv_ok. repeat match goal with u : () |- _ => destruct u end.
  rewrite !negb_eqb, negb_false_iff in *. rewrite wrap64_id in * by (unfold is_u64, u64_max in *; lia).
  match goal with H : d_sequence d = _ |- _ => rename H into Hseq end.
  match goal with H : delta_has_root_identity d r = true |- _ => rename H into Hid end.
  match goal with H : delta_validate d = Ok () |- _ => rename H into Hdv end.
  assert (d_base_database_version d < d_end_database_version d) as Hgrow.
  { unfold delta_validate in Hdv. inv_ok.
    match goal with H : (d_end_database_version d <=? _) = false |- _ => by apply Z.leb_gt in H end. }
  pose proof Har as [Ht Hdb Hi Hpr Hw He Hcp Hs' Hver'].
  apply recovery_plan_spec; [rewrite Hs', Hseq; done|done|]. split; cbn.
  - done.
  - by rewrite <-Hf, Hcp.
  - unfold validate_checkpoint_for_root in Hv |- *.
    destruct (checkpoint_validate _); [|done|done]. cbn in Hv |- *.
    apply bind_Ok in Hv as (u & Hg & Hv). apply guard_err_Ok in Hg, Hv.
    rewrite Ht, Hdb, Hi, Hpr, Hw, He, Hcp, Hg. cbn.
    rewrite Hver'. apply Z.ltb_ge in Hv.
    by rewrite (proj2 (Z.ltb_ge _ _)) by lia.
  - lia.
  - lia.
  - rewrite Hs', Hver', Hseq. eapply chain_snoc; try done; [by apply Is_true_true|].
    intros x Hx Hxs. apply Hnew; [done|lia].
Qed.

(* ------------------------------------------------------------------ *)
(** * Witnesses *)

Definition example_root (generation seq ver : Z) : RootPointerV1 := {|
  rp_kind := RootPointer; rp_format_version := 1; rp_tenant_scope := "t";
  rp_database_id := "db"; rp_database_incarnation_id := "i1"; rp_object_prefix := "t/db";
  rp_root_generation := generation; rp_writer_id := "w"; rp_lease_epoch := 3;
  rp_checkpoint_id := "c1"; rp_latest_delta_sequence := seq; rp_latest_database_version := ver;
  rp_state_checksum := 9
|}.

Definition example_checkpoint : CheckpointV1 := {|
  cp_kind := Checkpoint; cp_format_version := 1; cp_tenant_scope := "t";
  cp_database_id := "db"; cp_database_incarnation_id := "i1"; cp_object_prefix := "t/db";
  cp_writer_id := "w"; cp_lease_epoch := 3; cp_checkpoint_id := "c1";
  cp_checkpoint_delta_sequence := 4; cp_database_version := 10; cp_page_size := 2;
  cp_database_page_count := 3;
  cp_page_objects := [{| po_first_page := 0; po_page_count := 3; po_key := "t/db/p"; po_checksum := 7 |}]
|}.

Definition delta_with_checksum (sum : Z) (writer : string) (seq base end_ pages0 pages1 : Z)
    (changed : list DeltaPageV1) : DeltaV1 := {|
  d_kind := Delta; d_format_version := 1; d_tenant_scope := "t"; d_database_id := "db";
  d_database_incarnation_id := "i1"; d_object_prefix := "t/db"; d_writer_id := writer;
  d_lease_epoch := 3; d_base_database_version := base; d_end_database_version := end_;
  d_sequence := seq; d_page_size := 2; d_base_database_page_count := pages0;
  d_end_database_page_count := pages1; d_committed_boundary := AfterSqliteCommit;
  d_changed_pages := changed; d_checksum := sum; d_replay_idempotency_key := "k"
|}.

Definition example_delta (writer : string) (seq base end_ pages0 pages1 : Z)
    (changed : list DeltaPageV1) : DeltaV1 :=
  delta_with_checksum
    (fixture_checksum (delta_with_checksum 0 writer seq base end_ pages0 pages1 changed))
    writer seq base end_ pages0 pages1 changed.

Definition example_deltas : list DeltaV1 :=
  [example_delta "w" 5 10 12 3 4 [{| dp_page_number := 3; dp_bytes := [Byte.x41; Byte.x42] |}];
   example_delta "other" 5 10 11 3 3 []].

Definition example_plan : RecoveryPlanV1 := {|
  plan_checkpoint := example_checkpoint;
  plan_deltas := [example_delta "w" 5 10 12 3 4
    [{| dp_page_number := 3; dp_bytes := [Byte.x41; Byte.x42] |}]]
|}.

Lemma example_plan_selected :
  select_recovery_plan (example_root 2 5 12) [example_checkpoint] example_deltas 8 =
    Ok example_plan.
Proof. vm_compute. reflexivity. Qed.

Lemma recovery_plan_iff_witness :
  is_plan (example_root 2 5 12) [example_checkpoint] example_deltas 8 example_plan.
Proof.
  apply (recovery_plan_iff (example_root 2 5 12) [example_checkpoint] example_deltas 8 example_plan);
    [reflexivity | repeat constructor; cbn; lia | exact example_plan_selected].
Defined.

Lemma recovery_ignores_foreign_deltas_witness :
  select_recovery_plan (example_root 2 5 12) [example_checkpoint] example_deltas 8 =
  select_recovery_plan (example_root 2 5 12) [example_checkpoint] (take 1 example_deltas) 8.
Proof.
  apply (recovery_ignores_foreign_deltas (example_root 2 5 12) [example_checkpoint]).
  vm_compute. reflexivity.
Defined.

Lemma published_delta_recovered_witness :
  plan_deltas <$> match select_recovery_plan (example_root 3 6 13) [example_checkpoint]
    (example_deltas ++ [example_delta "w" 6 12 13 4 4 []]) (8 + 1) with Ok p => Some p | _ => None end =
  Some (plan_deltas example_plan ++ [example_delta "w" 6 12 13 4 4 []]).
Proof.
  rewrite (published_delta_recovered (example_root 2 5 12) (example_root 3 6 13)
    [example_checkpoint] example_deltas 8 example_plan (example_delta "w" 6 12 13 4 4 []));
    [reflexivity | reflexivity | cbn; lia | repeat constructor; cbn; lia
    | exact example_plan_selected | vm_compute; reflexivity | reflexivity | reflexivity | |
    by split | vm_compute; reflexivity].
  intros x Hx Hs. exfalso. cbn in Hs. unfold example_deltas in Hx. rewrite !elem_of_cons in Hx.
  destruct Hx as [->|[->|Hx]]; [discriminate Hs | discriminate Hs | by apply not_elem_of_nil in Hx].
Defined.
