(* ===== verification/File.v ===== *)
(** Files as byte lists: the positioned reads and writes ([read_exact_at],
    [write_all_at]), [set_len] and hole punching of the local cache file, with
    the lemmas that say which bytes each of them changes. *)

From S2P Require Import Prelude.

(** [File::set_len]: cut, or extend with zeros. *)
Definition file_set_len (n : Z) (f : bytes) : bytes :=
  take (Z.to_nat n) f ++ zeros (Z.to_nat n - length f).

(** [write_all_at]: a gap before the offset reads as zeros; writing nothing
    leaves the file alone. *)
Definition file_write_at (data : bytes) (off : Z) (f : bytes) : bytes :=
  match data with
  | [] => f
  | _ => let n := Z.to_nat off in
         take n f ++ zeros (n - length f) ++ data ++ drop (n + length data) f
  end.

(** [read_exact_at]: all [n] bytes, or nothing. *)
Definition file_read_at (n off : Z) (f : bytes) : option bytes :=
  if n =? 0 then Some [] else slice off (off + n) f.

(** [fallocate(PUNCH_HOLE | KEEP_SIZE)]. *)
Definition file_punch (off len : Z) (f : bytes) : bytes :=
  take (Z.to_nat off) f ++
  zeros (length (take (Z.to_nat len) (drop (Z.to_nat off) f))) ++
  drop (Z.to_nat off + Z.to_nat len) f.

Lemma length_file_set_len n f : length (file_set_len n f) = Z.to_nat n.
Proof. unfold file_set_len, zeros. rewrite length_app, length_take, length_replicate. lia. Qed.

Lemma length_file_write_at d off f :
  0 ≤ off → d ≠ [] →
  length (file_write_at d off f) = Nat.max (length f) (Z.to_nat off + length d).
Proof.
  intros Ho Hd. destruct d as [|b d]; [done|]. unfold file_write_at, zeros.
  rewrite !length_app, length_take, length_replicate, length_drop. cbn [length]. lia.
Qed.

Lemma length_file_punch off len f : length (file_punch off len f) = length f.
Proof.
  unfold file_punch, zeros. rewrite !length_app, length_replicate, !length_take, !length_drop. lia.
Qed.

Lemma lookup_zeros n i : (i < n)%nat → zeros n !! i = Some Byte.x00.
Proof. intros Hi. unfold zeros. by apply lookup_replicate_2. Qed.

(** Two files that agree on a range read alike there. *)
Lemma file_read_at_ext n off f g :
  (∀ i, (Z.to_nat off ≤ i < Z.to_nat (off + n))%nat → f !! i = g !! i) →
  0 ≤ n → file_read_at n off f = file_read_at n off g.
Proof.
  intros Heq Hn. unfold file_read_at. destruct (Z.eqb_spec n 0); [done|].
  assert (∀ f g : bytes, (∀ i, (Z.to_nat off ≤ i < Z.to_nat (off + n))%nat → f !! i = g !! i) →
    ∀ k, slice off (off + n) f = Some k → slice off (off + n) g = Some k) as Hdir.
  { clear f g Heq. intros f g Heq k. rewrite !slice_Some. intros (? & Hl & ->).
    split; [done|]. split.
    - destruct (decide (off + n ≤ Z.of_nat (length g))); [done|]. exfalso.
      specialize (Heq (Z.to_nat (off + n - 1)) ltac:(lia)).
      rewrite (lookup_ge_None_2 g) in Heq by lia. apply lookup_ge_None in Heq. lia.
    - apply list_eq. intros i. destruct (decide (i < Z.to_nat n)%nat).
      + rewrite !lookup_take_lt, !lookup_drop by lia. apply Heq. lia.
      + by rewrite !lookup_take_ge by lia. }
  destruct (slice off (off + n) f) as [k|] eqn:Hf.
  - symmetry. by apply (Hdir f g).
  - destruct (slice off (off + n) g) as [k|] eqn:Hg; [|done].
    apply (Hdir g f) in Hg; [congruence|]. intros i Hi. by rewrite Heq.
Qed.

(** Bytes outside the written range are kept. *)
Lemma lookup_write_out d off f i :
  0 ≤ off → (i < length f)%nat → (i < Z.to_nat off ∨ Z.to_nat off + length d ≤ i)%nat →
  file_write_at d off f !! i = f !! i.
Proof.
  intros Ho Hi Hout. destruct d as [|b d]; [done|]. unfold file_write_at.
  destruct Hout as [Hlt|Hge].
  - rewrite lookup_app_l by (rewrite length_take; lia). by apply lookup_take_lt.
  - rewrite lookup_app_r by (rewrite length_take; lia).
    rewrite lookup_app_r by (unfold zeros; rewrite length_take, length_replicate; lia).
    rewrite lookup_app_r by (unfold zeros; rewrite length_take, length_replicate; cbn [length] in *; lia).
    rewrite lookup_drop. f_equal. unfold zeros. rewrite length_take, length_replicate. cbn [length] in *. lia.
Qed.

Lemma read_write_same d off f :
  0 ≤ off → file_read_at (Z.of_nat (length d)) off (file_write_at d off f) = Some d.
Proof.
  intros Ho. unfold file_read_at. destruct d as [|b d]; [done|].
  destruct (Z.eqb_spec (Z.of_nat (length (b :: d))) 0) as [H0|_]; [cbn in H0; lia|].
  unfold file_write_at. rewrite app_assoc. apply slice_app; [|done].
  unfold zeros. rewrite length_app, length_take, length_replicate. lia.
Qed.

Lemma read_write_disjoint n off' d off f :
  0 ≤ off → 0 ≤ off' → 0 ≤ n → off' + n ≤ Z.of_nat (length f) →
  off' + n ≤ off ∨ off + Z.of_nat (length d) ≤ off' →
  file_read_at n off' (file_write_at d off f) = file_read_at n off' f.
Proof.
  intros Ho Ho' Hn Hf Hd. apply file_read_at_ext; [|done]. intros i Hi.
  apply lookup_write_out; lia.
Qed.

(** Extending the file keeps every complete read. *)
Lemma read_set_len n off m f :
  0 ≤ off → 0 ≤ n → off + n ≤ Z.of_nat (length f) → off + n ≤ m →
  file_read_at n off (file_set_len m f) = file_read_at n off f.
Proof.
  intros Ho Hn Hf Hm. apply file_read_at_ext; [|done]. intros i Hi.
  unfold file_set_len. rewrite lookup_app_l by (rewrite length_take; lia).
  apply lookup_take_lt. lia.
Qed.

Lemma read_punch_disjoint n off' len off f :
  0 ≤ off → 0 ≤ len → 0 ≤ off' → 0 ≤ n → off' + n ≤ Z.of_nat (length f) →
  off' + n ≤ off ∨ off + len ≤ off' →
  file_read_at n off' (file_punch off len f) = file_read_at n off' f.
Proof.
  intros Ho Hl Ho' Hn Hf Hd. apply file_read_at_ext; [|done]. intros i Hi.
  unfold file_punch. destruct Hd as [Hd|Hd].
  - rewrite lookup_app_l by (rewrite length_take; lia). apply lookup_take_lt. lia.
  - rewrite lookup_app_r by (rewrite length_take; lia).
    rewrite lookup_app_r by (unfold zeros; rewrite length_replicate, !length_take, length_drop; lia).
    rewrite lookup_drop. f_equal. unfold zeros. rewrite length_replicate, !length_take, length_drop. lia.
Qed.

Lemma file_read_at_Some n off f d :
  0 ≤ off → 0 < n → file_read_at n off f = Some d ↔
  off + n ≤ Z.of_nat (length f) ∧ d = take (Z.to_nat n) (drop (Z.to_nat off) f).
Proof.
  intros Ho Hn. unfold file_read_at. destruct (Z.eqb_spec n 0); [lia|].
  rewrite slice_Some. replace (off + n - off) with n by lia. naive_solver lia.
Qed.

Lemma file_read_at_length n off f d :
  0 ≤ n → file_read_at n off f = Some d → Z.of_nat (length d) = n.
Proof.
  intros Hn. unfold file_read_at. destruct (Z.eqb_spec n 0) as [->|]; [by intros [= <-]|].
  intros Hd%slice_length. lia.
Qed.

(** A read inside a read. *)
Lemma file_read_at_sub m off f d a n :
  0 ≤ off → 0 ≤ a → 0 < n → a + n ≤ m → file_read_at m off f = Some d →
  file_read_at n (off + a) f = Some (take (Z.to_nat n) (drop (Z.to_nat a) d)).
Proof.
  intros Ho Ha Hn Hm Hd. apply file_read_at_Some in Hd as [Hl ->]; [|lia|lia].
  apply file_read_at_Some; [lia|lia|]. split; [lia|].
  rewrite skipn_firstn_comm, drop_drop, take_take. f_equal; [lia|]. f_equal. lia.
Qed.
