(* ===== verification/DiskCache.v ===== *)
(** The local disk cache (src/src/tiered/disk_cache.rs): the compressed-page
    index, the cache file with its three page formats (plain, encrypted slots,
    compressed blobs), the in-memory page cache, the group states, eviction and
    compaction.  A run is a sequence of operations, each one step of one
    thread, also where the code releases its locks inside an operation.  System
    calls may fail ([faults]), nonces are drawn from [nonce],
    the clock is an argument. *)

From S2P Require Import Prelude Float64 CacheTracking Manifest LocalState Compress File.

(* ------------------------------------------------------------------ *)
(** * The index of the compressed cache *)

Record CacheIndex := { entries : gmap Z CacheIndexEntry; next_offset : Z }.

#[export] Instance CacheIndex_settable : Settable CacheIndex :=
  {| rebuild := λ i, {| entries := entries i; next_offset := next_offset i |} |}.

Definition empty_index : CacheIndex := {| entries := ∅; next_offset := 0 |}.

(** [CacheIndex::new_with_state]. *)
Definition index_new_with_state (state : option CacheIndexState) : CacheIndex :=
  match state with
  | Some s => {| entries := cis_entries s; next_offset := cis_next_offset s |}
  | None => empty_index
  end.

Definition index_get (i : CacheIndex) (page_num : Z) : option CacheIndexEntry :=
  entries i !! page_num.

Definition index_insert (i : CacheIndex) (page_num len : Z) : CacheIndex * Z :=
  let offset := next_offset i in
  ({| entries := <[page_num := {| ce_offset := offset; compressed_len := len |}]> (entries i);
      next_offset := wrap64 (offset + len) |}, offset).

Definition index_insert_at (i : CacheIndex) (page_num offset len : Z) : CacheIndex :=
  let fin := wrap64 (offset + len) in
  {| entries := <[page_num := {| ce_offset := offset; compressed_len := len |}]> (entries i);
     next_offset := if next_offset i <? fin then fin else next_offset i |}.

Definition index_contains (i : CacheIndex) (page_num : Z) : bool :=
  bool_decide (is_Some (entries i !! page_num)).

(** The iterator's [sum] of [u64]s. *)
Definition live_bytes `{HashIter} (i : CacheIndex) : Z :=
  foldl (λ acc kv, wrap64 (acc + compressed_len kv.2)) 0 (hiter (entries i)).

Definition index_remove (i : CacheIndex) (page_num : Z) : CacheIndex :=
  i <| entries ::= delete page_num |>.

Definition index_clear (i : CacheIndex) : CacheIndex := empty_index.

Definition to_state (i : CacheIndex) : CacheIndexState :=
  {| cis_entries := entries i; cis_next_offset := next_offset i |}.

(* ------------------------------------------------------------------ *)
(** * The state of the cache *)

Inductive GroupState := GroupNone | Fetching | Present.

#[export] Instance GroupState_eq_dec : EqDecision GroupState.
Proof. solve_decision. Defined.

(** What a system call on the cache file returns instead of succeeding; a
    failing write may have written a prefix. *)
Record Fault := { f_kind : io_kind; f_written : nat }.

(** The fields that never change after construction. *)
Record CacheConfig (K : Type) := {
  ttl_secs : Z;
  pages_per_group : Z;
  sub_pages_per_frame : Z;
  encryption_key : option K;
  cache_compression : bool;
  mem_cache_budget : Z
}.
Arguments ttl_secs {_}. Arguments pages_per_group {_}. Arguments sub_pages_per_frame {_}.
Arguments encryption_key {_}. Arguments cache_compression {_}. Arguments mem_cache_budget {_}.

Record CacheStats := {
  stat_evictions : Z; stat_bytes_evicted : Z; stat_peak_cache_bytes : Z;
  stat_last_eviction_count : Z; eviction_counter : Z
}.

#[export] Instance CacheStats_settable : Settable CacheStats := {| rebuild := λ s, {|
  stat_evictions := stat_evictions s; stat_bytes_evicted := stat_bytes_evicted s;
  stat_peak_cache_bytes := stat_peak_cache_bytes s;
  stat_last_eviction_count := stat_last_eviction_count s;
  eviction_counter := eviction_counter s |} |}.

(** A slot of [mem_cache] is null or points to an immutable page.  [draws]
    counts the nonces drawn, [faults] holds the outcome of the system calls to
    come (all succeed once it is empty). *)
Record DiskCache (K : Type) := {
  cfg : CacheConfig K;
  page_size : Z;
  cache_file : bytes;
  cache_file_len : Z;
  mem_cache : option (list (option bytes));
  mem_cache_bytes : Z;
  generation : Z;
  tracker : SubChunkTracker;
  bitmap : PageBitmap;
  group_states : list GroupState;
  interior_groups : gset Z;
  interior_pages : gset Z;
  index_pages : gset Z;
  group_access : gmap Z Z;
  group_pages : list (list Z);
  cache_index : CacheIndex;
  tainted : bool;
  cache_budget_bytes : Z;
  stats : CacheStats;
  state_file : option bytes;
  draws : Z;
  faults : list (option Fault)
}.
Arguments cfg {_}. Arguments page_size {_}. Arguments cache_file {_}.
Arguments cache_file_len {_}. Arguments mem_cache {_}. Arguments mem_cache_bytes {_}.
Arguments generation {_}. Arguments tracker {_}. Arguments bitmap {_}.
Arguments group_states {_}. Arguments interior_groups {_}. Arguments interior_pages {_}.
Arguments index_pages {_}. Arguments group_access {_}. Arguments group_pages {_}.
Arguments cache_index {_}. Arguments tainted {_}. Arguments cache_budget_bytes {_}.
Arguments stats {_}. Arguments state_file {_}. Arguments draws {_}. Arguments faults {_}.

#[export] Instance DiskCache_settable K : Settable (DiskCache K) := {| rebuild := λ c, {|
  cfg := cfg c; page_size := page_size c; cache_file := cache_file c;
  cache_file_len := cache_file_len c; mem_cache := mem_cache c;
  mem_cache_bytes := mem_cache_bytes c; generation := generation c; tracker := tracker c;
  bitmap := bitmap c; group_states := group_states c; interior_groups := interior_groups c;
  interior_pages := interior_pages c; index_pages := index_pages c;
  group_access := group_access c; group_pages := group_pages c; cache_index := cache_index c;
  tainted := tainted c; cache_budget_bytes := cache_budget_bytes c; stats := stats c;
  state_file := state_file c; draws := draws c; faults := faults c |} |}.

(* ------------------------------------------------------------------ *)
(** * Programs over the cache: state, errors, panics *)

Definition M (K A : Type) : Type := DiskCache K → io A * DiskCache K.

#[export] Instance M_ret K : MRet (M K) := λ A a c, (Ok a, c).
#[export] Instance M_bind K : MBind (M K) := λ A B f m c,
  match m c with
  | (Ok a, c') => f a c'
  | (Err e, c') => (Err e, c')
  | (Panic, c') => (Panic, c')
  end.

Definition lift {K A} (o : io A) : M K A := λ c, (o, c).
Definition gets {K A} (f : DiskCache K → A) : M K A := λ c, (Ok (f c), c).
Definition modify {K} (f : DiskCache K → DiskCache K) : M K () := λ c, (Ok (), f c).
Definition throw {K A} (e : io_kind) : M K A := λ c, (Err e, c).

(** [m.is_ok()] / [match m { Ok(a) => .., Err(e) => .. }]. *)
Definition try_io {K A} (m : M K A) : M K (io_kind + A) := λ c,
  match m c with
  | (Ok a, c') => (Ok (inr a), c')
  | (Err e, c') => (Ok (inl e), c')
  | (Panic, c') => (Panic, c')
  end.

(** A [for] loop. *)
Fixpoint for_each {K A} (f : A → M K ()) (l : list A) : M K () :=
  match l with
  | [] => mret ()
  | x :: l => _ ← f x; for_each f l
  end.

Fixpoint fold_m {K A B} (f : A → B → M K A) (acc : A) (l : list B) : M K A :=
  match l with
  | [] => mret acc
  | x :: l => acc ← f acc x; fold_m f acc l
  end.

Fixpoint take_while {A} (P : A → bool) (l : list A) : list A :=
  match l with
  | [] => []
  | x :: l => if P x then x :: take_while P l else []
  end.

(* ------------------------------------------------------------------ *)
(** * System calls on the cache file *)

Definition pop_fault {K} : M K (option Fault) := λ c,
  match faults c with
  | [] => (Ok None, c)
  | f :: fs => (Ok f, c <| faults := fs |>)
  end.

(** An offset or length that does not fit [i64] is refused. *)
Definition set_len {K} (n : Z) : M K () :=
  f ← pop_fault;
  match f with
  | Some f => throw (f_kind f)
  | None => if 2 ^ 63 <=? n then throw InvalidInput
            else modify (λ c, c <| cache_file ::= file_set_len n |>)
  end.

Definition write_all_at {K} (data : bytes) (off : Z) : M K () :=
  if bool_decide (data = []) then mret () else
  f ← pop_fault;
  match f with
  | Some f => _ ← modify (λ c, c <| cache_file ::= file_write_at (take (f_written f) data) off |>);
              throw (f_kind f)
  | None => if 2 ^ 63 <=? off then throw InvalidInput
            else modify (λ c, c <| cache_file ::= file_write_at data off |>)
  end.

Definition read_exact_at {K} (n off : Z) : M K bytes :=
  if n =? 0 then mret [] else
  f ← pop_fault;
  match f with
  | Some f => throw (f_kind f)
  | None => if 2 ^ 63 <=? off then throw InvalidInput
            else f ← gets cache_file; lift (ok_or (file_read_at n off f) UnexpectedEof)
  end.

(** [buf[..data.len()].copy_from_slice(data)], the rest of [buf] kept. *)
Definition copy_prefix (data buf : bytes) : bytes := data ++ drop (length data) buf.

(* ------------------------------------------------------------------ *)
(** * Operations *)

Section disk_cache.
Context `{HashIter} `{Compression} `{Aead K} (nonce : Z → bytes).

Definition draw_nonce : M K bytes := λ c, (Ok (nonce (draws c)), c <| draws ::= Z.succ |>).

(** Encryption of one page or blob for the cache file, when a key is set. *)
Definition encrypt_slot (data : bytes) : M K bytes :=
  key ← gets (encryption_key ∘ cfg);
  match key with
  | Some key => n ← draw_nonce; lift (encrypt_gcm_random_nonce n data [] key)
  | None => mret data
  end.

Definition slot_width (key : option K) (ps : Z) : Z :=
  match key with Some _ => ps + GCM_RANDOM_NONCE_OVERHEAD | None => ps end.

Definition slot_stride (c : DiskCache K) : Z := slot_width (encryption_key (cfg c)) (page_size c).

Definition slot_offset (c : DiskCache K) (page_num : Z) : Z := wrap64 (page_num * slot_stride c).

Definition ensure_file_len (needed : Z) : M K () :=
  l ← gets cache_file_len;
  if needed <=? l then mret () else
  _ ← set_len needed;
  modify (λ c, c <| cache_file_len := needed |>).

Definition check_tainted : M K () :=
  t ← gets tainted; lift (guard_err t OtherKind).

Definition bump_generation : M K () := modify (λ c, c <| generation ::= λ g, wrap64 (g + 1) |>).

(** ** The in-memory page cache *)

(** The page a slot holds, if the table has the slot and it is not null. *)
Definition mem_slot (c : DiskCache K) (page_num : Z) : option bytes :=
  slots ← mem_cache c; slot ← at_index slots page_num; slot.

Definition ensure_mem_cache_capacity (page_num : Z) : M K () :=
  modify (λ c, c <| mem_cache ::= fmap (grow_to (Z.to_nat (wrap64 (page_num + 1))) None) |>).

Definition set_slot (page_num : Z) (v : option bytes) (c : DiskCache K) : DiskCache K :=
  if page_num <? 0 then c else c <| mem_cache ::= fmap (<[Z.to_nat page_num := v]>) |>.

Definition install_mem_cache_page (pnum : Z) (data : bytes) : M K () := λ c,
  match mem_cache c with
  | None => (Ok (), c)
  | Some _ =>
    if page_size c =? 0 then (Ok (), c) else
    let c := (ensure_mem_cache_capacity pnum c).2 in
    match mem_cache c ≫= (λ s, at_index s pnum) with
    | None => (Ok (), c)
    | Some old =>
      if bool_decide (old = None) &&
         (mem_cache_budget (cfg c) <? wrap64 (mem_cache_bytes c + page_size c)) then (Ok (), c) else
      let page := pad_to (Z.to_nat (page_size c)) (take (Z.to_nat (page_size c)) data) in
      let c' := set_slot pnum (Some page) c in
      (Ok (), if bool_decide (old = None)
              then c' <| mem_cache_bytes ::= λ b, wrap64 (b + page_size c) |> else c')
    end
  end.

(** One slot emptied and its page freed. *)
Definition drop_slot (pnum : Z) (c : DiskCache K) : DiskCache K :=
  match mem_slot c pnum with
  | Some _ => set_slot pnum None c <| mem_cache_bytes ::= λ b, wrap64 (b - page_size c) |>
  | None => c
  end.

Definition drop_slots (pages : list Z) (c : DiskCache K) : DiskCache K :=
  foldl (λ c p, drop_slot p c) c pages.

Definition clear_pages_from_mem_cache (page_nums : list Z) : M K () :=
  modify (λ c, if page_size c =? 0 then c else drop_slots page_nums c).

(** [data[i * ps .. i * ps + ps]], a panic when out of range. *)
Definition page_of (data : bytes) (ps : Z) (i : Z) : io bytes :=
  or_panic (slice (i * ps) (i * ps + ps) data).

Definition promote_bulk_to_mem_cache (start_page : Z) (raw_data : bytes) (num_pages : Z) : M K () :=
  ps ← gets page_size;
  if ps =? 0 then mret () else
  _ ← lift (guard_err (Z.of_nat (length raw_data) <? wrap64 (num_pages * ps)) InvalidData);
  for_each (λ i, page ← lift (page_of raw_data ps i);
                 install_mem_cache_page (wrap64 (start_page + i)) page) (range 0 num_pages).

Definition promote_scattered_to_mem_cache (page_nums : list Z) (raw_data : bytes) : M K () :=
  ps ← gets page_size;
  if (ps =? 0) || bool_decide (page_nums = []) then mret () else
  _ ← lift (guard_err (Z.of_nat (length raw_data) <? wrap64 (Z.of_nat (length page_nums) * ps)) InvalidData);
  for_each (λ ip, page ← lift (page_of raw_data ps ip.1);
                  install_mem_cache_page ip.2 page) (enumerate page_nums).

(** ** Reading *)

Definition read_page_compressed (page_num : Z) (buf : bytes) : M K bytes :=
  index ← gets cache_index;
  entry ← lift (ok_or (index_get index page_num) NotFound);
  compressed ← read_exact_at (compressed_len entry) (ce_offset entry);
  key ← gets (encryption_key ∘ cfg);
  compressed ← lift (match key with
                     | Some key => decrypt_gcm_random_nonce compressed [] key
                     | None => Ok compressed
                     end);
  max_len ← gets page_size;
  decompressed ← lift (decompress_capped compressed max_len);
  if (length buf <=? length decompressed)%nat then mret (take (length buf) decompressed)
  else throw InvalidData.

(** The buffer after [read_page(page_num, buf)]. *)
Definition read_page (page_num : Z) (buf : bytes) : M K bytes :=
  _ ← check_tainted;
  compression ← gets (cache_compression ∘ cfg);
  if compression : bool then read_page_compressed page_num buf else
  hit ← gets (λ c, mem_slot c page_num);
  ps ← gets page_size;
  match hit with
  | Some page => mret (copy_prefix (take (Z.to_nat (Z.min (Z.of_nat (length buf)) ps)) page) buf)
  | None =>
    key ← gets (encryption_key ∘ cfg);
    match key with
    | Some key =>
      let stride := ps + GCM_RANDOM_NONCE_OVERHEAD in
      frame ← read_exact_at stride (wrap64 (page_num * stride));
      plain ← lift (decrypt_gcm_random_nonce frame [] key);
      mret (copy_prefix (take (length buf) plain) buf)
    | None => read_exact_at (Z.of_nat (length buf)) (wrap64 (page_num * ps))
    end
  end.

Definition cache_is_present (c : DiskCache K) (page_num : Z) : bool :=
  let in_bitmap := CacheTracking.is_present (bitmap c) page_num in
  if cache_compression (cfg c) && in_bitmap then index_contains (cache_index c) page_num
  else in_bitmap.

(** [Ok(true)] with the buffer, [Ok(false)] when the page is not present. *)
Definition read_page_if_present (page_num : Z) (buf : bytes) : M K (option bytes) :=
  p ← gets (λ c, cache_is_present c page_num);
  if negb p then mret None else
  data ← read_page page_num buf;
  mret (Some data).

(** ** Writing *)

Definition bitmap_mark (page_num : Z) : M K () :=
  modify (λ c, c <| bitmap ::= λ b, mark_present (ensure_capacity b page_num) page_num |>).

(** The guard of the bulk writers: grow the bitmap when the last page is beyond it. *)
Definition bitmap_reserve (last_page : Z) : M K () :=
  modify (λ c, c <| bitmap ::= λ b,
    if Z.of_nat (length (bits b)) <? last_page / 8 + 1 then ensure_capacity b last_page else b |>).

Definition mark_pages (pages : list Z) : M K () :=
  modify (λ c, c <| bitmap ::= λ b, foldl mark_present b pages |>).

Definition write_page_no_visibility_inner (page_num : Z) (data : bytes) : M K () :=
  compression ← gets (cache_compression ∘ cfg);
  _ ← lift (guard_err compression Unsupported);
  data ← encrypt_slot data;
  offset ← gets (λ c, slot_offset c page_num);
  _ ← ensure_file_len (wrap64 (offset + Z.of_nat (length data)));
  write_all_at data offset.

Definition write_page_no_visibility (page_num : Z) (data : bytes) : M K () :=
  _ ← check_tainted;
  write_page_no_visibility_inner page_num data.

Definition write_page_no_visibility_rollback (page_num : Z) (data : bytes) : M K () :=
  write_page_no_visibility_inner page_num data.

(** Compression and encryption of one page of the compressed cache. *)
Definition make_blob (data : bytes) : M K bytes :=
  blob ← lift (compress data);
  encrypt_slot blob.

(** One step of one thread.  The code releases its locks between the insertion
    into the index, the write of the blob and the mark of the bitmap; what other
    threads do in between is not modelled, here and in the other operations. *)
Definition write_page_compressed (now page_num : Z) (data : bytes) : M K () :=
  blob ← make_blob data;
  let blob_len := wrap32 (Z.of_nat (length blob)) in
  index ← gets cache_index;
  let '(index', offset) := index_insert index page_num blob_len in
  _ ← modify (λ c, c <| cache_index := index' |> <| bitmap ::= λ b, ensure_capacity b page_num |>);
  _ ← ensure_file_len (wrap64 (offset + blob_len));
  _ ← write_all_at blob offset;
  _ ← bitmap_mark page_num;
  modify (λ c, c <| tracker ::= λ t, tracker_mark_present t now (sub_chunk_for_page t page_num) Data |>).

Definition write_page (now page_num : Z) (data : bytes) : M K () :=
  _ ← check_tainted;
  compression ← gets (cache_compression ∘ cfg);
  if compression : bool then write_page_compressed now page_num data else
  enc ← encrypt_slot data;
  offset ← gets (λ c, slot_offset c page_num);
  let needed := wrap64 (offset + Z.of_nat (length enc)) in
  _ ← modify (λ c, c <| bitmap ::= λ b, ensure_capacity b page_num |>);
  _ ← ensure_file_len needed;
  _ ← write_all_at enc offset;
  _ ← bitmap_mark page_num;
  install_mem_cache_page page_num data.

(** The frames of consecutive pages of [data], concatenated. *)
Definition encode_slots (data : bytes) (ps num_pages : Z) : M K bytes :=
  key ← gets (encryption_key ∘ cfg);
  match key with
  | None => mret data
  | Some _ =>
    fold_m (λ acc i,
      page ← lift (or_panic (slice (i * ps) (Z.min (i * ps + ps) (Z.of_nat (length data))) data));
      frame ← encrypt_slot page;
      mret (acc ++ frame)) [] (range 0 num_pages)
  end.

(** Each sub-chunk once, in page order. *)
Definition mark_sub_chunks (now : Z) (ids : list SubChunkId) (t : SubChunkTracker) : SubChunkTracker :=
  (foldl (λ '(t, seen) id, if decide (id ∈ seen) then (t, seen)
            else (tracker_mark_present t now id Data, {[ id ]} ∪ seen)) (t, (∅ : gset SubChunkId)) ids).1.

Definition page_entry : Type := Z * Z * Z.

(** Blobs appended to one another with their pages: (page, offset in blob, length). *)
Definition append_blob (acc : bytes * list page_entry) (page_num : Z) (blob : bytes) :
    bytes * list page_entry :=
  (acc.1 ++ blob,
   acc.2 ++ [(page_num, Z.of_nat (length acc.1), wrap32 (Z.of_nat (length blob)))]).

(** The contiguous range reserved in the index, and its base offset. *)
Definition reserve_entries (page_entries : list page_entry) (index : CacheIndex) : CacheIndex :=
  foldl (λ i e, index_insert_at i e.1.1 (wrap64 (next_offset index + e.1.2)) e.2) index page_entries.

(** The common end of the compressed bulk writers: index, file, bitmap. *)
Definition store_blobs (blob : bytes) (page_entries : list page_entry) (last_page : Z) : M K () :=
  base_offset ← gets (next_offset ∘ cache_index);
  _ ← modify (λ c, c <| cache_index ::= reserve_entries page_entries |>);
  _ ← bitmap_reserve last_page;
  _ ← ensure_file_len (wrap64 (base_offset + Z.of_nat (length blob)));
  write_all_at blob base_offset.

Definition write_pages_bulk_compressed (now start_page : Z) (data : bytes) (num_pages : Z) : M K () :=
  ps ← gets page_size;
  '(blob, page_entries) ← fold_m (λ acc i,
    page ← lift (or_panic (slice (i * ps) (Z.min (i * ps + ps) (Z.of_nat (length data))) data));
    blob ← make_blob page;
    mret (append_blob acc (wrap64 (start_page + i)) blob)) ([], []) (range 0 num_pages);
  _ ← store_blobs blob page_entries (wrap64 (start_page + num_pages - 1));
  let pages := (λ i, wrap64 (start_page + i)) <$> range 0 num_pages in
  _ ← mark_pages pages;
  modify (λ c, c <| tracker ::= λ t, mark_sub_chunks now (sub_chunk_for_page t <$> pages) t |>).

Definition write_pages_bulk (now start_page : Z) (data : bytes) (num_pages : Z) : M K () :=
  _ ← check_tainted;
  ps ← gets page_size;
  if ps =? 0 then mret () else
  _ ← lift (guard_err (Z.of_nat (length data) <? wrap64 (num_pages * ps)) InvalidData);
  compression ← gets (cache_compression ∘ cfg);
  if compression : bool then write_pages_bulk_compressed now start_page data num_pages else
  _ ← promote_bulk_to_mem_cache start_page data num_pages;
  enc ← encode_slots data ps num_pages;
  offset ← gets (λ c, slot_offset c start_page);
  let needed := wrap64 (offset + Z.of_nat (length enc)) in
  _ ← bitmap_reserve (wrap64 (start_page + num_pages - 1));
  _ ← ensure_file_len needed;
  _ ← write_all_at enc offset;
  let pages := (λ i, wrap64 (start_page + i)) <$> range 0 num_pages in
  _ ← mark_pages pages;
  modify (λ c, c <| tracker ::= λ t, mark_sub_chunks now (sub_chunk_for_page t <$> pages) t |>).

(** The sub-chunks of consecutive positions of a group, all marked as data. *)
Definition mark_group_positions (now gid start_index : Z) (n : nat) (t : SubChunkTracker) :
    SubChunkTracker :=
  foldl (λ t i, tracker_mark_present t now
                  (sub_chunk_id_for t gid (wrap32 (start_index + wrap32 i))) Data)
    t (range 0 (Z.of_nat n)).

Definition max_page (pages : list Z) : Z := foldr Z.max 0 pages.

Definition write_pages_scattered_compressed (now : Z) (written_pages : list Z) (data : bytes)
    (ps gid start_index_in_group : Z) : M K () :=
  '(blob, page_entries) ← fold_m (λ acc ip,
    page ← lift (page_of data ps ip.1);
    blob ← make_blob page;
    mret (append_blob acc ip.2 blob)) ([], []) (enumerate written_pages);
  _ ← store_blobs blob page_entries (max_page written_pages);
  _ ← mark_pages written_pages;
  modify (λ c, c <| tracker ::= mark_group_positions now gid start_index_in_group (length written_pages) |>).

Definition write_pages_scattered (now : Z) (page_nums : list Z) (data : bytes)
    (gid start_index_in_group : Z) : M K () :=
  _ ← check_tainted;
  ps ← gets page_size;
  if bool_decide (page_nums = []) || (ps =? 0) then mret () else
  let writable := take_while (λ ip, (ip.1 + 1) * ps <=? Z.of_nat (length data)) (enumerate page_nums) in
  let written_pages := take (length writable) page_nums in
  if bool_decide (written_pages = []) then mret () else
  compression ← gets (cache_compression ∘ cfg);
  if compression : bool
  then write_pages_scattered_compressed now written_pages data ps gid start_index_in_group else
  _ ← promote_scattered_to_mem_cache written_pages data;
  stride ← gets slot_stride;
  _ ← bitmap_reserve (max_page written_pages);
  _ ← ensure_file_len (wrap64 (wrap64 (max_page written_pages + 1) * stride));
  _ ← for_each (λ ip, page ← lift (page_of data ps ip.1);
                      frame ← encrypt_slot page;
                      write_all_at frame (wrap64 (ip.2 * stride))) (enumerate written_pages);
  _ ← mark_pages written_pages;
  modify (λ c, c <| tracker ::= mark_group_positions now gid start_index_in_group (length written_pages) |>).

Definition set_page_size (new_page_size : Z) : M K () :=
  modify (λ c,
    let c := c <| page_size := new_page_size |>
               <| tracker ::= λ t, set_sub_chunk_byte_size t
                    (wrap64 (sub_pages_per_frame (cfg c) * new_page_size)) |> in
    if (0 <? mem_cache_budget (cfg c)) && (0 <? new_page_size)
    then c <| mem_cache ::= fmap (grow_to
           (Z.to_nat (Z.max 1 (mem_cache_budget (cfg c) / new_page_size))) None) |> else c).

(** ** Group states *)

Definition group_state (c : DiskCache K) (gid : Z) : GroupState :=
  default GroupNone (at_index (group_states c) gid).

Definition ensure_group_capacity (total_groups : Z) : M K () :=
  modify (λ c, c <| group_states ::= grow_to (Z.to_nat total_groups) GroupNone |>).

Definition set_group_state (gid : Z) (s : GroupState) (c : DiskCache K) : DiskCache K :=
  if gid <? 0 then c else c <| group_states ::= <[Z.to_nat gid := s]> |>.

Definition try_claim_group (gid : Z) : M K bool :=
  _ ← ensure_group_capacity (wrap64 (gid + 1));
  s ← gets (λ c, at_index (group_states c) gid);
  match s with
  | Some GroupNone => _ ← modify (set_group_state gid Fetching); mret true
  | _ => mret false
  end.

Definition unclaim_group (gid : Z) : M K () := modify (set_group_state gid GroupNone).

Definition unclaim_if_fetching (gid : Z) : M K bool :=
  s ← gets (λ c, at_index (group_states c) gid);
  match s with
  | Some Fetching => _ ← modify (set_group_state gid GroupNone); mret true
  | _ => mret false
  end.

Definition fetching_group_ids (c : DiskCache K) : gset Z :=
  list_to_set (fst <$> filter (λ e, e.2 = Fetching) (enumerate (group_states c))).

Definition set_cache_budget_bytes (budget : Z) : M K () :=
  modify (λ c, c <| cache_budget_bytes := budget |>).

Definition set_group_pages (gp : list (list Z)) : M K () := modify (λ c, c <| group_pages := gp |>).

Definition cache_group_page_nums (c : DiskCache K) (gid : Z) : list Z :=
  match at_index (group_pages c) gid with
  | Some explicit => explicit
  | None => let start := wrap64 (gid * pages_per_group (cfg c)) in
            range start (wrap64 (start + pages_per_group (cfg c)))
  end.

Definition sub_chunk_page_nums (c : DiskCache K) (id : SubChunkId) : list Z :=
  let spf := sub_pages_per_frame (cfg c) in
  match at_index (group_pages c) (sc_group_id id) with
  | Some explicit =>
    let start := wrap64 (sc_frame_index id * spf) in
    take (Z.to_nat spf) (drop (Z.to_nat start) explicit)
  | None =>
    let start := wrap64 (wrap64 (sc_group_id id * pages_per_group (cfg c)) +
                         wrap64 (sc_frame_index id * spf)) in
    range start (wrap64 (start + spf))
  end.

(** Touching every frame of the group. *)
Definition touch_group (now gid : Z) : M K () :=
  modify (λ c,
    let num_pages := match at_index (group_pages c) gid with
                     | Some v => wrap32 (Z.of_nat (length v))
                     | None => pages_per_group (cfg c)
                     end in
    let spf := sub_pages_per_frame (cfg c) in
    let frames := if 0 <? spf then div_ceil num_pages spf else 1 in
    c <| group_access ::= <[gid := now]> |>
      <| tracker ::= λ t, foldl (λ t fi, touch t now
           {| sc_group_id := wrap32 gid; sc_frame_index := wrap16 fi |}) t (range 0 frames) |>).

Definition mark_interior_group (now gid page_num index_in_group : Z) : M K () :=
  modify (λ c,
    c <| interior_groups ::= union {[ gid ]} |> <| interior_pages ::= union {[ page_num ]} |>
      <| tracker ::= λ t, let id := sub_chunk_id_for t gid index_in_group in
           if is_sub_chunk_present t id then mark_pinned t now id else t |>).

Definition mark_index_page (now page_num gid index_in_group : Z) : M K () :=
  modify (λ c,
    c <| index_pages ::= union {[ page_num ]} |>
      <| tracker ::= λ t, let id := sub_chunk_id_for t gid index_in_group in
           if is_sub_chunk_present t id then mark_index t now id else t |>).

(** ** Removal *)

Definition punch_slot (stride : Z) (f : bytes) (pnum : Z) : bytes :=
  let offset := wrap64 (pnum * stride) in
  if offset <? 2 ^ 63 then file_punch offset stride f else f.

Definition clear_pages_from_disk (page_nums : list Z) : M K () :=
  modify (λ c,
    let c := c <| bitmap ::= λ b, foldl CacheTracking.clear b page_nums |> in
    let c := drop_slots page_nums c in
    if cache_compression (cfg c)
    then c <| cache_index ::= λ i, foldl index_remove i page_nums |>
    else c <| cache_file ::= λ f, foldl (punch_slot (slot_stride c)) f page_nums |>).

Definition evict_group (gid : Z) : M K () :=
  page_nums ← gets (λ c, cache_group_page_nums c gid);
  _ ← clear_pages_from_disk page_nums;
  _ ← clear_pages_from_mem_cache page_nums;
  _ ← modify (λ c, c <| tracker ::= λ t, remove_group t (wrap32 gid) |>);
  modify (set_group_state gid GroupNone).

(** One eviction of a sub-chunk: the pages first, then the tracker. *)
Definition evict_sub_chunk (id : SubChunkId) : M K () :=
  page_nums ← gets (λ c, sub_chunk_page_nums c id);
  _ ← clear_pages_from_disk page_nums;
  modify (λ c, c <| stats ::= λ s, s <| stat_evictions ::= λ n, wrap64 (n + 1) |>
                     <| stat_bytes_evicted ::= λ n, wrap64 (n + sub_chunk_byte_size (tracker c)) |> |>
               <| tracker ::= λ t, remove t id |>).

(** [invalidate_group]: the positional range of the group. *)
Definition invalidate_group (gid ppg : Z) : M K () :=
  modify (λ c,
    let start := wrap64 (gid * ppg) in
    let pages := range start (wrap64 (start + ppg)) in
    let c := c <| bitmap ::= λ b, clear_range b start ppg |>
               <| tracker ::= λ t, remove_group t (wrap32 gid) |>
               <| interior_pages ::= λ s, s ∖ list_to_set pages |>
               <| index_pages ::= λ s, s ∖ list_to_set pages |> in
    if 0 <? page_size c then drop_slots pages c else c).

Definition invalidate_all_groups : M K () :=
  n ← gets (λ c, Z.of_nat (length (group_states c)));
  ppg ← gets (λ c, Z.max 1 (pages_per_group (cfg c)));
  for_each (λ gid, invalidate_group gid ppg) (range 0 n).

(** The states of the groups from [floor] on are reset. *)
Definition reset_groups_from (floor : Z) (l : list GroupState) : list GroupState :=
  imap (λ gid s, if floor <=? Z.of_nat gid then GroupNone else s) l.

Definition truncate_to_page_count (page_count page_size_arg : Z) : M K () :=
  slot ← gets (λ c, slot_width (encryption_key (cfg c)) page_size_arg);
  let new_len := wrap64 (page_count * slot) in
  _ ← set_len new_len;
  _ ← modify (λ c, c <| cache_file_len := new_len |>);
  old_capacity ← gets (bit_capacity ∘ bitmap);
  _ ← (if page_count <? old_capacity
       then _ ← modify (λ c, c <| bitmap ::= λ b, clear_range b page_count (old_capacity - page_count) |>);
            clear_pages_from_mem_cache (range page_count old_capacity)
       else mret ());
  _ ← modify (λ c,
        let stale := filter (λ id, Forall (λ p, page_count ≤ p) (sub_chunk_page_nums c id))
                            (hset_iter (present (tracker c))) in
        c <| tracker ::= λ t, remove_all t stale |>);
  _ ← modify (λ c,
        if cache_compression (cfg c)
        then c <| cache_index ::= λ i, foldl index_remove i
                    (filter (λ p, page_count ≤ p) (hiter (entries i)).*1) |> else c);
  modify (λ c,
    let ppg := pages_per_group (cfg c) in
    if 0 <? ppg then c <| group_states ::= reset_groups_from (div_ceil page_count ppg) |> else c).

(** ** Compaction of the compressed cache *)

(** One round: a blob that cannot be read is dropped from the index; the others
    move down to [cursor]. *)
Definition compact_entry (acc : gmap Z CacheIndexEntry * Z) (x : Z * (Z * CacheIndexEntry)) :
    M K (gmap Z CacheIndexEntry * Z) :=
  let '(new_entries, cursor) := acc in
  let '(_, (page_num, e)) := x in
  r ← try_io (read_exact_at (compressed_len e) (ce_offset e));
  match r with
  | inl _ => mret acc
  | inr blob =>
    _ ← (if cursor =? ce_offset e then mret () else write_all_at blob cursor);
    mret (<[page_num := {| ce_offset := cursor; compressed_len := compressed_len e |}]> new_entries,
          wrap64 (cursor + compressed_len e))
  end.

Definition entries_by_offset (i : CacheIndex) : list (Z * (Z * CacheIndexEntry)) :=
  sort_by_key ((λ pe, (ce_offset pe.2, pe)) <$> hiter (entries i)).

Definition compact_compressed_cache : M K () :=
  compression ← gets (cache_compression ∘ cfg);
  if negb compression then mret () else
  sorted ← gets (entries_by_offset ∘ cache_index);
  '(new_entries, cursor) ← fold_m compact_entry (∅, 0) sorted;
  _ ← set_len cursor;
  modify (λ c, c <| cache_file_len := cursor |>
                 <| cache_index := {| entries := new_entries; next_offset := cursor |} |>).

(** ** Eviction to a budget *)

(** [scored.sort_by(|a, b| a.1.partial_cmp(&b.1).unwrap_or(Equal))]: stable. *)
Fixpoint insert_scored (x : SubChunkId * f64) (l : list (SubChunkId * f64)) : list (SubChunkId * f64) :=
  match l with
  | [] => [x]
  | y :: l' => if f64_lt y.2 x.2 then y :: insert_scored x l' else x :: l
  end.
Definition sort_scored (l : list (SubChunkId * f64)) : list (SubChunkId * f64) :=
  foldr insert_scored [] l.

Definition over_budget (budget : Z) (c : DiskCache K) : bool :=
  budget <? current_cache_bytes (tracker c).

(** The loop over the victims: stop under budget, skip groups being fetched. *)
Fixpoint evict_victims (budget : Z) (victims : list SubChunkId) (evicted : Z) : M K Z :=
  match victims with
  | [] => mret evicted
  | id :: rest =>
    over ← gets (over_budget budget);
    if negb over then mret evicted else
    s ← gets (λ c, group_state c (sc_group_id id));
    if bool_decide (s = Fetching) then evict_victims budget rest evicted else
    _ ← evict_sub_chunk id;
    evict_victims budget rest (wrap32 (evicted + 1))
  end.

Definition evict_to_budget (now budget : Z) (skip_groups : gset Z) : M K Z :=
  over ← gets (over_budget budget);
  if negb over then mret 0 else
  t ← gets tracker;
  if current_cache_bytes t <=? pinned_bytes t then mret 0 else
  evicted ← evict_victims budget (fst <$> sort_scored (score_evictable t now skip_groups)) 0;
  _ ← modify (λ c, c <| stats ::= λ s, s <| stat_last_eviction_count := evicted |> |>);
  index ← gets cache_index;
  compression ← gets (cache_compression ∘ cfg);
  _ ← (if compression && (0 <? evicted) && (0 <? live_bytes index) &&
          (saturating_mul (live_bytes index) 2 <? next_offset index) && (2 ^ 20 <? next_offset index)
       then _ ← try_io compact_compressed_cache; mret () else mret ());
  mret evicted.

(** Groups past their time to live, interior groups excepted. *)
Definition evict_expired (now : Z) : M K () :=
  c ← gets id;
  if ttl_secs (cfg c) =? 0 then mret () else
  let expired := fst <$> filter (λ gl,
    gl.1 ∉ interior_groups c ∧ ttl_secs (cfg c) * 10 ^ 9 < saturating_sub now gl.2)
    (hiter (group_access c)) in
  for_each (λ gid, _ ← evict_group gid; modify (λ c, c <| group_access ::= delete gid |>)) expired.

Definition mark_group_present (now gid : Z) : M K () :=
  _ ← ensure_group_capacity (wrap64 (gid + 1));
  _ ← modify (set_group_state gid Present);
  count ← gets (eviction_counter ∘ stats);
  _ ← modify (λ c, c <| stats ::= λ s,
        s <| stat_peak_cache_bytes ::= Z.max (current_cache_bytes (tracker c)) |>
          <| eviction_counter := wrap64 (count + 1) |> |>);
  if negb (count mod 64 =? 0) then mret () else
  _ ← evict_expired now;
  budget ← gets cache_budget_bytes;
  if budget <=? 0 then mret () else
  skip ← gets fetching_group_ids;
  _ ← evict_to_budget now budget skip;
  mret ().

(** ** Marking pages, persistence *)

Definition mark_all_pages_present (page_count : Z) : M K () :=
  modify (λ c,
    let c := c <| bitmap ::= λ b,
      clear_at_or_above (foldl mark_present (resize b page_count) (range 0 page_count)) page_count |> in
    let ppg := pages_per_group (cfg c) in
    if 0 <? ppg then
      let group_count := div_ceil page_count ppg in
      c <| group_states ::= λ l, imap (λ gid _,
             if Z.of_nat gid <? group_count then Present else GroupNone)
             (grow_to (Z.to_nat group_count) GroupNone l) |>
    else c).

Definition clear_pages_at_or_above (page_count : Z) : M K () :=
  modify (λ c,
    let c := c <| bitmap ::= λ b, clear_at_or_above b page_count |> in
    let ppg := pages_per_group (cfg c) in
    if 0 <? ppg then c <| group_states ::= reset_groups_from (div_ceil page_count ppg) |> else c).

Definition mark_pages_present (page_nums : list Z) : M K () :=
  if bool_decide (page_nums = []) then mret () else
  let top := max_page page_nums in
  _ ← modify (λ c, c <| bitmap ::= λ b, ensure_capacity b top |>);
  _ ← mark_pages page_nums;
  ppg ← gets (pages_per_group ∘ cfg);
  if ppg =? 0 then mret () else
  _ ← ensure_group_capacity (wrap64 (top / ppg + 1));
  modify (λ c, foldl (λ c p, set_group_state (p / ppg) Present c) c page_nums).
End disk_cache.

Section persistence.
Context `{HashIter} {K : Type}.
Variable to_vec : LocalState → option bytes.
Variable from_slice : bytes → option LocalState.

Definition with_cache_state (b : list Z) (t : list TrackerEntry) (i : option CacheIndexState)
    (s : LocalState) : LocalState := {|
  format_version := format_version s; ls_manifest := ls_manifest s; dirty_groups := dirty_groups s;
  page_bitmap := Some b; sub_chunk_tracker := Some t; LocalState.cache_index := i |}.

(** [fail] names the file-system call of the state file that fails, if any. *)
Definition persist_bitmap (fail : option (persist_step * io_kind)) : M K () := λ c,
  let '(r, file') := update to_vec from_slice fail (state_file c)
    (with_cache_state (to_bytes (bitmap c)) (tracker_entries (tracker c))
       (if cache_compression (cfg c) then Some (to_state (cache_index c)) else None)) in
  (r, c <| state_file := file' |>).

Definition prune_cache_index (fail : option (persist_step * io_kind)) (keep_pages : gset Z) : M K () :=
  compression ← gets (cache_compression ∘ cfg);
  if negb compression then mret () else
  _ ← modify (λ c, c <| cache_index ::= λ i, foldl index_remove i
                (filter (λ p, p ∉ keep_pages) (hiter (entries i)).*1) |>);
  _ ← try_io (persist_bitmap fail); mret ().

Definition clear_cache_index (fail : option (persist_step * io_kind)) : M K () :=
  compression ← gets (cache_compression ∘ cfg);
  if negb compression then mret () else
  _ ← modify (λ c, c <| cache_index ::= index_clear |>);
  _ ← try_io (persist_bitmap fail); mret ().

(** The state of each group of a reopened cache. *)
Definition initial_group_state (b : PageBitmap) (gp : list (list Z)) (ppg page_count gid : Z) : GroupState :=
  if page_count <=? 0 then GroupNone else
  match at_index gp gid with
  | Some pages => if negb (bool_decide (pages = [])) && forallb (CacheTracking.is_present b) pages
                  then Present else GroupNone
  | None =>
    let start := wrap64 (gid * ppg) in
    let fin := Z.min (wrap64 (start + ppg)) page_count in
    if (start <? fin) && forallb (CacheTracking.is_present b) (range start fin)
    then Present else GroupNone
  end.

(** [new_with_compression_at] over the contents of the cache file and of the
    state file; [tracker_file] is what [new_encrypted] read from the separate
    tracker file, and [grow] the outcome of extending the cache file. *)
Definition new_with_compression_at (cfg : CacheConfig K) (now page_size page_count : Z)
    (gp : list (list Z)) (file : bytes) (state : option bytes)
    (tracker_file : gset SubChunkId * gmap SubChunkId SubChunkTier * gmap SubChunkId Z)
    (grow : option io_kind) : io (DiskCache K) :=
  let was_empty := bool_decide (file = []) in
  let ppg := pages_per_group cfg in
  let target_size := wrap64 (page_count * slot_width (encryption_key cfg) page_size) in
  file ← (if negb (cache_compression cfg) && (0 <? page_count) && (0 <? page_size) &&
             (Z.of_nat (length file) <? target_size)
          then match grow with
               | Some e => Err e
               | None => if 2 ^ 63 <=? target_size then Err InvalidInput
                         else Ok (file_set_len target_size file)
               end
          else Ok file);
  st ← load from_slice None state;
  let index0 := index_new_with_state (st ≫= LocalState.cache_index) in
  let index1 := if cache_compression cfg
                then if bool_decide (file = []) then index_clear index0 else index0
                else index_clear index0 in
  let spf := if 0 <? sub_pages_per_frame cfg then sub_pages_per_frame cfg else ppg in
  let t0 := match encryption_key cfg with
            | Some _ => let '(p, ts, cs) := tracker_file in from_parts now ppg spf p ts cs
            | None => new_with_state now ppg spf (st ≫= sub_chunk_tracker)
            end in
  let t1 := if (0 <? page_size) && (0 <? spf)
            then set_sub_chunk_byte_size t0 (wrap64 (spf * page_size)) else t0 in
  let b0 := bitmap_new_with_state (st ≫= page_bitmap) in
  let b1 := if 0 <? page_count then resize b0 page_count else b0 in
  let b := if was_empty then bitmap_clear_all b1 else b1 in
  let total_groups := if (0 <? ppg) && (0 <? page_count) then div_ceil page_count ppg else 0 in
  Ok {| cfg := {| ttl_secs := ttl_secs cfg; pages_per_group := ppg; sub_pages_per_frame := spf;
                  encryption_key := encryption_key cfg; cache_compression := cache_compression cfg;
                  mem_cache_budget := mem_cache_budget cfg |};
        page_size := page_size;
        cache_file := file;
        cache_file_len := Z.of_nat (length file);
        mem_cache := if 0 <? mem_cache_budget cfg
                     then Some (replicate (Z.to_nat (if 0 <? page_size
                            then Z.max 1 (mem_cache_budget cfg / page_size) else 0)) None)
                     else None;
        mem_cache_bytes := 0;
        generation := 0;
        tracker := if was_empty then tracker_clear_all t1 else t1;
        bitmap := b;
        group_states := initial_group_state b gp ppg page_count <$> range 0 total_groups;
        interior_groups := ∅; interior_pages := ∅; index_pages := ∅; group_access := ∅;
        group_pages := gp;
        cache_index := if was_empty then index_clear index1 else index1;
        tainted := false;
        cache_budget_bytes := 0;
        stats := {| stat_evictions := 0; stat_bytes_evicted := 0; stat_peak_cache_bytes := 0;
                    stat_last_eviction_count := 0; eviction_counter := 0 |};
        state_file := state;
        draws := 0;
        faults := [] |}.
End persistence.
