(* ===== verification/Keeps.v ===== *)
(** Cache programs that keep a property of the cache, whatever their outcome:
    the rules for the combinators of DiskCache.v. *)

From S2P Require Import Prelude Float64 CacheTracking Manifest LocalState Compress File DiskCache.

Create HintDb keeps.

(* ------------------------------------------------------------------ *)
(** * Cache programs *)

Section keeps.
Context {K : Type} (P : DiskCache K → Prop).

(** [m] keeps [P], whatever its outcome. *)
Definition keeps {A} (m : M K A) : Prop := ∀ c, P c → P (m c).2.

Lemma keeps_lift {A} (r : io A) : keeps (lift r).
Proof. by intros c. Qed.

Lemma keeps_ret {A} (a : A) : keeps (mret a).
Proof. by intros c. Qed.

Lemma keeps_gets {A} (f : DiskCache K → A) : keeps (gets f).
Proof. by intros c. Qed.

Lemma keeps_throw {A} e : keeps (throw (A := A) e).
Proof. by intros c. Qed.

Lemma keeps_modify (f : DiskCache K → DiskCache K) : (∀ c, P c → P (f c)) → keeps (modify f).
Proof. intros Hf c. apply Hf. Qed.

Lemma keeps_bind {A C} (m : M K A) (f : A → M K C) : keeps m → (∀ a, keeps (f a)) → keeps (m ≫= f).
Proof.
  intros Hm Hf c Hc. unfold mbind, M_bind. specialize (Hm c Hc). destruct (m c) as [[a|e|] c']; [by apply Hf|done..].
Qed.

Lemma keeps_try {A} (m : M K A) : keeps m → keeps (try_io m).
Proof. intros Hm c Hc. unfold try_io. specialize (Hm c Hc). by destruct (m c) as [[a|e|] c']. Qed.

Lemma keeps_if {A} (b : bool) (m n : M K A) : keeps m → keeps n → keeps (if b then m else n).
Proof. by destruct b. Qed.

Lemma keeps_for_each {A} (f : A → M K ()) l : (∀ x, keeps (f x)) → keeps (for_each f l).
Proof. intros Hf. induction l as [|x l IH]; cbn; [apply keeps_ret|]. by apply keeps_bind. Qed.

Lemma keeps_fold {A C} (f : A → C → M K A) acc l : (∀ a x, keeps (f a x)) → keeps (fold_m f acc l).
Proof. intros Hf. revert acc. induction l as [|x l IH]; intros acc; cbn; [apply keeps_ret|]. apply keeps_bind; auto. Qed.
End keeps.

#[export] Hint Resolve keeps_lift keeps_ret keeps_gets keeps_throw : keeps.

(** One step into a program: a bind, a branch, a loop, or a known operation. *)
Ltac keeps_step :=
  match goal with
  | |- keeps _ (_ ≫= _) => apply keeps_bind; [|intros ?]
  | |- keeps _ (let '(_, _) := ?x in _) => destruct x
  | |- keeps _ (match ?x with _ => _ end) => destruct x
  | |- keeps _ (for_each _ _) => apply keeps_for_each; intros ?
  | |- keeps _ (fold_m _ _ _) => apply keeps_fold; intros ? ?
  | |- keeps _ (try_io _) => apply keeps_try
  | |- keeps _ _ => solve [auto 2 with keeps]
  end.
Ltac keeps_all := repeat keeps_step.
