(* ===== verification/Backend.v ===== *)
(** Object storage (src/src/tiered/storage.rs): the helpers around a storage
    backend.  The backend itself is third-party code: a class of operations,
    with its documented behaviour as laws. *)

From S2P Require Import Prelude Keys Manifest Wire.

(* ------------------------------------------------------------------ *)
(** * The backend *)

(** [hadb_storage::StorageBackend], with the objects it holds. *)
Class StorageBackend (B : Type) := {
  objects : B → gmap string bytes;
  st_get : string → B → io (option bytes) * B;
  st_range_get : string → Z → Z → B → io (option bytes) * B;
  st_put : string → bytes → B → io () * B;
  st_put_many : list (string * bytes) → B → io () * B;
  st_delete_many : list string → B → io Z * B
}.

Definition put_all (l : list (string * bytes)) (o : gmap string bytes) : gmap string bytes :=
  foldl (λ o kd, <[kd.1 := kd.2]> o) o l.

Definition delete_all (l : list string) (o : gmap string bytes) : gmap string bytes :=
  foldl (λ o k, delete k o) o l.

(** Reads return what is stored; a write that fails may have been carried out
    in part.  [reliable] holds while no operation fails. *)
Class StorageLaws (B : Type) `{StorageBackend B} := {
  get_law : ∀ k b r b', st_get k b = (r, b') →
    objects b' = objects b ∧ r ≠ Panic ∧ (∀ v, r = Ok v → v = objects b !! k);
  range_get_law : ∀ k s len b r b', st_range_get k s len b = (r, b') →
    objects b' = objects b ∧ r ≠ Panic ∧
    (∀ v, r = Ok v → v = (λ d, take (Z.to_nat len) (drop (Z.to_nat s) d)) <$> objects b !! k);
  put_law : ∀ k d b r b', st_put k d b = (r, b') →
    r ≠ Panic ∧ (r = Ok () → objects b' = <[k := d]> (objects b)) ∧
    (∀ e, r = Err e → objects b' = objects b ∨ objects b' = <[k := d]> (objects b));
  put_many_law : ∀ l b r b', st_put_many l b = (r, b') →
    r ≠ Panic ∧ (r = Ok () → objects b' = put_all l (objects b)) ∧
    (∀ k, k ∉ l.*1 → objects b' !! k = objects b !! k);
  delete_many_law : ∀ l b r b', st_delete_many l b = (r, b') →
    r ≠ Panic ∧ (∀ n, r = Ok n → ∀ k, k ∈ l → objects b' !! k = None) ∧ (∀ k, k ∉ l → objects b' !! k = objects b !! k);
  reliable : B → Prop;
  reliable_get : ∀ k b, reliable b → ∃ v b', st_get k b = (Ok v, b') ∧ reliable b';
  reliable_range_get : ∀ k s n b, reliable b →
    (∀ d, objects b !! k = Some d → 0 ≤ s ∧ 0 ≤ n ∧ s + n ≤ Z.of_nat (length d)) →
    ∃ v b', st_range_get k s n b = (Ok v, b') ∧ reliable b';
  reliable_put : ∀ k d b, reliable b → ∃ b', st_put k d b = (Ok (), b') ∧ reliable b';
  reliable_put_many : ∀ l b, reliable b → ∃ b', st_put_many l b = (Ok (), b') ∧ reliable b'
}.

(* ------------------------------------------------------------------ *)
(** * The helpers *)

(** [.map_err(|e| io::Error::other(..))]. *)
Definition map_err_other {A} (r : io A) : io A :=
  match r with Err _ => Err OtherKind | r => r end.

Section storage.
Context `{HashIter} `{StorageBackend B}.
Variable encode_manifest : Manifest → option bytes.
Variable decode_manifest : bytes → option Manifest.

Definition get_page_group (key : string) (b : B) : io (option bytes) * B :=
  let '(r, b) := st_get key b in (map_err_other r, b).

Definition validate_range_get_result (len : Z) (result : option bytes) : io (option bytes) :=
  match result with
  | Some bytes => if Z.of_nat (length bytes) =? len then Ok result else Err InvalidData
  | None => Ok None
  end.

Definition range_get (key : string) (start len : Z) (b : B) : io (option bytes) * B :=
  let '(r, b) := st_range_get key start len b in
  (r ← map_err_other r; validate_range_get_result len r, b).

Definition put_page_groups (uploads : list (string * bytes)) (b : B) : io () * B :=
  if bool_decide (uploads = []) then (Ok (), b) else
  let '(r, b) := st_put_many uploads b in (map_err_other r, b).

Definition put (key : string) (data : bytes) (b : B) : io () * B :=
  let '(r, b) := st_put key data b in (map_err_other r, b).

Definition delete_objects (keys : list string) (b : B) : io Z * B :=
  if bool_decide (keys = []) then (Ok 0, b) else
  let '(r, b) := st_delete_many keys b in (map_err_other r, b).

Definition get_manifest (b : B) : io (option Manifest) * B :=
  let '(r, b) := get_page_group MANIFEST_KEY b in
  (r ← r;
   match r with
   | None => Ok None
   | Some data => m ← decode_manifest_bytes decode_manifest data;
                  Ok (Some (detect_and_normalize_strategy m))
   end, b).

(** Refused unless the stored manifest, if any, is older.  The check and the
    write are two operations on the storage; [others] is what other writers do
    to it between the two. *)
Definition put_manifest_while (others : B → B) (m : Manifest) (b : B) : io () * B :=
  let '(r, b) := get_manifest b in
  match r with
  | Err _ => (Err OtherKind, b)
  | Panic => (Panic, b)
  | Ok remote =>
    if match remote with Some remote => version m <=? version remote | None => false end then (Err OtherKind, b) else
    match encode_manifest m with
    | None => (Err OtherKind, b)
    | Some data => put MANIFEST_KEY data (others b)
    end
  end.

(** The publication of a single writer. *)
Definition put_manifest : Manifest → B → io () * B := put_manifest_while (λ b, b).

(** [get_page_groups_by_key]: the objects that exist; the first error ends it. *)
Fixpoint get_page_groups_by_key (keys : list string) (b : B) : io (gmap string bytes) * B :=
  match keys with
  | [] => (Ok ∅, b)
  | k :: keys =>
    match get_page_group k b with
    | (Ok v, b) =>
      let '(r, b) := get_page_groups_by_key keys b in
      (rest ← r; Ok (match v with
                     | Some d => if decide (is_Some (rest !! k)) then rest else <[k := d]> rest
                     | None => rest
                     end), b)
    | (Err e, b) => (Err e, b)
    | (Panic, b) => (Panic, b)
    end
  end.
End storage.

(* ------------------------------------------------------------------ *)
(** * A backend in memory, for the witnesses *)

(** [ms_faults]: the outcome of the operations to come; a failing batch has
    stored its first [n] objects. *)
Record MemStore := { ms_objects : gmap string bytes; ms_faults : list (option nat) }.

Definition ms_op {A} (full : A * gmap string bytes) (part : nat → gmap string bytes) (b : MemStore) :
    io A * MemStore :=
  match ms_faults b with
  | Some n :: fs => (Err OtherKind, {| ms_objects := part n; ms_faults := fs |})
  | None :: fs => (Ok full.1, {| ms_objects := full.2; ms_faults := fs |})
  | [] => (Ok full.1, {| ms_objects := full.2; ms_faults := [] |})
  end.

#[export] Instance mem_backend : StorageBackend MemStore := {|
  objects := ms_objects;
  st_get k b := ms_op (ms_objects b !! k, ms_objects b) (λ _, ms_objects b) b;
  st_range_get k s l b :=
    ms_op ((λ d, take (Z.to_nat l) (drop (Z.to_nat s) d)) <$> ms_objects b !! k, ms_objects b)
      (λ _, ms_objects b) b;
  st_put k d b := ms_op ((), <[k := d]> (ms_objects b)) (λ _, ms_objects b) b;
  st_put_many l b := ms_op ((), put_all l (ms_objects b)) (λ n, put_all (take n l) (ms_objects b)) b;
  st_delete_many l b :=
    ms_op (Z.of_nat (length l), delete_all l (ms_objects b)) (λ n, delete_all (take n l) (ms_objects b)) b
|}.

(* ------------------------------------------------------------------ *)
(** * Lemmas *)

Lemma put_all_cons k d l o : put_all ((k, d) :: l) o = put_all l (<[k := d]> o).
Proof. done. Qed.

Lemma delete_all_cons k l o : delete_all (k :: l) o = delete_all l (delete k o).
Proof. done. Qed.

Lemma put_all_app l1 l2 o : put_all (l1 ++ l2) o = put_all l2 (put_all l1 o).
Proof. apply foldl_app. Qed.

Lemma put_all_other l o k : k ∉ l.*1 → put_all l o !! k = o !! k.
Proof.
  revert o. induction l as [|[k' d] l IH]; intros o Hk; [done|]. rewrite fmap_cons in Hk.
  apply not_elem_of_cons in Hk as [Hne Hk]. rewrite put_all_cons, IH by done. by rewrite lookup_insert_ne by done.
Qed.

Lemma put_all_in l o k d : NoDup l.*1 → (k, d) ∈ l → put_all l o !! k = Some d.
Proof.
  revert o. induction l as [|[k' d'] l IH]; intros o Hnd Hin; [by apply not_elem_of_nil in Hin|].
  rewrite fmap_cons in Hnd. apply NoDup_cons in Hnd as [Hk' Hnd]. rewrite put_all_cons.
  apply elem_of_cons in Hin as [[= -> ->]|Hin].
  - by rewrite put_all_other, lookup_insert_eq.
  - by apply IH.
Qed.

Lemma delete_all_other l o k : k ∉ l → delete_all l o !! k = o !! k.
Proof.
  revert o. induction l as [|k' l IH]; intros o Hk; [done|].
  apply not_elem_of_cons in Hk as [Hne Hk]. rewrite delete_all_cons, IH by done.
  by rewrite lookup_delete_ne by done.
Qed.

Lemma delete_all_in l o k : k ∈ l → delete_all l o !! k = None.
Proof.
  revert o. induction l as [|k' l IH]; intros o Hk; [by apply not_elem_of_nil in Hk|]. rewrite delete_all_cons.
  destruct (decide (k ∈ l)) as [Hin|Hin]; [by apply IH|]. rewrite delete_all_other by done.
  apply elem_of_cons in Hk as [->|]; [by rewrite lookup_delete_eq|done].
Qed.

Lemma not_elem_of_take {A} n (l : list A) x : x ∉ l → x ∉ take n l.
Proof. intros Hx Hin. apply Hx. rewrite <-(take_drop n l). apply elem_of_app. by left. Qed.

Ltac mem_step := cbn; unfold ms_op; intros;
  destruct (ms_faults _) as [|[n|] fs]; simplify_eq; cbn; split_and?; try done; intros; simplify_eq.

#[export] Program Instance mem_laws : StorageLaws MemStore := {| reliable b := ms_faults b = [] |}.
Next Obligation. mem_step; done. Qed.
Next Obligation. mem_step; done. Qed.
Next Obligation. mem_step; by auto. Qed.
Next Obligation. mem_step; rewrite put_all_other; try done. rewrite fmap_take. by apply not_elem_of_take. Qed.
Next Obligation. mem_step; first [by apply delete_all_in | rewrite delete_all_other; try done; by apply not_elem_of_take]. Qed.
Next Obligation. intros k b Hb. cbn. unfold ms_op. rewrite Hb. cbn. eauto. Qed.
Next Obligation. intros k s len b Hb _. cbn. unfold ms_op. rewrite Hb. cbn. eauto. Qed.
Next Obligation. intros k d b Hb. cbn. unfold ms_op. rewrite Hb. cbn. eauto. Qed.
Next Obligation. intros l b Hb. cbn. unfold ms_op. rewrite Hb. cbn. eauto. Qed.

(* ------------------------------------------------------------------ *)
(** * What the helpers do *)

Section storage_laws.
Context `{HashIter} `{StorageLaws B}.
Variable encode_manifest : Manifest → option bytes.
Variable decode_manifest : bytes → option Manifest.

Lemma get_page_group_run k (b : B) :
  ∃ r b', get_page_group k b = (r, b') ∧ objects b' = objects b ∧
    ((r = Ok (objects b !! k)) ∨ (r = Err OtherKind ∧ ¬ reliable b)) ∧ (reliable b → reliable b').
Proof.
  unfold get_page_group. destruct (st_get k b) as [r b'] eqn:Hr. pose proof (get_law _ _ _ _ Hr) as (Ho & Hp & Hv).
  eexists _, b'. split; [done|]. split; [done|]. split.
  - destruct r as [v|e|]; cbn; [left; by rewrite <-(Hv v)|right|done]. split; [done|].
    intros (v & b2 & Hg & _)%(reliable_get k). congruence.
  - intros (v & b2 & Hg & Hb)%(reliable_get k). congruence.
Qed.

(** A range of an object, of the length asked for. *)
Lemma range_get_run k s n (b : B) :
  ∃ r b', range_get k s n b = (r, b') ∧ objects b' = objects b ∧ r ≠ Panic ∧
    (∀ v, r = Ok v → match v with
       | Some d => ∃ full, objects b !! k = Some full ∧ d = take (Z.to_nat n) (drop (Z.to_nat s) full) ∧
                     Z.of_nat (length d) = n
       | None => objects b !! k = None
       end) ∧
    (reliable b → (∀ d, objects b !! k = Some d → 0 ≤ s ∧ 0 ≤ n ∧ s + n ≤ Z.of_nat (length d)) →
       (∃ v, r = Ok v) ∧ reliable b').
Proof.
  unfold range_get. destruct (st_range_get k s n b) as [r b'] eqn:Hr.
  pose proof (range_get_law _ _ _ _ _ _ Hr) as (Ho & Hp & Hv). eexists _, b'. split; [done|]. split; [done|].
  assert (∀ v, r = Ok v → validate_range_get_result n v ≠ Panic) as Hnp.
  { intros [d|] _; cbn; [by case_match|done]. }
  split; [|split].
  - destruct r as [v|e|]; cbn; [by apply Hnp|done|done].
  - intros v. destruct r as [v'|e|]; cbn; [|done|done]. specialize (Hv v' eq_refl). subst v'.
    destruct (objects b !! k) as [full|]; cbn; [|by intros [= <-]].
    destruct (Z.eqb_spec (Z.of_nat (length (take (Z.to_nat n) (drop (Z.to_nat s) full)))) n); [|done].
    intros [= <-]. by exists full.
  - intros Hrel Hin. destruct (reliable_range_get k s n b Hrel Hin) as (v & b2 & Hg & Hb).
    rewrite Hg in Hr. injection Hr as <- <-. split; [|done]. cbn. specialize (Hv v eq_refl). subst v.
    destruct (objects b !! k) as [full|]; cbn; [|by eexists]. specialize (Hin full eq_refl).
    rewrite length_take, length_drop. rewrite (proj2 (Z.eqb_eq _ _)) by lia. by eexists.
Qed.

Lemma put_page_groups_run l (b : B) :
  ∃ r b', put_page_groups l b = (r, b') ∧
    ((r = Ok () ∧ objects b' = put_all l (objects b)) ∨ (r = Err OtherKind ∧ ¬ reliable b)) ∧
    (∀ k, k ∉ l.*1 → objects b' !! k = objects b !! k) ∧ (reliable b → reliable b').
Proof.
  unfold put_page_groups. case_bool_decide as Hl.
  { eexists _, b. split; [done|]. subst l. split_and!; [by left|done|done]. }
  destruct (st_put_many l b) as [r b'] eqn:Hr. pose proof (put_many_law _ _ _ _ Hr) as (Hp & Hv & Ho).
  eexists _, b'. split; [done|]. split_and!; [|done|].
  - destruct r as [[]|e|]; cbn; [left; split; [done|by apply Hv]|right|done]. split; [done|].
    intros (b2 & Hg & _)%(reliable_put_many l). congruence.
  - intros (b2 & Hg & Hb)%(reliable_put_many l). congruence.
Qed.

Lemma put_run k d (b : B) :
  ∃ r b', put k d b = (r, b') ∧
    ((r = Ok () ∧ objects b' = <[k := d]> (objects b)) ∨
     (r = Err OtherKind ∧ ¬ reliable b ∧ (objects b' = objects b ∨ objects b' = <[k := d]> (objects b)))) ∧
    (reliable b → reliable b').
Proof.
  unfold put. destruct (st_put k d b) as [r b'] eqn:Hr. pose proof (put_law _ _ _ _ _ Hr) as (Hp & Hv & He).
  eexists _, b'. split; [done|]. split.
  - destruct r as [[]|e|]; cbn; [left; split; [done|by apply Hv]|right|done]. split_and!; [done| |by eapply He].
    intros (b2 & Hg & _)%(reliable_put k d). congruence.
  - intros (b2 & Hg & Hb)%(reliable_put k d). congruence.
Qed.

Lemma delete_objects_ok l (b : B) n b' :
  delete_objects l b = (Ok n, b') → ∀ k, k ∈ l → objects b' !! k = None.
Proof.
  unfold delete_objects. case_bool_decide as Hl; [intros _ k Hk; subst l; by apply not_elem_of_nil in Hk|].
  destruct (st_delete_many l b) as [r b1] eqn:Hr. pose proof (delete_many_law _ _ _ _ Hr) as (_ & Hgone & _).
  destruct r as [n1|e|]; [|done..]. intros [= _ <-]. by eapply Hgone.
Qed.

Lemma delete_objects_run l (b : B) :
  ∃ r b', delete_objects l b = (r, b') ∧ r ≠ Panic ∧ (∀ k, k ∉ l → objects b' !! k = objects b !! k).
Proof.
  unfold delete_objects. case_bool_decide; [by eexists _, b|].
  destruct (st_delete_many l b) as [r b'] eqn:Hr. pose proof (delete_many_law _ _ _ _ Hr) as (Hp & _ & Ho).
  eexists _, b'. split; [done|]. split; [|done]. by destruct r.
Qed.

(** The stored manifest as [get_manifest] reads it. *)
Definition stored_manifest (o : gmap string bytes) : io (option Manifest) :=
  match o !! MANIFEST_KEY with
  | None => Ok None
  | Some data => m ← decode_manifest_bytes decode_manifest data; Ok (Some (detect_and_normalize_strategy m))
  end.

Lemma stored_manifest_no_panic o : stored_manifest o ≠ Panic.
Proof.
  unfold stored_manifest. destruct (o !! _); [|done]. intros [Hp|(? & _ & Hp)]%bind_Panic; [|done].
  revert Hp. unfold decode_manifest_bytes. intros [_ [Hp|(m & _ & Hp)]%bind_Panic]%guard_bind_Panic.
  - by destruct (decode_manifest _).
  - apply bind_Panic in Hp as [Hp|(? & _ & ?)]; [by apply validate_field_ranges_no_panic in Hp|done].
Qed.

(** What [put_manifest] asks of the manifest it reads: absent or older. *)
Definition supersedes (m : Manifest) (o : gmap string bytes) : Prop :=
  ∃ old, stored_manifest o = Ok old ∧ ∀ m0, old = Some m0 → version m0 < version m.

(** The publication writes over what the others have left, or stops before. *)
Lemma put_manifest_while_run others m (b : B) :
  ∃ r b' b1, put_manifest_while encode_manifest decode_manifest others m b = (r, b') ∧ objects b1 = objects b ∧
    (reliable b → reliable b1) ∧
    ((supersedes m (objects b) ∧ ∃ d, encode_manifest m = Some d ∧
        (r = Ok () ∧ objects b' = <[MANIFEST_KEY := d]> (objects (others b1)) ∨
         r = Err OtherKind ∧ ¬ reliable (others b1) ∧
           (objects b' = objects (others b1) ∨ objects b' = <[MANIFEST_KEY := d]> (objects (others b1)))) ∧
        (reliable (others b1) → reliable b')) ∨
     (r = Err OtherKind ∧ b' = b1 ∧ (reliable b → is_Some (encode_manifest m) → ¬ supersedes m (objects b)))).
Proof.
  unfold put_manifest_while, get_manifest.
  destruct (get_page_group_run MANIFEST_KEY b) as (r & b1 & -> & Ho1 & [->|[-> Hr]] & Hb1); cbn [mbind outcome_bind].
  2: { eexists _, b1, b1. split; [done|]. split; [done|]. split; [done|]. by right. }
  pose proof (stored_manifest_no_panic (objects b)) as Hnp. unfold supersedes. unfold stored_manifest in Hnp |- *.
  set (old := match objects b !! MANIFEST_KEY with None => _ | Some _ => _ end) in *.
  set (sup := ∃ old', old = Ok old' ∧ ∀ m0, old' = Some m0 → version m0 < version m).
  destruct old as [remote|e|] eqn:Hold; [| |done].
  2: { eexists _, b1, b1. split_and!; try done. right. split_and!; [done|done|]. by intros _ _ (old' & [=] & _). }
  case_match eqn:Hnewer.
  { eexists _, b1, b1. split_and!; try done. right. split_and!; [done|done|]. intros _ _ (old' & [= <-] & Hlt).
    destruct remote as [m0|]; [|done]. apply Z.leb_le in Hnewer. specialize (Hlt m0 eq_refl). lia. }
  assert sup as Hsup.
  { exists remote. split; [done|]. intros m0 ->. by apply Z.leb_gt in Hnewer. }
  destruct (encode_manifest m) as [d|] eqn:Hd.
  - destruct (put_run MANIFEST_KEY d (others b1)) as (r & b2 & -> & Hr & Hb2). exists r, b2, b1. split_and!; try done.
    left. split; [done|]. exists d. split; [done|]. split; [|done].
    destruct Hr as [[-> Ho]|(-> & Hnr & Ho)]; [by left|by right].
  - eexists _, b1, b1. split_and!; try done. right. split_and!; [done|done|]. by intros _ [? ?].
Qed.

(** [put_manifest] replaces the stored manifest by a newer one, or nothing changes. *)
Lemma put_manifest_run m (b : B) :
  ∃ r b', put_manifest encode_manifest decode_manifest m b = (r, b') ∧ (reliable b → reliable b') ∧
    ((r = Ok () ∧ supersedes m (objects b) ∧
        ∃ d, encode_manifest m = Some d ∧ objects b' = <[MANIFEST_KEY := d]> (objects b)) ∨
     ((∃ e, r = Err e) ∧ (objects b' = objects b ∨ ¬ reliable b ∧ supersedes m (objects b) ∧
        ∃ d, encode_manifest m = Some d ∧ objects b' = <[MANIFEST_KEY := d]> (objects b)) ∧
      (reliable b → is_Some (encode_manifest m) → ¬ supersedes m (objects b)))).
Proof.
  destruct (put_manifest_while_run (λ b, b) m b) as (r & b' & b1 & Hrun & Ho1 & Hb1 & Hc). exists r, b'. split; [done|].
  rewrite Ho1 in Hc. destruct Hc as [(Hsup & d & Hd & Hr & Hb')|(-> & -> & Hn)].
  - split; [auto|]. destruct Hr as [[-> Ho]|(-> & Hnr & Ho)]; [left; by eauto|right].
    assert (¬ reliable b) as Hnb by auto. split; [by eexists|]. split; [|done]. destruct Ho; [by left|right]. by eauto 6.
  - split; [done|]. right. split; [by eexists|]. split; [by left|done].
Qed.
End storage_laws.

(** C33. A publication checks, and leaves a manifest that is whole.  It is
    refused, and changes nothing, unless the manifest it reads is absent or
    older.  When it is not refused it writes the new manifest, over whatever
    other writers have left in the meantime, and touches no other object; if the
    write fails, that is all or nothing too.  On a backend that works nothing
    but a manifest that is not older stops it.  The check and the write are two
    operations: that nobody else publishes between them is not guaranteed. *)
Theorem put_manifest_checked `{HashIter} `{StorageLaws B} encode_manifest decode_manifest others m (b : B) r b' :
  put_manifest_while encode_manifest decode_manifest others m b = (r, b') →
  (¬ supersedes decode_manifest m (objects b) → (∃ e, r = Err e) ∧ objects b' = objects b) ∧
  (supersedes decode_manifest m (objects b) →
     (∃ e, r = Err e) ∧ objects b' = objects b ∨
     ∃ d b1, encode_manifest m = Some d ∧ objects b1 = objects b ∧
       (r = Ok () ∧ objects b' = <[MANIFEST_KEY := d]> (objects (others b1)) ∨
        (∃ e, r = Err e) ∧ (objects b' = objects (others b1) ∨ objects b' = <[MANIFEST_KEY := d]> (objects (others b1))))) ∧
  ((∀ b, reliable b → reliable (others b)) → reliable b → is_Some (encode_manifest m) →
     supersedes decode_manifest m (objects b) → r = Ok ()).
Proof.
  intros Hrun. destruct (put_manifest_while_run encode_manifest decode_manifest others m b) as (r2 & b2 & b1 & Hrun2 & Ho1 & Hb1 & Hc).
  rewrite Hrun in Hrun2. injection Hrun2 as <- <-. destruct Hc as [(Hsup & d & Hd & Hr & _)|(-> & -> & Hn)]; split_and!.
  - done.
  - intros _. right. exists d, b1. split; [done|]. split; [done|]. destruct Hr as [Hr|(-> & _ & Hr)]; [by left|right]. split; [by eexists|done].
  - intros Hothers Hb _ _. destruct Hr as [[-> _]|(_ & [] & _)]; [done|]. by apply Hothers, Hb1.
  - intros _. split; [by eexists|done].
  - intros _. left. split; [by eexists|done].
  - intros _ Hb He Hsup. by destruct (Hn Hb He).
Qed.

(** A toy codec that keeps the version only. *)
Definition version_encode (m : Manifest) : option bytes := Some (count_encode (version m)).
Definition version_decode (b : bytes) : option Manifest :=
  (λ v, empty_manifest <| version := v |>) <$> count_decode b.

Definition version_put (others : MemStore → MemStore) (v : Z) (b : MemStore) : io () * MemStore :=
  @put_manifest_while canonical_iter _ _ version_encode version_decode others (empty_manifest <| version := v |>) b.

Definition version_store (v : Z) : MemStore := {| ms_objects := {[ MANIFEST_KEY := count_encode v ]}; ms_faults := [] |}.

Lemma put_manifest_checked_witness :
  (version_put id 7 (version_store 7)).1 ≠ Ok () ∧ (version_put id 8 (version_store 7)).1 = Ok ().
Proof.
  assert (@stored_manifest canonical_iter version_decode (objects (version_store 7)) =
    Ok (Some (@detect_and_normalize_strategy canonical_iter (empty_manifest <| version := 7 |>)))) as Heq
    by (vm_compute; reflexivity).
  split.
  - destruct (version_put id 7 (version_store 7)) as [r b'] eqn:Hrun.
    destruct (@put_manifest_checked canonical_iter _ _ _ version_encode version_decode id _ _ r b' Hrun) as (Hno & _).
    destruct Hno as [[e ->] _]; [|done]. intros (old & Hold & Hlt).
    rewrite Heq in Hold. injection Hold as <-. specialize (Hlt _ eq_refl). vm_compute in Hlt. discriminate Hlt.
  - destruct (version_put id 8 (version_store 7)) as [r b'] eqn:Hrun.
    destruct (@put_manifest_checked canonical_iter _ _ _ version_encode version_decode id _ _ r b' Hrun) as (_ & _ & Hlive).
    apply Hlive; [done|reflexivity|by eexists|].
    eexists. split; [exact Heq|]. intros m0 [= <-]. vm_compute. reflexivity.
Defined.

(** Two writers read version 7; the one with version 9 publishes first, and the
    one with version 8 writes over it and reports success. *)
Example publications_race :
  let '(r, b) := version_put (λ b, (version_put id 9 b).2) 8 (version_store 7) in
  r = Ok () ∧ version_decode (default [] (objects b !! MANIFEST_KEY)) = Some (empty_manifest <| version := 8 |>).
Proof. vm_compute. done. Qed.
