(* ===== verification/ColdRead.v ===== *)
(** What a reader without a cache gets: the page that a manifest and the stored
    objects hold (the remote read path of src/src/tiered/handle.rs), and the
    well-formedness of a published manifest. *)

From S2P Require Import Prelude Keys Manifest Compress Encoding Backend.

Section cold_read.
Context `{Compression} `{Aead K}.
Implicit Types (m : Manifest) (o : gmap string bytes).

(** The frame table of a group, when its object is seekable. *)
Definition group_frames m (gid : Z) : option (list FrameEntry) :=
  match at_index (frame_tables m) gid with
  | Some (e :: ft) => if 0 <? sub_pages_per_frame m then Some (e :: ft) else None
  | _ => None
  end.

Definition override_of m (gid frame_idx : Z) : option SubframeOverride :=
  ovs ← at_index (subframe_overrides m) gid; ovs !! frame_idx.

(** The object of a group; an empty key stands for none. *)
Definition key_at (keys : list string) (gid : Z) : option string :=
  match at_index keys gid with
  | None | Some ""%string => None
  | Some k => Some k
  end.

Definition group_key m (gid : Z) : option string := key_at (page_group_keys m) gid.

Definition ok_value {A} (r : io A) : option A := match r with Ok a => Some a | _ => None end.

(** The frame as the group's own object holds it. *)
Definition base_frame (key : option K) m o (gid frame_idx : Z) (ft : list FrameEntry) : option bytes :=
  entry ← at_index ft frame_idx;
  base_key ← group_key m gid;
  data ← o !! base_key;
  frame ← slice (fe_offset entry) (fe_offset entry + fe_len entry) data;
  ok_value (decode_seekable_subchunk frame (aad_page_group gid) key).

(** The frame a reader gets: the override's object when there is one. *)
Definition cold_frame (key : option K) m o (gid frame_idx : Z) (ft : list FrameEntry) : option bytes :=
  match override_of m gid frame_idx with
  | Some ovr => data ← o !! ovr_key ovr; ok_value (decode_seekable_subchunk data (aad_override_frame gid frame_idx) key)
  | None => base_frame key m o gid frame_idx ft
  end.

(** The page at position [i] of a group. *)
Definition cold_slot (key : option K) m o (gid i : Z) : option bytes :=
  let ps := page_size m in
  match group_frames m gid with
  | Some ft =>
    let spf := sub_pages_per_frame m in
    raw ← cold_frame key m o gid (i / spf) ft;
    slice (i mod spf * ps) (i mod spf * ps + ps) raw
  | None =>
    base_key ← group_key m gid;
    data ← o !! base_key;
    bulk ← ok_value (decode_page_group_bulk data (aad_page_group gid) key);
    slice (i * ps) (i * ps + ps) bulk.2
  end.

Definition cold_page (key : option K) m o (p : Z) : option bytes :=
  loc ← page_location m p; cold_slot key m o (group_id loc) (index loc).

(* ------------------------------------------------------------------ *)
(** * References *)

(** The key under which a manifest refers to the object of a slot. *)
Definition references m (s : Slot) (k : string) : Prop :=
  match s with
  | PageGroup g => group_key m g = Some k
  | InteriorBundle i => interior_chunk_keys m !! i = Some k
  | IndexBundle i => index_chunk_keys m !! i = Some k
  | OverrideFrame g f => ∃ ovr, override_of m g f = Some ovr ∧ k = ovr_key ovr
  end.

(** Every reference is the name of its slot at a version already used. *)
Record keys_ok m : Prop := {
  ko_version : 0 ≤ version m < 2 ^ 64;
  ko_refs : ∀ s k, references m s k → slot_ok s ∧ ∃ v, 0 ≤ v ≤ version m ∧ k = slot_key s v
}.

Lemma references_inj m s1 s2 k : keys_ok m → references m s1 k → references m s2 k → s1 = s2.
Proof.
  intros [Hv Hk] (Hs1 & v1 & Hv1 & ->)%Hk (Hs2 & v2 & Hv2 & Heq)%Hk.
  by destruct (slot_key_spec s1 s2 v1 v2 Hs1 Hs2) as [_ (? & ?)%(λ H, H Heq)]; unfold is_u64; try lia.
Qed.

(** An object of a new version is not referred to. *)
Lemma new_version_fresh m s s' v :
  keys_ok m → slot_ok s → version m < v → is_u64 v → ¬ references m s' (slot_key s v).
Proof.
  intros [Hv Hk] Hs Hlt Hv64 (Hs' & v' & Hv' & Heq)%Hk.
  destruct (slot_key_spec s s' v v' Hs Hs' Hv64) as [_ Hi]; [unfold is_u64; lia|]. destruct (Hi Heq). lia.
Qed.

Lemma references_not_manifest m s : keys_ok m → ¬ references m s MANIFEST_KEY.
Proof.
  intros [Hv Hk] (Hs & v & Hv' & Heq)%Hk.
  destruct (slot_key_spec s s v v Hs Hs) as [Hne _]; [unfold is_u64; lia..|]. by apply Hne.
Qed.

(* ------------------------------------------------------------------ *)
(** * Stored groups *)

(** The sizes a manifest may have, and its index of locations. *)
Record geometry m : Prop := {
  ge_wf : well_formed m;
  ge_strategy : detected_strategy m = strategy m;
  ge_index : strategy m = BTreeAware → page_index m = index_groups (group_pages m);
  ge_ps : 0 < page_size m ≤ 2 ^ 16;
  ge_spf : 0 ≤ sub_pages_per_frame m ∧ sub_pages_per_frame m * page_size m ≤ 2 ^ 30;
  ge_pages : ∀ gid p, 0 ≤ gid → p ∈ group_page_nums m gid → 0 ≤ p < page_count m;
  ge_len : ∀ gid, Z.of_nat (length (group_page_nums m gid)) ≤ 2 ^ 14;
  ge_bytes : ∀ gid, 8 + Z.of_nat (length (group_page_nums m gid)) * page_size m ≤ 2 ^ 30
}.

(** The group's own object is an encoding of [pages]. *)
Definition stored_base (key : option K) m o (gid : Z) (pages : list bytes) : Prop :=
  Forall (λ d, Z.of_nat (length d) = page_size m) pages ∧
  (pages ≠ [] → ∃ k data (nonces : Z → bytes), group_key m gid = Some k ∧ o !! k = Some data ∧
    (∀ f, length (nonces f) = 12%nat) ∧
    match group_frames m gid with
    | Some ft => encode_page_group_seekable (Some <$> pages) (page_size m) (sub_pages_per_frame m) nonces
                   (aad_page_group gid) key = Ok (data, ft) ∧ Z.of_nat (length data) < 2 ^ 32
    | None => encode_page_group (Some <$> pages) (page_size m) (nonces 0) (aad_page_group gid) key = Ok data
    end).

(** Every group is stored in its own object, as a whole. *)
Definition stored_whole (key : option K) m o : Prop :=
  (∀ gid, 0 ≤ gid → ∃ pages, stored_base key m o gid pages ∧ length pages = length (group_page_nums m gid)) ∧
  ∀ gid f, override_of m gid f = None.

(** The override of a frame is an encoding of [pages]. *)
Definition stored_override (key : option K) m o (gid f : Z) (pages : list bytes) : Prop :=
  Forall (λ d, Z.of_nat (length d) = page_size m) pages ∧ Z.of_nat (length pages) ≤ sub_pages_per_frame m ∧
  ∃ ovr data nonce dirty, override_of m gid f = Some ovr ∧ o !! ovr_key ovr = Some data ∧
    length nonce = 12%nat ∧ dirty.*2 = pages ∧
    encode_override_frame dirty (page_size m) nonce (aad_override_frame gid f) key = Ok data.

Lemma pages_ok ps (pages : list bytes) :
  Forall (λ d, Z.of_nat (length d) = ps) pages → Forall (page_ok ps) (Some <$> pages).
Proof. intros Hp. apply Forall_fmap. eapply Forall_impl; [exact Hp|]. intros d Hd. cbn in *. lia. Qed.

Lemma page_bytes_full ps d : Z.of_nat (length d) = ps → page_bytes ps (Some d) = d.
Proof. intros Hd. apply pad_to_id. lia. Qed.

Lemma page_bytes_all ps (pages : list bytes) :
  Forall (λ d, Z.of_nat (length d) = ps) pages → page_bytes ps <$> (Some <$> pages) = pages.
Proof.
  intros Hp. rewrite <-list_fmap_compose. rewrite <-(list_fmap_id pages) at 2. apply Forall_fmap_ext_1.
  eapply Forall_impl; [exact Hp|]. intros d Hd. by apply page_bytes_full.
Qed.

(** A page of a concatenation of pages. *)
Lemma slice_concat ps (pages : list bytes) i d :
  0 < ps → Forall (λ d, Z.of_nat (length d) = ps) pages → pages !! i = Some d →
  slice (Z.of_nat i * ps) (Z.of_nat i * ps + ps) (concat pages) = Some d.
Proof.
  intros Hps Hp Hi. assert (Forall (λ d : bytes, length d = Z.to_nat ps) pages) as Hp'
    by (eapply Forall_impl; [exact Hp|]; cbn; lia).
  pose proof (length_concat_blocks _ _ Hp') as Hl. pose proof (lookup_lt_Some _ _ _ Hi) as Hlt.
  apply slice_Some. split; [nia|]. split; [rewrite Hl; nia|].
  replace (Z.to_nat (Z.of_nat i * ps)) with (i * Z.to_nat ps)%nat by lia.
  replace (Z.of_nat i * ps + ps - Z.of_nat i * ps) with ps by lia. by rewrite (block_lookup _ _ _ _ Hp' Hi).
Qed.

(** A page of a stored group, where nothing overrides it. *)
Lemma cold_base_slot key m o gid pages i d :
  geometry m → stored_base key m o gid pages → pages !! i = Some d →
  8 + Z.of_nat (length pages) * page_size m ≤ 2 ^ 30 →
  (group_frames m gid ≠ None → override_of m gid (Z.of_nat i / sub_pages_per_frame m) = None) →
  cold_slot key m o gid (Z.of_nat i) = Some d.
Proof.
  intros Hg [Hlen Hst] Hi Hb Hov. pose proof (ge_ps _ Hg) as Hps.
  destruct Hst as (k & data & nonces & Hk & Ho & Hn & He); [by destruct pages|].
  assert ((Some <$> pages) !! i = Some (Some d)) as Hl by (rewrite list_lookup_fmap; by rewrite Hi).
  assert (Hd : Z.of_nat (length d) = page_size m) by (rewrite Forall_lookup in Hlen; by eapply Hlen).
  unfold cold_slot. destruct (group_frames m gid) as [ft|] eqn:Hft.
  - destruct He as [He Hsmall]. specialize (Hov ltac:(done)).
    assert (0 < sub_pages_per_frame m) as Hspf.
    { unfold group_frames in Hft. destruct (at_index _ _) as [[|e l]|]; [done| |done].
      destruct (Z.ltb_spec 0 (sub_pages_per_frame m)); [lia|done]. }
    destruct (seekable_point_read_spec _ _ _ _ _ _ _ _ _ _ He Hsmall Hn ltac:(lia) (pages_ok _ _ Hlen) Hspf
      (proj2 (ge_spf _ Hg)) Hl) as (e & frame & raw & Hte & Hsl & Hdec & Hpage).
    unfold cold_frame, base_frame. rewrite Hov.
    assert (at_index ft (Z.of_nat i / sub_pages_per_frame m) = Some e) as ->.
    { assert (0 ≤ Z.of_nat i / sub_pages_per_frame m) by (apply Z.div_pos; lia).
      unfold at_index. by destruct (Z.ltb_spec (Z.of_nat i / sub_pages_per_frame m) 0); [lia|]. }
    cbn. rewrite Hk. cbn. rewrite Ho. cbn. rewrite Hsl. cbn. rewrite Hdec. cbn.
    by rewrite Hpage, page_bytes_full.
  - rewrite Hk. cbn. rewrite Ho. cbn.
    assert (is_u32 (page_size m) ∧ is_u32 (Z.of_nat (length (Some <$> pages)))) as [Hu1 Hu2]
      by (rewrite length_fmap; unfold is_u32; nia).
    destruct (page_group_roundtrip_spec (Some <$> pages) (page_size m) (nonces 0) (aad_page_group gid) key data)
      as [_ ->]; [done|by apply pages_ok|by rewrite length_fmap|done|done|done|].
    cbn. rewrite page_bytes_all by done. by apply slice_concat; [lia|..].
Qed.

(** A page of an override. *)
Lemma cold_override_slot key m o gid f pages i d :
  geometry m → stored_override key m o gid f pages → pages !! i = Some d → group_frames m gid ≠ None →
  cold_slot key m o gid (f * sub_pages_per_frame m + Z.of_nat i) = Some d.
Proof.
  intros Hg (Hlen & Hmax & ovr & data & nonce & dirty & Hov & Ho & Hn & Hd & He) Hi Hft.
  pose proof (ge_ps _ Hg) as Hps. pose proof (ge_spf _ Hg) as [Hspf Hcap]. pose proof (lookup_lt_Some _ _ _ Hi) as Hlt.
  unfold cold_slot. destruct (group_frames m gid) as [ft|] eqn:Hf; [|done].
  assert (0 < sub_pages_per_frame m) by lia.
  rewrite Z.add_comm, Z.div_add, Z.mod_add, (Z.div_small (Z.of_nat i)), (Z.mod_small (Z.of_nat i)) by lia. rewrite Z.add_0_l.
  unfold cold_frame. rewrite Hov. cbn. rewrite Ho. cbn.
  assert (page_bytes (page_size m) <$> (Some <$> dirty.*2) = dirty.*2) as Hall by (rewrite Hd; by apply page_bytes_all).
  rewrite (override_frame_roundtrip dirty (page_size m) nonce _ key data); try done; [|lia| |].
  - assert ((λ p : Z * bytes, page_bytes (page_size m) (Some p.2)) <$> dirty = pages) as ->.
    { rewrite <-Hd, <-Hall. by rewrite <-!list_fmap_compose. }
    cbn [ok_value mbind option_bind]. by apply slice_concat; [lia|..].
  - subst pages. rewrite Forall_fmap in Hlen. eapply Forall_impl; [exact Hlen|]. intros [p b] Hb. cbn in *. lia.
  - assert (length dirty = length pages) as -> by (rewrite <-Hd; by rewrite length_fmap). nia.
Qed.
End cold_read.
