(* ===== verification/Settings.v ===== *)
(** Per-connection settings (src/src/tiered/settings.rs): the values that
    [turbolite_config_set] accepts, the queue of each handle and the stack of
    open handles of a thread.  Strings are byte strings: the code's Unicode
    trimming and upper-casing agree with the ASCII ones below on ASCII input. *)

From Stdlib Require Import SpecFloat Ascii String.
From stdpp Require Import strings.
From S2P Require Import Prelude Keys Float64 Staging.

#[local] Open Scope stdpp_scope.

(* ------------------------------------------------------------------ *)
(** * Numbers in decimal *)

Definition is_space (c : ascii) : bool :=
  let n := nat_of_ascii c in (n =? 32)%nat || ((9 <=? n)%nat && (n <=? 13)%nat).

Fixpoint drop_spaces (l : list ascii) : list ascii :=
  match l with
  | c :: l' => if is_space c then drop_spaces l' else l
  | [] => []
  end.

(** [str::trim]. *)
Definition trim (s : string) : string :=
  string_of_list_ascii (rev (drop_spaces (rev (drop_spaces (list_ascii_of_string s))))).

(** The digits at the front: their value, their number, and what follows. *)
Fixpoint digits (acc n : Z) (l : list ascii) : Z * Z * list ascii :=
  match l with
  | c :: l' => if is_digit c then digits (acc * 10 + (Z.of_nat (nat_of_ascii c) - 48)) (n + 1) l'
               else (acc, n, l)
  | [] => (acc, n, [])
  end.

Definition sign (l : list ascii) : bool * list ascii :=
  match l with
  | c :: l' => if (nat_of_ascii c =? 45)%nat then (true, l')
               else if (nat_of_ascii c =? 43)%nat then (false, l') else (false, l)
  | [] => (false, [])
  end.

(** The exponent part, if any; nothing may follow. *)
Definition exponent (l : list ascii) : option Z :=
  match l with
  | [] => Some 0
  | c :: l' =>
    if (nat_of_ascii c =? 101)%nat || (nat_of_ascii c =? 69)%nat then
      let '(neg, l') := sign l' in
      let '(v, n, rest) := digits 0 0 l' in
      if (n =? 0) || negb (bool_decide (rest = [])) then None else Some (if neg : bool then - v else v)
    else None
  end.

(** [m * 10^e] for a number without a sign: the digits before the point and
    after it, at least one of them, then the exponent. *)
Definition decimal (l : list ascii) : option (Z * Z) :=
  let '(int, ni, rest) := digits 0 0 l in
  let '(m, nf, rest) := match rest with
                        | c :: l' => if (nat_of_ascii c =? 46)%nat then digits int 0 l' else (int, 0, rest)
                        | [] => (int, 0, [])
                        end in
  if ni + nf =? 0 then None else
  e ← exponent rest;
  Some (m, e - nf).

(** [m * 10^e], rounded to the nearest float of the format. *)
Definition round_decimal (prec emax : Z) (neg : bool) (m e : Z) : spec_float :=
  if m =? 0 then S754_zero neg else
  if 0 <=? e then binary_normalize prec emax (if neg then - (m * 10 ^ e) else m * 10 ^ e) 0 neg
  else let '(q, e', l) := SFdiv_core_binary prec emax m 0 (10 ^ (- e)) 0 in
       binary_round_aux prec emax neg q e' l.

Definition lower (c : ascii) : ascii :=
  let n := nat_of_ascii c in if ((65 <=? n) && (n <=? 90))%nat then ascii_of_nat (n + 32) else c.

(** [str::parse::<f64>] and [str::parse::<f32>]. *)
Definition parse_float (prec emax : Z) (s : string) : option spec_float :=
  let '(neg, l) := sign (list_ascii_of_string s) in
  let word := string_of_list_ascii (lower <$> l) in
  if decide (word = "inf" ∨ word = "infinity")%string then Some (S754_infinity neg)
  else if decide (word = "nan"%string) then Some S754_nan
  else '(m, e) ← decimal l; Some (round_decimal prec emax neg m e).

Definition parse_f64 : string → option f64 := parse_float 53 1024.
Definition parse_f32 : string → option spec_float := parse_float 24 128.

Definition is_finite (x : spec_float) : bool :=
  match x with S754_zero _ | S754_finite _ _ _ => true | _ => false end.

(** [x as u64]: towards zero, saturating. *)
Definition f64_to_u64 (x : f64) : Z :=
  match x with
  | S754_finite false m e => Z.min u64_max (Z.shiftl (Z.pos m) e)
  | S754_infinity false => u64_max
  | _ => 0
  end.

(* ------------------------------------------------------------------ *)
(** * The values of the settings *)

(** [value.split(',')]. *)
Fixpoint split_commas (cur : list ascii) (l : list ascii) : list string :=
  match l with
  | [] => [string_of_list_ascii (rev cur)]
  | c :: l => if (nat_of_ascii c =? 44)%nat then string_of_list_ascii (rev cur) :: split_commas [] l
              else split_commas (c :: cur) l
  end.

Definition in_unit (x : spec_float) : bool :=
  SFleb (S754_zero false) x && SFleb x (binary_normalize 24 128 1 0 false).

Definition parse_hops (value : string) : option (list spec_float) :=
  hops ← mapM (λ s, parse_f32 (trim s)) (split_commas [] (list_ascii_of_string value));
  if negb (bool_decide (hops = [])) && forallb (λ h, is_finite h && in_unit h) hops then Some hops else None.

(** The suffix of a size in any case: its length and the factor. *)
Definition size_suffix (s : string) : option (nat * Z) :=
  match lower <$> rev (list_ascii_of_string s) with
  | "b" :: "g" :: _ => Some (2%nat, 2 ^ 30)
  | "b" :: "m" :: _ => Some (2%nat, 2 ^ 20)
  | "b" :: "k" :: _ => Some (2%nat, 2 ^ 10)
  | "g" :: _ => Some (1%nat, 2 ^ 30)
  | "m" :: _ => Some (1%nat, 2 ^ 20)
  | "k" :: _ => Some (1%nat, 2 ^ 10)
  | _ => None
  end%char.

Definition parse_byte_size (value : string) : option Z :=
  let s := trim value in
  if decide (s = ""%string) then None else
  match parse_u64 s with
  | Some n => Some n
  | None =>
    '(n, multiplier) ← size_suffix s;
    num ← parse_f64 (trim (String.substring 0 (String.length s - n) s));
    if f64_lt num (S754_zero false) || negb (is_finite num) then None else
    let product := SFmul 53 1024 num (f64_of multiplier) in
    if negb (is_finite product) || f64_lt (f64_of u64_max) product then None
    else Some (f64_to_u64 product)
  end.

Definition parse_flag (value : string) : bool :=
  bool_decide (value = "true" ∨ value = "1")%string.

Definition validate (key value : string) : outcome string () :=
  if decide (key = "prefetch" ∨ key = "prefetch_search" ∨ key = "prefetch_lookup")%string then
    guard_err (bool_decide (parse_hops value = None)) "invalid hop schedule"%string
  else if decide (key = "prefetch_reset")%string then Ok ()
  else if decide (key = "plan_aware" ∨ key = "lookahead" ∨ key = "evict_on_checkpoint")%string then
    guard_err (negb (bool_decide (value ∈ ["true"; "false"; "1"; "0"]%string))) "expected true/false/1/0"%string
  else if decide (key = "cache_limit")%string then
    guard_err (bool_decide (parse_byte_size value = None)) "invalid byte size"%string
  else Err "unknown key"%string.

(* ------------------------------------------------------------------ *)
(** * Queues *)

Definition SettingUpdate : Type := string * string.

(** The queues by handle, and the stack of a thread's open handles, the most
    recently opened last. *)
Record Queues := { queues : gmap Z (list SettingUpdate); queue_stack : list Z }.

#[export] Instance Queues_settable : Settable Queues :=
  {| rebuild := λ q, {| queues := queues q; queue_stack := queue_stack q |} |}.

Definition queue_of (q : Queues) (h : Z) : list SettingUpdate := default [] (queues q !! h).

Definition enter_handle (h : Z) (q : Queues) : Queues := q <| queue_stack ::= λ s, s ++ [h] |>.

Fixpoint remove_first (h : Z) (l : list Z) : list Z :=
  match l with
  | [] => []
  | x :: l => if x =? h then l else x :: remove_first h l
  end.

(** [rposition]: the last occurrence. *)
Definition leave_handle (h : Z) (q : Queues) : Queues :=
  q <| queue_stack ::= λ s, rev (remove_first h (rev s)) |>.

Definition top_queue (q : Queues) : option Z := last (queue_stack q).

Definition push_to_current (u : SettingUpdate) (q : Queues) : bool * Queues :=
  match top_queue q with
  | Some h => (true, q <| queues ::= <[h := queue_of q h ++ [u]]> |>)
  | None => (false, q)
  end.

Definition drain_queue (h : Z) (q : Queues) : list SettingUpdate * Queues :=
  (queue_of q h, q <| queues ::= <[h := []]> |>).

Definition peek_top_for_key (key : string) (q : Queues) : option string :=
  h ← top_queue q; snd <$> last (filter (λ u, u.1 = key) (queue_of q h)).

Definition set (key value : string) (q : Queues) : outcome string () * Queues :=
  match validate key value with
  | Ok _ => let '(ok, q) := push_to_current (key, value) q in
            (if ok : bool then Ok () else Err "no active turbolite handle on this thread"%string, q)
  | r => (r, q)
  end.
(* ------------------------------------------------------------------ *)
(** * Examples *)

Example size_megabytes : parse_byte_size "512MB" = Some (512 * 2 ^ 20).
Proof. vm_compute. reflexivity. Qed.

Example size_fraction : parse_byte_size " 1.5k" = Some 1536.
Proof. vm_compute. reflexivity. Qed.

Example size_negative : parse_byte_size "-1G" = None.
Proof. vm_compute. reflexivity. Qed.

(** 2^64 bytes do not fit a [u64], and are taken for the largest one. *)
Example size_overflow_saturates :
  parse_byte_size "17179869184GB" = Some u64_max ∧ parse_byte_size "17179869185GB" = None.
Proof. vm_compute. done. Qed.

Example hops_in_unit : parse_hops "1.1" = None ∧ is_Some (parse_hops "0, 0.3,1e0").
Proof. vm_compute. eauto. Qed.

(* ------------------------------------------------------------------ *)
(** * Delivery *)

Inductive QueueEvent :=
| QEnter (h : Z)
| QLeave (h : Z)
| QSet (key value : string)
| QDrain (h : Z).

(** The handle that a setting goes to, told from the events alone, the most
    recent first: the handle opened last of those that have not been closed.
    [closed] counts, for each handle, the closings that are still to be matched
    with an opening. *)
Definition count_up (h : Z) (closed : Z → nat) : Z → nat := λ g, if g =? h then S (closed g) else closed g.
Definition count_down (h : Z) (closed : Z → nat) : Z → nat := λ g, if g =? h then pred (closed g) else closed g.

Fixpoint current (past : list QueueEvent) (closed : Z → nat) : option Z :=
  match past with
  | [] => None
  | QEnter h :: past => if (closed h =? 0)%nat then Some h else current past (count_down h closed)
  | QLeave h :: past => current past (count_up h closed)
  | _ :: past => current past closed
  end.

Definition none_closed : Z → nat := λ _, 0%nat.

(** What the events assign to a handle: the valid settings that were made while
    it was the current one. *)
Fixpoint assigned (past evs : list QueueEvent) (h : Z) : list SettingUpdate :=
  match evs with
  | [] => []
  | QSet k v as ev :: evs =>
    match validate k v with
    | Ok _ => if bool_decide (current past none_closed = Some h) then [(k, v)] else []
    | _ => []
    end ++ assigned (ev :: past) evs h
  | ev :: evs => assigned (ev :: past) evs h
  end.

(** The code's queues after the events, and what each handle has been given by
    its drains. *)
Record Ledger := { lg_queues : Queues; lg_drained : Z → list SettingUpdate }.

Definition queue_event (l : Ledger) (ev : QueueEvent) : Ledger :=
  let q := lg_queues l in
  match ev with
  | QEnter h => {| lg_queues := enter_handle h q; lg_drained := lg_drained l |}
  | QLeave h => {| lg_queues := leave_handle h q; lg_drained := lg_drained l |}
  | QSet k v => {| lg_queues := (set k v q).2; lg_drained := lg_drained l |}
  | QDrain h =>
    let '(us, q') := drain_queue h q in
    {| lg_queues := q'; lg_drained := λ g, if g =? h then lg_drained l g ++ us else lg_drained l g |}
  end.

Definition run_events (evs : list QueueEvent) : Ledger :=
  foldl queue_event {| lg_queues := {| queues := ∅; queue_stack := [] |}; lg_drained := λ _, [] |} evs.

Lemma run_events_snoc evs ev : run_events (evs ++ [ev]) = queue_event (run_events evs) ev.
Proof. unfold run_events. by rewrite foldl_app. Qed.

Lemma queue_of_insert q h g us :
  queue_of (q <| queues ::= <[h := us]> |>) g = if g =? h then us else queue_of q g.
Proof.
  unfold queue_of. cbn. destruct (Z.eqb_spec g h) as [->|Hne]; [by rewrite lookup_insert_eq|by rewrite lookup_insert_ne].
Qed.

(** The stack, from its top, without the handles that are still to be closed. *)
Fixpoint first_open (l : list Z) (closed : Z → nat) : option Z :=
  match l with
  | [] => None
  | h :: l => if (closed h =? 0)%nat then Some h else first_open l (count_down h closed)
  end.

Lemma first_open_ext l c1 c2 : (∀ h, c1 h = c2 h) → first_open l c1 = first_open l c2.
Proof.
  revert c1 c2. induction l as [|h l IH]; intros c1 c2 Hc; [done|]. cbn. rewrite Hc. case_match; [done|].
  apply IH. intros g. unfold count_down. by rewrite Hc.
Qed.

Lemma first_open_remove l h closed : first_open (remove_first h l) closed = first_open l (count_up h closed).
Proof.
  revert closed. induction l as [|g l IH]; intros closed; [done|]. cbn [remove_first first_open].
  unfold count_up at 1. destruct (Z.eqb_spec g h) as [->|Hne].
  - cbn [Nat.eqb]. apply first_open_ext. intros g. unfold count_up, count_down. by destruct (Z.eqb_spec g h).
  - cbn [first_open]. case_match; [done|]. rewrite IH. apply first_open_ext. intros g'. unfold count_up, count_down.
    by destruct (Z.eqb_spec g' h), (Z.eqb_spec g' g); subst.
Qed.

Lemma set_stack k v q : queue_stack (set k v q).2 = queue_stack q.
Proof. unfold set, push_to_current. destruct (validate k v); [|done..]. by destruct (top_queue q). Qed.

Lemma stack_current evs closed :
  first_open (rev (queue_stack (lg_queues (run_events evs)))) closed = current (rev evs) closed.
Proof.
  revert closed. induction evs as [|ev evs IH] using rev_ind; intros closed; [done|].
  rewrite run_events_snoc, rev_app_distr. destruct ev as [h|h|k v|h]; cbn [queue_event lg_queues rev app current drain_queue].
  - cbn. rewrite rev_app_distr. cbn. by rewrite <-!IH.
  - cbn. rewrite rev_involutive, first_open_remove. apply IH.
  - rewrite set_stack. apply IH.
  - apply IH.
Qed.

Lemma top_current evs : top_queue (lg_queues (run_events evs)) = current (rev evs) none_closed.
Proof.
  rewrite <-stack_current. unfold top_queue. set (s := queue_stack _). clearbody s.
  destruct s as [|h s] using rev_ind; [done|]. rewrite last_snoc, rev_app_distr. done.
Qed.

Lemma assigned_snoc past evs ev h :
  assigned past (evs ++ [ev]) h = assigned past evs h ++ assigned (rev evs ++ past) [ev] h.
Proof.
  revert past. induction evs as [|e evs IH]; intros past; [done|].
  assert (∀ p, rev evs ++ e :: p = rev (e :: evs) ++ p) as Hrev by (intros p; cbn; by rewrite <-app_assoc).
  cbn [app]. destruct e; cbn [assigned]; rewrite IH, Hrev; by rewrite ?app_assoc.
Qed.

Lemma delivered evs h :
  lg_drained (run_events evs) h ++ queue_of (lg_queues (run_events evs)) h = assigned [] evs h.
Proof.
  induction evs as [|ev evs IH] using rev_ind; [done|].
  rewrite run_events_snoc, assigned_snoc, <-IH, app_nil_r. set (l := run_events evs).
  destruct ev as [g|g|k v|g]; cbn [queue_event lg_queues lg_drained assigned drain_queue]; rewrite ?app_nil_r; try done.
  - rewrite <-top_current. fold l. unfold set, push_to_current. destruct (validate k v) as [[]|e|].
    + destruct (top_queue (lg_queues l)) as [g|]; cbn [snd].
      * rewrite queue_of_insert. destruct (Z.eqb_spec h g) as [->|Hne].
        -- rewrite bool_decide_eq_true_2 by done. by rewrite app_assoc.
        -- rewrite bool_decide_eq_false_2 by congruence. by rewrite app_nil_r.
      * by rewrite app_nil_r.
    + by rewrite app_nil_r.
    + by rewrite app_nil_r.
  - rewrite queue_of_insert. destruct (Z.eqb_spec h g) as [->|]; [|done]. by rewrite app_nil_r.
Qed.

(** C38. Settings go to the handle that was opened last and not closed since,
    and each is drained once.  After any openings, closings, settings and
    drains, [set] accepts what is valid exactly when such a handle is open; what
    a handle has drained and what waits in its queue are the settings made while
    it was that handle, in their order; and a drain gives it all that waits. *)
Theorem settings_delivered evs h :
  let l := run_events evs in
  (∀ k v, (set k v (lg_queues l)).1 = Ok () ↔ validate k v = Ok () ∧ is_Some (current (rev evs) none_closed)) ∧
  lg_drained l h ++ queue_of (lg_queues l) h = assigned [] evs h ∧
  lg_drained (run_events (evs ++ [QDrain h])) h = assigned [] evs h.
Proof.
  cbn zeta. split; [|split; [apply delivered|]].
  - intros k v. rewrite <-top_current. unfold set, push_to_current. destruct (validate k v) as [[]|e|]; [|naive_solver..].
    destruct (top_queue _); cbn; [split; [by eauto|done]|split; [done|by intros [_ []]]].
  - rewrite <-delivered, run_events_snoc. cbn. by rewrite Z.eqb_refl.
Qed.
