(* ===== verification/Vfs.v ===== *)
(** The state the connections of a database share, and programs over it: the
    disk cache, the storage backend, the live manifest, the groups waiting for
    an upload and the staging logs (src/src/tiered/mod.rs, vfs.rs). *)

From S2P Require Import Prelude Keys CacheTracking LocalState Compress File DiskCache.
From S2P Require Import Staging Manifest Backend.

(** [v_logs] is the staging directory. *)
Record Vfs (K B : Type) := {
  v_cache : DiskCache K;
  v_backend : B;
  v_manifest : Manifest;
  v_dirty_groups : gset Z;
  v_pending : list PendingFlush;
  v_logs : gmap string bytes
}.
Arguments v_cache {_ _}. Arguments v_backend {_ _}. Arguments v_manifest {_ _}.
Arguments v_dirty_groups {_ _}. Arguments v_pending {_ _}. Arguments v_logs {_ _}.

#[export] Instance Vfs_settable K B : Settable (Vfs K B) := {| rebuild := λ w, {|
  v_cache := v_cache w; v_backend := v_backend w; v_manifest := v_manifest w;
  v_dirty_groups := v_dirty_groups w; v_pending := v_pending w; v_logs := v_logs w |} |}.

Definition Prog (K B A : Type) : Type := Vfs K B → io A * Vfs K B.

#[export] Instance Prog_ret K B : MRet (Prog K B) := λ A a w, (Ok a, w).
#[export] Instance Prog_bind K B : MBind (Prog K B) := λ A C f m w,
  match m w with
  | (Ok a, w') => f a w'
  | (Err e, w') => (Err e, w')
  | (Panic, w') => (Panic, w')
  end.

Section prog.
Context {K B : Type}.

Definition pure {A} (r : io A) : Prog K B A := λ w, (r, w).
Definition reads {A} (f : Vfs K B → A) : Prog K B A := λ w, (Ok (f w), w).
Definition update_vfs (f : Vfs K B → Vfs K B) : Prog K B () := λ w, (Ok (), f w).

Definition on_cache {A} (m : M K A) : Prog K B A := λ w,
  let '(r, c) := m (v_cache w) in (r, w <| v_cache := c |>).

Definition on_backend {A} (f : B → io A * B) : Prog K B A := λ w,
  let '(r, b) := f (v_backend w) in (r, w <| v_backend := b |>).

(** A result that is looked at, or dropped. *)
Definition attempt {A} (m : Prog K B A) : Prog K B (io_kind + A) := λ w,
  match m w with
  | (Ok a, w') => (Ok (inr a), w')
  | (Err e, w') => (Ok (inl e), w')
  | (Panic, w') => (Panic, w')
  end.

Fixpoint fold_prog {A C} (f : A → C → Prog K B A) (acc : A) (l : list C) : Prog K B A :=
  match l with
  | [] => mret acc
  | x :: l => acc ← f acc x; fold_prog f acc l
  end.
End prog.

(* ------------------------------------------------------------------ *)
(** * Page 0 *)

Definition SQLITE_DB_HEADER_LEN : Z := 100.

(** A big-endian integer of [n] bytes at an offset that is in range. *)
Definition be_at (n : nat) (off : Z) (data : bytes) : Z :=
  of_be (take n (drop (Z.to_nat off) data)).

Definition read_file_change_counter (page0 : bytes) : Z :=
  if Z.of_nat (length page0) <? 28 then 0 else be_at 4 24 page0.

Definition validate_replay_cursor_page0 (cache_cc manifest_cc : Z) (cache_page0 : bytes)
    (manifest_page0 : option bytes) : io () :=
  if (cache_cc =? 0) && (manifest_cc =? 0) then Err InvalidData else
  if manifest_cc <=? cache_cc then Ok () else
  match manifest_page0 with
  | None => Ok ()
  | Some page0 =>
    let compare_len := Z.min SQLITE_DB_HEADER_LEN
      (Z.min (Z.of_nat (length cache_page0)) (Z.of_nat (length page0))) in
    if compare_len <? SQLITE_DB_HEADER_LEN then Ok () else
    guard_err (negb (bool_decide (take (Z.to_nat compare_len) cache_page0 =
                                  take (Z.to_nat compare_len) page0))) InvalidData
  end.

Definition resolve_manifest_replay_cursor `{Compression} `{Aead K} (m : Manifest) : M K Z :=
  page0 ← read_page 0 (zeros (Z.to_nat (Manifest.page_size m)));
  let cache_cc := read_file_change_counter page0 in
  _ ← lift (validate_replay_cursor_page0 cache_cc (change_counter m) page0 (db_header m));
  mret (Z.max cache_cc (change_counter m)).

(* ------------------------------------------------------------------ *)
(** * Bundles and page types *)

(** Pages per chunk; the sizes [validate_field_ranges] admits divide 32 MiB. *)
Definition bundle_chunk_range (page_size : Z) : Z := 32 * 2 ^ 20 / page_size.

(** The offset of the B-tree header in a page. *)
Definition header_offset (page_num : Z) : Z := if page_num =? 0 then 100 else 0.

Definition type_byte (page_num : Z) (buf : bytes) : option Z :=
  (λ b, of_le [b]) <$> at_index buf (header_offset page_num).

(** The sum in the code is a [u16]. *)
Definition is_valid_btree_page (buf : bytes) (hdr_offset : Z) : bool :=
  if Z.of_nat (length buf) <? hdr_offset + 8 then false else
  let cell_count := be_at 2 (hdr_offset + 3) buf in
  let content_area := be_at 2 (hdr_offset + 5) buf in
  let frag_bytes := be_at 1 (hdr_offset + 7) buf in
  if (cell_count =? 0) || (10000 <? cell_count) then false else
  let min_content_offset := wrap16 (hdr_offset + 8 + 2 * cell_count) in
  if negb (content_area =? 0) &&
     ((content_area <? min_content_offset) || (Z.of_nat (length buf) <? content_area)) then false else
  negb (128 <? frag_bytes).

Definition is_interior (page_num : Z) (buf : bytes) : bool :=
  bool_decide (type_byte page_num buf = Some 5 ∨ type_byte page_num buf = Some 2).

Definition is_index_leaf (page_num : Z) (buf : bytes) : bool :=
  bool_decide (type_byte page_num buf = Some 10) && is_valid_btree_page buf (header_offset page_num).
