(* ===== verification/Compact.v ===== *)
(** Compaction of override frames (src/src/tiered/compact.rs): the overrides of a
    group are folded back into a new object of the group. *)

From S2P Require Import Prelude Keys Compress Encoding File DiskCache.
From S2P Require Import Staging Manifest Backend ColdRead Vfs.

(** [while v.len() <= i { v.push(d) }; v[i] = x]. *)
Definition set_at {A} (d : A) (i : Z) (x : A) (l : list A) : list A :=
  <[Z.to_nat i := x]> (grow_to (Z.to_nat i + 1) d l).

(** [if let Some(x) = v.get_mut(i) { *x = f(x) }]. *)
Definition alter_at {A} (f : A → A) (i : Z) (l : list A) : list A :=
  if i <? 0 then l else alter f (Z.to_nat i) l.

Record OverrideCompactResult := {
  ocr_gid : Z;
  ocr_new_key : string;
  ocr_new_frame_table : list FrameEntry;
  ocr_encoded : bytes;
  ocr_replaced_keys : list string
}.

Section compact.
Context `{HashIter} `{Compression} `{Aead K} `{StorageBackend B}.
(** The random draws of an object's frames. *)
Variable rnd : string → Z → bytes.
Variable encode_manifest : Manifest → option bytes.
Variable decode_manifest : bytes → option Manifest.
Variable key : option K.

(** [data[i * ps .. i * ps + ps]] for each [i], where the data reach that far. *)
Definition page_slots (n ps : Z) (data : bytes) : list (option bytes) :=
  (λ i, slice (i * ps) (i * ps + ps) data) <$> range 0 n.

(** The pages of the group's base object, by position. *)
Definition decode_base (m : Manifest) (gid group_size : Z) (base_data : bytes) : io (list (option bytes)) :=
  match group_frames m gid with
  | Some ft =>
    '(_, _, bulk) ← decode_page_group_seekable_full base_data ft (Manifest.page_size m) (wrap32 group_size)
                      (page_count m) 0 (aad_page_group gid) key;
    Ok (page_slots group_size (Manifest.page_size m) bulk)
  | None =>
    '(_, _, pages) ← decode_page_group base_data (aad_page_group gid) key;
    Ok ((λ i, at_index pages i) <$> range 0 group_size)
  end.

(** One override written over the positions of its frame; a frame that starts
    beyond the group is a slice out of range. *)
Definition overlay_frame (ps sub_ppf frame_idx : Z) (raw : bytes) (pages : list (option bytes)) :
    io (list (option bytes)) :=
  let frame_start := frame_idx * sub_ppf in
  let frame_end := Z.min (frame_start + sub_ppf) (Z.of_nat (length pages)) in
  if frame_end <? frame_start then Panic else
  Ok (imap (λ i old,
    let j := Z.of_nat i - frame_start in
    if (0 <=? j) && (Z.of_nat i <? frame_end)
    then match slice (j * ps) (j * ps + ps) raw with Some d => Some d | None => old end
    else old) pages).

Definition apply_override (m : Manifest) (gid : Z) (acc : list (option bytes) * list string)
    (fo : Z * SubframeOverride) : Prog K B (list (option bytes) * list string) :=
  data ← on_backend (get_page_group (ovr_key fo.2));
  data ← pure (ok_or data NotFound);
  raw ← pure (decode_seekable_subchunk data (aad_override_frame gid fo.1) key);
  pages ← pure (overlay_frame (Manifest.page_size m) (Manifest.sub_pages_per_frame m) fo.1 raw acc.1);
  mret (pages, acc.2 ++ [ovr_key fo.2]).

Definition encode_compacted (m : Manifest) (gid : Z) (new_key : string) (pages : list (option bytes)) :
    io (bytes * list FrameEntry) :=
  let sub_ppf := Manifest.sub_pages_per_frame m in
  if 0 <? sub_ppf
  then encode_page_group_seekable pages (Manifest.page_size m) sub_ppf (rnd new_key) (aad_page_group gid) key
  else encoded ← encode_page_group pages (Manifest.page_size m) (rnd new_key 0) (aad_page_group gid) key;
       Ok (encoded, []).

Definition compact_override_group (gid : Z) (m : Manifest) (next_version : Z) :
    Prog K B OverrideCompactResult :=
  let group_size := Z.of_nat (length (group_page_nums m gid)) in
  overrides ← pure (ok_or (at_index (subframe_overrides m) gid) InvalidInput);
  _ ← pure (guard_err (bool_decide (overrides = ∅)) InvalidInput);
  base_key ← pure (ok_or (at_index (page_group_keys m) gid) NotFound);
  base_data ← on_backend (get_page_group base_key);
  base_data ← pure (ok_or base_data NotFound);
  pages ← pure (decode_base m gid group_size base_data);
  '(pages, replaced) ← fold_prog (apply_override m gid) (pages, [base_key]) (hiter overrides);
  let new_key := page_group_key gid next_version in
  '(encoded, ft) ← pure (encode_compacted m gid new_key pages);
  mret {| ocr_gid := gid; ocr_new_key := new_key; ocr_new_frame_table := ft;
          ocr_encoded := encoded; ocr_replaced_keys := replaced |}.

(** The groups with at least [threshold] overrides, or with any. *)
Definition groups_to_compact (threshold : option Z) (m : Manifest) : list Z :=
  fst <$> filter (λ go, negb (bool_decide (go.2 = ∅)) &&
                        match threshold with
                        | Some t => t <=? Z.of_nat (size go.2)
                        | None => true
                        end) (enumerate (subframe_overrides m)).

(** A group that cannot be compacted is left as it is. *)
Definition compact_step (m : Manifest) (next_version : Z) (acc : list OverrideCompactResult) (gid : Z) :
    Prog K B (list OverrideCompactResult) :=
  r ← attempt (compact_override_group gid m next_version);
  mret (match r with inr result => acc ++ [result] | inl _ => acc end).

Definition install_compacted (m : Manifest) (r : OverrideCompactResult) : Manifest :=
  m <| page_group_keys ::= set_at ""%string (ocr_gid r) (ocr_new_key r) |>
    <| frame_tables ::= set_at [] (ocr_gid r) (ocr_new_frame_table r) |>
    <| subframe_overrides ::= alter_at (λ _, ∅) (ocr_gid r) |>.

Definition compact_overrides_inner (threshold : option Z) : Prog K B Z :=
  m ← reads v_manifest;
  let gids := groups_to_compact threshold m in
  if bool_decide (gids = []) then mret 0 else
  let next_version := wrap64 (version m + 1) in
  results ← fold_prog (compact_step m next_version) [] gids;
  if bool_decide (results = []) then mret 0 else
  _ ← on_backend (put_page_groups ((λ r, (ocr_new_key r, ocr_encoded r)) <$> results));
  _ ← update_vfs (λ w, w <| v_manifest ::= λ m, foldl install_compacted m results <| version := next_version |> |>);
  m' ← reads v_manifest;
  _ ← on_backend (put_manifest encode_manifest decode_manifest m');
  _ ← attempt (on_backend (delete_objects (concat (ocr_replaced_keys <$> results))));
  mret (Z.of_nat (length results)).

Definition auto_compact_overrides (compaction_threshold : Z) : Prog K B Z :=
  compact_overrides_inner (Some compaction_threshold).

Definition compact_all_overrides : Prog K B Z := compact_overrides_inner None.
End compact.
