(* ===== verification/CacheView.v ===== *)
(** Correctness of the local disk cache (DiskCache.v).  A cache stands for a
    partial map from page numbers to pages, its [view]: what a presence-checked
    read of a whole page returns.  The invariant [cache_ok] ties the bitmap, the
    index, the file and the in-memory cache together; every operation keeps it
    and acts on the view as its contract says. *)

From S2P Require Import Prelude Float64 CacheTracking Manifest LocalState Compress File DiskCache Keeps.

(** What the cache relies on from zstd and AES-GCM: neither refuses a page, a
    compressed page is not empty and fits a [u32], a sealed page grows by the
    tag alone, nonces have twelve bytes. *)
Class CacheLaws `{Compression} `{Aead K} (nonce : Z → bytes) := {
  compress_total : ∀ d, is_Some (encode_all d);
  compress_bound : ∀ d c, encode_all d = Some c → Z.of_nat (length d) ≤ 2 ^ 16 →
    d ≠ [] → 0 < Z.of_nat (length c) < 2 ^ 31;
  seal_total : ∀ k n d, is_Some (gcm_encrypt k n [] d);
  seal_length : ∀ k n d c, gcm_encrypt k n [] d = Some c → length c = (length d + 16)%nat;
  nonce_length : ∀ i, length (nonce i) = 12%nat
}.

Section cache_view.
Context `{HashIter} `{Compression} `{Aead K}.
Implicit Types c : DiskCache K.

(** The cache with no system-call failure ahead. *)
Definition quiet (c : DiskCache K) : DiskCache K := c <| faults := [] |>.

(** What reading page [p] returns, [None] when it is not present. *)
Definition view (c : DiskCache K) (p : Z) : option bytes :=
  match (read_page_if_present p (zeros (Z.to_nat (page_size c))) (quiet c)).1 with
  | Ok (Some d) => Some d
  | _ => None
  end.

(** Where a present page lives in the cache file. *)
Definition region (c : DiskCache K) (p : Z) : option (Z * Z) :=
  if cache_is_present c p then
    if cache_compression (cfg c) then (λ e, (ce_offset e, compressed_len e)) <$> entries (cache_index c) !! p
    else Some (p * slot_stride c, slot_stride c)
  else None.

Definition decrypt_slot (cf : CacheConfig K) (b : bytes) : option bytes :=
  match encryption_key cf with
  | Some k => match decrypt_gcm_random_nonce b [] k with Ok d => Some d | _ => None end
  | None => Some b
  end.

(** The page held by the bytes of a slot or blob. *)
Definition decode_slot (cf : CacheConfig K) (ps : Z) (b : bytes) : option bytes :=
  d ← decrypt_slot cf b;
  d ← (if cache_compression cf then match decompress_capped d ps with Ok d => Some d | _ => None end
       else Some d);
  if Z.of_nat (length d) =? ps then Some d else None.

Definition stored (c : DiskCache K) (p : Z) : option bytes :=
  '(o, n) ← region c p;
  b ← file_read_at n o (cache_file c);
  decode_slot (cfg c) (page_size c) b.

(** The index: blobs are non-empty, apart, below the append offset, and that is
    within the file. *)
Record index_ok (i : CacheIndex) (file_len : Z) : Prop := {
  idx_range : ∀ p e, entries i !! p = Some e →
    0 ≤ ce_offset e ∧ 0 < compressed_len e ∧ ce_offset e + compressed_len e ≤ next_offset i;
  idx_apart : ∀ p q e f, entries i !! p = Some e → entries i !! q = Some f → p ≠ q →
    ce_offset e + compressed_len e ≤ ce_offset f ∨ ce_offset f + compressed_len f ≤ ce_offset e;
  idx_next : 0 ≤ next_offset i ≤ file_len
}.

(** Page numbers for which no slot arithmetic wraps: a database of 2^46 pages.
    The group sizes are bounded so that positional groups stay below it. *)
Definition page_num_ok (p : Z) : Prop := 0 ≤ p < 2 ^ 46.

Record cache_ok (c : DiskCache K) : Prop := {
  ok_groups : ∀ pages, pages ∈ group_pages c → Forall page_num_ok pages;
  ok_ppg : 0 ≤ pages_per_group (cfg c) ≤ 2 ^ 13;
  ok_spf : 0 ≤ sub_pages_per_frame (cfg c) ≤ 2 ^ 13;
  ok_quiet : faults c = [];
  ok_taint : tainted c = false;
  ok_ps : 0 < page_size c ≤ 2 ^ 16;
  ok_len : cache_file_len c = Z.of_nat (length (cache_file c));
  ok_max : Z.of_nat (length (cache_file c)) < 2 ^ 63;
  ok_index : cache_compression (cfg c) = true →
    index_ok (cache_index c) (Z.of_nat (length (cache_file c)));
  ok_stored : ∀ p, 0 ≤ p → cache_is_present c p → is_Some (stored c p);
  ok_mem : cache_compression (cfg c) = false → ∀ p d, 0 ≤ p →
    cache_is_present c p → mem_slot c p = Some d → stored c p = Some d
}.

(* ------------------------------------------------------------------ *)
(** * Reading *)

Lemma stored_length c p d : stored c p = Some d → Z.of_nat (length d) = page_size c.
Proof.
  unfold stored, decode_slot. intros Hs.
  destruct (region c p) as [[o n]|]; [cbn in Hs|done].
  destruct (file_read_at _ _ _) as [b|]; [cbn in Hs|done].
  destruct (decrypt_slot _ _) as [d'|]; [cbn in Hs|done].
  destruct (cache_compression _).
  - destruct (decompress_capped _ _); [cbn in Hs|done|done].
    destruct (Z.eqb_spec (Z.of_nat (length a)) (page_size c)); naive_solver.
  - cbn in Hs. destruct (Z.eqb_spec (Z.of_nat (length d')) (page_size c)); naive_solver.
Qed.

Lemma stored_present c p d : stored c p = Some d → cache_is_present c p.
Proof. unfold stored, region. by destruct (cache_is_present c p). Qed.

Lemma region_bounds c p o n :
  cache_ok c → 0 ≤ p → region c p = Some (o, n) →
  0 ≤ o ∧ 0 < n ∧ o + n ≤ Z.of_nat (length (cache_file c)) ∧
  ∃ b, file_read_at n o (cache_file c) = Some b ∧
       decode_slot (cfg c) (page_size c) b = stored c p.
Proof.
  intros Hok Hp Hr. pose proof (ok_ps _ Hok) as Hps.
  assert (0 ≤ o ∧ 0 < n) as [Ho Hn].
  { unfold region, slot_stride, slot_width, GCM_RANDOM_NONCE_OVERHEAD in Hr. destruct (cache_is_present c p); [|done].
    destruct (cache_compression (cfg c)) eqn:Hc.
    - apply fmap_Some in Hr as (e & He & [= -> ->]).
      by destruct (idx_range _ _ (ok_index _ Hok Hc) _ _ He) as (? & ? & _).
    - injection Hr as <- <-. destruct (encryption_key _); nia. }
  split; [done|]. split; [done|].
  destruct (ok_stored _ Hok p Hp) as [d Hd]; [unfold region in Hr; by destruct (cache_is_present c p)|].
  unfold stored in Hd |- *. rewrite Hr in Hd |- *. cbn in Hd |- *.
  destruct (file_read_at n o (cache_file c)) as [b|] eqn:Hb; [|done]. cbn in Hd |- *.
  split; [|by exists b]. by apply file_read_at_Some in Hb as [? _].
Qed.

Lemma copy_prefix_full d buf : length d = length buf → copy_prefix d buf = d.
Proof. intros Hl. unfold copy_prefix. by rewrite drop_ge, app_nil_r by lia. Qed.

Lemma slot_offset_id c p : 0 ≤ p * slot_stride c < 2 ^ 64 → slot_offset c p = p * slot_stride c.
Proof. intros ?. unfold slot_offset. by apply wrap64_id. Qed.

Lemma read_exact_at_run c n off d :
  faults c = [] → 0 < n → 0 ≤ off < 2 ^ 63 → file_read_at n off (cache_file c) = Some d →
  read_exact_at n off c = (Ok d, c).
Proof.
  intros Hq Hn Ho Hd. unfold read_exact_at. destruct (Z.eqb_spec n 0); [lia|].
  unfold mbind, M_bind, pop_fault. rewrite Hq. destruct (Z.leb_spec (2 ^ 63) off); [lia|].
  cbn. unfold lift, gets. by rewrite Hd.
Qed.

(** A read of a whole present page, in each of the three formats. *)
Lemma read_page_run c p buf :
  cache_ok c → 0 ≤ p → cache_is_present c p → Z.of_nat (length buf) = page_size c →
  (read_page p buf c).1 = ok_or (stored c p) OtherKind.
Proof.
  intros Hok Hp Hpres Hbuf. destruct (ok_stored _ Hok p Hp Hpres) as [d Hd]. rewrite Hd. cbn [ok_or].
  pose proof (stored_length _ _ _ Hd) as Hlen. pose proof (ok_ps _ Hok) as Hps.
  assert (∃ o n, region c p = Some (o, n)) as (o & n & Hr).
  { unfold stored in Hd. destruct (region c p) as [[o n]|]; [by eexists _, _|done]. }
  destruct (region_bounds _ _ _ _ Hok Hp Hr) as (Ho & Hn & Hfile & b & Hb & Hdec).
  pose proof (ok_max _ Hok) as Hmax. rewrite Hd in Hdec.
  unfold read_page, check_tainted, mbind, M_bind, gets, lift. rewrite (ok_taint _ Hok). cbn [guard_err compose].
  unfold region in Hr. rewrite (Is_true_true_1 _ Hpres) in Hr. unfold decode_slot, decrypt_slot in Hdec.
  destruct (cache_compression (cfg c)) eqn:Hc.
  - apply fmap_Some in Hr as (e & He & [= -> ->]).
    unfold read_page_compressed, mbind, M_bind, gets, lift. unfold index_get. rewrite He. cbn [ok_or].
    rewrite (read_exact_at_run c _ _ b) by first [apply Hok | lia | exact Hb]. cbn [compose].
    destruct (encryption_key (cfg c)) as [k|].
    + destruct (decrypt_gcm_random_nonce b [] k) as [d'| |]; [|done|done]. cbn in Hdec |- *.
      destruct (decompress_capped d' (page_size c)) as [d''| |]; [|done|done]. cbn in Hdec |- *.
      destruct (Z.eqb_spec (Z.of_nat (length d'')) (page_size c)) as [Hl|]; [|done].
      injection Hdec as ->. destruct (Nat.leb_spec (length buf) (length d)); [|lia]. cbn.
      by rewrite take_ge by lia.
    + cbn in Hdec |- *.
      destruct (decompress_capped b (page_size c)) as [d''| |]; [|done|done]. cbn in Hdec |- *.
      destruct (Z.eqb_spec (Z.of_nat (length d'')) (page_size c)) as [Hl|]; [|done].
      injection Hdec as ->. destruct (Nat.leb_spec (length buf) (length d)); [|lia]. cbn.
      by rewrite take_ge by lia.
  - injection Hr as <- <-.
    destruct (mem_slot c p) as [page|] eqn:Hm.
    + apply (ok_mem _ Hok Hc) in Hm; [|done|done]. assert (page = d) as -> by congruence.
      cbn. rewrite take_ge by lia. f_equal. apply copy_prefix_full. lia.
    + unfold slot_stride, slot_width in *. destruct (encryption_key (cfg c)) as [k|].
      * rewrite wrap64_id by (unfold is_u64; lia).
        rewrite (read_exact_at_run c _ _ b) by first [apply Hok | lia | exact Hb].
        destruct (decrypt_gcm_random_nonce b [] k) as [d'| |]; [|done|done]. cbn in Hdec |- *.
        destruct (Z.eqb_spec (Z.of_nat (length d')) (page_size c)) as [Hl|]; [|done].
        injection Hdec as ->. f_equal. rewrite take_ge by lia.
        apply copy_prefix_full. lia.
      * rewrite wrap64_id by (unfold is_u64; lia). rewrite Hbuf.
        rewrite (read_exact_at_run c _ _ b) by first [apply Hok | lia | exact Hb].
        cbn in Hdec. destruct (Z.eqb_spec (Z.of_nat (length b)) (page_size c)); [|done].
        by injection Hdec as ->.
Qed.

Lemma take_while_all {A} (P : A → bool) l : Forall (λ x, P x = true) l → take_while P l = l.
Proof. induction 1 as [|x l Hx Hl IH]; cbn; [done|]. by rewrite Hx, IH. Qed.

Lemma zeros_size c : 0 < page_size c ≤ 2 ^ 16 → Z.of_nat (length (zeros (Z.to_nat (page_size c)))) = page_size c.
Proof. intros ?. unfold zeros. rewrite length_replicate. lia. Qed.

Lemma quiet_id c : faults c = [] → quiet c = c.
Proof. destruct c; cbn. by intros ->. Qed.

Lemma view_stored c p : cache_ok c → 0 ≤ p → view c p = stored c p.
Proof.
  intros Hok Hp. unfold view. rewrite quiet_id by apply Hok.
  unfold read_page_if_present, mbind, M_bind, gets.
  destruct (cache_is_present c p) eqn:Hpres; cbn [negb].
  - pose proof (read_page_run c p (zeros (Z.to_nat (page_size c))) Hok Hp ltac:(by rewrite Hpres) ltac:(by apply zeros_size, ok_ps)) as Hr.
    destruct (ok_stored _ Hok p Hp ltac:(by rewrite Hpres)) as [d Hd]. rewrite Hd in Hr |- *. cbn in Hr.
    destruct (read_page _ _ c) as [r c']. cbn in Hr. by rewrite Hr.
  - cbn. unfold stored, region. by rewrite Hpres.
Qed.

(* ------------------------------------------------------------------ *)
(** * Removal *)

(** A page whose region and bytes are kept is kept. *)
Lemma stored_frame c c' p :
  cfg c' = cfg c → page_size c' = page_size c → cache_is_present c' p = cache_is_present c p →
  (cache_compression (cfg c) = true → entries (cache_index c') !! p = entries (cache_index c) !! p) →
  (∀ o n, region c p = Some (o, n) → file_read_at n o (cache_file c') = file_read_at n o (cache_file c)) →
  stored c' p = stored c p.
Proof.
  intros Hcfg Hps Hpres Hidx Hread.
  assert (region c' p = region c p) as Hr.
  { unfold region, slot_stride. rewrite Hcfg, Hps, Hpres. destruct (cache_is_present c p); [|done].
    destruct (cache_compression (cfg c)) eqn:Hc; [|done]. by rewrite Hidx. }
  unfold stored. rewrite Hr. destruct (region c p) as [[o n]|]; [|done]. cbn.
  rewrite (Hread o n) by done. by rewrite Hcfg, Hps.
Qed.

Lemma stored_absent c p : cache_is_present c p = false → stored c p = None.
Proof. intros Hp. unfold stored, region. by rewrite Hp. Qed.

Lemma at_index_insert {A} (l : list A) i j (x : A) :
  0 ≤ i → at_index (<[Z.to_nat i := x]> l) j =
  if decide (i = j ∧ i < Z.of_nat (length l)) then Some x else at_index l j.
Proof.
  intros Hi. unfold at_index. destruct (Z.ltb_spec j 0) as [Hj|Hj]; [by rewrite decide_False by lia|].
  destruct (decide (i = j ∧ i < Z.of_nat (length l))) as [[-> Hl]|Hn].
  - apply list_lookup_insert_eq. lia.
  - destruct (decide (i = j)) as [->|Hne].
    + rewrite !lookup_ge_None_2; rewrite ?length_insert; [done|lia|lia].
    + apply list_lookup_insert_ne. lia.
Qed.

(** The fields of the in-memory cache are the only ones its operations touch. *)
Definition same_but_mem (c c' : DiskCache K) : Prop :=
  ∃ m b, c' = c <| mem_cache := m |> <| mem_cache_bytes := b |>.

Lemma same_but_mem_refl c : same_but_mem c c.
Proof. exists (mem_cache c), (mem_cache_bytes c). by destruct c. Qed.

Lemma same_but_mem_trans c1 c2 c3 : same_but_mem c1 c2 → same_but_mem c2 c3 → same_but_mem c1 c3.
Proof. intros (m & b & ->) (m' & b' & ->). by exists m', b'. Qed.

Lemma drop_slot_spec p c :
  same_but_mem c (drop_slot p c) ∧
  ∀ q, mem_slot (drop_slot p c) q = if decide (q = p) then None else mem_slot c q.
Proof.
  unfold drop_slot. destruct (mem_slot c p) as [d|] eqn:Hs.
  - unfold mem_slot in Hs. destruct (mem_cache c) as [slots|] eqn:Hm; [cbn in Hs|done].
    assert (0 ≤ p ∧ p < Z.of_nat (length slots)) as [Hp Hl].
    { unfold at_index in Hs. destruct (Z.ltb_spec p 0); [done|].
      destruct (slots !! Z.to_nat p) eqn:Hl; [|done]. apply lookup_lt_Some in Hl. lia. }
    unfold set_slot. destruct (Z.ltb_spec p 0); [lia|]. split.
    + eexists _, _. unfold set_field. cbn. reflexivity.
    + intros q. unfold mem_slot. cbn. rewrite Hm. cbn. rewrite at_index_insert by done.
      destruct (decide (q = p)) as [->|Hq]; [by rewrite decide_True|].
      rewrite decide_False; [done|]. intros [? _]. by subst.
  - split; [apply same_but_mem_refl|]. intros q. by destruct (decide (q = p)) as [->|].
Qed.

Lemma drop_slots_spec l c :
  same_but_mem c (drop_slots l c) ∧
  ∀ q, mem_slot (drop_slots l c) q = if decide (q ∈ l) then None else mem_slot c q.
Proof.
  unfold drop_slots. revert c. induction l as [|p l IH]; intros c; cbn.
  - split; [apply same_but_mem_refl|]. intros q. rewrite decide_False; [done|]. apply not_elem_of_nil.
  - destruct (drop_slot_spec p c) as [Hs Hm]. destruct (IH (drop_slot p c)) as [Hs' Hm'].
    split; [by eapply same_but_mem_trans|]. intros q. rewrite Hm', Hm.
    destruct (decide (q ∈ l)), (decide (q = p)), (decide (q ∈ p :: l)); set_solver.
Qed.

Lemma punch_slots_length stride l f : length (foldl (punch_slot stride) f l) = length f.
Proof.
  revert f. induction l as [|p l IH]; intros f; cbn; [done|]. rewrite IH. unfold punch_slot.
  case_match; [apply length_file_punch|done].
Qed.

Lemma punch_slots_read stride l f n o :
  0 < stride ≤ 2 ^ 17 → Forall page_num_ok l → 0 ≤ o → 0 ≤ n → o + n ≤ Z.of_nat (length f) →
  (∀ p, p ∈ l → o + n ≤ p * stride ∨ p * stride + stride ≤ o) →
  file_read_at n o (foldl (punch_slot stride) f l) = file_read_at n o f.
Proof.
  intros Hs Hl Ho Hn. revert f. induction Hl as [|p l Hp Hl IH]; intros f Hf Hd; [done|]. cbn.
  unfold page_num_ok in Hp.
  assert (punch_slot stride f p = file_punch (p * stride) stride f) as Hpunch.
  { unfold punch_slot. rewrite wrap64_id by (unfold is_u64; nia).
    destruct (Z.ltb_spec (p * stride) (2 ^ 63)); [done|nia]. }
  rewrite IH.
  - rewrite Hpunch. apply read_punch_disjoint; [nia|lia|lia|lia|lia|]. apply Hd. by left.
  - by rewrite Hpunch, length_file_punch.
  - intros q Hq. apply Hd. by right.
Qed.

(** ** Clearing pages *)

Lemma is_present_bool_ext (a b : bool) : (a ↔ b) → a = b.
Proof. destruct a, b; cbn; tauto. Qed.

Lemma removed_fold i l q : entries (foldl index_remove i l) !! q =
  if decide (q ∈ l) then None else entries i !! q.
Proof.
  revert i. induction l as [|p l IH]; intros i; cbn.
  - rewrite decide_False; [done|]. apply not_elem_of_nil.
  - rewrite IH. cbn. destruct (decide (q ∈ l)) as [Hq|Hq]; [by rewrite decide_True by by right|].
    destruct (decide (q = p)) as [->|Hne].
    + rewrite decide_True by by left. by rewrite lookup_delete_eq.
    + rewrite lookup_delete_ne by done. rewrite decide_False; [done|]. set_solver.
Qed.

Lemma removed_next i l : next_offset (foldl index_remove i l) = next_offset i.
Proof. revert i. induction l as [|p l IH]; intros i; cbn; [done|]. by rewrite IH. Qed.

Lemma removed_index_ok i l n : index_ok i n → index_ok (foldl index_remove i l) n.
Proof.
  intros [Hr Ha Hn]. split.
  - intros p e. rewrite removed_fold, removed_next. case_decide; [done|]. apply Hr.
  - intros p q e f. rewrite !removed_fold. do 2 (case_decide; [done|]). apply Ha.
  - by rewrite removed_next.
Qed.

(** What [clear_pages_from_disk] does: it never fails, keeps everything but the
    bitmap, the in-memory pages, the index and the file, and takes exactly the
    listed pages out of the view. *)
Record cleared (pages : list Z) (c c' : DiskCache K) : Prop := {
  cl_state : c' = c <| bitmap := bitmap c' |> <| mem_cache := mem_cache c' |>
    <| mem_cache_bytes := mem_cache_bytes c' |> <| cache_index := cache_index c' |>
    <| cache_file := cache_file c' |>;
  cl_ok : cache_ok c';
  cl_stored : ∀ p, 0 ≤ p → stored c' p = if decide (p ∈ pages) then None else stored c p
}.

Lemma slot_stride_bounds c : cache_ok c → 0 < slot_stride c ≤ 2 ^ 16 + 28.
Proof.
  intros Hok. pose proof (ok_ps _ Hok). unfold slot_stride, slot_width, GCM_RANDOM_NONCE_OVERHEAD.
  destruct (encryption_key _); lia.
Qed.

Lemma cleared_present pages c c' p :
  Forall page_num_ok pages → 0 ≤ p → cfg c' = cfg c →
  bitmap c' = foldl CacheTracking.clear (bitmap c) pages →
  (cache_compression (cfg c) = true → cache_index c' = foldl index_remove (cache_index c) pages) →
  cache_is_present c' p = if decide (p ∈ pages) then false else cache_is_present c p.
Proof.
  intros Hpages Hp Hcfg Hb Hi. apply is_present_bool_ext.
  assert (CacheTracking.is_present (bitmap c') p ↔ CacheTracking.is_present (bitmap c) p ∧ p ∉ pages) as Hbit.
  { rewrite Hb. apply clear_fold_spec; [done|]. eapply Forall_impl; [done|]. unfold page_num_ok. lia. }
  unfold cache_is_present. rewrite Hcfg.
  destruct (cache_compression (cfg c)) eqn:Hc; cbn; [|case_decide; cbn; tauto].
  rewrite Hi by done. unfold index_contains. rewrite removed_fold.
  destruct (CacheTracking.is_present (bitmap c') p), (CacheTracking.is_present (bitmap c) p);
    cbn in *; case_decide; cbn; tauto.
Qed.

Lemma clear_pages_run pages c :
  cache_ok c → Forall page_num_ok pages →
  ∃ c', clear_pages_from_disk pages c = (Ok (), c') ∧ cleared pages c c'.
Proof.
  intros Hok Hpages. eexists. split; [reflexivity|]. cbv beta zeta.
  destruct (drop_slots_spec pages (c <| bitmap ::= λ b, foldl CacheTracking.clear b pages |>))
    as [(m & b & Hsame) Hmem].
  rewrite Hsame in Hmem |- *. clear Hsame. unfold modify.
  match goal with |- cleared _ _ ?x => set (c' := x) end.
  assert (c' = c <| bitmap := bitmap c' |> <| mem_cache := m |>
    <| mem_cache_bytes := b |> <| cache_index := cache_index c' |> <| cache_file := cache_file c' |>) as Hc'.
  { unfold c'. cbn. by destruct (cache_compression (cfg c)). }
  assert (bitmap c' = foldl CacheTracking.clear (bitmap c) pages) as Hb.
  { unfold c'. cbn. by destruct (cache_compression (cfg c)). }
  assert (cache_compression (cfg c) = true →
    cache_index c' = foldl index_remove (cache_index c) pages ∧ cache_file c' = cache_file c) as Hcomp.
  { unfold c'. cbn. by intros ->. }
  assert (cache_compression (cfg c) = false →
    cache_file c' = foldl (punch_slot (slot_stride c)) (cache_file c) pages) as Hplain.
  { unfold c'. cbn. by intros ->. }
  assert (mem_cache c' = m) as Hm by (rewrite Hc'; done).
  assert (cfg c' = cfg c ∧ page_size c' = page_size c ∧ faults c' = faults c ∧ tainted c' = tainted c ∧
    cache_file_len c' = cache_file_len c ∧ group_pages c' = group_pages c) as (Hcfg & Hps & Hf & Ht & Hl & Hg)
    by (rewrite Hc'; done).
  assert (∀ q, mem_slot c' q = if decide (q ∈ pages) then None else mem_slot c q) as Hslot.
  { intros q. rewrite <-Hmem. unfold mem_slot. by rewrite Hm. }
  clearbody c'. clear Hmem.
  assert (∀ p, 0 ≤ p → cache_is_present c' p = if decide (p ∈ pages) then false else cache_is_present c p) as Hpres.
  { intros p Hp. apply cleared_present; try done. intros Hc. by apply Hcomp. }
  pose proof (slot_stride_bounds _ Hok) as Hstr.
  assert (length (cache_file c') = length (cache_file c)) as Hlen.
  { destruct (cache_compression (cfg c)) eqn:Hc; [by destruct (Hcomp eq_refl) as [_ ->]|].
    rewrite Hplain by done. apply punch_slots_length. }
  assert (∀ p, 0 ≤ p → stored c' p = if decide (p ∈ pages) then None else stored c p) as Hstored.
  { intros p Hp. case_decide as Hin.
    - apply stored_absent. by rewrite Hpres, decide_True.
    - apply stored_frame; try done.
      + by rewrite Hpres, decide_False.
      + intros Hc. destruct (Hcomp Hc) as [-> _]. by rewrite removed_fold, decide_False.
      + intros o n Hr. destruct (region_bounds _ _ _ _ Hok Hp Hr) as (Ho & Hn & Hon & _).
        destruct (cache_compression (cfg c)) eqn:Hc; [by destruct (Hcomp eq_refl) as [_ ->]|].
        rewrite Hplain by done. apply punch_slots_read; try done; try lia.
        intros q Hq. unfold region in Hr. rewrite Hc in Hr.
        destruct (cache_is_present c p); [|done]. injection Hr as <- <-.
        assert (p ≠ q) by (intros ->; done).
        assert (p < q ∨ q < p) as [?|?] by lia; [left|right]; nia. }
  split; [rewrite Hc' at 1; rewrite Hc'; reflexivity| |done].
  destruct Hok. split; try (rewrite ?Hcfg, ?Hps, ?Hf, ?Ht, ?Hl, ?Hg, ?Hlen; done).
  - intros Hc. rewrite Hcfg in Hc. rewrite Hlen. destruct (Hcomp Hc) as [-> _].
    apply removed_index_ok. auto.
  - intros p Hp. rewrite Hpres, Hstored by done. case_decide; [done|]. auto.
  - rewrite Hcfg. intros Hc p d Hp. rewrite Hpres, Hslot, Hstored by done. case_decide; [done|]. auto.
Qed.

(* ------------------------------------------------------------------ *)
(** * Eviction *)

(** Two caches with the same pages in the same places: tracker, group states,
    statistics and annotations may differ. *)
Definition same_store (c c' : DiskCache K) : Prop :=
  cfg c' = cfg c ∧ page_size c' = page_size c ∧ cache_file c' = cache_file c ∧
  cache_file_len c' = cache_file_len c ∧ mem_cache c' = mem_cache c ∧ bitmap c' = bitmap c ∧
  group_pages c' = group_pages c ∧ cache_index c' = cache_index c ∧ tainted c' = tainted c ∧
  faults c' = faults c.

Lemma same_store_present c c' p : same_store c c' → cache_is_present c' p = cache_is_present c p.
Proof.
  intros (Hcf & Hps & Hf & Hl & Hm & Hb & Hg & Hi & Ht & Hq).
  unfold cache_is_present. by rewrite Hcf, Hb, Hi.
Qed.

Lemma same_store_stored c c' p : same_store c c' → stored c' p = stored c p.
Proof.
  intros Hs. pose proof (same_store_present _ _ p Hs) as Hp.
  destruct Hs as (Hcf & Hps & Hf & Hl & Hm & Hb & Hg & Hi & Ht & Hq).
  apply stored_frame; try done; [by rewrite Hi|]. intros. by rewrite Hf.
Qed.

Lemma same_store_ok c c' : same_store c c' → cache_ok c → cache_ok c'.
Proof.
  intros Hs Hok. pose proof (λ p, same_store_present _ _ p Hs) as Hp.
  pose proof (λ p, same_store_stored _ _ p Hs) as Hst.
  destruct Hs as (Hcf & Hps & Hf & Hl & Hm & Hb & Hg & Hi & Ht & Hq). destruct Hok.
  split; rewrite ?Hcf, ?Hps, ?Hf, ?Hl, ?Hg, ?Hi, ?Ht, ?Hq; try done.
  - intros p. rewrite Hp, Hst. auto.
  - intros Hc p d Hp0. rewrite Hp, Hst. unfold mem_slot. rewrite Hm. by apply ok_mem0.
Qed.

(** Sub-chunk identifiers are [u32] group numbers and [u16] frame numbers. *)
Definition id_ok (id : SubChunkId) : Prop := is_u32 (sc_group_id id) ∧ is_u16 (sc_frame_index id).

Lemma range_page_num_ok a b : 0 ≤ a → b ≤ 2 ^ 46 → Forall page_num_ok (range a b).
Proof. intros Ha Hb. apply Forall_forall. intros p Hp%elem_of_range. unfold page_num_ok. lia. Qed.

Lemma at_index_elem {A} (l : list A) i x : at_index l i = Some x → x ∈ l.
Proof. unfold at_index. case_match; [done|]. apply list_elem_of_lookup_2. Qed.

Lemma group_page_nums_ok c gid :
  cache_ok c → is_u32 gid → Forall page_num_ok (cache_group_page_nums c gid).
Proof.
  intros Hok Hg. unfold cache_group_page_nums. destruct (at_index _ _) as [pages|] eqn:Hat.
  - by eapply ok_groups, at_index_elem.
  - pose proof (ok_ppg _ Hok). unfold is_u32 in Hg.
    rewrite (wrap64_id (gid * _)) by (unfold is_u64; nia).
    rewrite wrap64_id by (unfold is_u64; nia). apply range_page_num_ok; nia.
Qed.

Lemma sub_chunk_page_nums_ok c id :
  cache_ok c → id_ok id → Forall page_num_ok (sub_chunk_page_nums c id).
Proof.
  intros Hok [Hg Hf]. unfold sub_chunk_page_nums. destruct (at_index _ _) as [pages|] eqn:Hat.
  - apply Forall_take, Forall_drop. by eapply ok_groups, at_index_elem.
  - pose proof (ok_ppg _ Hok). pose proof (ok_spf _ Hok). unfold is_u32, is_u16 in *.
    rewrite (wrap64_id (sc_group_id id * _)) by (unfold is_u64; nia).
    rewrite (wrap64_id (sc_frame_index id * _)) by (unfold is_u64; nia).
    rewrite (wrap64_id (_ + _)) by (unfold is_u64; nia).
    rewrite wrap64_id by (unfold is_u64; nia). apply range_page_num_ok; nia.
Qed.

(** The pages of a list of sub-chunks. *)
Definition pages_of_sub_chunks (c : DiskCache K) (ids : list SubChunkId) : list Z :=
  ids ≫= sub_chunk_page_nums c.

Record evicted_subs (ids : list SubChunkId) (c c' : DiskCache K) : Prop := {
  ev_cfg : cfg c' = cfg c;
  ev_ps : page_size c' = page_size c;
  ev_groups : group_pages c' = group_pages c;
  ev_states : group_states c' = group_states c;
  ev_tracker : tracker c' = remove_all (tracker c) ids;
  ev_ok : cache_ok c';
  ev_stored : ∀ p, 0 ≤ p →
    stored c' p = if decide (p ∈ pages_of_sub_chunks c ids) then None else stored c p
}.

Lemma evicted_subs_nil c : cache_ok c → evicted_subs [] c c.
Proof.
  intros Hok. by split.
Qed.

Lemma evict_sub_chunk_run id c :
  cache_ok c → id_ok id → ∃ c', evict_sub_chunk id c = (Ok (), c') ∧ evicted_subs [id] c c'.
Proof.
  intros Hok Hid. unfold evict_sub_chunk, mbind, M_bind, gets, modify.
  destruct (clear_pages_run (sub_chunk_page_nums c id) c) as (c1 & Hrun & [Hst Hok1 Hs1]);
    [done|by apply sub_chunk_page_nums_ok|].
  rewrite Hrun. eexists. split; [reflexivity|].
  match goal with |- evicted_subs _ _ ?x => assert (same_store c1 x) as Hsame by (repeat split) end.
  split; try (rewrite Hst; reflexivity).
  - by eapply same_store_ok.
  - intros p Hp. rewrite (same_store_stored _ _ p Hsame), Hs1 by done.
    unfold pages_of_sub_chunks. cbn. by rewrite app_nil_r.
Qed.

(** Evictions leave the append offset where it is. *)
Lemma victims_next n budget l k : keeps (λ c, next_offset (cache_index c) = n) (evict_victims budget l k).
Proof.
  revert k. induction l as [|id l IH]; intros k; cbn [evict_victims]; keeps_all; [|by apply IH..].
  unfold evict_sub_chunk. keeps_all; [|by apply keeps_modify]. unfold clear_pages_from_disk. apply keeps_modify. intros c Hc.
  cbn zeta. destruct (drop_slots_spec a1 (c <| bitmap ::= λ b, foldl CacheTracking.clear b a1 |>)) as [(m & b & ->) _].
  cbn. destruct (cache_compression (cfg c)); cbn; [by rewrite removed_next|done].
Qed.

Lemma evicted_subs_cons id ids c1 c2 c3 :
  evicted_subs [id] c1 c2 → evicted_subs ids c2 c3 → evicted_subs (id :: ids) c1 c3.
Proof.
  intros [Hc Hps Hg Hst Ht Ho Hs] [Gc Gps Gg Gst Gt Go Gs]. split; try congruence.
  - rewrite Gt, Ht. done.
  - intros p Hp. rewrite Gs, Hs by done.
    assert (pages_of_sub_chunks c2 ids = pages_of_sub_chunks c1 ids) as ->.
    { unfold pages_of_sub_chunks, sub_chunk_page_nums. by rewrite Hc, Hg. }
    unfold pages_of_sub_chunks. cbn. rewrite app_nil_r.
    destruct (decide (p ∈ ids ≫= sub_chunk_page_nums c1)) as [Hin|Hin];
      destruct (decide (p ∈ sub_chunk_page_nums c1 id)) as [Hi|Hi];
      destruct (decide (p ∈ sub_chunk_page_nums c1 id ++ _)) as [Ha|Ha]; set_solver.
Qed.

(** The loop evicts a prefix-closed choice of the victims: all those it meets
    while over budget whose group is not being fetched. *)
Lemma evict_victims_run budget victims n c :
  cache_ok c → Forall id_ok victims → is_u32 n →
  ∃ ids met rest c',
    evict_victims budget victims n c = (Ok (wrap32 (n + Z.of_nat (length ids))), c') ∧
    evicted_subs ids c c' ∧ victims = met ++ rest ∧
    ids = filter (λ id, group_state c (sc_group_id id) ≠ Fetching) met ∧
    (rest = [] ∨ current_cache_bytes (tracker c') ≤ budget).
Proof.
  intros Hok Hv. revert n c Hok. induction Hv as [|id victims Hid Hv IH]; intros n c Hok Hn.
  { exists [], [], [], c. cbn. rewrite Z.add_0_r, wrap32_id by done.
    split_and!; try done; by left. }
  cbn [evict_victims]. unfold mbind, M_bind, gets, over_budget.
  destruct (Z.ltb_spec budget (current_cache_bytes (tracker c))) as [Hov|Hov]; cbn [negb].
  2: { exists [], [], (id :: victims), c. cbn. rewrite Z.add_0_r, wrap32_id by done.
       split_and!; try done; by right. }
  destruct (decide (group_state c (sc_group_id id) = Fetching)) as [Hf|Hf].
  - rewrite bool_decide_true by done. destruct (IH n c Hok Hn) as (ids & met & rest & c' & Hr & He & Hm & Hi & Hd).
    exists ids, (id :: met), rest, c'. split; [exact Hr|]. split; [done|].
    split; [by rewrite Hm|]. split; [|done]. rewrite filter_cons_False; [done|]. tauto.
  - rewrite bool_decide_false by done.
    destruct (evict_sub_chunk_run id c Hok Hid) as (c1 & Hrun & He1). rewrite Hrun.
    destruct (IH (wrap32 (n + 1)) c1 (ev_ok _ _ _ He1)) as (ids & met & rest & c' & Hr & He & Hm & Hi & Hd).
    { apply Z.mod_pos_bound. lia. }
    exists (id :: ids), (id :: met), rest, c'. split.
    { etransitivity; [exact Hr|]. do 2 f_equal. unfold wrap32. rewrite Zplus_mod_idemp_l.
      f_equal. cbn [length]. lia. }
    split; [by eapply evicted_subs_cons|]. split; [by rewrite Hm|]. split; [|done].
    rewrite filter_cons_True by done. f_equal. rewrite Hi. apply list_filter_iff. intros x.
    unfold group_state. by rewrite (ev_states _ _ _ He1).
Qed.

(** ** The sorted victims *)

Lemma insert_scored_perm x l : insert_scored x l ≡ₚ x :: l.
Proof.
  induction l as [|y l IH]; cbn; [done|]. case_match; [|done]. rewrite IH. constructor.
Qed.

Lemma sort_scored_perm l : sort_scored l ≡ₚ l.
Proof. induction l as [|x l IH]; cbn; [done|]. by rewrite insert_scored_perm, IH. Qed.

Definition score_le (x y : SubChunkId * f64) : Prop := ¬ f64_lt y.2 x.2.

Lemma insert_scored_sorted x l :
  x.2 ≠ SpecFloat.S754_nan → Forall (λ y, y.2 ≠ SpecFloat.S754_nan) l →
  StronglySorted score_le l → StronglySorted score_le (insert_scored x l).
Proof.
  intros Hx. induction l as [|y l IH]; intros Hl Hs; cbn; [by repeat constructor|].
  inversion_clear Hl as [|?? Hy Hl']. inversion_clear Hs as [|?? Hs' Hall].
  destruct (f64_lt y.2 x.2) eqn:Hlt.
  - constructor; [by apply IH|]. rewrite insert_scored_perm. constructor; [|done].
    unfold score_le. intros Hxy. eapply f64_lt_irrefl, f64_lt_trans; [exact Hxy|]. by rewrite Hlt.
  - constructor; [by constructor|]. constructor; [unfold score_le; rewrite Hlt; cbn; tauto|].
    eapply Forall_impl; [exact Hall|]. unfold score_le. intros z Hz Hzx.
    destruct (f64_lt_cotrans z.2 y.2 x.2 Hy Hzx) as [?|Hyx]; [done|]. by rewrite Hlt in Hyx.
Qed.

Lemma sort_scored_sorted l :
  Forall (λ y, y.2 ≠ SpecFloat.S754_nan) l → StronglySorted score_le (sort_scored l).
Proof.
  induction 1 as [|x l Hx Hl IH]; cbn; [constructor|]. apply insert_scored_sorted; [done| |done].
  by rewrite sort_scored_perm.
Qed.

(* ------------------------------------------------------------------ *)
(** * Compaction *)

Lemma set_len_run n c :
  faults c = [] → n < 2 ^ 63 → set_len n c = (Ok (), c <| cache_file ::= file_set_len n |>).
Proof.
  intros Hq Hn. unfold set_len, mbind, M_bind, pop_fault. rewrite Hq.
  by destruct (Z.leb_spec (2 ^ 63) n); [lia|].
Qed.

Lemma write_all_at_run d off c :
  faults c = [] → off < 2 ^ 63 →
  write_all_at d off c = (Ok (), c <| cache_file ::= file_write_at d off |>).
Proof.
  intros Hq Ho. unfold write_all_at. case_bool_decide as Hd.
  - subst d. by destruct c.
  - unfold mbind, M_bind, pop_fault. rewrite Hq. by destruct (Z.leb_spec (2 ^ 63) off); [lia|].
Qed.

Abbreviation located := (Z * (Z * CacheIndexEntry))%type.

Definition before (x y : located) : Prop := ce_offset x.2.2 + compressed_len x.2.2 ≤ ce_offset y.2.2.

(** What the loop has done to a list of located blobs. *)
Record packed (l : list located) (cursor cursor' : Z) (f f' : bytes)
    (acc acc' : gmap Z CacheIndexEntry) : Prop := {
  pk_len : length f' = length f;
  pk_end : cursor' = cursor + foldr (λ x s, compressed_len x.2.2 + s) 0 l;
  pk_old : ∀ p, p ∉ (λ x, x.2.1) <$> l → acc' !! p = acc !! p;
  pk_new : ∀ x, x ∈ l → ∃ off, acc' !! x.2.1 = Some {| ce_offset := off; compressed_len := compressed_len x.2.2 |} ∧
    cursor ≤ off ∧ off + compressed_len x.2.2 ≤ cursor' ∧
    file_read_at (compressed_len x.2.2) off f' = file_read_at (compressed_len x.2.2) (ce_offset x.2.2) f;
  pk_apart : ∀ p q e g, p ∈ (λ x, x.2.1) <$> l → q ∈ (λ x, x.2.1) <$> l → p ≠ q →
    acc' !! p = Some e → acc' !! q = Some g →
    ce_offset e + compressed_len e ≤ ce_offset g ∨ ce_offset g + compressed_len g ≤ ce_offset e;
  pk_below : ∀ n o, 0 ≤ n → 0 ≤ o → o + n ≤ cursor → file_read_at n o f' = file_read_at n o f
}.

Lemma compact_fold_run l acc cursor c :
  faults c = [] → 0 ≤ cursor → Z.of_nat (length (cache_file c)) < 2 ^ 63 →
  NoDup ((λ x, x.2.1) <$> l) → StronglySorted before l →
  Forall (λ x, cursor ≤ ce_offset x.2.2 ∧ 0 < compressed_len x.2.2 ∧
    ce_offset x.2.2 + compressed_len x.2.2 ≤ Z.of_nat (length (cache_file c))) l →
  ∃ acc' cursor' f', fold_m compact_entry (acc, cursor) l c = (Ok (acc', cursor'), c <| cache_file := f' |>) ∧
    cursor ≤ cursor' ∧ (l ≠ [] → cursor' ≤ Z.of_nat (length (cache_file c))) ∧
    packed l cursor cursor' (cache_file c) f' acc acc'.
Proof.
  revert acc cursor c. induction l as [|[k [p e]] l IH]; intros acc cursor c Hq Hcur Hmax Hnd Hs Hl.
  { exists acc, cursor, (cache_file c). split; [by destruct c|]. split; [lia|]. split; [done|].
    split; try done; cbn; [lia|intros x Hx|intros q r e g Hx]; set_solver. }
  cbn in Hnd. apply NoDup_cons in Hnd as [Hp Hnd]. apply StronglySorted_inv in Hs as [Hs' Hbef].
  apply Forall_cons in Hl as [(Hc0 & Hpos & Hend) Hl']. cbn in Hc0, Hpos, Hend, Hp.
  destruct (file_read_at (compressed_len e) (ce_offset e) (cache_file c)) as [blob|] eqn:Hblob.
  2: { unfold file_read_at in Hblob. destruct (Z.eqb_spec (compressed_len e) 0); [lia|].
       unfold slice in Hblob. destruct (Z.leb_spec 0 (ce_offset e)); [|lia].
       destruct (Z.leb_spec (ce_offset e) (ce_offset e + compressed_len e)); [|lia].
       destruct (Z.leb_spec (ce_offset e + compressed_len e) (Z.of_nat (length (cache_file c)))); [done|lia]. }
  pose proof (file_read_at_length (compressed_len e) _ _ _ ltac:(lia) Hblob) as Hlen.
  set (f1 := if cursor =? ce_offset e then cache_file c else file_write_at blob cursor (cache_file c)).
  assert (length f1 = length (cache_file c)) as Hlen1.
  { unfold f1. destruct (cursor =? ce_offset e); [done|].
    rewrite length_file_write_at; [lia|done|]. intros ->. cbn in Hlen. lia. }
  assert (file_read_at (compressed_len e) cursor f1 = Some blob) as Hread1.
  { unfold f1. destruct (Z.eqb_spec cursor (ce_offset e)) as [->|]; [done|].
    rewrite <-Hlen. by apply read_write_same. }
  assert (∀ n o, 0 ≤ n → 0 ≤ o → o + n ≤ Z.of_nat (length (cache_file c)) →
    o + n ≤ cursor ∨ cursor + compressed_len e ≤ o → file_read_at n o f1 = file_read_at n o (cache_file c)) as Hframe.
  { intros n o Hn Ho Hon Hd. unfold f1. destruct (cursor =? ce_offset e); [done|].
    apply read_write_disjoint; lia. }
  destruct (IH (<[p := {| ce_offset := cursor; compressed_len := compressed_len e |}]> acc)
    (cursor + compressed_len e) (c <| cache_file := f1 |>)) as (acc' & cursor' & f' & Hrun & Hle & Hcl & Hpk);
    [done|lia|cbn; by rewrite Hlen1|done|done| |].
  { cbn. rewrite Hlen1. rewrite Forall_forall in Hl', Hbef |- *. intros y Hy.
    specialize (Hl' y Hy). specialize (Hbef y Hy). unfold before in Hbef. cbn in Hbef. lia. }
  cbn in Hrun, Hcl, Hpk. rewrite Hlen1 in Hcl. exists acc', cursor', f'. split; [|split; [lia|split]].
  - cbn [fold_m compact_entry]. unfold mbind at 1, M_bind at 1. unfold mbind at 1, M_bind at 1.
    unfold try_io. rewrite (read_exact_at_run c _ _ blob) by (try done; lia).
    unfold mbind at 1, M_bind at 1. rewrite wrap64_id by (unfold is_u64; lia).
    transitivity (fold_m compact_entry (<[p:={| ce_offset := cursor; compressed_len := compressed_len e |}]> acc,
      cursor + compressed_len e) l (c <| cache_file := f1 |>)); [|exact Hrun].
    unfold f1. destruct (cursor =? ce_offset e).
    + cbn. f_equal. by destruct c.
    + rewrite write_all_at_run by (try done; lia). done.
  - intros _. destruct l as [|y l]; [|by apply Hcl].
    destruct Hpk as [_ -> _ _ _ _]. cbn. lia.
  - destruct Hpk as [P1 P2 P3 P4 P5 P6]. split; cbn.
    + by rewrite P1.
    + rewrite P2. lia.
    + intros q Hq'. rewrite not_elem_of_cons in Hq'. destruct Hq' as [Hqp Hql].
      rewrite P3 by done. by rewrite lookup_insert_ne.
    + intros x [->|Hx]%elem_of_cons; cbn.
      * exists cursor. rewrite P3 by done. rewrite lookup_insert_eq. split; [done|]. split; [lia|].
        split; [lia|]. rewrite P6 by lia. by rewrite Hread1.
      * destruct (P4 x Hx) as (off & Ha & Hlo & Hhi & Hr). exists off.
        rewrite Forall_forall in Hl', Hbef. specialize (Hl' x Hx). specialize (Hbef x Hx).
        unfold before in Hbef. cbn in Hbef. split; [done|]. split; [lia|]. split; [done|].
        rewrite Hr. apply Hframe; lia.
    + intros q r g h Hqi Hri Hne Hg Hh. apply elem_of_cons in Hqi, Hri.
      assert (∀ q r g h, q = p → r ∈ (λ x, x.2.1) <$> l → acc' !! q = Some g → acc' !! r = Some h →
        ce_offset g + compressed_len g ≤ ce_offset h) as Hfirst.
      { clear q r g h Hne Hqi Hri Hg Hh. intros q r g h -> Hr Hg Hh. rewrite P3, lookup_insert_eq in Hg by done.
        injection Hg as <-. apply list_elem_of_fmap in Hr as (x & -> & Hx).
        destruct (P4 x Hx) as (off & Ha & Hlo & _). rewrite Hh in Ha. injection Ha as ->. cbn. lia. }
      destruct Hqi as [->|Hqi], Hri as [->|Hri]; [done| | |by eapply (P5 q r)].
      * left. by eapply (Hfirst p r).
      * right. by eapply (Hfirst p q).
    + intros n o Hn Ho Hon. rewrite P6 by lia. apply Hframe; try lia.
Qed.

Lemma elem_of_entries_by_offset i x :
  x ∈ entries_by_offset i ↔ x.1 = ce_offset x.2.2 ∧ entries i !! x.2.1 = Some x.2.2.
Proof.
  unfold entries_by_offset. rewrite sort_by_key_perm, list_elem_of_fmap. split.
  - intros ([q e] & -> & Hx%elem_of_hiter). done.
  - destruct x as [k [q e]]. cbn. intros [-> Hx]. exists (q, e). split; [done|]. by apply elem_of_hiter.
Qed.

Lemma entries_by_offset_pages i : (λ x, x.2.1) <$> entries_by_offset i ≡ₚ (hiter (entries i)).*1.
Proof.
  unfold entries_by_offset. rewrite sort_by_key_perm, <-list_fmap_compose. done.
Qed.

Lemma entries_by_offset_before i n : index_ok i n → StronglySorted before (entries_by_offset i).
Proof.
  intros [Hr Ha _].
  assert (NoDup ((λ x, x.2.1) <$> entries_by_offset i)) as Hnd.
  { rewrite entries_by_offset_pages. apply NoDup_hiter. }
  assert (StronglySorted key_le (entries_by_offset i)) as Hs by apply (StronglySorted_merge_sort _).
  assert (∀ x, x ∈ entries_by_offset i → x.1 = ce_offset x.2.2 ∧ entries i !! x.2.1 = Some x.2.2) as Hin
    by (intros x; apply elem_of_entries_by_offset).
  induction Hs as [|x l Hs IH Hall]; [constructor|]. cbn in Hnd. apply NoDup_cons in Hnd as [Hx Hnd].
  constructor; [apply IH; [done|]; intros y Hy; apply Hin; by right|].
  rewrite Forall_forall in Hall |- *. intros y Hy. specialize (Hall y Hy). unfold key_le in Hall.
  destruct (Hin x ltac:(by left)) as [Hx1 Hx2]. destruct (Hin y ltac:(by right)) as [Hy1 Hy2].
  pose proof (Hr _ _ Hx2). pose proof (Hr _ _ Hy2). unfold before.
  destruct (Ha _ _ _ _ Hx2 Hy2); [|lia|lia].
  intros Heq. apply Hx. rewrite Heq. apply list_elem_of_fmap. eauto.
Qed.

(** The sum of the blob lengths. *)
Definition total_len (i : CacheIndex) : Z :=
  foldr (λ x s, compressed_len x.2.2 + s) 0 (entries_by_offset i).

(** The blobs fit below the append offset. *)
Lemma sum_before l lo hi :
  StronglySorted before l → lo ≤ hi →
  Forall (λ x : located, lo ≤ ce_offset x.2.2 ∧ 0 < compressed_len x.2.2 ∧ ce_offset x.2.2 + compressed_len x.2.2 ≤ hi) l →
  foldr (λ x s, compressed_len x.2.2 + s) 0 l ≤ hi - lo.
Proof.
  intros Hs. revert lo. induction Hs as [|x l Hs IH Hx]; intros lo Hlo Hl; cbn; [lia|].
  apply Forall_cons in Hl as [(? & ? & ?) Hl]. specialize (IH (ce_offset x.2.2 + compressed_len x.2.2) ltac:(lia)).
  assert (foldr (λ x s, compressed_len x.2.2 + s) 0 l ≤ hi - (ce_offset x.2.2 + compressed_len x.2.2)); [|lia].
  apply IH. rewrite Forall_forall in Hl, Hx |- *. intros y Hy. destruct (Hl y Hy) as (? & ? & ?). specialize (Hx y Hy).
  unfold before in Hx. lia.
Qed.

Lemma total_len_next i n : index_ok i n → total_len i ≤ next_offset i.
Proof.
  intros Hi. pose proof (sum_before (entries_by_offset i) 0 (next_offset i) (entries_by_offset_before i n Hi)) as Hs.
  unfold total_len. destruct (idx_next _ _ Hi). rewrite Z.sub_0_r in Hs. apply Hs; [done|]. apply Forall_forall.
  intros x [_ Hx]%elem_of_entries_by_offset. by apply (idx_range _ _ Hi x.2.1).
Qed.

Record compacted (c c' : DiskCache K) : Prop := {
  cp_state : c' = c <| cache_file := cache_file c' |> <| cache_file_len := cache_file_len c' |>
    <| cache_index := cache_index c' |>;
  cp_ok : cache_ok c';
  cp_stored : ∀ p, 0 ≤ p → stored c' p = stored c p;
  cp_pages : dom (entries (cache_index c')) = dom (entries (cache_index c));
  cp_packed : next_offset (cache_index c') = Z.of_nat (length (cache_file c')) ∧
    next_offset (cache_index c') = total_len (cache_index c)
}.

Lemma compact_run c :
  cache_ok c → cache_compression (cfg c) = true →
  ∃ c', compact_compressed_cache c = (Ok (), c') ∧ compacted c c'.
Proof.
  intros Hok Hc. pose proof (ok_index _ Hok Hc) as Hi.
  set (l := entries_by_offset (cache_index c)).
  assert (∀ x, x ∈ l → entries (cache_index c) !! x.2.1 = Some x.2.2) as Hl
    by (intros x Hx; by apply elem_of_entries_by_offset).
  destruct (compact_fold_run l ∅ 0 c) as (acc & cursor & f' & Hrun & Hcur & Hmax & Hpk);
    [apply Hok|done|apply Hok| |by eapply entries_by_offset_before| |].
  { unfold l. rewrite entries_by_offset_pages. apply NoDup_hiter. }
  { apply Forall_forall. intros x Hx. pose proof (idx_range _ _ Hi _ _ (Hl x Hx)).
    pose proof (idx_next _ _ Hi). lia. }
  destruct Hpk as [P1 P2 P3 P4 P5 P6]. pose proof (ok_max _ Hok) as Hflen.
  assert (cursor ≤ Z.of_nat (length (cache_file c))) as Hcf.
  { destruct l; [cbn in P2; lia|by apply Hmax]. }
  assert (∀ p, acc !! p = entries (cache_index c) !! p ∨ is_Some (entries (cache_index c) !! p)) as Hcase.
  { intros p. destruct (entries (cache_index c) !! p) as [e|] eqn:He; [right; by eexists|left].
    rewrite P3; [done|]. intros (x & -> & Hx)%list_elem_of_fmap. rewrite (Hl x Hx) in He. done. }
  assert (∀ p e, entries (cache_index c) !! p = Some e → (ce_offset e, (p, e)) ∈ l) as Hin
    by (intros p e He; by apply elem_of_entries_by_offset).
  assert (∀ p e', acc !! p = Some e' → p ∈ (λ x, x.2.1) <$> l) as Hdom.
  { intros p e' He'. destruct (entries (cache_index c) !! p) as [e|] eqn:He.
    - apply list_elem_of_fmap. by exists (ce_offset e, (p, e)); split; [|apply Hin].
    - destruct (Hcase p) as [Heq|[? Heq]]; congruence. }
  eexists. split.
  { unfold compact_compressed_cache, mbind, M_bind, gets. cbn. rewrite Hc. cbn. fold l. rewrite Hrun.
    rewrite set_len_run by (cbn; first [apply Hok|lia]). reflexivity. }
  match goal with |- compacted _ ?x => set (c' := x) end.
  assert (length (cache_file c') = Z.to_nat cursor) as Hlen' by apply length_file_set_len.
  assert (∀ n o, 0 ≤ n → 0 ≤ o → o + n ≤ cursor →
    file_read_at n o (cache_file c') = file_read_at n o f') as Hread.
  { intros n o Hn Ho Hon. apply read_set_len; lia. }
  assert (∀ p, cache_is_present c' p = cache_is_present c p) as Hpres.
  { intros p. unfold cache_is_present. cbn. destruct (cache_compression _ && _); [|done].
    unfold index_contains. cbn. apply bool_decide_ext.
    destruct (entries (cache_index c) !! p) as [e|] eqn:He.
    - destruct (P4 _ (Hin _ _ He)) as (off & Ha & _). cbn in Ha. rewrite Ha. split; by eexists.
    - destruct (Hcase p) as [Heq|[? Heq]]; [by rewrite Heq, He|congruence]. }
  assert (∀ p, 0 ≤ p → stored c' p = stored c p) as Hst.
  { intros p Hp. unfold stored, region. rewrite Hpres. destruct (cache_is_present c p); [|done].
    cbn [cfg]. unfold c' at 1 2. cbn. rewrite Hc.
    destruct (entries (cache_index c) !! p) as [e|] eqn:He; cbn.
    - destruct (P4 _ (Hin _ _ He)) as (off & Ha & Hlo & Hhi & Hr). cbn in Ha, Hlo, Hhi, Hr.
      pose proof (idx_range _ _ Hi _ _ He). rewrite Ha. cbn.
      rewrite <-Hr. rewrite <-(Hread _ off) by lia. done.
    - destruct (Hcase p) as [Heq|[? Heq]]; [by rewrite Heq, He|congruence]. }
  split; try done.
  - destruct Hok. split; try done; cbn.
    + fold c'. rewrite length_file_set_len. lia.
    + rewrite length_file_set_len. lia.
    + intros _. rewrite length_file_set_len. split; cbn.
      * intros p e' He'. apply Hdom in He' as Hpd. apply list_elem_of_fmap in Hpd as (x & -> & Hx).
        destruct (P4 x Hx) as (off & Ha & Hlo & Hhi & _). rewrite He' in Ha. injection Ha as ->. cbn.
        pose proof (idx_range _ _ Hi _ _ (Hl x Hx)). lia.
      * intros p q e g He Hg Hne. eapply (P5 p q); eauto.
      * lia.
    + intros p Hp. rewrite Hpres, Hst by done. auto.
    + congruence.
  - apply set_eq. intros p. rewrite !elem_of_dom. cbn.
    destruct (entries (cache_index c) !! p) as [e|] eqn:He.
    + destruct (P4 _ (Hin _ _ He)) as (off & Ha & _). cbn in Ha. rewrite Ha. split; by eexists.
    + destruct (Hcase p) as [Heq|[? Heq]]; [by rewrite Heq, He|congruence].
  - cbn. rewrite length_file_set_len. split; [lia|]. rewrite P2. done.
Qed.

(* ------------------------------------------------------------------ *)
(** * Eviction to a budget *)

(** The victims in eviction order. *)
Definition victims_of (c : DiskCache K) (now : Z) (skip : gset Z) : list SubChunkId :=
  fst <$> sort_scored (score_evictable (tracker c) now skip).

Lemma elem_of_victims c now skip id :
  id ∈ victims_of c now skip ↔
  id ∈ present (tracker c) ∧ tier_of (tracker c) id ≠ Pinned ∧ sc_group_id id ∉ skip.
Proof.
  unfold victims_of. rewrite sort_scored_perm, list_elem_of_fmap. split.
  - intros ([i s] & -> & (_ & Hi)%elem_of_score_evictable). done.
  - intros Hi. exists (id, score_of (tracker c) now id). split; [done|]. by apply elem_of_score_evictable.
Qed.

Lemma NoDup_victims c now skip : NoDup (victims_of c now skip).
Proof.
  unfold victims_of. rewrite sort_scored_perm. unfold score_evictable.
  rewrite <-list_fmap_compose.
  rewrite (list_fmap_ext _ id) by done. rewrite list_fmap_id. apply NoDup_filter, NoDup_hset_iter.
Qed.

Lemma victims_sorted c now skip :
  tracker_inv (tracker c) →
  map_Forall (λ _ a, now - a < 2 ^ 64 * 10 ^ 9) (access_times (tracker c)) →
  StronglySorted (λ i j, ¬ f64_lt (score_of (tracker c) now j) (score_of (tracker c) now i))
    (victims_of c now skip).
Proof.
  intros Hinv Hat. unfold victims_of.
  assert (∀ x, x ∈ score_evictable (tracker c) now skip → x.2 = score_of (tracker c) now x.1) as Hsc
    by (intros [i s] (-> & _)%elem_of_score_evictable; done).
  assert (StronglySorted score_le (sort_scored (score_evictable (tracker c) now skip))) as Hs.
  { apply sort_scored_sorted. apply Forall_forall. intros x Hx. rewrite Hsc by done.
    by apply score_not_nan. }
  assert (∀ x, x ∈ sort_scored (score_evictable (tracker c) now skip) → x.2 = score_of (tracker c) now x.1)
    as Hsc' by (intros x; rewrite sort_scored_perm; apply Hsc).
  clear Hsc. induction Hs as [|x l Hs IH Hall]; cbn; constructor; [apply IH; intros y Hy; apply Hsc'; by right|].
  apply Forall_fmap. rewrite Forall_forall in Hall |- *. intros y Hy. cbn.
  specialize (Hall y Hy). unfold score_le in Hall. by rewrite <-!Hsc' by (by left || by right).
Qed.

(** Only pinned sub-chunks account for the bytes: nothing is evictable. *)
Lemma only_pinned_left t :
  tracker_inv t → sub_chunk_byte_size t ≠ 0 → current_cache_bytes t ≤ pinned_bytes t →
  len t * sub_chunk_byte_size t < 2 ^ 64 → ∀ id, id ∈ present t → tier_of t id = Pinned.
Proof.
  intros [Hb Hs _ _] Hnz Hle Hmax id Hid. destruct (decide (tier_of t id = Pinned)) as [|Hn]; [done|]. exfalso.
  unfold pinned_bytes, count_tier in Hle. unfold len in *.
  set (pinned := filter (λ i, tier_of t i = Pinned) (present t)) in *.
  assert (size pinned < size (present t))%nat.
  { apply subset_size. unfold pinned. split; [set_solver|]. intros Hsub.
    specialize (Hsub id Hid). apply elem_of_filter in Hsub. tauto. }
  rewrite wrap64_id in Hle by (unfold is_u64; nia). nia.
Qed.

(** The sub-chunks an eviction must leave alone. *)
Definition protected (c : DiskCache K) (skip : gset Z) (id : SubChunkId) : Prop :=
  tier_of (tracker c) id = Pinned ∨ sc_group_id id ∈ skip ∨
  group_state c (sc_group_id id) = Fetching.

Record eviction_done (now budget : Z) (skip : gset Z) (ids : list SubChunkId) (c c' : DiskCache K) : Prop := {
  ed_ok : cache_ok c';
  ed_tracker : tracker c' = remove_all (tracker c) ids;
  ed_nodup : NoDup ids;
  ed_evicted : ∀ id, id ∈ ids → id ∈ present (tracker c) ∧ ¬ protected c skip id;
  ed_view : ∀ p, 0 ≤ p →
    view c' p = if decide (p ∈ pages_of_sub_chunks c ids) then None else view c p;
  ed_goal : current_cache_bytes (tracker c') ≤ budget ∨
    ∀ id, id ∈ present (tracker c') → protected c skip id;
  ed_order : ∀ id id', id ∈ ids → id' ∈ present (tracker c') → ¬ protected c skip id' →
    ¬ f64_lt (score_of (tracker c) now id') (score_of (tracker c) now id)
}.

Lemma eviction_done_frame now budget skip ids c c1 c2 :
  eviction_done now budget skip ids c c1 → cache_ok c2 → tracker c2 = tracker c1 →
  (∀ p, 0 ≤ p → stored c2 p = stored c1 p) → eviction_done now budget skip ids c c2.
Proof.
  intros [E1 E2 E3 E4 E5 E6 E7] Hok Ht Hs. split; rewrite ?Ht; try done.
  intros p Hp. rewrite view_stored, Hs, <-view_stored by done. auto.
Qed.

Lemma eviction_none now budget skip c :
  cache_ok c → current_cache_bytes (tracker c) ≤ budget ∨ (∀ id, id ∈ present (tracker c) → protected c skip id) →
  eviction_done now budget skip [] c c.
Proof.
  intros Hok Hg. split; try done; [apply NoDup_nil_2|set_solver|set_solver].
Qed.

Lemma evict_victims_done now budget skip c :
  cache_ok c → tracker_inv (tracker c) → set_Forall id_ok (present (tracker c)) →
  map_Forall (λ _ a, now - a < 2 ^ 64 * 10 ^ 9) (access_times (tracker c)) →
  ∃ ids c', evict_victims budget (victims_of c now skip) 0 c = (Ok (wrap32 (Z.of_nat (length ids))), c') ∧
    cfg c' = cfg c ∧ eviction_done now budget skip ids c c'.
Proof.
  intros Hok Hinv Hids Hat.
  destruct (evict_victims_run budget (victims_of c now skip) 0 c) as (ids & met & rest & c' & Hrun & He & Hv & Hf & Hd);
    [done| |done|].
  { apply Forall_forall. intros id (Hid & _)%elem_of_victims. by apply Hids. }
  exists ids, c'. split; [by rewrite Hrun|]. split; [apply He|].
  pose proof (NoDup_victims c now skip) as Hnd. pose proof (victims_sorted c now skip Hinv Hat) as Hsort.
  rewrite Hv in Hnd, Hsort.
  assert (∀ id, id ∈ met ++ rest ↔ id ∈ present (tracker c) ∧ tier_of (tracker c) id ≠ Pinned ∧ sc_group_id id ∉ skip)
    as Hel by (intros id; rewrite <-Hv; apply elem_of_victims).
  assert (present (tracker c') = present (tracker c) ∖ list_to_set ids) as Hpres
    by (rewrite (ev_tracker _ _ _ He); apply remove_all_present).
  assert (∀ id, id ∈ present (tracker c') → ¬ protected c skip id → id ∈ rest) as Hrest.
  { intros id Hid Hp. rewrite Hpres in Hid. apply elem_of_difference in Hid as [Hid Hni].
    unfold protected in Hp. assert (id ∈ met ++ rest) as [Hm|Hr]%elem_of_app by (apply Hel; tauto); [|done].
    exfalso. apply Hni, elem_of_list_to_set. rewrite Hf. apply list_elem_of_filter. tauto. }
  split.
  - apply He.
  - apply He.
  - rewrite Hf. apply NoDup_filter. by apply NoDup_app in Hnd as [? _].
  - intros id Hid. rewrite Hf in Hid. apply list_elem_of_filter in Hid as [Hs Hm].
    destruct (proj1 (Hel id)) as (? & ? & ?); [apply elem_of_app; by left|]. unfold protected. tauto.
  - intros p Hp. rewrite !view_stored by (done || apply He). by apply He.
  - destruct Hd as [->|Hd]; [right|by left]. intros id Hid.
    destruct (decide (tier_of (tracker c) id = Pinned)); [by left|].
    destruct (decide (sc_group_id id ∈ skip)); [by right; left|].
    destruct (decide (group_state c (sc_group_id id) = Fetching)); [by right; right|].
    exfalso. eapply not_elem_of_nil, (Hrest id Hid). unfold protected. tauto.
  - intros id id' Hid Hid' Hp. apply Hrest in Hid'; [|done].
    rewrite Hf in Hid. apply list_elem_of_filter in Hid as [_ Hm].
    by apply (StronglySorted_app_1_elem_of _ _ _ _ _ Hsort).
Qed.

(** C30. The budget eviction keeps its promises: it evicts, lowest score first,
    only sub-chunks that are not pinned, not skipped and not being fetched; it
    stops as soon as the cache is within budget, and otherwise leaves nothing
    evictable; and the pages of the sub-chunks it leaves read as before, also
    when it compacts the cache file. *)
Theorem evict_to_budget_spec now budget skip c :
  cache_ok c → tracker_inv (tracker c) → set_Forall id_ok (present (tracker c)) →
  len (tracker c) * sub_chunk_byte_size (tracker c) < 2 ^ 64 → len (tracker c) < 2 ^ 32 → 0 ≤ budget →
  map_Forall (λ _ a, now - a < 2 ^ 64 * 10 ^ 9) (access_times (tracker c)) →
  ∃ ids c', evict_to_budget now budget skip c = (Ok (Z.of_nat (length ids)), c') ∧
    eviction_done now budget skip ids c c'.
Proof.
  intros Hok Hinv Hids Hmax Hcount Hbud Hat. unfold evict_to_budget.
  unfold mbind at 1, M_bind at 1. unfold gets at 1, over_budget at 1.
  destruct (Z.ltb_spec budget (current_cache_bytes (tracker c))) as [Hov|Hov]; cbn [negb].
  2: { exists [], c. split; [done|]. apply eviction_none; auto. }
  unfold mbind at 1, M_bind at 1. unfold gets at 1.
  destruct (Z.leb_spec (current_cache_bytes (tracker c)) (pinned_bytes (tracker c))) as [Hpin|Hpin].
  { exists [], c. split; [done|]. apply eviction_none; [done|]. right. intros id Hid. left.
    apply only_pinned_left; try done. intros Hz. rewrite (inv_bytes _ Hinv), Hz in Hov. lia. }
  destruct (evict_victims_done now budget skip c) as (ids & c1 & Hrun & Hcfg & He); try done.
  fold (victims_of c now skip). unfold mbind at 1, M_bind at 1. rewrite Hrun.
  assert (wrap32 (Z.of_nat (length ids)) = Z.of_nat (length ids)) as ->.
  { apply wrap32_id. unfold is_u32, len in *. split; [lia|].
    assert (length ids ≤ size (present (tracker c)))%nat; [|lia].
    rewrite <-(size_list_to_set (C := gset SubChunkId)) by apply He. apply subseteq_size.
    intros id Hid%elem_of_list_to_set. by apply He in Hid as [? _]. }
  unfold mbind at 1, M_bind at 1, modify at 1. set (c2 := c1 <| stats ::= _ |>).
  assert (same_store c1 c2) as Hsame by (repeat split).
  assert (eviction_done now budget skip ids c c2) as He2.
  { eapply eviction_done_frame; [exact He|by eapply same_store_ok; [|apply He]|done|].
    intros p _. by apply same_store_stored. }
  unfold mbind at 1, M_bind at 1. unfold gets at 1. unfold mbind at 1, M_bind at 1. unfold gets at 1.
  unfold mbind at 1, M_bind at 1. cbn [compose].
  destruct (cache_compression (cfg c2) && _ && _ && _ && _) eqn:Hg.
  - assert (cache_compression (cfg c2) = true) as Hc by (destruct (cache_compression (cfg c2)); done).
    destruct (compact_run c2) as (c3 & Hrun3 & Hc3); [apply He2|done|].
    unfold mbind at 1, M_bind at 1, try_io. rewrite Hrun3. exists ids, c3. split; [done|].
    eapply eviction_done_frame; [exact He2|apply Hc3| |apply Hc3]. by rewrite (cp_state _ _ Hc3).
  - exists ids, c2. by split.
Qed.
End cache_view.
