(* ===== verification/CacheWrite.v ===== *)
(** Writing to the local disk cache (DiskCache.v): single pages, bulk and
    scattered writes, in the plain, encrypted and compressed formats, all act on
    the [view] of CacheView.v as an insertion of the written pages. *)

From S2P Require Import Prelude CacheTracking Manifest LocalState Compress File DiskCache CacheView.

Section cache_write.
Context `{HashIter} `{Compression} `{Aead K} (nonce : Z → bytes) `{!CacheLaws nonce}.
Implicit Types c : DiskCache K.

(* ------------------------------------------------------------------ *)
(** * The steps of a write *)

Lemma ensure_run needed c :
  faults c = [] → cache_file_len c = Z.of_nat (length (cache_file c)) →
  Z.of_nat (length (cache_file c)) < 2 ^ 63 → needed < 2 ^ 63 →
  ∃ f', ensure_file_len needed c =
      (Ok (), c <| cache_file := f' |> <| cache_file_len := Z.of_nat (length f') |>) ∧
    Z.of_nat (length f') = Z.max needed (Z.of_nat (length (cache_file c))) ∧
    (∀ n o, 0 ≤ n → 0 ≤ o → o + n ≤ Z.of_nat (length (cache_file c)) →
       file_read_at n o f' = file_read_at n o (cache_file c)).
Proof.
  intros Hq Hl Hmax Hn. unfold ensure_file_len, mbind, M_bind, gets. rewrite Hl.
  destruct (Z.leb_spec needed (Z.of_nat (length (cache_file c)))) as [Hle|Hgt].
  - exists (cache_file c). split; [|split; [lia|done]]. rewrite <-Hl. by destruct c.
  - exists (file_set_len needed (cache_file c)). rewrite set_len_run by done.
    rewrite length_file_set_len. split; [|split; [lia|]].
    + unfold modify. cbn. rewrite Z2Nat.id by lia. done.
    + intros n o ???. apply read_set_len; lia.
Qed.

Lemma encrypt_slot_run d c :
  ∃ enc k, encrypt_slot nonce d c = (Ok enc, c <| draws := k |>) ∧
    decrypt_slot (cfg c) enc = Some d ∧
    Z.of_nat (length enc) = slot_width (encryption_key (cfg c)) (Z.of_nat (length d)).
Proof.
  unfold encrypt_slot, decrypt_slot, mbind, M_bind, gets, slot_width, GCM_RANDOM_NONCE_OVERHEAD.
  cbn [compose]. destruct (encryption_key (cfg c)) as [key|].
  - destruct (seal_total key (nonce (draws c)) d) as [ct Hct].
    assert (encrypt_gcm_random_nonce (nonce (draws c)) d [] key = Ok (nonce (draws c) ++ ct)) as He.
    { unfold encrypt_gcm_random_nonce. by rewrite Hct. }
    exists (nonce (draws c) ++ ct), (Z.succ (draws c)). cbn. unfold lift. rewrite He. split; [done|].
    pose proof (nonce_length (draws c)) as Hnl. split.
    + by rewrite (decrypt_encrypt _ _ _ _ _ Hnl He).
    + apply seal_length in Hct. rewrite length_app. lia.
  - exists d, (draws c). split; [by destruct c|done].
Qed.

Lemma decode_plain cf ps enc d :
  cache_compression cf = false → decrypt_slot cf enc = Some d → Z.of_nat (length d) = ps →
  decode_slot cf ps enc = Some d.
Proof.
  intros Hc Hd Hl. unfold decode_slot. rewrite Hd, Hc. cbn. by rewrite (proj2 (Z.eqb_eq _ _) Hl).
Qed.

Lemma make_blob_run d c :
  cache_compression (cfg c) = true → Z.of_nat (length d) = page_size c → 0 < page_size c ≤ 2 ^ 16 →
  ∃ blob k, make_blob nonce d c = (Ok blob, c <| draws := k |>) ∧
    decode_slot (cfg c) (page_size c) blob = Some d ∧ 0 < Z.of_nat (length blob) < 2 ^ 32.
Proof.
  intros Hc Hl Hps. unfold make_blob, mbind, M_bind, lift.
  destruct (compress_total d) as [z Hz].
  assert (compress d = Ok z) as Hcz by (unfold compress; by rewrite Hz). rewrite Hcz.
  assert (d ≠ []) as Hd by (intros ->; cbn in Hl; lia).
  destruct (compress_bound _ _ Hz ltac:(lia) Hd) as [Hz0 Hz1].
  destruct (encrypt_slot_run z c) as (enc & k & Hrun & Hdec & Hlen). exists enc, k.
  split; [exact Hrun|]. split.
  - unfold decode_slot. rewrite Hdec, Hc. cbn.
    rewrite (decompress_capped_compress _ _ _ Hcz) by (unfold u64_max; lia). cbn.
    by rewrite (proj2 (Z.eqb_eq _ _) Hl).
  - unfold slot_width, GCM_RANDOM_NONCE_OVERHEAD in Hlen. destruct (encryption_key _); lia.
Qed.

Lemma bitmap_mark_spec b p q :
  0 ≤ p → 0 ≤ q →
  CacheTracking.is_present (mark_present (ensure_capacity b p) p) q ↔
  CacheTracking.is_present b q ∨ q = p.
Proof.
  intros Hp Hq. rewrite mark_present_spec by done. unfold ensure_capacity at 1.
  rewrite grow_bitmap_spec by done. unfold bit_capacity, ensure_capacity. cbn.
  rewrite length_grow_to. pose proof (Z.div_mod p 8 ltac:(lia)). pose proof (Z.mod_pos_bound p 8 ltac:(lia)).
  assert (p < Z.of_nat (Z.to_nat (p / 8 + 1) `max` length (bits b)) * 8) by lia. tauto.
Qed.

Lemma at_index_grow {A} n (x y : A) l i :
  at_index (grow_to n x l) i = Some y ↔
  at_index l i = Some y ∨ (at_index l i = None ∧ 0 ≤ i < Z.of_nat n ∧ y = x).
Proof.
  unfold at_index, grow_to. destruct (Z.ltb_spec i 0); [split; [done|]; intros [?|(_ & ? & _)]; [done|lia]|].
  destruct (decide (Z.to_nat i < length l)%nat) as [Hlt|Hge].
  - rewrite lookup_app_l by done. split; [by left|]. intros [?|[Hn _]]; [done|].
    apply lookup_ge_None in Hn. lia.
  - rewrite lookup_app_r by lia. rewrite (lookup_ge_None_2 l) by lia.
    rewrite lookup_replicate. split.
    + intros [-> Hi]. right. split; [done|]. split; [lia|done].
    + intros [?|(_ & Hi & ->)]; [done|]. split; [done|]. lia.
Qed.

(* ------------------------------------------------------------------ *)
(** * The effect of a write *)

(** The pages [new] have been written over those of [c]. *)
Record written (new : gmap Z bytes) (c c' : DiskCache K) : Prop := {
  wr_ok : cache_ok c';
  wr_cfg : cfg c' = cfg c;
  wr_ps : page_size c' = page_size c;
  wr_stored : ∀ p, 0 ≤ p →
    stored c' p = match new !! p with Some d => Some d | None => stored c p end
}.

(** Plain and encrypted slots. *)
Lemma written_plain new c c' :
  cache_ok c → cache_compression (cfg c) = false →
  cfg c' = cfg c → page_size c' = page_size c → faults c' = [] → tainted c' = false →
  group_pages c' = group_pages c → cache_file_len c' = Z.of_nat (length (cache_file c')) →
  Z.of_nat (length (cache_file c')) < 2 ^ 63 →
  (∀ q, 0 ≤ q → CacheTracking.is_present (bitmap c') q ↔
     CacheTracking.is_present (bitmap c) q ∨ is_Some (new !! q)) →
  (∀ p d, 0 ≤ p → new !! p = Some d → Z.of_nat (length d) = page_size c ∧
     ∃ enc, file_read_at (slot_stride c) (p * slot_stride c) (cache_file c') = Some enc ∧
            decrypt_slot (cfg c) enc = Some d) →
  (∀ p, 0 ≤ p → new !! p = None → cache_is_present c p →
     file_read_at (slot_stride c) (p * slot_stride c) (cache_file c') =
     file_read_at (slot_stride c) (p * slot_stride c) (cache_file c)) →
  (∀ p d, 0 ≤ p → mem_slot c' p = Some d →
     match new !! p with Some d' => d = d' | None => mem_slot c p = Some d end) →
  written new c c'.
Proof.
  intros Hok Hc Hcfg Hps Hq Ht Hg Hl Hmax Hbits Hnew Hold Hmem.
  assert (∀ q, 0 ≤ q → cache_is_present c' q ↔ cache_is_present c q ∨ is_Some (new !! q)) as Hpres.
  { intros q Hq0. unfold cache_is_present. rewrite Hcfg, Hc. cbn. by apply Hbits. }
  assert (∀ p, 0 ≤ p → stored c' p = match new !! p with Some d => Some d | None => stored c p end) as Hst.
  { intros p Hp. destruct (new !! p) as [d|] eqn:Hd.
    - destruct (Hnew p d Hp Hd) as (Hlen & enc & Hread & Hdec).
      assert (cache_is_present c' p = true) as Hpr.
      { apply Is_true_true_1, Hpres; [done|]. right. rewrite Hd. by eexists. }
      unfold stored, region, slot_stride in *. rewrite Hpr, Hcfg, Hc, Hps. cbn. rewrite Hread. cbn.
      by apply decode_plain.
    - destruct (cache_is_present c p) eqn:Hpc.
      + apply stored_frame; try done.
        * rewrite Hpc. apply Is_true_true_1, Hpres; [done|]. left. by rewrite Hpc.
        * by rewrite Hc.
        * intros o n Hr. unfold region in Hr. rewrite Hpc, Hc in Hr. injection Hr as <- <-.
          apply Hold; try done. by rewrite Hpc.
      + rewrite (stored_absent _ _ Hpc). apply stored_absent.
        destruct (cache_is_present c' p) eqn:Hpc'; [|done]. exfalso.
        assert (cache_is_present c' p) as Hp' by by rewrite Hpc'.
        apply Hpres in Hp' as [Hp'|[? Hp']]; [by rewrite Hpc in Hp'|congruence|done]. }
  split; try done. destruct Hok. split; rewrite ?Hcfg, ?Hps, ?Hg; try done.
  - by rewrite Hc.
  - intros p Hp Hpr. rewrite Hst by done. destruct (new !! p) as [d|] eqn:Hd; [by eexists|].
    apply ok_stored; [done|]. apply Hpres in Hpr as [?|[? ?]]; [done|congruence|done].
  - intros _ p d Hp Hpr Hm. rewrite Hst by done. specialize (Hmem p d Hp Hm).
    destruct (new !! p) as [d'|] eqn:Hd; [by subst|]. apply ok_mem; try done.
    apply Hpres in Hpr as [?|[? ?]]; [done|congruence|done].
Qed.

(** ** The in-memory copy *)

Lemma mem_slot_grow c n q :
  mem_slot (c <| mem_cache ::= fmap (grow_to n None) |>) q = mem_slot c q.
Proof.
  unfold mem_slot. cbn. destruct (mem_cache c) as [slots|]; [cbn|done].
  destruct (at_index slots q) as [s|] eqn:Hs.
  - by rewrite (proj2 (at_index_grow _ _ s _ _) (or_introl Hs)).
  - destruct (at_index (grow_to _ _ slots) q) as [s|] eqn:Hg; [|done].
    apply at_index_grow in Hg as [?|(_ & _ & ->)]; [congruence|done].
Qed.

Lemma mem_slot_set c slots p v q :
  0 ≤ p < Z.of_nat (length slots) → mem_cache c = Some slots →
  mem_slot (set_slot p v c) q = if decide (q = p) then v else mem_slot c q.
Proof.
  intros Hp Hm. unfold set_slot. destruct (Z.ltb_spec p 0); [lia|]. unfold mem_slot. cbn. rewrite Hm. cbn.
  rewrite at_index_insert by lia. destruct (decide (q = p)) as [->|Hne].
  - by rewrite decide_True by lia.
  - rewrite decide_False; [done|]. intros [? _]. by subst.
Qed.

Lemma install_run p d c :
  page_num_ok p → 0 < page_size c → Z.of_nat (length d) = page_size c →
  ∃ c', install_mem_cache_page p d c = (Ok (), c') ∧ same_but_mem c c' ∧
    (∀ q, q ≠ p → mem_slot c' q = mem_slot c q) ∧
    (mem_slot c' p = None ∨ mem_slot c' p = Some d).
Proof.
  intros [Hp0 Hp] Hps Hl. unfold install_mem_cache_page, ensure_mem_cache_capacity, modify.
  destruct (mem_cache c) as [slots|] eqn:Hm.
  2: { exists c. split; [done|]. split; [apply same_but_mem_refl|]. split; [done|].
       left. unfold mem_slot. by rewrite Hm. }
  destruct (Z.eqb_spec (page_size c) 0) as [Hz|_]; [lia|]. cbn [snd].
  set (n := Z.to_nat (wrap64 (p + 1))). set (c1 := c <| mem_cache ::= fmap (grow_to n None) |>).
  assert (Z.of_nat n = p + 1) as Hn by (unfold n; rewrite wrap64_id; unfold is_u64; lia).
  assert (mem_cache c1 = Some (grow_to n None slots)) as Hm1 by (unfold c1; cbn; by rewrite Hm).
  assert (0 ≤ p < Z.of_nat (length (grow_to n None slots))) as Hr by (rewrite length_grow_to; lia).
  rewrite Hm1. cbn [mbind option_bind].
  assert (∃ old, at_index (grow_to n None slots) p = Some old) as [old Hold].
  { unfold at_index. destruct (Z.ltb_spec p 0); [lia|]. apply lookup_lt_is_Some_2. lia. }
  rewrite Hold.
  assert (mem_slot c p = old) as Hslot.
  { rewrite <-(mem_slot_grow c n p). fold c1. unfold mem_slot. rewrite Hm1. cbn. by rewrite Hold. }
  assert (pad_to (Z.to_nat (page_size c1)) (take (Z.to_nat (page_size c1)) d) = d) as ->.
  { unfold c1. cbn. rewrite take_ge by lia. apply pad_to_id. lia. }
  destruct (bool_decide (old = None) && _) eqn:Hfull.
  - exists c1. split; [done|]. split; [by eexists _, _|]. split; [intros; apply mem_slot_grow|].
    left. unfold c1. rewrite mem_slot_grow, Hslot. case_bool_decide; done.
  - eexists. split; [reflexivity|]. split; [|split].
    + unfold set_slot. destruct (Z.ltb_spec p 0); [lia|]. unfold c1. case_bool_decide; eexists _, _; unfold set_field; cbn; reflexivity.
    + intros q Hq. transitivity (mem_slot (set_slot p (Some d) c1) q); [by case_bool_decide|].
      rewrite (mem_slot_set _ _ _ _ _ Hr Hm1), decide_False by done. apply mem_slot_grow.
    + right. transitivity (mem_slot (set_slot p (Some d) c1) p); [by case_bool_decide|].
      by rewrite (mem_slot_set _ _ _ _ _ Hr Hm1), decide_True.
Qed.

(** ** One page *)

Definition write_bound (c : DiskCache K) : Prop :=
  cache_compression (cfg c) = true → next_offset (cache_index c) + 2 ^ 32 < 2 ^ 63.

Lemma write_page_plain now p d c :
  cache_ok c → cache_compression (cfg c) = false → page_num_ok p →
  Z.of_nat (length d) = page_size c →
  ∃ c', write_page nonce now p d c = (Ok (), c') ∧ written {[ p := d ]} c c' ∧ tracker c' = tracker c.
Proof.
  intros Hok Hc Hp Hd. pose proof (slot_stride_bounds _ Hok) as Hstr. pose proof (ok_ps _ Hok) as Hps.
  pose proof (ok_len _ Hok) as Hlen. pose proof (ok_max _ Hok) as Hmax. unfold page_num_ok in Hp.
  unfold write_page, check_tainted. unfold mbind, M_bind, gets, lift. rewrite (ok_taint _ Hok).
  cbn [guard_err compose]. rewrite Hc.
  destruct (encrypt_slot_run d c) as (enc & k & Hrun & Hdec & Henc). rewrite Hrun.
  assert (Z.of_nat (length enc) = slot_stride c) as Hes by (rewrite Henc, Hd; done).
  assert (slot_offset (c <| draws := k |>) p = p * slot_stride c) as Hoff
    by exact (slot_offset_id c p ltac:(nia)).
  rewrite Hoff. unfold modify.
  rewrite (wrap64_id (p * slot_stride c + Z.of_nat (length enc))) by (unfold is_u64; nia).
  set (c1 := _ <| bitmap ::= _ |>).
  destruct (ensure_run (p * slot_stride c + Z.of_nat (length enc)) c1) as (f1 & Hens & Hf1 & Hf1r);
    [apply Hok|done|done|nia|].
  rewrite Hens. unfold c1 in Hf1, Hf1r. cbn in Hf1, Hf1r. rewrite write_all_at_run by (try apply Hok; nia).
  unfold bitmap_mark, modify. match goal with |- context [install_mem_cache_page p d ?x] => set (c2 := x) end.
  destruct (install_run p d c2) as (c' & Hinst & (m & mb & ->) & Hoth & Hown); [done|apply Hps|done|].
  exists (c2 <| mem_cache := m |> <| mem_cache_bytes := mb |>). split; [exact Hinst|]. split; [|done].
  assert (enc ≠ []) as Hne by (intros ->; cbn in Hes; lia).
  assert (length (file_write_at enc (p * slot_stride c) f1) = length f1) as Hlen2
    by (rewrite length_file_write_at by (done || nia); lia).
  apply written_plain; try done; try apply Hok; cbn.
  - by rewrite Hlen2.
  - rewrite Hlen2. nia.
  - intros q Hq. rewrite lookup_singleton.
    transitivity (CacheTracking.is_present (ensure_capacity (bitmap c) p) q ∨ q = p).
    { apply (bitmap_mark_spec (ensure_capacity (bitmap c) p)); lia. }
    unfold ensure_capacity. rewrite grow_bitmap_spec by done. case_decide as Hpq; subst.
    + split; [right; by eexists|by right].
    + split; [intros [?|?]; [by left|done]|]. intros [?|[? ?]]; [by left|done].
  - intros q d' Hq Hq'. apply lookup_singleton_Some in Hq' as [<- <-]. split; [done|].
    exists enc. split; [|done]. rewrite <-Hes at 1. apply read_write_same. nia.
  - intros q Hq Hnew Hpq. apply lookup_singleton_None in Hnew.
    destruct (region_bounds c q (q * slot_stride c) (slot_stride c) Hok Hq) as (_ & _ & Hb & _).
    { unfold region. by rewrite (Is_true_true_1 _ Hpq), Hc. }
    rewrite read_write_disjoint; [by apply Hf1r; nia|nia|nia|lia|lia|].
    assert (p < q ∨ q < p) as [?|?] by lia; [right|left]; nia.
  - intros q d' Hq Hs. rewrite lookup_singleton.
    change (mem_slot (c2 <| mem_cache := m |> <| mem_cache_bytes := mb |>) q = Some d') in Hs.
    case_decide as Hpq.
    + subst q. destruct Hown as [Ho|Ho]; rewrite Ho in Hs; congruence.
    + rewrite Hoth in Hs by done. done.
Qed.

(* ------------------------------------------------------------------ *)
(** * Blobs appended to the compressed cache *)

(** The concatenated blob and the page entries of the bulk writers. *)
Definition pack (l : list (Z * bytes)) : bytes * list page_entry :=
  foldl (λ acc x, append_blob acc x.1 x.2) ([], []) l.

Lemma pack_snoc l x : pack (l ++ [x]) = append_blob (pack l) x.1 x.2.
Proof. unfold pack. by rewrite foldl_app. Qed.

(** Each page is indexed at the bytes of its last blob, the other pages keep
    their entries, and the index stays well formed for the longer file. *)
Record reserved (l : list (Z * bytes)) (i i' : CacheIndex) : Prop := {
  rs_next : next_offset i' = next_offset i + Z.of_nat (length (pack l).1);
  rs_old : ∀ q, q ∉ l.*1 → entries i' !! q = entries i !! q;
  rs_new : ∀ q b, collect_map l !! q = Some b → ∃ off,
    entries i' !! q = Some {| ce_offset := off; compressed_len := Z.of_nat (length b) |} ∧
    next_offset i ≤ off ∧ off + Z.of_nat (length b) ≤ next_offset i' ∧
    take (length b) (drop (Z.to_nat (off - next_offset i)) (pack l).1) = b;
  rs_ok : index_ok i' (next_offset i')
}.

Lemma collect_snoc {V} (l : list (Z * V)) p v q :
  collect_map (l ++ [(p, v)]) !! q = if decide (q = p) then Some v else collect_map l !! q.
Proof.
  unfold collect_map. rewrite reverse_snoc. cbn. destruct (decide (q = p)) as [->|Hne].
  - apply lookup_insert_eq.
  - by rewrite lookup_insert_ne.
Qed.

Lemma collect_None {V} (l : list (Z * V)) q : collect_map l !! q = None ↔ q ∉ l.*1.
Proof.
  unfold collect_map. by rewrite <-not_elem_of_list_to_map, fmap_reverse, elem_of_reverse.
Qed.

Lemma reserve_run l i n :
  index_ok i n → Forall (λ x, 0 < Z.of_nat (length x.2) < 2 ^ 32) l →
  next_offset i + Z.of_nat (length (pack l).1) < 2 ^ 63 →
  reserved l i (reserve_entries (pack l).2 i).
Proof.
  intros Hi. induction l as [|[p b] l IH] using rev_ind; intros Hl Hmax.
  { destruct Hi as [Hr Ha Hn]. split; cbn; [lia|done|intros q b; done|]. split; [done|done|lia]. }
  apply Forall_app in Hl as [Hl [Hb _]%Forall_cons]. cbn in Hb.
  rewrite pack_snoc in Hmax |- *. cbn [fst snd append_blob] in Hmax |- *. rewrite length_app in Hmax.
  destruct IH as [Hnext Hold Hnew [Hr Ha Hn]]; [done|lia|].
  pose proof (idx_next _ _ Hi) as Hi0.
  unfold reserve_entries. rewrite foldl_app. fold (reserve_entries (pack l).2 i).
  set (i1 := reserve_entries (pack l).2 i) in *. cbn [foldl fst snd].
  rewrite (wrap64_id (next_offset i + _)) by (unfold is_u64; lia).
  rewrite (wrap32_id (Z.of_nat (length b))) by (unfold is_u32; lia).
  unfold index_insert_at. rewrite wrap64_id by (unfold is_u64; lia).
  destruct (Z.ltb_spec (next_offset i1) (next_offset i + Z.of_nat (length (pack l).1) + Z.of_nat (length b))); [|lia].
  assert (∀ q e, <[p:={| ce_offset := next_offset i1; compressed_len := Z.of_nat (length b) |}]> (entries i1) !! q
    = Some e → (q = p ∧ e = {| ce_offset := next_offset i1; compressed_len := Z.of_nat (length b) |}) ∨
    (q ≠ p ∧ entries i1 !! q = Some e)) as Hcase.
  { intros q e [[<- <-]|[? ?]]%lookup_insert_Some; [by left|by right]. }
  rewrite <-Hnext. split; cbn.
  - rewrite pack_snoc. cbn. rewrite length_app. lia.
  - intros q Hq. rewrite fmap_app, not_elem_of_app in Hq. destruct Hq as [Hq1 Hq2].
    rewrite lookup_insert_ne by set_solver. by apply Hold.
  - intros q b'. rewrite collect_snoc, pack_snoc. cbn. case_decide as Hqp.
    + subst q. intros [= <-]. exists (next_offset i1). rewrite lookup_insert_eq. split; [done|].
      split; [lia|]. split; [lia|].
      replace (Z.to_nat (next_offset i1 - next_offset i)) with (length (pack l).1) by lia.
      rewrite drop_app_length. by apply take_ge.
    + intros Hb'. destruct (Hnew q b' Hb') as (off & He & Hlo & Hhi & Htake).
      exists off. rewrite lookup_insert_ne by done. split; [done|]. split; [done|]. split; [lia|].
      rewrite drop_app_le by lia. rewrite take_app_le; [done|]. rewrite length_drop. lia.
  - split; cbn.
    + intros q e [[-> ->]|[_ He]]%Hcase; cbn; [lia|]. apply Hr in He. lia.
    + intros q r e f [[-> ->]|[_ He]]%Hcase [[-> ->]|[_ Hf]]%Hcase Hne; cbn; [done| | |by eapply Ha].
      * right. apply Hr in Hf. lia.
      * left. apply Hr in He. lia.
    + lia.
Qed.

(** The pages decoded from the blobs. *)
Lemma written_blobs l new c c' base f1 :
  cache_ok c → cache_compression (cfg c) = true →
  cfg c' = cfg c → page_size c' = page_size c → faults c' = [] → tainted c' = false →
  group_pages c' = group_pages c → cache_file_len c' = Z.of_nat (length (cache_file c')) →
  base = next_offset (cache_index c) →
  cache_index c' = reserve_entries (pack l).2 (cache_index c) →
  cache_file c' = file_write_at (pack l).1 base f1 →
  base + Z.of_nat (length (pack l).1) ≤ Z.of_nat (length f1) < 2 ^ 63 →
  (∀ n o, 0 ≤ n → 0 ≤ o → o + n ≤ Z.of_nat (length (cache_file c)) →
     file_read_at n o f1 = file_read_at n o (cache_file c)) →
  (∀ q, 0 ≤ q → CacheTracking.is_present (bitmap c') q ↔
     CacheTracking.is_present (bitmap c) q ∨ q ∈ l.*1) →
  Forall (λ x, 0 < Z.of_nat (length x.2) < 2 ^ 32) l →
  (∀ q b, collect_map l !! q = Some b → decode_slot (cfg c) (page_size c) b = new !! q ∧ is_Some (new !! q)) →
  (∀ q, q ∉ l.*1 → new !! q = None) →
  written new c c'.
Proof.
  intros Hok Hc Hcfg Hps Hq Ht Hg Hl Hbase Hidx Hfile Hmax Hread Hbits Hbl Hnew Hnone. subst base.
  pose proof (ok_index _ Hok Hc) as Hi. pose proof (idx_next _ _ Hi) as Hi0.
  destruct (reserve_run l _ _ Hi Hbl ltac:(lia)) as [Hnext Hold Hres Hiok]. rewrite <-Hidx in *.
  assert (length (cache_file c') = length f1) as Hflen.
  { rewrite Hfile. destruct (decide ((pack l).1 = [])) as [Hnil|Hne].
    - by rewrite Hnil.
    - rewrite length_file_write_at by (done || lia). lia. }
  assert (∀ q, collect_map l !! q = None → q ∉ l.*1) as Hcn by (intros q; apply collect_None).
  assert (∀ q b off, collect_map l !! q = Some b →
    entries (cache_index c') !! q = Some {| ce_offset := off; compressed_len := Z.of_nat (length b) |} →
    file_read_at (Z.of_nat (length b)) off (cache_file c') = Some b) as Hblob.
  { intros q b off Hb He. destruct (Hres q b Hb) as (off' & He' & Hlo & Hhi & Htake).
    rewrite He' in He. injection He as ->.
    assert (0 < Z.of_nat (length b)) as Hb0.
    { rewrite Forall_forall in Hbl. apply elem_of_list_to_map_2 in Hb.
      rewrite elem_of_reverse in Hb. apply (Hbl _ Hb). }
    apply file_read_at_Some; [lia|done|]. split; [lia|].
    rewrite <-Htake at 1. rewrite Hfile. rewrite Nat2Z.id.
    pose proof (read_write_same (pack l).1 (next_offset (cache_index c)) f1 ltac:(lia)) as Hsame.
    apply file_read_at_Some in Hsame as [_ Hsame]; [|lia|lia]. rewrite Hsame at 1.
    rewrite Nat2Z.id. rewrite skipn_firstn_comm, drop_drop, take_take. f_equal; [lia|]. f_equal. lia. }
  assert (∀ q, 0 ≤ q → cache_is_present c' q ↔ cache_is_present c q ∨ q ∈ l.*1) as Hpres.
  { intros q Hq0. unfold cache_is_present. rewrite Hcfg, Hc. cbn.
    destruct (collect_map l !! q) as [b|] eqn:Hb.
    - destruct (Hres q b Hb) as (off & He & _). unfold index_contains. rewrite He.
      assert (q ∈ l.*1) as Hin.
      { destruct (decide (q ∈ l.*1)) as [?|Hn]; [done|]. apply collect_None in Hn. congruence. }
      destruct (CacheTracking.is_present (bitmap c') q) eqn:Hb1; cbn; [tauto|].
      exfalso. assert (CacheTracking.is_present (bitmap c') q) by (apply Hbits; auto). by rewrite Hb1 in *.
    - apply Hcn in Hb. unfold index_contains. rewrite Hold by done.
      specialize (Hbits q Hq0).
      destruct (CacheTracking.is_present (bitmap c') q), (CacheTracking.is_present (bitmap c) q); cbn in *; tauto. }
  assert (∀ p, 0 ≤ p → stored c' p = match new !! p with Some d => Some d | None => stored c p end) as Hst.
  { intros p Hp. destruct (collect_map l !! p) as [b|] eqn:Hb.
    - destruct (Hres p b Hb) as (off & He & _). destruct (Hnew p b Hb) as [Hdec [d Hd]]. rewrite Hd in Hdec |- *.
      assert (p ∈ l.*1) as Hin.
      { destruct (decide (p ∈ l.*1)) as [?|Hn]; [done|]. apply collect_None in Hn. congruence. }
      unfold stored, region. rewrite (Is_true_true_1 (cache_is_present c' p)) by (apply Hpres; auto).
      rewrite Hcfg, Hc, Hps, He. cbn. by rewrite (Hblob p b off Hb He).
    - apply Hcn in Hb. rewrite (Hnone p Hb).
      assert (cache_is_present c' p = cache_is_present c p) as Hpp.
      { apply is_present_bool_ext. rewrite Hpres by done. tauto. }
      apply stored_frame; try done; [intros _; by apply Hold|]. intros o n Hr.
      destruct (region_bounds _ _ _ _ Hok Hp Hr) as (Ho & Hn & Hon & _).
      assert (o + n ≤ next_offset (cache_index c)) as Hbelow.
      { unfold region in Hr. rewrite Hc in Hr. destruct (cache_is_present c p); [|done].
        apply fmap_Some in Hr as (e & He & [= -> ->]). apply (idx_range _ _ Hi) in He. lia. }
      rewrite Hfile. rewrite read_write_disjoint by lia. apply Hread; lia. }
  split; try done. destruct Hok. split; rewrite ?Hcfg, ?Hps, ?Hg; try done.
  - rewrite Hflen. lia.
  - intros _. destruct Hiok as [H1' H2' H3']. split; [done|done|]. rewrite Hflen. lia.
  - intros p Hp Hpr. rewrite Hst by done. destruct (collect_map l !! p) as [b|] eqn:Hb.
    + destruct (Hnew p b Hb) as [_ [d Hd]]. rewrite Hd. by eexists.
    + apply Hcn in Hb. rewrite Hnone by done. apply ok_stored; [done|].
      apply Hpres in Hpr as [?|?]; done.
  - rewrite Hc. done.
Qed.

(** ** Building and storing the blobs *)

Definition blob_of (c : DiskCache K) (x y : Z * bytes) : Prop :=
  y.1 = x.1 ∧ decode_slot (cfg c) (page_size c) y.2 = Some x.2 ∧ 0 < Z.of_nat (length y.2) < 2 ^ 32.

Lemma build_blobs_run {B} (num : B → Z) (page : B → io bytes) (xs : list B) (pages : list (Z * bytes)) c :
  cache_compression (cfg c) = true → 0 < page_size c ≤ 2 ^ 16 →
  Forall2 (λ x pg, num x = pg.1 ∧ page x = Ok pg.2 ∧ Z.of_nat (length pg.2) = page_size c) xs pages →
  ∀ l0, ∃ l k,
    fold_m (λ acc x, pg ← lift (page x); blob ← make_blob nonce pg; mret (append_blob acc (num x) blob))
      (pack l0) xs c = (Ok (pack (l0 ++ l)), c <| draws := k |>) ∧
    Forall2 (blob_of c) pages l.
Proof.
  intros Hc Hps Hx. revert c Hc Hps Hx. induction xs as [|x xs IH] in pages |- *; intros c Hc Hps Hx l0.
  - apply Forall2_nil_inv_l in Hx as ->. exists [], (draws c). rewrite app_nil_r.
    split; [by destruct c|constructor].
  - apply Forall2_cons_inv_l in Hx as ([p d] & pages' & (Hn & Hpg & Hl) & Hx & ->). cbn in Hn, Hpg, Hl.
    destruct (make_blob_run d c Hc Hl Hps) as (blob & k & Hrun & Hdec & Hb).
    pose (c1 := c <| draws := k |>).
    destruct (IH pages' c1) with (l0 := l0 ++ [(p, blob)]) as (l & k' & Hrun' & Hl'); [done..|].
    exists ((p, blob) :: l), k'. split; [|constructor; [done|exact Hl']].
    subst p. rewrite (pack_snoc l0), <-app_assoc in Hrun'. cbn [fold_m].
    unfold mbind at 1, M_bind at 1. unfold mbind at 1, M_bind at 1. unfold lift at 1.
    rewrite Hpg. unfold mbind at 1, M_bind at 1. rewrite Hrun. exact Hrun'.
Qed.

Lemma blobs_collect c pages l :
  Forall2 (blob_of c) pages l →
  (∀ q b, collect_map l !! q = Some b →
     decode_slot (cfg c) (page_size c) b = collect_map pages !! q ∧ is_Some (collect_map pages !! q)) ∧
  (∀ q, q ∉ l.*1 → collect_map pages !! q = None) ∧
  Forall (λ x, 0 < Z.of_nat (length x.2) < 2 ^ 32) l ∧ l.*1 = pages.*1.
Proof.
  intros Hf.
  assert (l.*1 = pages.*1) as Hfst by (induction Hf as [|x y ? ? (Hxy & _) ? IH]; cbn; congruence).
  split; [|split; [|split; [|done]]].
  - revert Hf. unfold collect_map. intros Hf%Forall2_reverse. generalize (reverse l), (reverse pages), Hf.
    clear. intros l pages Hf. induction Hf as [|[p d] [q b] pages l (Hq & Hd & _) Hf IH]; cbn; [done|].
    cbn in Hq, Hd. subst q. intros q b'. destruct (decide (q = p)) as [->|Hne].
    + rewrite !lookup_insert_eq. intros [= <-]. by split; [|eexists].
    + rewrite !lookup_insert_ne by done. apply IH.
  - intros q Hq. apply collect_None. by rewrite <-Hfst.
  - clear Hfst. induction Hf as [|x y ? ? (_ & _ & Hy) ? IH]; by constructor.
Qed.

Lemma mark_fold_spec b l q :
  0 ≤ q → Forall (λ p, 0 ≤ p < bit_capacity b) l →
  CacheTracking.is_present (foldl mark_present b l) q ↔ CacheTracking.is_present b q ∨ q ∈ l.
Proof.
  intros Hq Hl. revert b Hl. induction l as [|p l IH]; intros b Hl; cbn.
  - split; [by left|]. intros [?|?%not_elem_of_nil]; done.
  - apply Forall_cons in Hl as [Hp Hl]. rewrite IH.
    + rewrite mark_present_spec, elem_of_cons by lia. intuition.
    + eapply Forall_impl; [exact Hl|]. intros r. unfold bit_capacity, mark_present. by rewrite update_byte_length.
Qed.

Definition reserve_bits (last : Z) (b : PageBitmap) : PageBitmap :=
  if Z.of_nat (length (bits b)) <? last / 8 + 1 then ensure_capacity b last else b.

Lemma reserve_bits_spec last b q :
  0 ≤ last → 0 ≤ q →
  (CacheTracking.is_present (reserve_bits last b) q ↔ CacheTracking.is_present b q) ∧
  last < bit_capacity (reserve_bits last b).
Proof.
  intros Hl Hq. unfold reserve_bits, bit_capacity.
  pose proof (Z.div_mod last 8 ltac:(lia)). pose proof (Z.mod_pos_bound last 8 ltac:(lia)).
  destruct (Z.ltb_spec (Z.of_nat (length (bits b))) (last / 8 + 1)).
  - unfold ensure_capacity. rewrite grow_bitmap_spec by done. cbn. rewrite length_grow_to. split; [done|]. lia.
  - split; [done|]. lia.
Qed.

Lemma reserve_mark_spec b last pages q :
  0 ≤ last → Forall (λ p, 0 ≤ p ≤ last) pages → 0 ≤ q →
  CacheTracking.is_present (foldl mark_present (reserve_bits last b) pages) q ↔
  CacheTracking.is_present b q ∨ q ∈ pages.
Proof.
  intros Hl Hp Hq. destruct (reserve_bits_spec last b q Hl Hq) as [Hr Hcap].
  rewrite mark_fold_spec; [by rewrite Hr|done|]. eapply Forall_impl; [exact Hp|]. cbn. lia.
Qed.

(** From the pages to the view: the common end of the compressed writers.  The
    tracker [t'] is whatever the writer has made of it. *)
Lemma store_blobs_run c k pages l last f_tracker :
  cache_ok c → cache_compression (cfg c) = true → Forall2 (blob_of c) pages l →
  next_offset (cache_index c) + Z.of_nat (length (pack l).1) < 2 ^ 63 →
  0 ≤ last → Forall (λ p, 0 ≤ p ≤ last) pages.*1 →
  ∃ c', (_ ← store_blobs (pack l).1 (pack l).2 last;
         _ ← mark_pages pages.*1;
         modify (λ c, c <| tracker ::= f_tracker |>)) (c <| draws := k |>) = (Ok (), c') ∧
    written (collect_map pages) c c' ∧ tracker c' = f_tracker (tracker c).
Proof.
  intros Hok Hc Hf Hmax Hlast Hpages. destruct (blobs_collect _ _ _ Hf) as (B1 & B2 & B3 & B4).
  pose proof (idx_next _ _ (ok_index _ Hok Hc)) as Hi0. pose proof (ok_max _ Hok) as Hflen.
  set (base := next_offset (cache_index c)) in *.
  set (c1 := c <| draws := k |> <| cache_index ::= reserve_entries (pack l).2 |>
    <| bitmap ::= reserve_bits last |>).
  destruct (ensure_run (base + Z.of_nat (length (pack l).1)) c1) as (f1 & Hens & Hf1 & Hf1r);
    [apply Hok|apply Hok|done|lia|].
  unfold c1 in Hf1, Hf1r. cbn in Hf1, Hf1r.
  eexists. split.
  { unfold mbind at 1, M_bind at 1. unfold store_blobs. unfold mbind at 1, M_bind at 1.
    unfold gets at 1. cbn [compose]. unfold mbind at 1, M_bind at 1. unfold modify at 1.
    unfold mbind at 1, M_bind at 1. unfold bitmap_reserve, modify at 1.
    change (next_offset (cache_index (c <| draws := k |>))) with base.
    rewrite wrap64_id by (unfold is_u64; lia). unfold mbind at 1, M_bind at 1.
    fold (reserve_bits last).
    match goal with |- context [ensure_file_len _ ?x] => change x with c1 end.
    rewrite Hens. rewrite write_all_at_run by (try apply Hok; lia). reflexivity. }
  split; [|reflexivity].
  apply (written_blobs l (collect_map pages) c _ base f1); try done; try apply Hok; cbn.
  - destruct (decide ((pack l).1 = [])) as [->|Hne]; [done|]. rewrite length_file_write_at by (done || lia). lia.
  - lia.
  - intros q Hq. rewrite B4. by apply reserve_mark_spec.
Qed.

(** ** Single compressed page *)

Lemma write_page_compr now p d c :
  cache_ok c → cache_compression (cfg c) = true → page_num_ok p →
  Z.of_nat (length d) = page_size c → next_offset (cache_index c) + 2 ^ 32 < 2 ^ 63 →
  ∃ c', write_page nonce now p d c = (Ok (), c') ∧ written {[ p := d ]} c c' ∧
    next_offset (cache_index c') ≤ next_offset (cache_index c) + 2 ^ 32.
Proof.
  intros Hok Hc [Hp0 Hp] Hd Hroom. pose proof (ok_ps _ Hok) as Hps. pose proof (ok_max _ Hok) as Hmax.
  pose proof (idx_next _ _ (ok_index _ Hok Hc)) as Hi0.
  unfold write_page, check_tainted. unfold mbind at 1, M_bind at 1. unfold mbind at 1, M_bind at 1.
  unfold gets at 1, lift at 1. rewrite (ok_taint _ Hok). cbn [guard_err].
  unfold mbind at 1, M_bind at 1. unfold gets at 1. cbn [compose]. rewrite Hc.
  unfold write_page_compressed. unfold mbind at 1, M_bind at 1.
  destruct (make_blob_run d c Hc Hd Hps) as (blob & k & Hrun & Hdec & Hb). rewrite Hrun.
  rewrite wrap32_id by (unfold is_u32; lia). unfold mbind at 1, M_bind at 1. unfold gets at 1.
  unfold index_insert. change (cache_index (c <| draws := k |>)) with (cache_index c).
  set (base := next_offset (cache_index c)) in *. rewrite !wrap64_id by (unfold is_u64; lia).
  unfold mbind at 1, M_bind at 1. unfold modify at 1. set (c1 := _ <| bitmap ::= _ |>).
  destruct (ensure_run (base + Z.of_nat (length blob)) c1) as (f1 & Hens & Hf1 & Hf1r);
    [apply Hok|apply Hok|done|lia|].
  unfold c1 in Hf1, Hf1r. cbn in Hf1, Hf1r.
  unfold mbind at 1, M_bind at 1. rewrite Hens. unfold mbind at 1, M_bind at 1.
  rewrite write_all_at_run by (try apply Hok; lia).
  unfold mbind at 1, M_bind at 1. unfold bitmap_mark, modify.
  eexists. split; [reflexivity|]. split; [|cbn; lia].
  apply (written_blobs [(p, blob)] {[ p := d ]} c _ base f1); try done; try apply Hok; cbn.
  - rewrite length_file_write_at; [lia|lia|]. intros ->. cbn in Hb. lia.
  - unfold reserve_entries. cbn. unfold index_insert_at.
    rewrite wrap32_id by (unfold is_u32; lia). fold base. rewrite Z.add_0_r, !wrap64_id by (unfold is_u64; lia).
    destruct (Z.ltb_spec base (base + Z.of_nat (length blob))); [done|lia].
  - lia.
  - intros q Hq. rewrite elem_of_cons.
    transitivity (CacheTracking.is_present (ensure_capacity (bitmap c) p) q ∨ q = p).
    { apply (bitmap_mark_spec (ensure_capacity (bitmap c) p)); lia. }
    unfold ensure_capacity. rewrite grow_bitmap_spec by done. set_solver.
  - constructor; [cbn; lia|constructor].
  - intros q b. unfold collect_map. cbn. intros [[<- <-]|[_ Hq]]%lookup_insert_Some;
      [|by rewrite lookup_empty in Hq].
    rewrite lookup_singleton_eq. split; [done|by eexists].
  - intros q Hq. apply lookup_singleton_None. set_solver.
Qed.

(* ------------------------------------------------------------------ *)
(** * Many pages *)

Lemma slice_page (ps : Z) (pages : list bytes) (i : nat) d :
  Forall (λ d, Z.of_nat (length d) = ps) pages → pages !! i = Some d →
  slice (Z.of_nat i * ps) (Z.of_nat i * ps + ps) (concat pages) = Some d.
Proof.
  intros Hl Hi. assert (0 ≤ ps) as Hps.
  { rewrite Forall_lookup in Hl. specialize (Hl _ _ Hi). cbn in Hl. lia. }
  assert (Forall (λ d, length d = Z.to_nat ps) pages) as Hl'.
  { eapply Forall_impl; [exact Hl|]. cbn. lia. }
  apply slice_Some. rewrite (length_concat_blocks (Z.to_nat ps)) by done.
  apply lookup_lt_Some in Hi as Hlt. split; [nia|]. split; [nia|].
  replace (Z.to_nat (Z.of_nat i * ps + ps - Z.of_nat i * ps)) with (Z.to_nat ps) by lia.
  replace (Z.to_nat (Z.of_nat i * ps)) with (i * Z.to_nat ps)%nat by lia.
  by rewrite (block_lookup _ _ _ _ Hl' Hi).
Qed.

Lemma Forall2_range {B} (R : Z → B → Prop) (l : list B) :
  (∀ i x, l !! i = Some x → R (Z.of_nat i) x) → Forall2 R (range 0 (Z.of_nat (length l))) l.
Proof.
  intros HR. apply Forall2_same_length_lookup_2; [rewrite length_range; lia|].
  intros i z x Hz Hx. apply HR in Hx. apply lookup_lt_Some in Hz as Hlt. rewrite length_range in Hlt.
  rewrite <-(Nat2Z.id i), range_lookup in Hz by lia. injection Hz as <-. exact Hx.
Qed.

(** The pages of a bulk write, numbered from [start]. *)
Definition numbered (start : Z) (pages : list bytes) : list (Z * bytes) :=
  imap (λ i d, (start + Z.of_nat i, d)) pages.

Lemma collect_cons {V} (p : Z) (v : V) l (q : Z) :
  collect_map ((p, v) :: l) !! q =
  match collect_map l !! q with Some v' => Some v' | None => if decide (q = p) then Some v else None end.
Proof.
  induction l as [|[r w] l IH] using rev_ind.
  - unfold collect_map. cbn. case_decide; subst; [apply lookup_insert_eq|by rewrite lookup_insert_ne].
  - rewrite app_comm_cons, !collect_snoc. by destruct (decide (q = r)); [|apply IH].
Qed.

Lemma install_all_run {B} (num : B → Z) (page : B → io bytes) xs (pages : list (Z * bytes)) c :
  0 < page_size c →
  Forall2 (λ x pg, num x = pg.1 ∧ page_num_ok pg.1 ∧ page x = Ok pg.2 ∧
    Z.of_nat (length pg.2) = page_size c) xs pages →
  ∃ c', for_each (λ x, pg ← lift (page x); install_mem_cache_page (num x) pg) xs c = (Ok (), c') ∧
    same_but_mem c c' ∧
    (∀ q d, mem_slot c' q = Some d → match collect_map pages !! q with
       Some d' => d = d' | None => mem_slot c q = Some d end).
Proof.
  intros Hps Hf. revert c Hps Hf. induction xs as [|x xs IH] in pages |- *; intros c Hps Hf.
  - apply Forall2_nil_inv_l in Hf as ->. exists c. split; [done|]. split; [apply same_but_mem_refl|]. done.
  - apply Forall2_cons_inv_l in Hf as ([p d] & pages' & (Hn & Hp & Hpg & Hl) & Hf & ->). cbn in Hn, Hp, Hpg, Hl.
    destruct (install_run p d c Hp Hps Hl) as (c1 & Hrun & Hsame & Hoth & Hown).
    assert (page_size c1 = page_size c) as Hps1 by (by destruct Hsame as (? & ? & ->)).
    destruct (IH pages' c1) as (c' & Hrun' & Hsame' & Hm); [by rewrite Hps1|by rewrite Hps1|].
    exists c'. split; [|split; [by eapply same_but_mem_trans|]].
    + cbn [for_each]. unfold mbind at 1, M_bind at 1. unfold mbind at 1, M_bind at 1. unfold lift at 1.
      rewrite Hpg, Hn, Hrun. exact Hrun'.
    + intros q d' Hq. specialize (Hm q d' Hq). rewrite collect_cons.
      destruct (collect_map pages' !! q) as [d0|]; [done|]. case_decide as Hqp.
      * subst q. destruct Hown as [Ho|Ho]; rewrite Ho in Hm; congruence.
      * by rewrite Hoth in Hm.
Qed.

(** ** Plain and encrypted bulk writes *)

Definition frame_of (c : DiskCache K) (d fr : bytes) : Prop :=
  decrypt_slot (cfg c) fr = Some d ∧ Z.of_nat (length fr) = slot_stride c.

Lemma encode_frames_run {B} (page : B → io bytes) (xs : list B) (pages : list bytes) c acc :
  Forall2 (λ x d, page x = Ok d ∧ Z.of_nat (length d) = page_size c) xs pages →
  ∃ frames k, fold_m (λ acc x, pg ← lift (page x); frame ← encrypt_slot nonce pg; mret (acc ++ frame))
      acc xs c = (Ok (acc ++ concat frames), c <| draws := k |>) ∧ Forall2 (frame_of c) pages frames.
Proof.
  revert pages c acc. induction xs as [|x xs IH]; intros pages c acc Hf.
  - apply Forall2_nil_inv_l in Hf as ->. exists [], (draws c). rewrite app_nil_r.
    split; [by destruct c|constructor].
  - apply Forall2_cons_inv_l in Hf as (d & pages' & (Hpg & Hl) & Hf & ->).
    destruct (encrypt_slot_run d c) as (fr & k & Hrun & Hdec & Hlen).
    pose (c1 := c <| draws := k |>).
    destruct (IH pages' c1 (acc ++ fr)) as (frames & k' & Hrun' & Hfr); [done|].
    exists (fr :: frames), k'. split.
    + cbn [fold_m]. unfold mbind at 1, M_bind at 1. unfold mbind at 1, M_bind at 1. unfold lift at 1.
      rewrite Hpg. unfold mbind at 1, M_bind at 1. rewrite Hrun. cbn [concat]. rewrite app_assoc. exact Hrun'.
    + constructor; [|exact Hfr]. split; [done|]. rewrite Hlen, Hl. done.
Qed.

Lemma encode_slots_run pages c :
  0 < page_size c → Forall (λ d, Z.of_nat (length d) = page_size c) pages →
  ∃ frames k, encode_slots nonce (concat pages) (page_size c) (Z.of_nat (length pages)) c =
      (Ok (concat frames), c <| draws := k |>) ∧ Forall2 (frame_of c) pages frames.
Proof.
  intros Hps Hl. unfold encode_slots. unfold mbind at 1, M_bind at 1. unfold gets at 1. cbn [compose].
  destruct (encryption_key (cfg c)) as [key|] eqn:Hk.
  - destruct (encode_frames_run (λ i, or_panic (slice (i * page_size c)
      (Z.min (i * page_size c + page_size c) (Z.of_nat (length (concat pages)))) (concat pages)))
      (range 0 (Z.of_nat (length pages))) pages c []) as (frames & k & Hrun & Hf); [|by exists frames, k].
    apply Forall2_range. intros i d Hi. split; [|by rewrite Forall_lookup in Hl; apply (Hl i)].
    rewrite Z.min_l; [by rewrite (slice_page (page_size c) pages i d Hl Hi)|].
    rewrite (length_concat_blocks (Z.to_nat (page_size c))); [|eapply Forall_impl; [exact Hl|cbn; lia]].
    apply lookup_lt_Some in Hi. nia.
  - exists pages, (draws c). split; [by destruct c|]. unfold frame_of, decrypt_slot, slot_stride, slot_width.
    rewrite Hk. rewrite Forall_lookup in Hl.
    apply Forall2_same_length_lookup_2; [done|]. intros i x y Hx Hy. split; [congruence|].
    assert (x = y) as -> by congruence. by apply (Hl i).
Qed.

Lemma numbered_fst start pages : (numbered start pages).*1 = (λ i, start + i) <$> range 0 (Z.of_nat (length pages)).
Proof.
  unfold numbered. apply list_eq. intros i. rewrite !list_lookup_fmap, list_lookup_imap.
  destruct (pages !! i) as [d|] eqn:Hi; cbn.
  - apply lookup_lt_Some in Hi. replace i with (Z.to_nat (Z.of_nat i)) at 2 by lia.
    rewrite range_lookup by lia. done.
  - apply lookup_ge_None in Hi. rewrite (lookup_ge_None_2 (range _ _)); [done|]. rewrite length_range. lia.
Qed.

Lemma numbered_collect start pages q d :
  collect_map (numbered start pages) !! q = Some d ↔ start ≤ q ∧ pages !! Z.to_nat (q - start) = Some d.
Proof.
  assert (NoDup (numbered start pages).*1) as Hnd.
  { rewrite numbered_fst. apply NoDup_fmap_2; [intros ??; lia|]. apply NoDup_seqZ. }
  assert ((q, d) ∈ numbered start pages ↔ start ≤ q ∧ pages !! Z.to_nat (q - start) = Some d) as Hin.
  { unfold numbered. rewrite elem_of_lookup_imap. split.
    - intros (i & x & [= -> ->] & Hi). split; [lia|]. by replace (Z.to_nat _) with i by lia.
    - intros [Hq Hi]. exists (Z.to_nat (q - start)), d. split; [f_equal; lia|done]. }
  rewrite <-Hin. unfold collect_map. rewrite <-elem_of_list_to_map, elem_of_reverse; [done|].
  by rewrite fmap_reverse, reverse_Permutation.
Qed.

Lemma check_tainted_run c : tainted c = false → check_tainted c = (Ok (), c).
Proof. intros Ht. unfold check_tainted, mbind, M_bind, gets, lift. by rewrite Ht. Qed.

Lemma length_pages ps (pages : list bytes) :
  0 ≤ ps → Forall (λ d, Z.of_nat (length d) = ps) pages →
  Z.of_nat (length (concat pages)) = Z.of_nat (length pages) * ps.
Proof.
  intros Hps Hl. rewrite (length_concat_blocks (Z.to_nat ps)); [lia|].
  eapply Forall_impl; [exact Hl|]. cbn. lia.
Qed.

Lemma promote_bulk_run start pages c :
  0 < page_size c ≤ 2 ^ 16 → Forall (λ d, Z.of_nat (length d) = page_size c) pages →
  0 ≤ start → start + Z.of_nat (length pages) ≤ 2 ^ 46 →
  ∃ c', promote_bulk_to_mem_cache start (concat pages) (Z.of_nat (length pages)) c = (Ok (), c') ∧
    same_but_mem c c' ∧
    (∀ q d, mem_slot c' q = Some d → match collect_map (numbered start pages) !! q with
       Some d' => d = d' | None => mem_slot c q = Some d end).
Proof.
  intros Hps Hl Hs Hmax. unfold promote_bulk_to_mem_cache. unfold mbind at 1, M_bind at 1. unfold gets at 1.
  destruct (Z.eqb_spec (page_size c) 0) as [|_]; [lia|]. unfold mbind at 1, M_bind at 1. unfold lift at 1.
  rewrite (length_pages (page_size c)) by (done || lia).
  rewrite wrap64_id by (unfold is_u64; nia). rewrite Z.ltb_irrefl. cbn [guard_err].
  destruct (install_all_run (λ i, wrap64 (start + i)) (page_of (concat pages) (page_size c))
    (range 0 (Z.of_nat (length pages))) (numbered start pages) c) as (c' & Hrun & Hsame & Hm); [lia| |by exists c'].
  assert (length pages = length (numbered start pages)) as Hlen by (unfold numbered; by rewrite length_imap).
  rewrite Hlen. apply Forall2_range. unfold numbered. intros i x Hx.
  rewrite list_lookup_imap in Hx. destruct (pages !! i) as [d|] eqn:Hi; [|done]. injection Hx as <-. cbn.
  apply lookup_lt_Some in Hi as Hlt. split; [apply wrap64_id; unfold is_u64; lia|].
  split; [unfold page_num_ok; lia|]. split; [|by rewrite Forall_lookup in Hl; apply (Hl i)].
  unfold page_of. by rewrite (slice_page (page_size c) pages i d Hl Hi).
Qed.

Lemma bulk_plain now start pages c :
  cache_ok c → cache_compression (cfg c) = false → pages ≠ [] →
  Forall (λ d, Z.of_nat (length d) = page_size c) pages →
  0 ≤ start → start + Z.of_nat (length pages) ≤ 2 ^ 46 →
  ∃ c', write_pages_bulk nonce now start (concat pages) (Z.of_nat (length pages)) c = (Ok (), c') ∧
    written (collect_map (numbered start pages)) c c'.
Proof.
  intros Hok Hc Hne Hl Hs Hmax. pose proof (ok_ps _ Hok) as Hps. pose proof (slot_stride_bounds _ Hok) as Hstr.
  pose proof (ok_max _ Hok) as Hflen.
  unfold write_pages_bulk. unfold mbind at 1, M_bind at 1. rewrite check_tainted_run by apply Hok.
  unfold mbind at 1, M_bind at 1. unfold gets at 1. destruct (Z.eqb_spec (page_size c) 0) as [|_]; [lia|].
  unfold mbind at 1, M_bind at 1. unfold lift at 1.
  rewrite (length_pages (page_size c)) by (done || lia).
  rewrite wrap64_id by (unfold is_u64; nia). rewrite Z.ltb_irrefl. cbn [guard_err].
  unfold mbind at 1, M_bind at 1. unfold gets at 1. cbn [compose]. rewrite Hc.
  destruct (promote_bulk_run start pages c) as (c1 & Hrun1 & (m & mb & ->) & Hmem); try done.
  unfold mbind at 1, M_bind at 1. rewrite Hrun1.
  set (c1 := c <| mem_cache := m |> <| mem_cache_bytes := mb |>) in *.
  destruct (encode_slots_run pages c1) as (frames & k & Hrun2 & Hf); [apply Hps|done|].
  unfold mbind at 1, M_bind at 1. change (page_size c) with (page_size c1) at 1. rewrite Hrun2.
  unfold mbind at 1, M_bind at 1. unfold gets at 1.
  assert (Forall (λ d, Z.of_nat (length d) = slot_stride c) frames) as Hfl.
  { apply Forall_lookup. intros i fr Hi. destruct (Forall2_lookup_r _ _ _ _ _ Hf Hi) as (d & _ & _ & Hlen). done. }
  pose proof (Forall2_length _ _ _ Hf) as Hlen. rewrite (length_pages (slot_stride c)) by (done || lia).
  rewrite <-Hlen. set (n := Z.of_nat (length pages)) in *.
  assert (0 < n) as Hn by (destruct pages; [done|cbn in n; lia]).
  change (slot_offset (c1 <| draws := k |>) start) with (slot_offset c start).
  rewrite slot_offset_id by nia. unfold mbind at 1, M_bind at 1. unfold bitmap_reserve, modify at 1.
  fold (reserve_bits (wrap64 (start + n - 1))).
  rewrite (wrap64_id (start + n - 1)) by (unfold is_u64; lia).
  rewrite (wrap64_id (start * slot_stride c + _)) by (unfold is_u64; nia).
  set (c2 := _ <| bitmap ::= _ |>).
  destruct (ensure_run (start * slot_stride c + n * slot_stride c) c2) as (f1 & Hens & Hf1 & Hf1r);
    [apply Hok|apply Hok|done|nia|].
  unfold c2 in Hf1, Hf1r. cbn in Hf1, Hf1r. unfold mbind at 1, M_bind at 1. rewrite Hens.
  unfold mbind at 1, M_bind at 1. rewrite write_all_at_run by (try apply Hok; nia).
  unfold mbind at 1, M_bind at 1. unfold mark_pages, modify.
  eexists. split; [reflexivity|].
  assert (concat frames ≠ []) as Hcf.
  { intros Hnil. apply (f_equal (λ l, Z.of_nat (length l))) in Hnil.
    rewrite (length_pages (slot_stride c)) in Hnil by (done || lia). cbn in Hnil. nia. }
  assert (Z.of_nat (length (concat frames)) = n * slot_stride c) as Hcl
    by (rewrite (length_pages (slot_stride c)) by (done || lia); lia).
  assert (length (file_write_at (concat frames) (start * slot_stride c) f1) = length f1) as Hfw
    by (rewrite length_file_write_at by (done || nia); nia).
  assert (∀ q d, collect_map (numbered start pages) !! q = Some d → start ≤ q < start + n) as Hrange.
  { intros q d [Hq Hi]%numbered_collect. apply lookup_lt_Some in Hi. lia. }
  apply written_plain; try done; try apply Hok; cbn.
  - by rewrite Hfw.
  - rewrite Hfw. nia.
  - intros q Hq. rewrite (reserve_mark_spec _ (start + n - 1)); [|lia| |done].
    + rewrite <-(elem_of_dom (D := gset Z)). unfold collect_map.
      rewrite dom_list_to_map_L, elem_of_list_to_set, fmap_reverse, elem_of_reverse, numbered_fst.
      fold n. rewrite !list_elem_of_fmap. split; intros [?|(i & Hi & Hr)]; (by left) || right; exists i;
        apply elem_of_range in Hr as Hr'; (split; [|done]); rewrite ?wrap64_id in * by (unfold is_u64; lia); done.
    + apply Forall_fmap, Forall_forall. intros i Hi%elem_of_range. cbn. rewrite wrap64_id by (unfold is_u64; lia). lia.
  - intros q d Hq Hd. apply Hrange in Hd as Hr. apply numbered_collect in Hd as [Hq0 Hi].
    split; [by rewrite Forall_lookup in Hl; apply (Hl _ _ Hi)|].
    destruct (Forall2_lookup_l _ _ _ _ _ Hf Hi) as (fr & Hfr & Hdec & Hfrl). exists fr. split; [|done].
    pose proof (read_write_same (concat frames) (start * slot_stride c) f1 ltac:(nia)) as Hsame.
    apply (file_read_at_sub _ _ _ _ ((q - start) * slot_stride c) (slot_stride c)) in Hsame; [|nia..].
    replace (q * slot_stride c) with (start * slot_stride c + (q - start) * slot_stride c) by lia.
    rewrite Hsame. f_equal.
    rewrite Z2Nat.inj_mul by lia.
    apply block_lookup; [|done]. eapply Forall_impl; [exact Hfl|]. cbn. lia.
  - intros q Hq Hnone Hpq.
    destruct (region_bounds c q (q * slot_stride c) (slot_stride c) Hok Hq) as (_ & _ & Hb & _).
    { unfold region. by rewrite (Is_true_true_1 _ Hpq), Hc. }
    rewrite read_write_disjoint; [by apply Hf1r; nia|nia|nia|lia|nia|].
    assert (¬ (start ≤ q < start + n)) as Hout.
    { intros Hin. assert (∃ d, pages !! Z.to_nat (q - start) = Some d) as [d Hd].
      { apply lookup_lt_is_Some_2. lia. }
      rewrite (proj2 (numbered_collect start pages q d)) in Hnone by (split; [lia|done]). done. }
    rewrite Hcl. assert (q + 1 ≤ start ∨ start + n ≤ q) as [?|?] by lia; [left|right]; nia.
  - intros q d Hq Hm. by apply Hmem.
Qed.

(** ** Compressed bulk writes *)

Lemma pack_length l :
  Forall (λ x, 0 < Z.of_nat (length x.2) < 2 ^ 32) l →
  0 ≤ Z.of_nat (length (pack l).1) ≤ Z.of_nat (length l) * 2 ^ 32.
Proof.
  induction l as [|x l IH] using rev_ind; intros Hl; [cbn; lia|].
  apply Forall_app in Hl as [Hl [Hx _]%Forall_cons]. specialize (IH Hl).
  rewrite pack_snoc. cbn. rewrite !length_app. cbn. lia.
Qed.

(** The room a compressed write of [n] pages needs below the largest file. *)
Definition room (c : DiskCache K) (n : Z) : Prop :=
  cache_compression (cfg c) = true → next_offset (cache_index c) + n * 2 ^ 32 < 2 ^ 63.

Lemma numbered_wrapped start pages :
  0 ≤ start → start + Z.of_nat (length pages) ≤ 2 ^ 46 →
  (λ i, wrap64 (start + i)) <$> range 0 (Z.of_nat (length pages)) = (numbered start pages).*1.
Proof.
  intros Hs Hmax. rewrite numbered_fst. apply list_fmap_ext. intros j i Hi.
  apply list_elem_of_lookup_2, elem_of_range in Hi. apply wrap64_id. unfold is_u64. lia.
Qed.

Lemma bulk_compr now start pages c :
  cache_ok c → cache_compression (cfg c) = true → pages ≠ [] →
  Forall (λ d, Z.of_nat (length d) = page_size c) pages →
  0 ≤ start → start + Z.of_nat (length pages) ≤ 2 ^ 46 → room c (Z.of_nat (length pages)) →
  ∃ c', write_pages_bulk nonce now start (concat pages) (Z.of_nat (length pages)) c = (Ok (), c') ∧
    written (collect_map (numbered start pages)) c c'.
Proof.
  intros Hok Hc Hne Hl Hs Hmax Hroom. specialize (Hroom Hc). pose proof (ok_ps _ Hok) as Hps.
  unfold write_pages_bulk. unfold mbind at 1, M_bind at 1. rewrite check_tainted_run by apply Hok.
  unfold mbind at 1, M_bind at 1. unfold gets at 1. destruct (Z.eqb_spec (page_size c) 0) as [|_]; [lia|].
  unfold mbind at 1, M_bind at 1. unfold lift at 1.
  rewrite (length_pages (page_size c)) by (done || lia).
  rewrite wrap64_id by (unfold is_u64; nia). rewrite Z.ltb_irrefl. cbn [guard_err].
  unfold mbind at 1, M_bind at 1. unfold gets at 1. cbn [compose]. rewrite Hc.
  unfold write_pages_bulk_compressed. unfold mbind at 1, M_bind at 1. unfold gets at 1.
  unfold mbind at 1, M_bind at 1.
  assert (length pages = length (numbered start pages)) as Hlen by (unfold numbered; by rewrite length_imap).
  destruct (build_blobs_run (λ i, wrap64 (start + i))
    (λ i, or_panic (slice (i * page_size c)
      (Z.min (i * page_size c + page_size c) (Z.of_nat (length (concat pages)))) (concat pages)))
    (range 0 (Z.of_nat (length pages))) (numbered start pages) c Hc Hps) with (l0 := @nil (Z * bytes))
    as (l & k & Hrun & Hf).
  { rewrite Hlen. apply Forall2_range. unfold numbered. intros i x Hx.
    rewrite list_lookup_imap in Hx. destruct (pages !! i) as [d|] eqn:Hi; [|done]. injection Hx as <-. cbn.
    apply lookup_lt_Some in Hi as Hlt. split; [apply wrap64_id; unfold is_u64; lia|].
    split; [|by rewrite Forall_lookup in Hl; apply (Hl i)].
    rewrite Z.min_l; [by rewrite (slice_page (page_size c) pages i d Hl Hi)|].
    rewrite (length_pages (page_size c)) by (done || lia). nia. }
  cbn [app] in Hrun. change (pack []) with (@nil byte, @nil page_entry) in Hrun. rewrite Hrun.
  rewrite numbered_wrapped by lia. rewrite (wrap64_id (start + _ - 1)) by (unfold is_u64; destruct pages; [done|cbn in *; lia]).
  destruct (blobs_collect _ _ _ Hf) as (_ & _ & Hb & _). apply pack_length in Hb.
  pose proof (Forall2_length _ _ _ Hf) as Hfl.
  destruct (store_blobs_run c k (numbered start pages) l (start + Z.of_nat (length pages) - 1)
    (λ t, mark_sub_chunks now (sub_chunk_for_page t <$> (numbered start pages).*1) t))
    as (c' & Hrun' & Hw & _); [done|done|done|lia|destruct pages; [done|cbn; lia]| |].
  { rewrite numbered_fst. apply Forall_fmap, Forall_forall. intros i Hi%elem_of_range. cbn. lia. }
  exists c'. split; [|done]. destruct (pack l) as [blob es]. exact Hrun'.
Qed.

(** ** Scattered writes *)

Lemma max_page_bounds pages : Forall (λ p, 0 ≤ p) pages →
  0 ≤ max_page pages ∧ Forall (λ p, 0 ≤ p ≤ max_page pages) pages ∧
  (Forall page_num_ok pages → max_page pages < 2 ^ 46).
Proof.
  unfold max_page. induction 1 as [|p l Hp Hl (IH1 & IH2 & IH3)]; cbn; [split_and!; [done|constructor|done]|].
  split; [lia|]. split.
  - constructor; [lia|]. eapply Forall_impl; [exact IH2|]. cbn. lia.
  - intros [[? ?] Hl']%Forall_cons. specialize (IH3 Hl'). lia.
Qed.

Lemma write_loop_run (xs : list (Z * Z)) (page : Z → io bytes) (pages : list (Z * bytes)) c stride :
  faults c = [] → stride = slot_stride c → 0 < stride ≤ 2 ^ 16 + 28 →
  Forall2 (λ x pg, x.2 = pg.1 ∧ page_num_ok pg.1 ∧ page x.1 = Ok pg.2 ∧
    Z.of_nat (length pg.2) = page_size c ∧ (pg.1 + 1) * stride ≤ Z.of_nat (length (cache_file c))) xs pages →
  ∃ f k, for_each (λ ip, pg ← lift (page ip.1); frame ← encrypt_slot nonce pg;
      write_all_at frame (wrap64 (ip.2 * stride))) xs c = (Ok (), c <| cache_file := f |> <| draws := k |>) ∧
    length f = length (cache_file c) ∧
    ∀ q, 0 ≤ q → (q + 1) * stride ≤ Z.of_nat (length (cache_file c)) →
      match collect_map pages !! q with
      | Some d => ∃ fr, file_read_at stride (q * stride) f = Some fr ∧ decrypt_slot (cfg c) fr = Some d
      | None => file_read_at stride (q * stride) f = file_read_at stride (q * stride) (cache_file c)
      end.
Proof.
  intros Hq Hst Hstr Hf. revert c Hq Hst Hf. induction xs as [|[i p'] xs IH] in pages |- *; intros c Hq Hst Hf.
  - apply Forall2_nil_inv_l in Hf as ->. exists (cache_file c), (draws c). split; [by destruct c|].
    split; [done|]. intros q _ _. unfold collect_map. cbn. by rewrite lookup_empty.
  - apply Forall2_cons_inv_l in Hf as ([p d] & pages' & (Hn & [Hp0 Hp] & Hpg & Hl & Hb) & Hf & ->).
    cbn in Hn, Hp0, Hp, Hpg, Hl, Hb. subst p'.
    destruct (encrypt_slot_run d c) as (fr & k & Hrun & Hdec & Hlen).
    assert (Z.of_nat (length fr) = stride) as Hfl by (rewrite Hst, Hlen, Hl; done).
    set (c1 := c <| draws := k |> <| cache_file ::= file_write_at fr (p * stride) |>).
    assert (length (cache_file c1) = length (cache_file c)) as Hlen1.
    { unfold c1. cbn. rewrite length_file_write_at; [nia|nia|]. intros ->. cbn in Hfl. lia. }
    destruct (IH pages' c1) as (f & k' & Hrun' & Hlf & Hread); [done|done| |].
    { eapply Forall2_impl; [exact Hf|]. intros [j r] [r' d'] H'. rewrite Hlen1. exact H'. }
    exists f, k'. split; [|split; [by rewrite Hlf|]].
    + cbn [for_each]. unfold mbind at 1, M_bind at 1. unfold mbind at 1, M_bind at 1. unfold lift at 1. cbn [fst snd].
      rewrite Hpg. unfold mbind at 1, M_bind at 1. rewrite Hrun. rewrite wrap64_id by (unfold is_u64; nia).
      rewrite write_all_at_run by (done || nia). exact Hrun'.
    + rewrite Hlen1 in Hread. intros q Hq0 Hqb. specialize (Hread q Hq0 Hqb). rewrite collect_cons.
      destruct (collect_map pages' !! q) as [d0|]; [exact Hread|]. rewrite Hread. unfold c1. cbn.
      case_decide as Hqp.
      * subst q. exists fr. split; [|done]. rewrite <-Hfl at 1. apply read_write_same. nia.
      * apply read_write_disjoint; [nia|nia|lia|nia|]. assert (q < p ∨ p < q) as [?|?] by lia; [left|right]; nia.
Qed.

Lemma length_enumerate {A} (l : list A) : length (enumerate l) = length l.
Proof. unfold enumerate. rewrite length_zip_with, length_range. lia. Qed.

Lemma lookup_enumerate {A} (l : list A) i : enumerate l !! i = pair (Z.of_nat i) <$> l !! i.
Proof.
  unfold enumerate. rewrite lookup_zip_with. destruct (l !! i) as [x|] eqn:Hi.
  - apply lookup_lt_Some in Hi as Hlt. replace i with (Z.to_nat (Z.of_nat i)) at 1 by lia.
    by rewrite range_lookup by lia.
  - by destruct (range _ _ !! i).
Qed.

Lemma Forall2_enumerate {A B} (R : Z * A → B → Prop) (l : list A) (k : list B) :
  length l = length k → (∀ i x y, l !! i = Some x → k !! i = Some y → R (Z.of_nat i, x) y) →
  Forall2 R (enumerate l) k.
Proof.
  intros Hlen HR. apply Forall2_same_length_lookup_2; [by rewrite length_enumerate|].
  intros i x y Hx Hy. rewrite lookup_enumerate in Hx. destruct (l !! i) as [a|] eqn:Ha; [|done].
  injection Hx as <-. by eapply HR.
Qed.

(** The pages a scattered write is given, as the code receives them. *)
Definition well_sized (ps : Z) (pages : list (Z * bytes)) : Prop :=
  Forall (λ x, page_num_ok x.1 ∧ Z.of_nat (length x.2) = ps) pages.

Lemma well_sized_data ps pages : well_sized ps pages → Forall (λ d, Z.of_nat (length d) = ps) pages.*2.
Proof. intros Hw. apply Forall_fmap. eapply Forall_impl; [exact Hw|]. by intros x [_ ?]. Qed.

Lemma scattered_pages ps pages i p d :
  well_sized ps pages → pages.*1 !! i = Some p → pages !! i = Some d →
  p = d.1 ∧ page_num_ok d.1 ∧ page_of (concat pages.*2) ps (Z.of_nat i) = Ok d.2 ∧ Z.of_nat (length d.2) = ps.
Proof.
  intros Hw Hp Hd. rewrite list_lookup_fmap, Hd in Hp. injection Hp as <-.
  pose proof Hw as Hw'. unfold well_sized in Hw'. rewrite Forall_lookup in Hw'. destruct (Hw' i d Hd) as [? ?].
  split; [done|]. split; [done|]. split; [|done]. unfold page_of.
  by rewrite (slice_page ps pages.*2 i d.2 (well_sized_data _ _ Hw)) by (by rewrite list_lookup_fmap, Hd).
Qed.

Lemma scattered_all ps pages :
  0 < ps → well_sized ps pages →
  take (length (take_while (λ ip : Z * Z, (ip.1 + 1) * ps <=? Z.of_nat (length (concat pages.*2)))
    (enumerate pages.*1))) pages.*1 = pages.*1.
Proof.
  intros Hps Hw. rewrite take_while_all.
  - by rewrite length_enumerate, take_ge.
  - apply Forall_lookup. intros i x Hx. rewrite lookup_enumerate in Hx.
    destruct (pages.*1 !! i) as [p|] eqn:Hi; [|done]. injection Hx as <-. cbn.
    rewrite (length_pages ps) by (lia || by apply well_sized_data). apply Z.leb_le.
    assert (i < length pages)%nat by (rewrite <-(length_fmap fst pages); by eapply lookup_lt_Some).
    rewrite length_fmap. apply Z.mul_le_mono_nonneg_r; lia.
Qed.

Lemma scattered_compr now pages gid idx c :
  cache_ok c → cache_compression (cfg c) = true → pages ≠ [] → well_sized (page_size c) pages →
  room c (Z.of_nat (length pages)) →
  ∃ c', write_pages_scattered nonce now pages.*1 (concat pages.*2) gid idx c = (Ok (), c') ∧
    written (collect_map pages) c c'.
Proof.
  intros Hok Hc Hne Hw Hroom. specialize (Hroom Hc). pose proof (ok_ps _ Hok) as Hps.
  assert (pages.*1 ≠ []) as Hne1 by (by destruct pages).
  unfold write_pages_scattered. unfold mbind at 1, M_bind at 1. rewrite check_tainted_run by apply Hok.
  unfold mbind at 1, M_bind at 1. unfold gets at 1. rewrite bool_decide_false by done.
  destruct (Z.eqb_spec (page_size c) 0) as [|_]; [lia|]. cbn [orb].
  rewrite scattered_all by (done || lia). rewrite bool_decide_false by done.
  unfold mbind at 1, M_bind at 1. unfold gets at 1. cbn [compose]. rewrite Hc.
  unfold write_pages_scattered_compressed. unfold mbind at 1, M_bind at 1.
  destruct (build_blobs_run snd (λ ip, page_of (concat pages.*2) (page_size c) ip.1) (enumerate pages.*1) pages
    c Hc Hps) with (l0 := @nil (Z * bytes)) as (l & k & Hrun & Hf).
  { apply Forall2_enumerate; [by rewrite length_fmap|]. intros i p d Hp Hd.
    destruct (scattered_pages _ _ _ _ _ Hw Hp Hd) as (-> & _ & ? & ?). done. }
  cbn [app] in Hrun. change (pack []) with (@nil byte, @nil page_entry) in Hrun. rewrite Hrun.
  destruct (blobs_collect _ _ _ Hf) as (_ & _ & Hb & _). apply pack_length in Hb.
  pose proof (Forall2_length _ _ _ Hf) as Hfl.
  assert (Forall (λ p, 0 ≤ p) pages.*1) as Hnn.
  { apply Forall_fmap. eapply Forall_impl; [exact Hw|]. intros x [[? ?] _]. cbn. lia. }
  destruct (max_page_bounds _ Hnn) as (Hm0 & Hm & _).
  destruct (store_blobs_run c k pages l (max_page pages.*1) (mark_group_positions now gid idx (length pages.*1)))
    as (c' & Hrun' & Hwr & _); try done; [lia|].
  exists c'. split; [|done]. destruct (pack l) as [blob es]. exact Hrun'.
Qed.

(** The in-memory copies of a scattered write. *)
Lemma promote_scattered_run pages c :
  0 < page_size c ≤ 2 ^ 16 → pages ≠ [] → well_sized (page_size c) pages →
  Z.of_nat (length pages) < 2 ^ 47 →
  ∃ c', promote_scattered_to_mem_cache pages.*1 (concat pages.*2) c = (Ok (), c') ∧ same_but_mem c c' ∧
    (∀ q d, mem_slot c' q = Some d → match collect_map pages !! q with
       Some d' => d = d' | None => mem_slot c q = Some d end).
Proof.
  intros Hps Hne Hw Hmax. unfold promote_scattered_to_mem_cache. unfold mbind at 1, M_bind at 1. unfold gets at 1.
  destruct (Z.eqb_spec (page_size c) 0) as [|_]; [lia|].
  rewrite bool_decide_false by (by destruct pages). cbn [orb]. unfold mbind at 1, M_bind at 1. unfold lift at 1.
  rewrite (length_pages (page_size c)) by (lia || by apply well_sized_data). rewrite !length_fmap.
  rewrite wrap64_id by (unfold is_u64; nia). rewrite Z.ltb_irrefl. cbn [guard_err].
  destruct (install_all_run snd (λ ip, page_of (concat pages.*2) (page_size c) ip.1) (enumerate pages.*1) pages c)
    as (c' & Hrun & Hsame & Hm); [lia| |by exists c'].
  apply Forall2_enumerate; [by rewrite length_fmap|]. intros i p d Hp Hd.
  destruct (scattered_pages _ _ _ _ _ Hw Hp Hd) as (-> & ? & ? & ?). done.
Qed.

Lemma scattered_plain now pages gid idx c :
  cache_ok c → cache_compression (cfg c) = false → pages ≠ [] → well_sized (page_size c) pages →
  Z.of_nat (length pages) < 2 ^ 47 →
  ∃ c', write_pages_scattered nonce now pages.*1 (concat pages.*2) gid idx c = (Ok (), c') ∧
    written (collect_map pages) c c'.
Proof.
  intros Hok Hc Hne Hw Hcount. pose proof (ok_ps _ Hok) as Hps. pose proof (slot_stride_bounds _ Hok) as Hstr.
  pose proof (ok_max _ Hok) as Hflen. assert (pages.*1 ≠ []) as Hne1 by (by destruct pages).
  assert (Forall page_num_ok pages.*1) as Hpn.
  { apply Forall_fmap. eapply Forall_impl; [exact Hw|]. by intros x [? _]. }
  destruct (max_page_bounds pages.*1) as (Hm0 & Hm & Hm46).
  { eapply Forall_impl; [exact Hpn|]. unfold page_num_ok. lia. }
  specialize (Hm46 Hpn). set (top := max_page pages.*1) in *.
  unfold write_pages_scattered. unfold mbind at 1, M_bind at 1. rewrite check_tainted_run by apply Hok.
  unfold mbind at 1, M_bind at 1. unfold gets at 1. rewrite bool_decide_false by done.
  destruct (Z.eqb_spec (page_size c) 0) as [|_]; [lia|]. cbn [orb].
  rewrite scattered_all by (done || lia). rewrite bool_decide_false by done.
  unfold mbind at 1, M_bind at 1. unfold gets at 1. cbn [compose]. rewrite Hc.
  destruct (promote_scattered_run pages c) as (c1 & Hrun1 & (m & mb & ->) & Hmem); try done.
  unfold mbind at 1, M_bind at 1. rewrite Hrun1. clear Hrun1.
  set (c1 := c <| mem_cache := m |> <| mem_cache_bytes := mb |>) in *.
  unfold mbind at 1, M_bind at 1. unfold gets at 1. change (slot_stride c1) with (slot_stride c).
  unfold mbind at 1, M_bind at 1. unfold bitmap_reserve, modify at 1. fold top (reserve_bits top).
  rewrite (wrap64_id (top + 1)) by (unfold is_u64; lia). rewrite (wrap64_id (_ * slot_stride c)) by (unfold is_u64; nia).
  set (c2 := c1 <| bitmap ::= _ |>).
  destruct (ensure_run ((top + 1) * slot_stride c) c2) as (f1 & Hens & Hf1 & Hf1r);
    [apply Hok|apply Hok|done|nia|].
  unfold c2 in Hf1, Hf1r. cbn in Hf1, Hf1r. unfold mbind at 1, M_bind at 1. rewrite Hens.
  set (c3 := c2 <| cache_file := f1 |> <| cache_file_len := Z.of_nat (length f1) |>).
  destruct (write_loop_run (enumerate pages.*1) (page_of (concat pages.*2) (page_size c)) pages c3 (slot_stride c))
    as (f & k & Hrun & Hlf & Hread); [apply Hok|done|done| |].
  { apply Forall2_enumerate; [by rewrite length_fmap|]. intros i p d Hp Hd.
    destruct (scattered_pages _ _ _ _ _ Hw Hp Hd) as (-> & ? & ? & ?). split_and!; try done; try lia.
    cbn. rewrite Forall_lookup in Hm. specialize (Hm i d.1 Hp). cbn in Hm. nia. }
  unfold mbind at 1, M_bind at 1. rewrite Hrun. unfold mbind at 1, M_bind at 1. unfold mark_pages, modify.
  eexists. split; [reflexivity|]. change (length (cache_file c3)) with (length f1) in *.
  assert (∀ q, is_Some (collect_map pages !! q) ↔ q ∈ pages.*1) as Hdom.
  { intros q. destruct (collect_map pages !! q) as [d|] eqn:Hd.
    - split; [|by eexists]. intros _. destruct (decide (q ∈ pages.*1)) as [?|Hn]; [done|].
      apply collect_None in Hn. congruence.
    - apply collect_None in Hd. split; [by intros [? ?]|done]. }
  assert (∀ q d, collect_map pages !! q = Some d → 0 ≤ q ≤ top ∧ Z.of_nat (length d) = page_size c) as Hin.
  { intros q d Hd. apply elem_of_list_to_map_2 in Hd. rewrite elem_of_reverse in Hd. split.
    - rewrite Forall_forall in Hm. apply (Hm q). apply list_elem_of_fmap. by exists (q, d).
    - unfold well_sized in Hw. rewrite Forall_forall in Hw. apply (Hw _ Hd). }
  apply written_plain; try done; try apply Hok; cbn.
  - by rewrite Hlf.
  - rewrite Hlf. nia.
  - intros q Hq. rewrite Hdom. by apply reserve_mark_spec.
  - intros q d Hq Hd. destruct (Hin q d Hd) as [Hqt Hdl]. split; [done|].
    specialize (Hread q Hq ltac:(nia)). rewrite Hd in Hread. exact Hread.
  - intros q Hq Hnone Hpq.
    destruct (region_bounds c q (q * slot_stride c) (slot_stride c) Hok Hq) as (_ & _ & Hb & _).
    { unfold region. by rewrite (Is_true_true_1 _ Hpq), Hc. }
    specialize (Hread q Hq ltac:(lia)). rewrite Hnone in Hread. rewrite Hread. apply Hf1r; nia.
  - intros q d Hq Hd. by apply Hmem.
Qed.
End cache_write.
