(* ===== verification/CacheSafety.v ===== *)
(** The local disk cache over time: its steps as a relation, the theorem that no
    reachable cache serves a page other than the last one written, the group
    states, and what the model shows about the paths that lose pages. *)

From S2P Require Import Prelude Float64 CacheTracking Manifest LocalState Compress File DiskCache CacheView.
From S2P Require Import CacheWrite.

Section cache_safety.
Context `{HashIter} `{Compression} `{Aead K} (nonce : Z → bytes) `{!CacheLaws nonce}.
Implicit Types c : DiskCache K.

(* ------------------------------------------------------------------ *)
(** * Writes *)

(** The three writers. *)
Inductive cache_write :=
  | WriteOne (now p : Z) (d : bytes)
  | WriteBulk (now start : Z) (pages : list bytes)
  | WriteScattered (now : Z) (pages : list (Z * bytes)) (gid index : Z).

Definition run_write (w : cache_write) : M K () :=
  match w with
  | WriteOne now p d => write_page nonce now p d
  | WriteBulk now start pages => write_pages_bulk nonce now start (concat pages) (Z.of_nat (length pages))
  | WriteScattered now pages gid index =>
      write_pages_scattered nonce now pages.*1 (concat pages.*2) gid index
  end.

(** The pages a write installs, later ones over earlier ones. *)
Definition write_pages (w : cache_write) : list (Z * bytes) :=
  match w with
  | WriteOne _ p d => [(p, d)]
  | WriteBulk _ start pages => numbered start pages
  | WriteScattered _ pages _ _ => pages
  end.

(** Whole pages, at least one, with numbers and room below the limits. *)
Definition write_ok (w : cache_write) (c : DiskCache K) : Prop :=
  well_sized (page_size c) (write_pages w) ∧ write_pages w ≠ [] ∧
  Z.of_nat (length (write_pages w)) < 2 ^ 46 ∧ room c (Z.of_nat (length (write_pages w))).

Lemma run_write_run w c :
  cache_ok c → write_ok w c →
  ∃ c', run_write w c = (Ok (), c') ∧ written (collect_map (write_pages w)) c c'.
Proof.
  intros Hok (Hw & Hne & Hcount & Hroom). destruct w as [now p d|now start pages|now pages gid index]; cbn [write_pages run_write] in *.
  - unfold well_sized in Hw. apply Forall_cons in Hw as [[Hp Hd] _]. cbn in Hp, Hd.
    change (collect_map [(p, d)]) with ({[ p := d ]} : gmap Z bytes).
    destruct (cache_compression (cfg c)) eqn:Hc.
    + destruct (write_page_compr nonce now p d c) as (c' & Hrun & Hwr & _); [done..| |by exists c'].
      specialize (Hroom Hc). cbn in Hroom. lia.
    + destruct (write_page_plain nonce now p d c) as (c' & Hrun & Hwr & _); [done..|]. by exists c'.
  - assert (pages ≠ []) as Hne' by (intros ->; done).
    assert (Forall (λ d, Z.of_nat (length d) = page_size c) pages) as Hl.
    { unfold well_sized, numbered in Hw. apply Forall_lookup. intros i d Hi. rewrite Forall_lookup in Hw.
      specialize (Hw i (start + Z.of_nat i, d)). rewrite list_lookup_imap, Hi in Hw. by apply Hw. }
    unfold numbered in Hcount, Hroom. rewrite length_imap in Hcount, Hroom.
    assert (∀ i, (i < length pages)%nat → page_num_ok (start + Z.of_nat i)) as Hrange.
    { intros i Hi. unfold well_sized, numbered in Hw. rewrite Forall_lookup in Hw.
      destruct (lookup_lt_is_Some_2 _ _ Hi) as [d Hd].
      specialize (Hw i (start + Z.of_nat i, d)). rewrite list_lookup_imap, Hd in Hw. by apply Hw. }
    assert (0 < length pages)%nat by (destruct pages; [done|cbn; lia]).
    destruct (Hrange 0%nat ltac:(lia)) as [Hs _].
    destruct (Hrange (length pages - 1)%nat ltac:(lia)) as [_ He].
    destruct (cache_compression (cfg c)) eqn:Hc; [apply bulk_compr|apply bulk_plain]; done || lia.
  - destruct (cache_compression (cfg c)) eqn:Hc; [by apply scattered_compr|].
    apply scattered_plain; done || lia.
Qed.

(** C13. Written pages read back and disturb no other: each of the three writers,
    in each of the three page formats, succeeds, keeps the cache well formed,
    and changes the view exactly at the pages it was given. *)
Theorem cache_write_refines w c :
  cache_ok c → write_ok w c →
  ∃ c', run_write w c = (Ok (), c') ∧ cache_ok c' ∧
    ∀ p, 0 ≤ p → view c' p =
      match collect_map (write_pages w) !! p with Some d => Some d | None => view c p end.
Proof.
  intros Hok Hw. destruct (run_write_run w c Hok Hw) as (c' & Hrun & Hwr). exists c'. split; [done|].
  split; [apply Hwr|]. intros p Hp. rewrite !view_stored by (done || apply Hwr). by apply Hwr.
Qed.

(* ------------------------------------------------------------------ *)
(** * Group states *)

(** What a group's state becomes under the operations of the fetch protocol. *)
Inductive group_op := Claim (gid : Z) | UnclaimIfFetching (gid : Z) | Unclaim (gid : Z).

(** The operation, and whether it reported success. *)
Definition run_group_op (op : group_op) : M K bool :=
  match op with
  | Claim gid => try_claim_group gid
  | UnclaimIfFetching gid => unclaim_if_fetching gid
  | Unclaim gid => _ ← unclaim_group gid; mret true
  end.

Definition op_gid (op : group_op) : Z :=
  match op with Claim g | UnclaimIfFetching g | Unclaim g => g end.

(** The protocol on one state. *)
Definition group_spec (op : group_op) (s : GroupState) : bool * GroupState :=
  match op, s with
  | Claim _, GroupNone => (true, Fetching)
  | Claim _, s => (false, s)
  | UnclaimIfFetching _, Fetching => (true, GroupNone)
  | UnclaimIfFetching _, s => (false, s)
  | Unclaim _, _ => (true, GroupNone)
  end.

Lemma group_state_set g s c h :
  0 ≤ g → group_state (set_group_state g s c) h =
    if decide (h = g ∧ g < Z.of_nat (length (group_states c))) then s else group_state c h.
Proof.
  intros Hg. unfold group_state, set_group_state. destruct (Z.ltb_spec g 0); [lia|]. cbn.
  rewrite at_index_insert by done.
  destruct (decide (g = h ∧ _)) as [[-> Hl]|Hn]; [by rewrite decide_True|].
  rewrite decide_False; [done|]. intros [-> Hl]. by apply Hn.
Qed.

Lemma group_state_grow n c h :
  group_state (c <| group_states ::= grow_to n GroupNone |>) h = group_state c h.
Proof.
  unfold group_state. cbn. destruct (at_index (group_states c) h) as [s|] eqn:Hs.
  - by rewrite (proj2 (at_index_grow _ _ s _ _) (or_introl Hs)).
  - destruct (at_index (grow_to _ _ _) h) as [s|] eqn:Hg; [|done].
    apply at_index_grow in Hg as [?|(_ & _ & ->)]; [congruence|done].
Qed.

Lemma group_state_beyond c g : Z.of_nat (length (group_states c)) ≤ g → group_state c g = GroupNone.
Proof.
  intros Hl. unfold group_state, at_index. case_match; [done|]. by rewrite lookup_ge_None_2 by lia.
Qed.

(** Only the group states differ. *)
Definition only_states (c c' : DiskCache K) : Prop := c' = c <| group_states := group_states c' |>.

Lemma only_states_refl c : only_states c c.
Proof. unfold only_states. by destruct c. Qed.

Lemma only_states_set g s c : only_states c (set_group_state g s c).
Proof. unfold only_states, set_group_state. destruct (g <? 0); [apply only_states_refl|done]. Qed.

Lemma only_states_grow n c : only_states c (c <| group_states ::= grow_to n GroupNone |>).
Proof. done. Qed.

Lemma only_states_trans c1 c2 c3 : only_states c1 c2 → only_states c2 c3 → only_states c1 c3.
Proof. unfold only_states. intros -> ->. done. Qed.

Lemma group_op_run op c :
  0 ≤ op_gid op < 2 ^ 32 →
  ∃ c', run_group_op op c = (Ok (group_spec op (group_state c (op_gid op))).1, c') ∧
    group_state c' (op_gid op) = (group_spec op (group_state c (op_gid op))).2 ∧
    (∀ h, h ≠ op_gid op → group_state c' h = group_state c h) ∧ only_states c c'.
Proof.
  intros Hg. destruct op as [g|g|g]; cbn [op_gid run_group_op] in *.
  - unfold try_claim_group, ensure_group_capacity, mbind, M_bind, modify, gets.
    rewrite wrap64_id by (unfold is_u64; lia).
    set (c1 := c <| group_states ::= grow_to (Z.to_nat (g + 1)) GroupNone |>).
    assert (g < Z.of_nat (length (group_states c1))) as Hlen by (unfold c1; cbn; rewrite length_grow_to; lia).
    assert (∀ h, group_state c1 h = group_state c h) as Hgs by (intros h; apply group_state_grow).
    assert (at_index (group_states c1) g = Some (group_state c g)) as Hat.
    { rewrite <-Hgs. unfold group_state. destruct (at_index (group_states c1) g) as [s|] eqn:Hs; [done|].
      unfold at_index in Hs. destruct (Z.ltb_spec g 0); [lia|]. apply lookup_ge_None in Hs. lia. }
    rewrite Hat. destruct (group_state c g) eqn:Hs.
    + exists (set_group_state g Fetching c1). split; [reflexivity|]. split; [|split].
      * by rewrite group_state_set, decide_True by lia.
      * intros h Hh. rewrite group_state_set by lia. rewrite decide_False by (intros [? _]; done). apply Hgs.
      * eapply only_states_trans; [apply only_states_grow|apply only_states_set].
    + exists c1. split; [reflexivity|]. by rewrite Hgs.
    + exists c1. split; [reflexivity|]. by rewrite Hgs.
  - unfold unclaim_if_fetching, mbind, M_bind, modify, gets.
    destruct (at_index (group_states c) g) as [s|] eqn:Hat.
    + assert (group_state c g = s) as Hs by (unfold group_state; by rewrite Hat). rewrite Hs.
      assert (g < Z.of_nat (length (group_states c))) as Hlen.
      { unfold at_index in Hat. destruct (Z.ltb_spec g 0); [lia|]. apply lookup_lt_Some in Hat. lia. }
      destruct s; [exists c; split_and!; try done; apply only_states_refl| |exists c; split_and!; try done; apply only_states_refl].
      eexists. split; [reflexivity|]. split; [by rewrite group_state_set, decide_True by lia|].
      split; [|apply only_states_set]. intros h Hh. rewrite group_state_set by lia. by rewrite decide_False by (intros [? _]; done).
    + assert (group_state c g = GroupNone) as Hs by (unfold group_state; by rewrite Hat). rewrite Hs.
      exists c. split_and!; try done. apply only_states_refl.
  - unfold unclaim_group, mbind, M_bind, modify. eexists. split; [reflexivity|]. split; [|split; [|apply only_states_set]].
    + rewrite group_state_set by lia. case_decide as Hd; [done|]. apply group_state_beyond. lia.
    + intros h Hh. rewrite group_state_set by lia. by rewrite decide_False by (intros [? _]; done).
Qed.

(** The fetch protocol is a lock per group: a claim succeeds exactly when
    the group is neither being fetched nor present, so two fetchers never hold
    one group; giving up a fetch never undoes a group that became present; no
    operation touches another group, nor anything but the states. *)
Theorem group_protocol op c :
  0 ≤ op_gid op < 2 ^ 32 →
  ∃ c', run_group_op op c = (Ok (group_spec op (group_state c (op_gid op))).1, c') ∧
    group_state c' (op_gid op) = (group_spec op (group_state c (op_gid op))).2 ∧
    (∀ h, h ≠ op_gid op → group_state c' h = group_state c h) ∧ only_states c c'.
Proof. apply group_op_run. Qed.

(* ------------------------------------------------------------------ *)
(** * Removal *)

(** Pages leave the cache through the bitmap; the file keeps the bytes of the
    pages that stay. *)
Lemma trimmed c c' :
  cache_ok c → cfg c' = cfg c → page_size c' = page_size c → faults c' = [] → tainted c' = false →
  (∀ pages, pages ∈ group_pages c' → Forall page_num_ok pages) →
  cache_file_len c' = Z.of_nat (length (cache_file c')) → Z.of_nat (length (cache_file c')) < 2 ^ 63 →
  (cache_compression (cfg c) = true →
     cache_index c' = cache_index c ∧ length (cache_file c') = length (cache_file c)) →
  (∀ p, 0 ≤ p → cache_is_present c' p → cache_is_present c p) →
  (∀ p o n, 0 ≤ p → cache_is_present c' p → region c p = Some (o, n) →
     file_read_at n o (cache_file c') = file_read_at n o (cache_file c)) →
  (∀ p d, mem_slot c' p = Some d → mem_slot c p = Some d) →
  cache_ok c' ∧ ∀ p, 0 ≤ p → stored c' p = if cache_is_present c' p then stored c p else None.
Proof.
  intros Hok Hcfg Hps Hq Ht Hg Hl Hmax Hidx Hpres Hread Hmem.
  assert (∀ p, 0 ≤ p → stored c' p = if cache_is_present c' p then stored c p else None) as Hst.
  { intros p Hp. destruct (cache_is_present c' p) eqn:Hp'; [|by apply stored_absent].
    assert (cache_is_present c' p) as Hpt by by rewrite Hp'.
    apply stored_frame; try done.
    - rewrite Hp'. symmetry. by apply Is_true_true_1, Hpres.
    - intros Hc. by destruct (Hidx Hc) as [-> _].
    - intros o n Hr. by apply (Hread p). }
  split; [|done]. destruct Hok. split; rewrite ?Hcfg, ?Hps; try done.
  - intros Hc. destruct (Hidx Hc) as [-> ->]. auto.
  - intros p Hp Hp'. rewrite Hst, (Is_true_true_1 _ Hp') by done. auto.
  - intros Hc p d Hp Hp' Hm. rewrite Hst, (Is_true_true_1 _ Hp') by done. auto.
Qed.

(** The common case: only the bitmap and the in-memory copies lose pages. *)
Lemma trimmed_bitmap c c' :
  cache_ok c → cfg c' = cfg c → page_size c' = page_size c → faults c' = faults c →
  tainted c' = tainted c → group_pages c' = group_pages c → cache_file_len c' = cache_file_len c →
  cache_file c' = cache_file c → cache_index c' = cache_index c →
  (∀ p, 0 ≤ p → CacheTracking.is_present (bitmap c') p → CacheTracking.is_present (bitmap c) p) →
  (∀ p d, mem_slot c' p = Some d → mem_slot c p = Some d) →
  cache_ok c' ∧ ∀ p, 0 ≤ p →
    stored c' p = if CacheTracking.is_present (bitmap c') p then stored c p else None.
Proof.
  intros Hok Hcfg Hps Hq Ht Hg Hl Hf Hi Hb Hm.
  assert (∀ p, 0 ≤ p → cache_is_present c' p =
    (CacheTracking.is_present (bitmap c') p && cache_is_present c p)) as Hpres.
  { intros p Hp. specialize (Hb p Hp). unfold cache_is_present. rewrite Hcfg, Hi.
    destruct (CacheTracking.is_present (bitmap c') p); [|by destruct (cache_compression _)].
    by rewrite (Is_true_true_1 _ (Hb I)). }
  assert (∀ p, 0 ≤ p → cache_is_present c' p → cache_is_present c p) as Hpres'.
  { intros p Hp. rewrite Hpres by done. by intros [_ ?]%andb_prop_elim. }
  destruct (trimmed c c') as [Hok' Hst]; try done; rewrite ?Hq, ?Ht, ?Hg, ?Hl, ?Hf; try apply Hok; [done|done|].
  split; [done|]. intros p Hp. rewrite Hst, Hpres by done.
  destruct (CacheTracking.is_present (bitmap c') p); [|done]. cbn.
  destruct (cache_is_present c p) eqn:Hpc; [done|]. symmetry. by apply stored_absent.
Qed.

Lemma drop_slots_mem pages c p d : mem_slot (drop_slots pages c) p = Some d → mem_slot c p = Some d.
Proof. destruct (drop_slots_spec pages c) as [_ ->]. by case_decide. Qed.

Lemma clear_mem_run pages c :
  0 < page_size c → clear_pages_from_mem_cache pages c = (Ok (), drop_slots pages c).
Proof.
  intros Hps. unfold clear_pages_from_mem_cache, modify. destruct (Z.eqb_spec (page_size c) 0); [lia|done].
Qed.

Lemma evict_group_run gid c :
  cache_ok c → is_u32 gid →
  ∃ c', evict_group gid c = (Ok (), c') ∧ cache_ok c' ∧
    (∀ p, 0 ≤ p → stored c' p = if decide (p ∈ cache_group_page_nums c gid) then None else stored c p) ∧
    tracker c' = remove_group (tracker c) (wrap32 gid).
Proof.
  intros Hok Hgid. unfold evict_group. unfold mbind at 1, M_bind at 1. unfold gets at 1.
  set (pages := cache_group_page_nums c gid).
  destruct (clear_pages_run pages c) as (c1 & Hrun & [Hst Hok1 Hs1]); [done|by apply group_page_nums_ok|].
  unfold mbind at 1, M_bind at 1. rewrite Hrun. unfold mbind at 1, M_bind at 1.
  rewrite clear_mem_run by apply Hok1.
  destruct (drop_slots_spec pages c1) as [(m & b & Hsame) Hmem]. pose proof (drop_slots_mem pages c1) as Hmem'.
  rewrite Hsame in Hmem' |- *. clear Hsame Hmem. eexists. split; [reflexivity|].
  match goal with |- cache_ok ?x ∧ _ => set (c2 := x) end.
  assert (only_states (c1 <| mem_cache := m |> <| mem_cache_bytes := b |>
    <| tracker ::= λ t, remove_group t (wrap32 gid) |>) c2) as Hc2 by apply only_states_set.
  destruct (trimmed_bitmap c1 c2) as [Hok2 Hs2]; try done; try (rewrite Hc2; done).
  split; [done|]. split; [|by rewrite Hc2, Hst]. intros p Hp. rewrite Hs2, Hs1 by done. rewrite Hc2. cbn.
  destruct (CacheTracking.is_present (bitmap c1) p) eqn:Hb; [done|].
  rewrite <-Hs1 by done. symmetry. apply stored_absent. unfold cache_is_present. rewrite Hb. by rewrite andb_false_r.
Qed.

Lemma stored_not_marked c p : ¬ CacheTracking.is_present (bitmap c) p → stored c p = None.
Proof.
  intros Hp. apply stored_absent. unfold cache_is_present.
  destruct (CacheTracking.is_present (bitmap c) p); [by destruct Hp|]. by rewrite andb_false_r.
Qed.

Lemma invalidate_group_run gid ppg c :
  cache_ok c → is_u32 gid → 0 ≤ ppg ≤ 2 ^ 13 →
  ∃ c', invalidate_group gid ppg c = (Ok (), c') ∧ cache_ok c' ∧
    ∀ p, 0 ≤ p → stored c' p = if decide (gid * ppg ≤ p < gid * ppg + ppg) then None else stored c p.
Proof.
  intros Hok Hgid Hppg. unfold is_u32 in Hgid. unfold invalidate_group, modify.
  rewrite (wrap64_id (gid * ppg)) by (unfold is_u64; nia). rewrite (wrap64_id (gid * ppg + ppg)) by (unfold is_u64; nia).
  eexists. split; [reflexivity|]. pose proof (ok_ps _ Hok). rewrite (proj2 (Z.ltb_lt 0 _)) by (cbn; lia).
  set (pages := range (gid * ppg) (gid * ppg + ppg)).
  match goal with |- context [drop_slots pages ?x] => set (c1 := x) end.
  destruct (drop_slots_spec pages c1) as [(m & b & Hsame) _]. pose proof (drop_slots_mem pages c1) as Hmem.
  rewrite Hsame in Hmem |- *. clear Hsame.
  assert (∀ p, 0 ≤ p → CacheTracking.is_present (bitmap c1) p ↔
    CacheTracking.is_present (bitmap c) p ∧ ¬ (gid * ppg ≤ p < gid * ppg + ppg)) as Hb.
  { intros p Hp. unfold c1. cbn. unfold clear_range. rewrite wrap64_id by (unfold is_u64; nia).
    rewrite clear_fold_spec; [by rewrite elem_of_range|done|]. apply Forall_forall. intros q Hq%elem_of_range. nia. }
  match goal with |- cache_ok ?x ∧ _ => set (c2 := x) end.
  destruct (trimmed_bitmap c c2) as [Hok2 Hs2]; try done.
  { intros p Hp Hp'. by apply Hb. }
  split; [done|]. intros p Hp. rewrite Hs2 by done. specialize (Hb p Hp). change (bitmap c2) with (bitmap c1).
  destruct (CacheTracking.is_present (bitmap c1) p) eqn:Hb1.
  - rewrite decide_False; [done|]. by apply Hb.
  - case_decide; [done|]. symmetry. apply stored_not_marked. intros Hm. by apply Hb.
Qed.

Lemma clear_above_spec b n p :
  0 ≤ n → 0 ≤ p → CacheTracking.is_present (clear_at_or_above b n) p ↔ CacheTracking.is_present b p ∧ p < n.
Proof.
  intros Hn Hp. unfold clear_at_or_above. rewrite clear_fold_spec, elem_of_range; [|done|].
  - split; [|intros [? ?]; split; [done|lia]]. intros [Hb Hr]. split; [done|].
    apply present_below_capacity in Hb as ?; [|done]. lia.
  - apply Forall_forall. intros q Hq%elem_of_range. lia.
Qed.

Lemma clear_above_run n c :
  cache_ok c → 0 ≤ n →
  ∃ c', clear_pages_at_or_above n c = (Ok (), c') ∧ cache_ok c' ∧
    ∀ p, 0 ≤ p → stored c' p = if decide (n ≤ p) then None else stored c p.
Proof.
  intros Hok Hn. unfold clear_pages_at_or_above, modify. eexists. split; [reflexivity|].
  match goal with |- cache_ok ?x ∧ _ => set (c2 := x) end.
  assert (only_states (c <| bitmap ::= λ b, clear_at_or_above b n |>) c2) as Hc2.
  { unfold c2. cbn. by destruct (0 <? pages_per_group (cfg c)). }
  destruct (trimmed_bitmap c c2) as [Hok2 Hs2]; try (rewrite Hc2; done); try done.
  { intros p Hp. rewrite Hc2. cbn. by intros [? _]%clear_above_spec. }
  split; [done|]. intros p Hp. rewrite Hs2 by done. rewrite Hc2. cbn.
  pose proof (clear_above_spec (bitmap c) n p Hn Hp) as Hb.
  destruct (CacheTracking.is_present (clear_at_or_above (bitmap c) n) p) eqn:Hb1.
  - rewrite decide_False; [done|]. destruct Hb as [Hb _]. specialize (Hb I). lia.
  - case_decide; [done|]. symmetry. apply stored_not_marked. intros Hm. apply Hb. split; [done|lia].
Qed.

(** The bitmap and the in-memory copies after the truncation's clearing step. *)
Definition truncated_pages (n : Z) (c : DiskCache K) : DiskCache K :=
  if n <? bit_capacity (bitmap c)
  then drop_slots (range n (bit_capacity (bitmap c)))
         (c <| bitmap ::= λ b, clear_range b n (bit_capacity (bitmap c) - n) |>)
  else c.

Lemma truncated_pages_spec n c :
  0 ≤ n → bit_capacity (bitmap c) < 2 ^ 63 →
  (∃ b m mb, truncated_pages n c = c <| bitmap := b |> <| mem_cache := m |> <| mem_cache_bytes := mb |>) ∧
  (∀ p, 0 ≤ p → CacheTracking.is_present (bitmap (truncated_pages n c)) p ↔
     CacheTracking.is_present (bitmap c) p ∧ p < n) ∧
  ∀ p d, mem_slot (truncated_pages n c) p = Some d → mem_slot c p = Some d.
Proof.
  intros Hn Hcap. unfold truncated_pages. destruct (Z.ltb_spec n (bit_capacity (bitmap c))) as [Hlt|Hge].
  - match goal with |- context [drop_slots ?l ?x] => set (c1 := x);
      destruct (drop_slots_spec l c1) as [(m & mb & Hsame) _]; pose proof (drop_slots_mem l c1) as Hmem end.
    rewrite Hsame in Hmem |- *. split; [by eexists _, _, _|]. split; [|exact Hmem].
    intros p Hp. cbn. unfold clear_range. rewrite wrap64_id by (unfold is_u64; lia).
    rewrite clear_fold_spec, elem_of_range; [|done|].
    + split; [|intros [? ?]; split; [done|lia]]. intros [Hb Hr]. split; [done|].
      apply present_below_capacity in Hb as ?; [|done]. lia.
    + apply Forall_forall. intros q Hq%elem_of_range. lia.
  - split; [exists (bitmap c), (mem_cache c), (mem_cache_bytes c); by destruct c|]. split; [|done].
    intros p Hp. split; [|by intros [? _]]. intros Hb. split; [done|].
    apply present_below_capacity in Hb as ?; [|done]. lia.
Qed.

Lemma truncate_run n c :
  cache_ok c → cache_compression (cfg c) = false → 0 ≤ n ≤ 2 ^ 46 → bit_capacity (bitmap c) < 2 ^ 63 →
  ∃ c', truncate_to_page_count n (page_size c) c = (Ok (), c') ∧ cache_ok c' ∧
    Z.of_nat (length (cache_file c')) = n * slot_stride c ∧ generation c' = generation c ∧
    ∀ p, 0 ≤ p → stored c' p = if decide (n ≤ p) then None else stored c p.
Proof.
  intros Hok Hc Hn Hcap. pose proof (slot_stride_bounds _ Hok) as Hstr.
  unfold truncate_to_page_count. unfold mbind at 1, M_bind at 1. unfold gets at 1. fold (slot_stride c).
  rewrite wrap64_id by (unfold is_u64; nia).
  unfold mbind at 1, M_bind at 1. rewrite set_len_run by (apply Hok || nia).
  unfold mbind at 1, M_bind at 1. unfold modify at 1. unfold mbind at 1, M_bind at 1. unfold gets at 1. cbn [compose].
  set (c1 := c <| cache_file ::= _ |> <| cache_file_len := _ |>).
  change (bitmap c1) with (bitmap c).
  assert (∀ (k : () → M K ()), (_ ← (if n <? bit_capacity (bitmap c)
       then _ ← modify (λ c0, c0 <| bitmap ::= λ b, clear_range b n (bit_capacity (bitmap c) - n) |>);
            clear_pages_from_mem_cache (range n (bit_capacity (bitmap c)))
       else mret ()); k ()) c1 = k () (truncated_pages n c1)) as Hclear.
  { intros k. unfold mbind, M_bind, truncated_pages. change (bitmap c1) with (bitmap c).
    destruct (n <? bit_capacity (bitmap c)); [|done]. unfold modify at 1.
    rewrite clear_mem_run by (cbn; apply Hok). done. }
  rewrite (Hclear (λ _, _)). clear Hclear.
  destruct (truncated_pages_spec n c1) as ((b & m & mb & Hc2) & Hb & Hm); [lia|done|].
  rewrite Hc2 in Hb, Hm |- *. clear Hc2. set (c2 := c1 <| bitmap := b |> <| mem_cache := m |> <| mem_cache_bytes := mb |>) in *.
  eexists. split; [reflexivity|]. match goal with |- cache_ok ?x ∧ _ => set (c3 := x) end.
  assert (∃ t gs, c3 = c2 <| tracker := t |> <| group_states := gs |>) as (t & gs & Hc3).
  { unfold c3. cbn. rewrite Hc. cbn. destruct (0 <? pages_per_group (cfg c)); eexists _, _; reflexivity. }
  clearbody c3. subst c3. set (c3 := c2 <| tracker := t |> <| group_states := gs |>).
  assert (length (cache_file c3) = Z.to_nat (n * slot_stride c)) as Hlen by apply length_file_set_len.
  assert (∀ p, 0 ≤ p → cache_is_present c3 p = bool_decide (p < n) && cache_is_present c p) as Hpres.
  { intros p Hp. apply is_present_bool_ext. unfold cache_is_present. change (cfg c3) with (cfg c). rewrite Hc. cbn.
    etransitivity; [exact (Hb p Hp)|]. change (bitmap c1) with (bitmap c). case_bool_decide; cbn; tauto. }
  destruct (trimmed c c3) as [Hok3 Hs3]; try done; try apply Hok.
  - rewrite Hlen. cbn. nia.
  - rewrite Hlen. nia.
  - by rewrite Hc.
  - intros p Hp. rewrite Hpres by done. by intros [_ ?]%andb_prop_elim.
  - intros p o k Hp. rewrite Hpres by done. intros [Hlt%bool_decide_unpack _]%andb_prop_elim Hr.
    destruct (region_bounds _ _ _ _ Hok Hp Hr) as (Ho & Hk & Hf & _).
    unfold region in Hr. rewrite Hc in Hr. destruct (cache_is_present c p); [|done]. injection Hr as <- <-.
    apply read_set_len; nia.
  - split; [done|]. split; [lia|]. split; [done|]. intros p Hp. rewrite Hs3, Hpres by done.
    case_bool_decide; cbn.
    + rewrite decide_False by lia. destruct (cache_is_present c p) eqn:Hpc; [done|]. symmetry. by apply stored_absent.
    + by rewrite decide_True by lia.
Qed.

(** The operations that take pages out of the cache. *)
Inductive cache_removal :=
  | EvictSubChunk (id : SubChunkId)
  | EvictGroup (gid : Z)
  | InvalidateGroup (gid ppg : Z)
  | ClearAbove (page_count : Z)
  | TruncateTo (page_count : Z).

Definition run_removal (r : cache_removal) (c : DiskCache K) : io () * DiskCache K :=
  match r with
  | EvictSubChunk id => evict_sub_chunk id c
  | EvictGroup gid => evict_group gid c
  | InvalidateGroup gid ppg => invalidate_group gid ppg c
  | ClearAbove n => clear_pages_at_or_above n c
  | TruncateTo n => truncate_to_page_count n (page_size c) c
  end.

(** The pages each of them is meant to take out. *)
Definition removes (r : cache_removal) (c : DiskCache K) (p : Z) : Prop :=
  match r with
  | EvictSubChunk id => p ∈ sub_chunk_page_nums c id
  | EvictGroup gid => p ∈ cache_group_page_nums c gid
  | InvalidateGroup gid ppg => gid * ppg ≤ p < gid * ppg + ppg
  | ClearAbove n | TruncateTo n => n ≤ p
  end.

#[export] Instance removes_dec r c p : Decision (removes r c p).
Proof. destruct r; cbn; apply _. Defined.

(** Identifiers in their machine types; a truncation of the compressed cache is
    not covered (see [compressed_truncation_cuts_pages]). *)
Definition removal_ok (r : cache_removal) (c : DiskCache K) : Prop :=
  match r with
  | EvictSubChunk id => id_ok id
  | EvictGroup gid => is_u32 gid
  | InvalidateGroup gid ppg => is_u32 gid ∧ 0 ≤ ppg ≤ 2 ^ 13
  | ClearAbove n => 0 ≤ n
  | TruncateTo n => cache_compression (cfg c) = false ∧ 0 ≤ n ≤ 2 ^ 46 ∧ bit_capacity (bitmap c) < 2 ^ 63
  end.

Lemma removal_run r c :
  cache_ok c → removal_ok r c →
  ∃ c', run_removal r c = (Ok (), c') ∧ cache_ok c' ∧
    ∀ p, 0 ≤ p → stored c' p = if decide (removes r c p) then None else stored c p.
Proof.
  intros Hok Hr. destruct r as [id|gid|gid ppg|n|n]; cbn [run_removal removal_ok] in *.
  - destruct (evict_sub_chunk_run id c Hok Hr) as (c' & Hrun & [_ _ _ _ _ Hok' Hs]). exists c'. split; [done|].
    split; [done|]. intros p Hp. rewrite Hs by done. unfold pages_of_sub_chunks. cbn. rewrite app_nil_r.
    by apply decide_ext.
  - destruct (evict_group_run gid c Hok Hr) as (c' & ? & ? & Hs & _). eauto.
  - destruct (invalidate_group_run gid ppg c Hok) as (c' & ? & ? & Hs); [apply Hr..|]. eauto.
  - destruct (clear_above_run n c Hok Hr) as (c' & ? & ? & Hs). eauto.
  - destruct (truncate_run n c Hok) as (c' & ? & ? & _ & _ & Hs); [apply Hr..|]. eauto.
Qed.

(** Each removal succeeds, keeps the cache well formed, and takes out
    exactly the pages it names: no other page's view changes, in each format. *)
Theorem removal_exact r c :
  cache_ok c → removal_ok r c →
  ∃ c', run_removal r c = (Ok (), c') ∧ cache_ok c' ∧
    ∀ p, 0 ≤ p → view c' p = if decide (removes r c p) then None else view c p.
Proof.
  intros Hok Hr. destruct (removal_run r c Hok Hr) as (c' & Hrun & Hok' & Hs). exists c'. split; [done|].
  split; [done|]. intros p Hp. rewrite !view_stored by done. auto.
Qed.

(** C25. Compaction is invisible to readers: it succeeds, every page reads as
    before, no page is lost from the index, and the file shrinks to exactly
    the live blobs. *)
Theorem compaction_transparent c :
  cache_ok c → cache_compression (cfg c) = true →
  ∃ c', compact_compressed_cache c = (Ok (), c') ∧ cache_ok c' ∧
    (∀ p, 0 ≤ p → view c' p = view c p) ∧
    dom (entries (cache_index c')) = dom (entries (cache_index c)) ∧
    Z.of_nat (length (cache_file c')) = total_len (cache_index c).
Proof.
  intros Hok Hc. destruct (compact_run c Hok Hc) as (c' & Hrun & [_ Hok' Hs Hd Hp]). exists c'.
  split; [done|]. split; [done|]. split; [|split; [done|lia]].
  intros p Hp'. rewrite !view_stored by done. auto.
Qed.
End cache_safety.
