(* ===== verification/CacheSteps.v ===== *)
(** The local disk cache over time: its operations as the steps of a relation
    that remembers the pages last written, and the theorem that no reachable
    cache serves any other page; opening a cache afresh and after a restart. *)

From stdpp Require Import relations.
From S2P Require Import Prelude Float64 CacheTracking Manifest LocalState Compress File DiskCache CacheView.
From S2P Require Import CacheWrite CacheSafety.

Section cache_steps.
Context `{HashIter} `{Compression} `{Aead K} (nonce : Z → bytes) `{!CacheLaws nonce}.
Implicit Types c : DiskCache K.

(** The cache is well formed and has no page that [c] had not. *)
Definition shrinks (c c' : DiskCache K) : Prop :=
  cache_ok c' ∧ ∀ p d, 0 ≤ p → stored c' p = Some d → stored c p = Some d.

Lemma shrinks_refl c : cache_ok c → shrinks c c.
Proof. by split. Qed.

Lemma shrinks_trans c1 c2 c3 : shrinks c1 c2 → shrinks c2 c3 → shrinks c1 c3.
Proof. intros [_ H12] [? H23]. split; [done|]. auto. Qed.

Lemma same_store_shrinks c c' : cache_ok c → same_store c c' → shrinks c c'.
Proof.
  intros Hok Hs. split; [by eapply same_store_ok|]. intros p d _. by rewrite (same_store_stored c c').
Qed.

Lemma only_states_store c c' : only_states c c' → same_store c c'.
Proof. intros ->. by repeat split. Qed.

Lemma removed_shrinks c c' (P : Z → Prop) `{!∀ p, Decision (P p)} :
  cache_ok c' → (∀ p, 0 ≤ p → stored c' p = if decide (P p) then None else stored c p) → shrinks c c'.
Proof. intros Hok Hs. split; [done|]. intros p d Hp. rewrite Hs by done. by case_decide. Qed.

(** The sub-chunks of the tracker have identifiers in their machine types. *)
Definition ids_ok (c : DiskCache K) : Prop := set_Forall id_ok (present (tracker c)).

Lemma evict_to_budget_run now budget skip c :
  cache_ok c → ids_ok c →
  ∃ n c', evict_to_budget now budget skip c = (Ok n, c') ∧ shrinks c c' ∧
    (cache_compression (cfg c) = true → next_offset (cache_index c') ≤ next_offset (cache_index c)).
Proof.
  intros Hok Hids. unfold evict_to_budget. unfold mbind at 1, M_bind at 1. unfold gets at 1.
  destruct (over_budget budget c); cbn [negb]; [|exists 0, c; split; [done|split; [by apply shrinks_refl|done]]].
  unfold mbind at 1, M_bind at 1. unfold gets at 1.
  destruct (_ <=? _); [exists 0, c; split; [done|split; [by apply shrinks_refl|done]]|].
  destruct (evict_victims_run budget (victims_of c now skip) 0 c) as (ids & met & rest & c1 & Hrun & He & _);
    [done| |done|].
  { apply Forall_forall. intros id (Hid & _)%elem_of_victims. by apply Hids. }
  pose proof (victims_next _ budget (victims_of c now skip) 0 c eq_refl) as Hnext. cbn beta in Hnext.
  fold (victims_of c now skip). unfold mbind at 1, M_bind at 1. rewrite Hrun in Hnext |- *. cbn [snd] in Hnext.
  set (n := wrap32 _). unfold mbind at 1, M_bind at 1, modify at 1. set (c2 := c1 <| stats ::= _ |>).
  assert (shrinks c c2) as Hs2.
  { eapply shrinks_trans; [|by apply same_store_shrinks; [apply He|repeat split]].
    eapply (removed_shrinks _ _ (λ p, p ∈ pages_of_sub_chunks c ids)); apply He. }
  unfold mbind at 1, M_bind at 1. unfold gets at 1. unfold mbind at 1, M_bind at 1. unfold gets at 1.
  unfold mbind at 1, M_bind at 1. cbn [compose].
  destruct (cache_compression (cfg c2) && _ && _ && _ && _) eqn:Hg;
    [|exists n, c2; split; [done|split; [done|]]; change (cache_index c2) with (cache_index c1); rewrite Hnext; lia].
  assert (cache_compression (cfg c2) = true) as Hc by (destruct (cache_compression (cfg c2)); done).
  destruct (compact_run c2) as (c3 & Hrun3 & Hc3); [apply Hs2|done|].
  unfold mbind at 1, M_bind at 1, try_io. rewrite Hrun3. exists n, c3. split; [done|]. split.
  - eapply shrinks_trans; [exact Hs2|]. split; [apply Hc3|]. intros p d Hp. by rewrite (cp_stored _ _ Hc3).
  - intros _. rewrite (proj2 (cp_packed _ _ Hc3)), <-Hnext. change (cache_index c1) with (cache_index c2).
    eapply total_len_next, (ok_index _ (proj1 Hs2) Hc).
Qed.

Lemma expire_groups_run (gids : list Z) c :
  cache_ok c → ids_ok c → Forall is_u32 gids →
  ∃ c', for_each (λ gid, _ ← evict_group gid; modify (λ c, c <| group_access ::= delete gid |>)) gids c
      = (Ok (), c') ∧ shrinks c c' ∧ ids_ok c'.
Proof.
  intros Hok Hids Hg. revert c Hok Hids.
  induction Hg as [|gid gids Hgid _ IH]; intros c Hok Hids; cbn [for_each].
  { exists c. split; [done|]. by split; [apply shrinks_refl|]. }
  destruct (evict_group_run gid c Hok Hgid) as (c1 & Hrun & Hok1 & Hs1 & Ht1).
  unfold mbind at 1, M_bind at 1. unfold mbind at 1, M_bind at 1. rewrite Hrun. unfold modify at 1.
  set (c2 := c1 <| group_access ::= _ |>).
  assert (same_store c1 c2) as Hs by (repeat split).
  destruct (IH c2) as (c3 & Hrun3 & Hs3 & Hids3); [by eapply same_store_ok| |].
  { intros id. change (tracker c2) with (tracker c1). rewrite Ht1. unfold remove_group.
    rewrite remove_all_present. intros [Hid _]%elem_of_difference. by apply Hids. }
  exists c3. split; [exact Hrun3|]. split; [|done]. eapply shrinks_trans; [|exact Hs3].
  eapply shrinks_trans; [|by apply same_store_shrinks].
  by apply (removed_shrinks c c1 (λ p, p ∈ cache_group_page_nums c gid)).
Qed.

(** The groups with a recorded access have identifiers in their machine type. *)
Definition access_ok (c : DiskCache K) : Prop := map_Forall (λ g _, is_u32 g) (group_access c).

Lemma evict_expired_run now c :
  cache_ok c → ids_ok c → access_ok c →
  ∃ c', evict_expired now c = (Ok (), c') ∧ shrinks c c' ∧ ids_ok c'.
Proof.
  intros Hok Hids Hacc. unfold evict_expired. unfold mbind at 1, M_bind at 1. unfold gets at 1. cbn [id].
  destruct (_ =? _); [exists c; split; [done|]; by split; [apply shrinks_refl|]|].
  apply expire_groups_run; try done. apply Forall_fmap, Forall_forall. intros [g a] [_ Hg]%list_elem_of_filter.
  apply elem_of_hiter in Hg. by apply (Hacc _ _ Hg).
Qed.

Lemma mark_group_present_run now gid c :
  cache_ok c → ids_ok c → access_ok c → is_u32 gid →
  ∃ c', mark_group_present now gid c = (Ok (), c') ∧ shrinks c c'.
Proof.
  intros Hok Hids Hacc Hgid. unfold mark_group_present, ensure_group_capacity.
  unfold mbind at 1, M_bind at 1. unfold modify at 1. unfold mbind at 1, M_bind at 1. unfold modify at 1.
  unfold mbind at 1, M_bind at 1. unfold gets at 1. unfold mbind at 1, M_bind at 1. unfold modify at 1.
  set (c0 := set_group_state _ _ _). set (c1 := c0 <| stats ::= _ |>).
  assert (only_states c c0) as H0' by (eapply only_states_trans; [apply only_states_grow|apply only_states_set]).
  assert (same_store c c1) as Hs by (unfold c1; rewrite H0'; by repeat split).
  assert (shrinks c c1) as Hs1 by by apply same_store_shrinks.
  assert (ids_ok c1 ∧ access_ok c1) as [Hids1 Hacc1] by (unfold c1; rewrite H0'; done).
  destruct (negb _); [by exists c1|].
  destruct (evict_expired_run now c1) as (c2 & Hrun2 & Hs2 & Hids2); [apply Hs1|done|done|].
  unfold mbind at 1, M_bind at 1. rewrite Hrun2. unfold mbind at 1, M_bind at 1. unfold gets at 1.
  destruct (_ <=? _); [exists c2; split; [done|by eapply shrinks_trans]|].
  unfold mbind at 1, M_bind at 1. unfold gets at 1.
  destruct (evict_to_budget_run now (cache_budget_bytes c2) (fetching_group_ids c2) c2) as (n & c3 & Hrun3 & Hs3 & _);
    [apply Hs2|done|].
  unfold mbind at 1, M_bind at 1. rewrite Hrun3. exists c3. split; [done|].
  eapply shrinks_trans; [|exact Hs3]. by eapply shrinks_trans.
Qed.

(* ------------------------------------------------------------------ *)
(** * The steps *)

Inductive cache_event :=
  | EvWrite (w : cache_write)
  | EvRemove (r : cache_removal)
  | EvEvict (now budget : Z) (skip : gset Z)
  | EvCompact
  | EvGroup (op : group_op)
  | EvGroupPresent (now gid : Z)
  | EvTouch (now gid : Z)
  | EvInterior (now gid page index : Z)
  | EvIndex (now page gid index : Z)
  | EvBudget (budget : Z).

(** The operation of the event; results other than errors are dropped. *)
Definition run_event (ev : cache_event) : M K () :=
  match ev with
  | EvWrite w => run_write nonce w
  | EvRemove r => run_removal r
  | EvEvict now budget skip => _ ← evict_to_budget now budget skip; mret ()
  | EvCompact => compact_compressed_cache
  | EvGroup op => _ ← run_group_op op; mret ()
  | EvGroupPresent now gid => mark_group_present now gid
  | EvTouch now gid => touch_group now gid
  | EvInterior now gid page index => mark_interior_group now gid page index
  | EvIndex now page gid index => mark_index_page now page gid index
  | EvBudget budget => set_cache_budget_bytes budget
  end.

(** Arguments within their machine types and the cache's limits. *)
Definition event_ok (ev : cache_event) (c : DiskCache K) : Prop :=
  match ev with
  | EvWrite w => write_ok w c
  | EvRemove r => removal_ok r c
  | EvEvict _ _ _ => ids_ok c
  | EvGroup op => 0 ≤ op_gid op < 2 ^ 32
  | EvGroupPresent _ gid => ids_ok c ∧ access_ok c ∧ is_u32 gid
  | _ => True
  end.

(** The pages last written, after the event. *)
Definition note_event (ev : cache_event) (latest : gmap Z bytes) : gmap Z bytes :=
  match ev with
  | EvWrite w => collect_map (write_pages w) ∪ latest
  | _ => latest
  end.

Inductive cache_step : relation (DiskCache K * gmap Z bytes) :=
  | cache_step_event ev c c' latest :
      event_ok ev c → run_event ev c = (Ok (), c') →
      cache_step (c, latest) (c', note_event ev latest).

(** What the cache holds is what was last written. *)
Definition serves (c : DiskCache K) (latest : gmap Z bytes) : Prop :=
  cache_ok c ∧ ∀ p d, 0 ≤ p → view c p = Some d → latest !! p = Some d.

Lemma event_run ev c :
  cache_ok c → event_ok ev c →
  ∃ c', run_event ev c = (Ok (), c') ∧ cache_ok c' ∧
    (∀ p d, 0 ≤ p → stored c' p = Some d → note_event ev ∅ !! p = Some d ∨
       note_event ev ∅ !! p = None ∧ stored c p = Some d).
Proof.
  intros Hok Hev.
  assert (∀ c', shrinks c c' → run_event ev c = (Ok (), c') → note_event ev ∅ = ∅ →
    ∃ c', run_event ev c = (Ok (), c') ∧ cache_ok c' ∧
    (∀ p d, 0 ≤ p → stored c' p = Some d → note_event ev ∅ !! p = Some d ∨
       note_event ev ∅ !! p = None ∧ stored c p = Some d)) as Hshrink.
  { intros c' [Hok' Hs] Hrun ->. exists c'. split; [done|]. split; [done|]. intros p d Hp Hd. right.
    rewrite lookup_empty. split; [done|auto]. }
  destruct ev as [w|r|now budget skip| |op|now gid|now gid|now gid p i|now p gid i|b];
    cbn [event_ok run_event note_event] in *.
  - destruct (run_write_run nonce w c Hok Hev) as (c' & Hrun & [Hok' _ _ Hs]). exists c'. split; [done|].
    split; [done|]. intros p d Hp. rewrite Hs, map_union_empty by done. destruct (collect_map _ !! p); auto.
  - destruct (removal_run r c Hok Hev) as (c' & Hrun & Hok' & Hs).
    apply (Hshrink c'); [by apply (removed_shrinks c c' (removes r c))|done|done].
  - destruct (evict_to_budget_run now budget skip c Hok Hev) as (n & c' & Hrun & Hs & _).
    apply (Hshrink c'); [done| |done]. unfold mbind, M_bind. by rewrite Hrun.
  - destruct (cache_compression (cfg c)) eqn:Hc.
    + destruct (compact_run c Hok Hc) as (c' & Hrun & Hcp). apply (Hshrink c'); [|done|done].
      split; [apply Hcp|]. intros p d Hp. by rewrite (cp_stored _ _ Hcp).
    + apply (Hshrink c); [by apply shrinks_refl| |done]. unfold compact_compressed_cache, mbind, M_bind, gets.
      cbn. by rewrite Hc.
  - destruct (group_op_run op c Hev) as (c' & Hrun & _ & _ & Hst). apply (Hshrink c'); [| |done].
    + apply same_store_shrinks; [done|]. by apply only_states_store.
    + unfold mbind, M_bind. by rewrite Hrun.
  - destruct Hev as (? & ? & ?). destruct (mark_group_present_run now gid c) as (c' & Hrun & Hs); try done.
    by apply (Hshrink c').
  - eapply Hshrink; [|reflexivity|done]. by apply same_store_shrinks; [|repeat split].
  - eapply Hshrink; [|reflexivity|done]. by apply same_store_shrinks; [|repeat split].
  - eapply Hshrink; [|reflexivity|done]. by apply same_store_shrinks; [|repeat split].
  - eapply Hshrink; [|reflexivity|done]. by apply same_store_shrinks; [|repeat split].
Qed.

Lemma note_event_lookup ev latest p :
  note_event ev latest !! p = match note_event ev ∅ !! p with Some d => Some d | None => latest !! p end.
Proof.
  destruct ev; cbn; rewrite ?lookup_empty; try done. rewrite map_union_empty, lookup_union.
  by destruct (collect_map _ !! p), (latest !! p).
Qed.

Lemma serves_step c latest c' latest' :
  serves c latest → cache_step (c, latest) (c', latest') → serves c' latest'.
Proof.
  intros [Hok Hs] Hstep. inversion Hstep as [ev c1 c1' l1 Hev Hrun]; subst.
  destruct (event_run ev c Hok Hev) as (c2 & Hrun2 & Hok2 & Hd). rewrite Hrun in Hrun2. injection Hrun2 as <-.
  split; [done|]. intros p d Hp. rewrite view_stored by done. intros Hst. rewrite note_event_lookup.
  destruct (Hd p d Hp Hst) as [->|[-> Hold]]; [done|]. apply Hs; [done|]. by rewrite view_stored.
Qed.

(** C1. No reachable cache serves a stale page: whatever writes, evictions,
    invalidations, expiries and compactions a cache has been through, groups
    claimed and published, and - when it is not compressed - truncations, in
    whatever order and in each page format, what a presence-checked read returns
    is the page last written under that number, or nothing. System calls succeed;
    the truncation of a compressed cache is left out, for it cuts pages
    ([compressed_truncation_cuts_pages]). *)
Theorem cache_serves_latest c0 latest0 c latest :
  serves c0 latest0 → rtc cache_step (c0, latest0) (c, latest) → serves c latest.
Proof.
  intros Hs Hr. remember (c0, latest0) as x eqn:Hx. remember (c, latest) as y eqn:Hy.
  revert c0 latest0 Hs Hx. induction Hr as [x|x [c1 l1] y Hstep _ IH]; intros c0 latest0 Hs ->.
  - by injection Hy as -> ->.
  - eapply IH; [done| |reflexivity]. by eapply serves_step.
Qed.

(** No operation gets stuck: in a well-formed cache whose system calls
    succeed, every operation with arguments in range returns success and leads
    to a well-formed cache, so that the next one can run too. *)
Theorem cache_progress c latest ev :
  cache_ok c → event_ok ev c →
  ∃ c', cache_step (c, latest) (c', note_event ev latest) ∧ cache_ok c'.
Proof.
  intros Hok Hev. destruct (event_run ev c Hok Hev) as (c' & Hrun & Hok' & _). exists c'. split; [|done].
  by constructor.
Qed.
End cache_steps.
