(* ===== verification/CacheReopen.v ===== *)
(** Opening the local disk cache: over no file it is empty and well formed, and
    over the file and the saved state of an earlier run it serves the pages that
    run held. *)

From S2P Require Import Prelude CacheTracking Manifest LocalState Compress File DiskCache CacheView CacheWrite.
From S2P Require Import CacheSafety CacheSteps.

Section cache_reopen.
Context `{HashIter} `{Compression} `{Aead K} (nonce : Z → bytes) `{!CacheLaws nonce}.
Variable to_vec : LocalState → option bytes.
Variable from_slice : bytes → option LocalState.
Hypothesis codec : codec_law to_vec from_slice.
Implicit Types c : DiskCache K.

(** The arguments a cache is opened with. *)
Record open_ok (cf : CacheConfig K) (ps page_count : Z) (gp : list (list Z)) : Prop := {
  op_groups : ∀ pages, pages ∈ gp → Forall page_num_ok pages;
  op_ppg : 0 ≤ pages_per_group cf ≤ 2 ^ 13;
  op_spf : 0 ≤ sub_pages_per_frame cf ≤ 2 ^ 13;
  op_ps : 0 < ps ≤ 2 ^ 16;
  op_count : 0 ≤ page_count ≤ 2 ^ 46
}.

Lemma slot_width_bounds (key : option K) ps : 0 < ps ≤ 2 ^ 16 → 0 < slot_width key ps ≤ 2 ^ 16 + 28.
Proof. unfold slot_width, GCM_RANDOM_NONCE_OVERHEAD. destruct key; lia. Qed.

(** The file the cache works on: extended to the whole database when plain. *)
Definition opened_file (cf : CacheConfig K) (ps page_count : Z) (file : bytes) : bytes :=
  let target := page_count * slot_width (encryption_key cf) ps in
  if negb (cache_compression cf) && (0 <? page_count) && (0 <? ps) && (Z.of_nat (length file) <? target)
  then file_set_len target file else file.

Definition opened_bitmap (file : bytes) (page_count : Z) (st : option LocalState) : PageBitmap :=
  let b := bitmap_new_with_state (st ≫= page_bitmap) in
  let b := if 0 <? page_count then resize b page_count else b in
  if bool_decide (file = []) then bitmap_clear_all b else b.

Definition opened_index (cf : CacheConfig K) (file : bytes) (st : option LocalState) : CacheIndex :=
  if cache_compression cf && negb (bool_decide (file = []))
  then index_new_with_state (st ≫= LocalState.cache_index) else empty_index.

(** The sub-chunks of the reopened tracker; [tf] is its own file. *)
Definition opened_ids (cf : CacheConfig K) (file : bytes) (st : option LocalState)
    (tf : gset SubChunkId * gmap SubChunkId SubChunkTier * gmap SubChunkId Z) : gset SubChunkId :=
  if bool_decide (file = []) then ∅ else
  match encryption_key cf with
  | Some _ => tf.1.1
  | None => match st ≫= sub_chunk_tracker with Some es => (tracker_maps es).1.1 | None => ∅ end
  end.

Lemma open_run cf now ps page_count gp file state st tf :
  open_ok cf ps page_count gp → load from_slice None state = Ok st →
  ∃ c, new_with_compression_at from_slice cf now ps page_count gp file state tf None = Ok c ∧
    encryption_key (DiskCache.cfg c) = encryption_key cf ∧
    cache_compression (DiskCache.cfg c) = cache_compression cf ∧
    pages_per_group (DiskCache.cfg c) = pages_per_group cf ∧
    0 ≤ sub_pages_per_frame (DiskCache.cfg c) ≤ 2 ^ 13 ∧
    page_size c = ps ∧ cache_file c = opened_file cf ps page_count file ∧
    cache_file_len c = Z.of_nat (length (cache_file c)) ∧ faults c = [] ∧ tainted c = false ∧
    group_pages c = gp ∧ bitmap c = opened_bitmap file page_count st ∧
    DiskCache.cache_index c = opened_index cf file st ∧
    (∀ p, mem_slot c p = None) ∧
    present (tracker c) = opened_ids cf file st tf ∧ group_access c = ∅ ∧
    DiskCache.sub_pages_per_frame (DiskCache.cfg c) =
      if 0 <? DiskCache.sub_pages_per_frame cf then DiskCache.sub_pages_per_frame cf else pages_per_group cf.
Proof.
  intros [Hg Hppg Hspf Hps Hn] Hload. pose proof (slot_width_bounds (encryption_key cf) ps Hps).
  set (target := page_count * slot_width (encryption_key cf) ps).
  assert (0 ≤ target ≤ 2 ^ 46 * (2 ^ 16 + 28)) as Ht.
  { unfold target. split; [apply Z.mul_nonneg_nonneg; lia|apply Z.mul_le_mono_nonneg; lia]. }
  unfold new_with_compression_at. fold target. rewrite (wrap64_id target) by (unfold is_u64; lia).
  assert ((2 ^ 63 <=? target) = false) as -> by (apply Z.leb_gt; lia).
  assert ((if negb (cache_compression cf) && (0 <? page_count) && (0 <? ps) && (Z.of_nat (length file) <? target)
     then Ok (file_set_len target file) else Ok file) = (Ok (opened_file cf ps page_count file) : io bytes)) as Hf.
  { unfold opened_file. fold target. by destruct (negb _ && _ && _ && _). }
  rewrite Hf. clear Hf. unfold mbind at 1, outcome_bind at 1. rewrite Hload. cbv zeta.
  eexists. split; [reflexivity|]. cbn [DiskCache.cfg encryption_key cache_compression pages_per_group
    sub_pages_per_frame page_size cache_file cache_file_len faults tainted group_pages bitmap DiskCache.cache_index
    tracker group_access].
  split_and!; try done.
  - destruct (0 <? sub_pages_per_frame cf); lia.
  - destruct (0 <? sub_pages_per_frame cf); lia.
  - unfold opened_index, opened_file. destruct (cache_compression cf); cbn; by case_bool_decide.
  - intros p. unfold mem_slot. cbn. destruct (0 <? mem_cache_budget cf); [cbn|done].
    destruct (at_index (replicate _ _) p) as [o|] eqn:Ho; [|done]. unfold at_index in Ho.
    destruct (p <? 0); [done|]. by apply lookup_replicate in Ho as [-> _].
  - unfold opened_ids. case_bool_decide; [done|]. destruct tf as [[? ?] ?].
    destruct (encryption_key cf); [by destruct (_ && _)|]. unfold new_with_state.
    destruct (st ≫= sub_chunk_tracker) as [es|]; [destruct (tracker_maps es) as [[? ?] ?]|]; by destruct (_ && _).
Qed.

Lemma opened_file_bounds cf ps page_count file :
  0 < ps ≤ 2 ^ 16 → 0 ≤ page_count ≤ 2 ^ 46 → Z.of_nat (length file) < 2 ^ 63 →
  Z.of_nat (length file) ≤ Z.of_nat (length (opened_file cf ps page_count file)) < 2 ^ 63 ∧
  (cache_compression cf = true → opened_file cf ps page_count file = file) ∧
  ∀ n o, 0 ≤ n → 0 ≤ o → o + n ≤ Z.of_nat (length file) →
    file_read_at n o (opened_file cf ps page_count file) = file_read_at n o file.
Proof.
  intros Hps Hn Hl. pose proof (slot_width_bounds (encryption_key cf) ps Hps). unfold opened_file.
  set (target := page_count * slot_width (encryption_key cf) ps).
  assert (0 ≤ target ≤ 2 ^ 46 * (2 ^ 16 + 28)) as Ht.
  { unfold target. split; [apply Z.mul_nonneg_nonneg; lia|apply Z.mul_le_mono_nonneg; lia]. }
  destruct (Z.ltb_spec (Z.of_nat (length file)) target) as [Hlt|Hge].
  2: { rewrite andb_false_r. by split_and!. }
  rewrite andb_true_r. destruct (negb _ && _ && _) eqn:Hg; [|by split_and!].
  rewrite length_file_set_len. split; [lia|]. split.
  - intros Hc. by rewrite Hc in Hg.
  - intros n o ???. apply read_set_len; lia.
Qed.

Lemma fresh_run cf now ps page_count gp state st tf :
  open_ok cf ps page_count gp → load from_slice None state = Ok st →
  ∃ c, new_with_compression_at from_slice cf now ps page_count gp [] state tf None = Ok c ∧
    cache_ok c ∧ page_size c = ps ∧ encryption_key (cfg c) = encryption_key cf ∧
    cache_compression (cfg c) = cache_compression cf ∧ cache_index c = empty_index ∧
    ∀ p, 0 ≤ p → view c p = None.
Proof.
  intros Ho Hload.
  destruct (open_run cf now ps page_count gp [] state st tf Ho Hload)
    as (c & Hrun & Hkey & Hcomp & Hppg & Hspf & Hps & Hf & Hl & Hq & Ht & Hg & Hb & Hi & Hm & _).
  exists c. split; [done|]. destruct Ho as [Og Oppg Ospf Ops On].
  destruct (opened_file_bounds cf ps page_count [] Ops On) as (Hlen & Hfile & _); [done|].
  assert (∀ p, 0 ≤ p → cache_is_present c p = false) as Hp.
  { intros p Hp. unfold cache_is_present. rewrite Hb. unfold opened_bitmap. cbn.
    match goal with |- context [CacheTracking.is_present (bitmap_clear_all ?b) p] =>
      pose proof (fmap_zero_present b p Hp) as Hz end.
    destruct (CacheTracking.is_present _ p); [by destruct Hz|].
    by rewrite andb_false_r. }
  assert (cache_ok c) as Hok.
  { rewrite Hf in Hl. split; rewrite ?Hppg, ?Hps, ?Hg, ?Hf; try done; try lia.
    - rewrite Hi. unfold opened_index. rewrite andb_false_r. intros _. split; cbn; [done|done|lia].
    - intros p Hp0 Hpr. by rewrite Hp in Hpr.
    - intros _ p d Hp0 Hpr. by rewrite Hp in Hpr. }
  assert (∀ p, 0 ≤ p → view c p = None) as Hv.
  { intros p Hp0. rewrite view_stored by done. by apply stored_absent, Hp. }
  split_and!; try done. rewrite Hi. unfold opened_index. by rewrite andb_false_r.
Qed.

(** A cache opened over no file is empty, whatever stale state file lies
    beside it: it opens, is well formed, holds no page, and serves nothing
    until something is written. *)
Theorem fresh_cache_empty cf now ps page_count gp state st tf :
  open_ok cf ps page_count gp → load from_slice None state = Ok st →
  ∃ c, new_with_compression_at from_slice cf now ps page_count gp [] state tf None = Ok c ∧
    serves c ∅ ∧ ∀ p, 0 ≤ p → view c p = None.
Proof.
  intros Ho Hload. destruct (fresh_run cf now ps page_count gp state st tf Ho Hload)
    as (c & Hrun & Hok & _ & _ & _ & _ & Hv).
  exists c. split; [done|]. split; [|done]. split; [done|]. intros p d Hp. by rewrite Hv.
Qed.

(** The state file has the cache's own state. *)
Definition saved_as c (state : option bytes) (s : LocalState) : Prop :=
  load from_slice None state = Ok (Some s) ∧ page_bitmap s = Some (to_bytes (bitmap c)) ∧
  LocalState.cache_index s = (if cache_compression (cfg c) then Some (to_state (cache_index c)) else None) ∧
  sub_chunk_tracker s = Some (tracker_entries (tracker c)).

Lemma persist_success c c' :
  persist_bitmap to_vec from_slice None c = (Ok (), c') →
  c' = c <| state_file := state_file c' |> ∧ ∃ s, saved_as c (state_file c') s.
Proof.
  unfold persist_bitmap. destruct (update _ _ _ _ _) as [r f] eqn:Hu. intros [= -> <-].
  split; [done|]. cbn. apply update_cases in Hu as [(? & ? & [=] & _)|Hu]. destruct (load_or_default _ _ _) as [s|e|]; [|done|done].
  symmetry in Hu. apply persist_cases in Hu as [[_ Hn]|(b & Hb & -> & _)]; [done|]. eexists. split.
  - unfold load. cbn. rewrite (codec _ _ Hb). reflexivity.
  - by split_and!.
Qed.

Lemma tracker_maps_ids (t : SubChunkTracker) : (tracker_maps (tracker_entries t)).1.1 = present t.
Proof.
  assert (te_id <$> tracker_entries t = hset_iter (present t)) as Hids.
  { unfold tracker_entries. rewrite <-list_fmap_compose. apply list_fmap_id. }
  pose proof (tracker_maps_spec (tracker_entries t)) as Hspec. rewrite Hids in Hspec.
  destruct (tracker_maps _) as [[p ts] cs]. destruct Hspec as [-> _]; [apply NoDup_hset_iter|]. cbn.
  apply set_eq. intros id. by rewrite elem_of_list_to_set, elem_of_hset_iter.
Qed.

(** Reopening the cache file of a cache whose state is saved. *)
Lemma reopen_run cf c state s now page_count gp tf :
  cache_ok c → cache_file c ≠ [] → saved_as c state s →
  encryption_key cf = encryption_key (cfg c) → cache_compression cf = cache_compression (cfg c) →
  open_ok cf (page_size c) page_count gp →
  ∃ c2, new_with_compression_at from_slice cf now (page_size c) page_count gp (cache_file c) state tf None = Ok c2 ∧
    cache_ok c2 ∧ (∀ p, 0 ≤ p → stored c2 p = stored c p) ∧ page_size c2 = page_size c ∧
    cache_compression (cfg c2) = cache_compression (cfg c) ∧
    (cache_compression (cfg c) = true → cache_index c2 = cache_index c) ∧
    present (tracker c2) = (match encryption_key cf with Some _ => tf.1.1 | None => present (tracker c) end) ∧
    group_access c2 = ∅.
Proof.
  intros Hok Hne (Hload & Hsb & Hsi & Hst) Hkc Hcc Ho.
  destruct (open_run cf now (page_size c) page_count gp (cache_file c) state (Some s) tf Ho Hload)
    as (c2 & Hrun & Hkey & Hcomp & Hppg & Hspf & Hps & Hf & Hl & Hq & Ht & Hg & Hb & Hi & Hm & Hids & Hacc & _).
  exists c2. split; [done|]. clear Hrun Hload. rewrite Hkc in Hkey. rewrite Hcc in Hcomp.
  assert (cache_compression (cfg c) = true → cache_index c2 = cache_index c) as Hindex.
  { intros Hc. rewrite Hi. unfold opened_index. rewrite Hcc, Hc, bool_decide_false by done. cbn.
    rewrite Hsi, Hc. by destruct (cache_index c). }
  destruct Ho as [Og Oppg Ospf Ops On].
  destruct (opened_file_bounds cf (page_size c) page_count (cache_file c) Ops On) as (Hlen & Hfile & Hread);
    [apply Hok|]. rewrite <-Hf in *.
  assert (∀ p, 0 ≤ p → cache_is_present c2 p = cache_is_present c p) as Hpres.
  { intros p Hp. assert (CacheTracking.is_present (bitmap c2) p = CacheTracking.is_present (bitmap c) p) as Hbits.
    { apply is_present_bool_ext. rewrite Hb. unfold opened_bitmap. rewrite bool_decide_false by done.
      unfold mbind, option_bind. rewrite Hsb. cbn zeta. destruct (0 <? page_count); [|by destruct (bitmap c)].
      unfold resize. by rewrite grow_bitmap_spec. }
    unfold cache_is_present. rewrite Hbits, Hcomp. by destruct (cache_compression (cfg c)) eqn:Hc; [rewrite Hindex|]. }
  assert (∀ p, 0 ≤ p → stored c2 p = stored c p) as Hstored.
  { intros p Hp. assert (region c2 p = region c p) as Hr.
    { unfold region, slot_stride. rewrite Hpres, Hcomp, Hkey, Hps by done. destruct (cache_is_present c p); [|done].
      destruct (cache_compression (cfg c)) eqn:Hc; [|done]. by rewrite Hindex. }
    unfold stored. rewrite Hr. destruct (region c p) as [[o n]|] eqn:Hreg; [|done]. cbn.
    destruct (region_bounds _ _ _ _ Hok Hp Hreg) as (? & ? & ? & _). rewrite Hread by lia.
    destruct (file_read_at n o (cache_file c)); [cbn|done]. unfold decode_slot, decrypt_slot.
    by rewrite Hkey, Hcomp, Hps. }
  split.
  { split; rewrite ?Hppg, ?Hps, ?Hg; try done; try lia.
    - rewrite Hcomp. intros Hc. rewrite (Hfile ltac:(by rewrite Hcc)), Hindex by done. by apply ok_index.
    - intros p Hp. rewrite Hpres, Hstored by done. by apply ok_stored.
    - intros _ p d Hp _. by rewrite Hm. }
  split_and!; try done. rewrite Hids. unfold opened_ids. rewrite bool_decide_false by done.
  destruct (encryption_key cf); [done|]. cbn. rewrite Hst. apply tracker_maps_ids.
Qed.

(** C15. A restart loses no page: once the state has been saved, reopening the
    cache file with that state gives a well-formed cache that serves exactly
    the pages the old one served, in each page format, even when the database
    has grown in between. *)
Theorem reopen_keeps_pages c c' now page_count gp tf :
  cache_ok c → cache_file c ≠ [] → open_ok (cfg c) (page_size c) page_count gp →
  persist_bitmap to_vec from_slice None c = (Ok (), c') →
  ∃ c2, new_with_compression_at from_slice (cfg c) now (page_size c) page_count gp
      (cache_file c') (state_file c') tf None = Ok c2 ∧
    cache_ok c2 ∧ ∀ p, 0 ≤ p → view c2 p = view c p.
Proof.
  intros Hok Hne Ho Hp. apply persist_success in Hp as (Hc' & s & Hsaved).
  assert (cache_file c' = cache_file c) as -> by (by rewrite Hc').
  destruct (reopen_run (cfg c) c (state_file c') s now page_count gp tf Hok Hne Hsaved eq_refl eq_refl Ho)
    as (c2 & Hrun & Hok2 & Hst & _).
  exists c2. split; [done|]. split; [done|]. intros p Hp. rewrite !view_stored by done. auto.
Qed.
End cache_reopen.
