(* ===== verification/CacheExamples.v ===== *)
(** Concrete caches: the witnesses of the theorems on the local disk cache, and
    the runs behind the findings about it. *)

From stdpp Require Import relations.
From S2P Require Import Prelude Float64 CacheTracking Manifest LocalState Compress File DiskCache CacheView.
From S2P Require Import CacheWrite CacheSafety CacheSteps CacheReopen.

(** Pages of four bytes, groups of eight pages, sub-chunks of two. *)
Definition demo_nonce (_ : Z) : bytes := zeros 12.

#[export] Instance demo_laws : CacheLaws demo_nonce (K:=()).
Proof.
  split.
  - intros d. by eexists.
  - intros d c [= <-] Hd Hne. destruct d; [done|]. cbn [length] in *. lia.
  - intros k n d. eexists. cbn. rewrite decide_True by done. reflexivity.
  - intros k n d c. cbn. rewrite decide_True by done. intros [= <-]. unfold toy_seal.
    rewrite !length_app, length_le_bytes. unfold zeros. rewrite length_replicate. cbn. lia.
  - done.
Qed.
#[local] Existing Instance canonical_iter.

Definition demo_config (compression : bool) (key : option ()) : CacheConfig () := {|
  ttl_secs := 0; pages_per_group := 8; sub_pages_per_frame := 2; encryption_key := key;
  cache_compression := compression; mem_cache_budget := 8
|}.

(** A state file codec for the states of the demonstrations. *)
Definition demo_to_vec (s : LocalState) : option bytes :=
  match s with
  | {| ls_manifest := None; dirty_groups := None; sub_chunk_tracker := Some []; LocalState.cache_index := None |} =>
      Some (count_encode (format_version s, page_bitmap s))
  | _ => None
  end.
Definition demo_from_slice (b : bytes) : option LocalState :=
  (λ '(v, m), {| format_version := v; ls_manifest := None; dirty_groups := None; page_bitmap := m;
     sub_chunk_tracker := Some []; LocalState.cache_index := None |}) <$> count_decode b.

Lemma demo_codec : codec_law demo_to_vec demo_from_slice.
Proof.
  intros s b. destruct s as [v [?|] [?|] m [[|??]|] [?|]]; cbn; try done. intros [= <-].
  unfold demo_from_slice. by rewrite count_decode_encode.
Qed.

(** A new cache for a database of 24 pages. *)
Definition demo (compression : bool) (key : option ()) : io (DiskCache ()) :=
  new_with_compression_at demo_from_slice (demo_config compression key) 0 4 24 [] [] None (∅, ∅, ∅) None.

Lemma demo_open_ok compression key n : 0 ≤ n ≤ 100 → open_ok (demo_config compression key) 4 n [].
Proof. intros Hn. split; cbn; try lia. intros pages Hp. by apply not_elem_of_nil in Hp. Qed.

Lemma demo_ok compression key : ∃ c, demo compression key = Ok c ∧ cache_ok c ∧ ∀ p, 0 ≤ p → view c p = None.
Proof.
  destruct (fresh_run demo_from_slice (demo_config compression key) 0 4 24 [] None None (∅, ∅, ∅)
    (demo_open_ok compression key 24 ltac:(lia)) eq_refl) as (c & Hrun & Hok & _ & _ & _ & _ & Hv). by exists c.
Qed.

Definition pg (n : Z) : bytes := le_bytes 4 n.

(** The cache as [demo] computes it. *)
Definition demo_cache (compression : bool) (key : option ()) : DiskCache () :=
  match demo compression key with
  | Ok c => c
  | _ => {| cfg := demo_config compression key; page_size := 4; cache_file := []; cache_file_len := 0;
            mem_cache := None; mem_cache_bytes := 0; generation := 0; tracker := from_parts 0 8 2 ∅ ∅ ∅;
            bitmap := {| bits := [] |}; group_states := []; interior_groups := ∅; interior_pages := ∅;
            index_pages := ∅; group_access := ∅; group_pages := []; cache_index := empty_index;
            tainted := false; cache_budget_bytes := 0;
            stats := {| stat_evictions := 0; stat_bytes_evicted := 0; stat_peak_cache_bytes := 0;
                        stat_last_eviction_count := 0; eviction_counter := 0 |};
            state_file := None; draws := 0; faults := [] |}
  end.

Lemma demo_cache_empty compression key :
  cache_ok (demo_cache compression key) ∧ ∀ p, 0 ≤ p → view (demo_cache compression key) p = None.
Proof.
  destruct (demo_ok compression key) as (c & Hrun & Hok).
  assert (demo compression key = Ok (demo_cache compression key)) as He
    by (destruct compression, key as [[]|]; vm_compute; reflexivity).
  rewrite Hrun in He. injection He as <-. done.
Qed.

Lemma demo_cache_ok compression key : cache_ok (demo_cache compression key).
Proof. apply demo_cache_empty. Qed.

(* ------------------------------------------------------------------ *)
(** * Witnesses *)

(** A write of listed pages to a demonstration cache. *)
Definition demo_write (pages : list (Z * bytes)) : cache_write := WriteScattered 5 pages 0 0.

Definition demo_written (compression : bool) (key : option ()) (pages : list (Z * bytes)) : DiskCache () :=
  (run_write demo_nonce (demo_write pages) (demo_cache compression key)).2.

Lemma demo_page_size compression key : page_size (demo_cache compression key) = 4.
Proof. by destruct compression, key as [[]|]. Qed.

Lemma demo_next compression key : next_offset (cache_index (demo_cache compression key)) = 0.
Proof. by destruct compression, key as [[]|]. Qed.

Lemma demo_write_ok compression key pages :
  Forall (λ x, (0 ≤ x.1 < 24) ∧ length x.2 = 4%nat) pages → pages ≠ [] → (length pages < 100)%nat →
  write_ok (demo_write pages) (demo_cache compression key).
Proof.
  intros Hp Hne Hl. unfold write_ok. rewrite demo_page_size. cbn [write_pages demo_write]. split_and!.
  - unfold well_sized. eapply Forall_impl; [exact Hp|]. intros [p d] [? ?]. cbn in *. unfold page_num_ok. lia.
  - done.
  - lia.
  - intros _. rewrite demo_next. lia.
Qed.

Lemma demo_written_run compression key pages :
  Forall (λ x, (0 ≤ x.1 < 24) ∧ length x.2 = 4%nat) pages → pages ≠ [] → (length pages < 100)%nat →
  run_write demo_nonce (demo_write pages) (demo_cache compression key) =
    (Ok (), demo_written compression key pages) ∧
  written (collect_map pages) (demo_cache compression key) (demo_written compression key pages).
Proof.
  intros Hp Hne Hl. destruct (run_write_run demo_nonce (demo_write pages) (demo_cache compression key))
    as (c' & Hrun & Hw); [apply demo_cache_ok|by apply demo_write_ok|].
  unfold demo_written. rewrite Hrun. done.
Qed.

(** The pages the witnesses write: page 7 twice. *)
Definition demo_pages : list (Z * bytes) := [(7, pg 1); (18, pg 2); (7, pg 9)].

Lemma demo_pages_ok : Forall (λ x, (0 ≤ x.1 < 24) ∧ length x.2 = 4%nat) demo_pages.
Proof. unfold demo_pages. constructor; [by split|constructor; [by split|constructor; [by split|constructor]]]. Qed.

Lemma demo_written_ok compression key : cache_ok (demo_written compression key demo_pages).
Proof.
  destruct (demo_written_run compression key demo_pages demo_pages_ok) as [_ Hw]; [done|cbn; lia|apply Hw].
Qed.

Lemma demo_written_view compression key p :
  0 ≤ p → collect_map demo_pages !! p ≠ None →
  view (demo_written compression key demo_pages) p = collect_map demo_pages !! p.
Proof.
  intros Hp Hn. destruct (demo_written_run compression key demo_pages demo_pages_ok) as [_ Hw]; [done|cbn; lia|].
  rewrite view_stored, (wr_stored _ _ _ Hw) by (done || apply Hw). by destruct (collect_map demo_pages !! p).
Qed.

Lemma cache_write_refines_witness :
  view (demo_written true (Some ()) demo_pages) 7 = Some (pg 9) ∧
  view (demo_written true (Some ()) demo_pages) 18 = Some (pg 2) ∧
  view (demo_written true (Some ()) demo_pages) 3 = view (demo_cache true (Some ())) 3.
Proof.
  destruct (cache_write_refines demo_nonce (demo_write demo_pages) (demo_cache true (Some ())))
    as (c' & Hrun & _ & Hv).
  - apply demo_cache_ok.
  - apply demo_write_ok; [exact demo_pages_ok|done|cbn; lia].
  - unfold demo_written. rewrite Hrun. cbn [snd]. rewrite !Hv by lia. split_and!; reflexivity.
Defined.

Lemma removal_exact_witness :
  let c := demo_written false (Some ()) demo_pages in
  view (run_removal (TruncateTo 10) c).2 7 = Some (pg 9) ∧ view (run_removal (TruncateTo 10) c).2 18 = None.
Proof.
  cbn zeta. destruct (removal_exact (TruncateTo 10) (demo_written false (Some ()) demo_pages))
    as (c' & Hrun & _ & Hv).
  - apply demo_written_ok.
  - split; [reflexivity|]. split; [lia|vm_compute; reflexivity].
  - rewrite Hrun. cbn [snd]. rewrite !Hv by lia. split; [|reflexivity].
    rewrite decide_False by (cbn; lia). by apply demo_written_view.
Defined.

Lemma compaction_transparent_witness :
  let c := demo_written true None demo_pages in
  view (compact_compressed_cache c).2 7 = Some (pg 9) ∧
  length (cache_file c) = 12%nat ∧ length (cache_file (compact_compressed_cache c).2) = 8%nat.
Proof.
  cbn zeta. destruct (compaction_transparent (demo_written true None demo_pages)) as (c' & Hrun & _ & Hv & _ & Hl).
  - apply demo_written_ok.
  - reflexivity.
  - rewrite Hrun. cbn [snd]. split_and!.
    + rewrite Hv by lia. by apply demo_written_view.
    + reflexivity.
    + assert (total_len (cache_index (demo_written true None demo_pages)) = 8) as Ht by (vm_compute; reflexivity).
      rewrite Ht in Hl. apply Nat2Z.inj. exact Hl.
Defined.

Lemma group_protocol_witness :
  let c1 := (run_group_op (Claim 2) (demo_cache false None)).2 in
  (run_group_op (Claim 2) (demo_cache false None)).1 = Ok true ∧ (run_group_op (Claim 2) c1).1 = Ok false.
Proof.
  cbn zeta. destruct (group_protocol (Claim 2) (demo_cache false None)) as (c1 & Hrun & Hs & _).
  - cbn. lia.
  - rewrite Hrun. cbn [snd fst]. destruct (group_protocol (Claim 2) c1) as (c2 & Hrun2 & _); [cbn; lia|].
    split; [reflexivity|]. rewrite Hrun2, Hs. reflexivity.
Defined.

(** A written cache with the tracker of CacheTracking.v: sub-chunk 1 of group 2
    holds page 18. *)
Definition demo_tracked : DiskCache () := demo_written true None demo_pages <| tracker := example_tracker |>.

Lemma demo_tracked_store : same_store (demo_written true None demo_pages) demo_tracked.
Proof. by repeat split. Qed.

Lemma evict_to_budget_spec_witness :
  (evict_to_budget (5 * 10 ^ 9) 25000 ∅ demo_tracked).1 = Ok 1 ∧
  view (evict_to_budget (5 * 10 ^ 9) 25000 ∅ demo_tracked).2 18 = None ∧
  current_cache_bytes (tracker (evict_to_budget (5 * 10 ^ 9) 25000 ∅ demo_tracked).2) = 24576.
Proof.
  destruct (evict_to_budget_spec (5 * 10 ^ 9) 25000 ∅ demo_tracked) as (ids & c' & Hrun & He).
  - eapply same_store_ok; [apply demo_tracked_store|apply demo_written_ok].
  - exact example_tracker_inv.
  - apply (bool_decide_eq_true_1 _). vm_compute. reflexivity.
  - vm_compute. reflexivity.
  - vm_compute. reflexivity.
  - lia.
  - apply (bool_decide_eq_true_1 _). vm_compute. reflexivity.
  - assert ((evict_to_budget (5 * 10 ^ 9) 25000 ∅ demo_tracked).1 = Ok 1) as H1 by (vm_compute; reflexivity).
    assert (ids = [sc 2 1]) as Hids.
    { rewrite Hrun in H1. injection H1 as Hl. destruct ids as [|id [|]]; cbn in Hl; try lia.
      destruct (ed_evicted _ _ _ _ _ _ He id) as [Hid Hp]; [by left|].
      assert (¬ (sc 2 1 ∈ present (tracker c'))) as Hn.
      { pose proof (f_equal (λ x, bool_decide (sc 2 1 ∈ present (tracker x.2))) Hrun) as Hb. cbn [snd] in Hb.
        apply (bool_decide_eq_false_1 _). rewrite <-Hb. vm_compute. reflexivity. }
      rewrite (ed_tracker _ _ _ _ _ _ He), remove_all_present in Hn.
      destruct (decide (id = sc 2 1)) as [->|Hne]; [done|]. exfalso. apply Hn.
      apply elem_of_difference. split; [|intros Hs%elem_of_list_to_set%list_elem_of_singleton; by apply Hne]. apply (bool_decide_eq_true_1 _). vm_compute. reflexivity. }
    split; [exact H1|]. rewrite Hrun. cbn [snd]. split.
    + rewrite (ed_view _ _ _ _ _ _ He) by lia. rewrite Hids, decide_True; [done|].
      apply (bool_decide_eq_true_1 _). vm_compute. reflexivity.
    + rewrite (ed_tracker _ _ _ _ _ _ He), Hids. vm_compute. reflexivity.
Defined.

Lemma cache_progress_witness :
  ∃ c', cache_step demo_nonce (demo_cache true None, ∅) (c', note_event (EvGroupPresent 5 1) ∅) ∧ cache_ok c'.
Proof.
  apply (cache_progress demo_nonce (demo_cache true None) ∅ (EvGroupPresent 5 1)).
  - apply demo_cache_ok.
  - split; [|split; [|unfold is_u32; lia]]; unfold ids_ok, access_ok;
      apply (bool_decide_eq_true_1 _); vm_compute; reflexivity.
Defined.

(** Two writes of page 7 with an eviction of its group in between. *)
Lemma cache_serves_latest_witness :
  ∃ c, rtc (cache_step demo_nonce) (demo_cache true (Some ()), ∅) (c, collect_map demo_pages ∪ ∅) ∧
    ∀ d, view c 7 = Some d → d = pg 9.
Proof.
  destruct (event_run demo_nonce (EvWrite (demo_write demo_pages)) (demo_cache true (Some ())))
    as (c1 & Hrun1 & Hok1 & _);
    [apply demo_cache_ok|by apply demo_write_ok; [exact demo_pages_ok|done|cbn; lia]|].
  destruct (event_run demo_nonce (EvRemove (EvictGroup 2)) c1) as (c2 & Hrun2 & _); [done|by vm_compute|].
  assert (rtc (cache_step demo_nonce) (demo_cache true (Some ()), ∅) (c2, collect_map demo_pages ∪ ∅)) as Hr.
  { eapply rtc_l; [|apply rtc_once].
    - apply (cache_step_event _ (EvWrite (demo_write demo_pages))); [|exact Hrun1].
      by apply demo_write_ok; [exact demo_pages_ok|done|cbn; lia].
    - by apply (cache_step_event _ (EvRemove (EvictGroup 2)) c1 c2). }
  exists c2. split; [exact Hr|].
  destruct (cache_serves_latest demo_nonce (demo_cache true (Some ())) ∅ c2 (collect_map demo_pages ∪ ∅))
    as [_ Hs]; [|exact Hr|].
  - split; [apply demo_cache_ok|]. intros p d Hp. by rewrite (proj2 (demo_cache_empty true (Some ())) p Hp).
  - intros d Hd. apply Hs in Hd; [|lia]. vm_compute in Hd. by injection Hd as <-.
Defined.

Lemma fresh_cache_empty_witness : demo true (Some ()) = Ok (demo_cache true (Some ())) ∧
  view (demo_cache true (Some ())) 7 = None.
Proof.
  destruct (fresh_cache_empty demo_from_slice (demo_config true (Some ())) 0 4 24 [] None None (∅, ∅, ∅))
    as (c & Hrun & _ & Hv).
  - apply demo_open_ok. lia.
  - reflexivity.
  - assert (demo true (Some ()) = Ok (demo_cache true (Some ()))) as He by (vm_compute; reflexivity).
    split; [exact He|]. unfold demo in He. rewrite Hrun in He. injection He as <-. by apply Hv.
Defined.

Definition demo_saved : DiskCache () :=
  (persist_bitmap demo_to_vec demo_from_slice None
     (run_write demo_nonce (WriteOne 5 7 (pg 9)) (demo_cache false (Some ()))).2).2.

Lemma reopen_keeps_pages_witness :
  ∃ c2, new_with_compression_at demo_from_slice (demo_config false (Some ())) 9 4 40 []
      (cache_file demo_saved) (state_file demo_saved) (∅, ∅, ∅) None = Ok c2 ∧
    view c2 7 = Some (pg 9).
Proof.
  set (c0 := demo_cache false (Some ())).
  destruct (run_write_run demo_nonce (WriteOne 5 7 (pg 9)) c0) as (c & Hrun & Hw);
    [apply demo_cache_ok| |].
  { unfold write_ok. unfold c0. rewrite demo_page_size. split_and!; [|done|cbn; lia|done].
    constructor; [by split|constructor]. }
  assert (c = (run_write demo_nonce (WriteOne 5 7 (pg 9)) c0).2) as Hc by (by rewrite Hrun).
  destruct (reopen_keeps_pages demo_to_vec demo_from_slice demo_codec c demo_saved 9 40 [] (∅, ∅, ∅))
    as (c2 & Hopen & _ & Hv).
  - apply Hw.
  - rewrite Hc. vm_compute. discriminate.
  - rewrite Hc. exact (demo_open_ok false (Some ()) 40 ltac:(lia)).
  - rewrite Hc. vm_compute. reflexivity.
  - exists c2. split; [rewrite <-Hopen, Hc; reflexivity|]. rewrite Hv by lia.
    rewrite view_stored, (wr_stored _ _ _ Hw) by (apply Hw || lia). reflexivity.
Defined.

(* ------------------------------------------------------------------ *)
(** * Findings *)

(** [truncate_to_page_count] sizes the file by page slots also when pages are
    compressed blobs: shrinking to one page cuts the blob of page 0, which was
    written last, and the page can no longer be read. *)
Lemma compressed_truncation_cuts_pages :
  let c := demo_written true None [(18, pg 2); (7, pg 1); (0, pg 3)] in
  let '(r, c') := truncate_to_page_count 1 4 c in
  r = Ok () ∧ view c 0 = Some (pg 3) ∧ cache_is_present c' 0 = true ∧ view c' 0 = None.
Proof. vm_compute. split_and!; reflexivity. Qed.

(** When a write fails after an earlier blob has moved, compaction returns with
    the old index: page 18 now reads as page 7. *)
Lemma failed_compaction_serves_wrong_page :
  let c := demo_written true None demo_pages
    <| faults := [None; None; None; Some {| f_kind := OtherKind; f_written := 4 |}] |> in
  let '(r, c') := compact_compressed_cache c in
  r = Err OtherKind ∧ view c 18 = Some (pg 2) ∧ view c' 18 = Some (pg 9).
Proof. vm_compute. split_and!; reflexivity. Qed.

(** A failing write of a cached page leaves the page present, at a place that
    was never written. *)
Lemma failed_write_loses_page :
  let c := demo_written true None demo_pages
    <| faults := [None; Some {| f_kind := OtherKind; f_written := 0 |}] |> in
  let '(r, c') := write_page demo_nonce 5 7 (pg 3) c in
  r = Err OtherKind ∧ view c 7 = Some (pg 9) ∧ cache_is_present c' 7 = true ∧ view c' 7 = Some (zeros 4).
Proof. vm_compute. split_and!; reflexivity. Qed.

(** [invalidate_group] clears the positional range of the group also when the
    groups list their pages: page 0 of group 1 stays. *)
Lemma invalidation_ignores_group_pages :
  let c := demo_written false None [(0, pg 3)] <| group_pages := [[5; 6]; [0; 1]] |> in
  cache_group_page_nums c 1 = [0; 1] ∧ view (invalidate_group 1 8 c).2 0 = Some (pg 3).
Proof. vm_compute. split_and!; reflexivity. Qed.

(** With a key the tracker comes from the separate tracker file alone: when
    there is none, a reopened cache tracks nothing, whatever the state file says. *)
Lemma encrypted_reopen_forgets_tracker from_slice cf k now ps n gp file state c :
  encryption_key cf = Some k →
  new_with_compression_at (K:=()) from_slice cf now ps n gp file state (∅, ∅, ∅) None = Ok c →
  present (tracker c) = ∅.
Proof.
  intros Hk. unfold new_with_compression_at. rewrite Hk. unfold mbind at 1, outcome_bind at 1.
  match goal with |- context [match ?f with Ok _ => _ | Err _ => _ | Panic => _ end] =>
    destruct f as [file'| |]; [|done|done] end.
  unfold mbind at 1, outcome_bind at 1. destruct (load from_slice None state) as [st| |]; [|done|done].
  intros [= <-]. cbn. unfold set_sub_chunk_byte_size. by repeat case_match.
Qed.
