(* ===== verification/Flush.v ===== *)
(** Flushing dirty page groups to storage (src/src/tiered/flush.rs): the staged
    pages, merged with the cache and the stored groups, are encoded as override
    frames or as whole groups, uploaded, and published by a new manifest. *)

From S2P Require Import Prelude Keys CacheTracking LocalState Compress Encoding File DiskCache.
From S2P Require Import Staging Manifest Backend ColdRead Vfs Compact.

(** What the loop over the dirty groups builds. *)
Record FlushAcc := {
  fa_uploads : list (string * bytes);
  fa_keys : list string;
  fa_frames : list (list FrameEntry);
  fa_overrides : list (gmap Z SubframeOverride);
  fa_replaced : list string;
  fa_full : list Z
}.

#[export] Instance FlushAcc_settable : Settable FlushAcc := {| rebuild := λ a, {|
  fa_uploads := fa_uploads a; fa_keys := fa_keys a; fa_frames := fa_frames a;
  fa_overrides := fa_overrides a; fa_replaced := fa_replaced a; fa_full := fa_full a |} |}.

(** The bundles of one kind: uploads, keys by chunk, keys they replace. *)
Definition BundleAcc : Type := list (string * bytes) * gmap Z string * list string.

(** The failing file-system calls on the state file, if any. *)
Record FlushFails := {
  ff_manifest : option (persist_step * io_kind);
  ff_dirty : option (persist_step * io_kind);
  ff_bitmap : option (persist_step * io_kind)
}.

Section flush.
Context `{HashIter} `{Compression} `{Aead K} `{StorageBackend B}.
Variable rnd : string → Z → bytes.
Variable to_vec : LocalState → option bytes.
Variable from_slice : bytes → option LocalState.
Variable encode_manifest : Manifest → option bytes.
Variable decode_manifest : bytes → option Manifest.
Variable key : option K.

(* ------------------------------------------------------------------ *)
(** * Sources of pages *)

(** The logs in order: a later log supersedes an earlier one. *)
Definition read_logs (flushes : list PendingFlush) (logs : gmap string bytes) : io (gmap Z bytes) :=
  fold_io (λ staged f, data ← ok_or (logs !! staging_path f) NotFound;
                       pages ← read_staging_log data;
                       Ok (pages ∪ staged)) ∅ flushes.

Definition fetch_existing_group_pages (gid : Z) (m : Manifest) (pages_in_group : list Z) :
    Prog K B (option (list bytes)) :=
  match group_key m gid with
  | None => mret None
  | Some existing_key =>
    pg_data ← on_backend (get_page_group existing_key);
    match pg_data with
    | None => mret None
    | Some pg_data =>
      match group_frames m gid with
      | Some ft =>
        '(_, _, bulk) ← pure (decode_page_group_seekable_full pg_data ft (Manifest.page_size m)
          (wrap32 (Z.of_nat (length pages_in_group))) (page_count m) 0 (aad_page_group gid) key);
        let ps := Manifest.page_size m in
        pages ← pure (mapM (λ j, ok_or (slice (j * ps) (j * ps + ps) bulk) OtherKind)
                           (range 0 (Z.of_nat (length pages_in_group))));
        mret (Some pages)
      | None =>
        '(_, _, pages) ← pure (decode_page_group pg_data (aad_page_group gid) key);
        mret (Some pages)
      end
    end
  end.

(** The staged or cached pages of a group by position, up to the first page
    beyond the end; and whether one is missing. *)
Fixpoint local_pages (staged : gmap Z bytes) (page_count ps : Z) (pages : list Z) :
    M K (list (option bytes) * bool) :=
  match pages with
  | [] => mret ([], false)
  | p :: rest =>
    if page_count <=? p then mret (replicate (length pages) None, false) else
    here ← match staged !! p with
           | Some d => mret (Some d)
           | None => read_page_if_present p (zeros (Z.to_nat ps))
           end;
    '(l, need) ← local_pages staged page_count ps rest;
    mret (here :: l, need || bool_decide (here = None))
  end.

(** The holes filled from the stored group. *)
Fixpoint fill_holes (page_count : Z) (nums : list Z) (pages : list (option bytes)) (existing : list bytes) :
    list (option bytes) :=
  match nums, pages, existing with
  | p :: nums, here :: pages, e :: existing =>
    if page_count <=? p then here :: pages
    else match here with Some d => Some d | None => Some e end :: fill_holes page_count nums pages existing
  | _, _, _ => pages
  end.

(** Every page up to the first one beyond the end has a source. *)
Fixpoint check_sources (page_count : Z) (nums : list Z) (pages : list (option bytes)) : io () :=
  match nums, pages with
  | p :: nums, here :: pages =>
    if page_count <=? p then Ok () else
    _ ← guard_err (bool_decide (here = None)) InvalidData;
    check_sources page_count nums pages
  | _, _ => Ok ()
  end.

Definition group_sources (m : Manifest) (staged : gmap Z bytes) (gid : Z) : Prog K B (list (option bytes)) :=
  let nums := group_page_nums m gid in
  '(pages, need_merge) ← on_cache (local_pages staged (page_count m) (Manifest.page_size m) nums);
  pages ← (if need_merge : bool then
             existing ← fetch_existing_group_pages gid m nums;
             mret (match existing with
                   | Some existing => fill_holes (page_count m) nums pages existing
                   | None => pages
                   end)
           else mret pages);
  _ ← pure (check_sources (page_count m) nums pages);
  mret pages.

(* ------------------------------------------------------------------ *)
(** * Override frames *)

Definition effective_threshold (override_threshold ppg spf : Z) : Z :=
  if 0 <? override_threshold then override_threshold
  else if 0 <? spf then Z.max 1 (div_ceil ppg spf / 4) else 0.

(** The frames to write as overrides; [None] for a full rewrite. *)
Definition override_frames (m : Manifest) (staged : gmap Z bytes) (threshold gid : Z) : option (list Z) :=
  match group_frames m gid with
  | Some ft =>
    if threshold <=? 0 then None else
    let nums := group_page_nums m gid in
    let dirty := filter (λ p, p < page_count m ∧ is_Some (staged !! p)) nums in
    let frames := dirty_frames_for_group dirty nums ft (Manifest.sub_pages_per_frame m) in
    if negb (bool_decide (frames = [])) && (Z.of_nat (length frames) <? threshold)
    then Some frames else None
  | None => None
  end.

(** The positions of a frame with their pages, up to the first page beyond the end. *)
Definition frame_positions (m : Manifest) (gid frame_idx : Z) : list (Z * Z) :=
  let nums := group_page_nums m gid in
  let spf := Manifest.sub_pages_per_frame m in
  take_while (λ ip, ip.2 <? page_count m)
    (take (Z.to_nat spf) (drop (Z.to_nat (frame_idx * spf)) (enumerate nums))).

(** Whether a page of the dirty frames is neither staged nor cached. *)
Definition needs_base (m : Manifest) (staged : gmap Z bytes) (gid : Z) (frames : list Z) (c : DiskCache K) : bool :=
  let spf := Manifest.sub_pages_per_frame m in
  existsb (λ f, existsb (λ ip, (ip.2 <? page_count m) && negb (bool_decide (is_Some (staged !! ip.2))) &&
                              negb (cache_is_present c ip.2))
    (take (Z.to_nat spf) (drop (Z.to_nat (f * spf)) (enumerate (group_page_nums m gid))))) frames.

Definition override_page (m : Manifest) (staged : gmap Z bytes) (existing : option (list bytes)) (ip : Z * Z) :
    Prog K B (Z * bytes) :=
  match staged !! ip.2 with
  | Some d => mret (ip.2, d)
  | None =>
    r ← on_cache (read_page_if_present ip.2 (zeros (Z.to_nat (Manifest.page_size m))));
    d ← pure (match r, existing with
              | Some d, _ => Ok d
              | None, Some base => ok_or (at_index base ip.1) OtherKind
              | None, None => Err InvalidData
              end);
    mret (ip.2, d)
  end.

Definition add_override (gid frame_idx : Z) (k : string) (encoded : bytes) (acc : FlushAcc) : FlushAcc :=
  let ovs := default ∅ (at_index (fa_overrides acc) gid) in
  acc <| fa_replaced ::= λ l, match ovs !! frame_idx with Some o => l ++ [ovr_key o] | None => l end |>
      <| fa_uploads ::= λ l, l ++ [(k, encoded)] |>
      <| fa_overrides ::= set_at ∅ gid (<[frame_idx := {| ovr_key := k;
           ovr_entry := {| fe_offset := 0; fe_len := wrap32 (Z.of_nat (length encoded)) |} |}]> ovs) |>.

(** One dirty frame: its pages encoded and queued as an override. *)
Definition flush_frame (m : Manifest) (staged : gmap Z bytes) (next_version gid : Z)
    (existing : option (list bytes)) (acc : FlushAcc) (frame_idx : Z) : Prog K B FlushAcc :=
  pages ← fold_prog (λ l ip, pd ← override_page m staged existing ip; mret (l ++ [pd])) []
            (frame_positions m gid frame_idx);
  let k := override_frame_key gid frame_idx next_version in
  encoded ← pure (encode_override_frame pages (Manifest.page_size m) (rnd k 0) (aad_override_frame gid frame_idx) key);
  mret (add_override gid frame_idx k encoded acc).

Definition flush_overrides (m : Manifest) (staged : gmap Z bytes) (next_version gid : Z) (frames : list Z)
    (acc : FlushAcc) : Prog K B FlushAcc :=
  needs ← reads (λ w, needs_base m staged gid frames (v_cache w));
  existing ← (if needs : bool then fetch_existing_group_pages gid m (group_page_nums m gid) else mret None);
  fold_prog (flush_frame m staged next_version gid existing)
    (acc <| fa_overrides ::= grow_to (Z.to_nat gid + 1) ∅ |>) frames.

(* ------------------------------------------------------------------ *)
(** * Whole groups *)

Definition encode_group (m : Manifest) (gid : Z) (k : string) (pages : list (option bytes)) :
    io (bytes * option (list FrameEntry)) :=
  if 0 <? Manifest.sub_pages_per_frame m
  then '(encoded, ft) ← encode_page_group_seekable pages (Manifest.page_size m) (Manifest.sub_pages_per_frame m)
                          (rnd k) (aad_page_group gid) key;
       Ok (encoded, Some ft)
  else encoded ← encode_page_group pages (Manifest.page_size m) (rnd k 0) (aad_page_group gid) key;
       Ok (encoded, None).

Definition add_full (gid : Z) (k : string) (encoded : bytes) (ft : option (list FrameEntry)) (acc : FlushAcc) : FlushAcc :=
  acc <| fa_full ::= λ l, l ++ [gid] |>
      <| fa_uploads ::= λ l, l ++ [(k, encoded)] |>
      <| fa_frames ::= match ft with Some ft => set_at [] gid ft | None => id end |>
      <| fa_replaced ::= λ l, match key_at (fa_keys acc) gid with Some old => l ++ [old] | None => l end |>
      <| fa_keys ::= set_at ""%string gid k |>.

Definition flush_full (m : Manifest) (staged : gmap Z bytes) (next_version gid : Z) (acc : FlushAcc) :
    Prog K B FlushAcc :=
  pages ← group_sources m staged gid;
  let k := page_group_key gid next_version in
  '(encoded, ft) ← pure (encode_group m gid k pages);
  mret (add_full gid k encoded ft acc).

Definition flush_group (m : Manifest) (staged : gmap Z bytes) (threshold next_version : Z) (acc : FlushAcc)
    (gid : Z) : Prog K B FlushAcc :=
  match override_frames m staged threshold gid with
  | Some frames => flush_overrides m staged next_version gid frames acc
  | None => flush_full m staged next_version gid acc
  end.

(** The groups with staged pages, and those dirty from before. *)
Definition dirty_groups_of (m : Manifest) (staged : gmap Z bytes) (legacy : gset Z) : gset Z :=
  legacy ∪ list_to_set (omap (λ p, group_id <$> page_location m p) (elements (dom staged))).

(* ------------------------------------------------------------------ *)
(** * Bundles *)

Definition chunk_id (ps p : Z) : Z := wrap32 (p / bundle_chunk_range ps).

(** The pages of a chunk, ascending. *)
Definition chunk_pages (ps : Z) (pages : gmap Z bytes) (id : Z) : list (Z * bytes) :=
  filter (λ pd, chunk_id ps pd.1 = id) (sort_by_key (map_to_list pages)).

Definition chunk_ids (ps : Z) (pages : gmap Z bytes) : gset Z := set_map (chunk_id ps) (dom pages).

Definition bundle_step (key_of : Z → Z → string) (aad_of : Z → bytes) (ps next_version : Z) (pages : gmap Z bytes)
    (dirty : gset Z) (old : gmap Z string) (acc : BundleAcc) (id : Z) : io BundleAcc :=
  let '(uploads, keys, replaced) := acc in
  match old !! id with
  | Some old_key =>
    if decide (id ∈ dirty) then
      let k := key_of id next_version in
      encoded ← encode_interior_bundle (chunk_pages ps pages id) ps (rnd k 0) (aad_of id) key;
      Ok (uploads ++ [(k, encoded)], <[id := k]> keys, replaced ++ [old_key])
    else Ok (uploads, <[id := old_key]> keys, replaced)
  | None =>
    let k := key_of id next_version in
    encoded ← encode_interior_bundle (chunk_pages ps pages id) ps (rnd k 0) (aad_of id) key;
    Ok (uploads ++ [(k, encoded)], <[id := k]> keys, replaced)
  end.

(** The new bundles; chunks without pages are dropped. *)
Definition build_bundles (key_of : Z → Z → string) (aad_of : Z → bytes) (ps next_version : Z) (pages : gmap Z bytes)
    (dirty : gset Z) (old : gmap Z string) : io BundleAcc :=
  '(uploads, keys, replaced) ← fold_io (bundle_step key_of aad_of ps next_version pages dirty old)
    ([], ∅, []) (hset_iter (chunk_ids ps pages));
  Ok (uploads, keys, replaced ++ (snd <$> filter (λ ik, ik.1 ∉ chunk_ids ps pages) (hiter old))).

(** A page read whatever the bitmap says, dropped when the read fails. *)
Definition read_quietly (ps p : Z) : M K (option bytes) :=
  r ← try_io (read_page p (zeros (Z.to_nat ps)));
  mret (match r with inr d => Some d | inl _ => None end).

Definition staged_or (staged : gmap Z bytes) (p : Z) (read : M K (option bytes)) : M K (option bytes) :=
  match staged !! p with Some d => mret (Some d) | None => read end.

Definition collect_interior (m : Manifest) (staged : gmap Z bytes) : M K (gmap Z bytes) :=
  known ← gets interior_pages;
  fold_m (λ acc p,
    if page_count m <=? p then mret acc else
    d ← staged_or staged p (read_quietly (Manifest.page_size m) p);
    mret (match d with Some d => <[p := d]> acc | None => acc end)) ∅ (hset_iter known).

(** An index leaf is kept, unless its page is already there. *)
Definition collect_leaf (m : Manifest) (staged : gmap Z bytes) (read : Z → M K (option bytes))
    (acc : gmap Z bytes) (p : Z) : M K (gmap Z bytes) :=
  if (page_count m <=? p) || bool_decide (is_Some (acc !! p)) then mret acc else
  d ← staged_or staged p (read p);
  mret (match d with
        | Some d => if is_index_leaf p d then <[p := d]> acc else acc
        | None => acc
        end).

Definition collect_index_leaves (m : Manifest) (staged : gmap Z bytes) (dirty_groups : gset Z) :
    M K (gmap Z bytes) :=
  let ps := Manifest.page_size m in
  acc ← fold_m (fold_m (collect_leaf m staged (λ p, read_page_if_present p (zeros (Z.to_nat ps))))) ∅
          (group_page_nums m <$> hset_iter dirty_groups);
  t ← gets tracker;
  let index_sub_chunks := filter (λ id, tiers t !! id = Some Index) (hset_iter (present t)) in
  fold_m (fold_m (collect_leaf m staged (read_quietly ps))) acc
    ((λ id, let r := pages_for_sub_chunk t id (page_count m) in range r.1 r.2) <$> index_sub_chunks).

(* ------------------------------------------------------------------ *)
(** * The flush *)

(** The chunks holding a page of a dirty group. *)
Definition dirty_chunks (m : Manifest) (dirty_groups : gset Z) : gset Z :=
  list_to_set (chunk_id (Manifest.page_size m) <$>
    filter (λ p, p < page_count m) (concat (group_page_nums m <$> elements dirty_groups))).

Definition no_bundles (m : Manifest) : BundleAcc * BundleAcc :=
  (([], interior_chunk_keys m, []), ([], index_chunk_keys m, [])).

(** Only a remote backend gets bundles. *)
Definition flush_bundles (is_local : bool) (m : Manifest) (staged : gmap Z bytes) (dirty_groups : gset Z)
    (next_version : Z) : Prog K B (BundleAcc * BundleAcc) :=
  if is_local then mret (no_bundles m) else
  let ps := Manifest.page_size m in
  let dirty := dirty_chunks m dirty_groups in
  interior ← on_cache (collect_interior m staged);
  ib ← pure (build_bundles interior_chunk_key aad_interior_bundle ps next_version interior dirty (interior_chunk_keys m));
  leaves ← on_cache (collect_index_leaves m staged dirty_groups);
  xb ← pure (build_bundles index_chunk_key aad_index_bundle ps next_version leaves dirty (index_chunk_keys m));
  mret (ib, xb).

(** The overrides of the rewritten groups are dropped. *)
Definition clear_overrides (acc : FlushAcc) (replaced : list string) :
    list (gmap Z SubframeOverride) * list string :=
  foldl (λ '(ovs, replaced) gid,
    match at_index ovs gid with
    | Some g => (alter_at (λ _, ∅) gid ovs, replaced ++ ((λ fo, ovr_key fo.2) <$> hiter g))
    | None => (ovs, replaced)
    end)
    (grow_to (length (fa_keys acc)) ∅ (fa_overrides acc), replaced) (fa_full acc).

Definition flushed_manifest (m : Manifest) (next_version cc : Z) (acc : FlushAcc)
    (ovs : list (gmap Z SubframeOverride)) (interior index : gmap Z string) : Manifest :=
  build_page_index (m <| version := next_version |> <| change_counter := cc |>
    <| page_group_keys := fa_keys acc |> <| interior_chunk_keys := interior |> <| index_chunk_keys := index |>
    <| frame_tables := fa_frames acc |> <| subframe_overrides := ovs |>
    <| page_index := ∅ |> <| tree_indexes := no_tree_indexes |>).

(** The consolidated state file gets the manifest, then an empty list of dirty
    groups. *)
Definition persist_flushed (fails : FlushFails) (m : Manifest) : Prog K B () :=
  _ ← on_cache (λ c, let '(r, f) := persist_manifest_local to_vec from_slice (ff_manifest fails) (state_file c) m in
                     (map_err_other r, c <| state_file := f |>));
  on_cache (λ c, let '(r, f) := persist_dirty_groups to_vec from_slice (ff_dirty fails) (state_file c) [] in
                 (map_err_other r, c <| state_file := f |>)).

(** Upload, publication, and the commit to the shared state. *)
Definition flush_publish (fails : FlushFails) (m' : Manifest) (uploads : list (string * bytes)) : Prog K B () :=
  _ ← on_backend (put_page_groups uploads);
  _ ← on_backend (put_manifest encode_manifest decode_manifest m');
  _ ← persist_flushed fails m';
  _ ← on_cache (set_group_pages (Manifest.group_pages m'));
  _ ← update_vfs (λ w, w <| v_manifest := m' |>);
  _ ← attempt (on_cache (persist_bitmap to_vec from_slice (ff_bitmap fails)));
  mret ().

Definition remove_logs (flushes : list PendingFlush) : Prog K B () :=
  update_vfs (λ w, w <| v_logs ::= λ l, foldl (λ l f, delete (staging_path f) l) l flushes |>).

(** The upload of the dirty groups: everything between the snapshot of the
    manifest and the removal of what was replaced. *)
Definition flush_upload (fails : FlushFails) (is_local : bool) (override_threshold : Z) (m : Manifest)
    (staged : gmap Z bytes) (dirty : gset Z) : Prog K B (list string) :=
  let next_version := wrap64 (version m + 1) in
  cc ← on_cache (resolve_manifest_replay_cursor m);
  let threshold := effective_threshold override_threshold (Manifest.pages_per_group m)
                     (Manifest.sub_pages_per_frame m) in
  acc ← fold_prog (flush_group m staged threshold next_version)
    {| fa_uploads := []; fa_keys := page_group_keys m; fa_frames := frame_tables m;
       fa_overrides := subframe_overrides m; fa_replaced := []; fa_full := [] |} (hset_iter dirty);
  '((iu, ik, ir), (xu, xk, xr)) ← flush_bundles is_local m staged dirty next_version;
  let '(ovs, replaced) := clear_overrides acc (fa_replaced acc ++ ir ++ xr) in
  let m' := flushed_manifest m next_version cc acc ovs ik xk in
  _ ← flush_publish fails m' (fa_uploads acc ++ iu ++ xu);
  mret replaced.

Definition flush_inner (fails : FlushFails) (is_local gc_enabled : bool)
    (override_threshold compaction_threshold : Z) (flushes : list PendingFlush) (legacy : gset Z) : Prog K B () :=
  logs ← reads v_logs;
  staged ← pure (read_logs flushes logs);
  m ← reads v_manifest;
  _ ← pure (guard_err (Manifest.page_size m =? 0) InvalidData);
  let dirty := dirty_groups_of m staged legacy in
  if bool_decide (dirty = ∅) then remove_logs flushes else
  replaced ← flush_upload fails is_local override_threshold m staged dirty;
  _ ← (if gc_enabled : bool then
         _ ← attempt (on_backend (delete_objects replaced)); mret () else mret ());
  _ ← remove_logs flushes;
  if 0 <? compaction_threshold then
    _ ← attempt (auto_compact_overrides rnd encode_manifest decode_manifest key compaction_threshold); mret ()
  else mret ().

(** What is pending is taken, and put back when the flush fails. *)
Definition flush_dirty_groups (fails : FlushFails) (is_local gc_enabled : bool)
    (override_threshold compaction_threshold : Z) : Prog K B () := λ w,
  let flushes := v_pending w in
  let legacy := v_dirty_groups w in
  let w := w <| v_pending := [] |> <| v_dirty_groups := ∅ |> in
  if bool_decide (flushes = []) && bool_decide (legacy = ∅) then (Ok (), w) else
  match flush_inner fails is_local gc_enabled override_threshold compaction_threshold flushes legacy w with
  | (Err e, w) => (Err e, w <| v_pending ::= λ l, l ++ flushes |> <| v_dirty_groups ::= union legacy |>)
  | r => r
  end.
End flush.
