(* ===== verification/FlushPages.v ===== *)
(** The pages a flush (Flush.v) gathers and encodes for one group: reading the
    cache, merging with the stored group, and the encoders' totality. *)

From S2P Require Import Prelude Keys Staging Manifest Backend ColdRead.
From S2P Require Import CacheTracking LocalState Compress Encoding File DiskCache CacheView.
From S2P Require Import Vfs Compact Flush.

(** What the flush relies on: the codec and the cipher accept what it gives
    them and enlarge it little; the draws are nonces. *)
Class FlushLaws `{Compression} `{Aead K} (rnd : string → Z → bytes) := {
  fl_compress_total : ∀ d, is_Some (encode_all d);
  fl_compress_bound : ∀ d c, encode_all d = Some c → Z.of_nat (length c) ≤ 2 * Z.of_nat (length d) + 2 ^ 10;
  fl_seal_total : ∀ k n aad d, Z.of_nat (length aad) < 2 ^ 8 → is_Some (gcm_encrypt k n aad d);
  fl_seal_bound : ∀ k n aad d c, gcm_encrypt k n aad d = Some c →
    (length c ≤ length d + length aad + 16)%nat;
  fl_rnd : ∀ k i, length (rnd k i) = 12%nat
}.

Section flush_pages.
Context `{HashIter} `{Compression} `{Aead K}.
Implicit Types (c : DiskCache K) (m : Manifest) (o : gmap string bytes).

(* ------------------------------------------------------------------ *)
(** * The cache is only read *)

Lemma read_exact_at_state n off c : faults c = [] → (read_exact_at n off c).2 = c.
Proof.
  intros Hq. unfold read_exact_at. destruct (n =? 0); [done|]. unfold mbind, M_bind, pop_fault. rewrite Hq.
  by destruct (2 ^ 63 <=? off).
Qed.

Lemma M_bind_state {A C} (f : A → M K C) (x : M K A) c :
  (x c).2 = c → (∀ a, (f a c).2 = c) → ((x ≫= f) c).2 = c.
Proof.
  intros Hx Hf. unfold mbind, M_bind. destruct (x c) as [[a|e|] c'] eqn:Hr; cbn in Hx; subst c'; [apply Hf|done|done].
Qed.

Lemma read_page_state p buf c : faults c = [] → (read_page p buf c).2 = c.
Proof.
  intros Hq. unfold read_page. apply M_bind_state; [done|intros _].
  apply M_bind_state; [done|intros [|]].
  - unfold read_page_compressed. apply M_bind_state; [done|intros i]. apply M_bind_state; [done|intros e].
    apply M_bind_state; [by apply read_exact_at_state|intros b]. apply M_bind_state; [done|intros k].
    apply M_bind_state; [done|intros d]. apply M_bind_state; [done|intros ml]. apply M_bind_state; [done|intros x].
    by destruct (length buf <=? length x)%nat.
  - apply M_bind_state; [done|intros hit]. apply M_bind_state; [done|intros ps]. destruct hit as [page|]; [done|].
    apply M_bind_state; [done|intros [k|]]; [|by apply read_exact_at_state].
    apply M_bind_state; [by apply read_exact_at_state|intros fr]. by apply M_bind_state.
Qed.

Lemma read_present_run c p buf :
  cache_ok c → 0 ≤ p → Z.of_nat (length buf) = page_size c → read_page_if_present p buf c = (Ok (view c p), c).
Proof.
  intros Hok Hp Hbuf. pose proof (ok_quiet _ Hok) as Hq. rewrite view_stored by done.
  unfold read_page_if_present, mbind, M_bind, gets. destruct (cache_is_present c p) eqn:Hpres; cbn [negb].
  - pose proof (read_page_run c p buf Hok Hp ltac:(by rewrite Hpres) Hbuf) as Hr.
    destruct (ok_stored _ Hok p Hp ltac:(by rewrite Hpres)) as [d Hd]. rewrite Hd in Hr |- *. cbn in Hr.
    pose proof (read_page_state p buf c Hq) as Hs.
    destruct (read_page _ _ c) as [r c']. cbn in Hr, Hs. by subst.
  - unfold stored, region. by rewrite Hpres.
Qed.

Lemma view_length c p d : cache_ok c → 0 ≤ p → view c p = Some d → Z.of_nat (length d) = page_size c.
Proof. intros Hok Hp. rewrite view_stored by done. apply stored_length. Qed.

(* ------------------------------------------------------------------ *)
(** * Sources *)

(** The page a flush finds without storage. *)
Definition local_page (staged : gmap Z bytes) c (p : Z) : option bytes :=
  match staged !! p with Some d => Some d | None => view c p end.

(** Staged pages have the size of a page. *)
Definition staged_ok (staged : gmap Z bytes) (ps : Z) : Prop :=
  map_Forall (λ _ d, Z.of_nat (length d) = ps) staged.

Lemma local_page_length staged c p d :
  cache_ok c → staged_ok staged (page_size c) → 0 ≤ p → local_page staged c p = Some d →
  Z.of_nat (length d) = page_size c.
Proof.
  intros Hok Hs Hp. unfold local_page. destruct (staged !! p) as [d'|] eqn:Hd.
  - intros [= <-]. apply (Hs p d' Hd).
  - by apply view_length.
Qed.

Lemma local_pages_run staged pc c nums :
  cache_ok c → Forall (λ p, 0 ≤ p < pc) nums →
  local_pages staged pc (page_size c) nums c =
    (Ok (local_page staged c <$> nums, existsb (λ p, bool_decide (local_page staged c p = None)) nums), c).
Proof.
  intros Hok. induction 1 as [|p nums Hp Hnums IH]; [done|]. cbn [local_pages].
  destruct (Z.leb_spec pc p); [lia|]. unfold mbind, M_bind in *. cbn [existsb].
  assert ((match staged !! p with Some d => mret (Some d) | None => read_page_if_present p (zeros (Z.to_nat (page_size c))) end) c
    = (Ok (local_page staged c p), c)) as ->.
  { unfold local_page. destruct (staged !! p); [done|]. apply read_present_run; [done|lia|]. by apply zeros_size, ok_ps. }
  rewrite IH. unfold mret, M_ret. rewrite fmap_cons. by rewrite orb_comm.
Qed.

Lemma fill_holes_run pc nums pages (base : list bytes) :
  Forall (λ p, p < pc) nums → length pages = length nums → length base = length nums →
  fill_holes pc nums pages base = zip_with (λ here e, Some (default e here)) pages base.
Proof.
  intros Hn. revert pages base. induction Hn as [|p nums Hp Hn IH]; intros [|here pages] [|e base]; try done.
  cbn. intros Hl1 Hl2. destruct (Z.leb_spec pc p); [lia|]. rewrite IH by lia. by destruct here.
Qed.

Lemma zip_with_Some (l : list (option bytes)) (k : list bytes) :
  zip_with (λ here e, Some (default e here)) l k = Some <$> zip_with (λ here e, default e here) l k.
Proof. revert k. induction l as [|x l IH]; intros [|e k]; try done. cbn. by rewrite IH. Qed.

Lemma check_sources_full pc nums (pages : list bytes) : check_sources pc nums (Some <$> pages) = Ok ().
Proof.
  revert pages. induction nums as [|p nums IH]; intros [|d pages]; try done. cbn.
  destruct (pc <=? p); [done|]. apply IH.
Qed.

Lemma group_len_le m gid :
  geometry m → 0 ≤ gid → NoDup (group_page_nums m gid) ∧ Z.of_nat (length (group_page_nums m gid)) ≤ page_count m.
Proof.
  intros Hg Hgid. assert (NoDup (group_page_nums m gid)) as Hnd.
  { unfold group_page_nums. destruct (strategy m); [apply NoDup_seqZ|]. unfold at_index.
    destruct (Z.ltb_spec gid 0); [lia|]. destruct (Manifest.group_pages m !! Z.to_nat gid) as [g|] eqn:Hl; [|constructor].
    pose proof (wf_disjoint _ (ge_wf _ Hg)) as Hd. apply list_elem_of_lookup_2 in Hl.
    apply elem_of_Permutation in Hl as [gs Hl]. rewrite Hl in Hd. cbn in Hd. apply NoDup_app in Hd. apply Hd. }
  split; [done|]. assert (group_page_nums m gid ⊆+ range 0 (page_count m)) as Hsub.
  { apply NoDup_submseteq; [done|]. intros p Hp. apply (ge_pages _ Hg) in Hp; [|done]. apply elem_of_seqZ. lia. }
  apply submseteq_length in Hsub. rewrite length_range in Hsub. pose proof (wf_page_count _ (ge_wf _ Hg)). lia.
Qed.

Lemma mapM_slices ps (pages : list bytes) :
  0 < ps → Forall (λ d, Z.of_nat (length d) = ps) pages →
  mapM (λ j, ok_or (slice (j * ps) (j * ps + ps) (concat pages)) OtherKind) (range 0 (Z.of_nat (length pages))) =
    Ok (E:=io_kind) pages.
Proof.
  intros Hps Hp.
  assert (∀ l1 l2, l1 ++ l2 = pages →
    mapM (λ j, ok_or (slice (j * ps) (j * ps + ps) (concat pages)) OtherKind)
      (range (Z.of_nat (length l1)) (Z.of_nat (length pages))) = Ok (E:=io_kind) l2) as Hgen.
  2: { apply (Hgen [] pages). done. }
  intros l1 l2. revert l1. induction l2 as [|d l2 IH]; intros l1 Heq.
  - rewrite app_nil_r in Heq. subst. unfold range. rewrite Z.sub_diag. done.
  - assert (length pages = length l1 + S (length l2))%nat as Hl by (rewrite <-Heq; by rewrite length_app).
    unfold range. rewrite seqZ_cons by lia. cbn [mapM].
    assert (pages !! length l1 = Some d) as Hd by (rewrite <-Heq; by rewrite list_lookup_middle).
    rewrite (slice_concat ps pages (length l1) d Hps Hp Hd). cbn [ok_or mbind outcome_bind].
    specialize (IH (l1 ++ [d]) ltac:(by rewrite <-app_assoc)). rewrite length_app in IH. cbn [length] in IH.
    unfold range in IH. replace (Z.succ (Z.of_nat (length l1))) with (Z.of_nat (length l1 + 1)) by lia.
    replace (Z.pred (Z.of_nat (length pages) - Z.of_nat (length l1))) with
      (Z.of_nat (length pages) - Z.of_nat (length l1 + 1)) by lia.
    by rewrite IH.
Qed.
End flush_pages.

Section group_pages.
Context `{HashIter} `{Compression} `{Aead K} `{StorageLaws B}.
Variable key : option K.
Implicit Types (m : Manifest) (w : Vfs K B).

(** A program that reads the backend: it yields a value, or fails because the
    backend did; the objects stay. *)
Definition reads_backend {A} (x : Prog K B A) (w : Vfs K B) (P : A → Prop) : Prop :=
  ∃ r b', x w = (r, w <| v_backend := b' |>) ∧ objects b' = objects (v_backend w) ∧
    (reliable (v_backend w) → reliable b') ∧
    ((∃ a, r = Ok a ∧ P a) ∨ (∃ e, r = Err e) ∧ ¬ reliable (v_backend w)).

Lemma reads_backend_ret {A} (a : A) w (P : A → Prop) : P a → reads_backend (mret a) w P.
Proof. intros Ha. exists (Ok a), (v_backend w). split_and!; [by destruct w|done|done|left; by exists a]. Qed.

Lemma reads_backend_pure {A} (a : A) w (P : A → Prop) : P a → reads_backend (pure (Ok a)) w P.
Proof. apply (reads_backend_ret a). Qed.

Lemma reads_backend_bind {A C} (x : Prog K B A) (f : A → Prog K B C) w (P : A → Prop) (Q : C → Prop) :
  reads_backend x w P →
  (∀ a b', P a → objects b' = objects (v_backend w) → (reliable (v_backend w) → reliable b') →
    reads_backend (f a) (w <| v_backend := b' |>) Q) →
  reads_backend (x ≫= f) w Q.
Proof.
  intros (r & b1 & Hx & Ho & Hr & Hc) Hf. unfold reads_backend, mbind, Prog_bind. rewrite Hx.
  destruct Hc as [(a & -> & Ha)|[(e & ->) Hn]].
  - destruct (Hf a b1 Ha Ho Hr) as (r2 & b2 & Hx2 & Ho2 & Hr2 & Hc2). exists r2, b2.
    split; [exact Hx2|]. split; [by rewrite Ho2|]. split; [by auto|]. destruct Hc2 as [|[? Hn]]; [by left|right].
    split; [done|]. intros Hrel. by apply Hn, Hr.
  - exists (Err e), b1. split_and!; [done|done|done|right]. split; [by exists e|done].
Qed.

Lemma reads_backend_pure_bind {A C} (a : A) (f : A → Prog K B C) w Q :
  reads_backend (f a) w Q → reads_backend (pure (Ok a) ≫= f) w Q.
Proof. done. Qed.

Lemma reads_backend_ret_bind {A C} (a : A) (f : A → Prog K B C) w Q :
  reads_backend (f a) w Q → reads_backend (mret a ≫= f) w Q.
Proof. done. Qed.

Lemma reads_backend_impl {A} (x : Prog K B A) w (P Q : A → Prop) :
  reads_backend x w P → (∀ a, P a → Q a) → reads_backend x w Q.
Proof. intros (r & b & ? & ? & ? & [(a & -> & Ha)|?]) Himp; exists (Ok a), b || exists r, b; eauto 10. Qed.

Lemma reads_backend_get k w :
  reads_backend (on_backend (get_page_group k)) w (λ v, v = objects (v_backend w) !! k).
Proof.
  destruct (get_page_group_run k (v_backend w)) as (r & b' & Hg & Ho & Hr & Hb). exists r, b'.
  unfold on_backend. rewrite Hg. split_and!; [done|done|done|]. destruct Hr as [->|[-> ?]]; [left|right]; eauto.
Qed.

Lemma reads_backend_cache {A} (x : M K A) (a : A) w (P : A → Prop) :
  x (v_cache w) = (Ok a, v_cache w) → P a → reads_backend (on_cache x) w P.
Proof.
  intros Hx Ha. exists (Ok a), (v_backend w). unfold on_cache. rewrite Hx. split_and!; [by destruct w|done|done|left; eauto].
Qed.

Lemma reads_backend_cache_bind {A C} (x : M K A) (a : A) (f : A → Prog K B C) w Q :
  x (v_cache w) = (Ok a, v_cache w) → reads_backend (f a) w Q → reads_backend (on_cache x ≫= f) w Q.
Proof.
  intros Hx Hf. unfold reads_backend, mbind, Prog_bind, on_cache. rewrite Hx. destruct w. exact Hf.
Qed.

(* ------------------------------------------------------------------ *)
(** * Merging with the stored group *)

Lemma fetch_existing_run m gid w (pages : list bytes) :
  geometry m → 0 ≤ gid → stored_base key m (objects (v_backend w)) gid pages →
  length pages = length (group_page_nums m gid) → pages ≠ [] →
  reads_backend (fetch_existing_group_pages key gid m (group_page_nums m gid)) w (λ r, r = Some pages).
Proof.
  intros Hg Hgid [Hlen Hst] Hn Hne. destruct (Hst Hne) as (k & data & nonces & Hk & Ho & Hnonce & He).
  unfold fetch_existing_group_pages. rewrite Hk.
  eapply reads_backend_bind; [apply reads_backend_get|]. intros v b' -> _ _. rewrite Ho.
  pose proof (ge_ps _ Hg) as Hps. pose proof (ge_bytes _ Hg gid) as Hb. pose proof (ge_len _ Hg gid) as H14.
  destruct (group_len_le _ _ Hg Hgid) as [_ Hle].
  destruct (group_frames m gid) as [ft|] eqn:Hft.
  - destruct He as [He Hsmall].
    assert (0 < Manifest.sub_pages_per_frame m) as Hspf.
    { unfold group_frames in Hft. destruct (at_index _ _) as [[|e l]|]; [done| |done].
      by destruct (Z.ltb_spec 0 (Manifest.sub_pages_per_frame m)). }
    assert (wrap32 (Z.of_nat (length (group_page_nums m gid))) = Z.of_nat (length pages)) as Hw
      by (rewrite wrap32_id; unfold is_u32; lia).
    rewrite Hw, (seekable_full_roundtrip_spec (Some <$> pages) _ _ nonces _ _ _ _ _ _ _ He Hsmall);
      [|done|lia|by apply pages_ok|lia|rewrite length_fmap; unfold saturating_sub; lia|rewrite length_fmap; lia|
        rewrite length_fmap; lia].
    apply reads_backend_pure_bind. cbn beta iota.
    rewrite page_bytes_all, <-Hn, mapM_slices by (done || lia).
    apply reads_backend_pure_bind. by apply reads_backend_ret.
  - destruct (page_group_roundtrip_spec (Some <$> pages) (Manifest.page_size m) (nonces 0) (aad_page_group gid) key data)
      as [-> _]; [unfold is_u32; lia|by apply pages_ok|rewrite length_fmap; lia|rewrite length_fmap; unfold is_u32; lia|done|done|].
    apply reads_backend_pure_bind.
    rewrite page_bytes_all by done. by apply reads_backend_ret.
Qed.

(** The page a flush takes for a position of a group. *)
Definition slot_source m o c staged (gid i p : Z) : option bytes :=
  match local_page staged c p with Some d => Some d | None => cold_slot key m o gid i end.

(** The positions a flush writes: the whole group, or its dirty frames. *)
Definition rewritten m (rw : option (list Z)) (i : nat) : Prop :=
  match rw with None => True | Some frames => Z.of_nat i / Manifest.sub_pages_per_frame m ∈ frames end.

(** Every page to be written is staged or cached, or the stored group is
    complete and no override hides what is taken from it. *)
Definition group_available m o c staged (gid : Z) (rw : option (list Z)) : Prop :=
  (∀ i p, group_page_nums m gid !! i = Some p → rewritten m rw i → is_Some (local_page staged c p)) ∨
  (∃ pages, stored_base key m o gid pages ∧ length pages = length (group_page_nums m gid) ∧
    ∀ i p, group_page_nums m gid !! i = Some p → rewritten m rw i → local_page staged c p = None →
      group_frames m gid ≠ None → override_of m gid (Z.of_nat i / Manifest.sub_pages_per_frame m) = None).

(** The pages a rewritten group is made of. *)
Definition sourced m o c staged (gid : Z) (pages : list bytes) : Prop :=
  length pages = length (group_page_nums m gid) ∧ Forall (λ d, Z.of_nat (length d) = Manifest.page_size m) pages ∧
  ∀ i p, group_page_nums m gid !! i = Some p → slot_source m o c staged gid (Z.of_nat i) p = pages !! i.

Lemma sourced_local m o c staged gid :
  geometry m → 0 ≤ gid → cache_ok c → page_size c = Manifest.page_size m → staged_ok staged (page_size c) →
  (∀ p, p ∈ group_page_nums m gid → is_Some (local_page staged c p)) →
  sourced m o c staged gid ((λ p, default [] (local_page staged c p)) <$> group_page_nums m gid).
Proof.
  intros Hg Hgid Hok Hps Hst Hall. split; [by rewrite length_fmap|]. split.
  - apply Forall_fmap, Forall_forall. intros p Hp. destruct (Hall p Hp) as [d Hd]. cbn. rewrite Hd. cbn. rewrite <-Hps.
    eapply local_page_length; [exact Hok|exact Hst| |exact Hd]. by apply (ge_pages _ Hg gid).
  - intros i p Hi. rewrite list_lookup_fmap, Hi. cbn. unfold slot_source.
    by destruct (Hall p (list_elem_of_lookup_2 _ _ _ Hi)) as [d ->].
Qed.

Lemma sourced_merged m o c staged gid base :
  geometry m → 0 ≤ gid → cache_ok c → page_size c = Manifest.page_size m → staged_ok staged (page_size c) →
  stored_base key m o gid base → length base = length (group_page_nums m gid) →
  (∀ i p, group_page_nums m gid !! i = Some p → local_page staged c p = None →
    group_frames m gid ≠ None → override_of m gid (Z.of_nat i / Manifest.sub_pages_per_frame m) = None) →
  sourced m o c staged gid (zip_with (λ here e, default e here) (local_page staged c <$> group_page_nums m gid) base).
Proof.
  intros Hg Hgid Hok Hps Hst Hb Hlen Hov. pose proof (ge_bytes _ Hg gid) as Hbytes.
  split; [rewrite length_zip_with, length_fmap; lia|]. split.
  - apply Forall_lookup. intros i d Hd. apply lookup_zip_with_Some in Hd as (here & e & -> & Hh & He).
    rewrite list_lookup_fmap in Hh. destruct (group_page_nums m gid !! i) as [p|] eqn:Hp; [|done]. injection Hh as <-.
    destruct (local_page staged c p) as [d|] eqn:Hd; cbn.
    + rewrite <-Hps. eapply local_page_length; [exact Hok|exact Hst| |exact Hd].
      apply (ge_pages _ Hg gid); [done|]. by eapply list_elem_of_lookup_2.
    + destruct Hb as [Hb _]. rewrite Forall_lookup in Hb. by eapply Hb.
  - intros i p Hi. assert (is_Some (base !! i)) as [e He]
      by (apply lookup_lt_is_Some; rewrite Hlen; by eapply lookup_lt_Some).
    erewrite (proj2 (lookup_zip_with_Some _ _ _ _ _)) by
      (exists (local_page staged c p), e; split_and!; [reflexivity|by rewrite list_lookup_fmap, Hi|done]).
    unfold slot_source. destruct (local_page staged c p) as [d|] eqn:Hd; [done|]. cbn.
    apply (cold_base_slot key m o gid base i e Hg Hb He); [lia|]. intros Hft. by apply (Hov i p).
Qed.

Lemma existsb_fmap_None {A C} (f : A → option C) l :
  existsb (λ x, bool_decide (f x = None)) l = false ↔ ∀ x, x ∈ l → is_Some (f x).
Proof.
  induction l as [|x l IH]; cbn; [split; [intros _ ? Hx; by apply not_elem_of_nil in Hx|done]|].
  rewrite orb_false_iff, IH, bool_decide_eq_false. split.
  - intros [Hx Hl] y [->|Hy]%elem_of_cons; [by apply not_eq_None_Some|by apply Hl].
  - intros Hall. split; [apply not_eq_None_Some, Hall; by left|intros y Hy; apply Hall; by right].
Qed.

Lemma group_sources_run m staged gid w :
  geometry m → 0 ≤ gid → cache_ok (v_cache w) → page_size (v_cache w) = Manifest.page_size m →
  staged_ok staged (Manifest.page_size m) → group_available m (objects (v_backend w)) (v_cache w) staged gid None →
  reads_backend (group_sources key m staged gid) w (λ r, ∃ pages, r = Some <$> pages ∧
    sourced m (objects (v_backend w)) (v_cache w) staged gid pages).
Proof.
  intros Hg Hgid Hok Hps Hst Hav. unfold group_sources. rewrite <-Hps in Hst |- *.
  assert (Forall (λ p, 0 ≤ p < page_count m) (group_page_nums m gid)) as Hin
    by (apply Forall_forall; intros p; by apply (ge_pages _ Hg)).
  eapply reads_backend_cache_bind; [by apply local_pages_run|]. cbn beta iota.
  set (nums := group_page_nums m gid) in *. set (c := v_cache w) in *.
  destruct (existsb _ nums) eqn:Hex.
  - destruct Hav as [Hall|(base & Hb & Hlen & Hov)].
    { enough (existsb (λ p, bool_decide (local_page staged c p = None)) nums = false) by congruence.
      apply existsb_fmap_None. intros p [i Hi]%list_elem_of_lookup. by apply (Hall i p). }
    assert (base ≠ []) as Hne by (intros ->; change (length (@nil bytes) = length nums) in Hlen; by destruct nums).
    eapply (reads_backend_bind _ _ _ (eq (fill_holes (page_count m) nums (local_page staged c <$> nums) base)));
      [eapply reads_backend_bind|].
    { by apply (fetch_existing_run m gid _ base Hg Hgid). }
    { intros ? b2 -> _ _. by apply (reads_backend_ret _ _ (eq _)). }
    intros ? b3 <- Ho3 _. cbn beta.
    rewrite fill_holes_run; [|eapply Forall_impl; [exact Hin|]; cbn; lia|by rewrite length_fmap|done].
    rewrite zip_with_Some.
    rewrite check_sources_full. apply reads_backend_pure_bind.
    apply reads_backend_ret. eexists. split; [reflexivity|]. apply sourced_merged; try done.
    intros i p Hi. by apply Hov.
  - apply reads_backend_ret_bind.
    assert (∀ p, p ∈ nums → is_Some (local_page staged c p)) as Hall by by apply existsb_fmap_None.
    assert (local_page staged c <$> nums = Some <$> ((λ p, default [] (local_page staged c p)) <$> nums)) as ->.
    { rewrite <-list_fmap_compose. apply list_fmap_ext. intros i p Hi. cbn.
      by destruct (Hall p (list_elem_of_lookup_2 _ _ _ Hi)) as [d ->]. }
    rewrite check_sources_full. apply reads_backend_pure_bind.
    apply reads_backend_ret. eexists. split; [reflexivity|]. by apply sourced_local.
Qed.
End group_pages.
