(* ===== verification/FlushGroups.v ===== *)
(** One dirty group through a flush (Flush.v): the encoders accept its pages, and
    the object or the override frames they produce hold the right page at every
    position. *)

From S2P Require Import Prelude Keys Staging Manifest Backend ColdRead.
From S2P Require Import CacheTracking LocalState Compress Encoding File DiskCache CacheView.
From S2P Require Import Vfs Compact Flush FlushPages.

Section encoders.
Context `{Compression} `{Aead K} (rnd : string → Z → bytes) `{!FlushLaws rnd}.
Variable key : option K.

Lemma compress_run d : ∃ c, compress d = Ok c ∧ Z.of_nat (length c) ≤ 2 * Z.of_nat (length d) + 2 ^ 10.
Proof.
  destruct (fl_compress_total d) as [c Hc]. exists c. unfold compress. rewrite Hc. split; [done|].
  by apply fl_compress_bound.
Qed.

Lemma encrypt_run k i d aad :
  Z.of_nat (length aad) < 2 ^ 8 →
  ∃ c, encrypt_if_needed (rnd k i) d aad key = Ok c ∧ Z.of_nat (length c) ≤ Z.of_nat (length d) + 2 ^ 9.
Proof.
  intros Ha. unfold encrypt_if_needed. destruct key as [kk|]; [|exists d; split; [done|lia]].
  destruct (fl_seal_total kk (rnd k i) aad d Ha) as [c Hc]. unfold encrypt_gcm_random_nonce. rewrite Hc.
  eexists. split; [reflexivity|]. rewrite length_app, fl_rnd. pose proof (fl_seal_bound _ _ _ _ _ Hc). lia.
Qed.

Lemma frame_run pages ps spf k aad acc f :
  0 < ps → 0 < spf → 0 ≤ f → f * spf ≤ Z.of_nat (length pages) → Forall (page_ok ps) pages →
  Z.of_nat (length aad) < 2 ^ 8 →
  ∃ blob table, encode_frame pages ps spf (rnd k) aad key acc f = Ok (blob, table) ∧
    Z.of_nat (length blob) ≤ Z.of_nat (length acc.1) + 2 * (Z.min spf (Z.of_nat (length pages) - f * spf) * ps) + 2 ^ 11.
Proof.
  intros Hps Hspf Hf Hle Hok Ha. unfold encode_frame.
  set (l := take _ (drop _ pages)).
  assert (Z.of_nat (length l) = Z.min spf (Z.of_nat (length pages) - f * spf)) as Hl
    by (unfold l; rewrite length_take, length_drop; nia).
  assert (Forall (page_ok ps) l) as Hl' by by apply Forall_take, Forall_drop.
  destruct (compress_run (concat (page_bytes ps <$> l))) as (c & -> & Hc). cbn [mbind outcome_bind].
  destruct (encrypt_run k f c aad Ha) as (e & -> & He). cbn [mbind outcome_bind].
  eexists _, _. split; [reflexivity|]. rewrite length_app. rewrite concat_pages_length in Hc by (done || lia). lia.
Qed.

Lemma frames_run pages ps spf k aad n :
  0 < ps → 0 < spf → 0 ≤ n → (n - 1) * spf ≤ Z.of_nat (length pages) → Forall (page_ok ps) pages →
  Z.of_nat (length aad) < 2 ^ 8 →
  ∃ blob table, fold_io (encode_frame pages ps spf (rnd k) aad key) ([], []) (range 0 n) = Ok (blob, table) ∧
    Z.of_nat (length blob) ≤ 2 * (Z.min (n * spf) (Z.of_nat (length pages)) * ps) + n * 2 ^ 11.
Proof.
  intros Hps Hspf Hn. pattern n. apply natlike_ind; [| |done].
  { intros _ _ _. exists [], []. split; [done|]. cbn. rewrite Z.min_l by lia. lia. }
  intros x Hx IH Hle Hok Ha. rewrite <-Z.add_1_r in *.
  destruct IH as (b & t & Hbt & Hlen); [nia|done|done|].
  rewrite range_snoc, fold_io_app, Hbt by lia. cbn [mbind outcome_bind fold_io].
  destruct (frame_run pages ps spf k aad (b, t) x) as (b' & t' & -> & Hl'); [done|done|done|nia|done|done|].
  cbn [mbind outcome_bind]. exists b', t'. split; [done|]. cbn [fst] in Hl'.
  assert (Z.min (x * spf) (Z.of_nat (length pages)) * ps + Z.min spf (Z.of_nat (length pages) - x * spf) * ps
    ≤ Z.min ((x + 1) * spf) (Z.of_nat (length pages)) * ps) by nia. lia.
Qed.

Lemma group_run (m : Manifest) gid k (pages : list bytes) :
  geometry m → Forall (λ d, Z.of_nat (length d) = Manifest.page_size m) pages →
  length pages = length (group_page_nums m gid) →
  ∃ data ft, encode_group rnd key m gid k (Some <$> pages) = Ok (data, ft) ∧
    match ft with
    | Some t => 0 < Manifest.sub_pages_per_frame m ∧
        encode_page_group_seekable (Some <$> pages) (Manifest.page_size m) (Manifest.sub_pages_per_frame m) (rnd k)
          (aad_page_group gid) key = Ok (data, t) ∧ Z.of_nat (length data) < 2 ^ 32 ∧ (pages ≠ [] → t ≠ [])
    | None => Manifest.sub_pages_per_frame m = 0 ∧
        encode_page_group (Some <$> pages) (Manifest.page_size m) (rnd k 0) (aad_page_group gid) key = Ok data
    end.
Proof.
  intros Hg Hlen Hn. pose proof (ge_ps _ Hg) as Hps. pose proof (ge_spf _ Hg) as [Hspf _].
  pose proof (ge_bytes _ Hg gid) as Hb. pose proof (ge_len _ Hg gid) as H14. rewrite <-Hn in Hb, H14.
  assert (Z.of_nat (length (aad_page_group gid)) < 2 ^ 8) as Ha
    by (unfold aad_page_group; cbn [length]; rewrite length_le_bytes; lia).
  unfold encode_group. destruct (Z.ltb_spec 0 (Manifest.sub_pages_per_frame m)) as [Hpos|Hz].
  - unfold encode_page_group_seekable at 1. destruct (Z.eqb_spec (Manifest.sub_pages_per_frame m) 0); [lia|].
    set (spf := Manifest.sub_pages_per_frame m) in *. set (ps := Manifest.page_size m) in *.
    rewrite length_fmap. set (N := Z.of_nat (length pages)) in *. set (nf := div_ceil N spf).
    pose proof (div_ceil_spec N spf Hpos ltac:(lia)) as Hd. fold nf in Hd.
    assert (0 ≤ nf ∧ nf ≤ N) as [Hn0 Hn2] by nia.
    destruct (frames_run (Some <$> pages) ps spf k (aad_page_group gid) nf) as (data & t & Hrun & Hl);
      [lia|done|done|rewrite length_fmap; lia|by apply pages_ok|done|].
    rewrite length_fmap in Hl. rewrite Hrun. cbn [mbind outcome_bind]. exists data, (Some t).
    fold N in Hl. assert (Z.of_nat (length data) < 2 ^ 32) as Hdata by nia.
    split_and!; [done|done| |done|].
    + unfold encode_page_group_seekable. destruct (Z.eqb_spec spf 0); [lia|]. rewrite length_fmap. fold N nf. exact Hrun.
    + intros Hne ->. apply encode_frames_spec in Hrun as [Ht _]; [|done|done].
      destruct pages; [done|]. unfold N in *. cbn in *. nia.
  - unfold encode_page_group. cbn zeta.
    match goal with |- context [compress ?raw] => destruct (compress_run raw) as (c & -> & _) end. cbn [mbind outcome_bind].
    destruct (encrypt_run k 0 c (aad_page_group gid) Ha) as (e & -> & _). cbn [mbind outcome_bind].
    exists e, None. split; [done|]. split; [lia|done].
Qed.

Lemma override_run dirty ps k f aad :
  Z.of_nat (length aad) < 2 ^ 8 → ∃ data, encode_override_frame dirty ps (rnd k f) aad key = Ok data.
Proof.
  intros Ha. unfold encode_override_frame. cbn zeta.
  match goal with |- context [compress ?raw] => destruct (compress_run raw) as (c & -> & _) end. cbn [mbind outcome_bind].
  destruct (encrypt_run k f c aad Ha) as (e & -> & _). by exists e.
Qed.
End encoders.

(* ------------------------------------------------------------------ *)
(** * Programs that read the backend *)

Section run_reads.
Context `{HashIter} `{Compression} `{Aead K} `{StorageLaws B}.
Context (o : gmap string bytes) (c : DiskCache K).

(** [reads_backend] in every state that has the cache and the objects. *)
Definition run_reads {A} (x : Prog K B A) (P : A → Prop) : Prop :=
  ∀ w, v_cache w = c → objects (v_backend w) = o → reads_backend x w P.

Lemma run_reads_ret {A} (a : A) (P : A → Prop) : P a → run_reads (mret a) P.
Proof. intros Ha w _ _. by apply reads_backend_ret. Qed.

Lemma run_reads_pure {A} (a : A) (P : A → Prop) : P a → run_reads (pure (Ok a)) P.
Proof. apply (run_reads_ret a). Qed.

Lemma run_reads_impl {A} (x : Prog K B A) (P Q : A → Prop) :
  run_reads x P → (∀ a, P a → Q a) → run_reads x Q.
Proof. intros Hx Himp w Hc Ho. eapply reads_backend_impl; [by apply Hx|done]. Qed.

Lemma run_reads_bind {A C} (x : Prog K B A) (f : A → Prog K B C) (P : A → Prop) (Q : C → Prop) :
  run_reads x P → (∀ a, P a → run_reads (f a) Q) → run_reads (x ≫= f) Q.
Proof.
  intros Hx Hf w Hc Ho. eapply reads_backend_bind; [by apply Hx|]. intros a b' Ha Ho' _.
  apply (Hf a Ha); [done|]. cbn. congruence.
Qed.

Lemma run_reads_cache {A} (x : M K A) (a : A) (P : A → Prop) :
  x c = (Ok a, c) → P a → run_reads (on_cache x) P.
Proof. intros Hx Ha w <- _. by eapply reads_backend_cache. Qed.

Lemma run_reads_reads {A} (f : Vfs K B → A) (P : A → Prop) :
  (∀ w, v_cache w = c → P (f w)) → run_reads (reads f) P.
Proof. intros Hf w Hc Ho. apply (reads_backend_ret (f w) w). by apply Hf. Qed.

Lemma run_reads_assoc {A C D} (x : Prog K B A) (y : A → Prog K B C) (f : C → Prog K B D) Q :
  run_reads ((x ≫= y) ≫= f) Q → run_reads (x ≫= λ a, y a ≫= f) Q.
Proof.
  intros Hx w Hc Ho. specialize (Hx w Hc Ho). unfold reads_backend, mbind, Prog_bind in *.
  by destruct (x w) as [[a|e|] w'].
Qed.

(** A loop whose invariant speaks of the elements done. *)
Lemma run_reads_fold {A C} (f : A → C → Prog K B A) (l : list C) (Inv : list C → A → Prop) (acc : A) :
  Inv [] acc →
  (∀ done x rest acc, l = done ++ x :: rest → Inv done acc → run_reads (f acc x) (Inv (done ++ [x]))) →
  run_reads (fold_prog f acc l) (Inv l).
Proof.
  intros Hnil Hstep.
  assert (∀ l2 l1 acc, l1 ++ l2 = l → Inv l1 acc → run_reads (fold_prog f acc l2) (Inv l)) as Hgen.
  2: { by apply (Hgen l []). }
  intros l2. induction l2 as [|x l2 IH]; intros l1 a Hl Ha; cbn [fold_prog].
  - apply run_reads_ret. rewrite app_nil_r in Hl. by subst.
  - eapply run_reads_bind; [by apply (Hstep l1 x l2)|]. intros a' Ha'. apply (IH (l1 ++ [x])); [|done].
    by rewrite <-app_assoc.
Qed.
End run_reads.

(* ------------------------------------------------------------------ *)
(** * The frames that pages lie in *)

(** The frames of the group with a page of [S]. *)
Definition frames_touched (m : Manifest) (S : gset Z) (gid : Z) : gset Z :=
  list_to_set (omap (λ ip, if decide (ip.2 ∈ S) then Some (ip.1 / Manifest.sub_pages_per_frame m) else None)
    (enumerate (group_page_nums m gid))).

Lemma elem_of_frames_touched m S gid f :
  f ∈ frames_touched m S gid ↔
  ∃ i p, group_page_nums m gid !! i = Some p ∧ p ∈ S ∧ f = Z.of_nat i / Manifest.sub_pages_per_frame m.
Proof.
  unfold frames_touched. rewrite elem_of_list_to_set, list_elem_of_omap. split.
  - intros ([i p] & [Hi Hp]%elem_of_enumerate & Hs). case_decide; [|done]. injection Hs as <-.
    exists (Z.to_nat i), p. split; [done|]. split; [done|]. cbn. by rewrite Z2Nat.id.
  - intros (i & p & Hi & Hp & ->). exists (Z.of_nat i, p). split; [|by rewrite decide_True].
    apply elem_of_enumerate. rewrite Nat2Z.id. split; [lia|done].
Qed.

Lemma size_list_le (l : list Z) : (size (list_to_set l : gset Z) ≤ length l)%nat.
Proof.
  induction l as [|x l IH]; cbn; [by rewrite size_empty|].
  pose proof (size_union_alt {[ x ]} (list_to_set l : gset Z)) as Hs. rewrite size_singleton in Hs.
  assert (size (list_to_set l ∖ {[ x ]} : gset Z) ≤ size (list_to_set l : gset Z))%nat by (apply subseteq_size; set_solver). lia.
Qed.

Lemma size_frames_touched m S gid : (size (frames_touched m S gid) ≤ length (group_page_nums m gid))%nat.
Proof.
  unfold frames_touched. etrans; [apply size_list_le|].
  assert (∀ (f : Z * Z → option Z) (l : list (Z * Z)), (length (omap f l) ≤ length l)%nat) as Hl.
  { intros f l. induction l as [|ip l IH]; cbn; [lia|]. destruct (f ip); cbn; lia. }
  etrans; [apply Hl|]. unfold enumerate, range. rewrite length_zip. lia.
Qed.

Lemma frames_touched_mono m S S' gid : S ⊆ S' → frames_touched m S gid ⊆ frames_touched m S' gid.
Proof.
  intros HS f. rewrite !elem_of_frames_touched. intros (i & p & Hi & Hp & ->). exists i, p. split; [done|]. split; [by apply HS|done].
Qed.

(* ------------------------------------------------------------------ *)
(** * The dirty frames of a group *)

Section override_groups.
Context `{HashIter} `{Compression} `{Aead K} `{StorageLaws B}.
Context (rnd : string → Z → bytes) `{!FlushLaws rnd}.
Variable key : option K.
Context (m : Manifest) (o : gmap string bytes) (c : DiskCache K) (staged : gmap Z bytes).
Context (Hg : geometry m) (Hok : cache_ok c) (Hps : page_size c = Manifest.page_size m).
Context (Hst : staged_ok staged (Manifest.page_size m)).

Lemma group_frames_spf gid ft : group_frames m gid = Some ft → 0 < Manifest.sub_pages_per_frame m ∧ ft ≠ [].
Proof.
  unfold group_frames. destruct (at_index _ _) as [[|e l]|]; [done| |done].
  destruct (Z.ltb_spec 0 (Manifest.sub_pages_per_frame m)); [by intros [= <-]|done].
Qed.

(** The staged pages of the group all lie in the frames to be written. *)
Lemma override_frames_spec threshold gid frames :
  0 ≤ gid → override_frames m staged threshold gid = Some frames →
  group_frames m gid ≠ None ∧ NoDup frames ∧
  (∀ f, f ∈ frames → 0 ≤ f ∧ f * Manifest.sub_pages_per_frame m < Z.of_nat (length (group_page_nums m gid))) ∧
  ∀ i p, group_page_nums m gid !! i = Some p → is_Some (staged !! p) → rewritten m (Some frames) i.
Proof.
  intros Hgid. unfold override_frames. destruct (group_frames m gid) as [ft|] eqn:Hft; [|done].
  destruct (group_frames_spf _ _ Hft) as [Hspf Hne].
  destruct (threshold <=? 0); [done|]. set (dirty := filter _ _).
  destruct (dirty_frames_spec dirty (group_page_nums m gid) ft (Manifest.sub_pages_per_frame m) ltac:(lia)) as [Hs Hf].
  cbn zeta in Hs, Hf. destruct (negb _ && _); [|done]. intros [= <-]. split; [done|]. split_and!.
  - clear Hf. induction Hs as [|x l _ IH Hx]; constructor; [|done].
    intros Hin. rewrite Forall_forall in Hx. specialize (Hx _ Hin). lia.
  - intros f (_ & _ & p & pos & _ & Hpos & Hlo)%Hf. apply position_Some in Hpos as [Hpos _].
    apply lookup_lt_Some in Hpos. nia.
  - intros i p Hi Hsp. cbn. apply Hf. split; [done|]. split; [done|]. exists p, i.
    destruct (group_len_le m gid Hg Hgid) as [Hnd _]. split_and!.
    + unfold dirty. apply list_elem_of_filter. split; [|by eapply list_elem_of_lookup_2].
      split; [|done]. apply (ge_pages _ Hg gid p Hgid). by eapply list_elem_of_lookup_2.
    + apply position_Some. split; [done|]. intros j Hj Hjp. rewrite NoDup_alt in Hnd. specialize (Hnd _ _ _ Hi Hjp). lia.
    + pose proof (Z.mod_pos_bound (Z.of_nat i) _ Hspf). pose proof (Z.div_mod (Z.of_nat i) (Manifest.sub_pages_per_frame m)). nia.
    + pose proof (Z.mod_pos_bound (Z.of_nat i) _ Hspf). pose proof (Z.div_mod (Z.of_nat i) (Manifest.sub_pages_per_frame m)). nia.
Qed.

(** Each of these frames has a staged page. *)
Lemma override_frames_staged threshold gid frames f :
  override_frames m staged threshold gid = Some frames → f ∈ frames → f ∈ frames_touched m (dom staged) gid.
Proof.
  unfold override_frames. destruct (group_frames m gid) as [ft|] eqn:Hft; [|done].
  destruct (group_frames_spf _ _ Hft) as [Hspf Hne]. destruct (threshold <=? 0); [done|]. set (dirty := filter _ _).
  destruct (dirty_frames_spec dirty (group_page_nums m gid) ft (Manifest.sub_pages_per_frame m) ltac:(lia)) as [_ Hf].
  cbn zeta in Hf. destruct (negb _ && _); [|done]. intros [= <-] (_ & _ & p & pos & Hp & Hpos & Hlo)%Hf.
  apply position_Some in Hpos as [Hpos _]. apply list_elem_of_filter in Hp as [[_ Hp] _].
  apply elem_of_frames_touched. exists pos, p. split; [done|]. split; [by apply elem_of_dom|].
  apply (Z.div_unique _ _ _ (Z.of_nat pos - f * Manifest.sub_pages_per_frame m)); lia.
Qed.

(** The positions of one frame. *)
Definition frame_slots (gid f : Z) : list (Z * Z) :=
  take (Z.to_nat (Manifest.sub_pages_per_frame m))
    (drop (Z.to_nat (f * Manifest.sub_pages_per_frame m)) (enumerate (group_page_nums m gid))).

Lemma frame_slots_lookup gid f j ip :
  0 < Manifest.sub_pages_per_frame m → 0 ≤ f →
  frame_slots gid f !! j = Some ip ↔
    (Z.of_nat j < Manifest.sub_pages_per_frame m ∧ ip.1 = f * Manifest.sub_pages_per_frame m + Z.of_nat j ∧
     group_page_nums m gid !! Z.to_nat ip.1 = Some ip.2).
Proof.
  intros Hspf Hf. unfold frame_slots. set (spf := Manifest.sub_pages_per_frame m) in *. destruct ip as [i p]. cbn [fst snd].
  destruct (decide (Z.of_nat j < spf)) as [Hj|Hj].
  2: { rewrite lookup_take_ge by lia. naive_solver. }
  rewrite lookup_take_lt, lookup_drop by lia. unfold enumerate, range. split.
  - intros (Hi & Hp)%lookup_zip_Some. apply lookup_seqZ in Hi as [-> Hi]. split; [done|]. split; [nia|].
    by rewrite Z.add_0_l, Nat2Z.id.
  - intros (_ & -> & Hp). apply lookup_zip_Some. rewrite lookup_seqZ.
    replace (Z.to_nat (f * spf + Z.of_nat j)) with (Z.to_nat (f * spf) + j)%nat in Hp by nia.
    split; [|done]. apply lookup_lt_Some in Hp. nia.
Qed.

Lemma frame_positions_slots gid f : 0 ≤ gid → frame_positions m gid f = frame_slots gid f.
Proof.
  intros Hgid. unfold frame_positions. fold (frame_slots gid f). apply take_while_all, Forall_forall.
  intros [i p] Hin. unfold frame_slots in Hin.
  assert ((i, p) ∈ enumerate (group_page_nums m gid)) as [_ Hp]%elem_of_enumerate.
  { rewrite <-(take_drop (Z.to_nat (f * Manifest.sub_pages_per_frame m)) (enumerate _)).
    apply elem_of_app. right. rewrite <-(take_drop (Z.to_nat (Manifest.sub_pages_per_frame m)) (drop _ _)).
    apply elem_of_app. by left. }
  cbn. apply Z.ltb_lt, (ge_pages _ Hg gid p Hgid). by eapply list_elem_of_lookup_2.
Qed.

(** A page taken for a position, and its size. *)
Definition taken (gid : Z) (ip : Z * Z) (d : bytes) : Prop :=
  slot_source key m o c staged gid ip.1 ip.2 = Some d ∧ Z.of_nat (length d) = Manifest.page_size m.

(** What the base group supplies for the positions not found locally. *)
Definition base_supplies (gid : Z) (existing : option (list bytes)) (ip : Z * Z) : Prop :=
  is_Some (local_page staged c ip.2) ∨ ∃ base d, existing = Some base ∧ at_index base ip.1 = Some d ∧
    cold_slot key m o gid ip.1 = Some d ∧ Z.of_nat (length d) = Manifest.page_size m.

Lemma override_page_run gid existing ip :
  0 ≤ ip.2 → base_supplies gid existing ip →
  run_reads (B:=B) o c (override_page m staged existing ip) (λ pd, pd.1 = ip.2 ∧ taken gid ip pd.2).
Proof.
  intros Hp Hb. unfold override_page, taken, slot_source. destruct (staged !! ip.2) as [d|] eqn:Hd.
  { unfold local_page. rewrite Hd. apply run_reads_ret. split; [done|]. split; [done|]. by apply (Hst ip.2). }
  assert (local_page staged c ip.2 = view c ip.2) as Hl by (unfold local_page; by rewrite Hd).
  rewrite <-Hps. eapply run_reads_bind; [by eapply run_reads_cache; [apply read_present_run; [| |apply zeros_size, ok_ps]|apply eq_refl]|].
  intros ? <-. rewrite Hl in *. destruct (view c ip.2) as [d|] eqn:Hv.
  - eapply run_reads_bind; [by apply run_reads_pure, eq_refl|]. intros ? <-. apply run_reads_ret.
    split; [done|]. split; [done|]. by eapply view_length.
  - destruct Hb as [[? Hb]|(base & d & -> & Hbd & Hc & Hlen)]; [congruence|]. rewrite Hbd. cbn [ok_or].
    eapply run_reads_bind; [by apply run_reads_pure, eq_refl|]. intros ? <-. apply run_reads_ret. by rewrite Hps.
Qed.

Lemma frame_pages_run gid existing (slots : list (Z * Z)) :
  Forall (λ ip, 0 ≤ ip.2 ∧ base_supplies gid existing ip) slots →
  run_reads (B:=B) o c
    (fold_prog (λ l ip, pd ← override_page m staged existing ip; mret (l ++ [pd])) [] slots)
    (λ l, Forall2 (λ ip pd, taken gid ip pd.2) slots l).
Proof.
  intros Hall. eapply (run_reads_fold _ _ _ _ (λ dn l, Forall2 (λ ip pd, taken gid ip pd.2) dn l)); [constructor|].
  intros dn ip rest l -> Hinv. apply Forall_app in Hall as [_ [[Hp Hb] _]%Forall_cons].
  eapply run_reads_bind; [by apply override_page_run|]. intros pd [_ Hpd]. apply run_reads_ret.
  apply Forall2_app; [done|]. by constructor.
Qed.

Lemma cache_present_view p : 0 ≤ p → cache_is_present c p = true ↔ is_Some (view c p).
Proof.
  intros Hp. rewrite view_stored by done. split.
  - intros Hpres. apply (ok_stored _ Hok p Hp). by rewrite Hpres.
  - intros [d Hd]. apply stored_present in Hd. by destruct (cache_is_present c p).
Qed.

(** The base group is fetched when it is needed. *)
Lemma existing_run gid frames :
  0 ≤ gid → (∀ f, f ∈ frames → 0 ≤ f) → group_frames m gid ≠ None →
  group_available key m o c staged gid (Some frames) →
  run_reads (B:=B) o c
    (needs ← reads (λ w, needs_base m staged gid frames (v_cache w));
     if needs : bool then fetch_existing_group_pages key gid m (group_page_nums m gid) else mret None)
    (λ existing, ∀ f ip, f ∈ frames → ip ∈ frame_slots gid f → 0 ≤ ip.2 ∧ base_supplies gid existing ip).
Proof.
  intros Hgid Hf Hft Hav.
  assert (0 < Manifest.sub_pages_per_frame m) as Hspf
    by (destruct (group_frames m gid) eqn:Hft'; [by eapply group_frames_spf|done]).
  assert (∀ f ip, f ∈ frames → ip ∈ frame_slots gid f → 0 ≤ ip.1 ∧
    group_page_nums m gid !! Z.to_nat ip.1 = Some ip.2 ∧ rewritten m (Some frames) (Z.to_nat ip.1) ∧
    0 ≤ ip.2 < page_count m) as Hslots.
  { intros f ip Hin [j Hj]%list_elem_of_lookup. specialize (Hf f Hin).
    apply frame_slots_lookup in Hj as (Hj & Hi & Hp); [|done|done]. assert (0 ≤ ip.1) by nia. split_and!; [done|done| | |].
    - cbn. rewrite Z2Nat.id by done. rewrite Hi. by rewrite Z.add_comm, Z.div_add, Z.div_small by lia.
    - apply (ge_pages _ Hg gid _ Hgid). by eapply list_elem_of_lookup_2.
    - apply (ge_pages _ Hg gid _ Hgid). by eapply list_elem_of_lookup_2. }
  eapply (run_reads_bind _ _ _ _ (λ needs, needs = needs_base m staged gid frames c));
    [by apply run_reads_reads; intros ? ->|].
  intros needs ->. destruct (needs_base m staged gid frames c) eqn:Hneeds.
  - apply existsb_exists in Hneeds as (f & Hin & (ip & Hip & Hmiss)%existsb_exists).
    apply list_elem_of_In in Hin, Hip. destruct (Hslots f ip Hin Hip) as (Hi0 & Hi & Hrw & Hp).
    assert (local_page staged c ip.2 = None) as Hnone.
    { apply andb_true_iff in Hmiss as [[_ Hs%negb_true_iff%bool_decide_eq_false]%andb_true_iff Hc%negb_true_iff].
      unfold local_page. destruct (staged !! ip.2); [by destruct Hs|].
      destruct (view c ip.2) eqn:Hv; [|done]. rewrite (proj2 (cache_present_view ip.2 ltac:(lia))) in Hc; [done|]. by eexists. }
    destruct Hav as [Hall|(base & Hb & Hlen & Hov)].
    { destruct (Hall _ _ Hi Hrw) as [? ?]. congruence. }
    intros w Hwc Hwo. eapply reads_backend_impl; [apply (fetch_existing_run key m gid w base)|]; try done.
    { by rewrite Hwo. } { intros ->. cbn in Hlen. apply lookup_lt_Some in Hi. lia. }
    intros ? -> f' ip' Hin' Hip'. destruct (Hslots f' ip' Hin' Hip') as (Hi0' & Hi' & Hrw' & Hp').
    split; [lia|]. unfold base_supplies. destruct (local_page staged c ip'.2) eqn:Hl; [left; by eexists|right].
    assert (is_Some (base !! Z.to_nat ip'.1)) as [d Hd]
      by (apply lookup_lt_is_Some; rewrite Hlen; by eapply lookup_lt_Some).
    exists base, d. split; [done|]. split; [apply at_index_Some; done|]. split.
    + rewrite <-(Z2Nat.id ip'.1) by done. pose proof (ge_bytes _ Hg gid).
      apply (cold_base_slot key m o gid base _ d Hg Hb Hd); [lia|]. intros _. by eapply Hov.
    + destruct Hb as [Hb _]. rewrite Forall_lookup in Hb. by eapply Hb.
  - apply run_reads_ret. intros f ip Hin Hip. destruct (Hslots f ip Hin Hip) as (Hi0 & Hi & Hrw & Hp).
    split; [lia|]. left. destruct (local_page staged c ip.2) as [d|] eqn:Hl; [by eexists|exfalso].
    unfold local_page in Hl. destruct (staged !! ip.2) as [d|] eqn:Hs; [done|].
    enough (needs_base m staged gid frames c = true) by congruence.
    apply existsb_exists. exists f. split; [by apply list_elem_of_In|]. apply existsb_exists. exists ip.
    split; [by apply list_elem_of_In, Hip|]. rewrite Hs, !andb_true_iff, Z.ltb_lt. split_and!; [lia| |].
    + apply negb_true_iff, bool_decide_eq_false. by intros [? ?].
    + apply negb_true_iff. destruct (cache_is_present c ip.2) eqn:Hc; [|done].
      destruct (proj1 (cache_present_view ip.2 ltac:(lia)) Hc). congruence.
Qed.
End override_groups.
