(* ===== verification/FlushInv.v ===== *)
(** The loop of a flush (Flush.v) over the dirty groups: what the accumulator
    holds of a group that is done, and that every other group is untouched. *)

From S2P Require Import Prelude Keys Staging Manifest Backend ColdRead.
From S2P Require Import CacheTracking LocalState Compress Encoding File DiskCache CacheView.
From S2P Require Import Vfs Compact Flush FlushPages FlushGroups.

(* ------------------------------------------------------------------ *)
(** * Vectors that grow on a write *)

(** An entry beyond the end of such a vector is as good as the default. *)
Definition at_or {A} (d : A) (l : list A) (i : Z) : A := default d (at_index l i).

Lemma at_or_nil {A} (d : A) i : at_or d [] i = d.
Proof. unfold at_or, at_index. by destruct (i <? 0). Qed.

Lemma at_or_grow {A} (d : A) n l i : at_or d (grow_to n d l) i = at_or d l i.
Proof.
  unfold at_or, at_index, grow_to. destruct (i <? 0); [done|].
  destruct (l !! Z.to_nat i) as [x|] eqn:Hx; [by rewrite (lookup_app_l_Some _ _ _ _ Hx)|].
  rewrite lookup_app_r by by apply lookup_ge_None. destruct (replicate _ _ !! _) as [y|] eqn:Hy; [|done].
  by apply lookup_replicate in Hy as [-> _].
Qed.

Lemma at_or_set_at {A} (d : A) i x l j :
  0 ≤ i → at_or d (set_at d i x l) j = if decide (i = j) then x else at_or d l j.
Proof.
  intros Hi. unfold set_at, at_or. rewrite at_index_insert by done. rewrite length_grow_to.
  destruct (decide (i = j)) as [->|Hne]; [by rewrite decide_True by lia|].
  rewrite decide_False by naive_solver. apply (at_or_grow d).
Qed.

Lemma at_or_alter_at {A} (d : A) f i l j :
  f d = d → at_or d (alter_at f i l) j = if decide (i = j) then f (at_or d l j) else at_or d l j.
Proof.
  intros Hf. unfold alter_at, at_or, at_index. destruct (Z.ltb_spec i 0), (Z.ltb_spec j 0);
    try (by destruct (decide (i = j))); [rewrite decide_False by lia; done..|].
  destruct (decide (i = j)) as [->|Hne]; [|by rewrite list_lookup_alter_ne by lia].
  rewrite list_lookup_alter_eq. destruct (l !! Z.to_nat j); cbn; [done|by rewrite Hf].
Qed.

Lemma length_set_at {A} (d : A) i x l : length (set_at d i x l) = Nat.max (Z.to_nat i + 1) (length l).
Proof. unfold set_at. by rewrite length_insert, length_grow_to. Qed.

Lemma key_at_or keys gid : key_at keys gid = let k := at_or ""%string keys gid in if decide (k = ""%string) then None else Some k.
Proof. unfold key_at, at_or. by destruct (at_index keys gid) as [[|a k]|]. Qed.

Lemma group_frames_or m gid :
  group_frames m gid =
    match at_or [] (frame_tables m) gid with
    | [] => None
    | ft => if 0 <? Manifest.sub_pages_per_frame m then Some ft else None
    end.
Proof. unfold group_frames, at_or. by destruct (at_index (frame_tables m) gid) as [[|e l]|]. Qed.

Lemma override_of_or m gid f : override_of m gid f = at_or ∅ (subframe_overrides m) gid !! f.
Proof. unfold override_of, at_or. by destruct (at_index (subframe_overrides m) gid). Qed.

(* ------------------------------------------------------------------ *)
(** * The accumulator *)

Section loop.
Context `{HashIter} `{Compression} `{Aead K} `{StorageLaws B}.
Context (rnd : string → Z → bytes) `{!FlushLaws rnd}.
Variable key : option K.
Context (m : Manifest) (o : gmap string bytes) (c : DiskCache K) (staged : gmap Z bytes) (threshold nv : Z).

(** The group's pages encoded as a whole. *)
Record full_result (acc : FlushAcc) (gid : Z) : Prop := {
  fr_full : gid ∈ fa_full acc;
  fr_key : at_or ""%string (fa_keys acc) gid = page_group_key gid nv;
  fr_overrides : at_or ∅ (fa_overrides acc) gid = at_or ∅ (subframe_overrides m) gid;
  fr_data : ∃ pages data ft, sourced key m o c staged gid pages ∧
    encode_group rnd key m gid (page_group_key gid nv) (Some <$> pages) = Ok (data, ft) ∧
    (page_group_key gid nv, data) ∈ fa_uploads acc ∧
    at_or [] (fa_frames acc) gid = default (at_or [] (frame_tables m) gid) ft
}.

(** The frames encoded as overrides, the other frames as they were. *)
Record frames_result (acc : FlushAcc) (gid : Z) (frames : list Z) : Prop := {
  fs_key : at_or ""%string (fa_keys acc) gid = at_or ""%string (page_group_keys m) gid;
  fs_table : at_or [] (fa_frames acc) gid = at_or [] (frame_tables m) gid;
  fs_kept : ∀ f, f ∉ frames → at_or ∅ (fa_overrides acc) gid !! f = at_or ∅ (subframe_overrides m) gid !! f;
  fs_new : ∀ f, f ∈ frames → ∃ data dirty e,
    at_or ∅ (fa_overrides acc) gid !! f = Some {| ovr_key := override_frame_key gid f nv; ovr_entry := e |} ∧
    (override_frame_key gid f nv, data) ∈ fa_uploads acc ∧
    encode_override_frame dirty (Manifest.page_size m) (rnd (override_frame_key gid f nv) 0)
      (aad_override_frame gid f) key = Ok data ∧
    Forall2 (λ ip pd, taken key m o c staged gid ip pd.2) (frame_slots m gid f) dirty
}.

(** A group that the loop has not reached is a group without new frames. *)
Definition group_result (acc : FlushAcc) (done : list Z) (gid : Z) : Prop :=
  full_result acc gid ∧ gid ∈ done ∨
  gid ∉ fa_full acc ∧ ∃ frames, frames_result acc gid frames ∧
    (gid ∈ done → override_frames m staged threshold gid = Some frames) ∧ (gid ∉ done → frames = []).

(** The name a slot has in the accumulator. *)
Definition acc_ref (acc : FlushAcc) (s : Slot) : option string :=
  match s with
  | PageGroup g => key_at (fa_keys acc) g
  | OverrideFrame g f => ovr_key <$> at_or ∅ (fa_overrides acc) g !! f
  | _ => None
  end.

(** Uploads are new versions of slots in [S]; what they replace is referenced. *)
Record acc_keys (acc : FlushAcc) (S : Slot → Prop) : Prop := {
  ak_nodup : NoDup (fa_uploads acc).*1;
  ak_new : ∀ k, k ∈ (fa_uploads acc).*1 → ∃ s, S s ∧ slot_ok s ∧ k = slot_key s nv;
  ak_replaced : ∀ k, k ∈ fa_replaced acc → ∃ s, references m s k ∧ acc_ref acc s = Some (slot_key s nv)
}.

Definition of_groups (done : list Z) (s : Slot) : Prop :=
  match s with PageGroup g | OverrideFrame g _ => g ∈ done | _ => False end.

(** No vector is longer than the vector of keys. *)
Record acc_lengths (acc : FlushAcc) : Prop := {
  al_keys : (length (page_group_keys m) ≤ length (fa_keys acc))%nat;
  al_frames : (length (fa_frames acc) ≤ length (fa_keys acc))%nat;
  al_overrides : (length (fa_overrides acc) ≤ length (fa_keys acc))%nat
}.

Record acc_inv (done : list Z) (acc : FlushAcc) : Prop := {
  ai_groups : ∀ gid, 0 ≤ gid → group_result acc done gid;
  ai_keys : acc_keys acc (of_groups done);
  ai_lengths : acc_lengths acc
}.

(** A step for group [gid] leaves the other groups alone. *)
Record acc_step (gid : Z) (acc acc' : FlushAcc) : Prop := {
  as_key : ∀ g, g ≠ gid → at_or ""%string (fa_keys acc') g = at_or ""%string (fa_keys acc) g;
  as_table : ∀ g, g ≠ gid → at_or [] (fa_frames acc') g = at_or [] (fa_frames acc) g;
  as_overrides : ∀ g, g ≠ gid → at_or ∅ (fa_overrides acc') g = at_or ∅ (fa_overrides acc) g;
  as_full : ∀ g, g ≠ gid → g ∈ fa_full acc' ↔ g ∈ fa_full acc;
  as_uploads : ∀ x, x ∈ fa_uploads acc → x ∈ fa_uploads acc'
}.

Lemma acc_step_refl gid acc : acc_step gid acc acc.
Proof. by split. Qed.

Lemma acc_step_trans gid a1 a2 a3 : acc_step gid a1 a2 → acc_step gid a2 a3 → acc_step gid a1 a3.
Proof.
  intros [K1 T1 O1 F1 U1] [K2 T2 O2 F2 U2].
  split; intros g Hg; [by rewrite K2, K1|by rewrite T2, T1|by rewrite O2, O1|by rewrite F2, F1|auto].
Qed.

Lemma frames_result_step acc acc' gid g frames :
  g ≠ gid → acc_step gid acc acc' → frames_result acc g frames → frames_result acc' g frames.
Proof.
  intros Hne [Hk Ht Ho _ Hu] [? ? ? Hnew]. split; [by rewrite Hk|by rewrite Ht|by rewrite Ho|].
  intros f (data & dirty & e & ? & ? & ?)%Hnew. exists data, dirty, e. rewrite Ho by done. auto.
Qed.

Lemma group_result_step acc acc' dn gid g :
  g ≠ gid → acc_step gid acc acc' → group_result acc dn g → group_result acc' (dn ++ [gid]) g.
Proof.
  intros Hne Hs Hr. assert (g ∈ dn ++ [gid] ↔ g ∈ dn) as Hin by set_solver. unfold group_result. rewrite Hin.
  destruct Hr as [[[Hf Hk Ho (pages & data & ft & ? & ? & Hu & Ht)] Hd]|(Hf & frames & Hfr & ? & ?)]; [left; split; [|done]|right].
  - destruct Hs as [K1 T1 O1 F1 U1]. split; [by apply F1|by rewrite K1|by rewrite O1|]. exists pages, data, ft. rewrite T1 by done. auto.
  - split; [by rewrite (as_full _ _ _ Hs)|]. exists frames. split; [by eapply frames_result_step|by rewrite Hin].
Qed.

Lemma slot_key_nonempty s v : slot_key s v ≠ ""%string.
Proof. by destruct s. Qed.

Context (Hg : geometry m) (Hok : cache_ok c) (Hps : page_size c = Manifest.page_size m).
Context (Hst : staged_ok staged (Manifest.page_size m)) (Hnv : is_u64 nv).

Lemma acc_keys_weaken acc (S S' : Slot → Prop) : acc_keys acc S → (∀ s, S s → S' s) → acc_keys acc S'.
Proof. intros [? Hn ?] Himp. split; [done| |done]. intros k (s & ? & ? & ?)%Hn. exists s. auto. Qed.

(** A new slot's object is added to the uploads. *)
Lemma upload_keys l (S : Slot → Prop) s d :
  NoDup l.*1 → (∀ k, k ∈ l.*1 → ∃ s, S s ∧ slot_ok s ∧ k = slot_key s nv) → ¬ S s → slot_ok s →
  NoDup (l ++ [(slot_key s nv, d)]).*1 ∧
  ∀ k, k ∈ (l ++ [(slot_key s nv, d)] : list (string * bytes)).*1 → ∃ s', (S s' ∨ s' = s) ∧ slot_ok s' ∧ k = slot_key s' nv.
Proof.
  intros Hnd Hn Hs Hsok. rewrite fmap_app. cbn [fmap list_fmap fst]. split.
  - apply NoDup_app. split_and!; [done| |apply NoDup_singleton].
    intros k (s' & Hs' & Hok' & ->)%Hn Heq%list_elem_of_singleton.
    apply (proj2 (slot_key_spec s' s nv nv Hok' Hsok Hnv Hnv)) in Heq as [-> _]. done.
  - intros k [(s' & ? & ? & ?)%Hn| ->%list_elem_of_singleton]%elem_of_app; [exists s'; auto|exists s; auto].
Qed.

Lemma add_override_overrides gid f k d acc g :
  0 ≤ gid → at_or ∅ (fa_overrides (add_override gid f k d acc)) g =
    if decide (gid = g) then <[f := {| ovr_key := k; ovr_entry :=
      {| fe_offset := 0; fe_len := wrap32 (Z.of_nat (length d)) |} |}]> (at_or ∅ (fa_overrides acc) gid)
    else at_or ∅ (fa_overrides acc) g.
Proof. intros Hgid. unfold add_override. cbn. by apply at_or_set_at. Qed.

Lemma add_override_step gid f k d acc : 0 ≤ gid → acc_step gid acc (add_override gid f k d acc).
Proof.
  intros Hgid. split; try done.
  - intros g Hne. rewrite add_override_overrides by done. by rewrite decide_False.
  - intros x Hx. cbn. apply elem_of_app. by left.
Qed.

Lemma add_override_keys acc (S : Slot → Prop) gid f d :
  0 ≤ gid → slot_ok (OverrideFrame gid f) → ¬ S (OverrideFrame gid f) → acc_keys acc S →
  at_or ∅ (fa_overrides acc) gid !! f = at_or ∅ (subframe_overrides m) gid !! f →
  acc_keys (add_override gid f (override_frame_key gid f nv) d acc) (λ s, S s ∨ s = OverrideFrame gid f).
Proof.
  intros Hgid Hs HS [Hnd Hn Hr] Hsame.
  destruct (upload_keys (fa_uploads acc) S (OverrideFrame gid f) d Hnd Hn HS Hs) as [Hnd' Hn'].
  split; [exact Hnd'|exact Hn'|].
  assert (∀ s, acc_ref acc s = Some (slot_key s nv) →
    acc_ref (add_override gid f (override_frame_key gid f nv) d acc) s = Some (slot_key s nv)) as Hkeep.
  { intros [g|i|i|g f'] Href; try done. cbn [acc_ref] in *. rewrite add_override_overrides by done.
    destruct (decide (gid = g)) as [<-|]; [|done]. destruct (decide (f = f')) as [<-|];
      [by rewrite lookup_insert_eq|by rewrite lookup_insert_ne]. }
  intros k Hk. unfold add_override in Hk. cbn in Hk. change (default ∅ (at_index (fa_overrides acc) gid))
    with (at_or ∅ (fa_overrides acc) gid) in Hk. rewrite Hsame in Hk.
  assert (k ∈ fa_replaced acc ∨ ∃ ovr, override_of m gid f = Some ovr ∧ k = ovr_key ovr) as [Hin|(ovr & Ho & ->)].
  { rewrite override_of_or. destruct (at_or ∅ (subframe_overrides m) gid !! f) as [ovr|]; [|by left].
    apply elem_of_app in Hk as [?| ->%list_elem_of_singleton]; [by left|right; eauto]. }
  - destruct (Hr k Hin) as (s & ? & ?). exists s. auto.
  - exists (OverrideFrame gid f). split; [by exists ovr|]. cbn [acc_ref]. rewrite add_override_overrides by done.
    rewrite decide_True by done. by rewrite lookup_insert_eq.
Qed.

Lemma add_full_step gid k d ft acc : 0 ≤ gid → acc_step gid acc (add_full gid k d ft acc).
Proof.
  intros Hgid. split; try done.
  - intros g Hne. unfold add_full. cbn. rewrite at_or_set_at by done. by rewrite decide_False.
  - intros g Hne. unfold add_full. destruct ft as [ft|]; [|done]. cbn. rewrite at_or_set_at by done. by rewrite decide_False.
  - intros g Hne. cbn. rewrite elem_of_app, list_elem_of_singleton. naive_solver.
  - intros x Hx. cbn. apply elem_of_app. by left.
Qed.

Lemma add_full_keys acc (S : Slot → Prop) gid d ft :
  0 ≤ gid → slot_ok (PageGroup gid) → ¬ S (PageGroup gid) → acc_keys acc S →
  at_or ""%string (fa_keys acc) gid = at_or ""%string (page_group_keys m) gid →
  acc_keys (add_full gid (page_group_key gid nv) d ft acc) (λ s, S s ∨ s = PageGroup gid).
Proof.
  intros Hgid Hs HS [Hnd Hn Hr] Hsame.
  destruct (upload_keys (fa_uploads acc) S (PageGroup gid) d Hnd Hn HS Hs) as [Hnd' Hn'].
  split; [exact Hnd'|exact Hn'|].
  assert (∀ g, acc_ref (add_full gid (page_group_key gid nv) d ft acc) (PageGroup g) =
    if decide (gid = g) then Some (page_group_key gid nv) else acc_ref acc (PageGroup g)) as Hnew.
  { intros g. cbn. rewrite !key_at_or. cbn zeta. rewrite at_or_set_at by done.
    destruct (decide (gid = g)) as [<-|]; [|done]. by rewrite decide_False by apply (slot_key_nonempty (PageGroup gid)). }
  intros k Hk. cbn in Hk. rewrite key_at_or in Hk. cbn zeta in Hk. rewrite Hsame in Hk.
  assert (k ∈ fa_replaced acc ∨ group_key m gid = Some k) as [Hin|Ho].
  { unfold group_key. rewrite key_at_or. cbn zeta. case_decide; [by left|].
    apply elem_of_app in Hk as [?| ->%list_elem_of_singleton]; [by left|by right]. }
  - destruct (Hr k Hin) as (s & ? & Href). exists s. split; [done|]. destruct s as [g|i|i|g f]; try done.
    rewrite Hnew. by destruct (decide (gid = g)) as [<-|].
  - exists (PageGroup gid). split; [done|]. rewrite Hnew. by rewrite decide_True.
Qed.

(* ------------------------------------------------------------------ *)
(** * Override frames *)

Lemma frames_result_nil acc gid : frames_result acc gid [] ↔
  at_or ""%string (fa_keys acc) gid = at_or ""%string (page_group_keys m) gid ∧
  at_or [] (fa_frames acc) gid = at_or [] (frame_tables m) gid ∧
  at_or ∅ (fa_overrides acc) gid = at_or ∅ (subframe_overrides m) gid.
Proof.
  split.
  - intros [Hk Ht Ho _]. split_and!; [done|done|]. apply map_eq. intros f. apply Ho, not_elem_of_nil.
  - intros (Hk & Ht & Ho). split; [done|done|by rewrite Ho|]. by intros f ?%not_elem_of_nil.
Qed.

(** The invariant of the loop over the dirty frames of one group. *)
Record frames_inv (acc0 : FlushAcc) (dn : list Z) (gid : Z) (fdone : list Z) (acc : FlushAcc) : Prop := {
  fi_step : acc_step gid acc0 acc;
  fi_full : fa_full acc = fa_full acc0;
  fi_lengths : acc_lengths acc;
  fi_result : frames_result acc gid fdone;
  fi_keys : acc_keys acc (λ s, of_groups dn s ∨ ∃ f, f ∈ fdone ∧ s = OverrideFrame gid f)
}.

Lemma flush_frame_run acc0 dn gid existing fdone f acc :
  slot_ok (OverrideFrame gid f) → gid ∉ dn → f ∉ fdone → gid < Z.of_nat (length (page_group_keys m)) →
  Forall (λ ip, 0 ≤ ip.2 ∧ base_supplies key m o c staged gid existing ip) (frame_slots m gid f) →
  frames_inv acc0 dn gid fdone acc →
  run_reads (B:=B) o c (flush_frame rnd key m staged nv gid existing acc f) (frames_inv acc0 dn gid (fdone ++ [f])).
Proof.
  intros Hs Hgid Hf Hlt Hall [Hstep Hfull Hlen Hres Hkeys]. assert (0 ≤ gid ∧ 0 ≤ f) as [Hg0 Hf0] by (cbn in Hs; unfold is_u64 in Hs; lia).
  unfold flush_frame. rewrite frame_positions_slots by done.
  eapply run_reads_bind; [by apply frame_pages_run|]. intros pages Hpages.
  set (k := override_frame_key gid f nv).
  assert (Z.of_nat (length (aad_override_frame gid f)) < 2 ^ 8) as Haad
    by (unfold aad_override_frame; cbn [length]; rewrite length_app, !length_le_bytes; lia).
  destruct (override_run rnd key pages (Manifest.page_size m) k 0 (aad_override_frame gid f) Haad) as [data Hdata].
  eapply run_reads_bind; [rewrite Hdata; by apply run_reads_pure, eq_refl|]. intros ? <-. apply run_reads_ret.
  pose proof (add_override_step gid f k data acc Hg0) as Hadd. split.
  - by eapply acc_step_trans.
  - done.
  - destruct Hlen. split; cbn; rewrite ?length_set_at; lia.
  - destruct Hres as [Hk Ht Ho Hnew]. split; [done|done| |].
    + intros f' Hf'. assert (f' ∉ fdone ∧ f ≠ f') as [? ?] by set_solver. rewrite add_override_overrides by done.
      rewrite decide_True by done. rewrite lookup_insert_ne by done. by apply Ho.
    + intros f' Hf'. rewrite add_override_overrides by done. rewrite decide_True by done.
      destruct (decide (f = f')) as [<-|Hne].
      * exists data, pages. eexists. rewrite lookup_insert_eq. split_and!; [done| |done|done].
        cbn. apply elem_of_app. right. by apply list_elem_of_singleton.
      * apply elem_of_app in Hf' as [Hf'|Hf'%list_elem_of_singleton]; [|done].
        destruct (Hnew f' Hf') as (d & dirty & e & Hl & Hu & ?). exists d, dirty, e. rewrite lookup_insert_ne by done.
        split_and!; [done| |naive_solver..]. cbn. apply elem_of_app. by left.
  - eapply acc_keys_weaken; [apply add_override_keys; try done|].
    + intros [?|(f' & ? & [= <-])]; done.
    + by apply (fs_kept _ _ _ Hres).
    + intros s [[?|(f' & ? & ->)]| ->]; [by left|right|right]; eexists; split; try done; set_solver.
Qed.

Lemma frames_slot_ok threshold' gid frames f :
  slot_ok (PageGroup gid) → override_frames m staged threshold' gid = Some frames → f ∈ frames →
  slot_ok (OverrideFrame gid f).
Proof.
  intros Hs Hfr Hf. assert (0 ≤ gid) as Hg0 by (cbn in Hs; unfold is_u64 in Hs; lia).
  destruct (override_frames_spec m staged Hg _ _ _ Hg0 Hfr) as (Hft & _ & Hb & _).
  destruct (Hb f Hf) as [Hf0 Hlt]. pose proof (ge_len _ Hg gid). split; [done|]. unfold is_u64.
  assert (0 < Manifest.sub_pages_per_frame m)
    by (destruct (group_frames m gid) eqn:Hft'; [by eapply group_frames_spf|done]). nia.
Qed.

Lemma flush_overrides_run dn gid frames acc :
  slot_ok (PageGroup gid) → gid ∉ dn → override_frames m staged threshold gid = Some frames →
  group_available key m o c staged gid (Some frames) → acc_inv dn acc →
  run_reads (B:=B) o c (flush_overrides rnd key m staged nv gid frames acc) (acc_inv (dn ++ [gid])).
Proof.
  intros Hs Hgid Hfr Hav [Hgroups Hkeys Hlen]. assert (0 ≤ gid) as Hg0 by (cbn in Hs; unfold is_u64 in Hs; lia).
  destruct (override_frames_spec m staged Hg _ _ _ Hg0 Hfr) as (Hft & Hnd & Hb & _).
  destruct (Hgroups gid Hg0) as [[_ ?]|(Hfull & frames0 & Hres & _ & Hnil)]; [done|].
  rewrite Hnil in Hres by done. clear frames0 Hnil.
  assert (gid < Z.of_nat (length (page_group_keys m))) as Hlt.
  { pose proof (proj1 (validate_field_ranges_Ok _ _) (wf_valid _ (ge_wf _ Hg))) as (_ & _ & _ & Hfl & _).
    unfold group_frames in Hft. destruct (at_index (frame_tables m) gid) as [t|] eqn:Hat; [|done].
    apply at_index_Some in Hat as [_ Hat%lookup_lt_Some]. lia. }
  unfold flush_overrides. apply run_reads_assoc.
  eapply run_reads_bind; [apply (existing_run key m o c staged Hg Hok gid frames); try done; by intros f [? _]%Hb|].
  intros existing Hslots. set (acc0 := acc <| fa_overrides ::= grow_to (Z.to_nat gid + 1) ∅ |>).
  assert (∀ g, at_or ∅ (fa_overrides acc0) g = at_or ∅ (fa_overrides acc) g) as Hgrow by (intros g; apply at_or_grow).
  eapply run_reads_impl; [apply (run_reads_fold _ _ _ _ (frames_inv acc dn gid))|].
  - split.
    + split; done.
    + done.
    + destruct Hlen. split; cbn; rewrite ?length_grow_to; lia.
    + apply frames_result_nil. apply frames_result_nil in Hres as (? & ? & ?). by rewrite Hgrow.
    + destruct Hkeys as [? Hn Hr]. split; [done| |].
      * intros k (s & ? & ? & ?)%Hn. exists s. auto.
      * intros k (s & Href & ?)%Hr. exists s. split; [done|]. destruct s; try done. cbn [acc_ref] in *. by rewrite Hgrow.
  - intros fd f rest acc' -> Hinv. apply flush_frame_run; try done.
    + eapply frames_slot_ok; [done|exact Hfr|]. set_solver.
    + apply NoDup_app in Hnd as (_ & Hd & _). intros Hin. apply (Hd f Hin). by left.
    + apply Forall_forall. intros ip. apply Hslots. set_solver.
  - intros acc' [Hstep Hfull' Hlen' Hres' Hkeys']. split; [| |done].
    + intros g Hg'. destruct (decide (g = gid)) as [->|Hne]; [|by eapply group_result_step; [..|apply Hgroups]].
      right. rewrite Hfull'. split; [done|]. exists frames. split; [done|]. split; [done|]. set_solver.
    + eapply acc_keys_weaken; [done|]. intros s [Hs'|(f & _ & ->)]; [|cbn; set_solver].
      destruct s; cbn in *; set_solver.
Qed.

(* ------------------------------------------------------------------ *)
(** * Whole groups *)

Lemma sources_run gid :
  0 ≤ gid → group_available key m o c staged gid None →
  run_reads (B:=B) o c (group_sources key m staged gid)
    (λ r, ∃ pages, r = Some <$> pages ∧ sourced key m o c staged gid pages).
Proof. intros Hgid Hav w Hc Ho. rewrite <-Hc, <-Ho in *. by apply group_sources_run. Qed.

Lemma flush_full_run dn gid acc :
  slot_ok (PageGroup gid) → gid ∉ dn → group_available key m o c staged gid None → acc_inv dn acc →
  run_reads (B:=B) o c (flush_full rnd key m staged nv gid acc) (acc_inv (dn ++ [gid])).
Proof.
  intros Hs Hgid Hav [Hgroups Hkeys Hlen]. assert (0 ≤ gid) as Hg0 by (cbn in Hs; unfold is_u64 in Hs; lia).
  destruct (Hgroups gid Hg0) as [[_ ?]|(Hfull & frames0 & Hres & _ & Hnil)]; [done|].
  rewrite Hnil in Hres by done. clear frames0 Hnil. apply frames_result_nil in Hres as (Hk & Ht & Ho).
  unfold flush_full. set (k := page_group_key gid nv).
  eapply run_reads_bind; [by apply sources_run|].
  intros ? (pages & -> & Hsrc).
  destruct (group_run rnd key m gid k pages) as (data & ft & Henc & Hft); [done|apply Hsrc|apply Hsrc|].
  rewrite Henc. eapply run_reads_bind; [by apply run_reads_pure, eq_refl|]. intros ? <-. apply run_reads_ret. split.
  - intros g Hg'. destruct (decide (g = gid)) as [->|Hne].
    2: { eapply group_result_step; [done|by apply add_full_step|by apply Hgroups]. }
    left. split; [|set_solver]. split.
    + cbn. set_solver.
    + cbn. rewrite at_or_set_at by done. by rewrite decide_True.
    + done.
    + exists pages, data, ft. split; [done|]. split; [done|]. split; [cbn; set_solver|].
      unfold add_full. destruct ft as [ft|]; cbn; [rewrite at_or_set_at by done; by rewrite decide_True|done].
  - eapply acc_keys_weaken; [apply (add_full_keys acc (of_groups dn) gid data ft); try done|]. intros s [Hs'| ->]; [destruct s; cbn in *; set_solver|cbn; set_solver].
  - destruct Hlen, ft; split; cbn; rewrite ?length_set_at; lia.
Qed.

Lemma flush_group_run dn gid acc :
  slot_ok (PageGroup gid) → gid ∉ dn →
  group_available key m o c staged gid (override_frames m staged threshold gid) → acc_inv dn acc →
  run_reads (B:=B) o c (flush_group rnd key m staged threshold nv acc gid) (acc_inv (dn ++ [gid])).
Proof.
  intros Hs Hgid Hav Hinv. unfold flush_group. destruct (override_frames _ _ _ _) as [frames|] eqn:Hfr;
    [by apply flush_overrides_run|by apply flush_full_run].
Qed.

Definition acc_init : FlushAcc := {|
  fa_uploads := []; fa_keys := page_group_keys m; fa_frames := frame_tables m;
  fa_overrides := subframe_overrides m; fa_replaced := []; fa_full := [] |}.

Lemma flush_groups_run (gids : list Z) :
  NoDup gids → Forall (λ gid, slot_ok (PageGroup gid) ∧
    group_available key m o c staged gid (override_frames m staged threshold gid)) gids →
  run_reads (B:=B) o c (fold_prog (flush_group rnd key m staged threshold nv) acc_init gids) (acc_inv gids).
Proof.
  intros Hnd Hall. pose proof (wf_valid _ (ge_wf _ Hg)) as Hv. apply run_reads_fold.
  - split.
    + intros gid Hgid. right. split; [apply not_elem_of_nil|]. exists []. split; [by apply frames_result_nil|].
      split; [|done]. by intros ?%not_elem_of_nil.
    + split; [constructor|intros k ?%not_elem_of_nil; done..].
    + apply validate_field_ranges_Ok in Hv as (_ & _ & _ & ? & ? & _). split; cbn; lia.
  - intros dn gid rest acc -> Hinv. rewrite Forall_app, Forall_cons in Hall. destruct Hall as (_ & [? ?] & _).
    apply flush_group_run; try done. apply NoDup_app in Hnd as (_ & Hd & _). intros Hin. apply (Hd gid Hin). by left.
Qed.

End loop.
