(* ===== verification/FlushBundles.v ===== *)
(** The bundles of a flush (Flush.v): collecting their pages only reads the
    cache, and a chunk's key is the old one or a new version of its slot. *)

From S2P Require Import Prelude Keys Staging Manifest Backend ColdRead.
From S2P Require Import CacheTracking LocalState Compress Encoding File DiskCache CacheView.
From S2P Require Import Vfs Compact Flush FlushPages FlushGroups.

Section cache_readers.
Context `{HashIter} `{Compression} `{Aead K}.
Context (c : DiskCache K) (Hok : cache_ok c).

(** A program that only reads the cache and succeeds. *)
Definition reader {A} (x : M K A) (P : A → Prop) : Prop := ∃ a, x c = (Ok a, c) ∧ P a.

Lemma reader_ret {A} (a : A) (P : A → Prop) : P a → reader (mret a) P.
Proof. intros Ha. by exists a. Qed.

Lemma reader_gets {A} (f : DiskCache K → A) : reader (gets f) (λ a, a = f c).
Proof. by exists (f c). Qed.

Lemma reader_bind {A C} (x : M K A) (f : A → M K C) (P : A → Prop) (Q : C → Prop) :
  reader x P → (∀ a, P a → reader (f a) Q) → reader (x ≫= f) Q.
Proof.
  intros (a & Hx & Ha) Hf. destruct (Hf a Ha) as (b & Hb & ?). exists b. unfold mbind, M_bind. by rewrite Hx.
Qed.

Lemma reader_impl {A} (x : M K A) (P Q : A → Prop) : reader x P → (∀ a, P a → Q a) → reader x Q.
Proof. intros (a & ? & ?) ?. exists a. auto. Qed.

Lemma reader_fold {A C} (f : A → C → M K A) (l : list C) (P : A → Prop) acc :
  P acc → (∀ acc x, x ∈ l → P acc → reader (f acc x) P) → reader (fold_m f acc l) P.
Proof.
  revert acc. induction l as [|x l IH]; intros acc Hacc Hf; [by apply reader_ret|]. cbn [fold_m].
  eapply reader_bind; [by apply Hf; [left|]|]. intros a Ha. apply IH; [done|]. intros a' y Hy. apply Hf. by right.
Qed.

Lemma M_bind_no_panic {A C} (x : M K A) (f : A → M K C) (c' : DiskCache K) :
  (x c').2 = c' → (x c').1 ≠ Panic → (∀ a, (f a c').1 ≠ Panic) → ((x ≫= f) c').1 ≠ Panic.
Proof. unfold mbind, M_bind. destruct (x c') as [[a|e|] c2]; cbn; intros -> ? Hf; [apply Hf|done|done]. Qed.

Lemma read_exact_at_no_panic n off : (read_exact_at n off c).1 ≠ Panic.
Proof.
  unfold read_exact_at. destruct (n =? 0); [done|]. unfold mbind, M_bind, pop_fault. rewrite (ok_quiet _ Hok).
  destruct (2 ^ 63 <=? off); [done|]. cbn. by destruct (file_read_at _ _ _).
Qed.

Lemma ok_or_no_panic {A} (x : option A) e : ok_or x e ≠ @Panic io_kind A.
Proof. by destruct x. Qed.

Lemma lift_no_panic {A} (x : io A) : x ≠ Panic → (lift x c).1 ≠ Panic.
Proof. done. Qed.

Ltac no_panic_step := apply M_bind_no_panic;
  [first [done | by apply read_exact_at_state, ok_quiet] |
   first [done | by apply read_exact_at_no_panic | apply lift_no_panic] | intros ?].

Lemma read_page_no_panic p buf : (read_page p buf c).1 ≠ Panic.
Proof.
  unfold read_page. no_panic_step; [apply guard_err_no_panic|]. no_panic_step. case_match.
  - unfold read_page_compressed. no_panic_step. no_panic_step; [apply ok_or_no_panic|]. no_panic_step. no_panic_step.
    no_panic_step; [by case_match; [apply decrypt_no_panic|]|].
    no_panic_step. no_panic_step; [apply decompress_capped_no_panic|]. by case_match.
  - do 2 no_panic_step. case_match; [done|]. no_panic_step. case_match; [|apply read_exact_at_no_panic].
    no_panic_step. no_panic_step; [apply decrypt_no_panic|done].
Qed.

Lemma reader_try p buf : reader (try_io (read_page p buf)) (λ _, True).
Proof.
  pose proof (read_page_no_panic p buf) as Hp. pose proof (read_page_state p buf c (ok_quiet _ Hok)) as Hs.
  unfold reader, try_io. destruct (read_page p buf c) as [[a|e|] c']; cbn in *; subst; [eauto|eauto|done].
Qed.

Lemma reader_quietly ps p : reader (read_quietly ps p) (λ _, True).
Proof. unfold read_quietly. eapply reader_bind; [apply reader_try|]. intros a _. by apply reader_ret. Qed.

Lemma reader_staged_or staged p (read : M K (option bytes)) :
  reader read (λ _, True) → reader (staged_or staged p read) (λ _, True).
Proof. intros Hr. unfold staged_or. destruct (staged !! p); [by apply reader_ret|done]. Qed.

Lemma collect_interior_reader m staged : reader (collect_interior m staged) (λ _, True).
Proof.
  unfold collect_interior. eapply reader_bind; [apply reader_gets|]. intros known ->.
  apply reader_fold; [done|]. intros acc p _ _. destruct (page_count m <=? p); [by apply reader_ret|].
  eapply reader_bind; [apply reader_staged_or, reader_quietly|]. intros d _. by apply reader_ret.
Qed.

Lemma collect_leaf_reader m staged read acc p :
  reader (read p) (λ _, True) → reader (collect_leaf m staged read acc p) (λ _, True).
Proof.
  intros Hr. unfold collect_leaf. destruct (_ || _); [by apply reader_ret|].
  eapply reader_bind; [by apply reader_staged_or|]. intros d _. by apply reader_ret.
Qed.

Lemma collect_index_leaves_reader m staged dirty :
  geometry m → page_size c = Manifest.page_size m → (∀ gid, gid ∈ dirty → 0 ≤ gid) →
  reader (collect_index_leaves m staged dirty) (λ _, True).
Proof.
  intros Hg Hps Hdirty. unfold collect_index_leaves. rewrite <-Hps.
  eapply (reader_bind _ _ (λ _, True)).
  - apply reader_fold; [done|]. intros acc nums (gid & -> & Hgid%elem_of_hset_iter)%list_elem_of_fmap _.
    apply reader_fold; [done|]. intros acc' p Hp _. apply collect_leaf_reader.
    exists (view c p). split; [|done]. apply read_present_run; [done| |by apply zeros_size, ok_ps].
    apply (ge_pages _ Hg gid p); [by apply Hdirty|done].
  - intros acc _. eapply reader_bind; [apply reader_gets|]. intros t ->.
    apply reader_fold; [done|]. intros acc' nums _ _. apply reader_fold; [done|]. intros acc2 p _ _.
    apply collect_leaf_reader, reader_quietly.
Qed.
End cache_readers.

(* ------------------------------------------------------------------ *)
(** * The chunks *)

Section bundles.
Context `{HashIter} `{Compression} `{Aead K} (rnd : string → Z → bytes) `{!FlushLaws rnd}.
Variable key : option K.
Context (slot_of : Z → Slot) (aad_of : Z → bytes) (nv : Z) (old : gmap Z string).
Context (Hslot : ∀ i, is_u32 i → slot_ok (slot_of i)) (Hinj : ∀ i j, slot_of i = slot_of j → i = j) (Hnv : is_u64 nv).
Context (Haad : ∀ i, Z.of_nat (length (aad_of i)) < 2 ^ 8).

Record bundle_result (acc : BundleAcc) : Prop := {
  br_nodup : NoDup acc.1.1.*1;
  br_new : ∀ k, k ∈ acc.1.1.*1 → ∃ i, is_u32 i ∧ k = slot_key (slot_of i) nv;
  br_keys : ∀ i k, acc.1.2 !! i = Some k →
    old !! i = Some k ∨ is_u32 i ∧ k = slot_key (slot_of i) nv ∧ k ∈ acc.1.1.*1;
  br_replaced : ∀ k, k ∈ acc.2 → ∃ i, old !! i = Some k ∧
    (acc.1.2 !! i = Some (slot_key (slot_of i) nv) ∨ acc.1.2 !! i = None)
}.

(** The loop over the chunk ids. *)
Record bundle_inv (dn : list Z) (acc : BundleAcc) : Prop := {
  bi_nodup : NoDup acc.1.1.*1;
  bi_new : ∀ k, k ∈ acc.1.1.*1 → ∃ i, i ∈ dn ∧ is_u32 i ∧ k = slot_key (slot_of i) nv;
  bi_keys : ∀ i k, acc.1.2 !! i = Some k → i ∈ dn ∧
    (old !! i = Some k ∨ is_u32 i ∧ k = slot_key (slot_of i) nv ∧ k ∈ acc.1.1.*1);
  bi_replaced : ∀ k, k ∈ acc.2 → ∃ i, i ∈ dn ∧ old !! i = Some k ∧ acc.1.2 !! i = Some (slot_key (slot_of i) nv)
}.

Lemma bundle_encode_run pages ps k i : ∃ d, encode_interior_bundle pages ps (rnd k 0) (aad_of i) key = Ok d.
Proof.
  unfold encode_interior_bundle. cbn zeta.
  match goal with |- context [compress ?raw] => destruct (compress_run rnd raw) as (z & -> & _) end. cbn [mbind outcome_bind].
  destruct (encrypt_run rnd key k 0 z (aad_of i) (Haad i)) as (e & -> & _). by exists e.
Qed.

Lemma bundle_new dn acc i d rp :
  is_u32 i → i ∉ dn → bundle_inv dn acc →
  (∀ k, k ∈ rp → old !! i = Some k) →
  bundle_inv (dn ++ [i]) (acc.1.1 ++ [(slot_key (slot_of i) nv, d)], <[i := slot_key (slot_of i) nv]> acc.1.2, acc.2 ++ rp).
Proof.
  intros Hi Hdn [Hnd Hn Hk Hr] Hrp. split; cbn [fst snd].
  - rewrite fmap_app. apply NoDup_app. split_and!; [done| |apply NoDup_singleton].
    intros k (j & Hj & Hj32 & ->)%Hn Heq%list_elem_of_singleton.
    apply (proj2 (slot_key_spec _ _ nv nv (Hslot _ Hj32) (Hslot _ Hi) Hnv Hnv)) in Heq as [->%Hinj _]. done.
  - intros k. rewrite fmap_app. intros [(j & ? & ? & ?)%Hn| ->%list_elem_of_singleton]%elem_of_app; [exists j|exists i]; set_solver.
  - intros j k Hj. destruct (decide (i = j)) as [<-|Hne].
    + rewrite lookup_insert_eq in Hj. injection Hj as <-. split; [set_solver|right]. split_and!; [done|done|].
      rewrite fmap_app. set_solver.
    + rewrite lookup_insert_ne in Hj by done. apply Hk in Hj as [? [?|(? & ? & ?)]]; (split; [set_solver|]); [by left|right].
      rewrite fmap_app. set_solver.
  - intros k [(j & ? & ? & ?)%Hr|Hk'%Hrp]%elem_of_app.
    + exists j. rewrite lookup_insert_ne by (by intros ->). split; [apply elem_of_app; by left|done].
    + exists i. rewrite lookup_insert_eq. split; [apply elem_of_app; right; by left|done].
Qed.

Lemma bundle_kept dn uploads keys replaced i k :
  i ∉ dn → bundle_inv dn (uploads, keys, replaced) → old !! i = Some k →
  bundle_inv (dn ++ [i]) (uploads, <[i := k]> keys, replaced).
Proof.
  intros Hdn [Hnd Hn Hk Hr] Hold. cbn [fst snd] in *. split; cbn [fst snd].
  - done.
  - intros k' (j & ? & ? & ?)%Hn. exists j. split; [apply elem_of_app; by left|done].
  - intros j k' Hj. destruct (decide (i = j)) as [<-|Hne].
    + rewrite lookup_insert_eq in Hj. injection Hj as <-. split; [set_solver|by left].
    + rewrite lookup_insert_ne in Hj by done. apply Hk in Hj as [? ?]. split; [set_solver|done].
  - intros k' (j & ? & ? & ?)%Hr. exists j. rewrite lookup_insert_ne by (by intros ->). split; [apply elem_of_app; by left|done].
Qed.

Lemma bundle_step_run ps pages dirty dn acc i :
  is_u32 i → i ∉ dn → bundle_inv dn acc →
  ∃ acc', bundle_step rnd key (λ i v, slot_key (slot_of i) v) aad_of ps nv pages dirty old acc i = Ok acc' ∧
    bundle_inv (dn ++ [i]) acc'.
Proof.
  intros Hi Hdn Hinv. destruct acc as [[uploads keys] replaced].
  destruct (bundle_encode_run (chunk_pages ps pages i) ps (slot_key (slot_of i) nv) i) as [d Hd].
  unfold bundle_step. rewrite Hd. destruct (old !! i) as [ok|] eqn:Hold; [case_decide|]; eexists;
    (split; [reflexivity|]).
  - apply (bundle_new dn (uploads, keys, replaced)); try done. by intros k ->%list_elem_of_singleton.
  - by apply bundle_kept.
  - rewrite <-(app_nil_r replaced). apply (bundle_new dn (uploads, keys, replaced)); try done.
    by intros k ?%not_elem_of_nil.
Qed.

Lemma bundle_steps ps pages dirty l dn acc :
  NoDup (dn ++ l) → Forall is_u32 l → bundle_inv dn acc →
  ∃ acc', fold_io (bundle_step rnd key (λ i v, slot_key (slot_of i) v) aad_of ps nv pages dirty old) acc l = Ok acc' ∧
    bundle_inv (dn ++ l) acc'.
Proof.
  revert dn acc. induction l as [|i l IH]; intros dn acc Hnd Hl Hinv.
  { exists acc. rewrite app_nil_r. done. }
  apply Forall_cons in Hl as [Hi Hl].
  assert (i ∉ dn) as Hdn by (apply NoDup_app in Hnd as (_ & Hd & _); intros Hin; apply (Hd i Hin); by left).
  cbn [fold_io]. destruct (bundle_step_run ps pages dirty dn acc i Hi Hdn Hinv) as (acc' & -> & Hinv').
  rewrite cons_middle, app_assoc in Hnd |- *. by apply IH.
Qed.

Lemma build_bundles_run ps pages dirty :
  ∃ acc, build_bundles rnd key (λ i v, slot_key (slot_of i) v) aad_of ps nv pages dirty old = Ok acc ∧ bundle_result acc.
Proof.
  destruct (bundle_steps ps pages dirty (hset_iter (chunk_ids ps pages)) [] ([], ∅, [])) as (acc & Hacc & Hinv).
  - apply NoDup_hset_iter.
  - apply Forall_forall. intros i (p & -> & _)%elem_of_hset_iter%elem_of_map. apply Z.mod_pos_bound. lia.
  - split; cbn [fst snd]; [constructor|intros ? []%not_elem_of_nil|by intros ?? ?%lookup_empty_Some|intros ? []%not_elem_of_nil].
  - unfold build_bundles. rewrite Hacc. destruct acc as [[uploads keys] replaced]. cbn [mbind outcome_bind].
    eexists. split; [reflexivity|]. destruct Hinv as [Hnd Hn Hk Hr]. cbn [fst snd app] in *. split; cbn [fst snd].
    + done.
    + intros k (i & _ & ? & ?)%Hn. by exists i.
    + intros i k [_ ?]%Hk. done.
    + intros k [(i & _ & ? & ?)%Hr|Hin]%elem_of_app; [exists i; auto|].
      apply list_elem_of_fmap in Hin as ([i k'] & -> & [Hni Hin%elem_of_hiter]%list_elem_of_filter). exists i. cbn in *.
      split; [done|]. right. destruct (keys !! i) as [k2|] eqn:Hk2; [|done].
      apply Hk in Hk2 as [Hin2%elem_of_hset_iter _]. done.
Qed.

(** The keys as they were. *)
Lemma bundle_result_id : bundle_result ([], old, []).
Proof. split; cbn [fst snd]; [constructor|intros ? []%not_elem_of_nil|by left|intros ? []%not_elem_of_nil]. Qed.
End bundles.

Section flush_bundles.
Context `{HashIter} `{Compression} `{Aead K} `{StorageLaws B} (rnd : string → Z → bytes) `{!FlushLaws rnd}.
Variable key : option K.

Lemma flush_bundles_run is_local m staged dirty nv o c :
  geometry m → cache_ok c → page_size c = Manifest.page_size m → (∀ gid, gid ∈ dirty → 0 ≤ gid) → is_u64 nv →
  run_reads (B:=B) o c (flush_bundles rnd key is_local m staged dirty nv)
    (λ r, bundle_result InteriorBundle nv (interior_chunk_keys m) r.1 ∧ bundle_result IndexBundle nv (index_chunk_keys m) r.2).
Proof.
  intros Hg Hok Hps Hdirty Hnv. unfold flush_bundles. destruct is_local.
  { apply run_reads_ret. split; apply bundle_result_id. }
  destruct (collect_interior_reader c Hok m staged) as (interior & Hi & _).
  eapply run_reads_bind; [eapply run_reads_cache; [exact Hi|apply eq_refl]|]. intros ? <-.
  destruct (build_bundles_run rnd key InteriorBundle aad_interior_bundle nv (interior_chunk_keys m)
    ltac:(done) ltac:(by intros ?? [=]) Hnv ltac:(by intros; unfold aad_interior_bundle; cbn [length]; rewrite length_le_bytes)
    (Manifest.page_size m) interior (dirty_chunks m dirty)) as (ib & Hib & Hrib).
  eapply run_reads_bind; [change interior_chunk_key with (λ i v, slot_key (InteriorBundle i) v); rewrite Hib;
    by apply run_reads_pure, eq_refl|]. intros ? <-.
  destruct (collect_index_leaves_reader c Hok m staged dirty Hg Hps Hdirty) as (leaves & Hl & _).
  eapply run_reads_bind; [eapply run_reads_cache; [exact Hl|apply eq_refl]|]. intros ? <-.
  destruct (build_bundles_run rnd key IndexBundle aad_index_bundle nv (index_chunk_keys m)
    ltac:(done) ltac:(by intros ?? [=]) Hnv ltac:(by intros; unfold aad_index_bundle; cbn [length]; rewrite length_le_bytes)
    (Manifest.page_size m) leaves (dirty_chunks m dirty)) as (xb & Hxb & Hrxb).
  eapply run_reads_bind; [change index_chunk_key with (λ i v, slot_key (IndexBundle i) v); rewrite Hxb;
    by apply run_reads_pure, eq_refl|]. intros ? <-. by apply run_reads_ret.
Qed.
End flush_bundles.
