(* ===== verification/FlushManifest.v ===== *)
(** The manifest a flush (Flush.v) publishes: its geometry, what it refers to,
    what it no longer refers to, and the pages a reader finds through it. *)

From S2P Require Import Prelude Keys Staging Manifest Backend ColdRead.
From S2P Require Import CacheTracking LocalState Compress Encoding File DiskCache CacheView.
From S2P Require Import Vfs Compact Flush FlushPages FlushGroups FlushInv FlushBundles.

(* ------------------------------------------------------------------ *)
(** * Rebuilding the index *)

Section rebuilt.
Context `{HashIter}.
Implicit Types m : Manifest.

Lemma build_page_index_shape m :
  ∃ s pi ti, build_page_index m = set_indexes m s pi ti.
Proof. unfold build_page_index. destruct (detected_strategy m); by eexists _, _, _. Qed.

(** A manifest with the same pages, rebuilt, has the same locations. *)
Record same_layout m mu : Prop := {
  sl_pages : Manifest.group_pages mu = Manifest.group_pages m;
  sl_strategy : strategy mu = strategy m;
  sl_count : page_count mu = page_count m;
  sl_size : Manifest.page_size mu = Manifest.page_size m;
  sl_ppg : Manifest.pages_per_group mu = Manifest.pages_per_group m;
  sl_spf : Manifest.sub_pages_per_frame mu = Manifest.sub_pages_per_frame m
}.

Lemma same_layout_detected m mu : same_layout m mu → detected_strategy mu = detected_strategy m.
Proof. intros [Hg Hs _ _ _ _]. unfold detected_strategy. by rewrite Hg, Hs. Qed.

Lemma rebuilt_group_page_nums m mu gid :
  detected_strategy m = strategy m → same_layout m mu → group_page_nums (build_page_index mu) gid = group_page_nums m gid.
Proof.
  intros Hd Hl. pose proof (same_layout_detected _ _ Hl) as Hds. unfold group_page_nums.
  rewrite build_page_index_strategy, build_page_index_group_pages, Hds, Hd. destruct Hl as [-> _ Hc _ Hp _].
  destruct (build_page_index_shape mu) as (s & pi & ti & ->). cbn. by rewrite Hp, Hc.
Qed.

Lemma rebuilt_page_location m mu p :
  geometry m → same_layout m mu → page_location (build_page_index mu) p = page_location m p.
Proof.
  intros Hg Hl. pose proof (same_layout_detected _ _ Hl) as Hds. unfold page_location.
  rewrite build_page_index_strategy, Hds, (ge_strategy _ Hg). destruct (strategy m) eqn:Hs.
  - destruct (build_page_index_shape mu) as (s & pi & ti & ->). cbn. by rewrite (sl_ppg _ _ Hl), (sl_count _ _ Hl).
  - unfold build_page_index. rewrite Hds, (ge_strategy _ Hg), Hs. cbn. by rewrite (ge_index _ Hg Hs), (sl_pages _ _ Hl).
Qed.

Lemma rebuilt_geometry m mu :
  geometry m → same_layout m mu → validate_field_ranges mu = Ok () → geometry (build_page_index mu).
Proof.
  intros Hg Hl Hv. pose proof (same_layout_detected _ _ Hl) as Hds.
  pose proof (λ gid, rebuilt_group_page_nums m mu gid (ge_strategy _ Hg) Hl) as Hn.
  assert (well_formed mu) as Hwf.
  { destruct (ge_wf _ Hg) as [_ Hc Hp Hd Hgl]. split; [done|by rewrite (sl_count _ _ Hl)|by rewrite (sl_ppg _ _ Hl)|
      by rewrite (sl_pages _ _ Hl)|by rewrite (sl_pages _ _ Hl)]. }
  split.
  - by apply build_page_index_wf.
  - rewrite build_page_index_strategy. apply detected_strategy_stable;
      [apply build_page_index_group_pages|apply build_page_index_strategy].
  - rewrite build_page_index_strategy, build_page_index_group_pages. intros Hb. unfold build_page_index. by rewrite Hb.
  - destruct (build_page_index_shape mu) as (s & pi & ti & ->). cbn. rewrite (sl_size _ _ Hl). apply (ge_ps _ Hg).
  - destruct (build_page_index_shape mu) as (s & pi & ti & ->). cbn. rewrite (sl_size _ _ Hl), (sl_spf _ _ Hl). apply (ge_spf _ Hg).
  - intros gid p. rewrite Hn. destruct (build_page_index_shape mu) as (s & pi & ti & ->). cbn. rewrite (sl_count _ _ Hl).
    apply (ge_pages _ Hg).
  - intros gid. rewrite Hn. apply (ge_len _ Hg).
  - intros gid. rewrite Hn. destruct (build_page_index_shape mu) as (s & pi & ti & ->). cbn. rewrite (sl_size _ _ Hl).
    apply (ge_bytes _ Hg).
Qed.

(** A located page is listed where its location says. *)
Lemma location_listed m p loc :
  geometry m → 0 ≤ p → page_location m p = Some loc →
  0 ≤ group_id loc ∧ ∃ i, index loc = Z.of_nat i ∧ group_page_nums m (group_id loc) !! i = Some p.
Proof.
  intros Hg Hp Hloc.
  assert (same_layout m m) as Hl by done.
  rewrite <-(rebuilt_page_location m m p Hg Hl) in Hloc.
  assert (0 ≤ group_id loc ∧ 0 ≤ index loc < 2 ^ 32) as [Hgid Hi].
  { unfold page_location in Hloc. rewrite build_page_index_strategy in Hloc. destruct (detected_strategy m) eqn:Hd.
    - destruct (build_page_index_shape m) as (s & pi & ti & Hb). rewrite Hb in Hloc. cbn in Hloc.
      destruct (Z.eqb_spec (Manifest.pages_per_group m) 0); [done|]. destruct (page_count m <=? p); [done|]. injection Hloc as <-. cbn.
      pose proof (wf_ppg _ (ge_wf _ Hg)). split; [apply Z.div_pos; lia|]. apply Z.mod_pos_bound. lia.
    - unfold build_page_index in Hloc. rewrite Hd in Hloc. cbn in Hloc.
      apply index_groups_lookup in Hloc as (g & i & pages & _ & _ & ->); [|apply (wf_disjoint _ (ge_wf _ Hg))]. cbn.
      split; [lia|]. apply Z.mod_pos_bound. lia. }
  split; [done|]. destruct loc as [gid i]. cbn in *.
  apply (page_location_iff_listed_spec m gid i p (ge_wf _ Hg) Hgid Hi Hp) in Hloc as [_ Hat].
  rewrite (rebuilt_group_page_nums m m gid (ge_strategy _ Hg) Hl) in Hat.
  apply at_index_Some in Hat as [_ Hat]. exists (Z.to_nat i). split; [lia|done].
Qed.
End rebuilt.

(* ------------------------------------------------------------------ *)
(** * Reading the same objects *)

Section cold_ext.
Context `{Compression} `{Aead K}.
Implicit Types (m : Manifest) (o : gmap string bytes).

(** A page is read through the group's key, its frame table and the override of
    its frame only. *)
Lemma cold_slot_ext key m m' o o' gid i :
  Manifest.page_size m' = Manifest.page_size m → Manifest.sub_pages_per_frame m' = Manifest.sub_pages_per_frame m →
  group_frames m' gid = group_frames m gid → group_key m' gid = group_key m gid →
  override_of m' gid (i / Manifest.sub_pages_per_frame m) = override_of m gid (i / Manifest.sub_pages_per_frame m) →
  (∀ k, group_key m gid = Some k → o' !! k = o !! k) →
  (∀ ovr, override_of m gid (i / Manifest.sub_pages_per_frame m) = Some ovr → o' !! ovr_key ovr = o !! ovr_key ovr) →
  cold_slot key m' o' gid i = cold_slot key m o gid i.
Proof.
  intros Hps Hspf Hft Hk Hov Hok Hoo. unfold cold_slot, cold_frame, base_frame. rewrite Hps, Hspf, Hft, Hk, Hov.
  assert ((k ← group_key m gid; o' !! k) = (k ← group_key m gid; o !! k)) as Hbase
    by (destruct (group_key m gid) as [k|]; [by apply Hok|done]).
  assert (∀ A (f : bytes → option A), (k ← group_key m gid; d ← o' !! k; f d) = (k ← group_key m gid; d ← o !! k; f d)) as Hall.
  { intros A f. destruct (group_key m gid) as [k|]; [|done]. cbn in *. by rewrite Hbase. }
  destruct (group_frames m gid) as [ft|]; [|apply Hall].
  destruct (override_of m gid _) as [ovr|]; [by rewrite (Hoo ovr)|].
  destruct (at_index ft _) as [e|]; [|done]. cbn [mbind option_bind]. by rewrite Hall.
Qed.

(** Objects that nothing refers to do not matter. *)
Lemma cold_page_objects key m o o' p :
  (∀ s k, references m s k → o' !! k = o !! k) → cold_page key m o' p = cold_page key m o p.
Proof.
  intros Ho. unfold cold_page. destruct (page_location m p) as [loc|]; [|done]. cbn.
  apply cold_slot_ext; try done.
  - intros k Hk. by apply (Ho (PageGroup (group_id loc))).
  - intros ovr Hovr. apply (Ho (OverrideFrame (group_id loc) (index loc / Manifest.sub_pages_per_frame m))). by exists ovr.
Qed.
End cold_ext.

(* ------------------------------------------------------------------ *)
(** * The flushed manifest *)

Section flushed.
Context `{HashIter} `{Compression} `{Aead K}.
Context (rnd : string → Z → bytes) `{!FlushLaws rnd}.
Variable key : option K.
Context (m : Manifest) (o : gmap string bytes) (c : DiskCache K) (staged : gmap Z bytes) (threshold : Z).
Local Abbreviation nv := (version m + 1).
Context (dirty : list Z) (acc : FlushAcc) (ib xb : BundleAcc) (cc : Z).

(** What is known after the groups and the bundles are encoded. *)
Record flushed : Prop := {
  fl_geometry : geometry m;
  fl_keys : keys_ok m;
  fl_version : nv < 2 ^ 64;
  fl_dirty : Forall (λ gid, slot_ok (PageGroup gid)) dirty;
  fl_acc : acc_inv rnd key m o c staged threshold nv dirty acc;
  fl_interior : bundle_result InteriorBundle nv (interior_chunk_keys m) ib;
  fl_index : bundle_result IndexBundle nv (index_chunk_keys m) xb
}.
Context (Hfl : flushed).

Let cleared := clear_overrides acc (fa_replaced acc ++ ib.2 ++ xb.2).
Let m' := flushed_manifest m nv cc acc cleared.1 ib.1.2 xb.1.2.
Let uploads := fa_uploads acc ++ ib.1.1 ++ xb.1.1.

Lemma nv_u64 : is_u64 nv.
Proof. pose proof (ko_version _ (fl_keys Hfl)). pose proof (fl_version Hfl). unfold is_u64. lia. Qed.

Lemma dirty_slot gid : gid ∈ dirty → slot_ok (PageGroup gid).
Proof. pose proof (fl_dirty Hfl) as Hd. rewrite Forall_forall in Hd. apply Hd. Qed.

Lemma fresh s s' : slot_ok s → ¬ references m s' (slot_key s nv).
Proof. intros Hs. apply new_version_fresh; [apply (fl_keys Hfl)|done|lia|apply nv_u64]. Qed.

Lemma clear_overrides_spec l (ovs : list (gmap Z SubframeOverride)) repl :
  let r := foldl (λ '(ovs, replaced) gid,
    match at_index ovs gid with
    | Some g => (alter_at (λ _, ∅) gid ovs, replaced ++ ((λ fo, ovr_key fo.2) <$> hiter g))
    | None => (ovs, replaced)
    end) (ovs, repl) l in
  (∀ g, at_or ∅ r.1 g = if decide (g ∈ l) then ∅ else at_or ∅ ovs g) ∧
  (∀ k, k ∈ r.2 → k ∈ repl ∨ ∃ g f ovr, g ∈ l ∧ at_or ∅ ovs g !! f = Some ovr ∧ k = ovr_key ovr) ∧
  length r.1 = length ovs.
Proof.
  revert ovs repl. induction l as [|gid l IH]; intros ovs repl; cbn zeta.
  { cbn. split_and!; [done|by left|done]. }
  cbn [foldl]. set (st := match at_index ovs gid with Some g => _ | None => _ end).
  assert ((∀ g, at_or ∅ st.1 g = if decide (gid = g) then ∅ else at_or ∅ ovs g) ∧
    (∀ k, k ∈ st.2 → k ∈ repl ∨ ∃ f ovr, at_or ∅ ovs gid !! f = Some ovr ∧ k = ovr_key ovr) ∧
    length st.1 = length ovs) as (Hat1 & Hrepl & Hlen).
  { unfold st. destruct (at_index ovs gid) as [g|] eqn:Hat; cbn [fst snd]; split_and!.
    - intros g'. rewrite at_or_alter_at by done. done.
    - intros k [?|Hk]%elem_of_app; [by left|right]. apply list_elem_of_fmap in Hk as ([f ovr] & -> & Hin%elem_of_hiter).
      exists f, ovr. unfold at_or. by rewrite Hat.
    - unfold alter_at. destruct (gid <? 0); [done|by rewrite length_alter].
    - intros g'. destruct (decide (gid = g')) as [<-|]; [|done]. unfold at_or. by rewrite Hat.
    - by left.
    - done. }
  destruct st as [ovs' repl']. destruct (IH ovs' repl') as (I1 & I2 & I3). cbn [fst snd] in *. split_and!.
  - intros g. rewrite I1, Hat1. pose proof (elem_of_cons l g gid). repeat case_decide; naive_solver.
  - intros k [[?|(f & ovr & Hl & ->)]%Hrepl|(g & f & ovr & Hin & Hl & ->)]%I2.
    + by left.
    + right. exists gid, f, ovr. split; [by left|done].
    + right. exists g, f, ovr. rewrite Hat1 in Hl. destruct (decide (gid = g)); [by rewrite lookup_empty in Hl|].
      split; [by right|done].
  - by rewrite I3.
Qed.

Lemma cleared_spec :
  (∀ g, at_or ∅ cleared.1 g = if decide (g ∈ fa_full acc) then ∅ else at_or ∅ (fa_overrides acc) g) ∧
  (∀ k, k ∈ cleared.2 → k ∈ fa_replaced acc ++ ib.2 ++ xb.2 ∨
    ∃ g f ovr, g ∈ fa_full acc ∧ at_or ∅ (fa_overrides acc) g !! f = Some ovr ∧ k = ovr_key ovr) ∧
  (length cleared.1 ≤ length (fa_keys acc))%nat.
Proof.
  unfold cleared, clear_overrides. set (r := foldl _ _ _).
  destruct (clear_overrides_spec (fa_full acc) (grow_to (length (fa_keys acc)) ∅ (fa_overrides acc))
    (fa_replaced acc ++ ib.2 ++ xb.2)) as (Hat1 & Hrepl & Hlen). fold r in Hat1, Hrepl, Hlen. split_and!.
  - intros g. rewrite Hat1. by rewrite at_or_grow.
  - intros k [?|(g & f & ovr & Hin & Hl & ->)]%Hrepl; [by left|right]. exists g, f, ovr. by rewrite at_or_grow in Hl.
  - rewrite Hlen, length_grow_to. pose proof (al_overrides _ _ (ai_lengths _ _ _ _ _ _ _ _ _ _ (fl_acc Hfl))). lia.
Qed.

(** The updated fields of the manifest before its index is rebuilt. *)
Let mu := m <| version := nv |> <| change_counter := cc |>
    <| page_group_keys := fa_keys acc |> <| interior_chunk_keys := ib.1.2 |> <| index_chunk_keys := xb.1.2 |>
    <| frame_tables := fa_frames acc |> <| subframe_overrides := cleared.1 |>
    <| page_index := ∅ |> <| tree_indexes := no_tree_indexes |>.

Lemma flushed_shape : ∃ s pi ti, m' = set_indexes mu s pi ti.
Proof. apply build_page_index_shape. Qed.

Lemma flushed_layout : same_layout m mu.
Proof. done. Qed.

Lemma flushed_geometry : geometry m'.
Proof.
  change m' with (build_page_index mu). apply (rebuilt_geometry m mu (fl_geometry Hfl) flushed_layout).
  apply validate_field_ranges_Ok. cbn.
  pose proof (proj1 (validate_field_ranges_Ok _ _) (wf_valid _ (ge_wf _ (fl_geometry Hfl)))) as (? & ? & ? & ? & ? & ?).
  destruct (ai_lengths _ _ _ _ _ _ _ _ _ _ (fl_acc Hfl)). pose proof (proj2 (proj2 cleared_spec)).
  split_and!; try done; lia.
Qed.

Lemma flushed_group_key gid : group_key m' gid = key_at (fa_keys acc) gid.
Proof. destruct flushed_shape as (s & pi & ti & ->). done. Qed.

Lemma flushed_frames gid : group_frames m' gid =
  match at_or [] (fa_frames acc) gid with
  | [] => None
  | ft => if 0 <? Manifest.sub_pages_per_frame m then Some ft else None
  end.
Proof. destruct flushed_shape as (s & pi & ti & ->). by rewrite group_frames_or. Qed.

Lemma flushed_override gid f : override_of m' gid f =
  if decide (gid ∈ fa_full acc) then None else at_or ∅ (fa_overrides acc) gid !! f.
Proof.
  destruct flushed_shape as (s & pi & ti & ->). rewrite override_of_or. cbn [set_indexes subframe_overrides].
  change (subframe_overrides mu) with cleared.1. rewrite (proj1 cleared_spec).
  destruct (decide _); [apply lookup_empty|done].
Qed.

Lemma flushed_sizes : Manifest.page_size m' = Manifest.page_size m ∧
  Manifest.sub_pages_per_frame m' = Manifest.sub_pages_per_frame m ∧ version m' = nv ∧
  interior_chunk_keys m' = ib.1.2 ∧ index_chunk_keys m' = xb.1.2.
Proof. destruct flushed_shape as (s & pi & ti & ->). done. Qed.

Lemma flushed_location p : page_location m' p = page_location m p.
Proof. change m' with (build_page_index mu). apply (rebuilt_page_location m mu p (fl_geometry Hfl) flushed_layout). Qed.

(* ------------------------------------------------------------------ *)
(** ** References *)

Lemma group_done gid : 0 ≤ gid → group_result rnd key m o c staged threshold nv acc dirty gid.
Proof. apply (ai_groups _ _ _ _ _ _ _ _ _ _ (fl_acc Hfl)). Qed.

Lemma acc_uploads_sub k : k ∈ (fa_uploads acc).*1 → k ∈ uploads.*1.
Proof. intros Hk. unfold uploads. rewrite fmap_app. apply elem_of_app. by left. Qed.

(** A flush adds overrides only for frames with staged pages. *)
Lemma flushed_overrides gid : 0 ≤ gid →
  dom (at_or ∅ (subframe_overrides m') gid) ⊆ dom (at_or ∅ (subframe_overrides m) gid) ∪ frames_touched m (dom staged) gid.
Proof.
  intros Hgid f Hf. destruct (decide (f ∈ frames_touched m (dom staged) gid)) as [|Hn]; [set_solver|].
  apply elem_of_union_l, elem_of_dom. apply elem_of_dom in Hf. rewrite <-!override_of_or in *. rewrite flushed_override in Hf.
  case_decide; [by destruct Hf|]. rewrite override_of_or.
  destruct (group_done gid Hgid) as [[[? _ _ _] _]|(_ & frames & [_ _ Hkept _] & Hin & Hout)]; [done|].
  rewrite <-Hkept; [done|]. intros Hff. destruct (decide (gid ∈ dirty)) as [Hd|Hd].
  - apply Hn. by eapply override_frames_staged; [apply Hin|].
  - rewrite (Hout Hd) in Hff. by apply not_elem_of_nil in Hff.
Qed.

Lemma pair_upload k d : (k, d) ∈ fa_uploads acc → k ∈ uploads.*1.
Proof. intros Hk. apply acc_uploads_sub, list_elem_of_fmap. by exists (k, d). Qed.

(** A reference of the new manifest is an old one or a new object. *)
Lemma flushed_references s k :
  references m' s k → references m s k ∨ slot_ok s ∧ k = slot_key s nv ∧ k ∈ uploads.*1.
Proof.
  destruct flushed_sizes as (_ & _ & _ & Hi & Hx). destruct s as [g|i|i|g f]; cbn [references].
  - intros Hk. rewrite flushed_group_key in Hk.
    destruct (decide (0 ≤ g)) as [Hg0|Hneg].
    2: { unfold key_at, at_index in Hk. destruct (Z.ltb_spec g 0); [done|lia]. }
    rewrite key_at_or in Hk. cbn zeta in Hk.
    destruct (group_done g Hg0) as [[[Hf Hkey _ (pages & data & ft & _ & _ & Hu & _)] Hd]|(_ & frames & [Hkey _ _ _] & _)];
      rewrite Hkey in Hk.
    + right. case_decide; [done|]. injection Hk as <-. split; [by apply dirty_slot|]. split; [done|]. by eapply pair_upload.
    + left. unfold group_key. by rewrite key_at_or.
  - rewrite Hi. intros [?|(? & -> & Hu)]%(br_keys _ _ _ _ (fl_interior Hfl)); [by left|right]. split; [done|]. split; [done|].
    unfold uploads. rewrite !fmap_app, !elem_of_app. by right; left.
  - rewrite Hx. intros [?|(? & -> & Hu)]%(br_keys _ _ _ _ (fl_index Hfl)); [by left|right]. split; [done|]. split; [done|].
    unfold uploads. rewrite !fmap_app, !elem_of_app. by right; right.
  - intros (ovr & Ho & ->). rewrite flushed_override in Ho. case_decide as Hf; [done|].
    destruct (decide (0 ≤ g)) as [Hg0|Hneg].
    2: { unfold at_or, at_index in Ho. destruct (Z.ltb_spec g 0); [cbn in Ho; by rewrite lookup_empty in Ho|lia]. }
    destruct (group_done g Hg0) as [[[? _ _ _] _]|(_ & frames & [_ _ Hkept Hnew] & Hin & Hout)]; [done|].
    destruct (decide (f ∈ frames)) as [Hff|Hff].
    + right. destruct (Hnew f Hff) as (data & dirty' & e & Hl & Hu & _). rewrite Hl in Ho. injection Ho as <-. cbn [ovr_key].
      destruct (decide (g ∈ dirty)) as [Hd|Hd].
      2: { rewrite (Hout Hd) in Hff. by apply not_elem_of_nil in Hff. }
      split; [|split; [done|by eapply pair_upload]].
      eapply (frames_slot_ok m staged (fl_geometry Hfl)); [by apply dirty_slot|by apply Hin|done].
    + left. exists ovr. split; [|done]. rewrite override_of_or. by rewrite <-Hkept.
Qed.

(** What is replaced was referenced and is not any more. *)
Lemma flushed_replaced k : k ∈ cleared.2 → (∃ s, references m s k) ∧ ∀ s, ¬ references m' s k.
Proof.
  intros Hk.
  assert (∀ s, references m s k → slot_ok s ∧ slot_key s nv ≠ k) as Hne.
  { intros s Hs. assert (slot_ok s) as Hok by by apply (ko_refs _ (fl_keys Hfl) s k). split; [done|]. intros <-. by eapply fresh. }
  assert (∃ s, references m s k ∧ ¬ references m' s k) as (s & Hs & Hns).
  2: { split; [by exists s|]. intros s' Hs'. destruct (flushed_references _ _ Hs') as [Hold|(Hok & -> & _)].
       - by rewrite (references_inj m s s' k (fl_keys Hfl) Hs Hold) in Hns.
       - by eapply fresh. }
  destruct flushed_sizes as (_ & _ & _ & Hi & Hx). destruct cleared_spec as (_ & Hin & _).
  destruct (Hin k Hk) as [[Hr|[Hr|Hr]%elem_of_app]%elem_of_app|(g & f & ovr & Hf & Ho & ->)].
  - destruct (ak_replaced _ _ _ _ (ai_keys _ _ _ _ _ _ _ _ _ _ (fl_acc Hfl)) k Hr) as (s & Hs & Href). exists s. split; [done|].
    destruct (Hne s Hs) as [_ Hnk]. destruct s as [g|i|i|g f]; cbn [references acc_ref] in *; try done.
    + rewrite flushed_group_key, Href. by intros [= ?%Hnk].
    + intros (ovr & Ho & ->). rewrite flushed_override in Ho. case_decide; [done|]. rewrite Ho in Href. cbn in Href.
      injection Href as Heq. by apply Hnk.
  - destruct (br_replaced _ _ _ _ (fl_interior Hfl) k Hr) as (i & Hold & Hnew). exists (InteriorBundle i). split; [done|].
    destruct (Hne (InteriorBundle i) Hold) as [_ Hnk]. cbn [references]. rewrite Hi. destruct Hnew as [-> | ->]; [|done]. by intros [= ?%Hnk].
  - destruct (br_replaced _ _ _ _ (fl_index Hfl) k Hr) as (i & Hold & Hnew). exists (IndexBundle i). split; [done|].
    destruct (Hne (IndexBundle i) Hold) as [_ Hnk]. cbn [references]. rewrite Hx. destruct Hnew as [-> | ->]; [|done]. by intros [= ?%Hnk].
  - exists (OverrideFrame g f).
    assert (0 ≤ g) as Hg0.
    { destruct (decide (0 ≤ g)); [done|]. unfold at_or, at_index in Ho.
      destruct (Z.ltb_spec g 0); [cbn in Ho; by rewrite lookup_empty in Ho|lia]. }
    destruct (group_done g Hg0) as [[[_ _ Hov _] _]|[? _]]; [|done]. split.
    + exists ovr. split; [|done]. by rewrite override_of_or, <-Hov.
    + intros (ovr' & Ho' & _). rewrite flushed_override in Ho'. by case_decide.
Qed.

Lemma flushed_keys_ok : keys_ok m'.
Proof.
  pose proof (fl_keys Hfl) as Hk. pose proof (ko_version _ Hk). destruct flushed_sizes as (_ & _ & Hv & _).
  split; rewrite Hv; [pose proof nv_u64; unfold is_u64 in *; lia|].
  intros s k [(Hs & v & ? & ->)%(ko_refs _ Hk)|(Hs & -> & _)]%flushed_references; (split; [done|]).
  - exists v. split; [lia|done].
  - exists nv. split; [lia|done].
Qed.

(** The uploads are new versions of distinct slots. *)
Lemma uploads_new k : k ∈ uploads.*1 → ∃ s, slot_ok s ∧ k = slot_key s nv.
Proof.
  unfold uploads. rewrite !fmap_app, !elem_of_app. intros [Hk|[Hk|Hk]].
  - destruct (ak_new _ _ _ _ (ai_keys _ _ _ _ _ _ _ _ _ _ (fl_acc Hfl)) k Hk) as (s & _ & ? & ?). by exists s.
  - destruct (br_new _ _ _ _ (fl_interior Hfl) k Hk) as (i & ? & ?). by exists (InteriorBundle i).
  - destruct (br_new _ _ _ _ (fl_index Hfl) k Hk) as (i & ? & ?). by exists (IndexBundle i).
Qed.

Lemma uploads_nodup : NoDup uploads.*1.
Proof.
  pose proof nv_u64 as Hnv. unfold uploads. rewrite !fmap_app.
  assert (∀ s s', slot_ok s → slot_ok s' → slot_key s nv = slot_key s' nv → s = s') as Hinj.
  { intros s s' Hs Hs' Heq. by destruct (proj2 (slot_key_spec s s' nv nv Hs Hs' Hnv Hnv) Heq). }
  pose proof (ai_keys _ _ _ _ _ _ _ _ _ _ (fl_acc Hfl)) as Hak. apply NoDup_app. split_and!; [apply (ak_nodup _ _ _ _ Hak)| |].
  - intros k (s & Hs & Hok & ->)%(ak_new _ _ _ _ Hak) [Hk|Hk]%elem_of_app.
    + destruct (br_new _ _ _ _ (fl_interior Hfl) _ Hk) as (i & Hi & Heq). apply (Hinj s (InteriorBundle i)) in Heq as ->; done.
    + destruct (br_new _ _ _ _ (fl_index Hfl) _ Hk) as (i & Hi & Heq). apply (Hinj s (IndexBundle i)) in Heq as ->; done.
  - apply NoDup_app. split_and!; [apply (br_nodup _ _ _ _ (fl_interior Hfl))| |apply (br_nodup _ _ _ _ (fl_index Hfl))].
    intros k (i & Hi & ->)%(br_new _ _ _ _ (fl_interior Hfl)) (j & Hj & Heq)%(br_new _ _ _ _ (fl_index Hfl)).
    by apply (Hinj (InteriorBundle i) (IndexBundle j)) in Heq.
Qed.

(* ------------------------------------------------------------------ *)
(** ** Pages *)

(** A cached page outside what the flush writes is what storage holds. *)
Definition clean : Prop := ∀ gid i p d,
  0 ≤ gid → page_location m p = Some {| group_id := gid; index := Z.of_nat i |} → group_page_nums m gid !! i = Some p → staged !! p = None → view c p = Some d →
  gid ∉ dirty ∨ ¬ rewritten m (override_frames m staged threshold gid) i →
  cold_slot key m o gid (Z.of_nat i) = Some d.

Lemma old_object s k : references m s k → put_all uploads o !! k = o !! k.
Proof. intros Hk. apply put_all_other. intros (s' & Hs' & ->)%uploads_new. by eapply fresh. Qed.

Lemma upload_object k d : (k, d) ∈ fa_uploads acc → put_all uploads o !! k = Some d.
Proof. intros Hk. apply put_all_in; [apply uploads_nodup|]. unfold uploads. apply elem_of_app. by left. Qed.

Context (o' : gmap string bytes) (Ho' : ∀ s k, references m' s k → o' !! k = put_all uploads o !! k).

Lemma same_object s k : references m s k → references m' s k → o' !! k = o !! k.
Proof. intros Hk Hk'. rewrite (Ho' s) by done. by apply (old_object s). Qed.

(** A position whose group's object and frame's override are the old ones. *)
Lemma kept_slot gid i :
  0 ≤ gid → at_or ""%string (fa_keys acc) gid = at_or ""%string (page_group_keys m) gid →
  at_or [] (fa_frames acc) gid = at_or [] (frame_tables m) gid → gid ∉ fa_full acc →
  at_or ∅ (fa_overrides acc) gid !! (i / Manifest.sub_pages_per_frame m) =
    at_or ∅ (subframe_overrides m) gid !! (i / Manifest.sub_pages_per_frame m) →
  cold_slot key m' o' gid i = cold_slot key m o gid i.
Proof.
  intros Hgid Hk Ht Hf Ho. destruct flushed_sizes as (Hps' & Hspf' & _).
  assert (group_key m' gid = group_key m gid) as Hkey
    by (rewrite flushed_group_key; unfold group_key; rewrite !key_at_or; by rewrite Hk).
  assert (override_of m' gid (i / Manifest.sub_pages_per_frame m) = override_of m gid (i / Manifest.sub_pages_per_frame m)) as Hov
    by (rewrite flushed_override, override_of_or; by rewrite decide_False).
  apply cold_slot_ext; try done.
  - rewrite flushed_frames, group_frames_or. by rewrite Ht.
  - intros k Hgk. apply (same_object (PageGroup gid)); [done|]. cbn. by rewrite Hkey.
  - intros ovr Hovr. apply (same_object (OverrideFrame gid (i / Manifest.sub_pages_per_frame m)));
      exists ovr; [done|by rewrite Hov].
Qed.

Lemma full_slot gid i p :
  0 ≤ gid → group_page_nums m gid !! i = Some p → full_result rnd key m o c staged nv acc gid →
  cold_slot key m' o' gid (Z.of_nat i) = slot_source key m o c staged gid (Z.of_nat i) p.
Proof.
  intros Hgid Hi [Hf Hk _ (pages & data & ft & (Hlen & Hsize & Hsrc) & Henc & Hu & Ht)].
  rewrite (Hsrc i p Hi). destruct flushed_sizes as (Hps' & Hspf' & _).
  assert (is_Some (pages !! i)) as [d Hd] by (apply lookup_lt_is_Some; rewrite Hlen; by eapply lookup_lt_Some).
  assert (pages ≠ []) as Hne by by intros ->.
  assert (group_key m' gid = Some (page_group_key gid nv)) as Hkey.
  { rewrite flushed_group_key, key_at_or. cbn zeta. rewrite Hk. by rewrite decide_False by apply (slot_key_nonempty (PageGroup gid)). }
  rewrite Hd. pose proof (ge_bytes _ (fl_geometry Hfl) gid) as Hb.
  apply (cold_base_slot key m' o' gid pages i d); [apply flushed_geometry| |done|by rewrite Hps', Hlen|].
  2: { intros _. rewrite flushed_override. by rewrite decide_True. }
  split; [by rewrite Hps'|]. intros _. exists (page_group_key gid nv), data, (rnd (page_group_key gid nv)).
  split; [done|]. split; [rewrite (Ho' (PageGroup gid)) by done; by apply upload_object|]. split; [intros f; apply fl_rnd|].
  destruct (group_run rnd key m gid (page_group_key gid nv) pages (fl_geometry Hfl) Hsize Hlen) as (data' & ft' & Henc' & Hft).
  rewrite Henc in Henc'. injection Henc' as <- <-. rewrite flushed_frames, Ht, Hps', Hspf'. destruct ft as [t|]; cbn [default].
  - destruct Hft as (Hspf & He & Hsmall & Htne). specialize (Htne Hne). destruct t as [|e t]; [done|].
    destruct (Z.ltb_spec 0 (Manifest.sub_pages_per_frame m)); [done|lia].
  - destruct Hft as [Hspf He]. rewrite Hspf. by destruct (at_or [] (frame_tables m) gid).
Qed.

Lemma override_slot_new gid frames i p :
  0 ≤ gid → group_page_nums m gid !! i = Some p → frames_result rnd key m o c staged nv acc gid frames →
  gid ∉ fa_full acc → override_frames m staged threshold gid = Some frames → rewritten m (Some frames) i →
  cold_slot key m' o' gid (Z.of_nat i) = slot_source key m o c staged gid (Z.of_nat i) p.
Proof.
  intros Hgid Hi [Hk Ht _ Hnew] Hf Hfr Hrw. destruct flushed_sizes as (Hps' & Hspf' & _).
  destruct (override_frames_spec m staged (fl_geometry Hfl) _ _ _ Hgid Hfr) as (Hft & _ & Hb & _).
  assert (0 < Manifest.sub_pages_per_frame m) as Hspf
    by (destruct (group_frames m gid) eqn:Hft'; [by eapply group_frames_spf|done]).
  set (spf := Manifest.sub_pages_per_frame m) in *. set (f := Z.of_nat i / spf). cbn in Hrw. fold spf f in Hrw.
  destruct (Hnew f Hrw) as (data & dirty' & e & Hl & Hu & Henc & Hall). destruct (Hb f Hrw) as [Hf0 _].
  assert (Z.of_nat i = f * spf + Z.of_nat (Z.to_nat (Z.of_nat i mod spf))) as Hsplit.
  { pose proof (Z.mod_pos_bound (Z.of_nat i) spf Hspf). pose proof (Z.div_mod (Z.of_nat i) spf). unfold f. lia. }
  set (j := Z.to_nat (Z.of_nat i mod spf)) in *.
  assert (frame_slots m gid f !! j = Some (Z.of_nat i, p)) as Hslot.
  { apply frame_slots_lookup; [done|done|]. cbn [fst snd]. rewrite Nat2Z.id. split_and!; [|done|done].
    pose proof (Z.mod_pos_bound (Z.of_nat i) spf Hspf). unfold j. lia. }
  destruct (Forall2_lookup_l _ _ _ _ _ Hall Hslot) as ([p' d] & Hd & Hsrc & Hlen). cbn [fst snd] in Hsrc, Hlen.
  rewrite Hsrc, Hsplit, <-Hspf'.
  assert (override_of m' gid f = Some {| ovr_key := override_frame_key gid f nv; ovr_entry := e |}) as Hov
    by (rewrite flushed_override; by rewrite decide_False).
  apply (cold_override_slot key m' o' gid f dirty'.*2 j d); [apply flushed_geometry| | |].
  - split; [|split].
    + apply Forall_fmap, Forall_lookup. intros j' pd Hj'. destruct (Forall2_lookup_r _ _ _ _ _ Hall Hj') as (ip & _ & _ & Hl').
      cbn. by rewrite Hps'.
    + rewrite length_fmap, <-(Forall2_length _ _ _ Hall), Hspf'. unfold frame_slots. rewrite length_take. fold spf. lia.
    + exists {| ovr_key := override_frame_key gid f nv; ovr_entry := e |}, data, (rnd (override_frame_key gid f nv) 0), dirty'.
      split; [done|]. split; [|split_and!; [apply fl_rnd|done|by rewrite Hps']]. cbn [ovr_key].
      rewrite (Ho' (OverrideFrame gid f)) by (by eexists). by apply upload_object.
  - by rewrite list_lookup_fmap, Hd.
  - rewrite flushed_frames, Ht. rewrite group_frames_or in Hft. done.
Qed.

(** Every page a reader finds is the one the flush had to publish. *)
Lemma flushed_slot gid i p :
  0 ≤ gid → page_location m p = Some {| group_id := gid; index := Z.of_nat i |} → group_page_nums m gid !! i = Some p →
  (is_Some (staged !! p) → gid ∈ dirty) → clean →
  cold_slot key m' o' gid (Z.of_nat i) = slot_source key m o c staged gid (Z.of_nat i) p.
Proof.
  intros Hgid Hloc Hi Hdirty Hclean.
  assert (staged !! p = None → gid ∉ dirty ∨ ¬ rewritten m (override_frames m staged threshold gid) i →
    cold_slot key m o gid (Z.of_nat i) = slot_source key m o c staged gid (Z.of_nat i) p) as Hkept.
  { intros Hs Hn. unfold slot_source, local_page. rewrite Hs. destruct (view c p) as [d|] eqn:Hv; [|done].
    by apply (Hclean gid i p d). }
  destruct (group_done gid Hgid) as [[Hfull _]|(Hf & frames & Hres & Hin & Hout)]; [by apply full_slot|].
  destruct (decide (gid ∈ dirty)) as [Hd|Hd].
  - specialize (Hin Hd). destruct (decide (Z.of_nat i / Manifest.sub_pages_per_frame m ∈ frames)) as [Hfi|Hfi].
    + by apply (override_slot_new gid frames).
    + rewrite kept_slot; [|done|apply Hres|apply Hres|done|by apply (fs_kept _ _ _ _ _ _ _ _ _ _ Hres)]. apply Hkept.
      * destruct (staged !! p) eqn:Hs; [|done]. exfalso. apply Hfi.
        apply (override_frames_spec m staged (fl_geometry Hfl) _ _ _ Hgid Hin) with p; [done|by rewrite Hs].
      * right. by rewrite Hin.
  - specialize (Hout Hd). subst frames. apply (frames_result_nil rnd key m o c staged nv) in Hres as (Hk & Ht & Hov).
    rewrite kept_slot; [|done|done|done|done|by rewrite Hov]. apply Hkept; [|by left].
    destruct (staged !! p) eqn:Hs; [|done]. exfalso. apply Hd, Hdirty. by eexists.
Qed.

(** The newest copy of a page: staged, cached, or stored. *)
Definition newest (p : Z) : option bytes :=
  match local_page staged c p with Some d => Some d | None => cold_page key m o p end.

Lemma flushed_pages p loc :
  0 ≤ p → page_location m p = Some loc → (is_Some (staged !! p) → group_id loc ∈ dirty) → clean →
  cold_page key m' o' p = newest p.
Proof.
  intros Hp Hloc Hd Hclean. destruct (location_listed m p loc (fl_geometry Hfl) Hp Hloc) as (Hgid & i & Hi & Hl).
  unfold cold_page at 1. rewrite flushed_location, Hloc. cbn [mbind option_bind]. rewrite Hi.
  rewrite (flushed_slot _ i p Hgid ltac:(by rewrite Hloc, <-Hi; destruct loc) Hl Hd Hclean). unfold newest, slot_source, cold_page. rewrite Hloc. cbn. by rewrite Hi.
Qed.

End flushed.
