(* ===== verification/FlushRun.v ===== *)
(** A flush (Flush.v) over any backend: what it can leave behind, when it must
    succeed, and what a reader sees in each case. *)

From S2P Require Import Prelude Keys Staging Manifest Backend ColdRead.
From S2P Require Import CacheTracking LocalState Compress Encoding File DiskCache CacheView.
From S2P Require Import Vfs Compact Flush FlushPages FlushGroups FlushInv FlushBundles FlushManifest.

(* ------------------------------------------------------------------ *)
(** * The state file *)

Section state_file.
Variable to_vec : LocalState → option bytes.
Variable from_slice : bytes → option LocalState.

Lemma persist_no_panic fail file s : (persist to_vec fail file s).1 ≠ Panic.
Proof. unfold persist. cbn zeta. repeat case_match; done. Qed.

Lemma update_no_panic fail file f : (update to_vec from_slice fail file f).1 ≠ Panic.
Proof.
  destruct (update _ _ _ _ _) as [r f'] eqn:Hu. apply update_cases in Hu as [(? & ? & _ & _ & ->)|Hu]; [done|].
  pose proof (load_no_panic from_slice file) as Hp. destruct (load_or_default _ _ _) as [s|e|]; [|by injection Hu as -> _|done].
  pose proof (persist_no_panic fail file (f s)) as Hn. by rewrite <-Hu in Hn.
Qed.

(** The file can be read and written. *)
Record file_works (file : LocalState.state_file) : Prop := {
  fw_load : ∃ s, load_or_default from_slice None file = Ok s;
  fw_total : ∀ s, is_Some (to_vec s);
  fw_codec : codec_law to_vec from_slice
}.

Lemma update_works file f :
  file_works file → ∃ file', update to_vec from_slice None file f = (Ok (), file') ∧ file_works file'.
Proof.
  intros [[s Hs] Ht Hc]. unfold update. cbn [failing_call]. rewrite Hs. unfold persist. cbn zeta.
  destruct (Ht (with_version (normalized (f s)) 1)) as [b Hb]. rewrite Hb. cbn. eexists. split; [reflexivity|].
  split; [|done|done]. rewrite with_version_normalized in Hb. eexists. by eapply load_encoded.
Qed.
End state_file.

(* ------------------------------------------------------------------ *)
(** * A prefix that only reads *)

Section prefix.
Context `{HashIter} `{Compression} `{Aead K} `{StorageLaws B}.

Lemma run_reads_then {A C} o c (x : Prog K B A) (f : A → Prog K B C) w (P : A → Prop) (Q : io C * Vfs K B → Prop) :
  run_reads o c x P → v_cache w = c → objects (v_backend w) = o →
  (∀ e b', objects b' = o → ¬ reliable (v_backend w) → Q (Err e, w <| v_backend := b' |>)) →
  (∀ a b', P a → objects b' = o → (reliable (v_backend w) → reliable b') → Q (f a (w <| v_backend := b' |>))) →
  Q ((x ≫= f) w).
Proof.
  intros Hx Hc Ho Herr Hok. destruct (Hx w Hc Ho) as (r & b & Hr & Hob & Hb & Hcases).
  unfold mbind, Prog_bind. rewrite Hr. rewrite Ho in Hob.
  destruct Hcases as [(a & -> & Ha)|[(e & ->) Hn]]; [by apply Hok|by apply Herr].
Qed.

Lemma prog_assoc {A C D} (x : Prog K B A) (y : A → Prog K B C) (f : C → Prog K B D) w :
  ((x ≫= y) ≫= f) w = (x ≫= λ a, y a ≫= f) w.
Proof. unfold mbind, Prog_bind. by destruct (x w) as [[a|e|] w']. Qed.

Lemma prog_bind_run {A C} (x : Prog K B A) (f : A → Prog K B C) w r w' :
  x w = (r, w') →
  (x ≫= f) w = match r with Ok a => f a w' | Err e => (Err e, w') | Panic => (Panic, w') end.
Proof. intros Hx. unfold mbind, Prog_bind. rewrite Hx. by destruct r. Qed.

Lemma on_backend_run {A} (f : B → io A * B) (w : Vfs K B) b r b' :
  f b = (r, b') → on_backend f (w <| v_backend := b |>) = (r, w <| v_backend := b' |>).
Proof. intros Hf. unfold on_backend. cbn. by rewrite Hf. Qed.

Lemma resolve_run m c :
  cache_ok c → ∃ r, resolve_manifest_replay_cursor m c = (r, c) ∧ r ≠ Panic.
Proof.
  intros Hok. unfold resolve_manifest_replay_cursor, mbind, M_bind.
  pose proof (read_page_state 0 (zeros (Z.to_nat (Manifest.page_size m))) c (ok_quiet _ Hok)) as Hs.
  pose proof (read_page_no_panic c Hok 0 (zeros (Z.to_nat (Manifest.page_size m)))) as Hp.
  destruct (read_page _ _ c) as [[page0|e|] c'] eqn:Hr; cbn in Hs, Hp; subst c'; [|by eexists|done].
  unfold lift. set (v := validate_replay_cursor_page0 _ _ _ _).
  assert (v ≠ Panic) as Hv.
  { unfold v, validate_replay_cursor_page0. destruct (_ && _); [done|]. destruct (_ <=? _); [done|].
    destruct (db_header m); [|done]. cbn zeta. destruct (_ <? _); [done|apply guard_err_no_panic]. }
  destruct v as [[]|e|]; [by eexists|by eexists|done].
Qed.
End prefix.

(* ------------------------------------------------------------------ *)
(** * What is published *)

Section published.
Context `{HashIter} `{Compression} `{Aead K}.
Variable key : option K.
Context (m : Manifest) (o : gmap string bytes) (c : DiskCache K) (staged : gmap Z bytes).

(** [m'] over the objects [o'] is a next version of [m] in which every page is
    its newest copy; [replaced] are the objects it makes garbage. *)
Record publishes (m' : Manifest) (o' : gmap string bytes) (replaced : list string) : Prop := {
  pu_geometry : geometry m';
  pu_keys : keys_ok m';
  pu_version : version m' = version m + 1;
  pu_location : ∀ p, page_location m' p = page_location m p;
  pu_pages : ∀ p, 0 ≤ p → is_Some (page_location m p) → cold_page key m' o' p = newest key m o c staged p;
  pu_replaced : ∀ k, k ∈ replaced → (∃ s, references m s k) ∧ ∀ s, ¬ references m' s k;
  pu_overrides : ∀ gid, 0 ≤ gid →
    dom (at_or ∅ (subframe_overrides m') gid) ⊆ dom (at_or ∅ (subframe_overrides m) gid) ∪ frames_touched m (dom staged) gid
}.

Lemma publishes_objects m' o' o'' replaced :
  publishes m' o' replaced → (∀ s k, references m' s k → o'' !! k = o' !! k) → publishes m' o'' replaced.
Proof. intros [] Ho. split; try done. intros p Hp Hl. by rewrite (cold_page_objects key m' o' o'' p Ho), pu_pages0. Qed.
End published.

(* ------------------------------------------------------------------ *)
(** * The upload *)

Section upload.
Context `{HashIter} `{Compression} `{Aead K} `{StorageLaws B}.
Context (rnd : string → Z → bytes) `{!FlushLaws rnd}.
Variable to_vec : LocalState → option bytes.
Variable from_slice : bytes → option LocalState.
Variable encode_manifest : Manifest → option bytes.
Variable decode_manifest : bytes → option Manifest.
Variable key : option K.
Context (m : Manifest) (o : gmap string bytes) (c : DiskCache K) (staged : gmap Z bytes) (override_threshold : Z).
Context (dirty : gset Z) (is_local : bool) (fails : FlushFails).

Definition flush_threshold : Z :=
  effective_threshold override_threshold (Manifest.pages_per_group m) (Manifest.sub_pages_per_frame m).

(** The hypotheses of the theorems about a flush. *)
Record flush_ready : Prop := {
  fy_geometry : geometry m;
  fy_keys : keys_ok m;
  fy_version : version m + 1 < 2 ^ 64;
  fy_cache : cache_ok c;
  fy_size : page_size c = Manifest.page_size m;
  fy_staged : staged_ok staged (Manifest.page_size m);
  fy_dirty : ∀ gid, gid ∈ dirty → slot_ok (PageGroup gid);
  fy_located : ∀ p loc, 0 ≤ p → page_location m p = Some loc → is_Some (staged !! p) → group_id loc ∈ dirty;
  fy_available : ∀ gid, gid ∈ dirty →
    group_available key m o c staged gid (override_frames m staged flush_threshold gid);
  fy_clean : ∀ gid i p d, 0 ≤ gid → page_location m p = Some {| group_id := gid; index := Z.of_nat i |} →
    group_page_nums m gid !! i = Some p → staged !! p = None → view c p = Some d →
    gid ∉ dirty ∨ ¬ rewritten m (override_frames m staged flush_threshold gid) i →
    cold_slot key m o gid (Z.of_nat i) = Some d
}.

(** Nothing outside the flush fails. *)
Record flush_works (b : B) : Prop := {
  fk_backend : reliable b;
  fk_file : file_works to_vec from_slice (state_file c);
  fk_no_fails : ff_manifest fails = None ∧ ff_dirty fails = None;
  fk_cursor : ∃ cc, resolve_manifest_replay_cursor m c = (Ok cc, c);
  fk_encode : ∀ m, is_Some (encode_manifest m);
  fk_remote : ∃ old, stored_manifest decode_manifest o = Ok old ∧ ∀ m0, old = Some m0 → version m0 ≤ version m
}.

(** Not the name of an object of the next version. *)
Definition not_new (k : string) : Prop := ∀ s, slot_ok s → k ≠ slot_key s (version m + 1).

(** Where a flush ends: before the publication, or after it. *)
Record flush_outcome (w : Vfs K B) (rw : io (list string) * Vfs K B) : Prop := {
  fo_no_panic : rw.1 ≠ Panic;
  fo_pending : v_pending rw.2 = v_pending w ∧ v_dirty_groups rw.2 = v_dirty_groups w ∧ v_logs rw.2 = v_logs w;
  fo_kept : ∀ k, not_new k → k ≠ MANIFEST_KEY → objects (v_backend rw.2) !! k = o !! k;
  fo_works : flush_works (v_backend w) → (∃ l, rw.1 = Ok l) ∧ reliable (v_backend rw.2);
  fo_cases :
    v_manifest rw.2 = v_manifest w ∧ objects (v_backend rw.2) !! MANIFEST_KEY = o !! MANIFEST_KEY ∧ (∀ l, rw.1 ≠ Ok l) ∨
    ∃ m' d replaced, publishes key m o c staged m' (objects (v_backend rw.2)) replaced ∧
      encode_manifest m' = Some d ∧ objects (v_backend rw.2) !! MANIFEST_KEY = Some d ∧
      (rw.1 = Ok replaced ∧ v_manifest rw.2 = m' ∨ (∃ e, rw.1 = Err e) ∧ v_manifest rw.2 = v_manifest w)
}.

Lemma outcome_unpublished w e b' c' :
  (∀ k, not_new k ∨ k = MANIFEST_KEY → objects b' !! k = o !! k) → ¬ flush_works (v_backend w) →
  flush_outcome w (Err e, w <| v_backend := b' |> <| v_cache := c' |>).
Proof.
  intros Hk Hn. split; cbn; try done.
  - intros k Hn' _. apply Hk. by left.
  - left. split_and!; [done|by apply Hk; right|done].
Qed.

(** After the publication, before or after the commit. *)
Lemma outcome_published w r m' d replaced b' c' v :
  encode_manifest m' = Some d → objects b' !! MANIFEST_KEY = Some d → publishes key m o c staged m' (objects b') replaced →
  (∀ k, not_new k → k ≠ MANIFEST_KEY → objects b' !! k = o !! k) →
  (flush_works (v_backend w) → r = Ok replaced ∧ reliable b') →
  (r = Ok replaced ∧ v = m' ∨ (∃ e, r = Err e) ∧ v = v_manifest w) →
  flush_outcome w (r, w <| v_backend := b' |> <| v_cache := c' |> <| v_manifest := v |>).
Proof.
  intros Hd Hm Hp Hk Hw Hr. split; cbn; try done.
  - destruct Hr as [[-> _]|[[e ->] _]]; done.
  - intros [-> ?]%Hw. eauto.
  - right. exists m', d, replaced. done.
Qed.

(** The state-file writes between the publication and the commit. *)
Lemma persist_flushed_run m' (w : Vfs K B) :
  ∃ r c', persist_flushed (B:=B) to_vec from_slice fails m' w = (r, w <| v_cache := c' |>) ∧ r ≠ Panic ∧
    (file_works to_vec from_slice (state_file (v_cache w)) → ff_manifest fails = None ∧ ff_dirty fails = None → r = Ok ()).
Proof.
  unfold persist_flushed, mbind, Prog_bind, on_cache. cbn beta. unfold persist_manifest_local, persist_dirty_groups.
  match goal with |- context [update to_vec from_slice (ff_manifest fails) ?f ?g] =>
    pose proof (update_no_panic to_vec from_slice (ff_manifest fails) f g) as Hp1;
    destruct (update to_vec from_slice (ff_manifest fails) f g) as [r1 f1] eqn:Hu1 end. cbn in Hp1.
  destruct r1 as [[]|e|]; [|eexists _, _; split; [done|]; split; [done|]|done].
  2: { intros Hw [Hf _]. rewrite Hf in Hu1. destruct (update_works to_vec from_slice _ (λ s, with_manifest s m') Hw) as (? & ? & _). congruence. }
  cbn [map_err_other v_cache].
  match goal with |- context [update to_vec from_slice (ff_dirty fails) ?f ?g] =>
    pose proof (update_no_panic to_vec from_slice (ff_dirty fails) f g) as Hp2;
    destruct (update to_vec from_slice (ff_dirty fails) f g) as [r2 f2] eqn:Hu2 end. cbn in Hp2, Hu2.
  eexists _, _. split; [destruct r2 as [[]| |]; done|]. split; [by destruct r2|]. intros Hw [Hf1 Hf2].
  rewrite Hf1 in Hu1. rewrite Hf2 in Hu2.
  destruct (update_works to_vec from_slice _ (λ s, with_manifest s m') Hw) as (f1' & Hu1' & Hw1). rewrite Hu1 in Hu1'. simplify_eq.
  destruct (update_works to_vec from_slice _ (λ s, with_dirty_groups s []) Hw1) as (f2' & Hu2' & _). rewrite Hu2 in Hu2'. by simplify_eq.
Qed.

Context (Hready : flush_ready).

(** From the upload of the objects on. *)
Lemma publish_run w b m' uploads replaced :
  v_cache w = c → objects b = o → (reliable (v_backend w) → reliable b) →
  version m' = version m + 1 → keys_ok m' →
  (∀ o', (∀ s k, references m' s k → o' !! k = put_all uploads o !! k) → publishes key m o c staged m' o' replaced) →
  (∀ k, not_new k → k ∉ uploads.*1) → MANIFEST_KEY ∉ uploads.*1 →
  flush_outcome w ((_ ← flush_publish to_vec from_slice encode_manifest decode_manifest fails m' uploads; mret replaced)
    (w <| v_backend := b |>)).
Proof.
  intros Hc Ho Hrel Hv Hk' Hpub Hold Hman. pose proof (fy_keys Hready) as Hk.
  pose proof (λ s, references_not_manifest m' s Hk') as Hmk'.
  unfold flush_publish. rewrite prog_assoc.
  destruct (put_page_groups_run uploads b) as (r1 & b1 & Hx1 & Hr1 & Hoth & Hb1). rewrite Ho in Hr1, Hoth.
  rewrite (prog_bind_run _ _ _ _ _ (on_backend_run _ w b _ _ Hx1)).
  assert (∀ k, not_new k → objects b1 !! k = o !! k) as Hold1 by (intros k Hn; by apply Hoth, Hold).
  destruct Hr1 as [[-> Ho1]|[-> Hn]].
  2: { apply (outcome_unpublished w OtherKind b1 (v_cache w)); [intros k [Hs| ->]; [by apply Hold1|by apply Hoth]|].
       intros [Hw _ _ _ _ _]. by apply Hn, Hrel. }
  destruct (put_manifest_run encode_manifest decode_manifest m' b1) as (r2 & b2 & Hx2 & Hb2 & Hr2).
  rewrite prog_assoc, (prog_bind_run _ _ _ _ _ (on_backend_run _ w b1 _ _ Hx2)). clear Hx1 Hx2.
  assert (objects b1 !! MANIFEST_KEY = o !! MANIFEST_KEY) as Hman1 by by apply Hoth.
  assert (stored_manifest decode_manifest (objects b1) = stored_manifest decode_manifest o) as Hsm
    by (unfold stored_manifest; by rewrite Hman1).
  assert (∀ d, objects b2 = <[MANIFEST_KEY := d]> (objects b1) →
    objects b2 !! MANIFEST_KEY = Some d ∧ publishes key m o c staged m' (objects b2) replaced ∧
    ∀ k, not_new k → k ≠ MANIFEST_KEY → objects b2 !! k = o !! k) as Hput.
  { intros d Ho2. rewrite Ho2. split; [apply lookup_insert_eq|]. split.
    - apply Hpub. intros s k Hs. rewrite lookup_insert_ne by (intros <-; by apply (Hmk' s)). by rewrite Ho1.
    - intros k Hn Hne. rewrite lookup_insert_ne by done. by apply Hold1. }
  destruct Hr2 as [(-> & _ & d & Hd & Ho2)|([e ->] & Ho2 & Hwork)].
  2: { assert (¬ flush_works (v_backend w)) as Hnw.
       { intros [Hr _ _ _ He (old & Hold' & Hver)]. rewrite <-Hsm in Hold'.
         apply (Hwork (Hb1 (Hrel Hr)) (He m')). exists old. split; [done|]. intros m0 Hm0. specialize (Hver m0 Hm0). lia. }
       destruct Ho2 as [Ho2|(_ & _ & d & Hd & Ho2)].
       - apply (outcome_unpublished w e b2 (v_cache w)); [|done]. rewrite Ho2. intros k [Hs| ->]; [by apply Hold1|done].
       - destruct (Hput d Ho2) as (? & ? & ?).
         apply (outcome_published w (Err e) m' d replaced b2 (v_cache w) (v_manifest w)); try done. right. split; [by eexists|done]. }
  destruct (Hput d Ho2) as (Hm2 & Hp2 & Hk2).
  destruct (persist_flushed_run m' (w <| v_backend := b2 |>)) as (r3 & c3 & Hx3 & Hr3 & Hw3).
  rewrite prog_assoc, (prog_bind_run _ _ _ _ _ Hx3). clear Hx3.
  destruct r3 as [[]|e|]; [| |done].
  2: { apply (outcome_published w (Err e) m' d replaced b2 c3 (v_manifest w)); try done; [|right; split; [by eexists|done]].
       intros [_ Hf Hno _ _ _]. cbn in Hw3. rewrite Hc in Hw3. by specialize (Hw3 Hf Hno). }
  unfold mbind, Prog_bind, on_cache, set_group_pages, modify, update_vfs, attempt, persist_bitmap. cbn [v_cache].
  match goal with |- context [update to_vec from_slice (ff_bitmap fails) ?f ?g] =>
    pose proof (update_no_panic to_vec from_slice (ff_bitmap fails) f g) as Hp4;
    destruct (update to_vec from_slice (ff_bitmap fails) f g) as [r4 f4] eqn:Hu4 end. cbn in Hp4.
  match goal with |- flush_outcome w ?x =>
    assert (∃ c4, x = (Ok replaced, w <| v_backend := b2 |> <| v_cache := c4 |> <| v_manifest := m' |>)) as [c4 ->] end.
  { destruct r4 as [[]|e|]; [by eexists|by eexists|done]. }
  apply (outcome_published w (Ok replaced) m' d replaced b2 c4 m'); try done; [|by left].
  intros [Hr _ _ _ _ _]. split; [done|]. auto.
Qed.


(** The manifest built from the encoded groups and bundles publishes them. *)
Lemma flushed_publishes acc ib xb cc :
  acc_inv rnd key m o c staged flush_threshold (version m + 1) (hset_iter dirty) acc →
  bundle_result InteriorBundle (version m + 1) (interior_chunk_keys m) ib →
  bundle_result IndexBundle (version m + 1) (index_chunk_keys m) xb →
  let cleared := clear_overrides acc (fa_replaced acc ++ ib.2 ++ xb.2) in
  let m' := flushed_manifest m (version m + 1) cc acc cleared.1 ib.1.2 xb.1.2 in
  let uploads := fa_uploads acc ++ ib.1.1 ++ xb.1.1 in
  keys_ok m' ∧ version m' = version m + 1 ∧
  (∀ k, not_new k → k ∉ uploads.*1) ∧ MANIFEST_KEY ∉ uploads.*1 ∧
  ∀ o', (∀ s k, references m' s k → o' !! k = put_all uploads o !! k) → publishes key m o c staged m' o' cleared.2.
Proof.
  intros Hacc Hib Hxb cleared m' uploads. destruct Hready as [Hg Hk Hv Hok Hps Hst Hd Hloc Hav Hcl].
  assert (flushed rnd key m o c staged flush_threshold (hset_iter dirty) acc ib xb) as Hfl.
  { split; try done. apply Forall_forall. intros gid Hgid%elem_of_hset_iter. by apply Hd. }
  split_and!.
  - by eapply flushed_keys_ok.
  - by eapply flushed_sizes.
  - intros k Hn Hin. destruct (uploads_new _ _ _ _ _ _ _ _ _ _ _ Hfl k Hin) as (s' & Hs' & ->). by apply (Hn s').
  - intros Hin. destruct (uploads_new _ _ _ _ _ _ _ _ _ _ _ Hfl _ Hin) as (s' & Hs' & Heq).
    assert (is_u64 (version m + 1)) as Hu by (by eapply (nv_u64 rnd)).
    by destruct (slot_key_spec s' s' _ _ Hs' Hs' Hu Hu) as [Hne _].
  - intros o' Ho'. split.
    + by eapply flushed_geometry.
    + by eapply flushed_keys_ok.
    + by eapply flushed_sizes.
    + intros p. by eapply flushed_location.
    + intros p Hp [loc Hl]. eapply (flushed_pages rnd); [exact Hfl|exact Ho'|exact Hp|exact Hl| |].
      * intros Hs. apply elem_of_hset_iter. by eapply Hloc.
      * intros gid i q d Hgid Hlq Hi Hs Hv' Hor. apply (Hcl gid i q d); try done.
        destruct Hor as [Hn|Hn]; [left|by right]. intros Hin. by apply Hn, elem_of_hset_iter.
    + intros k Hin. by eapply (flushed_replaced rnd) in Hin.
    + intros gid Hgid. by eapply (flushed_overrides rnd).
Qed.

Lemma flush_upload_run w :
  v_cache w = c → objects (v_backend w) = o →
  flush_outcome w (flush_upload rnd to_vec from_slice encode_manifest decode_manifest key fails is_local
    override_threshold m staged dirty w).
Proof.
  intros Hc Ho. pose proof Hready as Hr. destruct Hr as [Hg Hk Hv Hok Hps Hst Hd _ Hav _].
  pose proof (ko_version _ Hk). assert (is_u64 (version m + 1)) as Hnv by (unfold is_u64; lia).
  assert (∀ b', objects b' = o → ∀ k, not_new k ∨ k = MANIFEST_KEY → objects b' !! k = o !! k) as Hsame by (by intros b' ->).
  unfold flush_upload. rewrite wrap64_id by done. fold flush_threshold.
  destruct (resolve_run m c Hok) as (rc & Hrc & Hrcp).
  assert (on_cache (resolve_manifest_replay_cursor m) w = (rc, w <| v_backend := v_backend w |>)) as Hx0
    by (unfold on_cache; rewrite Hc, Hrc; rewrite <-Hc; by destruct w).
  rewrite (prog_bind_run _ _ _ _ _ Hx0). clear Hx0.
  destruct rc as [cc|e|]; [| |done].
  2: { apply (outcome_unpublished w e (v_backend w) (v_cache w)); [by apply Hsame|]. intros [_ _ _ [cc Hcc] _ _]. congruence. }
  cbn beta zeta.
  assert (∀ e b', objects b' = o → ¬ reliable (v_backend w) → flush_outcome w (Err e, w <| v_backend := b' |>)) as Hfail.
  { intros e b' Ho' Hn. apply (outcome_unpublished w e b' (v_cache w)); [by apply Hsame|]. by intros [? _ _ _ _ _]. }
  eapply (run_reads_then o c); [apply (flush_groups_run rnd key m o c staged flush_threshold (version m + 1) Hg Hok Hps Hst Hnv)| | | |].
  - apply NoDup_hset_iter.
  - apply Forall_forall. intros gid Hgid%elem_of_hset_iter. split; [by apply Hd|by apply Hav].
  - done.
  - done.
  - intros e b' Ho' Hn. by apply Hfail.
  - intros acc b1 Hacc Ho1 Hb1. cbn beta. change (w <| v_backend := v_backend w |> <| v_backend := b1 |>) with (w <| v_backend := b1 |>).
    eapply (run_reads_then o c (flush_bundles rnd key is_local m staged dirty (version m + 1)) _ (w <| v_backend := b1 |>));
      [apply (flush_bundles_run rnd key is_local m staged dirty (version m + 1) o c Hg Hok Hps)| | | |]; try done.
    { intros gid Hgid. specialize (Hd gid Hgid). cbn in Hd. unfold is_u64 in Hd. lia. }
    { intros e b' Ho' Hn. apply (Hfail e b'); [done|]. by intros Hr%Hb1. }
    intros [[[iu ik] ir] [[xu xk] xr]] b2 [Hib Hxb] Ho2 Hb2.
    destruct (flushed_publishes acc (iu, ik, ir) (xu, xk, xr) cc Hacc Hib Hxb) as (Hk' & Hv' & Hold & Hman & Hpub).
    cbn [fst snd] in *. cbn beta iota zeta.
    destruct (clear_overrides acc (fa_replaced acc ++ ir ++ xr)) as [ovs replaced] eqn:Hcl.
    apply (publish_run w b2 _ _ _ Hc Ho2); try done. intros Hr. by apply Hb2, Hb1.
Qed.

End upload.
