(* ===== verification/FlushSafety.v ===== *)
(** The theorems about a flush: what it publishes, what a failure leaves
    behind, when it succeeds, and which objects it may delete. *)

From S2P Require Import Prelude Keys Staging Manifest Backend ColdRead.
From S2P Require Import CacheTracking LocalState Compress Encoding File DiskCache CacheView.
From S2P Require Import Vfs Compact Flush FlushPages FlushGroups FlushInv FlushBundles FlushManifest FlushRun.

(* ------------------------------------------------------------------ *)
(** * Automatic compaction *)

(** Automatic compaction finds nothing to do: it is off, or no group has so many
    override frames, also with the frames of the pages to be flushed. *)
Definition uncompacted (compaction_threshold : Z) (m : Manifest) (pages : gset Z) : Prop :=
  compaction_threshold ≤ 0 ∨
  ∀ gid, 0 ≤ gid →
    Z.of_nat (size (dom (at_or ∅ (subframe_overrides m) gid) ∪ frames_touched m pages gid)) < compaction_threshold.

Lemma uncompacted_mono threshold (m : Manifest) pages pages' :
  pages ⊆ pages' → uncompacted threshold m pages' → uncompacted threshold m pages.
Proof.
  intros Hp [?|Hu]; [by left|right]. intros gid Hgid. specialize (Hu gid Hgid).
  pose proof (frames_touched_mono m _ _ gid Hp) as Hf.
  pose proof (subseteq_size (dom (at_or ∅ (subframe_overrides m) gid) ∪ frames_touched m pages gid)
    (dom (at_or ∅ (subframe_overrides m) gid) ∪ frames_touched m pages' gid) ltac:(set_solver)). lia.
Qed.

Lemma nothing_to_compact threshold (m m' : Manifest) pages :
  uncompacted threshold m pages → 0 < threshold →
  (∀ gid, 0 ≤ gid →
    dom (at_or ∅ (subframe_overrides m') gid) ⊆ dom (at_or ∅ (subframe_overrides m) gid) ∪ frames_touched m pages gid) →
  groups_to_compact (Some threshold) m' = [].
Proof.
  intros [?|Hu] Ht Hsub; [lia|]. unfold groups_to_compact. destruct (filter _ _) as [|[gid g] l] eqn:Hf; [done|exfalso].
  assert ((gid, g) ∈ (gid, g) :: l) as Hin by by left. rewrite <-Hf in Hin.
  apply list_elem_of_filter in Hin as [[_ Hle%Is_true_true%Z.leb_le]%andb_prop_elim [Hgid Hg]%elem_of_enumerate].
  specialize (Hu gid Hgid). specialize (Hsub gid Hgid). apply subseteq_size in Hsub. cbn in Hle.
  assert (at_or ∅ (subframe_overrides m') gid = g) as Heq.
  { unfold at_or, at_index. destruct (Z.ltb_spec gid 0); [lia|]. by rewrite Hg. }
  rewrite Heq, size_dom in Hsub. lia.
Qed.

Section flush.
Context `{HashIter} `{Compression} `{Aead K} `{StorageLaws B}.
Context (rnd : string → Z → bytes) `{!FlushLaws rnd}.
Variable to_vec : LocalState → option bytes.
Variable from_slice : bytes → option LocalState.
Variable encode_manifest : Manifest → option bytes.
Variable decode_manifest : bytes → option Manifest.
Variable key : option K.
Context (fails : FlushFails) (is_local gc : bool) (override_threshold compaction_threshold : Z).

Definition run_flush : Vfs K B → io () * Vfs K B :=
  flush_dirty_groups rnd to_vec from_slice encode_manifest decode_manifest key fails is_local gc
    override_threshold compaction_threshold.

(** [flush_ready] in a state whose logs hold the pages [staged]. *)
Definition ready (w : Vfs K B) (staged : gmap Z bytes) : Prop :=
  read_logs (v_pending w) (v_logs w) = Ok staged ∧
  flush_ready key (v_manifest w) (objects (v_backend w)) (v_cache w) staged override_threshold
    (dirty_groups_of (v_manifest w) staged (v_dirty_groups w)).

Lemma compaction_idle w :
  (0 < compaction_threshold → groups_to_compact (Some compaction_threshold) (v_manifest w) = []) →
  (if 0 <? compaction_threshold then
     _ ← attempt (auto_compact_overrides rnd encode_manifest decode_manifest key compaction_threshold); mret ()
   else mret ()) w = (Ok (), w).
Proof.
  intros Hn. destruct (Z.ltb_spec 0 compaction_threshold) as [Ht|]; [|done]. specialize (Hn Ht).
  assert (auto_compact_overrides rnd encode_manifest decode_manifest key compaction_threshold w = (Ok 0, w)) as Hrun.
  { unfold auto_compact_overrides, compact_overrides_inner. unfold mbind at 1, Prog_bind at 1, reads at 1. by rewrite Hn. }
  unfold mbind, Prog_bind, attempt. by rewrite Hrun.
Qed.

Definition newest_page (w : Vfs K B) (staged : gmap Z bytes) : Z → option bytes :=
  newest key (v_manifest w) (objects (v_backend w)) (v_cache w) staged.

Lemma dirty_located (m : Manifest) staged legacy p loc :
  page_location m p = Some loc → is_Some (staged !! p) → group_id loc ∈ dirty_groups_of m staged legacy.
Proof.
  intros Hloc Hs. unfold dirty_groups_of. apply elem_of_union. right. apply elem_of_list_to_set, list_elem_of_omap.
  exists p. split; [by apply elem_of_elements, elem_of_dom|]. by rewrite Hloc.
Qed.

(** With nothing dirty the stored pages are the newest ones. *)
Lemma newest_clean w staged p :
  ready w staged → dirty_groups_of (v_manifest w) staged (v_dirty_groups w) = ∅ →
  0 ≤ p → is_Some (page_location (v_manifest w) p) →
  newest_page w staged p = cold_page key (v_manifest w) (objects (v_backend w)) p.
Proof.
  intros [_ Hr] Hd Hp [loc Hloc]. destruct (location_listed _ p loc (fy_geometry _ _ _ _ _ _ _ Hr) Hp Hloc) as (Hg & i & Hi & Hl).
  assert (staged !! p = None) as Hs.
  { destruct (staged !! p) eqn:Hs; [|done]. exfalso.
    assert (group_id loc ∈ dirty_groups_of (v_manifest w) staged (v_dirty_groups w)) as Hin
      by (apply (dirty_located _ _ _ p loc); [done|by rewrite Hs]). rewrite Hd in Hin. by apply not_elem_of_empty in Hin. }
  unfold newest_page, newest, local_page. rewrite Hs. destruct (view (v_cache w) p) as [d|] eqn:Hv; [|done].
  unfold cold_page. rewrite Hloc. cbn. rewrite Hi. symmetry.
  apply (fy_clean _ _ _ _ _ _ _ Hr (group_id loc) i p d); try done; [by rewrite Hloc, <-Hi; destruct loc|]. left. rewrite Hd. apply not_elem_of_empty.
Qed.

(** A flush that runs the upload ends as the upload does; on success it has
    also deleted what was replaced and removed the logs. *)
Record flush_end (w : Vfs K B) (staged : gmap Z bytes) (r : io ()) (w' : Vfs K B) : Prop := {
  fe_no_panic : r ≠ Panic;
  fe_works : flush_works to_vec from_slice encode_manifest decode_manifest (v_manifest w) (objects (v_backend w))
    (v_cache w) fails (v_backend w) → r = Ok ();
  fe_objects : ∀ k, not_new (v_manifest w) k → k ≠ MANIFEST_KEY →
    objects (v_backend w') !! k = objects (v_backend w) !! k ∨
    r = Ok () ∧ (∃ s, references (v_manifest w) s k) ∧ ∀ s, ¬ references (v_manifest w') s k;
  fe_error : ∀ e, r = Err e →
    v_pending w' = v_pending w ∧ v_dirty_groups w' = v_dirty_groups w ∧ v_logs w' = v_logs w ∧
    v_manifest w' = v_manifest w ∧
    (objects (v_backend w') !! MANIFEST_KEY = objects (v_backend w) !! MANIFEST_KEY ∨
     ∃ m' d replaced, encode_manifest m' = Some d ∧ objects (v_backend w') !! MANIFEST_KEY = Some d ∧
       publishes key (v_manifest w) (objects (v_backend w)) (v_cache w) staged m' (objects (v_backend w')) replaced);
  fe_ok : r = Ok () →
    v_pending w' = [] ∧ v_dirty_groups w' = ∅ ∧
    (∀ p, 0 ≤ p → is_Some (page_location (v_manifest w) p) →
      page_location (v_manifest w') p = page_location (v_manifest w) p ∧
      cold_page key (v_manifest w') (objects (v_backend w')) p = newest_page w staged p) ∧
    (dirty_groups_of (v_manifest w) staged (v_dirty_groups w) ≠ ∅ →
      geometry (v_manifest w') ∧ keys_ok (v_manifest w') ∧ version (v_manifest w') = version (v_manifest w) + 1 ∧
      ∃ d, encode_manifest (v_manifest w') = Some d ∧ objects (v_backend w') !! MANIFEST_KEY = Some d)
}.

Lemma manifest_not_new (m : Manifest) : is_u64 (version m + 1) → not_new m MANIFEST_KEY.
Proof. intros Hv s Hs Heq. by destruct (slot_key_spec s s _ _ Hs Hs Hv Hv) as [Hne _]. Qed.

Lemma old_not_new (m : Manifest) s k : keys_ok m → version m + 1 < 2 ^ 64 → references m s k → not_new m k.
Proof.
  intros Hk Hv Hs s' Hs' ->. pose proof (ko_version _ Hk).
  eapply (new_version_fresh m s' s (version m + 1)); [done|done|lia|unfold is_u64; lia|done].
Qed.

Lemma flush_inner_run w staged w0 :
  ready w staged → w0 = w <| v_pending := [] |> <| v_dirty_groups := ∅ |> →
  uncompacted compaction_threshold (v_manifest w) (dom staged) →
  ∃ r w1, flush_inner rnd to_vec from_slice encode_manifest decode_manifest key fails is_local gc
    override_threshold compaction_threshold (v_pending w) (v_dirty_groups w) w0 = (r, w1) ∧
    flush_end w staged r match r with
      | Err _ => w1 <| v_pending ::= λ l, l ++ v_pending w |> <| v_dirty_groups ::= union (v_dirty_groups w) |>
      | _ => w1 end.
Proof.
  intros [Hlogs Hr] -> Hcomp. pose proof (fy_geometry _ _ _ _ _ _ _ Hr) as Hg. pose proof (fy_keys _ _ _ _ _ _ _ Hr) as Hk.
  pose proof (fy_version _ _ _ _ _ _ _ Hr) as Hv. pose proof (ge_ps _ Hg) as Hps.
  set (w0 := w <| v_pending := [] |> <| v_dirty_groups := ∅ |>). set (m := v_manifest w) in *.
  set (dirty := dirty_groups_of m staged (v_dirty_groups w)) in *.
  unfold flush_inner. rewrite (prog_bind_run (Vfs.reads v_logs) _ w0 (Ok (v_logs w)) w0 eq_refl).
  rewrite (prog_bind_run (pure (read_logs _ _)) _ w0 (Ok staged) w0) by (unfold pure; by rewrite Hlogs).
  rewrite (prog_bind_run (Vfs.reads v_manifest) _ w0 (Ok m) w0 eq_refl).
  rewrite (prog_bind_run (pure (guard_err _ _)) _ w0 (Ok ()) w0) by (unfold pure; by destruct (Z.eqb_spec (Manifest.page_size m) 0); [lia|]).
  fold dirty. case_bool_decide as Hd.
  { eexists _, _. split; [reflexivity|]. split; try done; cbn.
    - by left.
    - intros _. split_and!; [done|done| |done]. intros p Hp Hl. split; [done|]. symmetry. by apply newest_clean. }
  destruct (flush_upload_run rnd to_vec from_slice encode_manifest decode_manifest key m (objects (v_backend w))
    (v_cache w) staged override_threshold dirty is_local fails Hr w0 eq_refl eq_refl) as [Hnp Hpend Hkept Hworks Hcases].
  destruct (flush_upload _ _ _ _ _ _ _ _ _ _ _ _ w0) as [[replaced|e|] w1] eqn:Hup; cbn [fst snd] in *; [| |done].
  2: { rewrite (prog_bind_run _ _ _ _ _ Hup). eexists _, _. split; [reflexivity|]. destruct Hpend as (Hp1 & Hp2 & Hp3). split; cbn.
       - done.
       - intros Hw. by destruct (Hworks Hw) as [[l ?] _].
       - intros k Hn Hne. left. by apply Hkept.
       - intros e' _. rewrite Hp1, Hp2, Hp3. cbn. split_and!; [done|set_solver|done| |].
         + destruct Hcases as [(? & _ & _)|(m' & d & rp & _ & _ & _ & [[? _]|[_ ?]])]; done.
         + destruct Hcases as [(_ & ? & _)|(m' & d & rp & ? & ? & ? & _)]; [by left|right]. by exists m', d, rp.
       - done. }
  destruct Hcases as [(_ & _ & Hno)|(m' & d & rp & Hpub & Henc & Hman & [[[= <-] Hm']|[[e He] _]])]; [by destruct (Hno replaced)| |done].
  rewrite (prog_bind_run _ _ _ _ _ Hup).
  assert (∃ b2, (if gc then _ ← attempt (on_backend (delete_objects replaced)); mret () else mret ()) w1 = (Ok (), w1 <| v_backend := b2 |>) ∧
    ∀ k, k ∉ replaced → objects b2 !! k = objects (v_backend w1) !! k) as (b2 & Hdel & Hb2).
  { destruct gc; [|exists (v_backend w1); split; [by destruct w1|done]].
    destruct (delete_objects_run replaced (v_backend w1)) as (r & b2 & Hrun & Hrp & Hb2). exists b2. split; [|done].
    unfold mbind, Prog_bind, attempt, on_backend. rewrite Hrun. by destruct r. }
  rewrite (prog_bind_run _ _ _ _ _ Hdel). 
  rewrite (prog_bind_run (remove_logs _) _ _ _ _ eq_refl).
  match goal with |- context [(if 0 <? compaction_threshold then _ else _) ?y] => set (w2 := y) end.
  rewrite compaction_idle.
  2: { intros Ht. change (v_manifest w2) with (v_manifest w1). rewrite Hm'.
       by apply (nothing_to_compact _ m m' (dom staged)), (pu_overrides _ _ _ _ _ _ _ _ Hpub). }
  eexists _, _. split; [reflexivity|]. unfold w2. destruct Hpend as (Hp1 & Hp2 & Hp3).
  pose proof (pu_keys _ _ _ _ _ _ _ _ Hpub) as Hk'. pose proof (pu_replaced _ _ _ _ _ _ _ _ Hpub) as Hrep.
  assert (∀ s k, references m' s k → objects b2 !! k = objects (v_backend w1) !! k) as Hlive.
  { intros s k Hs. apply Hb2. intros Hin. by apply (Hrep k Hin) in Hs. }
  split; cbn; rewrite ?Hm'.
  - done.
  - done.
  - intros k Hn Hne. destruct (decide (k ∈ replaced)) as [Hin|Hin].
    + right. split; [done|]. by apply Hrep.
    + left. rewrite Hb2 by done. by apply Hkept.
  - done.
  - intros _. rewrite Hp1, Hp2. split_and!; [done|done| |].
    + intros p Hp Hl. split; [apply (pu_location _ _ _ _ _ _ _ _ Hpub)|].
      rewrite (cold_page_objects key m' (objects (v_backend w1))) by done. by apply (pu_pages _ _ _ _ _ _ _ _ Hpub).
    + intros _. split_and!; [apply Hpub|done|apply Hpub|]. exists d. split; [done|]. rewrite Hb2; [done|].
      intros Hin. destruct (Hrep _ Hin) as [[s Hs] _]. by apply (references_not_manifest m s Hk).
Qed.

Lemma run_flush_end w staged r w' :
  ready w staged → uncompacted compaction_threshold (v_manifest w) (dom staged) → run_flush w = (r, w') → flush_end w staged r w'.
Proof.
  intros Hr Hcomp. unfold run_flush, flush_dirty_groups. cbn zeta.
  set (w0 := w <| v_pending := [] |> <| v_dirty_groups := ∅ |>).
  destruct (bool_decide (v_pending w = []) && bool_decide (v_dirty_groups w = ∅)) eqn:Hno.
  - intros [= <- <-]. apply andb_true_iff in Hno as [Hp%bool_decide_eq_true Hl%bool_decide_eq_true].
    assert (dirty_groups_of (v_manifest w) staged (v_dirty_groups w) = ∅) as Hd.
    { destruct Hr as [Hlogs _]. rewrite Hp in Hlogs. cbn in Hlogs. injection Hlogs as <-. rewrite Hl. unfold dirty_groups_of.
      rewrite dom_empty_L, elements_empty. done. }
    split; try done; cbn.
    + by left.
    + intros _. split_and!; [done|done| |by rewrite Hd]. intros p Hp' Hloc. split; [done|]. symmetry. by apply newest_clean.
  - destruct (flush_inner_run w staged w0 Hr eq_refl Hcomp) as (r1 & w1 & -> & Hend).
    destruct r1; intros [= <- <-]; done.
Qed.

(* ------------------------------------------------------------------ *)
(** * Theorems *)


(** C12. A flush of a ready state, with too few override frames for automatic
    compaction to do anything, that fails, wherever the backend or the file system
    failed it, puts back what was pending and dirty, keeps the live manifest and
    the logs, and leaves every page of the live manifest readable as before; the
    stored manifest is the old one, or a complete next version that holds the
    newest copy of every page. *)
Theorem flush_failure_atomic w staged e w' :
  ready w staged → uncompacted compaction_threshold (v_manifest w) (dom staged) → run_flush w = (Err e, w') →
  v_pending w' = v_pending w ∧ v_dirty_groups w' = v_dirty_groups w ∧ v_logs w' = v_logs w ∧
  v_manifest w' = v_manifest w ∧
  (∀ p, cold_page key (v_manifest w) (objects (v_backend w')) p =
        cold_page key (v_manifest w) (objects (v_backend w)) p) ∧
  (objects (v_backend w') !! MANIFEST_KEY = objects (v_backend w) !! MANIFEST_KEY ∨
   ∃ m' d, encode_manifest m' = Some d ∧ objects (v_backend w') !! MANIFEST_KEY = Some d ∧
     version m' = version (v_manifest w) + 1 ∧
     ∀ p, 0 ≤ p → is_Some (page_location (v_manifest w) p) →
       page_location m' p = page_location (v_manifest w) p ∧
       cold_page key m' (objects (v_backend w')) p = newest_page w staged p).
Proof.
  intros Hr Hc Hrun. destruct (run_flush_end w staged _ _ Hr Hc Hrun) as [_ _ Ho Herr _].
  destruct (Herr e eq_refl) as (? & ? & ? & ? & Hm). destruct Hr as [_ Hr].
  pose proof (fy_keys _ _ _ _ _ _ _ Hr) as Hk. split_and!; try done.
  - intros p. apply cold_page_objects. intros s k Hs.
    destruct (Ho k) as [?|[? _]]; [|by intros ->; eapply references_not_manifest|done|done].
    apply (old_not_new _ s); [done|apply (fy_version _ _ _ _ _ _ _ Hr)|done].
  - destruct Hm as [?|(m' & d & rp & He & Hd & Hp)]; [by left|right]. exists m', d. split; [done|]. split; [done|].
    split; [apply Hp|]. intros p Hp' Hl. split; [apply Hp|by apply Hp].
Qed.

(** C16. A flush of a ready state in which automatic compaction has nothing to do
    never panics, and it succeeds when the backend and the state file work, the
    manifest can be encoded, the stored manifest is not newer than the live one
    and the replay cursor can be read. *)
Theorem flush_succeeds w staged :
  ready w staged → uncompacted compaction_threshold (v_manifest w) (dom staged) →
  (run_flush w).1 ≠ Panic ∧
  (flush_works to_vec from_slice encode_manifest decode_manifest (v_manifest w) (objects (v_backend w))
     (v_cache w) fails (v_backend w) → (run_flush w).1 = Ok ()).
Proof.
  intros Hr Hc. destruct (run_flush w) as [r w'] eqn:Hrun.
  by destruct (run_flush_end w staged _ _ Hr Hc Hrun) as [Hp Hw _ _ _].
Qed.

(** C17. A flush of a ready state in which automatic compaction has nothing to do
    touches no object but the manifest and objects named by the next version,
    except that a successful one may delete objects the old manifest refers to and
    the new one does not; an object both refer to is never touched. *)
Theorem flush_frees_only_garbage w staged r w' :
  ready w staged → uncompacted compaction_threshold (v_manifest w) (dom staged) → run_flush w = (r, w') →
  (∀ k, k ≠ MANIFEST_KEY → (∀ s, slot_ok s → k ≠ slot_key s (version (v_manifest w) + 1)) →
    objects (v_backend w') !! k = objects (v_backend w) !! k ∨
    r = Ok () ∧ (∃ s, references (v_manifest w) s k) ∧ ∀ s, ¬ references (v_manifest w') s k) ∧
  (∀ s s' k, references (v_manifest w) s k → references (v_manifest w') s' k →
    objects (v_backend w') !! k = objects (v_backend w) !! k).
Proof.
  intros Hr Hc Hrun. destruct (run_flush_end w staged _ _ Hr Hc Hrun) as [_ _ Ho _ _]. destruct Hr as [_ Hr].
  pose proof (fy_keys _ _ _ _ _ _ _ Hr) as Hk. split; [by auto|].
  intros s s' k Hs Hs'. destruct (Ho k) as [?|(_ & _ & Hn)]; [| |done|by apply Hn in Hs'].
  - apply (old_not_new _ s); [done|apply (fy_version _ _ _ _ _ _ _ Hr)|done].
  - intros ->. by eapply references_not_manifest.
Qed.
End flush.
