(* ===== verification/FlushExamples.v ===== *)
(** A concrete flush: the witnesses of the theorems about flushing. *)

From S2P Require Import Prelude Keys Wire Staging Manifest Backend ColdRead.
From S2P Require Import CacheTracking LocalState StateCodec Compress Encoding File DiskCache CacheView CacheWrite CacheSafety CacheReopen CacheExamples.
From S2P Require Import Vfs Compact Flush FlushPages FlushGroups FlushInv FlushBundles FlushManifest FlushRun FlushSafety.

#[local] Existing Instance canonical_iter.

Lemma full_file_works : file_works full_to_vec full_from_slice None.
Proof.
  split.
  - by eexists.
  - by eexists.
  - exact full_codec.
Qed.

(* ------------------------------------------------------------------ *)
(** * A flush *)

(** Six pages of 512 bytes in two groups: the first is stored in frames of two
    pages, the second as a whole.  Pages 0 and 5 are staged, page 4 is cached
    and dirty from before, page 3 is cached and clean. *)
Definition fx_page (n v : Z) : bytes := pad_to 512 (le_bytes 4 n ++ le_bytes 4 v).
Definition fx_key : option () := Some ().
Definition fx_rnd (_ : string) (_ : Z) : bytes := zeros 12.

#[export] Instance fx_laws : FlushLaws (K:=()) fx_rnd.
Proof.
  split.
  - intros d. by eexists.
  - intros d c [= <-]. lia.
  - intros k n aad d Ha. eexists. cbn. rewrite decide_True by lia. reflexivity.
  - intros k n aad d c. cbn. destruct (decide _); [|done]. intros [= <-]. unfold toy_seal, zeros.
    rewrite !length_app, length_le_bytes, length_replicate. lia.
  - done.
Qed.

Definition fx_base0 : list bytes := [fx_page 0 1; fx_page 2 1; fx_page 1 1; fx_page 3 1].
Definition fx_base1 : list bytes := [fx_page 4 1; fx_page 5 1].
Definition fx_object0 : bytes * list FrameEntry :=
  from_ok ([], []) (encode_page_group_seekable (Some <$> fx_base0) 512 2 (fx_rnd "") (aad_page_group 0) fx_key).

Definition fx_manifest : Manifest :=
  build_page_index (empty_manifest <| version := 7 |> <| change_counter := 3 |> <| page_count := 6 |>
    <| Manifest.page_size := 512 |> <| Manifest.pages_per_group := 4 |>
    <| page_group_keys := ["p/d/0_v7"; "p/d/1_v6"]%string |> <| frame_tables := [fx_object0.2] |>
    <| Manifest.sub_pages_per_frame := 2 |> <| subframe_overrides := [∅; ∅] |>
    <| Manifest.group_pages := [[0; 2; 1; 3]; [4; 5]] |> <| strategy := BTreeAware |>).

Definition fx_objects : gmap string bytes :=
  {[ "p/d/0_v7"%string := fx_object0.1;
     "p/d/1_v6"%string := from_ok [] (encode_page_group (Some <$> fx_base1) 512 (zeros 12) (aad_page_group 1) fx_key) ]}.

(** The cache with pages 0, 3 and 4. *)
Definition fx_config : CacheConfig () := {|
  ttl_secs := 0; pages_per_group := 4; sub_pages_per_frame := 2; encryption_key := fx_key;
  cache_compression := false; mem_cache_budget := 0
|}.
Definition fx_cached : list (Z * bytes) := [(0, fx_page 0 1); (3, fx_page 3 1); (4, fx_page 4 2)].

Definition fx_new : io (DiskCache ()) :=
  new_with_compression_at full_from_slice fx_config 0 512 6 [[0; 2; 1; 3]; [4; 5]] [] None (∅, ∅, ∅) None.

Definition fx_cache : DiskCache () :=
  match fx_new with
  | Ok c => (run_write demo_nonce (WriteScattered 5 fx_cached 0 0) c).2
  | _ => demo_cache false None
  end.

Lemma fx_state_file : state_file fx_cache = None.
Proof. vm_compute. reflexivity. Qed.

Lemma fx_new_run : ∃ c, fx_new = Ok c ∧ cache_ok c ∧ page_size c = 512 ∧ cache_compression (cfg c) = false ∧
  ∀ p, 0 ≤ p → view c p = None.
Proof.
  destruct (fresh_run full_from_slice fx_config 0 512 6 [[0; 2; 1; 3]; [4; 5]] None None (∅, ∅, ∅))
    as (c & Hrun & Hok & Hps & _ & Hcc & _ & Hv).
  { split; cbn; try lia. intros pages. rewrite !elem_of_cons, elem_of_nil. intros [->|[->|[]]];
      repeat constructor; lia. }
  { reflexivity. }
  by exists c.
Qed.

Lemma fx_cache_run : cache_ok fx_cache ∧ page_size fx_cache = 512 ∧
  ∀ p, 0 ≤ p → view fx_cache p = collect_map fx_cached !! p.
Proof.
  destruct fx_new_run as (c & Hrun & Hok & Hps & Hcc & Hv). unfold fx_cache. rewrite Hrun.
  destruct (run_write_run demo_nonce (WriteScattered 5 fx_cached 0 0) c Hok) as (c' & Hw & Hwr).
  { split; [|split; [done|split; [cbn; lia|]]].
    - rewrite Hps. repeat constructor; cbn; unfold page_num_ok; lia.
    - intros Hc. rewrite Hcc in Hc. discriminate Hc. }
  rewrite Hw. cbn [snd]. split_and!; [apply Hwr|by rewrite (wr_ps _ _ _ Hwr)|].
  intros p Hp. rewrite view_stored, (wr_stored _ _ _ Hwr) by (done || apply Hwr). cbn [write_pages].
  destruct (collect_map fx_cached !! p); [done|]. by rewrite <-view_stored, Hv.
Qed.

Definition fx_log : bytes := (finalize (append_manifest (write_log 512 [(0, fx_page 0 2); (5, fx_page 5 2)]) [Byte.x4d])).1.
Definition fx_staged : gmap Z bytes := {[ 0 := fx_page 0 2; 5 := fx_page 5 2 ]}.

Definition fx_state (faults : list (option nat)) : Vfs () MemStore := {|
  v_cache := fx_cache; v_backend := {| ms_objects := fx_objects; ms_faults := faults |};
  v_manifest := fx_manifest; v_dirty_groups := {[ 1 ]};
  v_pending := [ {| staging_path := "7.log"; pf_version := 7; pf_page_size := 512 |} ];
  v_logs := {[ "7.log"%string := fx_log ]}
|}.

Lemma fx_group_pages gid i p :
  0 ≤ gid → group_page_nums fx_manifest gid !! i = Some p →
  (gid, Z.of_nat i, p) ∈ [(0, 0, 0); (0, 1, 2); (0, 2, 1); (0, 3, 3); (1, 0, 4); (1, 1, 5)].
Proof.
  intros Hgid Hi. assert (group_page_nums fx_manifest gid = default [] (at_index [[0; 2; 1; 3]; [4; 5]] gid)) as Heq by done.
  rewrite Heq in Hi. clear Heq. unfold at_index in Hi. destruct (Z.ltb_spec gid 0); [lia|].
  destruct (Z.to_nat gid) as [|[|n]] eqn:Hn; cbn in Hi; [| |by destruct i].
  - assert (gid = 0) as -> by lia. do 4 (destruct i as [|i]; [injection Hi as <-; set_solver|]). by destruct i.
  - assert (gid = 1) as -> by lia. do 2 (destruct i as [|i]; [injection Hi as <-; set_solver|]). by destruct i.
Qed.

Lemma fx_group_len gid : (length (group_page_nums fx_manifest gid) ≤ 4)%nat.
Proof.
  change (group_page_nums fx_manifest gid) with (default [] (at_index [[0; 2; 1; 3]; [4; 5]] gid)).
  unfold at_index. destruct (gid <? 0); [cbn; lia|].
  destruct (Z.to_nat gid) as [|[|i]]; [cbn; lia..|]. rewrite lookup_ge_None_2 by (cbn; lia). cbn. lia.
Qed.

Lemma fx_geometry : geometry fx_manifest.
Proof.
  split.
  - split; [vm_compute; reflexivity|cbn; lia|cbn; lia|apply (bool_decide_eq_true_1 _); vm_compute; reflexivity|].
    repeat constructor; cbn; lia.
  - reflexivity.
  - reflexivity.
  - cbn. lia.
  - cbn. lia.
  - intros gid p Hgid [i Hi]%list_elem_of_lookup. apply fx_group_pages in Hi; [|done].
    change (page_count fx_manifest) with 6.
    rewrite !elem_of_cons, elem_of_nil in Hi. naive_solver lia.
  - intros gid. pose proof (fx_group_len gid). lia.
  - intros gid. pose proof (fx_group_len gid). change (Manifest.page_size fx_manifest) with 512. lia.
Qed.

Lemma fx_no_override gid f : override_of fx_manifest gid f = None.
Proof.
  rewrite override_of_or. change (subframe_overrides fx_manifest) with [∅; ∅ : gmap Z SubframeOverride].
  unfold at_or, at_index. destruct (gid <? 0); [done|]. destruct (Z.to_nat gid) as [|[|n]]; exact (lookup_empty (M := gmap Z) f).
Qed.

Lemma fx_keys_ok : keys_ok fx_manifest.
Proof.
  split; [change (version fx_manifest) with 7; lia|].
  intros [g|i|i|g f] k Hk; cbn [references] in Hk.
  - change (group_key fx_manifest g) with (key_at ["p/d/0_v7"; "p/d/1_v6"]%string g) in Hk.
    unfold key_at, at_index in Hk. destruct (Z.ltb_spec g 0); [done|].
    destruct (Z.to_nat g) as [|[|n]] eqn:Hn; cbn in Hk; [| |done].
    + assert (g = 0) as -> by lia. injection Hk as <-. split; [split; lia|]. exists 7. split; [change (version fx_manifest) with 7; lia|].
      vm_compute. reflexivity.
    + assert (g = 1) as -> by lia. injection Hk as <-. split; [split; lia|]. exists 6. split; [change (version fx_manifest) with 7; lia|].
      vm_compute. reflexivity.
  - change (interior_chunk_keys fx_manifest) with (∅ : gmap Z string) in Hk. by apply lookup_empty_Some in Hk.
  - change (index_chunk_keys fx_manifest) with (∅ : gmap Z string) in Hk. by apply lookup_empty_Some in Hk.
  - destruct Hk as (ovr & Ho & _). by rewrite fx_no_override in Ho.
Qed.

Lemma fx_local p : 0 ≤ p →
  local_page fx_staged fx_cache p =
    match fx_staged !! p with Some d => Some d | None => collect_map fx_cached !! p end.
Proof. intros Hp. unfold local_page. destruct (fx_staged !! p); [done|]. by apply fx_cache_run. Qed.

Lemma fx_object0_run :
  encode_page_group_seekable (Some <$> fx_base0) 512 2 (fx_rnd "") (aad_page_group 0) fx_key = Ok fx_object0.
Proof. vm_compute. reflexivity. Qed.

Lemma fx_base0_stored : stored_base fx_key fx_manifest fx_objects 0 fx_base0.
Proof.
  split; [repeat constructor|]. intros _. exists "p/d/0_v7"%string, fx_object0.1, (fx_rnd "").
  split; [reflexivity|]. split; [unfold fx_objects; by rewrite lookup_insert_eq|]. split; [done|].
  assert (group_frames fx_manifest 0 = Some fx_object0.2) as -> by (vm_compute; reflexivity).
  change (Manifest.page_size fx_manifest) with 512. change (Manifest.sub_pages_per_frame fx_manifest) with 2.
  split; [rewrite fx_object0_run; by destruct fx_object0|]. vm_compute. reflexivity.
Qed.

Definition fx_dirty : gset Z := dirty_groups_of fx_manifest fx_staged {[ 1 ]}.

Lemma fx_dirty_eq gid : gid ∈ fx_dirty ↔ gid = 0 ∨ gid = 1.
Proof.
  assert (fx_dirty = {[ 0; 1 ]}) as -> by (apply (bool_decide_eq_true_1 _); vm_compute; reflexivity). set_solver.
Qed.

Definition fx_threshold : Z := flush_threshold fx_manifest 2.

Lemma fx_frames0 : override_frames fx_manifest fx_staged fx_threshold 0 = Some [0].
Proof. vm_compute. reflexivity. Qed.
Lemma fx_frames1 : override_frames fx_manifest fx_staged fx_threshold 1 = None.
Proof. vm_compute. reflexivity. Qed.

Lemma fx_ready faults : ready fx_key 2 (fx_state faults) fx_staged.
Proof.
  destruct fx_cache_run as (Hok & Hps & Hview).
  split; [vm_compute; reflexivity|].
  cbn [v_manifest v_backend v_cache v_dirty_groups fx_state objects mem_backend ms_objects]. fold fx_dirty.
  split; fold fx_threshold.
  - exact fx_geometry.
  - exact fx_keys_ok.
  - change (version fx_manifest) with 7. lia.
  - exact Hok.
  - exact Hps.
  - apply (bool_decide_eq_true_1 _). vm_compute. reflexivity.
  - intros gid [-> | ->]%fx_dirty_eq; split; lia.
  - intros p loc Hp Hloc Hs. by eapply dirty_located.
  - intros gid [-> | ->]%fx_dirty_eq.
    + rewrite fx_frames0. right. exists fx_base0. split; [exact fx_base0_stored|]. split; [done|].
      intros i p _ _ _ _. apply fx_no_override.
    + rewrite fx_frames1. left. intros i p Hi _. apply fx_group_pages in Hi; [|lia]. rewrite fx_local.
      * rewrite !elem_of_cons, elem_of_nil in Hi. naive_solver.
      * rewrite !elem_of_cons, elem_of_nil in Hi. naive_solver lia.
  - intros gid i p d Hgid _ Hi Hs Hv Hor.
    assert (0 ≤ p) as Hp by (apply (ge_pages _ fx_geometry gid p Hgid); by eapply list_elem_of_lookup_2).
    apply fx_group_pages in Hi; [|done].
    rewrite Hview in Hv by done. apply elem_of_list_to_map_2 in Hv. rewrite elem_of_reverse in Hv. unfold fx_cached in Hv.
    rewrite !elem_of_cons, elem_of_nil in Hv.
    destruct Hv as [[-> ->]%pair_eq|[[-> ->]%pair_eq|[[-> ->]%pair_eq|[]]]].
    + unfold fx_staged in Hs. by rewrite lookup_insert_eq in Hs.
    + assert (gid = 0 ∧ i = 3%nat) as [-> ->].
      { clear -Hi. rewrite !elem_of_cons, elem_of_nil in Hi. naive_solver lia. }
      vm_compute. reflexivity.
    + assert (gid = 1) as -> by (clear -Hi; rewrite !elem_of_cons, elem_of_nil in Hi; naive_solver).
      destruct Hor as [Hn|Hn]; [destruct Hn; apply fx_dirty_eq; by right|]. rewrite fx_frames1 in Hn. by destruct Hn.
Qed.

(* ------------------------------------------------------------------ *)
(** * Witnesses *)

Definition fx_no_fails : FlushFails := {| ff_manifest := None; ff_dirty := None; ff_bitmap := None |}.

Definition fx_run (faults : list (option nat)) : io () * Vfs () MemStore :=
  run_flush fx_rnd full_to_vec full_from_slice version_encode version_decode fx_key fx_no_fails false true 2 8
    (fx_state faults).

(** No group has eight override frames. *)
Lemma fx_uncompacted pages : uncompacted 8 fx_manifest pages.
Proof.
  right. intros gid _. assert (at_or ∅ (subframe_overrides fx_manifest) gid = ∅) as ->.
  { change (subframe_overrides fx_manifest) with [∅; ∅ : gmap Z SubframeOverride]. unfold at_or, at_index.
    destruct (gid <? 0); [done|]. by destruct (Z.to_nat gid) as [|[|n]]. }
  rewrite dom_empty_L, (left_id_L ∅ (∪)). pose proof (size_frames_touched fx_manifest pages gid). pose proof (fx_group_len gid). lia.
Qed.

Lemma fx_works :
  flush_works full_to_vec full_from_slice version_encode version_decode fx_manifest fx_objects fx_cache fx_no_fails
    {| ms_objects := fx_objects; ms_faults := [] |}.
Proof.
  split.
  - reflexivity.
  - rewrite fx_state_file. exact full_file_works.
  - split; reflexivity.
  - exists 3. vm_compute. reflexivity.
  - by eexists.
  - exists None. split; [vm_compute; reflexivity|intros m0 [=]].
Qed.

Lemma fx_run_end faults : flush_end full_to_vec full_from_slice version_encode version_decode fx_key fx_no_fails
  (fx_state faults) fx_staged (fx_run faults).1 (fx_run faults).2.
Proof.
  destruct (fx_run faults) as [r w'] eqn:Hrun.
  apply (run_flush_end fx_rnd full_to_vec full_from_slice version_encode version_decode fx_key fx_no_fails
    false true 2 8 (fx_state faults) fx_staged r w' (fx_ready faults)); [exact (fx_uncompacted _)|exact Hrun].
Qed.

Lemma outcome_pair {A C} (x : A * C) (r : A) : x.1 = r → x = (r, x.2).
Proof. destruct x; cbn. by intros ->. Qed.

Lemma fx_run_ok : fx_run [] = (Ok (), (fx_run []).2).
Proof. exact (outcome_pair _ _ (fe_works _ _ _ _ _ _ _ _ _ _ (fx_run_end []) fx_works)). Qed.

Lemma flush_succeeds_witness : (fx_run []).1 = Ok ().
Proof.
  destruct (flush_succeeds fx_rnd full_to_vec full_from_slice version_encode version_decode fx_key fx_no_fails
    false true 2 8 (fx_state []) fx_staged (fx_ready []) (fx_uncompacted _)) as [_ Hok].
  exact (Hok fx_works).
Defined.


(** The batch upload fails after its first object. *)
Definition fx_faults : list (option nat) := [None; Some 1%nat].

Lemma fx_fails : (fx_run fx_faults).1 = Err OtherKind.
Proof. vm_compute. reflexivity. Qed.

Lemma flush_failure_atomic_witness :
  ∃ w', fx_run fx_faults = (Err OtherKind, w') ∧ v_pending w' = v_pending (fx_state fx_faults) ∧
    v_dirty_groups w' = {[ 1 ]} ∧
    cold_page fx_key fx_manifest (objects (v_backend w')) 0 = Some (fx_page 0 1) ∧
    cold_page fx_key fx_manifest (objects (v_backend w')) 5 = Some (fx_page 5 1).
Proof.
  exists (fx_run fx_faults).2. pose proof (outcome_pair _ _ fx_fails) as Hrun. split; [exact Hrun|].
  pose proof (flush_failure_atomic fx_rnd full_to_vec full_from_slice version_encode version_decode fx_key fx_no_fails
    false true 2 8 (fx_state fx_faults) fx_staged) as Hall.
  specialize (Hall OtherKind (fx_run fx_faults).2 (fx_ready fx_faults)). specialize (Hall (fx_uncompacted _)). specialize (Hall Hrun).
  destruct Hall as (Hp & Hd & _ & _ & Hpages & _).
  split; [exact Hp|]. split; [exact Hd|].
  split; [transitivity (cold_page fx_key fx_manifest fx_objects 0); [exact (Hpages 0)|]|
          transitivity (cold_page fx_key fx_manifest fx_objects 5); [exact (Hpages 5)|]]; vm_compute; reflexivity.
Defined.

Lemma flush_frees_only_garbage_witness :
  objects (v_backend (fx_run fx_faults).2) !! "p/d/1_v6"%string = fx_objects !! "p/d/1_v6"%string.
Proof.
  pose proof (flush_frees_only_garbage fx_rnd full_to_vec full_from_slice version_encode version_decode fx_key fx_no_fails
    false true 2 8 (fx_state fx_faults) fx_staged) as Hall.
  specialize (Hall (Err OtherKind) (fx_run fx_faults).2 (fx_ready fx_faults)). specialize (Hall (fx_uncompacted _)).
  specialize (Hall (outcome_pair _ _ fx_fails)). destruct Hall as [Hother _].
  destruct (Hother "p/d/1_v6"%string) as [Heq|[Hr _]]; [discriminate| |exact Heq|discriminate Hr].
  intros s Hs Heq. destruct (proj2 (slot_key_spec (PageGroup 1) s 6 8 ltac:(split; lia) Hs ltac:(split; lia) ltac:(split; lia)))
    as [_ Hv]; [|discriminate Hv]. transitivity "p/d/1_v6"%string; [vm_compute; reflexivity|exact Heq].
Defined.
