(* ===== verification/Handle.v ===== *)
(** A connection's file handle (src/src/tiered/handle.rs): its own state, and
    the reads of the database file.  A read finds the page in the cache, in a
    frame fetched by a range request, or in a whole group.

    Prefetching only asks the pool to fetch groups in advance: what the pool is
    asked is left out, what it does to the shared state while a read waits for
    it is the program [others].  The counters of hits and misses are left out. *)

From Stdlib Require Import SpecFloat.
From stdpp Require Import strings.
From S2P Require Import Prelude Float64 Keys CacheTracking LocalState Compress Encoding File DiskCache.
From S2P Require Import Staging Settings Manifest Backend ColdRead Vfs.

(* ------------------------------------------------------------------ *)
(** * The state of a connection *)

(** [PlannedAccess]: [AccessType::Scan] or a search. *)
Record PlannedAccess := { pa_tree : string; pa_scan : bool; pa_table : option string }.

(** [cache_dir/staging/<seq>.log], open for appending. *)
Record OpenLog := { ol_path : string; ol_writer : StagingWriter }.

(** [active_scan_prefetch] keeps the groups of each scanned tree,
    [planned_lookahead_searches] the trees. *)
Record Handle := {
  is_local : bool;
  local_checkpoint_only : bool;
  read_only : bool;
  h_page_size : Z;
  h_pages_per_group : Z;
  gc_enabled : bool;
  override_threshold : Z;
  compaction_threshold : Z;
  dirty_page_nums : gset Z;
  pending_page_count : Z;
  dirty_since_sync : bool;
  synced_since_write : bool;
  cached_generation : Z;
  query_plan_prefetch : bool;
  lookahead_enabled : bool;
  planned_lookahead_searches : gset string;
  active_scan_prefetch : gmap string (list Z);
  cache_limit : option Z;
  evict_on_checkpoint : bool;
  prefetch_search : list spec_float;
  prefetch_lookup : list spec_float;
  last_schema_cookie : option Z;
  staging_writer : option OpenLog
}.

#[export] Instance Handle_settable : Settable Handle := {| rebuild := λ h, {|
  is_local := is_local h; local_checkpoint_only := local_checkpoint_only h; read_only := read_only h;
  h_page_size := h_page_size h; h_pages_per_group := h_pages_per_group h; gc_enabled := gc_enabled h;
  override_threshold := override_threshold h; compaction_threshold := compaction_threshold h;
  dirty_page_nums := dirty_page_nums h; pending_page_count := pending_page_count h;
  dirty_since_sync := dirty_since_sync h; synced_since_write := synced_since_write h;
  cached_generation := cached_generation h; query_plan_prefetch := query_plan_prefetch h;
  lookahead_enabled := lookahead_enabled h; planned_lookahead_searches := planned_lookahead_searches h;
  active_scan_prefetch := active_scan_prefetch h; cache_limit := cache_limit h;
  evict_on_checkpoint := evict_on_checkpoint h; prefetch_search := prefetch_search h;
  prefetch_lookup := prefetch_lookup h; last_schema_cookie := last_schema_cookie h;
  staging_writer := staging_writer h |} |}.

(** The handle, what all handles share, the signals of the query hooks, the
    queue of settings, and the shared counter of staging logs. *)
Record Conn (K B : Type) := {
  conn : Handle;
  shared : Vfs K B;
  end_query : bool;
  plan_queue : list PlannedAccess;
  settings_queue : list SettingUpdate;
  staging_seq : Z
}.
Arguments conn {_ _}. Arguments shared {_ _}. Arguments end_query {_ _}. Arguments plan_queue {_ _}.
Arguments settings_queue {_ _}. Arguments staging_seq {_ _}.

#[export] Instance Conn_settable K B : Settable (Conn K B) := {| rebuild := λ s, {|
  conn := conn s; shared := shared s; end_query := end_query s; plan_queue := plan_queue s;
  settings_queue := settings_queue s; staging_seq := staging_seq s |} |}.

Definition Op (K B A : Type) : Type := Conn K B → io A * Conn K B.

#[export] Instance Op_ret K B : MRet (Op K B) := λ A a s, (Ok a, s).
#[export] Instance Op_bind K B : MBind (Op K B) := λ A C f m s,
  match m s with
  | (Ok a, s') => f a s'
  | (Err e, s') => (Err e, s')
  | (Panic, s') => (Panic, s')
  end.

Section op.
Context {K B : Type}.

Definition raise {A} (r : io A) : Op K B A := λ s, (r, s).
Definition look {A} (f : Conn K B → A) : Op K B A := λ s, (Ok (f s), s).
Definition change (f : Conn K B → Conn K B) : Op K B () := λ s, (Ok (), f s).

Definition on_vfs {A} (m : Prog K B A) : Op K B A := λ s,
  let '(r, w) := m (shared s) in (r, s <| shared := w |>).
End op.

(** The pool of prefetch workers, as a read asks it: is the group being fetched,
    is the frame waited for, does the wait end with the page installed. *)
Record PrefetchPool := {
  is_optional_fetching : Z → bool;
  is_frame_pending : Z → Z → bool;
  wait_for_frame_page : Z → Z → Z → bool
}.

(** A page, or the next source. *)
Definition or_else {K B} (m n : Prog K B (option bytes)) : Prog K B (option bytes) :=
  r ← m; match r with Some d => mret (Some d) | None => n end.

Section handle.
Context `{HashIter} `{Compression} `{Aead K} `{StorageBackend B}.
Variable nonce : Z → bytes.
Variable key : option K.
Variable now : Z.

(* ------------------------------------------------------------------ *)
(** * Page types *)

Definition detect_interior_page (buf : bytes) (page_num : Z) : Prog K B () :=
  m ← reads v_manifest;
  match page_location m page_num with
  | None => mret ()
  | Some loc =>
    if is_interior page_num buf then on_cache (mark_interior_group now (group_id loc) page_num (index loc))
    else if is_index_leaf page_num buf then on_cache (mark_index_page now page_num (group_id loc) (index loc))
    else mret ()
  end.

(** The page types in what was fetched: [n] says which pages, [start] where the
    first one is in its group; [leaves] whether index leaves count. *)
Definition tag_pages (leaves : bool) (ps : Z) (raw : bytes) (gid start : Z) (pages : list Z) : M K () :=
  for_each (λ ip,
    match at_index raw (ip.1 * ps + header_offset ip.2) with
    | None => mret ()
    | Some b =>
      let t := of_le [b] in
      if (t =? 5) || (t =? 2) then mark_interior_group now gid ip.2 (wrap32 (start + ip.1))
      else if leaves && (t =? 10) then
        match slice (ip.1 * ps) (ip.1 * ps + ps) raw with
        | Some page => if is_valid_btree_page page (header_offset ip.2)
                       then mark_index_page now ip.2 gid (wrap32 (start + ip.1)) else mret ()
        | None => mret ()
        end
      else mret ()
    end) (enumerate pages).

(* ------------------------------------------------------------------ *)
(** * Serving a page *)

Definition serve (gid page_num : Z) (page : bytes) : Prog K B (option bytes) :=
  _ ← detect_interior_page page page_num;
  _ ← on_cache (touch_group now gid);
  mret (Some page).

(** A page the cache has. *)
Definition try_cached (gid page_num : Z) (buf : bytes) : Prog K B (option bytes) :=
  r ← on_cache (read_page_if_present page_num buf);
  match r with Some page => serve gid page_num page | None => mret None end.

(* ------------------------------------------------------------------ *)
(** * Fetching *)

(** The pages of the group's own object, one after the other. *)
Definition decode_whole_group (m : Manifest) (gid : Z) (data : bytes) : io bytes :=
  match group_frames m gid with
  | Some ft =>
    '(_, _, bulk) ← decode_page_group_seekable_full data ft (Manifest.page_size m)
      (wrap32 (Z.of_nat (length (group_page_nums m gid)))) (page_count m) 0 (aad_page_group gid) key;
    Ok bulk
  | None =>
    '(_, _, bulk) ← decode_page_group_bulk data (aad_page_group gid) key;
    Ok bulk
  end.

(** [&gp[frame_start..frame_end]]. *)
Definition frame_page_nums (m : Manifest) (gid frame_idx : Z) : io (list Z) :=
  let gp := group_page_nums m gid in
  let frame_start := frame_idx * Manifest.sub_pages_per_frame m in
  let frame_end := Z.min (frame_start + Manifest.sub_pages_per_frame m) (Z.of_nat (length gp)) in
  or_panic (slice frame_start frame_end gp).

(** ** One frame *)

(** The bytes of the frame: the override's object, or a range of the group's. *)
Definition get_frame (m : Manifest) (gid frame_idx : Z) (base_key : string) (entry : FrameEntry) :
    Prog K B (option bytes) :=
  match override_of m gid frame_idx with
  | Some ovr => on_backend (get_page_group (ovr_key ovr))
  | None => on_backend (range_get base_key (fe_offset entry) (fe_len entry))
  end.

Definition frame_aad (m : Manifest) (gid frame_idx : Z) : bytes :=
  match override_of m gid frame_idx with
  | Some _ => aad_override_frame gid frame_idx
  | None => aad_page_group gid
  end.

(** The pages of a fetched frame go to the cache when all of them are there. *)
Definition cache_frame (m : Manifest) (gid frame_idx : Z) (raw : bytes) : Prog K B () :=
  let ps := Manifest.page_size m in
  let start := frame_idx * Manifest.sub_pages_per_frame m in
  nums ← pure (frame_page_nums m gid frame_idx);
  let data_len := Z.of_nat (length nums) * ps in
  _ ← (if negb (bool_decide (nums = [])) && (data_len <=? Z.of_nat (length raw))
       then on_cache (write_pages_scattered nonce now nums (take (Z.to_nat data_len) raw) gid (wrap32 start))
       else mret ());
  on_cache (tag_pages true ps raw gid start nums).

(** [None]: there is no such frame, or its object is missing. *)
Definition fetch_frame (m : Manifest) (gid idx page_num : Z) (buf : bytes) (base_key : string) (entry : FrameEntry) :
    Prog K B (option bytes) :=
  let spf := Manifest.sub_pages_per_frame m in
  let frame_idx := idx / spf in
  fetched ← get_frame m gid frame_idx base_key entry;
  match fetched with
  | None => match override_of m gid frame_idx with
            | Some _ => pure (Err NotFound)
            | None => mret None
            end
  | Some compressed =>
    raw ← pure (decode_seekable_subchunk compressed (frame_aad m gid frame_idx) key);
    let src := idx mod spf * Manifest.page_size m in
    let page := default (zeros (length buf)) (slice src (src + Z.of_nat (length buf)) raw) in
    _ ← cache_frame m gid frame_idx raw;
    serve gid page_num page
  end.

Section waiting.
Variable pool : option PrefetchPool.
Variable others : nat → Prog K B ().

(** [wait_for_group], then [clear_timed_out_fetching]. *)
Definition await_group (n : nat) (gid : Z) : Prog K B () :=
  _ ← others n;
  s ← reads (λ w, group_state (v_cache w) gid);
  if bool_decide (s = Fetching) then _ ← on_cache (unclaim_if_fetching gid); mret () else mret ().

(** A worker that is fetching the group, or the frame, is waited for. *)
Definition await_prefetch (gid frame_idx page_num : Z) (buf : bytes) : Prog K B (option bytes) :=
  match pool with
  | None => mret None
  | Some pool =>
    s ← reads (λ w, group_state (v_cache w) gid);
    or_else
      (if bool_decide (s = Fetching) && is_optional_fetching pool gid
       then _ ← await_group 0 gid; try_cached gid page_num buf else mret None)
      (if is_frame_pending pool gid frame_idx
       then _ ← others 1%nat;
            if wait_for_frame_page pool gid frame_idx page_num then try_cached gid page_num buf else mret None
       else mret None)
  end.

(** The range request for the frame of position [idx]. *)
Definition seekable_read (m : Manifest) (gid idx page_num : Z) (buf : bytes) : Prog K B (option bytes) :=
  match group_frames m gid with
  | None => mret None
  | Some ft =>
    let frame_idx := idx / Manifest.sub_pages_per_frame m in
    match at_index ft frame_idx with
    | None => mret None
    | Some entry =>
      base_key ← pure (or_panic (at_index (page_group_keys m) gid));
      or_else (await_prefetch gid frame_idx page_num buf) (fetch_frame m gid idx page_num buf base_key entry)
    end
  end.

(** ** A whole group *)

(** Pages beyond the end of the decoded data are an error. *)
Definition install_group (m : Manifest) (gid : Z) (data : bytes) : Prog K B () :=
  let ps := Manifest.page_size m in
  let gp := group_page_nums m gid in
  let data_len := Z.of_nat (length gp) * ps in
  bulk ← pure (decode_whole_group m gid data);
  _ ← (if bool_decide (gp = []) then mret ()
       else if data_len <=? Z.of_nat (length bulk)
            then on_cache (write_pages_scattered nonce now gp (take (Z.to_nat data_len) bulk) gid 0)
            else pure (Err InvalidData));
  _ ← on_cache (tag_pages false ps bulk gid 0 gp);
  _ ← on_cache (mark_group_present now gid);
  on_cache (touch_group now gid).

Definition unclaim (gid : Z) : Prog K B () := _ ← on_cache (unclaim_if_fetching gid); mret ().

(** The group this thread has claimed. *)
Definition download_group (m : Manifest) (gid : Z) : Prog K B () :=
  match group_key m gid with
  | None => unclaim gid
  | Some k =>
    r ← attempt (on_backend (get_page_group k));
    match r with
    | inl _ => _ ← unclaim gid; pure (Err OtherKind)
    | inr None => unclaim gid
    | inr (Some data) =>
      r ← attempt (install_group m gid data);
      match r with
      | inl e => _ ← unclaim gid; pure (Err e)
      | inr _ => mret ()
      end
    end
  end.

Definition legacy_read (m : Manifest) (gid : Z) : Prog K B () :=
  s ← reads (λ w, group_state (v_cache w) gid);
  _ ← (if bool_decide (s = Fetching) then await_group 2 gid else mret ());
  s ← reads (λ w, group_state (v_cache w) gid);
  if bool_decide (s = Present) then mret () else
  claimed ← on_cache (try_claim_group gid);
  if claimed : bool then download_group m gid else await_group 3 gid.

(** A page whose bit is clear may still have its bytes in the cache file. *)
Definition fallback_read (gid page_num : Z) (buf : bytes) : Prog K B (option bytes) :=
  r ← attempt (on_cache (read_page page_num buf));
  match r with
  | inr page =>
    if existsb (λ b, negb (bool_decide (b = Byte.x00))) page then
      r ← attempt (on_cache (write_page nonce now page_num page));
      match r with
      | inl _ => pure (Err OtherKind)
      | inr _ => _ ← on_cache (mark_group_present now gid); serve gid page_num page
      end
    else pure (Err NotFound)
  | inl _ => pure (Err NotFound)
  end.

(** ** From a remote backend *)

Definition remote_read (planned_scan : bool) (gid idx page_num : Z) (buf : bytes) : Prog K B (option bytes) :=
  m ← reads v_manifest;
  or_else (try_cached gid page_num buf)
    (or_else (if planned_scan then mret None else seekable_read m gid idx page_num buf)
       (_ ← legacy_read m gid;
        or_else (try_cached gid page_num buf) (fallback_read gid page_num buf))).
End waiting.

(** ** From the local page groups *)

(** One override over the pages just installed; failures are ignored. *)
Definition local_override (m : Manifest) (gid : Z) (fo : Z * SubframeOverride) : Prog K B () :=
  r ← attempt (on_backend (get_page_group (ovr_key fo.2)));
  match r with
  | inr (Some data) =>
    match decode_seekable_subchunk data (aad_override_frame gid fo.1) key with
    | Ok raw =>
      nums ← pure (frame_page_nums m gid fo.1);
      let data_len := Z.of_nat (length nums) * Manifest.page_size m in
      if data_len <=? Z.of_nat (length raw) then
        _ ← attempt (on_cache (write_pages_scattered nonce now nums (take (Z.to_nat data_len) raw) gid
                                 (wrap32 (fo.1 * Manifest.sub_pages_per_frame m))));
        mret ()
      else mret ()
    | Err _ => mret ()
    | Panic => pure Panic
    end
  | _ => mret ()
  end.

Definition local_install (m : Manifest) (gid : Z) (data : bytes) : Prog K B () :=
  match decode_whole_group m gid data with
  | Ok bulk =>
    _ ← on_cache (write_pages_scattered nonce now (group_page_nums m gid) bulk gid 0);
    let overrides := default ∅ (at_index (subframe_overrides m) gid) in
    _ ← (if negb (bool_decide (overrides = ∅)) && (0 <? Manifest.sub_pages_per_frame m)
         then fold_prog (λ _, local_override m gid) () (hiter overrides) else mret ());
    _ ← on_cache (mark_group_present now gid);
    on_cache (touch_group now gid)
  | Err _ => mret ()
  | Panic => pure Panic
  end.

Definition local_read (gid page_num : Z) (buf : bytes) : Prog K B (option bytes) :=
  m ← reads v_manifest;
  or_else
    (match group_key m gid with
     | None => mret None
     | Some k =>
       r ← attempt (on_backend (get_page_group k));
       match r with
       | inr (Some data) => _ ← local_install m gid data; try_cached gid page_num buf
       | _ => mret None
       end
     end)
    (pure (Err NotFound)).

(* ------------------------------------------------------------------ *)
(** * Before the lookup: settings, the end of a query, the new plan *)

Definition apply_setting (kv : SettingUpdate) (s : Conn K B) : Conn K B :=
  let '(k, v) := kv in
  if decide (k = "prefetch"%string) then
    match parse_hops v with
    | Some hops => s <| conn ::= λ h, h <| prefetch_search := hops |> <| prefetch_lookup := hops |> |>
    | None => s
    end
  else if decide (k = "prefetch_search"%string) then
    match parse_hops v with Some hops => s <| conn ::= λ h, h <| prefetch_search := hops |> |> | None => s end
  else if decide (k = "prefetch_lookup"%string) then
    match parse_hops v with Some hops => s <| conn ::= λ h, h <| prefetch_lookup := hops |> |> | None => s end
  else if decide (k = "prefetch_reset"%string) then
    let d z := default S754_nan (parse_f32 z) in
    s <| conn ::= λ h, h <| prefetch_search := [d "0.3"; d "0.3"; d "0.4"]%string |>
                         <| prefetch_lookup := [d "0"; d "0"; d "0"]%string |> |>
  else if decide (k = "plan_aware"%string) then s <| conn ::= λ h, h <| query_plan_prefetch := parse_flag v |> |>
  else if decide (k = "lookahead"%string) then s <| conn ::= λ h, h <| lookahead_enabled := parse_flag v |> |>
  else if decide (k = "cache_limit"%string) then
    match parse_byte_size v with
    | Some n =>
      s <| conn ::= λ h, h <| cache_limit := if n =? 0 then None else Some n |> |>
        <| shared ::= λ w, w <| v_cache ::= λ c, c <| cache_budget_bytes := n |> |> |>
    | None => s
    end
  else if decide (k = "evict_on_checkpoint"%string) then
    s <| conn ::= λ h, h <| evict_on_checkpoint := parse_flag v |> |>
  else s.

Definition drain_settings : Op K B () :=
  change (λ s, foldl (λ s kv, apply_setting kv s) (s <| settings_queue := [] |>) (settings_queue s)).

(** The groups an eviction between queries must spare. *)
Definition skip_groups (h : Handle) (w : Vfs K B) : gset Z :=
  list_to_set (omap (λ p, group_id <$> page_location (v_manifest w) p) (elements (dirty_page_nums h)))
  ∪ v_dirty_groups w ∪ fetching_group_ids (v_cache w).

Definition finish_query : Op K B () :=
  ended ← look end_query;
  if negb ended then mret () else
  _ ← change (λ s, s <| end_query := false |>
                     <| conn ::= λ h, h <| planned_lookahead_searches := ∅ |> <| active_scan_prefetch := ∅ |> |>);
  h ← look conn;
  match cache_limit h with
  | None => mret ()
  | Some limit =>
    skip ← look (λ s, skip_groups h (shared s));
    _ ← on_vfs (on_cache (evict_to_budget now limit skip));
    mret ()
  end.

(** The scans of the plan that the manifest knows groups for. *)
Definition planned_scans (m : Manifest) (planned : list PlannedAccess) : gmap string (list Z) :=
  foldl (λ acc a, match tree_name_to_groups (tree_indexes m) !! pa_tree a with
                  | Some gids => if pa_scan a then <[pa_tree a := gids]> acc else acc
                  | None => acc
                  end) ∅ planned.

Definition lookahead_trees (planned : list PlannedAccess) : gset string :=
  list_to_set (omap (λ a, match pa_table a with
                          | Some t => if negb (pa_scan a) && negb (bool_decide (t = pa_tree a))
                                      then Some (pa_tree a) else None
                          | None => None
                          end) planned).

Definition take_plan (has_pool : bool) : Op K B () :=
  aware ← look (query_plan_prefetch ∘ conn);
  if negb aware then mret () else
  planned ← look plan_queue;
  if bool_decide (planned = []) then mret () else
  change (λ s, s <| plan_queue := [] |>
    <| conn ::= λ h, let h := h <| planned_lookahead_searches := lookahead_trees planned |> in
         if has_pool then h <| active_scan_prefetch := planned_scans (v_manifest (shared s)) planned |> else h |>).

(** Whether a scan of the current plan covers the group. *)
Definition planned_scan_group (h : Handle) (gid : Z) : bool :=
  existsb (λ scan : string * list Z, bool_decide (gid ∈ scan.2)) (map_to_list (active_scan_prefetch h)).

(* ------------------------------------------------------------------ *)
(** * Reading *)

Definition lookahead_active (h : Handle) : bool :=
  lookahead_enabled h && negb (bool_decide (planned_lookahead_searches h = ∅)).

(** A cached page, when no handle has written since this one last synced. *)
Definition fast_read (page_num : Z) (buf : bytes) : Op K B (option bytes) :=
  s ← look id;
  let h := conn s in
  let w := shared s in
  if dirty_since_sync h || lookahead_active h then mret None
  else if (generation (v_cache w) =? cached_generation h) && (page_num <? page_count (v_manifest w))
  then on_vfs (on_cache (read_page_if_present page_num buf)) else mret None.

(** The page of a group, by way of the cache. *)
Definition read_located (pool : option PrefetchPool) (others : nat → Prog K B ()) (loc : PageLocation)
    (page_num : Z) (buf : bytes) : Op K B bytes :=
  let gid := group_id loc in
  _ ← drain_settings;
  _ ← finish_query;
  _ ← take_plan (bool_decide (is_Some pool));
  h ← look conn;
  r ← on_vfs (or_else (try_cached gid page_num buf)
               (if is_local h then local_read gid page_num buf
                else remote_read pool others (planned_scan_group h gid) gid (index loc) page_num buf));
  raise (ok_or r NotFound).

(** The buffer after [read_exact_at(buf, offset)]; a page size of 0 is not yet
    known, and taken from the buffer. *)
Definition read_exact_at (pool : option PrefetchPool) (others : nat → Prog K B ()) (buf : bytes) (offset : Z) :
    Op K B bytes :=
  h ← look conn;
  let ps := if 0 <? h_page_size h then h_page_size h else Z.of_nat (length buf) in
  _ ← raise (if ps =? 0 then Panic else Ok ());
  let page_num := offset / ps in
  fast ← fast_read page_num buf;
  match fast with
  | Some page => mret page
  | None =>
    if decide (page_num ∈ dirty_page_nums h) then
      r ← on_vfs (on_cache (read_page_if_present page_num buf));
      raise (ok_or r NotFound)
    else
      m ← look (v_manifest ∘ shared);
      if page_count m <=? page_num then mret (zeros (length buf)) else
      match page_location m page_num with
      | None => mret (zeros (length buf))
      | Some loc => read_located pool others loc page_num buf
      end
  end.
End handle.
