(* ===== verification/Programs.v ===== *)
(** Rules for the programs of the model: what the operations of the cache leave
    alone, and triples for the programs over the shared state ([triple]). *)

From S2P Require Import Prelude Float64 CacheTracking Manifest LocalState Compress File DiskCache.
From S2P Require Import Staging Backend Vfs Keeps CacheView CacheWrite CacheSafety CacheSteps.

(* ------------------------------------------------------------------ *)
(** * What no fetch, write or eviction changes *)

Section frame.
Context `{HashIter} `{Compression} `{Aead K} (nonce : Z → bytes).
Implicit Types c : DiskCache K.

(** The configuration, the geometry, the manifest generation and the budget are
    those of [c0]; identifiers stay in their machine types. *)
Record framed (c0 c : DiskCache K) : Prop := {
  fm_cfg : cfg c = cfg c0;
  fm_ps : page_size c = page_size c0;
  fm_groups : group_pages c = group_pages c0;
  fm_ids : ids_ok c;
  fm_access : access_ok c
}.

Lemma framed_refl c : ids_ok c → access_ok c → framed c c.
Proof. by split. Qed.

Lemma framed_trans c1 c2 c3 : framed c1 c2 → framed c2 c3 → framed c1 c3.
Proof. intros [] []. split; congruence || done. Qed.

Lemma same_tracker_framed c0 c c' :
  framed c0 c → cfg c' = cfg c → page_size c' = page_size c → group_pages c' = group_pages c →
  tracker c' = tracker c → group_access c' = group_access c → framed c0 c'.
Proof.
  intros [Hc Hp Hg Hi Ha] Hc' Hp' Hg' Ht Hac.
  split; [congruence..| |]; [unfold ids_ok; by rewrite Ht|unfold access_ok; by rewrite Hac].
Qed.

Definition tracker_ids (t : SubChunkTracker) : Prop := set_Forall id_ok (present t).

Lemma id_ok_for t gid i : id_ok (sub_chunk_id_for t gid i).
Proof. unfold id_ok, is_u32, is_u16, sub_chunk_id_for, wrap32, wrap16. cbn. split; apply Z.mod_pos_bound; lia. Qed.

Lemma id_ok_page t p : id_ok (sub_chunk_for_page t p).
Proof.
  unfold id_ok, is_u32, is_u16, sub_chunk_for_page, wrap32, wrap16. case_match; cbn; [lia|].
  split; apply Z.mod_pos_bound; lia.
Qed.

Lemma tracker_ids_insert t id b ts a cs :
  id_ok id → tracker_ids t → tracker_ids (with_maps t ({[ id ]} ∪ present t) b ts a cs).
Proof. intros Hid Ht. unfold tracker_ids. cbn. apply set_Forall_union; [by apply set_Forall_singleton|done]. Qed.

Lemma tracker_ids_remove t ids : tracker_ids t → tracker_ids (remove_all t ids).
Proof. intros Ht. unfold tracker_ids. rewrite remove_all_present. intros id Hid. apply Ht. set_solver. Qed.

Lemma tracker_ids_positions now gid start n t :
  tracker_ids t → tracker_ids (mark_group_positions now gid start n t).
Proof.
  unfold mark_group_positions. generalize (range 0 (Z.of_nat n)). intros l. revert t.
  induction l as [|i l IH]; intros t Ht; cbn; [done|]. apply IH. by apply tracker_ids_insert; [apply id_ok_for|].
Qed.

Lemma tracker_ids_sub_chunks now ids t : Forall id_ok ids → tracker_ids t → tracker_ids (mark_sub_chunks now ids t).
Proof.
  unfold mark_sub_chunks. generalize (∅ : gset SubChunkId). intros seen Hids. revert t seen.
  induction Hids as [|id ids Hid _ IH]; intros t seen Ht; [done|]. cbn [foldl].
  destruct (decide (id ∈ seen)); [by apply IH|]. apply IH. by apply tracker_ids_insert.
Qed.

Lemma tracker_ids_touch {A} now (f : A → SubChunkId) l t :
  tracker_ids t → tracker_ids (foldl (λ t x, touch t now (f x)) t l).
Proof. revert t. induction l as [|x l IH]; intros t Ht; [done|]. by apply IH. Qed.

(** A change of the tracker alone. *)
Lemma framed_tracker c0 c f : framed c0 c → (tracker_ids (tracker c) → tracker_ids (f (tracker c))) →
  framed c0 (c <| tracker ::= f |>).
Proof. intros [Hc Hp Hg Hi Ha] Hf. split; try done. by apply Hf. Qed.

(** ** The operations *)

Context (c0 : DiskCache K).
Abbreviation kept := (keeps (framed c0)).

Lemma kept_modify (f : DiskCache K → DiskCache K) :
  (∀ c, cfg (f c) = cfg c ∧ page_size (f c) = page_size c ∧ group_pages (f c) = group_pages c ∧
        group_access (f c) = group_access c ∧ (tracker_ids (tracker c) → tracker_ids (tracker (f c)))) →
  kept (modify f).
Proof.
  intros Hf. apply keeps_modify. intros c [Hc Hp Hg Hi Ha]. destruct (Hf c) as (E1 & E2 & E3 & E4 & E5).
  split; [congruence..|by apply E5|unfold access_ok; by rewrite E4].
Qed.

Lemma kept_fault : kept pop_fault.
Proof. intros c Hc. unfold pop_fault. destruct (faults c); [done|]. by eapply same_tracker_framed. Qed.

Lemma kept_draw : kept (draw_nonce nonce).
Proof. intros c Hc. by eapply same_tracker_framed. Qed.

Hint Resolve kept_fault kept_draw : keeps.
Hint Extern 1 (keeps _ (modify _)) => (apply kept_modify; intros ?; by split_and!) : keeps.

Lemma kept_set_len n : kept (set_len n).
Proof. unfold set_len. keeps_all. Qed.
Lemma kept_write_all d off : kept (write_all_at d off).
Proof. unfold write_all_at. keeps_all. Qed.
Lemma kept_read_exact n off : kept (read_exact_at n off).
Proof. unfold read_exact_at. keeps_all. Qed.
Hint Resolve kept_set_len kept_write_all kept_read_exact : keeps.

Lemma kept_ensure_len n : kept (ensure_file_len n).
Proof. unfold ensure_file_len. keeps_all. Qed.
Lemma kept_encrypt d : kept (encrypt_slot nonce d).
Proof. unfold encrypt_slot. keeps_all. Qed.
Lemma kept_read_page p buf : kept (read_page p buf).
Proof. unfold read_page, read_page_compressed, check_tainted. keeps_all. Qed.
Lemma kept_bitmap_mark p : kept (bitmap_mark p).
Proof. unfold bitmap_mark. keeps_all. Qed.
Lemma kept_bitmap_reserve p : kept (bitmap_reserve p).
Proof. unfold bitmap_reserve. keeps_all. Qed.
Lemma kept_mark_pages l : kept (mark_pages l).
Proof. unfold mark_pages. keeps_all. Qed.
Hint Resolve kept_ensure_len kept_encrypt kept_read_page kept_bitmap_mark kept_bitmap_reserve kept_mark_pages : keeps.

Lemma kept_present p buf : kept (read_page_if_present p buf).
Proof. unfold read_page_if_present. keeps_all. Qed.

Lemma kept_install p d : kept (install_mem_cache_page p d).
Proof.
  intros c Hc. unfold install_mem_cache_page, ensure_mem_cache_capacity, modify, set_slot.
  repeat case_match; try done; by eapply same_tracker_framed.
Qed.
Hint Resolve kept_install kept_present : keeps.

Lemma kept_make_blob d : kept (make_blob nonce d).
Proof. unfold make_blob. keeps_all. Qed.
Hint Resolve kept_make_blob : keeps.

Lemma kept_tracker f : (∀ t, tracker_ids t → tracker_ids (f t)) → kept (modify (λ c, c <| tracker ::= f |>)).
Proof. intros Hf. apply kept_modify. intros c. split_and!; try done. apply Hf. Qed.

Lemma kept_write_page now p d : kept (write_page nonce now p d).
Proof.
  unfold write_page, write_page_compressed, check_tainted. keeps_all. apply kept_tracker. intros t.
  apply tracker_ids_insert, id_ok_page.
Qed.

Lemma kept_write_scattered now pages data gid start : kept (write_pages_scattered nonce now pages data gid start).
Proof.
  unfold write_pages_scattered, write_pages_scattered_compressed, promote_scattered_to_mem_cache, store_blobs,
    check_tainted. keeps_all; apply kept_tracker; intros t; apply tracker_ids_positions.
Qed.
Hint Resolve kept_write_page kept_write_scattered : keeps.

Lemma drop_slots_framed l c : framed c0 c → framed c0 (drop_slots l c).
Proof. intros Hc. destruct (drop_slots_spec l c) as [(m & b & ->) _]. by eapply same_tracker_framed. Qed.

Lemma kept_clear_disk l : kept (clear_pages_from_disk l).
Proof.
  apply keeps_modify. intros c Hc. set (c1 := c <| bitmap ::= _ |>).
  assert (framed c0 (drop_slots l c1)) as Hc1 by by apply drop_slots_framed; eapply same_tracker_framed.
  cbn zeta. fold c1. case_match; by eapply same_tracker_framed.
Qed.

Lemma kept_clear_mem l : kept (clear_pages_from_mem_cache l).
Proof. apply keeps_modify. intros c Hc. case_match; [done|]. by apply drop_slots_framed. Qed.
Hint Resolve kept_clear_disk kept_clear_mem : keeps.

Lemma kept_evict_sub id : kept (evict_sub_chunk id).
Proof.
  unfold evict_sub_chunk. keeps_all. apply kept_modify. intros c. split_and!; try done. apply (tracker_ids_remove _ [id]).
Qed.
Hint Resolve kept_evict_sub : keeps.

Lemma kept_victims budget l n : kept (evict_victims budget l n).
Proof. revert n. induction l as [|id l IH]; intros n; cbn [evict_victims]; keeps_all; apply IH. Qed.
Hint Resolve kept_victims : keeps.

Lemma kept_compact : kept compact_compressed_cache.
Proof. unfold compact_compressed_cache. keeps_all. unfold compact_entry. keeps_all. Qed.
Hint Resolve kept_compact : keeps.

Lemma kept_evict_to_budget now budget skip : kept (evict_to_budget now budget skip).
Proof. unfold evict_to_budget. keeps_all. Qed.

Lemma kept_set_state gid s : kept (modify (set_group_state gid s)).
Proof. apply kept_modify. intros c. unfold set_group_state. by destruct (gid <? 0). Qed.
Hint Resolve kept_evict_to_budget kept_set_state : keeps.

Lemma kept_evict_group gid : kept (evict_group gid).
Proof.
  unfold evict_group. keeps_all. apply kept_modify. intros c. split_and!; try done. apply tracker_ids_remove.
Qed.
Hint Resolve kept_evict_group : keeps.

Lemma kept_evict_expired now : kept (evict_expired now).
Proof.
  unfold evict_expired. keeps_all. apply keeps_modify. intros c [Hc Hp Hg Hi Ha]. split; try done.
  by apply map_Forall_delete.
Qed.

Lemma kept_mark_present now gid : kept (mark_group_present now gid).
Proof. unfold mark_group_present, ensure_group_capacity. keeps_all. apply kept_evict_expired. Qed.

Lemma kept_touch now gid : is_u32 gid → kept (touch_group now gid).
Proof.
  intros Hgid. apply keeps_modify. intros c [Hc Hp Hg Hi Ha]. split; try done.
  - cbn. by apply tracker_ids_touch.
  - by apply map_Forall_insert_2.
Qed.

Lemma kept_interior now gid p i : kept (mark_interior_group now gid p i).
Proof.
  apply kept_modify. intros c. split_and!; try done. cbn. case_match; [|done]. apply tracker_ids_insert, id_ok_for.
Qed.

Lemma kept_index now p gid i : kept (mark_index_page now p gid i).
Proof.
  apply kept_modify. intros c. split_and!; try done. cbn. case_match; [|done]. apply tracker_ids_insert, id_ok_for.
Qed.

Lemma kept_claim gid : kept (try_claim_group gid).
Proof. unfold try_claim_group, ensure_group_capacity. keeps_all. Qed.

Lemma kept_unclaim gid : kept (unclaim_if_fetching gid).
Proof. unfold unclaim_if_fetching. keeps_all. Qed.
End frame.

#[export] Hint Resolve kept_present kept_read_page kept_write_page kept_write_scattered kept_evict_to_budget
  kept_mark_present kept_touch kept_interior kept_index kept_claim kept_unclaim : keeps.

(* ------------------------------------------------------------------ *)
(** * Triples *)

Section triple.
Context {K B : Type}.
Implicit Types (P E : Vfs K B → Prop).

(** From [P], the program does not panic; it ends in [Q] with a value or in
    [E] with an error. *)
Definition triple {A} P (m : Prog K B A) (Q : A → Vfs K B → Prop) E : Prop :=
  ∀ w, P w → match m w with (Ok a, w') => Q a w' | (Err _, w') => E w' | (Panic, _) => False end.

Lemma triple_ret {A} P (a : A) (Q : A → Vfs K B → Prop) E : (∀ w, P w → Q a w) → triple P (mret a) Q E.
Proof. intros HQ w. apply HQ. Qed.

Lemma triple_bind {A C} P (m : Prog K B A) (f : A → Prog K B C) (R : A → Vfs K B → Prop) Q E :
  triple P m R E → (∀ a, triple (R a) (f a) Q E) → triple P (m ≫= f) Q E.
Proof.
  intros Hm Hf w Hw. specialize (Hm w Hw). unfold mbind, Prog_bind.
  destruct (m w) as [[a|e|] w']; [by apply Hf|done|done].
Qed.

Lemma triple_conseq {A} P P' (m : Prog K B A) Q Q' E E' :
  triple P m Q E → (∀ w, P' w → P w) → (∀ a w, Q a w → Q' a w) → (∀ w, E w → E' w) → triple P' m Q' E'.
Proof. intros Hm HP HQ HE w Hw. specialize (Hm w (HP w Hw)). destruct (m w) as [[a|e|] w']; auto. Qed.

Lemma triple_reads {A} P (f : Vfs K B → A) Q E : (∀ w, P w → Q (f w) w) → triple P (reads f) Q E.
Proof. intros HQ w. apply HQ. Qed.

Lemma triple_reads_bind {A C} P (f : Vfs K B → A) (g : A → Prog K B C) Q E :
  (∀ a, triple (λ w, P w ∧ f w = a) (g a) Q E) → triple P (reads f ≫= g) Q E.
Proof. intros Hg. apply (triple_bind _ _ _ (λ a w, P w ∧ f w = a)); [|done]. by apply triple_reads. Qed.

Lemma triple_pure {A} P (r : io A) (Q : A → Vfs K B → Prop) E a : r = Ok a → (∀ w, P w → Q a w) → triple P (pure r) Q E.
Proof. intros -> HQ w. apply HQ. Qed.

Lemma triple_pure_bind {A C} P (r : io A) (f : A → Prog K B C) Q E a :
  r = Ok a → triple P (f a) Q E → triple P (pure r ≫= f) Q E.
Proof. by intros ->. Qed.

Lemma triple_throw {A} P e (Q : A → Vfs K B → Prop) E : (∀ w, P w → E w) → triple P (pure (Err e)) Q E.
Proof. intros HE w. apply HE. Qed.

Lemma triple_false {A} (m : Prog K B A) Q E : triple (λ _, False) m Q E.
Proof. by intros w. Qed.

Lemma triple_attempt {A} P (m : Prog K B A) (Q : io_kind + A → Vfs K B → Prop) E :
  triple P m (λ a w, Q (inr a) w) (λ w, ∀ e, Q (inl e) w) → triple P (attempt m) Q E.
Proof. intros Hm w Hw. specialize (Hm w Hw). unfold attempt. destruct (m w) as [[a|e|] w']; auto. Qed.

Lemma triple_pre {A} P (φ : Prop) (m : Prog K B A) Q E : (∀ w, P w → φ) → (φ → triple P m Q E) → triple P m Q E.
Proof. intros Hφ Hm w Hw. exact (Hm (Hφ w Hw) w Hw). Qed.

(** A cache program that succeeds. *)
Lemma triple_cache {A} P (x : M K A) (Q : A → Vfs K B → Prop) E :
  (∀ w, P w → ∃ a c', x (v_cache w) = (Ok a, c') ∧ Q a (w <| v_cache := c' |>)) → triple P (on_cache x) Q E.
Proof. intros Hx w Hw. unfold on_cache. by destruct (Hx w Hw) as (a & c' & -> & HQ). Qed.

Lemma triple_backend {A} P (f : B → io A * B) (Q : A → Vfs K B → Prop) E :
  (∀ w, P w → match f (v_backend w) with
     | (Ok a, b) => Q a (w <| v_backend := b |>) | (Err _, b) => E (w <| v_backend := b |>) | (Panic, _) => False end) →
  triple P (on_backend f) Q E.
Proof. intros Hf w Hw. specialize (Hf w Hw). unfold on_backend. by destruct (f (v_backend w)) as [[a|e|] b]. Qed.
End triple.
