(* ===== verification/HandleRead.v ===== *)
(** Reads through a handle (Handle.v) return the database: what the cache and
    the stored objects must hold ([coherent]), and that a read of a page from
    its frame returns it, whatever other threads do to the cache meanwhile. *)

From S2P Require Import Prelude Float64 Keys Manifest Compress Encoding Backend ColdRead FlushManifest.
From S2P Require Import CacheTracking LocalState File DiskCache CacheView CacheWrite CacheSafety CacheSteps.
From S2P Require Import Staging Settings Vfs FlushPages Keeps Programs Handle.

(* ------------------------------------------------------------------ *)
(** * Listed pages and slices *)

(** The group of a located page starts below the end. *)
Lemma located_group m p loc :
  geometry m → 0 ≤ p → page_location m p = Some loc → strategy m = Positional →
  0 < Manifest.pages_per_group m ∧ group_id loc * Manifest.pages_per_group m < page_count m.
Proof.
  intros Hg Hp. unfold page_location. intros Hl Hs. rewrite Hs in Hl. pose proof (wf_ppg _ (ge_wf _ Hg)).
  destruct (Z.eqb_spec (Manifest.pages_per_group m) 0); [done|]. destruct (Z.leb_spec (page_count m) p); [done|].
  injection Hl as <-. cbn. split; [lia|]. pose proof (Z.mul_div_le p (Manifest.pages_per_group m) ltac:(lia)). lia.
Qed.

(** The pages of such a group are located where they are listed. *)
Lemma listed_location `{HashIter} m p loc i q :
  geometry m → 0 ≤ p → page_location m p = Some loc → group_page_nums m (group_id loc) !! i = Some q →
  page_location m q = Some {| group_id := group_id loc; index := Z.of_nat i |}.
Proof.
  intros Hg Hp Hloc Hi. destruct (location_listed m p loc Hg Hp Hloc) as [Hgid _].
  assert (0 ≤ q < page_count m) as Hq by (apply (ge_pages _ Hg (group_id loc)); [done|by eapply list_elem_of_lookup_2]).
  assert (same_layout m m) as Hl by done. rewrite <-(rebuilt_page_location m m q Hg Hl).
  pose proof (lookup_lt_Some _ _ _ Hi) as Hlt. pose proof (ge_len _ Hg (group_id loc)).
  apply (page_location_iff_listed_spec m (group_id loc) (Z.of_nat i) q (ge_wf _ Hg) Hgid); [lia|lia|].
  rewrite (rebuilt_group_page_nums m m (group_id loc) (ge_strategy _ Hg) Hl). split; [|by rewrite lookup_at_index].
  rewrite build_page_index_strategy, (ge_strategy _ Hg). intros Hs.
  destruct (located_group m p loc Hg Hp Hloc Hs) as [Hppg Hlt'].
  assert (Manifest.group_pages m = []) as Hgp.
  { pose proof (ge_strategy _ Hg) as Hd. rewrite Hs in Hd. by apply detected_Positional in Hd as [? _]. }
  apply total_groups_positional; [done|apply Hg|apply Hg|done|]. done.
Qed.

(** Blocks of a byte string, one after the other. *)
Lemma slices_concat ps (raw : bytes) (pages : list bytes) :
  0 < ps → (∀ i d, pages !! i = Some d → slice (Z.of_nat i * ps) (Z.of_nat i * ps + ps) raw = Some d) →
  take (length pages * Z.to_nat ps) raw = concat pages ∧
  (pages ≠ [] → Z.of_nat (length pages) * ps ≤ Z.of_nat (length raw)).
Proof.
  intros Hps Hs. induction pages as [|d pages IH] using rev_ind; [split; [by rewrite take_0|done]|].
  destruct IH as [IH _].
  { intros i d' Hi. apply Hs. by apply lookup_app_l_Some. }
  specialize (Hs (length pages) d). rewrite lookup_app_r, Nat.sub_diag in Hs by lia. specialize (Hs eq_refl).
  apply slice_Some in Hs as (_ & Hle & Hd). replace (Z.of_nat (length pages) * ps + ps - Z.of_nat (length pages) * ps) with ps in Hd by lia.
  rewrite length_app, concat_app. cbn [length concat]. rewrite app_nil_r. split; [|lia].
  rewrite Nat.mul_add_distr_r, Nat.mul_1_l. rewrite <-IH, Hd.
  replace (Z.to_nat (Z.of_nat (length pages) * ps)) with (length pages * Z.to_nat ps)%nat by lia.
  rewrite <-(take_drop (length pages * Z.to_nat ps) raw) at 1. rewrite take_app_add'; [done|].
  rewrite length_take. nia.
Qed.

Lemma Vfs_same_cache {K B} (w : Vfs K B) : w <| v_cache := v_cache w |> = w.
Proof. by destruct w. Qed.

(* ------------------------------------------------------------------ *)
(** * Coherence *)

(** Page numbers and group numbers are [u32]s, every frame table belongs to a
    group with a key and has an entry for each frame of the group. *)
Record small m : Prop := {
  sm_pages : page_count m ≤ 2 ^ 32;
  sm_groups : Z.of_nat (length (Manifest.group_pages m)) ≤ 2 ^ 32;
  sm_tables : (length (frame_tables m) ≤ length (page_group_keys m))%nat;
  sm_entries : ∀ gid ft i, group_frames m gid = Some ft → (i < length (group_page_nums m gid))%nat →
    is_Some (at_index ft (Z.of_nat i / Manifest.sub_pages_per_frame m))
}.

Section coherence.
Context `{HashIter} `{Compression} `{Aead K} `{StorageLaws B} (nonce : Z → bytes) `{!CacheLaws nonce}.
Variable key : option K.
Variable m : Manifest.
(** The database: the newest content of each page. *)
Variable D : Z → bytes.
(** The pages whose newest content is not in storage yet. *)
Variable unstored : gset Z.
(** Whether the backend is assumed not to fail. *)
Variable live : Prop.
Implicit Types (w : Vfs K B) (c : DiskCache K).

(** The cache holds nothing but pages of the database; the objects under the
    manifest hold every page that is not still to be uploaded. *)
Record coherent w : Prop := {
  co_manifest : v_manifest w = m;
  co_cache : cache_ok (v_cache w);
  co_ids : ids_ok (v_cache w);
  co_access : access_ok (v_cache w);
  co_size : page_size (v_cache w) = Manifest.page_size m;
  co_sound : ∀ p d, 0 ≤ p → stored (v_cache w) p = Some d → d = D p;
  co_stored : ∀ p, 0 ≤ p → is_Some (page_location m p) → p ∉ unstored →
    cold_page key m (objects (v_backend w)) p = Some (D p);
  co_live : live → reliable (v_backend w)
}.

(** Room in the compressed cache for the pages of a group. *)
Definition roomy w : Prop :=
  cache_compression (cfg (v_cache w)) = true → next_offset (cache_index (v_cache w)) < 2 ^ 62.

Definition ready w : Prop := coherent w ∧ roomy w.

(** Where a failing program may end. *)
Definition failed w : Prop := coherent w ∧ ¬ live.

(** A cache with other pages of the database. *)
Lemma coherent_cache w c :
  coherent w → framed (v_cache w) c → cache_ok c → (∀ p d, 0 ≤ p → stored c p = Some d → d = D p) →
  coherent (w <| v_cache := c |>).
Proof. intros [] [] Hok Hs. split; try done. cbn. congruence. Qed.

Lemma coherent_shrinks w c :
  coherent w → framed (v_cache w) c → shrinks (v_cache w) c → coherent (w <| v_cache := c |>).
Proof.
  intros Hco Hf [Hok Hs]. apply coherent_cache; [done..|]. intros p d Hp Hd. apply (co_sound _ Hco); [done|]. by apply Hs.
Qed.

Lemma coherent_same_store w c :
  coherent w → framed (v_cache w) c → same_store (v_cache w) c → coherent (w <| v_cache := c |>).
Proof. intros Hco Hf Hs. apply coherent_shrinks; [done..|]. apply same_store_shrinks; [apply Hco|done]. Qed.

Lemma coherent_framed w : coherent w → framed (v_cache w) (v_cache w).
Proof. intros Hco. by apply framed_refl; apply Hco. Qed.

Lemma coherent_backend w b :
  coherent w → objects b = objects (v_backend w) → (reliable (v_backend w) → reliable b) →
  coherent (w <| v_backend := b |>).
Proof. intros [] Ho Hr. split; try done; cbn; [by rewrite Ho|auto]. Qed.

(** A property of caches that tracker, group states and annotations do not matter for. *)
Definition annotation_stable (P : Vfs K B → Prop) : Prop :=
  ∀ w c, P w → framed (v_cache w) c → same_store (v_cache w) c → P (w <| v_cache := c |>).

Lemma coherent_stable : annotation_stable coherent.
Proof. intros w c. apply coherent_same_store. Qed.

Lemma ready_stable : annotation_stable ready.
Proof.
  intros w c [Hco Hr] Hf Hs. split; [by apply coherent_same_store|]. unfold roomy. cbn.
  destruct Hs as (-> & _ & _ & _ & _ & _ & _ & -> & _). done.
Qed.

(** A program that changes nothing else, and succeeds. *)
Record annotates {A} (x : M K A) : Prop := {
  an_ok : ∀ c, ∃ a, (x c).1 = Ok a;
  an_framed : ∀ c0, keeps (framed c0) x;
  an_store : ∀ c0, keeps (same_store c0) x
}.

Lemma triple_annotate {A} (x : M K A) (P : Vfs K B → Prop) (E : Vfs K B → Prop) :
  annotates x → annotation_stable P → (∀ w, P w → coherent w) → triple P (on_cache x) (λ _, P) E.
Proof.
  intros [Ho Hf Hs] Hst Hco. apply triple_cache. intros w Hw. destruct (Ho (v_cache w)) as [a Ha].
  pose proof (Hf (v_cache w) _ (coherent_framed w (Hco w Hw))) as Hfr.
  pose proof (Hs (v_cache w) (v_cache w) ltac:(by repeat split)) as Hss.
  destruct (x (v_cache w)) as [r c'] eqn:Hx. cbn in *. subst r. exists a, c'. split; [done|]. by apply Hst.
Qed.

Lemma keeps_same_modify c0 (f : DiskCache K → DiskCache K) :
  (∀ c, same_store c (f c)) → keeps (same_store c0) (modify f).
Proof.
  intros Hf. apply keeps_modify. intros c (E1 & E2 & E3 & E4 & E5 & E6 & E7 & E8 & E9 & E10).
  destruct (Hf c) as (F1 & F2 & F3 & F4 & F5 & F6 & F7 & F8 & F9 & F10). by repeat split; congruence.
Qed.

Lemma annotates_modify (f : DiskCache K → DiskCache K) :
  (∀ c0, keeps (framed c0) (modify f)) → (∀ c, same_store c (f c)) → annotates (modify f).
Proof. intros Hf Hs. split; [by intros c; exists ()|done|]. intros c0. by apply keeps_same_modify. Qed.

Lemma annotates_ret {A} (a : A) : annotates (mret a).
Proof. split; [by intros c; exists a|intros c0; apply keeps_ret..]. Qed.

Lemma annotates_bind {A C} (x : M K A) (f : A → M K C) :
  annotates x → (∀ a, annotates (f a)) → annotates (x ≫= f).
Proof.
  intros [Ho Hf Hs] Hc. split.
  - intros c. unfold mbind, M_bind. destruct (Ho c) as [a Ha]. destruct (x c) as [r c']. cbn in Ha. subst r. apply (Hc a).
  - intros c0. apply keeps_bind; [done|]. intros a. apply (Hc a).
  - intros c0. apply keeps_bind; [done|]. intros a. apply (Hc a).
Qed.

Lemma annotates_for_each {A} (f : A → M K ()) l : (∀ x, annotates (f x)) → annotates (for_each f l).
Proof.
  intros Hf. induction l as [|x l IH]; cbn; [apply annotates_ret|]. by apply annotates_bind.
Qed.

Lemma annotates_touch now gid : is_u32 gid → annotates (touch_group now gid).
Proof. intros Hg. apply annotates_modify; [|by repeat split]. intros c0. by apply kept_touch. Qed.

Lemma annotates_interior now gid p i : annotates (mark_interior_group now gid p i).
Proof. apply annotates_modify; [|by repeat split]. intros c0. apply kept_interior. Qed.

Lemma annotates_index now p gid i : annotates (mark_index_page now p gid i).
Proof. apply annotates_modify; [|by repeat split]. intros c0. apply kept_index. Qed.

Lemma annotates_tag now leaves ps raw gid start pages : annotates (tag_pages now leaves ps raw gid start pages).
Proof.
  apply annotates_for_each. intros [i p]. cbn [fst snd]. destruct (at_index _ _) as [b|]; [|apply annotates_ret].
  destruct ((_ =? 5) || _); [apply annotates_interior|]. destruct (leaves && _); [|apply annotates_ret].
  destruct (slice _ _ _) as [page|]; [|apply annotates_ret].
  destruct (is_valid_btree_page _ _); [apply annotates_index|apply annotates_ret].
Qed.

Lemma annotates_unclaim gid : annotates (unclaim_if_fetching gid).
Proof.
  split; [intros c; unfold unclaim_if_fetching, mbind, M_bind, gets; cbn; repeat case_match; by eexists
    |intros c0; apply kept_unclaim|].
  intros c0. unfold unclaim_if_fetching. keeps_all. apply keeps_same_modify. intros c. apply only_states_store, only_states_set.
Qed.

(* ------------------------------------------------------------------ *)
(** * Serving from the cache *)

Context (Hg : geometry m) (Hsmall : small m).
Variables (page_num : Z) (loc : PageLocation) (buf : bytes) (now : Z).
Context (Hnum : 0 ≤ page_num) (Hloc : page_location m page_num = Some loc).
Context (Hbuf : Z.of_nat (length buf) = Manifest.page_size m).
Abbreviation gid := (group_id loc).

Lemma gid_u32 : is_u32 gid.
Proof.
  destruct (location_listed m page_num loc Hg Hnum Hloc) as (Hgid & i & _ & Hi). unfold is_u32. split; [done|].
  destruct (strategy m) eqn:Hs.
  - destruct (located_group m page_num loc Hg Hnum Hloc Hs) as [Hppg Hlt]. pose proof (sm_pages _ Hsmall). nia.
  - unfold group_page_nums in Hi. rewrite Hs in Hi. destruct (at_index (Manifest.group_pages m) gid) as [g|] eqn:Ha; [|done].
    apply at_index_Some in Ha as [_ Ha]. apply lookup_lt_Some in Ha. pose proof (sm_groups _ Hsmall). lia.
Qed.

(** The page as the answer. *)
Definition served (r : option bytes) w : Prop := r = Some (D page_num) ∧ coherent w.

Lemma triple_serve (P : Vfs K B → Prop) (E : Vfs K B → Prop) d :
  annotation_stable P → (∀ w, P w → coherent w) → d = D page_num →
  triple P (serve now gid page_num d) (λ r w, r = Some (D page_num) ∧ P w) E.
Proof.
  intros Hst Hco ->. unfold serve. apply (triple_bind _ _ _ (λ _, P)).
  - unfold detect_interior_page. apply triple_reads_bind. intros m'.
    apply (triple_conseq P _ _ (λ _, P) _ E E); [|by intros w [? _]|done|done].
    destruct (page_location m' page_num) as [loc'|]; [|by apply triple_ret].
    destruct (is_interior _ _); [by apply triple_annotate; [apply annotates_interior|..]|].
    destruct (is_index_leaf _ _); [by apply triple_annotate; [apply annotates_index|..]|by apply triple_ret].
  - intros _. apply (triple_bind _ _ _ (λ _, P)).
    + by apply triple_annotate; [apply annotates_touch, gid_u32|..].
    + intros _. by apply triple_ret.
Qed.

(** A page that is not cached leaves the state as it was. *)
Lemma triple_try_cached (P : Vfs K B → Prop) (E : Vfs K B → Prop) :
  annotation_stable P → (∀ w, P w → coherent w) →
  triple P (try_cached now gid page_num buf)
    (λ r w, P w ∧ match r with Some d => d = D page_num | None => stored (v_cache w) page_num = None end) E.
Proof.
  intros Hst Hco. unfold try_cached.
  apply (triple_bind _ _ _ (λ r w, P w ∧ r = stored (v_cache w) page_num)).
  - apply triple_cache. intros w Hw. pose proof (Hco w Hw) as Hc. exists (view (v_cache w) page_num), (v_cache w).
    rewrite read_present_run; [|apply Hc|done|by rewrite (co_size _ Hc)]. split; [done|].
    rewrite view_stored by (done || apply Hc). by destruct w.
  - intros [d|]; [|by apply triple_ret; intros w [? <-]].
    apply (triple_pre _ (d = D page_num)).
    { intros w [Hw Heq]. by apply (co_sound _ (Hco w Hw)). }
    intros ->. apply (triple_conseq P _ _ (λ r w, r = Some (D page_num) ∧ P w) _ E E); [|by intros w [? _]| |done].
    + by apply triple_serve.
    + by intros r w [-> Hw].
Qed.

(* ------------------------------------------------------------------ *)
(** * Installing pages of the database *)

Lemma collect_pages (nums : list Z) q d : collect_map (zip nums (D <$> nums)) !! q = Some d → d = D q.
Proof.
  induction nums as [|p nums IH] using rev_ind; [done|].
  rewrite fmap_app, zip_with_app by by rewrite length_fmap. cbn. rewrite collect_snoc.
  destruct (decide (q = p)) as [->|]; [by intros [= <-]|done].
Qed.

Lemma slice_size {A} (a n : Z) (l k : list A) : slice a (a + n) l = Some k → Z.of_nat (length k) = n.
Proof. intros Hs%slice_length. lia. Qed.

(** Consecutive pages [nums] of a group, in [raw]. *)
Definition holds_pages (raw : bytes) (nums : list Z) : Prop :=
  ∀ j q, nums !! j = Some q →
    slice (Z.of_nat j * Manifest.page_size m) (Z.of_nat j * Manifest.page_size m + Manifest.page_size m) raw = Some (D q).

Lemma holds_concat raw nums :
  holds_pages raw nums → nums ≠ [] →
  take (Z.to_nat (Z.of_nat (length nums) * Manifest.page_size m)) raw = concat (D <$> nums) ∧
  Z.of_nat (length nums) * Manifest.page_size m ≤ Z.of_nat (length raw).
Proof.
  intros Hh Hne. destruct (slices_concat (Manifest.page_size m) raw (D <$> nums)) as [Ht Hl].
  - apply (ge_ps _ Hg).
  - intros j d Hj. rewrite list_lookup_fmap in Hj. destruct (nums !! j) as [q|] eqn:Hq; [|done]. injection Hj as <-. by apply Hh.
  - rewrite length_fmap in Ht, Hl. split; [|apply Hl; by destruct nums]. rewrite <-Ht. f_equal. lia.
Qed.

Lemma page_bound q : q ∈ group_page_nums m gid → page_num_ok q.
Proof.
  intros Hq. destruct (location_listed m page_num loc Hg Hnum Hloc) as [Hgid _].
  apply (ge_pages _ Hg) in Hq; [|done]. pose proof (sm_pages _ Hsmall). unfold page_num_ok. lia.
Qed.

Lemma triple_install raw nums start (E : Vfs K B → Prop) :
  holds_pages raw nums → nums ≠ [] → (∀ q, q ∈ nums → q ∈ group_page_nums m gid) → Z.of_nat (length nums) ≤ 2 ^ 14 →
  triple ready (on_cache (write_pages_scattered nonce now nums
    (take (Z.to_nat (Z.of_nat (length nums) * Manifest.page_size m)) raw) gid start)) (λ _, coherent) E.
Proof.
  intros Hh Hne Hin Hlen. apply triple_cache. intros w [Hco Hroom].
  destruct (holds_concat raw nums Hh Hne) as [-> _]. set (pages := zip nums (D <$> nums)).
  assert (pages.*1 = nums) as Hfst by (apply fst_zip; by rewrite length_fmap).
  assert (pages.*2 = D <$> nums) as Hsnd by (apply snd_zip; by rewrite length_fmap).
  assert (length pages = length nums) as Hl by (by rewrite <-(length_fmap fst pages), Hfst).
  destruct (run_write_run nonce (WriteScattered now pages gid start) (v_cache w)) as (c' & Hrun & Hw).
  - apply Hco.
  - cbn [write_pages]. split; [|split; [|split]].
    + apply Forall_lookup. intros j [q d] Hj. apply lookup_zip_with_Some in Hj as (q' & d' & [= -> ->] & Hq & Hd).
      cbn. split; [by apply page_bound, Hin; eapply list_elem_of_lookup_2|]. rewrite list_lookup_fmap, Hq in Hd.
      injection Hd as <-. rewrite (co_size _ Hco). eapply slice_size. by apply Hh.
    + change (pages ≠ []). intros Hp. apply Hne. by rewrite <-Hfst, Hp.
    + change (write_pages (WriteScattered now pages gid start)) with pages. lia.
    + change (write_pages (WriteScattered now pages gid start)) with pages. intros Hc. specialize (Hroom Hc). lia.
  - cbn [run_write] in Hrun. rewrite Hfst, Hsnd in Hrun. exists (), c'. split; [done|].
    apply coherent_cache; [done| |apply Hw|].
    + pose proof (kept_write_scattered nonce (v_cache w) now nums (concat (D <$> nums)) gid start _ (coherent_framed w Hco)) as Hk.
      by rewrite Hrun in Hk.
    + intros q d Hq. rewrite (wr_stored _ _ _ Hw) by done. cbn [write_pages].
      destruct (collect_map pages !! q) as [d'|] eqn:Hd; [|by apply (co_sound _ Hco)]. intros [= <-]. by apply (collect_pages nums).
Qed.

(* ------------------------------------------------------------------ *)
(** * A frame *)

(** No page of the group is still to be uploaded. *)
Definition group_stored : Prop := ∀ q, q ∈ group_page_nums m gid → q ∉ unstored.

Lemma group_slot w i q :
  coherent w → group_stored → group_page_nums m gid !! i = Some q →
  cold_slot key m (objects (v_backend w)) gid (Z.of_nat i) = Some (D q).
Proof.
  intros Hco Hst Hi. pose proof (listed_location m page_num loc i q Hg Hnum Hloc Hi) as Hl.
  assert (q ∈ group_page_nums m gid) as Hin by by eapply list_elem_of_lookup_2.
  assert (0 ≤ q) as Hq by (destruct (page_bound q Hin); lia).
  pose proof (co_stored _ Hco q Hq ltac:(by rewrite Hl) (Hst q Hin)) as Hc.
  unfold cold_page in Hc. rewrite Hl in Hc. exact Hc.
Qed.

Context (Hstored : group_stored) (ft : list FrameEntry) (Hft : group_frames m gid = Some ft).
Abbreviation spf := (Manifest.sub_pages_per_frame m).
Abbreviation ps := (Manifest.page_size m).
Abbreviation frame := (index loc / spf).

Lemma spf_pos : 0 < spf.
Proof.
  unfold group_frames in Hft. destruct (at_index _ _) as [[|e l]|]; [done| |done].
  by destruct (Z.ltb_spec 0 spf).
Qed.

(** The pages of the frame, and the place of the page in it. *)
Lemma frame_nums :
  ∃ nums, frame_page_nums m gid frame = Ok nums ∧ nums ≠ [] ∧ Z.of_nat (length nums) ≤ 2 ^ 14 ∧
    (∀ j q, nums !! j = Some q → group_page_nums m gid !! (Z.to_nat (frame * spf) + j)%nat = Some q) ∧
    nums !! Z.to_nat (index loc mod spf) = Some page_num ∧ Z.of_nat (length nums) ≤ spf.
Proof.
  pose proof spf_pos as Hspf. destruct (location_listed m page_num loc Hg Hnum Hloc) as (Hgid & i & Hidx & Hi).
  pose proof (lookup_lt_Some _ _ _ Hi) as Hlt. pose proof (ge_len _ Hg gid) as Hlen. set (gp := group_page_nums m gid) in *.
  pose proof (Z.div_mod (index loc) spf ltac:(lia)) as Hdm. pose proof (Z.mod_pos_bound (index loc) spf ltac:(lia)) as Hmod.
  set (f := frame) in *. set (r := index loc mod spf) in *. assert (0 ≤ f) by (apply Z.div_pos; lia).
  unfold frame_page_nums. fold gp. set (a := f * spf) in *. set (b := Z.min (a + spf) (Z.of_nat (length gp))).
  assert (0 ≤ a) by (unfold a; nia). assert (a ≤ b ≤ Z.of_nat (length gp)) as Hab by (unfold a, b; nia).
  assert (slice a b gp = Some (take (Z.to_nat (b - a)) (drop (Z.to_nat a) gp))) as ->.
  { apply slice_Some. split; [lia|]. split; [lia|done]. }
  exists (take (Z.to_nat (b - a)) (drop (Z.to_nat a) gp)). split; [done|].
  assert (length (take (Z.to_nat (b - a)) (drop (Z.to_nat a) gp)) = Z.to_nat (b - a)) as Hn by (rewrite length_take, length_drop; lia).
  assert (r < b - a) by (unfold a, b, r in *; nia).
  split_and!.
  - intros Hnil. rewrite Hnil in Hn. cbn in Hn. lia.
  - lia.
  - intros j q Hj. rewrite <-lookup_drop. by apply lookup_take_Some in Hj as [? _].
  - rewrite lookup_take_lt by lia. rewrite lookup_drop. rewrite <-Hi. f_equal. unfold a, r in *. nia.
  - unfold b in *. lia.
Qed.

(** What the frame decodes to holds its pages. *)
Lemma frame_raw w nums :
  coherent w → (∀ j q, nums !! j = Some q → group_page_nums m gid !! (Z.to_nat (frame * spf) + j)%nat = Some q) →
  nums !! Z.to_nat (index loc mod spf) = Some page_num → Z.of_nat (length nums) ≤ spf →
  ∃ raw, cold_frame key m (objects (v_backend w)) gid frame ft = Some raw ∧ holds_pages raw nums.
Proof.
  intros Hco Hnums Hpage Hmax. pose proof spf_pos as Hspf.
  destruct (location_listed m page_num loc Hg Hnum Hloc) as (Hgid & i & Hidx & Hi).
  assert (0 ≤ frame) by (apply Z.div_pos; lia).
  pose proof (group_slot w i page_num Hco Hstored Hi) as Hs. unfold cold_slot in Hs. rewrite Hft, <-Hidx in Hs.
  destruct (cold_frame key m _ gid frame ft) as [raw|] eqn:Hraw; [|done]. exists raw. split; [done|].
  intros j q Hj. pose proof (group_slot w _ q Hco Hstored (Hnums j q Hj)) as Hq. unfold cold_slot in Hq. rewrite Hft in Hq.
  pose proof (lookup_lt_Some _ _ _ Hj) as Hlt.
  replace (Z.of_nat (Z.to_nat (frame * spf) + j)) with (Z.of_nat j + frame * spf) in Hq by nia.
  rewrite Z.div_add, Z.mod_add, (Z.div_small (Z.of_nat j)), (Z.mod_small (Z.of_nat j)), Z.add_0_l in Hq by lia.
  by rewrite Hraw in Hq.
Qed.

Lemma not_live w b : coherent w → objects b = objects (v_backend w) → (reliable (v_backend w) → reliable b) →
  ¬ reliable (v_backend w) → failed (w <| v_backend := b |>).
Proof.
  intros Hco Ho Hr Hn. split; [by apply coherent_backend|]. intros Hl. by apply Hn, (co_live _ Hco).
Qed.

Lemma ready_backend w b :
  ready w → objects b = objects (v_backend w) → (reliable (v_backend w) → reliable b) → ready (w <| v_backend := b |>).
Proof. intros [Hco Hr] Ho Hb. split; [by apply coherent_backend|done]. Qed.

(** The frame is fetched, from its override or from its range of the group. *)
Lemma triple_get_frame base_key entry nums :
  at_index (page_group_keys m) gid = Some base_key → at_index ft frame = Some entry →
  (∀ j q, nums !! j = Some q → group_page_nums m gid !! (Z.to_nat (frame * spf) + j)%nat = Some q) →
  nums !! Z.to_nat (index loc mod spf) = Some page_num → Z.of_nat (length nums) ≤ spf →
  triple ready (get_frame m gid frame base_key entry)
    (λ r w, ready w ∧ ∃ data raw, r = Some data ∧
       decode_seekable_subchunk data (frame_aad m gid frame) key = Ok raw ∧ holds_pages raw nums) failed.
Proof.
  intros Hkey Hentry Hnums Hpage Hmax. unfold get_frame, frame_aad.
  assert (∀ w, ready w → ∃ raw, cold_frame key m (objects (v_backend w)) gid frame ft = Some raw ∧ holds_pages raw nums) as Hcold
    by (intros w [Hco _]; by apply frame_raw).
  unfold cold_frame in Hcold. destruct (override_of m gid frame) as [ovr|].
  - apply triple_backend. intros w Hw. destruct (get_page_group_run (ovr_key ovr) (v_backend w)) as (r & b & -> & Ho & Hr & Hb).
    destruct Hr as [->|[-> Hn]]; [|by apply not_live; [apply Hw|..]]. split; [by apply ready_backend|].
    destruct (Hcold w Hw) as (raw & Hraw & Hh). destruct (objects (v_backend w) !! ovr_key ovr) as [data|]; [|done].
    cbn in Hraw. exists data, raw. split; [done|]. split; [|done].
    destruct (decode_seekable_subchunk _ _ _); cbn in Hraw; congruence.
  - apply triple_backend. intros w Hw. destruct (Hcold w Hw) as (raw & Hraw & Hh). unfold base_frame in Hraw.
    rewrite Hentry in Hraw. cbn in Hraw. unfold group_key, key_at in Hraw. rewrite Hkey in Hraw.
    assert (∃ data frame, objects (v_backend w) !! base_key = Some data ∧
      slice (fe_offset entry) (fe_offset entry + fe_len entry) data = Some frame ∧
      ok_value (decode_seekable_subchunk frame (aad_page_group gid) key) = Some raw) as (data & fr & Hdata & Hsl & Hdec).
    { destruct base_key as [|a k]; [done|]. cbn in Hraw.
      destruct (objects (v_backend w) !! String.String a k) as [data|] eqn:Hd; [|done]. cbn in Hraw.
      destruct (slice _ _ data) as [fr|] eqn:Hsl; [|done]. cbn in Hraw. exists data, fr. by rewrite <-Hd. }
    apply slice_Some in Hsl as (Hoff & Hle & ->).
    destruct (range_get_run base_key (fe_offset entry) (fe_len entry) (v_backend w)) as (r & b & -> & Ho & Hnp & Hv & Hrel).
    assert (reliable (v_backend w) → (∃ v, r = Ok v) ∧ reliable b) as Hrel'.
    { intros Hr. apply Hrel; [done|]. intros d. rewrite Hdata. intros [= <-]. lia. }
    destruct r as [[d|]|e|]; [| | |done].
    + destruct (Hv _ eq_refl) as (full & Hfull & -> & Hlen). rewrite Hdata in Hfull. injection Hfull as <-.
      split; [apply ready_backend; [done|done|by intros [_ ?]%Hrel']|]. eexists _, raw. split; [reflexivity|]. split; [|done].
      replace (fe_offset entry + fe_len entry - fe_offset entry) with (fe_len entry) in Hdec by lia.
      destruct (decode_seekable_subchunk _ _ _); cbn in Hdec; congruence.
    + specialize (Hv _ eq_refl). cbn in Hv. congruence.
    + apply not_live; [apply Hw|done|by intros [_ ?]%Hrel'|]. by intros [[v Hn] _]%Hrel'.
Qed.

Lemma triple_cache_frame raw nums (E : Vfs K B → Prop) :
  frame_page_nums m gid frame = Ok nums → nums ≠ [] → Z.of_nat (length nums) ≤ 2 ^ 14 →
  (∀ j q, nums !! j = Some q → group_page_nums m gid !! (Z.to_nat (frame * spf) + j)%nat = Some q) →
  holds_pages raw nums →
  triple ready (cache_frame nonce now m gid frame raw) (λ _, coherent) E.
Proof.
  intros Hnums Hne Hlen Hin Hh. unfold cache_frame. eapply triple_pure_bind; [exact Hnums|].
  destruct (holds_concat raw nums Hh Hne) as [_ Hle]. rewrite bool_decide_false by done.
  rewrite (proj2 (Z.leb_le _ _)) by done. cbn [negb andb].
  apply (triple_bind _ _ _ (λ _, coherent)).
  - apply triple_install; [done|done| |done]. intros q [j Hj]%list_elem_of_lookup. by eapply list_elem_of_lookup_2, Hin.
  - intros _. apply triple_annotate; [apply annotates_tag|apply coherent_stable|done].
Qed.

Lemma base_key_at : ∃ base_key, at_index (page_group_keys m) gid = Some base_key.
Proof.
  unfold group_frames in Hft. destruct (at_index (frame_tables m) gid) as [t|] eqn:Ht; [|done].
  apply at_index_Some in Ht as [Hgid Ht]. apply lookup_lt_Some in Ht. pose proof (sm_tables _ Hsmall).
  destruct (lookup_lt_is_Some_2 (page_group_keys m) (Z.to_nat gid)) as [k Hk]; [lia|]. exists k. by apply at_index_Some.
Qed.

Lemma triple_fetch_frame base_key entry :
  at_index (page_group_keys m) gid = Some base_key → at_index ft frame = Some entry →
  triple ready (fetch_frame nonce key now m gid (index loc) page_num buf base_key entry) served failed.
Proof.
  intros Hkey Hentry. destruct frame_nums as (nums & Hn & Hne & Hlen & Hin & Hpage & Hmax).
  unfold fetch_frame.
  eapply triple_bind; [by eapply triple_get_frame|]. intros r.
  apply (triple_pre _ (∃ data raw, r = Some data ∧
       decode_seekable_subchunk data (frame_aad m gid frame) key = Ok raw ∧ holds_pages raw nums)); [by intros w [_ ?]|].
  intros (data & raw & -> & Hdec & Hh). eapply triple_pure_bind; [exact Hdec|].
  pose proof spf_pos as Hspf. pose proof (Z.mod_pos_bound (index loc) spf ltac:(lia)) as Hmod.
  pose proof (Hh _ _ Hpage) as Hs. rewrite Z2Nat.id in Hs by lia. rewrite Hbuf, Hs. cbn [default].
  apply (triple_bind _ _ _ (λ _, coherent)).
  - eapply triple_conseq; [by eapply (triple_cache_frame raw nums failed)|by intros w [? _]|done|done].
  - intros _. apply triple_serve; [apply coherent_stable|done|done].
Qed.

(* ------------------------------------------------------------------ *)
(** * The remote path *)

(** A page of the database, or the next source. *)
Definition found (r : option bytes) w : Prop :=
  match r with Some d => d = D page_num ∧ coherent w | None => ready w end.

Lemma triple_or_else (P R : Vfs K B → Prop) (x y : Prog K B (option bytes)) (Q : option bytes → Vfs K B → Prop) E :
  triple P x (λ r w, match r with Some d => Q (Some d) w | None => R w end) E → triple R y Q E →
  triple P (or_else x y) Q E.
Proof.
  intros Hx Hy. unfold or_else. eapply triple_bind; [exact Hx|]. intros [d|]; cbn; [by apply triple_ret|done].
Qed.

Lemma triple_try_ready : triple ready (try_cached now gid page_num buf) found failed.
Proof.
  eapply triple_conseq; [apply (triple_try_cached ready failed); [apply ready_stable|by intros w [? _]]|done| |done].
  intros [d|] w [Hw Hd]; cbn; [split; [done|apply Hw]|done].
Qed.

Context (pool : option PrefetchPool) (others : nat → Prog K B ()).
Context (Hothers : ∀ n, triple ready (others n) (λ _, ready) failed).

Lemma triple_await n : triple ready (await_group others n gid) (λ _, ready) failed.
Proof.
  unfold await_group. apply (triple_bind _ _ _ (λ _, ready)); [apply Hothers|]. intros _.
  apply triple_reads_bind. intros st. apply (triple_conseq ready _ _ (λ _, ready) _ failed failed); [|by intros w [? _]|done|done].
  case_bool_decide; [|by apply triple_ret]. apply (triple_bind _ _ _ (λ _, ready)); [|intros _; by apply triple_ret].
  apply triple_annotate; [apply annotates_unclaim|apply ready_stable|by intros w [? _]].
Qed.

Lemma triple_none : triple ready (mret None : Prog K B (option bytes)) found failed.
Proof. by apply triple_ret. Qed.

Lemma triple_await_prefetch : triple ready (await_prefetch now pool others gid frame page_num buf) found failed.
Proof.
  unfold await_prefetch. destruct pool as [pl|]; [|apply triple_none]. apply triple_reads_bind. intros st.
  apply (triple_conseq ready _ _ found found failed failed); [|by intros w [? _]|done|done].
  eapply (triple_or_else _ ready).
  - destruct (_ && _); [|apply triple_none].
    apply (triple_bind _ _ _ (λ _, ready)); [apply triple_await|intros _; apply triple_try_ready].
  - destruct (is_frame_pending _ _ _); [|apply triple_none].
    apply (triple_bind _ _ _ (λ _, ready)); [apply Hothers|intros _].
    destruct (wait_for_frame_page _ _ _ _); [apply triple_try_ready|apply triple_none].
Qed.

Lemma triple_seekable : triple ready (seekable_read nonce key now pool others m gid (index loc) page_num buf) served failed.
Proof.
  unfold seekable_read. rewrite Hft. destruct (location_listed m page_num loc Hg Hnum Hloc) as (Hgid & i & Hidx & Hi).
  destruct (sm_entries _ Hsmall gid ft i Hft) as [entry Hentry]; [by eapply lookup_lt_Some|]. rewrite Hidx in *. rewrite Hentry.
  rewrite <-Hidx in *. destruct base_key_at as [base_key Hkey]. eapply triple_pure_bind; [by rewrite Hkey|].
  eapply (triple_or_else _ ready).
  - eapply triple_conseq; [apply triple_await_prefetch|done| |done]. intros [d|] w; [|done]. by intros [-> Hw].
  - by apply triple_fetch_frame.
Qed.

(** The page of a group whose frames can be fetched. *)
Lemma triple_remote :
  triple ready (or_else (try_cached now gid page_num buf)
    (remote_read nonce key now pool others false gid (index loc) page_num buf)) served failed.
Proof.
  assert (triple ready (try_cached now gid page_num buf)
    (λ r w, match r with Some d => served (Some d) w | None => ready w end) failed) as Htry.
  { eapply triple_conseq; [apply triple_try_ready|done| |done]. intros [d|] w; [|done]. by intros [-> Hw]. }
  eapply (triple_or_else _ ready); [done|]. unfold remote_read. apply triple_reads_bind. intros m'.
  apply (triple_pre _ (m' = m)); [by intros w [[Hco _] <-]; apply Hco|]. intros ->.
  apply (triple_conseq ready _ _ served served failed failed); [|by intros w [? _]|done|done].
  eapply (triple_or_else _ ready); [done|].
  eapply (triple_or_else _ (λ _, False)); [|apply triple_false].
  eapply triple_conseq; [apply triple_seekable|done| |done]. intros r w [-> Hw]. by split.
Qed.
End coherence.
