(* ===== verification/HandleSafety.v ===== *)
(** Reading the database through a connection: before a read looks a page up,
    settings are applied, the cache is trimmed and the plan is taken; the
    theorem that what [read_exact_at] returns is the page of the database. *)

From stdpp Require Import strings.
From S2P Require Import Prelude Float64 Keys Manifest Compress Encoding Backend ColdRead FlushManifest.
From S2P Require Import CacheTracking LocalState File DiskCache CacheView CacheWrite CacheSafety CacheSteps.
From S2P Require Import Staging Settings Vfs FlushPages Keeps Programs Handle HandleRead.

(* ------------------------------------------------------------------ *)
(** * Triples for operations of a connection *)

Section op_triple.
Context {K B : Type}.
Implicit Types (P E : Conn K B → Prop).

Definition op_triple {A} P (m : Op K B A) (Q : A → Conn K B → Prop) E : Prop :=
  ∀ s, P s → match m s with (Ok a, s') => Q a s' | (Err _, s') => E s' | (Panic, _) => False end.

Lemma op_ret {A} P (a : A) (Q : A → Conn K B → Prop) E : (∀ s, P s → Q a s) → op_triple P (mret a) Q E.
Proof. intros HQ s. apply HQ. Qed.

Lemma op_bind {A C} P (m : Op K B A) (f : A → Op K B C) (R : A → Conn K B → Prop) Q E :
  op_triple P m R E → (∀ a, op_triple (R a) (f a) Q E) → op_triple P (m ≫= f) Q E.
Proof.
  intros Hm Hf s Hs. specialize (Hm s Hs). unfold mbind, Op_bind. destruct (m s) as [[a|e|] s']; [by apply Hf|done..].
Qed.

Lemma op_look_bind {A C} P (f : Conn K B → A) (g : A → Op K B C) Q E :
  (∀ a, op_triple (λ s, P s ∧ f s = a) (g a) Q E) → op_triple P (look f ≫= g) Q E.
Proof. intros Hg. apply (op_bind _ _ _ (λ a s, P s ∧ f s = a)); [by intros s Hs|done]. Qed.

Lemma op_change P (f : Conn K B → Conn K B) (Q : () → Conn K B → Prop) E :
  (∀ s, P s → Q () (f s)) → op_triple P (change f) Q E.
Proof. intros HQ s. apply HQ. Qed.

Lemma op_raise_bind {A C} P (r : io A) (f : A → Op K B C) Q E a :
  r = Ok a → op_triple P (f a) Q E → op_triple P (raise r ≫= f) Q E.
Proof. by intros ->. Qed.

Lemma op_conseq {A} P P' (m : Op K B A) Q Q' E E' :
  op_triple P m Q E → (∀ s, P' s → P s) → (∀ a s, Q a s → Q' a s) → (∀ s, E s → E' s) → op_triple P' m Q' E'.
Proof. intros Hm HP HQ HE s Hs. specialize (Hm s (HP s Hs)). destruct (m s) as [[a|e|] s']; auto. Qed.

Lemma op_pre {A} P (φ : Prop) (m : Op K B A) Q E : (∀ s, P s → φ) → (φ → op_triple P m Q E) → op_triple P m Q E.
Proof. intros Hφ Hm s Hs. exact (Hm (Hφ s Hs) s Hs). Qed.

(** A program over the shared state; [R] says what of the rest stays. *)
Lemma op_on_vfs {A} (P E : Vfs K B → Prop) (R : Conn K B → Prop) (m : Prog K B A) (Q : A → Vfs K B → Prop) :
  triple P m Q E → (∀ s w, R s → R (s <| shared := w |>)) →
  op_triple (λ s, P (shared s) ∧ R s) (on_vfs m) (λ a s, Q a (shared s) ∧ R s) (λ s, E (shared s) ∧ R s).
Proof.
  intros Hm HR s [Hs Hr]. specialize (Hm (shared s) Hs). unfold on_vfs. destruct (m (shared s)) as [[a|e|] w]; [..|done];
    (split; [done|by apply HR]).
Qed.
End op_triple.

Section handle_safety.
Context `{HashIter} `{Compression} `{Aead K} `{StorageLaws B} (nonce : Z → bytes) `{!CacheLaws nonce}.
Variable key : option K.
Variable m : Manifest.
Variable D : Z → bytes.
Variable unstored : gset Z.
Variable live : Prop.
Variable now : Z.
Implicit Types (s : Conn K B) (w : Vfs K B).
Abbreviation coherent := (coherent key m D unstored live).
Abbreviation ready := (ready key m D unstored live).
Abbreviation failed := (failed key m D unstored live).

(* ------------------------------------------------------------------ *)
(** * Before the lookup *)

(** No scan that is under way or planned covers the group. *)
Definition unscanned s (gid : Z) : Prop :=
  (∀ tree gids, active_scan_prefetch (conn s) !! tree = Some gids → gid ∉ gids) ∧
  (∀ a gids, a ∈ plan_queue s → pa_scan a → tree_name_to_groups (tree_indexes m) !! pa_tree a = Some gids → gid ∉ gids).

Variable page_num : Z.

(** What a read of the page in group [gid] starts from, and goes on with: the
    page is cached and stays so ([hit]), or its group can be fetched by frames. *)
Definition on_group (hit : bool) (gid : Z) s : Prop :=
  ready (shared s) ∧ is_local (conn s) = false ∧
  if hit then end_query s = false ∧ is_Some (stored (v_cache (shared s)) page_num) else unscanned s gid.

Lemma apply_setting_on hit gid kv s : on_group hit gid s → on_group hit gid (apply_setting kv s).
Proof.
  destruct kv as [k v]. intros (Hr & Hl & Hu).
  assert (∀ n, ready (shared s <| v_cache ::= λ c, c <| cache_budget_bytes := n |> |>)) as Hbudget.
  { intros n. apply (ready_stable key m D unstored live (shared s)); [done| |by repeat split].
    destruct Hr as [Hco _]. eapply same_tracker_framed; [by eapply coherent_framed|done..]. }
  assert (∀ n, stored (v_cache (shared s) <| cache_budget_bytes := n |>) page_num = stored (v_cache (shared s)) page_num) as Hst
    by (intros n; apply same_store_stored; by repeat split).
  assert (∀ n, on_group hit gid (s <| shared ::= λ w, w <| v_cache ::= λ c, c <| cache_budget_bytes := n |> |> |>)) as Hset.
  { intros n. split; [apply Hbudget|]. split; [done|]. destruct hit; [|done]. destruct Hu as [He [d Hd]].
    split; [done|]. exists d. by rewrite <-Hd. }
  assert (on_group hit gid s) as Hsame by done. clear Hl Hu Hr Hst Hbudget.
  unfold apply_setting. repeat case_match; try done; apply (Hset _).
Qed.

Lemma op_drain hit gid (E : Conn K B → Prop) : op_triple (on_group hit gid) drain_settings (λ _, on_group hit gid) E.
Proof.
  apply op_change. intros s Hs. assert (on_group hit gid (s <| settings_queue := [] |>)) as Hs' by done.
  revert Hs'. generalize (s <| settings_queue := [] |>). induction (settings_queue s) as [|kv l IH]; intros s' Hs'; [done|].
  by apply IH, apply_setting_on.
Qed.

Lemma ready_evict w limit skip :
  ready w → ∃ n c, evict_to_budget now limit skip (v_cache w) = (Ok n, c) ∧ ready (w <| v_cache := c |>).
Proof.
  intros [Hco Hroom]. destruct (evict_to_budget_run now limit skip (v_cache w)) as (n & c & Hrun & Hs & Hnext);
    [apply Hco|apply Hco|]. exists n, c. split; [done|].
  pose proof (kept_evict_to_budget (v_cache w) now limit skip _ (coherent_framed key m D unstored live w Hco)) as Hk.
  rewrite Hrun in Hk. cbn in Hk. split; [by apply coherent_shrinks|].
  unfold roomy. cbn. rewrite (fm_cfg _ _ Hk). intros Hc. specialize (Hnext Hc). specialize (Hroom Hc). lia.
Qed.

Lemma op_finish hit gid (E : Conn K B → Prop) :
  op_triple (on_group hit gid) (finish_query now) (λ _, on_group hit gid) E.
Proof.
  unfold finish_query. apply op_look_bind. intros ended. destruct ended; cbn [negb]; [|by apply op_ret; intros s [? _]].
  apply (op_pre _ (hit = false)); [intros s [(_ & _ & Hh) He]; destruct hit; [by destruct Hh; congruence|done]|].
  intros ->. apply (op_bind _ _ _ (λ _, on_group false gid)).
  { apply op_change. intros s [(Hr & Hl & Hu1 & Hu2) _]. split; [done|]. split; [done|]. split; [|done].
    intros tree gids. cbn. by rewrite lookup_empty. }
  intros _. apply op_look_bind. intros h. apply (op_conseq (on_group false gid) _ _ (λ _, on_group false gid) _ E E);
    [|by intros s [? _]|done|done].
  destruct (cache_limit h) as [limit|]; [|by apply op_ret]. apply op_look_bind. intros skip.
  apply (op_conseq (on_group false gid) _ _ (λ _, on_group false gid) _ E E); [|by intros s [? _]|done|done].
  apply (op_bind _ _ _ (λ _, on_group false gid)); [|intros _; by apply op_ret].
  intros s (Hr & Hl & Hu). unfold on_vfs, on_cache. destruct (ready_evict (shared s) limit skip Hr) as (n & c & -> & Hr').
  done.
Qed.

Lemma planned_scans_from planned tree gids :
  planned_scans m planned !! tree = Some gids →
  ∃ a, a ∈ planned ∧ pa_scan a ∧ pa_tree a = tree ∧ tree_name_to_groups (tree_indexes m) !! tree = Some gids.
Proof.
  unfold planned_scans. induction planned as [|a planned IH] using rev_ind; cbn; [by rewrite lookup_empty|].
  rewrite foldl_app. cbn. set (acc := foldl _ _ planned) in *. intros Hl.
  assert (acc !! tree = Some gids ∨
    pa_scan a ∧ pa_tree a = tree ∧ tree_name_to_groups (tree_indexes m) !! tree = Some gids) as [Hold|Hnew].
  { destruct (tree_name_to_groups _ !! pa_tree a) as [g|] eqn:Hg; [|by left].
    destruct (pa_scan a) eqn:Hs; [|by left]. destruct (decide (pa_tree a = tree)) as [Ht|Ht].
    - subst tree. rewrite lookup_insert_eq in Hl. injection Hl as ->. right. done.
    - left. by rewrite lookup_insert_ne in Hl. }
  - destruct (IH Hold) as (a' & Ha' & Hrest). exists a'. split; [|done]. apply elem_of_app. by left.
  - exists a. split; [|done]. apply elem_of_app. right. by apply list_elem_of_singleton.
Qed.

Lemma op_take_plan hit gid b (E : Conn K B → Prop) :
  op_triple (on_group hit gid) (take_plan b) (λ _, on_group hit gid) E.
Proof.
  unfold take_plan. apply op_look_bind. intros [|]; cbn [negb]; [|by apply op_ret; intros s [? _]].
  apply op_look_bind. intros planned. case_bool_decide; [by apply op_ret; intros s [[? _] _]|].
  apply op_change. intros s [[(Hr & Hl & Hu) _] <-]. split; [done|]. split; [by destruct b|].
  destruct hit; [done|]. destruct Hu as [Hu1 Hu2]. split.
  - intros tree gids. cbn. destruct b; cbn; [|apply Hu1].
    rewrite (co_manifest _ _ _ _ _ _ (proj1 Hr)). intros (a & Ha & Hs & <- & Hg)%planned_scans_from. by eapply Hu2.
  - intros a gids Ha. cbn in Ha. by apply not_elem_of_nil in Ha.
Qed.

Lemma unscanned_group s gid : unscanned s gid → planned_scan_group (conn s) gid = false.
Proof.
  intros [Hu _]. unfold planned_scan_group. apply not_true_iff_false. intros Hex%existsb_exists.
  destruct Hex as ([tree gids] & Hin & Hgid). apply list_elem_of_In, elem_of_map_to_list in Hin.
  apply bool_decide_eq_true in Hgid. by eapply Hu.
Qed.

(* ------------------------------------------------------------------ *)
(** * Reading *)

Context (pool : option PrefetchPool) (others : nat → Prog K B ()) (buf : bytes).
Context (Hg : geometry m) (Hsmall : small m) (Hnum : 0 ≤ page_num).
Context (Hbuf : Z.of_nat (length buf) = Manifest.page_size m).
Context (Hothers : ∀ n, triple ready (others n) (λ _, ready) failed).

(** The page is the answer. *)
Definition answered (d : bytes) s : Prop := d = D page_num ∧ coherent (shared s).

(** The page can be fetched from its frame. *)
Definition fetchable (loc : PageLocation) : Prop :=
  group_frames m (group_id loc) ≠ None ∧ ∀ q, q ∈ group_page_nums m (group_id loc) → q ∉ unstored.

Lemma op_located hit loc :
  page_location m page_num = Some loc → (hit = false → fetchable loc) →
  op_triple (on_group hit (group_id loc)) (read_located nonce key now pool others loc page_num buf)
    answered (λ s, failed (shared s)).
Proof.
  intros Hloc Hfetch. unfold read_located. set (gid := group_id loc).
  do 3 (apply (op_bind _ _ _ (λ _, on_group hit gid)); [first [apply op_drain|apply op_finish|apply op_take_plan]|intros _]).
  apply op_look_bind. intros h.
  apply (op_pre _ (is_local h = false ∧ (hit = false → planned_scan_group h gid = false))).
  { intros s [(_ & Hl & Hu) <-]. split; [done|]. intros ->. by apply unscanned_group. }
  intros [-> Hscan].
  apply (op_bind _ _ _ (λ r s, r = Some (D page_num) ∧ coherent (shared s))).
  2: { intros r s [-> Hco]. by split. }
  destruct hit.
  - assert (triple (λ w, ready w ∧ is_Some (stored (v_cache w) page_num)) (try_cached now gid page_num buf)
      (λ r w, match r with Some d => d = D page_num ∧ coherent w | None => False end) failed) as Htry.
    { intros w [Hw Hst]. unfold try_cached. unfold mbind, Prog_bind, on_cache.
      pose proof (proj1 Hw) as Hco. rewrite read_present_run; [|apply Hco|done|by rewrite (co_size _ _ _ _ _ _ Hco)].
      rewrite view_stored by (done || apply Hco). destruct Hst as [d Hd]. rewrite Hd. rewrite Vfs_same_cache.
      assert (triple coherent (serve now gid page_num d) (λ r w, r = Some (D page_num) ∧ coherent w) failed) as Hserve
        by (apply (triple_serve key m D unstored live Hg Hsmall page_num loc buf now Hnum Hloc); [apply coherent_stable|done|];
            by apply (co_sound _ _ _ _ _ _ Hco)).
      specialize (Hserve w Hco).
      destruct (serve now gid page_num d w) as [[r|e|] w']; [|done..]. by destruct Hserve as [-> ?]. }
    intros s [(Hr & _ & [_ Hst]) _]. unfold on_vfs, or_else, mbind, Prog_bind. specialize (Htry (shared s) (conj Hr Hst)).
    destruct (try_cached now gid page_num buf (shared s)) as [[[d|]|e|] w]; [|done..]. by destruct Htry as [-> ?].
  - destruct (Hfetch eq_refl) as [Hseek Hst]. destruct (group_frames m (group_id loc)) as [ft|] eqn:Hft; [|done].
    rewrite Hscan by done. intros s [(Hr & _) _].
    pose proof (triple_remote nonce key m D unstored live Hg Hsmall page_num loc buf now Hnum Hloc Hbuf Hst ft Hft
      pool others Hothers (shared s) Hr) as Ht.
    unfold on_vfs. by destruct (or_else _ _ (shared s)) as [[r|e|] w].
Qed.

(** A presence-checked read of the cache, and nothing else. *)
Lemma present_run s :
  coherent (shared s) →
  on_vfs (on_cache (read_page_if_present page_num buf)) s = (Ok (stored (v_cache (shared s)) page_num), s).
Proof.
  intros Hco. unfold on_vfs, on_cache. rewrite read_present_run; [|apply Hco|done|by rewrite (co_size _ _ _ _ _ _ Hco)].
  rewrite view_stored by (done || apply Hco). rewrite Vfs_same_cache. by destruct s.
Qed.

Lemma fast_run s :
  coherent (shared s) →
  ∃ r, fast_read page_num buf s = (Ok r, s) ∧ ∀ d, r = Some d → d = D page_num.
Proof.
  intros Hco. unfold fast_read. unfold mbind, Op_bind, look. cbn [id].
  destruct (_ || _); [by exists None|]. destruct (_ && _); [|by exists None].
  rewrite present_run by done. eexists. split; [done|]. intros d Hd. by apply (co_sound _ _ _ _ _ _ Hco).
Qed.

(** The hypotheses on a page that must be looked up: it is cached, and no query
    has ended, or it can be fetched and no scan covers its group. *)
Definition reachable s (loc : PageLocation) : Prop :=
  end_query s = false ∧ is_Some (view (v_cache (shared s)) page_num) ∨
  fetchable loc ∧ unscanned s (group_id loc).

Lemma handle_read_run s :
  ready (shared s) → is_local (conn s) = false → h_page_size (conn s) = Manifest.page_size m →
  (page_num ∉ dirty_page_nums (conn s) → page_location m page_num = None →
     D page_num = zeros (Z.to_nat (Manifest.page_size m))) →
  (∀ loc, page_num ∉ dirty_page_nums (conn s) → page_location m page_num = Some loc → reachable s loc) →
  match read_exact_at nonce key now pool others buf (page_num * Manifest.page_size m) s with
  | (Ok d, s') => d = D page_num ∧ coherent (shared s')
  | (Err _, s') => coherent (shared s') ∧
      (live → page_num ∈ dirty_page_nums (conn s) ∧ view (v_cache (shared s)) page_num = None)
  | (Panic, _) => False
  end.
Proof.
  intros Hr Hl Hps Hzero Hreach. pose proof (ge_ps _ Hg) as Hpos. pose proof (proj1 Hr) as Hco.
  unfold read_exact_at. unfold mbind at 1, Op_bind at 1, look at 1. rewrite Hps.
  destruct (Z.ltb_spec 0 (Manifest.page_size m)); [|lia].
  destruct (Z.eqb_spec (Manifest.page_size m) 0); [lia|]. unfold mbind at 1, Op_bind at 1, raise at 1.
  rewrite Z.div_mul by lia. destruct (fast_run s Hco) as (r & Hfast & Hd). unfold mbind at 1, Op_bind at 1. rewrite Hfast.
  destruct r as [d|]; [by split; [apply Hd|]|].
  assert (view (v_cache (shared s)) page_num = stored (v_cache (shared s)) page_num) as Hview by (apply view_stored; [apply Hco|done]).
  destruct (decide (page_num ∈ dirty_page_nums (conn s))) as [Hdirty|Hclean].
  { unfold mbind at 1, Op_bind at 1. rewrite present_run by done. unfold raise.
    destruct (stored (v_cache (shared s)) page_num) as [d|] eqn:Hs; cbn; [|by rewrite Hview].
    split; [|done]. by apply (co_sound _ _ _ _ _ _ Hco). }
  unfold mbind at 1, Op_bind at 1, look at 1. cbn [compose]. unfold compose. rewrite (co_manifest _ _ _ _ _ _ Hco).
  assert (page_location m page_num = None → zeros (length buf) = D page_num ∧ coherent (shared s)) as Hnone.
  { intros Hn. split; [|done]. rewrite Hzero by done. f_equal. lia. }
  destruct (Z.leb_spec (page_count m) page_num) as [Hbeyond|Hin].
  { apply Hnone. destruct (page_location m page_num) as [loc|] eqn:Hloc; [|done].
    destruct (location_listed m page_num loc Hg Hnum Hloc) as (Hgid & i & _ & Hi).
    apply list_elem_of_lookup_2 in Hi. apply (ge_pages _ Hg) in Hi; [lia|done]. }
  destruct (page_location m page_num) as [loc|] eqn:Hloc; [|by apply Hnone].
  assert (∃ hit, on_group hit (group_id loc) s ∧ (hit = false → fetchable loc)) as (hit & Hon & Hfetch).
  { destruct (Hreach loc Hclean eq_refl) as [[He Hv]|[Hf Hu]].
    - exists true. split; [|done]. rewrite Hview in Hv. done.
    - exists false. done. }
  pose proof (op_located hit loc Hloc Hfetch s Hon) as Hop.
  destruct (read_located _ _ _ _ _ _ _ _ s) as [[d|e|] s']; [exact Hop| |done]. destruct Hop as [Hc Hn]. split; [done|].
  by intros ?%Hn.
Qed.
End handle_safety.

(** C11. A read returns the page of the database. A connection over a remote
    backend reads a page whose number is [page_num]: if the cache holds nothing
    but pages of the database and the published objects hold every page that is
    not waiting for an upload, the buffer is filled with the database's page,
    whichever of these ways it is found: the fast path, the dirty pages, beyond
    the end, the cache, or a frame or its override, fetched from a group that no
    planned scan covers and none of whose pages waits for an upload. Prefetch
    workers and evictions may do what they do to the cache meanwhile, and the
    cache still holds nothing else. On a backend that does not fail the only
    possible error is that of a dirty page which has been evicted. The download of
    a whole group, after the end of a query or in a planned scan, is not covered.
    *)
Theorem read_serves_database `{HashIter} `{Compression} `{Aead K} `{StorageLaws B} nonce `{!CacheLaws nonce}
    key m D unstored live now page_num pool others buf (s : Conn K B) :
  geometry m → small m → ready key m D unstored live (shared s) →
  is_local (conn s) = false → h_page_size (conn s) = Manifest.page_size m →
  0 ≤ page_num → Z.of_nat (length buf) = Manifest.page_size m →
  (∀ n, triple (ready key m D unstored live) (others n) (λ _, ready key m D unstored live) (failed key m D unstored live)) →
  (page_num ∉ dirty_page_nums (conn s) → page_location m page_num = None →
     D page_num = zeros (Z.to_nat (Manifest.page_size m))) →
  (∀ loc, page_num ∉ dirty_page_nums (conn s) → page_location m page_num = Some loc →
     reachable m unstored page_num s loc) →
  match read_exact_at nonce key now pool others buf (page_num * Manifest.page_size m) s with
  | (Ok d, s') => d = D page_num ∧ coherent key m D unstored live (shared s')
  | (Err _, s') => coherent key m D unstored live (shared s') ∧
      (live → page_num ∈ dirty_page_nums (conn s) ∧ view (v_cache (shared s)) page_num = None)
  | (Panic, _) => False
  end.
Proof. intros. by apply handle_read_run. Qed.
