(* ===== verification/HandleExamples.v ===== *)
(** Reads of a small database through a connection: the witnesses of the
    theorems about reading, and the reads that go wrong. *)

From S2P Require Import Prelude Keys Wire Staging Manifest Backend ColdRead.
From S2P Require Import CacheTracking LocalState Compress Encoding File DiskCache CacheView CacheWrite CacheSafety CacheSteps CacheReopen CacheExamples.
From S2P Require Import Vfs Compact Flush FlushPages FlushGroups FlushInv FlushBundles FlushManifest FlushRun FlushSafety FlushExamples.
From S2P Require Import Settings Keeps Programs Handle HandleRead HandleSafety.

#[local] Existing Instance canonical_iter.

(* ------------------------------------------------------------------ *)
(** * The connection *)

(** The database of FlushExamples: pages 0, 3 and 4 are cached, the content of
    page 4 is newer than the stored one. *)
Definition hx_handle : Handle := {|
  is_local := false; local_checkpoint_only := false; read_only := false; h_page_size := 512; h_pages_per_group := 4;
  gc_enabled := true; override_threshold := 0; compaction_threshold := 8; dirty_page_nums := ∅; pending_page_count := 6;
  dirty_since_sync := false; synced_since_write := false; cached_generation := 0; query_plan_prefetch := true;
  lookahead_enabled := false; planned_lookahead_searches := ∅; active_scan_prefetch := ∅; cache_limit := None;
  evict_on_checkpoint := false; prefetch_search := []; prefetch_lookup := []; last_schema_cookie := None;
  staging_writer := None
|}.

Definition hx_conn (w : Vfs () MemStore) : Conn () MemStore := {|
  conn := hx_handle; shared := w; end_query := false; plan_queue := []; settings_queue := []; staging_seq := 1
|}.

Definition hx_state : Vfs () MemStore := fx_state [] <| v_pending := [] |> <| v_logs := ∅ |> <| v_dirty_groups := {[1]} |>.

Definition hx_idle (_ : nat) : Prog () MemStore () := mret ().

Definition hx_read (page_num : Z) (s : Conn () MemStore) : io bytes * Conn () MemStore :=
  read_exact_at demo_nonce fx_key 0 None hx_idle (zeros 512) (page_num * 512) s.

Definition hx_pages (p : Z) : bytes := if decide (0 ≤ p < 6) then fx_page p (if decide (p = 4) then 2 else 1) else zeros 512.

Lemma hx_small : small fx_manifest.
Proof.
  split; [change (page_count fx_manifest) with 6; lia|cbn; lia|cbn; lia|].
  intros gid ft i Hft Hi. pose proof (fx_group_len gid) as Hlen.
  assert (i = 0 ∨ i = 1 ∨ i = 2 ∨ i = 3)%nat as Hcases by lia.
  assert (ft = fx_object0.2) as ->.
  { unfold group_frames in Hft. change (frame_tables fx_manifest) with [fx_object0.2] in Hft.
    unfold at_index in Hft. destruct (gid <? 0); [done|]. destruct (Z.to_nat gid) as [|n]; [|done].
    vm_compute in Hft. vm_compute. by injection Hft. }
  destruct Hcases as [->|[->|[->| ->]]]; vm_compute; by eexists.
Qed.

Lemma hx_stored p :
  0 ≤ p → is_Some (page_location fx_manifest p) → p ∉ ({[ 4 ]} : gset Z) →
  cold_page fx_key fx_manifest fx_objects p = Some (hx_pages p).
Proof.
  intros Hp [loc Hloc] Hn.
  destruct (location_listed fx_manifest p loc fx_geometry Hp Hloc) as (Hgid & i & _ & Hi).
  apply fx_group_pages in Hi; [|done].
  assert (p ∈ [0; 1; 2; 3; 5]) as Hcases.
  { rewrite !elem_of_cons, elem_of_nil in Hi. assert (p ≠ 4) by set_solver. set_solver. }
  clear -Hcases. rewrite !elem_of_cons, elem_of_nil in Hcases.
  destruct Hcases as [->|[->|[->|[->|[->|[]]]]]]; vm_compute; reflexivity.
Qed.

Lemma hx_parts : v_cache hx_state = fx_cache ∧ v_manifest hx_state = fx_manifest ∧ objects (v_backend hx_state) = fx_objects.
Proof. by split_and!. Qed.

Lemma hx_present : elements (present (tracker fx_cache)) =
  [ {| sc_group_id := 0; sc_frame_index := 1 |}; {| sc_group_id := 0; sc_frame_index := 0 |} ].
Proof. vm_compute. reflexivity. Qed.

Lemma hx_access : group_access fx_cache = ∅.
Proof. vm_compute. reflexivity. Qed.

Lemma hx_uncompressed : cache_compression (cfg fx_cache) = false.
Proof. vm_compute. reflexivity. Qed.

Lemma hx_sound p d : 0 ≤ p → stored fx_cache p = Some d → d = hx_pages p.
Proof.
  destruct fx_cache_run as (Hok & Hps & Hview). intros Hp Hd.
  rewrite <-view_stored, Hview in Hd by done. apply elem_of_list_to_map_2 in Hd. rewrite elem_of_reverse in Hd.
  unfold fx_cached in Hd. rewrite !elem_of_cons, elem_of_nil in Hd.
  destruct Hd as [[-> ->]%pair_eq|[[-> ->]%pair_eq|[[-> ->]%pair_eq|[]]]]; vm_compute; reflexivity.
Qed.

Lemma hx_ready : ready fx_key fx_manifest hx_pages {[ 4 ]} True hx_state.
Proof.
  destruct fx_cache_run as (Hok & Hps & _). destruct hx_parts as (Hc & Hm & Ho).
  split; [split; rewrite ?Hc, ?Ho|unfold roomy; by rewrite Hc, hx_uncompressed].
  - exact Hm.
  - exact Hok.
  - unfold ids_ok. apply set_Forall_elements. rewrite hx_present. repeat constructor; cbn; lia.
  - unfold access_ok. rewrite hx_access. apply map_Forall_empty.
  - exact Hps.
  - exact hx_sound.
  - exact hx_stored.
  - reflexivity.
Qed.

(** Page 2 is not cached: it comes from its frame. *)
Lemma hx_location : page_location fx_manifest 2 = Some {| group_id := 0; index := 1 |}.
Proof. vm_compute. reflexivity. Qed.

Lemma hx_fetchable : fetchable fx_manifest {[ 4 ]} {| group_id := 0; index := 1 |}.
Proof.
  split; [vm_compute; discriminate|].
  intros q Hq. change (group_page_nums _ _) with [0; 2; 1; 3] in Hq. set_solver.
Qed.

Lemma hx_page_size : Manifest.page_size fx_manifest = 512.
Proof. reflexivity. Qed.

Lemma hx_clean w p : p ∉ dirty_page_nums (conn (hx_conn w)).
Proof. apply not_elem_of_empty. Qed.

Lemma hx_reachable : reachable fx_manifest {[ 4 ]} 2 (hx_conn hx_state) {| group_id := 0; index := 1 |}.
Proof.
  right. split; [exact hx_fetchable|split].
  - intros tree gids Ht. change (active_scan_prefetch _) with (∅ : gmap string (list Z)) in Ht.
    by rewrite lookup_empty in Ht.
  - intros a gids Ha. exact (False_ind _ (not_elem_of_nil _ Ha)).
Qed.

Lemma read_serves_database_witness :
  ∃ s, hx_read 2 (hx_conn hx_state) = (Ok (fx_page 2 1), s).
Proof.
  pose proof (read_serves_database demo_nonce fx_key fx_manifest hx_pages {[ 4 ]} True 0 2 None hx_idle (zeros 512)
    (hx_conn hx_state) fx_geometry hx_small hx_ready) as Hread.
  specialize (Hread eq_refl eq_refl ltac:(lia) eq_refl). specialize (Hread (λ n s Hs, Hs)).
  rewrite hx_location in Hread. specialize (Hread ltac:(done)).
  specialize (Hread ltac:(intros loc _ [= <-]; exact hx_reachable)).
  rewrite hx_page_size in Hread. unfold hx_read. destruct (read_exact_at _ _ _ _ _ _ _ _) as [[d|e|] s'].
  - exists s'. rewrite (proj1 Hread). reflexivity.
  - destruct (hx_clean _ _ (proj1 (proj2 Hread I))).
  - destruct Hread.
Defined.

(* ------------------------------------------------------------------ *)
(** * Reads that go wrong *)

(** Page 0 has been written since its group was uploaded, and waits in the
    cache for a flush.  Reading page 2, which shares its frame, installs the
    stored version over it: a read of page 0 then gives the old content. *)
Definition hx_pending : Vfs () MemStore :=
  hx_state <| v_cache := (run_write demo_nonce (WriteOne 6 0 (fx_page 0 2)) fx_cache).2 |> <| v_dirty_groups := {[0; 1]} |>.

Example frame_fetch_clobbers_pending :
  let s := hx_conn hx_pending in
  let s' := (hx_read 2 s).2 in
  (hx_read 0 s).1 = Ok (fx_page 0 2) ∧ v_dirty_groups (shared s') = {[0; 1]} ∧ (hx_read 0 s').1 = Ok (fx_page 0 1).
Proof. vm_compute. done. Qed.

(** The same happens to a page this connection has written in a transaction
    that has not been synced. *)
Example frame_fetch_clobbers_dirty :
  let s := hx_conn hx_pending <| conn ::= λ h, h <| dirty_page_nums := {[ 0 ]} |> <| dirty_since_sync := true |> |> in
  (hx_read 0 s).1 = Ok (fx_page 0 2) ∧ (hx_read 0 (hx_read 2 s).2).1 = Ok (fx_page 0 1).
Proof. vm_compute. done. Qed.

(** Group 0 with an override for its first frame: pages 0 and 2 at version 3. *)
Definition hx_override : bytes :=
  from_ok [] (encode_override_frame [(0, fx_page 0 3); (2, fx_page 2 3)] 512 (zeros 12) (aad_override_frame 0 0) fx_key).

Definition hx_overridden (objects : gmap string bytes) : Vfs () MemStore := hx_state
  <| v_manifest := fx_manifest
       <| subframe_overrides := [{[ 0 := {| ovr_key := "p/d/0_f0_v8"; ovr_entry := {| fe_offset := 0; fe_len := Z.of_nat (length hx_override) |} |} ]}] |>
       <| tree_indexes := {| btree_groups := ∅; page_to_tree_name := ∅; tree_name_to_groups := {[ "t"%string := [0] ]}; tree_name_to_root_page := ∅;
             group_to_tree_name := ∅ |} |> |>
  <| v_backend := {| ms_objects := objects; ms_faults := [] |} |>.

Definition hx_objects : gmap string bytes := <["p/d/0_f0_v8"%string := hx_override]> fx_objects.

(** A scan of the group's tree downloads the group's object and leaves the
    override out: page 2 reads at its old version. *)
Example planned_scan_ignores_override :
  let s := hx_conn (hx_overridden hx_objects) in
  let scan := s <| conn ::= λ h, h <| active_scan_prefetch := {[ "t"%string := [0] ]} |> |> in
  (hx_read 2 s).1 = Ok (fx_page 2 3) ∧ (hx_read 2 scan).1 = Ok (fx_page 2 1).
Proof. vm_compute. done. Qed.

(** With local storage an override that cannot be read is skipped, and the page
    reads at its old version; with remote storage the read fails. *)
Example local_read_skips_lost_override :
  let s := hx_conn (hx_overridden fx_objects) in
  let local := s <| conn ::= λ h, h <| is_local := true |> |> in
  (hx_read 2 s).1 = Err NotFound ∧ (hx_read 2 local).1 = Ok (fx_page 2 1).
Proof. vm_compute. done. Qed.

(** A read of part of a page returns the start of the page: SQLite reads the 16
    bytes at offset 24 to learn whether its own cache is still good. *)
Example partial_read_ignores_offset :
  let s := hx_conn hx_state in
  (read_exact_at demo_nonce fx_key 0 None hx_idle (zeros 16) (3 * 512 + 24) s).1 = Ok (take 16 (fx_page 3 1)).
Proof. vm_compute. done. Qed.
