(* ===== verification/HandleWrite.v ===== *)
(** Writes through a connection (src/src/tiered/handle.rs): pages go to the
    cache and to the open staging log; a sync of the two-phase mode assigns new
    pages to groups and seals the log for a later flush; truncation and the
    commit at close.

    The log file is created empty and gets its bytes when it is sealed: until
    then the writer's buffer may have put any part of them there, and nobody
    reads it. *)

From stdpp Require Import pretty strings.
From S2P Require Import Prelude Keys CacheTracking LocalState Compress Encoding File DiskCache.
From S2P Require Import Staging Settings Manifest Backend ColdRead Vfs Compact Flush Handle.

(** The file-system calls on a staging log that fail, if any. *)
Record LogFails := {
  lf_open : option io_kind;
  lf_append : option io_kind;
  lf_trailer : option io_kind;
  lf_seal : option io_kind
}.

Definition no_log_fails : LogFails := {| lf_open := None; lf_append := None; lf_trailer := None; lf_seal := None |}.

(** Those on the state file: the commit without a log, and the copies that are
    kept in any case. *)
Record SyncFails := { sy_commit : FlushFails; sy_copy : FlushFails; sy_flush : FlushFails }.

(* ------------------------------------------------------------------ *)
(** * New pages *)

(** A page at the end of a group. *)
Definition push_page (gid : Z) (m : Manifest) (p : Z) : Manifest :=
  let len := Z.of_nat (length (default [] (at_index (Manifest.group_pages m) gid))) in
  m <| Manifest.group_pages ::= alter_at (λ g, g ++ [p]) gid |>
    <| page_index ::= <[p := {| group_id := gid; index := wrap32 len |}]> |>.

(** A group of its own. *)
Definition push_group (m : Manifest) (chunk : list Z) : Manifest :=
  let gid := Z.of_nat (length (Manifest.group_pages m)) in
  m <| page_index ::= λ pi, index_group pi (gid, chunk) |> <| Manifest.group_pages ::= λ gp, gp ++ [chunk] |>.

(** Room in the last group; a group with more than [ppg] pages wraps around
    (without overflow checks), and chunks of no pages are refused. *)
Definition assign_new_pages_to_groups (m : Manifest) (unassigned : list Z) (ppg : Z) : io Manifest :=
  if bool_decide (unassigned = []) then Ok m else
  match strategy m with
  | Positional =>
    let max_page := foldl Z.max 0 unassigned in
    Ok (if page_count m <=? max_page then m <| page_count := max_page + 1 |> else m)
  | BTreeAware =>
    let sorted := merge_sort Z.le unassigned in
    let last_gid := saturating_sub (Z.of_nat (length (Manifest.group_pages m))) 1 in
    let last_group_room :=
      match at_index (Manifest.group_pages m) last_gid with
      | Some g => wrap64 (ppg - Z.of_nat (length g))
      | None => 0
      end in
    let fill := Z.to_nat (Z.min last_group_room (Z.of_nat (length sorted))) in
    let m := foldl (push_page last_gid) m (take fill sorted) in
    if ppg =? 0 then Panic else
    Ok (foldl push_group m (chunks (Z.to_nat ppg) (drop fill sorted)))
  end.

Section handle_write.
Context `{HashIter} `{Compression} `{Aead K} `{StorageBackend B}.
Variable nonce : Z → bytes.
Variable rnd : string → Z → bytes.
Variable to_vec : LocalState → option bytes.
Variable from_slice : bytes → option LocalState.
(** [rmp_serde] of the manifest in the log, and the format of the published one. *)
Variable log_manifest : Manifest → option bytes.
Variable encode_manifest : Manifest → option bytes.
Variable decode_manifest : bytes → option Manifest.
Variable key : option K.
Variable now : Z.

Definition fallible (fail : option io_kind) : Op K B () := raise (match fail with Some e => Err e | None => Ok () end).

(** ** The size *)

Definition effective_page_count (s : Conn K B) : Z :=
  Z.max (pending_page_count (conn s)) (page_count (v_manifest (shared s))).

Definition file_size (s : Conn K B) : Z :=
  let ps := Manifest.page_size (v_manifest (shared s)) in
  if (0 <? ps) && (0 <? effective_page_count s) then effective_page_count s * ps else 0.

(* ------------------------------------------------------------------ *)
(** * Writing a page *)

(** The page size comes from the first write. *)
Definition first_page_size (buf : bytes) : Op K B () :=
  ps ← look (h_page_size ∘ conn);
  if ps =? 0 then
    let ps := wrap32 (Z.of_nat (length buf)) in
    _ ← change (λ s, s <| conn ::= λ h, h <| h_page_size := ps |> |>);
    on_vfs (on_cache (set_page_size ps))
  else mret ().

Definition SCHEMA_COOKIE_OFFSET : Z := 24.

(** The cookie of page 0, unless the header is short or the cookie is 0. *)
Definition schema_cookie (page0 : bytes) : option Z :=
  if Z.of_nat (length page0) <? 28 then None else
  let cookie := be_at 4 SCHEMA_COOKIE_OFFSET page0 in
  if cookie =? 0 then None else Some cookie.

(** The cookie before the first write of page 0. *)
Definition note_cookie (page_num : Z) (buf : bytes) : Op K B () :=
  known ← look (last_schema_cookie ∘ conn);
  if negb (page_num =? 0) || bool_decide (is_Some known) then mret () else
  ps ← look (h_page_size ∘ conn);
  old ← on_vfs (attempt (on_cache (read_page 0 (zeros (Z.to_nat ps)))));
  let cookie := match old with inr page0 => schema_cookie page0 | inl _ => None end in
  let cookie := match cookie with Some c => Some c | None => schema_cookie buf end in
  change (λ s, s <| conn ::= λ h, h <| last_schema_cookie := cookie |> |>).

(** An interior page is marked when its group is known. *)
Definition tag_interior (page_num : Z) (buf : bytes) : Prog K B () :=
  if is_interior page_num buf then
    m ← reads v_manifest;
    match page_location m page_num with
    | Some loc => on_cache (mark_interior_group now (group_id loc) page_num (index loc))
    | None => mret ()
    end
  else mret ().

Definition cache_write (page_num : Z) (buf : bytes) : Prog K B () :=
  _ ← on_cache (write_page nonce now page_num buf);
  _ ← on_cache (clear_pages_from_mem_cache [page_num]);
  tag_interior page_num buf.

Definition log_path (seq : Z) : string := (Keys.decimal seq +:+ ".log")%string.

(** [staging_seq.fetch_add(1)] and [StagingWriter::open]. *)
Definition open_staging (fails : LogFails) : Op K B () :=
  seq ← look staging_seq;
  _ ← change (λ s, s <| staging_seq := wrap64 (seq + 1) |>);
  _ ← fallible (lf_open fails);
  let path := log_path seq in
  change (λ s, s <| shared ::= λ w, w <| v_logs ::= <[path := []]> |> |>
    <| conn ::= λ h, h <| staging_writer := Some {| ol_path := path; ol_writer := open_log (h_page_size h) |} |> |>).

Definition stage_page (fails : LogFails) (page_num : Z) (buf : bytes) : Op K B () :=
  h ← look conn;
  if negb (local_checkpoint_only h) || is_local h then mret () else
  _ ← raise (guard_err (negb (Z.of_nat (length buf) =? h_page_size h)) InvalidInput);
  _ ← (if bool_decide (staging_writer h = None) then open_staging fails else mret ());
  _ ← fallible (lf_append fails);
  change (λ s, s <| conn ::= λ h, h <| staging_writer ::=
    fmap (λ l, {| ol_path := ol_path l; ol_writer := append (ol_writer l) page_num buf |}) |> |>).

(** Sizes the manifest does not have yet. *)
Definition with_geometry (h : Handle) (c : DiskCache K) (buf : bytes) (m : Manifest) : Manifest :=
  let m := if Manifest.page_size m =? 0 then m <| Manifest.page_size := wrap32 (Z.of_nat (length buf)) |> else m in
  let m := if Manifest.pages_per_group m =? 0 then m <| Manifest.pages_per_group := h_pages_per_group h |> else m in
  if (Manifest.sub_pages_per_frame m =? 0) && (0 <? DiskCache.sub_pages_per_frame (cfg c))
  then m <| Manifest.sub_pages_per_frame := DiskCache.sub_pages_per_frame (cfg c) |> else m.

(** The file may have grown; other handles see that after the sync. *)
Definition note_growth (page_num : Z) (buf : bytes) : Op K B () :=
  _ ← change (λ s, s <| conn ::= λ h, h <| pending_page_count ::= Z.max (page_num + 1) |> |>
                     <| shared ::= λ w, w <| v_manifest ::= with_geometry (conn s) (v_cache w) buf |> |>);
  s ← look id;
  on_vfs (on_cache (ensure_group_capacity
    (total_groups_for (effective_page_count s) (h_pages_per_group (conn s))))).

(** [write_all_at] on a handle that is not a passthrough. *)
Definition write_all_at (fails : LogFails) (buf : bytes) (offset : Z) : Op K B () :=
  h ← look conn;
  if read_only h then raise (Err PermissionDenied) else
  _ ← first_page_size buf;
  ps ← look (h_page_size ∘ conn);
  _ ← raise (if ps =? 0 then Panic else Ok ());
  let page_num := offset / ps in
  _ ← note_cookie page_num buf;
  _ ← on_vfs (cache_write page_num buf);
  _ ← stage_page fails page_num buf;
  _ ← change (λ s, s <| conn ::= λ h, h <| dirty_page_nums ::= union {[ page_num ]} |>
                        <| dirty_since_sync := true |> <| synced_since_write := false |> |>);
  note_growth page_num buf.

(* ------------------------------------------------------------------ *)
(** * Sync, two-phase mode *)

Definition unassigned_pages (m : Manifest) (dirty : gset Z) : list Z :=
  filter (λ p, page_location m p = None) (hset_iter dirty).

(** The interior pages among those that just got a group. *)
Definition tag_assigned (m : Manifest) (ps : Z) (pages : list Z) : M K () :=
  for_each (λ p,
    match page_location m p with
    | None => mret ()
    | Some loc =>
      buf ← read_quietly ps p;
      match buf with
      | Some buf => if is_interior p buf then mark_interior_group now (group_id loc) p (index loc) else mret ()
      | None => mret ()
      end
    end) pages.

(** The manifest with the dirty pages assigned, and the groups they are in. *)
Definition assign_dirty (dirty : gset Z) : Op K B (list Z) :=
  h ← look conn;
  m ← look (v_manifest ∘ shared);
  let unassigned := unassigned_pages m dirty in
  m ← raise (assign_new_pages_to_groups m unassigned (h_pages_per_group h));
  _ ← on_vfs (on_cache (tag_assigned m (h_page_size h) unassigned));
  gids ← raise (mapM (λ p, or_panic (group_id <$> page_location m p)) (hset_iter dirty));
  _ ← change (λ s, s <| shared ::= λ w, w <| v_dirty_groups ::= union (list_to_set gids) |> <| v_manifest := m |> |>);
  mret gids.

(** What another handle's fast path must notice. *)
Definition next_generation : Op K B () :=
  _ ← on_vfs (on_cache bump_generation);
  change (λ s, s <| conn ::= λ h, h <| cached_generation := generation (v_cache (shared s)) |> |>).

Definition persist_commit (fails : FlushFails) : Prog K B () :=
  m ← reads v_manifest;
  dirty ← reads v_dirty_groups;
  _ ← on_cache (λ c, let '(r, f) := persist_manifest_local to_vec from_slice (ff_manifest fails) (state_file c) m in
                     (r, c <| state_file := f |>));
  on_cache (λ c, let '(r, f) := persist_dirty_groups to_vec from_slice (ff_dirty fails) (state_file c) (hset_iter dirty) in
                 (r, c <| state_file := f |>)).

(** The copies kept in any case; each one's failure is ignored. *)
Definition persist_copies (fails : FlushFails) : Prog K B () :=
  _ ← attempt (on_cache (persist_bitmap to_vec from_slice (ff_bitmap fails)));
  m ← reads v_manifest;
  dirty ← reads v_dirty_groups;
  _ ← attempt (on_cache (λ c, let '(r, f) := persist_manifest_local to_vec from_slice (ff_manifest fails) (state_file c) m in
                              (r, c <| state_file := f |>)));
  _ ← attempt (on_cache (λ c, let '(r, f) := persist_dirty_groups to_vec from_slice (ff_dirty fails) (state_file c) (hset_iter dirty) in
                              (r, c <| state_file := f |>)));
  mret ().

(** The manifest goes behind the pages; the log is flushed to disk and queued. *)
Definition seal_log (fails : LogFails) (l : OpenLog) : Op K B () :=
  _ ← change (λ s, s <| conn ::= λ h, h <| staging_writer := None |> |>);
  m ← look (v_manifest ∘ shared);
  data ← raise (ok_or (log_manifest m) OtherKind);
  _ ← fallible (lf_trailer fails);
  _ ← fallible (lf_seal fails);
  let '(file, _) := finalize (append_manifest (ol_writer l) data) in
  let version := default 0 (parse_u64 (stem_and_extension (ol_path l)).1) in
  change (λ s, s <| shared ::= λ w, w <| v_logs ::= <[ol_path l := file]> |>
    <| v_pending ::= λ fs, fs ++ [ {| staging_path := ol_path l; pf_version := version;
                                      pf_page_size := h_page_size (conn s) |} ] |> |>).

(** A local backend has its groups written at once; a failure is ignored. *)
Definition flush_inline (fails : FlushFails) : Op K B () :=
  h ← look conn;
  if is_local h then
    _ ← on_vfs (attempt (flush_dirty_groups rnd to_vec from_slice encode_manifest decode_manifest key fails true
                           (gc_enabled h) (override_threshold h) (compaction_threshold h)));
    mret ()
  else mret ().

Definition local_sync (fails : LogFails) (persists : SyncFails) (dirty : gset Z) : Op K B () :=
  _ ← assign_dirty dirty;
  _ ← change (λ s, s <| conn ::= λ h, h <| dirty_page_nums := ∅ |> <| dirty_since_sync := false |> |>);
  _ ← next_generation;
  log ← look (staging_writer ∘ conn);
  _ ← match log with
      | Some l => seal_log fails l
      | None => on_vfs (persist_commit (sy_commit persists))
      end;
  _ ← on_vfs (persist_copies (sy_copy persists));
  flush_inline (sy_flush persists).

(** [sync]; [durable] is the sync of a handle that uploads at once. *)
Definition sync (durable : gset Z → Op K B ()) (fails : LogFails) (persists : SyncFails) : Op K B () :=
  h ← look conn;
  if read_only h then mret () else
  _ ← change (λ s, s <| conn ::= λ h, h <| synced_since_write := true |> |>);
  groups ← look (v_dirty_groups ∘ shared);
  let dirty := dirty_page_nums h in
  if bool_decide (dirty = ∅) && bool_decide (groups = ∅)
  then change (λ s, s <| conn ::= λ h, h <| dirty_since_sync := false |> |>)
  else if local_checkpoint_only h then local_sync fails persists dirty else durable dirty.

(* ------------------------------------------------------------------ *)
(** * Truncation, and the commit at close *)

(** Pages that are cut off leave their groups; pages that are added get one. *)
Definition resize_groups (m : Manifest) (old_page_count new_page_count : Z) : io Manifest :=
  match strategy m with
  | Positional => Ok m
  | BTreeAware =>
    if new_page_count <? old_page_count then
      Ok (build_page_index (m <| Manifest.group_pages ::= fmap (filter (λ p, p < new_page_count)) |>))
    else if old_page_count <? new_page_count then
      assign_new_pages_to_groups m (range old_page_count new_page_count) (Manifest.pages_per_group m)
    else Ok m
  end.

Definition set_len (new_size : Z) : Op K B () :=
  h ← look conn;
  let ps := h_page_size h in
  if ps =? 0 then mret () else
  let new_page_count := if new_size =? 0 then 0 else div_ceil new_size ps in
  m ← look (v_manifest ∘ shared);
  let old_page_count := page_count m in
  m' ← raise (resize_groups (m <| page_count := new_page_count |>) old_page_count new_page_count);
  _ ← change (λ s, s <| conn ::= λ h, h <| pending_page_count := new_page_count |>
                            <| dirty_page_nums ::= filter (λ p, p < new_page_count) |> |>
                     <| shared ::= λ w, w <| v_manifest := m' |> |>);
  if new_page_count <? old_page_count then
    _ ← on_vfs (on_cache (truncate_to_page_count new_page_count ps));
    next_generation
  else mret ().

(** The manifest of the state file gets the growth and the new pages; the live
    one does not. *)
Definition close_local_commit (fail bitmap_fail : option (persist_step * io_kind)) : Op K B () :=
  s ← look id;
  let h := conn s in
  let m := v_manifest (shared s) in
  let dirty := dirty_page_nums h in
  if read_only h || (h_page_size h =? 0) then mret () else
  if bool_decide (dirty = ∅) && (pending_page_count h <=? page_count m) then mret () else
  let target_page_count := Z.max (pending_page_count h) (page_count m) in
  let m1 := m <| page_count := target_page_count |> in
  let unassigned := unassigned_pages m1 dirty in
  m2 ← raise (assign_new_pages_to_groups m1 unassigned (Z.max 1 (h_pages_per_group h)));
  _ ← on_vfs (on_cache (tag_assigned m2 (h_page_size h) unassigned));
  if negb (target_page_count =? page_count m) || negb (bool_decide (unassigned = [])) then
    _ ← on_vfs (on_cache (λ c,
          let '(r, f) := persist_manifest_local to_vec from_slice fail (state_file c) (build_page_index m2) in
          (r, c <| state_file := f |>)));
    _ ← on_vfs (attempt (on_cache (persist_bitmap to_vec from_slice bitmap_fail)));
    mret ()
  else mret ().
End handle_write.
