(* ===== verification/WriteSafety.v ===== *)
(** Writing through a connection: the effect of a write on what the database
    is, the transactions of the two-phase mode, and the theorem that what they
    wrote reaches the storage backend with the next flush. *)

From stdpp Require Import strings.
From S2P Require Import Prelude Keys Manifest Compress Encoding Backend ColdRead FlushManifest.
From S2P Require Import CacheTracking LocalState File DiskCache CacheView CacheWrite CacheSafety CacheSteps CacheReopen.
From S2P Require Import Staging Settings Vfs Flush FlushPages FlushBundles FlushRun FlushSafety Keeps Programs Handle HandleRead HandleSafety HandleWrite.

(** Nothing the code does for a manifest without sizes applies. *)
Definition sized {K} (m : Manifest) (c : DiskCache K) : Prop :=
  0 < Manifest.pages_per_group m ∧
  (0 < Manifest.sub_pages_per_frame m ∨ DiskCache.sub_pages_per_frame (cfg c) ≤ 0).

Lemma fold_io_ext {E A C} (f g : A → C → outcome E A) l acc :
  (∀ a x, x ∈ l → f a x = g a x) → fold_io f acc l = fold_io g acc l.
Proof.
  revert acc. induction l as [|x l IH]; intros acc Hfg; cbn; [done|]. rewrite Hfg by (by left).
  destruct (g acc x) as [a|e|]; cbn; [|done..]. apply IH. intros a' y Hy. apply Hfg. by right.
Qed.

Lemma pages_of_dom (recs : list (Z * bytes)) : dom (pages_of recs ∅) ⊆ list_to_set recs.*1.
Proof.
  unfold pages_of. induction recs as [|[p d] recs IH] using rev_ind; cbn; [set_solver|].
  rewrite foldl_app, fmap_app, list_to_set_app_L. cbn. rewrite dom_insert_L. set_solver.
Qed.

Section write_safety.
Context `{HashIter} `{Compression} `{Aead K} `{StorageLaws B} (nonce : Z → bytes) `{!CacheLaws nonce}.
Variable key : option K.
Variable m : Manifest.
Variable live : Prop.
Variable now : Z.
Implicit Types (s : Conn K B) (w : Vfs K B) (c : DiskCache K) (D : Z → bytes).
Abbreviation coherent := (coherent key m).
Abbreviation ps := (Manifest.page_size m).
Context (Hg : geometry m).
(** The objects of the backend. *)
Variable o : gmap string bytes.

(* ------------------------------------------------------------------ *)
(** * The cache *)

Lemma dropped_ok pages c :
  cache_ok c → cache_ok (drop_slots pages c) ∧ ∀ p, stored (drop_slots pages c) p = stored c p.
Proof.
  intros Hok. destruct (drop_slots_spec pages c) as [(mc & b & Hsame) _].
  pose proof (λ p d, drop_slots_mem pages c p d) as Hmem. rewrite Hsame in Hmem |- *.
  destruct Hok as [H1' H2' H3' H4' H5' H6' H7' H8' H9' H10' H11']. split; [|done]. split; try done.
  intros Hc p d Hp Hpres Hd. apply (H11' Hc p d Hp Hpres). by apply Hmem.
Qed.

(** A page of the database and the rest of it. *)
Definition put_page (p : Z) (d : bytes) (D : Z → bytes) : Z → bytes := λ q, if decide (q = p) then d else D q.

(** Room in the compressed cache for [n] more pages. *)
Lemma write_page_grows p d c :
  cache_ok c → page_num_ok p → Z.of_nat (length d) = page_size c → room c 1 →
  ∃ c', write_page nonce now p d c = (Ok (), c') ∧ written {[ p := d ]} c c' ∧ ∀ n, room c (n + 1) → room c' n.
Proof.
  intros Hok Hp Hd Hroom. destruct (cache_compression (cfg c)) eqn:Hc.
  - destruct (write_page_compr nonce now p d c) as (c' & Hrun & Hw & Hn); try done.
    { specialize (Hroom Hc). lia. }
    exists c'. split; [done|]. split; [done|]. intros n Hr. unfold room. rewrite (wr_cfg _ _ _ Hw). intros Hc'.
    specialize (Hr Hc'). lia.
  - destruct (write_page_plain nonce now p d c) as (c' & Hrun & Hw & _); [done..|].
    exists c'. split; [done|]. split; [done|]. intros n _. unfold room. rewrite (wr_cfg _ _ _ Hw), Hc. done.
Qed.

(** The cache is one of the database, with room for [n] more pages. *)
Definition cached D unstored (n : Z) w : Prop :=
  coherent D unstored live w ∧ room (v_cache w) n ∧ sized m (v_cache w) ∧ objects (v_backend w) = o.

Lemma cached_store D unstored n w c :
  cached D unstored n w → framed (v_cache w) c → same_store (v_cache w) c → cached D unstored n (w <| v_cache := c |>).
Proof.
  intros (Hco & Hr & Hz) Hf Hs. split; [by apply coherent_same_store|].
  split; [|split; [|apply Hz]]; destruct Hs as (Hc & _ & _ & _ & _ & _ & _ & Hi & _).
  - unfold room. cbn. by rewrite Hc, Hi.
  - unfold sized. cbn. rewrite Hc. apply Hz.
Qed.

(** Pages the cache holds. *)
Definition held (M : gmap Z bytes) w : Prop := map_Forall (λ p d, 0 ≤ p ∧ stored (v_cache w) p = Some d) M.

Lemma triple_write_page D unstored M p d n (E : Vfs K B → Prop) :
  page_num_ok p → Z.of_nat (length d) = ps → 1 ≤ n →
  triple (λ w, cached D unstored n w ∧ held M w) (on_cache (write_page nonce now p d))
    (λ _ w, cached (put_page p d D) ({[ p ]} ∪ unstored) (n - 1) w ∧ held (<[p:=d]> M) w) E.
Proof.
  intros Hp Hd Hn. apply triple_cache. intros w ((Hco & Hroom & Hz) & Hheld).
  destruct (write_page_grows p d (v_cache w)) as (c' & Hrun & Hw & Hr).
  { apply Hco. } { done. } { by rewrite (co_size _ _ _ _ _ _ Hco). } { intros Hc. specialize (Hroom Hc). lia. }
  exists (), c'. split; [done|].
  pose proof (kept_write_page nonce (v_cache w) now p d _ (coherent_framed key m D unstored live w Hco)) as Hk.
  rewrite Hrun in Hk. cbn in Hk. split; [split; [|split]|].
  - destruct Hco. split; cbn; try done; try apply Hk; try apply Hw.
    + by rewrite (fm_ps _ _ Hk).
    + intros q e Hq. rewrite (wr_stored _ _ _ Hw q Hq). unfold put_page. case_decide as Heq.
      { subst q. rewrite lookup_singleton_eq. congruence. }
      rewrite lookup_singleton_ne by done. by apply co_sound.
    + intros q Hq Hl Hun. unfold put_page. rewrite decide_False by set_solver. apply co_stored; set_solver.
  - cbn. apply Hr. by replace (n - 1 + 1) with n by lia.
  - unfold sized. cbn. by rewrite (wr_cfg _ _ _ Hw).
  - intros q e [[<- <-]|[Hne He]]%lookup_insert_Some; cbn; [destruct Hp as [Hp _]|].
    + split; [done|]. by rewrite (wr_stored _ _ _ Hw p Hp), lookup_singleton_eq.
    + destruct (Hheld q e He) as [Hq Hst]. split; [done|]. by rewrite (wr_stored _ _ _ Hw q Hq), lookup_singleton_ne.
Qed.

Lemma triple_cache_write D unstored p d n (E : Vfs K B → Prop) :
  page_num_ok p → Z.of_nat (length d) = ps → 1 ≤ n →
  triple (cached D unstored n) (cache_write nonce now p d)
    (λ _ w, cached (put_page p d D) ({[ p ]} ∪ unstored) (n - 1) w ∧ stored (v_cache w) p = Some d) E.
Proof.
  intros Hp Hd Hn. unfold cache_write.
  set (P := λ w, cached (put_page p d D) ({[ p ]} ∪ unstored) (n - 1) w ∧ stored (v_cache w) p = Some d).
  apply (triple_bind _ _ _ (λ _, P)).
  - eapply triple_conseq; [by apply (triple_write_page D unstored ∅)|by intros w Hw|intros a w [Hc Hh]|done].
    split; [done|]. by apply (Hh p d), lookup_insert_eq.
  - intros _. apply (triple_bind _ _ _ (λ _, P)).
    + apply triple_cache. intros w ((Hco & Hroom & Hz) & Hst). pose proof (co_cache _ _ _ _ _ _ Hco) as Hok.
      exists (), (drop_slots [p] (v_cache w)). split; [by apply clear_mem_run, Hok|].
      destruct (dropped_ok [p] (v_cache w) Hok) as [Hok' Hs].
      pose proof (kept_clear_mem (v_cache w) [p] (v_cache w) (coherent_framed key m _ _ live w Hco)) as Hk.
      rewrite clear_mem_run in Hk by apply Hok. cbn [snd] in Hk. destruct (drop_slots_spec [p] (v_cache w)) as [(mc & b & Heq) _].
      split; [split; [|split]|].
      * apply coherent_cache; [done..|]. intros q e Hq. rewrite Hs. by apply (co_sound _ _ _ _ _ _ Hco).
      * change (room (drop_slots [p] (v_cache w)) (n - 1)). rewrite Heq. exact Hroom.
      * change (sized m (drop_slots [p] (v_cache w)) ∧ objects (v_backend w) = o). rewrite Heq. exact Hz.
      * change (stored (drop_slots [p] (v_cache w)) p = Some d). by rewrite Hs.
    + intros _. unfold tag_interior. destruct (is_interior p d); [|by apply triple_ret].
      apply triple_reads_bind. intros m'. apply (triple_conseq P _ _ (λ _, P) _ E E); [|by intros w [? _]|done|done].
      destruct (page_location m' p) as [loc|]; [|by apply triple_ret].
      eapply (triple_annotate key m); [apply annotates_interior| |by intros w [[? _] _]].
      intros w c [Hc Hst] Hf Hs. split; [by apply cached_store|]. cbn. by rewrite (same_store_stored _ _ _ Hs).
Qed.

(* ------------------------------------------------------------------ *)
(** * The log *)

(** What the cache has no part in. *)
Definition log_part w := (v_pending w, v_logs w, v_dirty_groups w).

Definition log_kept {A} (x : Prog K B A) : Prop := ∀ w, log_part (x w).2 = log_part w.

Lemma log_kept_cache {A} (x : M K A) : log_kept (on_cache x : Prog K B A).
Proof. intros w. unfold on_cache. by destruct (x (v_cache w)). Qed.

Lemma log_kept_ret {A} (a : A) : log_kept (mret a : Prog K B A).
Proof. done. Qed.

Lemma log_kept_bind {A C} (x : Prog K B A) (f : A → Prog K B C) :
  log_kept x → (∀ a, log_kept (f a)) → log_kept (x ≫= f).
Proof.
  intros Hx Hf w. unfold mbind, Prog_bind. specialize (Hx w). destruct (x w) as [[a|e|] w']; [|done..].
  cbn in Hx. by rewrite <-Hx, Hf.
Qed.

Lemma log_kept_reads {A C} (f : Vfs K B → A) (g : A → Prog K B C) : (∀ a, log_kept (g a)) → log_kept (reads f ≫= g).
Proof. intros Hf. by apply log_kept_bind. Qed.

Lemma log_kept_attempt {A} (x : Prog K B A) : log_kept x → log_kept (attempt x).
Proof. intros Hx w. specialize (Hx w). unfold attempt. by destruct (x w) as [[a|e|] w']. Qed.

Lemma log_kept_write p d : log_kept (cache_write nonce now p d : Prog K B ()).
Proof.
  unfold cache_write. apply log_kept_bind; [apply log_kept_cache|intros _].
  apply log_kept_bind; [apply log_kept_cache|intros _]. unfold tag_interior. destruct (is_interior p d); [|apply log_kept_ret].
  apply log_kept_reads. intros m'. destruct (page_location m' p); [apply log_kept_cache|apply log_kept_ret].
Qed.

Lemma op_on_vfs_log {A} (P E : Vfs K B → Prop) (R : Conn K B → Prop) (x : Prog K B A) (Q : A → Vfs K B → Prop) :
  triple P x Q E → log_kept x → (∀ s w, log_part w = log_part (shared s) → R s → R (s <| shared := w |>)) →
  op_triple (λ s, P (shared s) ∧ R s) (on_vfs x) (λ a s, Q a (shared s) ∧ R s) (λ s, E (shared s) ∧ R s).
Proof.
  intros Hx Hlog HR s [Hs Hr]. specialize (Hx (shared s) Hs). specialize (Hlog (shared s)). unfold on_vfs.
  destruct (x (shared s)) as [[a|e|] w]; [..|done]; (split; [done|by apply HR]).
Qed.

(** The pages of the open log, over those of the logs waiting for a flush. *)
Definition newer (recs : list (Z * bytes)) (staged : gmap Z bytes) : gmap Z bytes := pages_of recs staged.

Lemma newer_snoc recs staged p d : newer (recs ++ [(p, d)]) staged = <[p := d]> (newer recs staged).
Proof. unfold newer, pages_of. by rewrite foldl_app. Qed.

(** [rmp_serde] of the manifest in the logs. *)
Variable log_manifest : Manifest → option bytes.

(** A log waiting for a flush: sealed, with the manifest of the time. *)
Record shelved (s : Conn K B) (f : PendingFlush) : Prop := {
  sh_path : staging_path f = log_path (pf_version f);
  sh_version : 0 ≤ pf_version f < staging_seq s;
  sh_ps : pf_page_size f = ps;
  sh_file : ∃ recs data, v_logs (shared s) !! staging_path f = Some (sealed_log ps recs data) ∧
    Forall (record_ok ps) recs ∧ log_manifest m = Some data
}.

(** The pages of a log, and of all that wait for a flush. *)
Definition log_pages (logs : gmap string bytes) (f : PendingFlush) : gmap Z bytes :=
  match read_staging_log <$> logs !! staging_path f with Some (Ok pages) => pages | _ => ∅ end.

Definition shelf_load (fs : list PendingFlush) (logs : gmap string bytes) : Z :=
  foldr (λ f load, Z.of_nat (size (log_pages logs f)) + load) 0 fs.

Arguments shelf_load : simpl never.

Lemma shelf_load_ext fs logs logs' :
  (∀ f, f ∈ fs → logs' !! staging_path f = logs !! staging_path f) → shelf_load fs logs' = shelf_load fs logs.
Proof.
  unfold shelf_load. induction fs as [|f fs IH]; intros Hext; [done|]. cbn. rewrite IH by (intros g Hg'; apply Hext; by right).
  unfold log_pages. by rewrite Hext by (by left).
Qed.

Lemma shelf_load_snoc fs f logs :
  shelf_load (fs ++ [f]) logs = shelf_load fs logs + Z.of_nat (size (log_pages logs f)).
Proof. unfold shelf_load. induction fs as [|g fs IH]; cbn; [lia|]. rewrite IH. lia. Qed.

(** A bound on the pages staged in all. *)
Variable N : Z.

(** What the connection and the logs hold; [n] more log files may be opened. *)
Record logged (recs : list (Z * bytes)) (staged : gmap Z bytes) (D : Z → bytes) (n : Z) s : Prop := {
  lg_mode : is_local (conn s) = false ∧ local_checkpoint_only (conn s) = true ∧ read_only (conn s) = false;
  lg_ps : h_page_size (conn s) = ps;
  lg_log : match staging_writer (conn s) with
           | None => recs = []
           | Some l => recs ≠ [] ∧ ol_writer l = write_log ps recs ∧ ∃ q, ol_path l = log_path q ∧ 0 ≤ q < staging_seq s ∧
               ∀ f, f ∈ v_pending (shared s) → pf_version f < q
           end;
  lg_seq : 0 ≤ staging_seq s < 2 ^ 64 ∧ staging_seq s + n < 2 ^ 64;
  lg_read : read_logs (v_pending (shared s)) (v_logs (shared s)) = Ok staged;
  lg_shelf : ∀ f, f ∈ v_pending (shared s) → shelved s f;
  lg_order : StronglySorted (λ f g, pf_version f < pf_version g) (v_pending (shared s));
  lg_dir : ∀ path, is_Some (v_logs (shared s) !! path) →
    (∃ f, f ∈ v_pending (shared s) ∧ staging_path f = path) ∨ ∃ l, staging_writer (conn s) = Some l ∧ path = ol_path l;
  lg_load : shelf_load (v_pending (shared s)) (v_logs (shared s)) + Z.of_nat (length recs) + n ≤ N;
  lg_records : Forall (record_ok ps) recs;
  lg_pages : map_Forall (λ p d, d = D p ∧ 0 ≤ p ∧ is_Some (page_location m p) ∧ Z.of_nat (length d) = ps) (newer recs staged)
}.

(** Only groups of staged pages wait for an upload. *)
Definition groups_in (staged : gmap Z bytes) w : Prop := ∀ gid, gid ∈ v_dirty_groups w →
  ∃ p loc, is_Some (staged !! p) ∧ 0 ≤ p ∧ page_location m p = Some loc ∧ group_id loc = gid.

Lemma shelved_keep s s' f :
  shelved s f → staging_seq s ≤ staging_seq s' →
  v_logs (shared s') !! staging_path f = v_logs (shared s) !! staging_path f → shelved s' f.
Proof. intros [] Hseq Hlog. split; try done; [lia|]. by rewrite Hlog. Qed.

(** The rest of the connection's state in a transaction. *)
Definition books (recs : list (Z * bytes)) staged s : Prop :=
  dirty_page_nums (conn s) = list_to_set recs.*1 ∧ groups_in staged (shared s).

(** A transaction that has written [recs], on top of the pages [staged]. *)
Definition writing recs staged D n s : Prop :=
  cached D (dom (newer recs staged)) n (shared s) ∧ logged recs staged D n s ∧ books recs staged s.

(** The parts of the state that [logged] is about. *)
Definition desk s := (is_local (conn s), local_checkpoint_only (conn s), read_only (conn s), h_page_size (conn s),
  staging_writer (conn s), staging_seq s, v_pending (shared s), v_logs (shared s)).

Lemma logged_same recs staged D n s s' : desk s' = desk s → logged recs staged D n s → logged recs staged D n s'.
Proof.
  intros [= E1 E2 E3 E4 E5 E6 E7 E8] []. split; rewrite ?E1, ?E2, ?E3, ?E4, ?E5, ?E6, ?E7, ?E8; try done.
  intros f Hf. eapply shelved_keep; [by apply lg_shelf0|lia|by rewrite E8].
Qed.

Lemma logged_log_part recs staged D n s w :
  log_part w = log_part (shared s) → logged recs staged D n s → logged recs staged D n (s <| shared := w |>).
Proof. intros [= Hp Hl Hd]. apply logged_same. unfold desk. cbn. by rewrite Hp, Hl. Qed.

Lemma books_log_part recs staged s w :
  log_part w = log_part (shared s) → books recs staged s → books recs staged (s <| shared := w |>).
Proof. intros [= _ _ Hd] [Hb Hgr]. split; [done|]. unfold groups_in. cbn. by rewrite Hd. Qed.

Lemma log_path_inj a b : 0 ≤ a → 0 ≤ b → log_path a = log_path b → a = b.
Proof.
  unfold log_path. intros Ha Hb Heq. apply decimal_inj; [done..|].
  revert Heq. generalize (Keys.decimal a) (Keys.decimal b). intros x y Heq.
  apply (f_equal String.list_ascii_of_string) in Heq. rewrite !list_ascii_app in Heq.
  apply app_inv_tail in Heq. by rewrite <-(String.string_of_list_ascii_of_string x), Heq, String.string_of_list_ascii_of_string.
Qed.

Lemma op_stage recs staged D n p d old (C : Vfs K B → Prop) (E : Conn K B → Prop) :
  (∀ w f, C w → C (w <| v_logs ::= f |>)) → is_Some (page_location m p) → 0 ≤ p < 2 ^ 46 → Z.of_nat (length d) = ps → 1 ≤ n →
  op_triple (λ s, C (shared s) ∧ logged recs staged D n s ∧ books old staged s) (stage_page no_log_fails p d)
    (λ _ s, C (shared s) ∧ logged (recs ++ [(p, d)]) staged (put_page p d D) (n - 1) s ∧
            books old staged s) E.
Proof.
  intros HC Hloc Hp Hd Hn s (Hw & Hl & Hdirty). destruct Hl as [(Hlo & Hck & Hro) Hps Hlog Hseq Hread Hshelf Hord Hdir Hload Hrec Hpg].
  assert (Forall (record_ok ps) (recs ++ [(p, d)])) as Hrec'.
  { apply Forall_app. split; [done|]. constructor; [|done]. split; cbn; [unfold is_u64; lia|].
    split; [unfold MANIFEST_MAGIC; lia|lia]. }
  assert (map_Forall (λ q e, e = put_page p d D q ∧ 0 ≤ q ∧ is_Some (page_location m q) ∧ Z.of_nat (length e) = ps)
    (newer (recs ++ [(p, d)]) staged)) as Hpg'.
  { rewrite newer_snoc. intros q e. unfold put_page. intros [[<- <-]|[Hne He]]%lookup_insert_Some.
    - rewrite decide_True by done. split_and!; [done|lia|done..].
    - rewrite decide_False by done. by apply Hpg. }
  unfold stage_page. unfold mbind at 1, Op_bind at 1, look at 1. rewrite Hlo, Hck, Hps. cbn [negb orb].
  destruct (Z.eqb_spec (Z.of_nat (length d)) ps) as [_|]; [|done]. cbn [negb guard_err].
  unfold mbind at 1, Op_bind at 1, raise at 1. cbn [guard_err].
  destruct (staging_writer (conn s)) as [l|] eqn:Hsw.
  - destruct Hlog as (_ & Hw1 & q & Hq1 & Hq2 & Hq3). case_bool_decide; [done|].
    unfold mbind, Op_bind, fallible, raise, change, mret, Op_ret. cbn. rewrite ?Hsw. cbn. split; [done|]. split; [|done].
    split; cbn; try done.
    + split; [by destruct recs|]. unfold write_log. rewrite foldl_app. cbn. fold (write_log ps recs). rewrite <-Hw1.
      split; [done|]. by exists q.
    + lia.
    + intros f Hf. by eapply shelved_keep; [apply Hshelf|..].
    + intros path Hpath. destruct (Hdir path Hpath) as [?|(l' & [= <-] & ->)]; [by left|right; by eexists].
    + rewrite length_app. cbn. lia.
  - subst recs. case_bool_decide; [|done].
    unfold mbind, Op_bind, open_staging, fallible, raise, change, mret, Op_ret, look. cbn. unfold mbind, Op_bind. cbn. rewrite ?Hsw. cbn.
    rewrite (wrap64_id (staging_seq s + 1)) by (unfold is_u64; lia).
    assert (∀ f, f ∈ v_pending (shared s) → staging_path f ≠ log_path (staging_seq s)) as Hne.
    { intros f Hf. destruct (Hshelf f Hf) as [-> ? _ _]. intros Heq%log_path_inj; lia. }
    split; [by apply HC|]. split; [|done]. split; cbn; try done.
    + rewrite Hps. split; [done|]. split; [done|]. exists (staging_seq s). split; [done|]. split; [lia|].
      intros f Hf. apply (Hshelf f Hf).
    + lia.
    + rewrite <-Hread. unfold read_logs. apply fold_io_ext. intros acc f Hf. by rewrite lookup_insert_ne by (by apply not_eq_sym, Hne).
    + intros f Hf. eapply shelved_keep; [by apply Hshelf|cbn; lia|]. cbn. by rewrite lookup_insert_ne by (by apply not_eq_sym, Hne).
    + intros path. rewrite lookup_insert_is_Some. intros [<-|[_ Hpath]]; [right; by eexists|].
      destruct (Hdir path Hpath) as [?|(l & ? & _)]; [by left|done].
    + cbn in Hload. rewrite (shelf_load_ext _ (v_logs (shared s))); [lia|]. intros f Hf.
      by rewrite lookup_insert_ne by (by apply not_eq_sym, Hne).
Qed.

Lemma cached_logs D unstored n w f : cached D unstored n w → cached D unstored n (w <| v_logs ::= f |>).
Proof. intros ([] & Hr & Hz). split; [by split|done]. Qed.

(** The size of a manifest that has one stays. *)
Lemma with_geometry_sized h c buf : sized m c → with_geometry h c buf m = m.
Proof.
  intros [Hppg Hspf]. pose proof (ge_ps _ Hg). unfold with_geometry.
  destruct (Z.eqb_spec ps 0); [lia|]. destruct (Z.eqb_spec (Manifest.pages_per_group m) 0); [lia|].
  destruct Hspf as [Hs|Hs]; [destruct (Z.eqb_spec (Manifest.sub_pages_per_frame m) 0); [lia|done]|].
  destruct (Z.ltb_spec 0 (DiskCache.sub_pages_per_frame (cfg c))); [lia|]. by rewrite andb_false_r.
Qed.

Lemma annotates_capacity n : annotates (ensure_group_capacity n : M K ()).
Proof.
  apply annotates_modify; [|by repeat split]. intros c0. apply kept_modify. intros c. by split_and!.
Qed.

Lemma op_note_cookie D u n p d (R : Conn K B → Prop) (E : Conn K B → Prop) :
  (∀ s cookie, R s → R (s <| conn ::= λ h, h <| last_schema_cookie := cookie |> |>)) →
  op_triple (λ s, cached D u n (shared s) ∧ R s) (note_cookie p d) (λ _ s, cached D u n (shared s) ∧ R s) E.
Proof.
  intros HR. unfold note_cookie. apply op_look_bind. intros known.
  destruct (_ || _); [by apply op_ret; intros s [? _]|]. apply op_look_bind. intros z.
  apply (op_bind _ _ _ (λ _ s, cached D u n (shared s) ∧ R s)).
  - intros s [[[Hs Hr] _] _]. unfold on_vfs, attempt, on_cache. pose proof (co_cache _ _ _ _ _ _ (proj1 Hs)) as Hok.
    pose proof (read_page_state 0 (zeros (Z.to_nat z)) _ (ok_quiet _ Hok)) as Hst.
    pose proof (read_page_no_panic _ Hok 0 (zeros (Z.to_nat z))) as Hnp.
    destruct (read_page 0 (zeros (Z.to_nat z)) (v_cache (shared s))) as [r c']. cbn in Hst, Hnp. subst c'.
    rewrite Vfs_same_cache. destruct r as [a|e|]; [by destruct s|by destruct s|done].
  - intros old. apply op_change. intros s [Hs Hr]. split; [done|by apply HR].
Qed.

(** A transaction whose cache has the page [p]. *)
Definition wrote recs staged D n p d s : Prop :=
  writing recs staged D n s ∧ stored (v_cache (shared s)) p = Some d.

Lemma op_growth recs staged D n p d (E : Conn K B → Prop) :
  op_triple (wrote recs staged D n p d) (note_growth p d) (λ _, wrote recs staged D n p d) E.
Proof.
  unfold note_growth. apply (op_bind _ _ _ (λ _, wrote recs staged D n p d)).
  { apply op_change. intros s [(Hc & Hl & Hb) Hst]. split; [|done]. split; [|split]; [|by eapply logged_same; [|exact Hl]|done].
    destruct Hc as (Hco & Hr & Hz). cbn. rewrite (co_manifest _ _ _ _ _ _ Hco), with_geometry_sized by apply Hz.
    split; [|done]. by destruct Hco. }
  intros _. apply op_look_bind. intros s0.
  set (C := λ w, cached D (dom (newer recs staged)) n w ∧ stored (v_cache w) p = Some d).
  set (R := λ s, logged recs staged D n s ∧ books recs staged s).
  apply (op_conseq (λ s, C (shared s) ∧ R s) _ _ (λ _ s, C (shared s) ∧ R s) _ (λ s, False ∧ R s) _);
    [|by intros s [[[? ?] ?] _]|by intros a s [[? ?] ?]|by intros s [[] _]].
  apply (op_on_vfs_log C (λ _, False) R _ (λ _, C)).
  - eapply (triple_annotate key m); [apply annotates_capacity| |by intros w [[? _] _]].
    intros w c [Hc Hst] Hf Hs. split; [by apply cached_store|]. cbn. by rewrite (same_store_stored _ _ _ Hs).
  - apply log_kept_cache.
  - intros s w Hw [Hl Hb]. split; [by apply logged_log_part|by eapply books_log_part].
Qed.

(** One write of a transaction. *)
Lemma op_write recs staged D n p d :
  is_Some (page_location m p) → 0 ≤ p < 2 ^ 46 → Z.of_nat (length d) = ps → 1 ≤ n →
  op_triple (writing recs staged D n) (write_all_at nonce now no_log_fails d (p * ps))
    (λ _, wrote (recs ++ [(p, d)]) staged (put_page p d D) (n - 1) p d) (λ _, False).
Proof.
  intros Hloc Hp Hd Hn. pose proof (ge_ps _ Hg) as Hpos. unfold write_all_at.
  set (u := dom (newer recs staged)). set (R := λ s, logged recs staged D n s ∧ books recs staged s).
  assert (∀ s w, log_part w = log_part (shared s) → R s → R (s <| shared := w |>)) as HR.
  { intros s w Hw [Hl Hb]. split; [by apply logged_log_part|by eapply books_log_part]. }
  apply op_look_bind. intros h.
  apply (op_pre _ (read_only h = false)); [by intros s [(_ & Hl & _) <-]; apply Hl|]. intros ->.
  apply (op_conseq (λ s, cached D u n (shared s) ∧ R s) _ _
    (λ _, wrote (recs ++ [(p, d)]) staged (put_page p d D) (n - 1) p d) _ (λ _, False) _);
    [|by intros s [(? & ? & ?) _]|done|done].
  apply (op_bind _ _ _ (λ _ s, cached D u n (shared s) ∧ R s)).
  { unfold first_page_size. apply op_look_bind. intros z.
    apply (op_pre _ (z = ps)); [by intros s [(_ & Hl & _) <-]; apply Hl|]. intros ->.
    destruct (Z.eqb_spec ps 0); [lia|]. by apply op_ret; intros s [? _]. }
  intros _. apply op_look_bind. intros z.
  apply (op_pre _ (z = ps)); [by intros s [(_ & Hl & _) <-]; apply Hl|]. intros ->.
  destruct (Z.eqb_spec ps 0); [lia|]. eapply op_raise_bind; [done|]. rewrite Z.div_mul by lia.
  apply (op_conseq (λ s, cached D u n (shared s) ∧ R s) _ _
    (λ _, wrote (recs ++ [(p, d)]) staged (put_page p d D) (n - 1) p d) _ (λ _, False) _);
    [|by intros s [? _]|done|done].
  apply (op_bind _ _ _ (λ _ s, cached D u n (shared s) ∧ R s)).
  { apply op_note_cookie. intros s cookie [Hl Hdirty]. split; [by eapply logged_same; [|exact Hl]|done]. }
  set (C := λ w, cached (put_page p d D) ({[ p ]} ∪ u) (n - 1) w ∧ stored (v_cache w) p = Some d).
  intros _. apply (op_bind _ _ _ (λ _ s, C (shared s) ∧ R s)).
  { eapply op_conseq; [eapply (op_on_vfs_log (cached D u n) (λ _, False) R); [by apply triple_cache_write|apply log_kept_write|exact HR]|done| |].
    - done.
    - by intros s [[] _]. }
  intros _. eapply (op_bind _ _ _ (λ _ s, C (shared s) ∧
    logged (recs ++ [(p, d)]) staged (put_page p d D) (n - 1) s ∧ books recs staged s)).
  { apply op_stage; [|done..]. intros w f [Hc Hst]. split; [by apply cached_logs|done]. }
  intros _. apply (op_bind _ _ _ (λ _, wrote (recs ++ [(p, d)]) staged (put_page p d D) (n - 1) p d)).
  { apply op_change. intros s ((Hc & Hst) & Hl & Hdirty & Hgr). split; [|done]. split; [|split; [|split; [|done]]].
    - cbn. by rewrite newer_snoc, dom_insert_L.
    - by eapply logged_same; [|exact Hl].
    - cbn. rewrite Hdirty, fmap_app, list_to_set_app_L. cbn. set_solver. }
  intros _. apply op_growth.
Qed.

(* ------------------------------------------------------------------ *)
(** * Sync *)

Lemma pages_of_union recs base : pages_of recs base = pages_of recs ∅ ∪ base.
Proof.
  unfold pages_of. induction recs as [|r recs IH] using rev_ind; [cbn; by rewrite map_empty_union|].
  rewrite !foldl_app. cbn. by rewrite IH, insert_union_l.
Qed.

Lemma pages_of_elem recs base p : p ∈ recs.*1 → is_Some (pages_of recs base !! p).
Proof.
  intros Hp. rewrite pages_of_union. apply lookup_union_is_Some. left. clear -Hp.
  unfold pages_of. induction recs as [|[q d] recs IH] using rev_ind; [by apply not_elem_of_nil in Hp|].
  rewrite foldl_app. cbn. rewrite fmap_app in Hp. apply elem_of_app in Hp as [Hp| ->%list_elem_of_singleton].
  - apply lookup_insert_is_Some. destruct (decide (q = p)); [by left|right]. split; [done|by apply IH].
  - rewrite lookup_insert_eq. by eexists.
Qed.

Lemma size_pages_of recs : (size (pages_of recs ∅) ≤ length recs)%nat.
Proof.
  unfold pages_of. induction recs as [|r recs IH] using rev_ind; [cbn; by rewrite map_size_empty|].
  rewrite foldl_app, length_app. cbn. rewrite map_size_insert. destruct (_ !! r.1); cbn; lia.
Qed.

Variable rnd : string → Z → bytes.
Variable to_vec : LocalState → option bytes.
Variable from_slice : bytes → option LocalState.
Variable encode_manifest : Manifest → option bytes.
Variable decode_manifest : bytes → option Manifest.
Variable persists : SyncFails.
Variable durable : gset Z → Op K B ().
Context (Hlogm : is_Some (log_manifest m)).

Lemma op_assign recs staged D n (E : Conn K B → Prop) :
  op_triple (writing recs staged D n) (assign_dirty now (list_to_set recs.*1))
    (λ _ s, cached D (dom (newer recs staged)) n (shared s) ∧ logged recs staged D n s ∧ groups_in (newer recs staged) (shared s)) E.
Proof.
  intros s ((Hco & Hr & Hz) & Hl & Hdirty & Hgr). unfold assign_dirty. unfold mbind, Op_bind. cbn [look].
  unfold look. cbn [compose]. unfold compose. rewrite (co_manifest _ _ _ _ _ _ Hco).
  assert (∀ p, p ∈ recs.*1 → is_Some (newer recs staged !! p)) as Hin.
  { intros p Hp. by apply pages_of_elem. }
  assert (∀ p, p ∈ hset_iter (list_to_set recs.*1 : gset Z) → is_Some (newer recs staged !! p)) as Hiter.
  { intros p Hp%elem_of_hset_iter%elem_of_list_to_set. by apply Hin. }
  assert (unassigned_pages m (list_to_set recs.*1) = []) as ->.
  { unfold unassigned_pages. apply elem_of_nil_inv. intros p [Hn Hp]%list_elem_of_filter.
    destruct (Hiter p Hp) as [d Hd]. apply (lg_pages _ _ _ _ _ Hl) in Hd as (_ & _ & [loc Hloc] & _). congruence. }
  unfold assign_new_pages_to_groups. rewrite bool_decide_true by done. unfold raise at 1.
  unfold on_vfs at 1, on_cache, tag_assigned. cbn [for_each mret M_ret].
  assert (∃ gids, (mapM (λ p, or_panic (group_id <$> page_location m p)) (hset_iter (list_to_set recs.*1)) : io (list Z)) = Ok gids ∧
    ∀ g, g ∈ gids → ∃ p loc, p ∈ hset_iter (list_to_set recs.*1 : gset Z) ∧ page_location m p = Some loc ∧ group_id loc = g)
    as (gids & Hgids & Hsrc).
  { revert Hiter. generalize (hset_iter (list_to_set recs.*1 : gset Z)). intros l Hiter. induction l as [|p l IH].
    - exists []. split; [done|]. by intros g ?%not_elem_of_nil.
    - destruct IH as (gids & Hm & Hs); [intros q Hq; apply Hiter; by right|].
      destruct (Hiter p) as [d Hd]; [by left|]. apply (lg_pages _ _ _ _ _ Hl) in Hd as (_ & _ & [loc Hloc] & _).
      exists (group_id loc :: gids). split; [cbn; by rewrite Hloc, Hm|].
      intros g [->|Hg']%elem_of_cons; [exists p, loc; split; [by left|done]|].
      destruct (Hs g Hg') as (q & loc' & Hq & ?). exists q, loc'. split; [by right|done]. }
  rewrite Hgids. unfold raise, change. cbn. split; [|split].
  - split; [|done]. by destruct Hco.
  - by eapply logged_same; [|exact Hl].
  - intros g Hg'. cbn in Hg'. apply elem_of_union in Hg' as [Hg'|Hg'].
    + apply elem_of_list_to_set in Hg'. destruct (Hsrc g Hg') as (p & loc & Hp & Hloc & Heq).
      destruct (Hiter p Hp) as [d Hd]. exists p, loc. apply (lg_pages _ _ _ _ _ Hl) in Hd as Hd'. by split_and!; [eexists|apply Hd'|..].
    + destruct (Hgr g Hg') as (p & loc & Hs & Hrest). exists p, loc. split; [|done].
      unfold newer. rewrite pages_of_union. apply lookup_union_is_Some. by right.
Qed.

(** The connection between the assignment and the sealing of its log. *)
Definition sealing recs staged D n s : Prop :=
  cached D (dom (newer recs staged)) n (shared s) ∧ logged recs staged D n s ∧
  groups_in (newer recs staged) (shared s) ∧ dirty_page_nums (conn s) = ∅.

Lemma annotates_generation : annotates (bump_generation : M K ()).
Proof. apply annotates_modify; [|by repeat split]. intros c0. apply kept_modify. intros c. by split_and!. Qed.

Lemma op_generation recs staged D n (E : Conn K B → Prop) :
  op_triple (sealing recs staged D n) next_generation (λ _, sealing recs staged D n) E.
Proof.
  unfold next_generation. apply (op_bind _ _ _ (λ _, sealing recs staged D n)).
  - set (C := cached D (dom (newer recs staged)) n).
    set (R := λ s, logged recs staged D n s ∧ groups_in (newer recs staged) (shared s) ∧ dirty_page_nums (conn s) = ∅).
    apply (op_conseq (λ s, C (shared s) ∧ R s) _ _ (λ _ s, C (shared s) ∧ R s) _ (λ s, False ∧ R s) _);
      [|done..|by intros s [[] _]].
    apply (op_on_vfs_log C (λ _, False) R _ (λ _, C)).
    + eapply (triple_annotate key m); [apply annotates_generation| |by intros w [? _]]. intros w c. apply cached_store.
    + apply log_kept_cache.
    + intros s w Hw (Hl & Hgr & Hd). split; [by apply logged_log_part|]. split; [|done].
      injection Hw as _ _ Hw. unfold groups_in. cbn. by rewrite Hw.
  - intros _. apply op_change. intros s (Hc & Hl & Hgr & Hd). split; [done|]. split; [by eapply logged_same; [|exact Hl]|done].
Qed.

Lemma op_seal recs staged D n l (E : Conn K B → Prop) :
  is_valid_page_size ps = true →
  op_triple (λ s, sealing recs staged D n s ∧ staging_writer (conn s) = Some l) (seal_log log_manifest no_log_fails l)
    (λ _, writing [] (newer recs staged) D n) E.
Proof.
  intros Hvalid s [((Hco & Hr & Hz) & Hl & Hgr & Hd) Hsw]. destruct Hl as [Hmode Hps Hlog Hseq Hread Hshelf Hord Hdir Hload Hrec Hpg].
  rewrite Hsw in Hlog. destruct Hlog as (_ & Hw & q & Hq & Hq' & Hlt). destruct Hlogm as [data Hdata].
  assert (∀ f, f ∈ v_pending (shared s) → staging_path f ≠ ol_path l) as Hne.
  { intros f Hf. specialize (Hlt f Hf). destruct (Hshelf f Hf) as [-> ? _ _]. rewrite Hq. intros Heq%log_path_inj; lia. }
  assert (default 0 (parse_u64 (stem_and_extension (ol_path l)).1) = q) as Hparse.
  { rewrite Hq. unfold log_path. rewrite log_name_split by (unfold is_u64; lia). cbn. by rewrite parse_u64_decimal by (unfold is_u64; lia). }
  unfold seal_log, mbind, Op_bind, change, look, raise, fallible. cbn. rewrite (co_manifest _ _ _ _ _ _ Hco), Hdata. cbn.
  split; [|split; [|by split]]; [split; [by destruct Hco|done]|]. split; cbn; try done.
  - rewrite Hw. unfold read_logs. rewrite fold_io_app. cbn.
    erewrite fold_io_ext; [unfold read_logs in Hread; rewrite Hread|].
    + pose proof (read_sealed ps recs data Hvalid Hrec) as Hr'. unfold sealed_log in Hr'. cbn in Hr' |- *.
      rewrite lookup_insert_eq. cbn. rewrite Hr'. cbn. f_equal. symmetry. apply pages_of_union.
    + intros acc f Hf. cbn. rewrite lookup_insert_ne; [done|]. intros Heq. by apply (Hne f).
  - intros f [Hf| ->%list_elem_of_singleton]%elem_of_app.
    + eapply shelved_keep; [by apply Hshelf|done|]. cbn. rewrite lookup_insert_ne; [done|]. intros Heq. by apply (Hne f).
    + split; cbn; rewrite ?Hparse; try done. exists recs, data. by rewrite Hw, lookup_insert_eq.
  - apply StronglySorted_app_2; [|done|by repeat constructor]. intros f g Hf ->%list_elem_of_singleton. cbn. rewrite Hparse. by apply Hlt.
  - intros path. rewrite lookup_insert_is_Some. intros [<-|[_ Hpath]]; left.
    + eexists. split; [apply elem_of_app; right; by apply list_elem_of_singleton|done].
    + destruct (Hdir path Hpath) as [(f & Hf & <-)|(l' & Hl' & ->)].
      * exists f. split; [apply elem_of_app; by left|done].
      * rewrite Hsw in Hl'. injection Hl' as <-. eexists. split; [apply elem_of_app; right; by apply list_elem_of_singleton|done].
  - rewrite shelf_load_snoc, (shelf_load_ext _ (v_logs (shared s))).
    + unfold log_pages. cbn [staging_path]. rewrite lookup_insert_eq. cbn [fmap option_fmap option_map].
      pose proof (read_sealed ps recs data Hvalid Hrec) as Hr'. unfold sealed_log in Hr'. cbn in Hr' |- *. rewrite Hw, Hr'.
      pose proof (size_pages_of recs) as Hsize. lia.
    + intros f Hf. rewrite lookup_insert_ne; [done|]. intros Heq. by apply (Hne f).
Qed.

Lemma log_kept_copies fails : log_kept (persist_copies to_vec from_slice fails : Prog K B ()).
Proof.
  unfold persist_copies. apply log_kept_bind; [apply log_kept_attempt, log_kept_cache|intros _].
  apply log_kept_reads. intros m'. apply log_kept_reads. intros dirty.
  apply log_kept_bind; [apply log_kept_attempt, log_kept_cache|intros _].
  apply log_kept_bind; [apply log_kept_attempt, log_kept_cache|intros _]. apply log_kept_ret.
Qed.

(** A write of the state file, whose failure is dropped. *)
Lemma triple_state_file (P E : Vfs K B → Prop) (x : M K ()) :
  (∀ c, (x c).1 ≠ Panic ∧ ∃ f, (x c).2 = c <| state_file := f |>) →
  (∀ w f, P w → P (w <| v_cache := v_cache w <| state_file := f |> |>)) → triple P (attempt (on_cache x)) (λ _, P) E.
Proof.
  intros Hx HP w Hw. unfold attempt, on_cache. destruct (Hx (v_cache w)) as [Hp [f Hf]].
  destruct (x (v_cache w)) as [r c']. cbn in Hp, Hf. subst c'. destruct r; [by apply HP|by apply HP|done].
Qed.

Lemma state_update fail f c :
  ((let '(r, g) := LocalState.update to_vec from_slice fail (state_file c) f in (r, c <| state_file := g |>)) : io () * DiskCache K).1
    ≠ Panic.
Proof.
  pose proof (update_no_panic to_vec from_slice fail (state_file c) f) as Hp.
  by destruct (LocalState.update to_vec from_slice fail (state_file c) f).
Qed.

Lemma triple_copies (P E : Vfs K B → Prop) fails :
  (∀ w f, P w → P (w <| v_cache := v_cache w <| state_file := f |> |>)) →
  triple P (persist_copies to_vec from_slice fails) (λ _, P) E.
Proof.
  intros HP. unfold persist_copies.
  assert (∀ A (f : Vfs K B → A) (g : A → Prog K B ()), (∀ a, triple P (g a) (λ _, P) E) → triple P (reads f ≫= g) (λ _, P) E) as Hreads.
  { intros A f g Hg'. apply triple_reads_bind. intros a. eapply triple_conseq; [apply Hg'|by intros w [? _]|done..]. }
  apply (triple_bind _ _ _ (λ _, P)).
  { apply triple_state_file; [|done]. intros c. unfold persist_bitmap. split; [apply state_update|].
    destruct (LocalState.update _ _ _ _ _) as [r g]. by eexists. }
  intros _. apply Hreads. intros m'. apply Hreads. intros dirty.
  apply (triple_bind _ _ _ (λ _, P)).
  { apply triple_state_file; [|done]. intros c. unfold persist_manifest_local. split; [apply state_update|].
    destruct (LocalState.update _ _ _ _ _) as [r g]. by eexists. }
  intros _. apply (triple_bind _ _ _ (λ _, P)).
  { apply triple_state_file; [|done]. intros c. unfold persist_dirty_groups. split; [apply state_update|].
    destruct (LocalState.update _ _ _ _ _) as [r g]. by eexists. }
  intros _. by apply triple_ret.
Qed.

(** The state file has the state of the process. *)
Record saved w (st : LocalState) : Prop := {
  sv_cache : saved_as from_slice (v_cache w) (state_file (v_cache w)) st;
  sv_manifest : ls_manifest st = Some (strip_indexes (v_manifest w));
  sv_dirty : ∃ l, dirty_groups st = Some l ∧ list_to_set l = v_dirty_groups w
}.

Lemma update_load file f st :
  (∀ st, is_Some (to_vec st)) → codec_law to_vec from_slice → load_or_default from_slice None file = Ok st →
  ∃ file', LocalState.update to_vec from_slice None file f = (Ok (), file') ∧ load_or_default from_slice None file' = Ok (updated f st) ∧
    load from_slice None file' = Ok (Some (updated f st)).
Proof.
  intros Ht Hc Hs. unfold LocalState.update. cbn [failing_call]. rewrite Hs. unfold persist. cbn zeta.
  destruct (Ht (with_version (normalized (f st)) 1)) as [b Hb]. rewrite Hb. cbn. eexists. split; [reflexivity|].
  rewrite with_version_normalized in Hb. unfold load_or_default, load. cbn. by rewrite (Hc _ _ Hb).
Qed.

Lemma update_unreadable file f e :
  load_or_default from_slice None file = Err e → LocalState.update to_vec from_slice None file f = (Err e, file).
Proof. intros He. unfold LocalState.update. cbn [failing_call]. by rewrite He. Qed.

Definition no_persist_fails : FlushFails := {| ff_manifest := None; ff_dirty := None; ff_bitmap := None |}.

(** After copies that can be written, a file that can be read is up to date. *)
Lemma copies_saved w w' :
  (∀ st, is_Some (to_vec st)) → codec_law to_vec from_slice →
  persist_copies to_vec from_slice no_persist_fails w = (Ok (), w') →
  (∃ st, load_or_default from_slice None (state_file (v_cache w')) = Ok st) → ∃ st, saved w' st.
Proof.
  intros Ht Hc Hrun [st' Hst']. set (c := v_cache w) in *.
  unfold persist_copies, mbind, Prog_bind, attempt, on_cache, reads, persist_bitmap, persist_manifest_local, persist_dirty_groups in Hrun.
  fold c in Hrun. cbn [ff_bitmap ff_manifest ff_dirty no_persist_fails] in Hrun.
  destruct (load_or_default from_slice None (state_file c)) as [st|e|] eqn:Hl.
  - set (f1 := with_cache_state _ _ _) in Hrun.
    destruct (update_load (state_file c) f1 st Ht Hc Hl) as (file1 & Hu1 & Hl1 & _). rewrite Hu1 in Hrun. cbn in Hrun.
    set (f2 := λ x, with_manifest x (v_manifest w)).
    destruct (update_load file1 f2 _ Ht Hc Hl1) as (file2 & Hu2 & Hl2 & _). unfold f2 in Hu2. rewrite Hu2 in Hrun. cbn in Hrun.
    set (f3 := λ x, with_dirty_groups x (hset_iter (v_dirty_groups w))).
    destruct (update_load file2 f3 _ Ht Hc Hl2) as (file3 & Hu3 & _ & Hl3). unfold f3 in Hu3. rewrite Hu3 in Hrun. cbn in Hrun.
    injection Hrun as <-. eexists. split; [split; [exact Hl3|by split_and!]|done|].
    eexists. split; [done|]. cbn. apply set_eq. intros g. by rewrite elem_of_list_to_set, elem_of_hset_iter.
  - rewrite (update_unreadable _ _ _ Hl) in Hrun. cbn in Hrun. rewrite (update_unreadable _ _ _ Hl) in Hrun. cbn in Hrun.
    rewrite (update_unreadable _ _ _ Hl) in Hrun. cbn in Hrun. injection Hrun as <-. cbn in Hst'. fold c in Hst'. congruence.
  - by destruct (load_no_panic from_slice (state_file c)).
Qed.

(** The state file after a sync whose copies could be written. *)
Definition settled w : Prop :=
  sy_copy persists = no_persist_fails → (∀ st, is_Some (to_vec st)) → codec_law to_vec from_slice →
  (∃ st, load_or_default from_slice None (state_file (v_cache w)) = Ok st) → ∃ st, saved w st.

Lemma triple_settled (P E : Vfs K B → Prop) :
  (∀ w f, P w → P (w <| v_cache := v_cache w <| state_file := f |> |>)) →
  triple P (persist_copies to_vec from_slice (sy_copy persists)) (λ _ w, P w ∧ settled w) E.
Proof.
  intros HP w Hw. pose proof (triple_copies P (λ _, False) (sy_copy persists) HP w Hw) as Hrun.
  destruct (persist_copies _ _ _ w) as [[[]|e|] w'] eqn:Heq; [|done..]. split; [done|].
  intros Hno Ht Hc Hread. rewrite Hno in Heq. by eapply copies_saved.
Qed.

(** The sync of a transaction seals its log. *)
Lemma op_sync recs staged D n :
  is_valid_page_size ps = true → recs ≠ [] →
  op_triple (writing recs staged D n)
    (sync rnd to_vec from_slice log_manifest encode_manifest decode_manifest key now durable no_log_fails persists)
    (λ _ s, writing [] (newer recs staged) D n s ∧ settled (shared s)) (λ _, False).
Proof.
  intros Hvalid Hne. unfold sync. apply op_look_bind. intros h.
  apply (op_pre _ (read_only h = false ∧ local_checkpoint_only h = true ∧ dirty_page_nums h = list_to_set recs.*1)).
  { intros s [(_ & Hl & Hb) <-]. destruct (lg_mode _ _ _ _ _ Hl) as (_ & ? & ?). by destruct Hb. }
  intros (-> & -> & ->).
  apply (op_bind _ _ _ (λ _, writing recs staged D n)).
  { apply op_change. intros s [(Hc & Hl & Hb) _]. split; [done|]. split; [by eapply logged_same; [|exact Hl]|done]. }
  intros _. apply op_look_bind. intros groups.
  apply (op_conseq (writing recs staged D n) _ _ (λ _ s, writing [] (newer recs staged) D n s ∧ settled (shared s)) _ (λ _, False) _);
    [|by intros s [? _]|done..].
  rewrite (bool_decide_false (list_to_set recs.*1 = ∅)).
  2: { intros Heq. destruct recs as [|r recs]; [done|]. cbn in Heq. set_solver. }
  cbn [andb]. unfold local_sync.
  apply (op_bind _ _ _ (λ _ s, cached D (dom (newer recs staged)) n (shared s) ∧ logged recs staged D n s ∧
    groups_in (newer recs staged) (shared s))); [apply op_assign|intros gids].
  apply (op_bind _ _ _ (λ _, sealing recs staged D n)).
  { apply op_change. intros s (Hc & Hl & Hgr). split; [done|]. split; [by eapply logged_same; [|exact Hl]|done]. }
  intros _. apply (op_bind _ _ _ (λ _, sealing recs staged D n)); [apply op_generation|intros _].
  apply op_look_bind. intros log. unfold compose.
  apply (op_bind _ _ _ (λ _, writing [] (newer recs staged) D n)).
  { apply (op_pre _ (log ≠ None)).
    { intros s [(_ & Hl & _) <-] Hn. apply lg_log in Hl. rewrite Hn in Hl. done. }
    intros Hsome. destruct log as [l|]; [by apply op_seal|done]. }
  intros _. set (C := cached D (dom (newer [] (newer recs staged))) n).
  set (R := λ s, logged [] (newer recs staged) D n s ∧ books [] (newer recs staged) s).
  apply (op_bind _ _ _ (λ _ s, writing [] (newer recs staged) D n s ∧ settled (shared s))).
  { apply (op_conseq (λ s, C (shared s) ∧ R s) _ _ (λ _ s, (C (shared s) ∧ settled (shared s)) ∧ R s) _ (λ s, False ∧ R s) _);
      [|done|by intros a s [[? ?] [? ?]]|by intros s [[] _]].
    apply (op_on_vfs_log C (λ _, False) R _ (λ _ w, C w ∧ settled w)); [|apply log_kept_copies|].
    - apply triple_settled. intros w f Hc. apply cached_store; [done| |by repeat split].
      eapply same_tracker_framed; [by eapply coherent_framed, Hc|done..].
    - intros s w Hw [Hl Hb]. split; [by apply logged_log_part|by eapply books_log_part]. }
  intros _. unfold flush_inline. apply op_look_bind. intros h'.
  apply (op_pre _ (is_local h' = false)); [by intros s [[(_ & Hl & _) _] <-]; apply Hl|]. intros ->.
  by apply op_ret; intros s [? _].
Qed.

(* ------------------------------------------------------------------ *)
(** * Transactions *)

Fixpoint write_all (ws : list (Z * bytes)) : Op K B () :=
  match ws with
  | [] => mret ()
  | (p, d) :: ws => _ ← write_all_at nonce now no_log_fails d (p * ps); write_all ws
  end.

(** Page writes, then the sync. *)
Definition transaction (ws : list (Z * bytes)) : Op K B () :=
  _ ← write_all ws;
  sync rnd to_vec from_slice log_manifest encode_manifest decode_manifest key now durable no_log_fails persists.

Fixpoint transactions (ts : list (list (Z * bytes))) : Op K B () :=
  match ts with
  | [] => mret ()
  | ws :: ts => _ ← transaction ws; transactions ts
  end.

(** The database after the writes. *)
Definition after (ws : list (Z * bytes)) (D : Z → bytes) : Z → bytes := foldl (λ D r, put_page r.1 r.2 D) D ws.

(** A full page of the database that has a place in it. *)
Definition writable (r : Z * bytes) : Prop :=
  is_Some (page_location m r.1) ∧ 0 ≤ r.1 < 2 ^ 46 ∧ Z.of_nat (length r.2) = ps.

Lemma op_writes ws recs staged D n :
  Forall writable ws → Z.of_nat (length ws) ≤ n →
  op_triple (writing recs staged D n) (write_all ws)
    (λ _, writing (recs ++ ws) staged (after ws D) (n - Z.of_nat (length ws))) (λ _, False).
Proof.
  revert recs D n. induction ws as [|[p d] ws IH]; intros recs D n Hws Hn; cbn [write_all length] in *.
  - apply op_ret. intros s Hs. rewrite app_nil_r. by replace (n - Z.of_nat 0) with n by lia.
  - apply Forall_cons in Hws as [(Hloc & Hp & Hd) Hws].
    apply (op_bind _ _ _ (λ _, writing (recs ++ [(p, d)]) staged (put_page p d D) (n - 1)));
      [eapply op_conseq; [apply (op_write recs staged D n p d); [done..|lia]|done|by intros a s [? _]|done]|]. intros _.
    eapply op_conseq; [apply (IH (recs ++ [(p, d)]) (put_page p d D) (n - 1)); [done|lia]|done| |done].
    intros [] s. rewrite <-(assoc_L (++)). cbn [app after foldl fst snd]. by replace (n - 1 - Z.of_nat (length ws)) with (n - Z.of_nat (S (length ws))) by lia.
Qed.

Lemma op_transactions ts staged D n :
  is_valid_page_size ps = true → Forall (λ ws, ws ≠ [] ∧ Forall writable ws) ts →
  Z.of_nat (length (concat ts)) ≤ n →
  op_triple (writing [] staged D n) (transactions ts)
    (λ _ s, writing [] (newer (concat ts) staged) (after (concat ts) D) (n - Z.of_nat (length (concat ts))) s ∧
            (ts ≠ [] → settled (shared s))) (λ _, False).
Proof.
  intros Hvalid. revert staged D n. induction ts as [|ws ts IH]; intros staged D n Hts Hn; cbn [transactions concat length] in *.
  - apply op_ret. intros s Hs. by replace (n - Z.of_nat 0) with n by lia.
  - apply Forall_cons in Hts as [[Hne Hws] Hts]. rewrite length_app in Hn |- *.
    apply (op_bind _ _ _ (λ _ s, writing [] (newer ws staged) (after ws D) (n - Z.of_nat (length ws)) s ∧ settled (shared s))).
    { unfold transaction. apply (op_bind _ _ _ (λ _, writing ws staged (after ws D) (n - Z.of_nat (length ws))));
        [apply (op_writes ws []); [done|lia]|]. intros _. by apply op_sync. }
    intros _. unfold newer, pages_of, after. rewrite !foldl_app.
    destruct ts as [|ws' ts].
    { apply op_ret. intros s [Hs Hset]. cbn [concat foldl length]. rewrite Nat.add_0_r. by split. }
    eapply op_conseq; [apply (IH (newer ws staged) (after ws D) (n - Z.of_nat (length ws))); [done|lia]|by intros s [? _]| |done].
    intros [] s [Hs Hset]. split; [|intros _; by apply Hset]. unfold newer, pages_of, after in Hs.
    by replace (n - Z.of_nat (length ws + length (concat (ws' :: ts)))) with
      (n - Z.of_nat (length ws) - Z.of_nat (length (concat (ws' :: ts)))) by lia.
Qed.

Lemma dirty_groups_located staged w gid :
  groups_in staged w → map_Forall (λ p _, 0 ≤ p ∧ is_Some (page_location m p)) staged →
  gid ∈ dirty_groups_of m staged (v_dirty_groups w) →
  ∃ p loc, is_Some (staged !! p) ∧ 0 ≤ p ∧ page_location m p = Some loc ∧ group_id loc = gid.
Proof.
  intros Hgr Hst. unfold dirty_groups_of. intros [Hin|Hin]%elem_of_union; [by apply Hgr|].
  apply elem_of_list_to_set, list_elem_of_omap in Hin as (p & Hp & Hloc). apply elem_of_elements, elem_of_dom in Hp as [d Hd].
  destruct (page_location m p) as [loc|] eqn:Hl; [|done]. injection Hloc as <-. exists p, loc.
  split; [by eexists|]. split; [by apply (Hst p d)|done].
Qed.

(** After its transactions the connection leaves a state a flush accepts, and
    the newest content of every page is the database's. *)
Lemma writing_ready staged D n s override_threshold :
  keys_ok m → version m + 1 < 2 ^ 64 → small m → stored_whole key m o → writing [] staged D n s →
  FlushSafety.ready key override_threshold (shared s) staged ∧
  ∀ p, 0 ≤ p → is_Some (page_location m p) → newest_page key (shared s) staged p = Some (D p).
Proof.
  intros Hk Hv Hsmall [Hbase Hover] ((Hco & _ & _ & Ho) & Hl & _ & Hgr).
  pose proof (lg_pages _ _ _ _ _ Hl) as Hpg. change (newer [] staged) with staged in *.
  pose proof (co_manifest _ _ _ _ _ _ Hco) as Hm. pose proof (co_cache _ _ _ _ _ _ Hco) as Hok.
  assert (map_Forall (λ p _, 0 ≤ p ∧ is_Some (page_location m p)) staged) as Hplace
    by (intros p d Hd; by destruct (Hpg p d Hd) as (_ & ? & ? & _)).
  assert (∀ p d, 0 ≤ p → view (v_cache (shared s)) p = Some d → d = D p) as Hsound.
  { intros p d Hp. rewrite view_stored by done. by apply (co_sound _ _ _ _ _ _ Hco). }
  assert (∀ p, 0 ≤ p → is_Some (page_location m p) → staged !! p = None → cold_page key m o p = Some (D p)) as Hcold.
  { intros p Hp Hloc Hn. rewrite <-Ho. apply (co_stored _ _ _ _ _ _ Hco); [done..|]. by apply not_elem_of_dom. }
  split; [split; [apply Hl|]|].
  - rewrite Hm, Ho. split; try done.
    + apply Hco.
    + intros p d Hd. by apply (Hpg p d Hd).
    + intros gid Hin. destruct (dirty_groups_located staged (shared s) gid Hgr Hplace Hin) as (p & loc & _ & Hp & Hloc & <-).
      pose proof (gid_u32 m Hg Hsmall p loc [] Hp Hloc) as Hu. unfold is_u32 in Hu. cbn. unfold is_u64. lia.
    + intros p loc Hp Hloc Hs. by eapply dirty_located.
    + intros gid Hin. right. destruct (dirty_groups_located staged (shared s) gid Hgr Hplace Hin) as (p & loc & _ & Hp & Hloc & <-).
      destruct (location_listed m p loc Hg Hp Hloc) as [Hgid _]. destruct (Hbase _ Hgid) as (pages & Hb & Hlen).
      exists pages. split; [done|]. split; [done|]. intros; apply Hover.
    + intros gid i p d Hgid Hloc Hi Hs Hview _.
      assert (0 ≤ p) as Hp by (apply (ge_pages _ Hg gid p Hgid); by eapply list_elem_of_lookup_2).
      pose proof (Hcold p Hp ltac:(by eexists) Hs) as Hd. unfold cold_page in Hd. rewrite Hloc in Hd. cbn in Hd.
      rewrite Hd. by rewrite (Hsound p d Hp Hview).
  - intros p Hp Hloc. unfold newest_page, newest, local_page. destruct (staged !! p) as [d|] eqn:Hs.
    + by destruct (Hpg p d Hs) as [-> _].
    + destruct (view (v_cache (shared s)) p) as [d|] eqn:Hview; [by rewrite (Hsound p d Hp Hview)|]. rewrite Hm, Ho. by apply Hcold.
Qed.
End write_safety.

(** C28. A transaction reads its own writes: writing a page through a connection
    in the two-phase mode succeeds, and a read of the page then returns what was
    written, whatever other handles' workers do. *)
Theorem read_your_writes `{HashIter} `{Compression} `{Aead K} `{StorageLaws B} nonce `{!CacheLaws nonce}
    key m o log_manifest N live now now' recs staged D n p d pool others buf (s : Conn K B) :
  geometry m → writing key m live o log_manifest N recs staged D n s → writable m (p, d) → 1 ≤ n →
  Z.of_nat (length buf) = Manifest.page_size m →
  ∃ s' s'', write_all_at nonce now no_log_fails d (p * Manifest.page_size m) s = (Ok (), s') ∧
    read_exact_at nonce key now' pool others buf (p * Manifest.page_size m) s' = (Ok d, s'').
Proof.
  intros Hg Hs (Hloc & Hp & Hd) Hn Hbuf. pose proof (ge_ps _ Hg) as Hpos. cbn in Hloc, Hp, Hd.
  pose proof (op_write nonce key m live now Hg o log_manifest N recs staged D n p d Hloc Hp Hd Hn s Hs) as Hrun.
  destruct (write_all_at nonce now no_log_fails d (p * Manifest.page_size m) s) as [[[]|e|] s']; [|done..].
  destruct Hrun as [((Hco & _) & Hl & Hdirty & _) Hst]. exists s', s'. split; [done|].
  pose proof (lg_ps _ _ _ _ _ _ _ _ Hl) as Hps.
  unfold read_exact_at. unfold mbind at 1, Op_bind at 1, look at 1. rewrite Hps.
  destruct (Z.ltb_spec 0 (Manifest.page_size m)); [|lia].
  destruct (Z.eqb_spec (Manifest.page_size m) 0); [lia|]. unfold mbind at 1, Op_bind at 1, raise at 1.
  rewrite Z.div_mul by lia.
  pose proof (present_run key m _ _ live p buf ltac:(lia) Hbuf s' Hco) as Hpres. rewrite Hst in Hpres.
  unfold mbind at 1, Op_bind at 1, fast_read. unfold mbind, Op_bind, look, raise, mret, Op_ret.
  rewrite decide_True.
  - repeat case_match; simplify_eq; by rewrite Hpres in *; simplify_eq.
  - cbn in Hdirty. rewrite Hdirty, elem_of_list_to_set, fmap_app. set_solver.
Qed.

(** C3. What transactions write reaches the storage backend. A connection in the
    two-phase mode, over a database whose groups are all stored whole, without
    override frames, runs transactions - page writes and a sync each - none of
    which fails; they write pages that already have a place in the database, in
    too few frames for automatic compaction to do anything. The flush that follows
    does not panic and succeeds when nothing outside it fails, and then publishes
    a manifest under which every page that has a place reads as the last write
    left it, or as it was before. Transactions that grow the database are not
    covered ([synced_growth_is_lost]). *)
Theorem transactions_reach_storage `{HashIter} `{Compression} `{Aead K} `{StorageLaws B} nonce `{!CacheLaws nonce}
    rnd `{!FlushLaws rnd} to_vec from_slice log_manifest encode_manifest decode_manifest key m o live now persists durable
    fails is_local gc override_threshold compaction_threshold D D' n ts (s : Conn K B) :
  geometry m → small m → keys_ok m → version m + 1 < 2 ^ 64 → is_valid_page_size (Manifest.page_size m) = true →
  is_Some (log_manifest m) → stored_whole key m o →
  uncompacted compaction_threshold m (list_to_set (concat ts).*1) →
  writing key m live o log_manifest n [] ∅ D n s →
  Forall (λ ws, ws ≠ [] ∧ Forall (writable m) ws) ts → Z.of_nat (length (concat ts)) ≤ n → D' = after (concat ts) D →
  ∃ s', transactions nonce key m now log_manifest rnd to_vec from_slice encode_manifest decode_manifest persists durable ts s
          = (Ok (), s') ∧
    let w := shared s' in
    let '(r, w') := run_flush rnd to_vec from_slice encode_manifest decode_manifest key fails is_local gc
                      override_threshold compaction_threshold w in
    r ≠ Panic ∧
    (flush_works to_vec from_slice encode_manifest decode_manifest m o (v_cache w) fails (v_backend w) → r = Ok ()) ∧
    (r = Ok () → ∀ p, 0 ≤ p → is_Some (page_location m p) →
       page_location (v_manifest w') p = page_location m p ∧
       cold_page key (v_manifest w') (objects (v_backend w')) p = Some (D' p)).
Proof.
  intros Hg Hsmall Hk Hv Hvalid Hlogm Hwhole Hcomp Hs Hts Hn ->.
  pose proof (op_transactions nonce key m live now Hg o log_manifest n rnd to_vec from_slice encode_manifest decode_manifest
    persists durable Hlogm ts ∅ D n Hvalid Hts Hn s Hs) as Hrun.
  destruct (transactions _ _ _ _ _ _ _ _ _ _ _ _ _ s) as [[[]|e|] s']; [|done..].
  destruct Hrun as [Hrun _]. exists s'. split; [done|]. cbn zeta. destruct (run_flush _ _ _ _ _ _ _ _ _ _ _ (shared s')) as [r w'] eqn:Hflush.
  destruct (writing_ready key m live Hg o log_manifest n _ _ _ s' override_threshold Hk Hv Hsmall Hwhole Hrun) as [Hr Hnew].
  destruct Hrun as ((Hco & _ & _ & Ho) & _). pose proof (co_manifest _ _ _ _ _ _ Hco) as Hm.
  assert (uncompacted compaction_threshold (v_manifest (shared s')) (dom (newer (concat ts) ∅))) as Hcomp'
    by (rewrite Hm; eapply uncompacted_mono; [apply pages_of_dom|done]).
  destruct (run_flush_end rnd to_vec from_slice encode_manifest decode_manifest key fails is_local gc override_threshold
    compaction_threshold (shared s') _ _ _ Hr Hcomp' Hflush) as [Hnp Hworks _ _ Hok].
  rewrite Hm, Ho in Hworks. split; [done|]. split; [done|]. intros -> p Hp Hloc.
  destruct (Hok eq_refl) as (_ & _ & Hpages & _). rewrite Hm in Hpages. destruct (Hpages p Hp Hloc) as [Hl Hc].
  split; [done|]. rewrite Hc. by apply Hnew.
Qed.
