(* ===== verification/WriteExamples.v ===== *)
(** Transactions on a small database: the witnesses of the theorems about
    writing, and the writes, syncs and truncations that go wrong. *)

From S2P Require Import Prelude Keys Wire Staging Manifest Backend ColdRead.
From S2P Require Import CacheTracking LocalState Compress Encoding File DiskCache CacheView CacheWrite CacheSafety CacheSteps CacheReopen CacheExamples.
From S2P Require Import Vfs Compact Flush FlushPages FlushGroups FlushInv FlushBundles FlushManifest FlushRun FlushSafety FlushExamples.
From S2P Require Import Settings Keeps Programs Handle HandleRead HandleSafety HandleExamples HandleWrite WriteSafety.

#[local] Existing Instance canonical_iter.

(* ------------------------------------------------------------------ *)
(** * The connection *)

(** The database of FlushExamples, fully stored, with nothing cached. *)
Definition wx_cache : DiskCache () := match fx_new with Ok c => c | _ => demo_cache false None end.

Definition wx_handle : Handle := hx_handle <| local_checkpoint_only := true |>.

Definition wx_state : Vfs () MemStore := {|
  v_cache := wx_cache; v_backend := {| ms_objects := fx_objects; ms_faults := [] |};
  v_manifest := fx_manifest; v_dirty_groups := ∅; v_pending := []; v_logs := ∅
|}.

Definition wx_conn : Conn () MemStore := {|
  conn := wx_handle; shared := wx_state; end_query := false; plan_queue := []; settings_queue := []; staging_seq := 1
|}.

Definition wx_pages (p : Z) : bytes := if decide (0 ≤ p < 6) then fx_page p 1 else zeros 512.

(** The state file keeps nothing here; the trailer of a log is the version. *)
Definition wx_to_vec (_ : LocalState) : option bytes := Some [].
Definition wx_from_slice (_ : bytes) : option LocalState := Some default_state.
Definition wx_log_manifest : Manifest → option bytes := version_encode.

Definition wx_fails : SyncFails := {| sy_commit := fx_no_fails; sy_copy := fx_no_fails; sy_flush := fx_no_fails |}.
Definition wx_durable (_ : gset Z) : Op () MemStore () := mret ().

Definition wx_sync (fails : LogFails) : Op () MemStore () :=
  sync fx_rnd wx_to_vec wx_from_slice wx_log_manifest version_encode version_decode fx_key 0 wx_durable fails wx_fails.

Definition wx_transactions : list (list (Z * bytes)) → Op () MemStore () :=
  transactions demo_nonce fx_key fx_manifest 0 wx_log_manifest fx_rnd wx_to_vec wx_from_slice version_encode version_decode
    wx_fails wx_durable.

Definition wx_flush (w : Vfs () MemStore) : io () * Vfs () MemStore :=
  run_flush fx_rnd wx_to_vec wx_from_slice version_encode version_decode fx_key fx_no_fails false true 2 8 w.

Lemma wx_located p : 0 ≤ p → is_Some (page_location fx_manifest p) → p ∈ [0; 1; 2; 3; 4; 5].
Proof.
  intros Hp [loc Hloc]. destruct (location_listed fx_manifest p loc fx_geometry Hp Hloc) as (Hgid & i & _ & Hi).
  apply fx_group_pages in Hi; [|done]. rewrite !elem_of_cons, elem_of_nil in Hi. set_solver.
Qed.

Lemma wx_stored p : 0 ≤ p → is_Some (page_location fx_manifest p) → cold_page fx_key fx_manifest fx_objects p = Some (wx_pages p).
Proof.
  intros Hp Hloc. pose proof (wx_located p Hp Hloc) as Hcases. clear -Hcases. rewrite !elem_of_cons, elem_of_nil in Hcases.
  destruct Hcases as [->|[->|[->|[->|[->|[->|[]]]]]]]; vm_compute; reflexivity.
Qed.

Lemma wx_cache_run : cache_ok wx_cache ∧ page_size wx_cache = 512 ∧ ∀ p d, 0 ≤ p → stored wx_cache p = Some d → d = wx_pages p.
Proof.
  destruct fx_new_run as (c & Hrun & Hok & Hps & _ & Hv). unfold wx_cache. rewrite Hrun. split_and!; [done|done|].
  intros p d Hp. rewrite <-view_stored, Hv by done. done.
Qed.

Lemma wx_tracker : elements (present (tracker wx_cache)) = [] ∧ group_access wx_cache = ∅ ∧
  cache_compression (cfg wx_cache) = false ∧ DiskCache.sub_pages_per_frame (cfg wx_cache) = 2.
Proof. vm_compute. done. Qed.

Lemma wx_parts : v_manifest wx_state = fx_manifest ∧ v_cache wx_state = wx_cache ∧ objects (v_backend wx_state) = fx_objects.
Proof. by split_and!. Qed.

Lemma wx_coherent : coherent fx_key fx_manifest wx_pages (dom (newer [] ∅)) True wx_state.
Proof.
  destruct wx_cache_run as (Hok & Hps & Hs). destruct wx_tracker as (Ht & Ha & _). destruct wx_parts as (Hm & Hc & Ho).
  split; rewrite ?Hc, ?Ho.
  - exact Hm.
  - exact Hok.
  - unfold ids_ok. apply set_Forall_elements. rewrite Ht. constructor.
  - unfold access_ok. rewrite Ha. apply map_Forall_empty.
  - exact Hps.
  - exact Hs.
  - intros p Hp Hl _. by apply wx_stored.
  - reflexivity.
Qed.

Lemma wx_writing n : 0 ≤ n < 2 ^ 63 → writing fx_key fx_manifest True fx_objects wx_log_manifest n [] ∅ wx_pages n wx_conn.
Proof.
  intros Hn. destruct wx_tracker as (_ & _ & Hcc & Hspf). destruct wx_parts as (Hm & Hc & Ho).
  split; [split; [exact wx_coherent|split; [|split; [|exact Ho]]]|split; [|split]].
  - change (room wx_cache n). unfold room. by rewrite Hcc.
  - split; [cbn; lia|left; cbn; lia].
  - split.
    + by split_and!.
    + reflexivity.
    + reflexivity.
    + change (0 ≤ 1 < 2 ^ 64 ∧ 1 + n < 2 ^ 64). lia.
    + reflexivity.
    + intros f Hf. exact (False_ind _ (not_elem_of_nil _ Hf)).
    + constructor.
    + intros path [file Hf]. change ((∅ : gmap string bytes) !! path = Some file) in Hf. by rewrite lookup_empty in Hf.
    + change (0 + 0 + n ≤ n). lia.
    + constructor.
    + apply map_Forall_empty.
  - reflexivity.
  - intros gid Hgid. exact (False_ind _ (not_elem_of_empty _ Hgid)).
Qed.

Lemma wx_base1_stored : stored_base fx_key fx_manifest fx_objects 1 fx_base1.
Proof.
  split; [repeat constructor|]. intros _. exists "p/d/1_v6"%string, (from_ok [] (encode_page_group (Some <$> fx_base1) 512 (zeros 12) (aad_page_group 1) fx_key)), (λ _, zeros 12).
  split; [reflexivity|]. split; [vm_compute; reflexivity|]. split; [done|].
  assert (group_frames fx_manifest 1 = None) as -> by (vm_compute; reflexivity).
  vm_compute. reflexivity.
Qed.

Lemma wx_whole : stored_whole fx_key fx_manifest fx_objects.
Proof.
  split.
  - intros gid Hgid. destruct (decide (gid = 0)) as [->|H0]; [exists fx_base0; split; [exact fx_base0_stored|reflexivity]|].
    destruct (decide (gid = 1)) as [->|H1]; [exists fx_base1; split; [exact wx_base1_stored|reflexivity]|].
    exists []. split; [split; [constructor|done]|]. symmetry. apply length_zero_iff_nil.
    change (group_page_nums fx_manifest gid) with (default [] (at_index [[0; 2; 1; 3]; [4; 5]] gid)).
    unfold at_index. destruct (gid <? 0); [done|]. by destruct (Z.to_nat gid) as [|[|k]] eqn:Hk; [lia|lia|].
  - intros gid f. apply fx_no_override.
Qed.

(* ------------------------------------------------------------------ *)
(** * Witnesses *)

Definition wx_ts : list (list (Z * bytes)) := [[(0, fx_page 0 2); (4, fx_page 4 2)]; [(0, fx_page 0 3)]].

Lemma wx_writable p d : p ∈ [0; 4] → length d = 512%nat → writable fx_manifest (p, d).
Proof.
  intros Hp Hd. rewrite !elem_of_cons, elem_of_nil in Hp. split; [|split; [cbn; destruct Hp as [->|[->|[]]]; lia|cbn; by rewrite Hd]].
  destruct Hp as [->|[->|[]]]; vm_compute; by eexists.
Qed.

Lemma wx_ts_writable : Forall (λ ws, ws ≠ [] ∧ Forall (writable fx_manifest) ws) wx_ts.
Proof.
  repeat constructor; try done; apply wx_writable; try reflexivity; set_solver.
Qed.

Definition wx_end : Conn () MemStore := (wx_transactions wx_ts wx_conn).2.

Lemma wx_flush_ok : (wx_flush (shared wx_end)).1 = Ok ().
Proof. vm_compute. reflexivity. Qed.

Lemma wx_after : after (concat wx_ts) wx_pages 0 = fx_page 0 3 ∧ after (concat wx_ts) wx_pages 4 = fx_page 4 2 ∧
  after (concat wx_ts) wx_pages 2 = fx_page 2 1.
Proof. vm_compute. done. Qed.

Lemma wx_place : Forall (λ p, 0 ≤ p ∧ is_Some (page_location fx_manifest p)) [0; 4; 2].
Proof. repeat constructor; vm_compute; try done; by eexists. Qed.

Lemma transactions_reach_storage_witness :
  ∃ w', wx_transactions wx_ts wx_conn = (Ok (), wx_end) ∧ wx_flush (shared wx_end) = (Ok (), w') ∧
    cold_page fx_key (v_manifest w') (objects (v_backend w')) 0 = Some (fx_page 0 3) ∧
    cold_page fx_key (v_manifest w') (objects (v_backend w')) 4 = Some (fx_page 4 2) ∧
    cold_page fx_key (v_manifest w') (objects (v_backend w')) 2 = Some (fx_page 2 1).
Proof.
  destruct (transactions_reach_storage demo_nonce fx_rnd wx_to_vec wx_from_slice wx_log_manifest version_encode version_decode
    fx_key fx_manifest fx_objects True 0 wx_fails wx_durable fx_no_fails false true 2 8 wx_pages
    (after (concat wx_ts) wx_pages) 3 wx_ts wx_conn fx_geometry hx_small fx_keys_ok ltac:(vm_compute; reflexivity) eq_refl
    ltac:(by eexists) wx_whole (fx_uncompacted _) (wx_writing 3 ltac:(lia)) wx_ts_writable ltac:(cbn; lia) eq_refl) as (s' & Hrun & Hflush).
  pose proof (eq_sym (f_equal snd Hrun) : s' = wx_end) as Hs. cbn zeta in Hflush.
  destruct wx_after as (H0 & H4 & H2).
  destruct (proj1 (Forall_cons _ _ _) wx_place) as [P0 [P4 [P2 _]%Forall_cons]%Forall_cons]. pose proof wx_flush_ok as Hok. rewrite <-Hs in Hok |- *. unfold wx_flush in Hok |- *.
  destruct (run_flush _ _ _ _ _ _ _ _ _ _ _ (shared s')) as [r w']. cbn in Hok. subst r.
  destruct Hflush as (_ & _ & Hpages). specialize (Hpages eq_refl). exists w'. split; [exact Hrun|]. split; [reflexivity|].
  split; [|split].
  - exact (eq_trans (proj2 (Hpages 0 (proj1 P0) (proj2 P0))) (f_equal Some H0)).
  - exact (eq_trans (proj2 (Hpages 4 (proj1 P4) (proj2 P4))) (f_equal Some H4)).
  - exact (eq_trans (proj2 (Hpages 2 (proj1 P2) (proj2 P2))) (f_equal Some H2)).
Defined.

Lemma read_your_writes_witness :
  ∃ s' s'', write_all_at demo_nonce 0 no_log_fails (fx_page 4 2) (4 * 512) wx_conn = (Ok (), s') ∧ hx_read 4 s' = (Ok (fx_page 4 2), s'').
Proof.
  destruct (read_your_writes demo_nonce fx_key fx_manifest fx_objects wx_log_manifest 3 True 0 0 [] ∅ wx_pages 3 4 (fx_page 4 2) None hx_idle
    (zeros 512) wx_conn fx_geometry (wx_writing 3 ltac:(lia)) (wx_writable 4 (fx_page 4 2) ltac:(set_solver) eq_refl)
    ltac:(lia) eq_refl) as (s' & s'' & Hw & Hr).
  rewrite hx_page_size in Hw, Hr. exists s', s''. split; [exact Hw|exact Hr].
Defined.

(* ------------------------------------------------------------------ *)
(** * What goes wrong *)

Definition wx_read (p : Z) (s : Conn () MemStore) : io bytes := (hx_read p s).1.

(** The database of FlushExamples is grouped by B-tree.  A page beyond its end is
    written and synced; the sync gives it a group and leaves the page count: the
    file is reported with the page, a read of it gives zeros, and so does the
    stored group after the flush, which succeeds and frees the log. *)
Definition wx_grown : Conn () MemStore :=
  snd ((_ ← write_all_at demo_nonce 0 no_log_fails (fx_page 6 2) (6 * 512); wx_sync no_log_fails) wx_conn).

Example synced_growth_is_lost :
  let s := wx_grown in
  let '(r, w') := wx_flush (shared s) in
  file_size s = 7 * 512 ∧ page_location (v_manifest (shared s)) 6 = Some {| group_id := 1; index := 2 |} ∧
  wx_read 6 s = Ok (zeros 512) ∧
  r = Ok () ∧ v_pending w' = [] ∧ page_count (v_manifest w') = 6 ∧
  cold_page fx_key (v_manifest w') (objects (v_backend w')) 6 = Some (zeros 512).
Proof. vm_compute. done. Qed.

(** Cutting the database to two pages takes page 2 out of the list of group 0,
    [0; 2; 1; 3], which moves page 1 to the position where the stored group has
    page 2. *)
Example truncation_shifts_pages :
  let s := snd (set_len (2 * 512) wx_conn) in
  wx_read 1 wx_conn = Ok (fx_page 1 1) ∧ wx_read 1 s = Ok (fx_page 2 1).
Proof. vm_compute. done. Qed.

(** A database of positional groups, of one page.  A transaction writes page 2
    and not page 1, as SQLite does for a free page and for the page of the lock
    bytes: the sync succeeds, reading page 1 is an error and the flush is refused. *)
Definition wx_gap : Conn () MemStore :=
  let s := wx_conn <| shared ::= λ w, w <| v_manifest := fx_manifest <| strategy := Positional |> <| Manifest.group_pages := [] |>
    <| page_group_keys := [] |> <| frame_tables := [] |> <| page_count := 0 |> |> |>
    <| conn ::= λ h, h <| pending_page_count := 0 |> |> in
  snd ((_ ← write_all_at demo_nonce 0 no_log_fails (fx_page 0 2) 0;
        _ ← write_all_at demo_nonce 0 no_log_fails (fx_page 2 2) (2 * 512); wx_sync no_log_fails) s).

Example gap_blocks_flush :
  page_count (v_manifest (shared wx_gap)) = 3 ∧ wx_read 1 wx_gap = Err NotFound ∧
  (wx_flush (shared wx_gap)).1 = Err InvalidData.
Proof. vm_compute. done. Qed.
