(* ===== verification/Open.v ===== *)
(** Opening a database (src/src/tiered/vfs.rs): the manifest to start from, the
    disk cache over the files of an earlier run, and the recovery of the staging
    logs a crash has left behind. *)

From stdpp Require Import strings.
From S2P Require Import Prelude Keys Wire CacheTracking LocalState Compress Encoding File DiskCache.
From S2P Require Import Staging Manifest Backend ColdRead Vfs Compact Flush.

(** What a process leaves in the cache directory: the cache file, the state
    file and the staging directory. *)
Record CacheDir := {
  dir_cache_file : bytes;
  dir_state_file : option bytes;
  dir_logs : gmap string bytes
}.

(** After a crash of the process. *)
Definition left_behind {K B} (w : Vfs K B) : CacheDir := {|
  dir_cache_file := cache_file (v_cache w);
  dir_state_file := state_file (v_cache w);
  dir_logs := v_logs w
|}.

Section open.
Context `{HashIter} `{Compression} `{Aead K} `{StorageBackend B}.
Variable nonce : Z → bytes.
Variable from_slice : bytes → option LocalState.
Variable decode_manifest : bytes → option Manifest.
Variable now : Z.

(* ------------------------------------------------------------------ *)
(** * Recovery of the staging logs *)

(** The newest log whose trailer has a newer manifest. *)
Definition newest_trailer (logs : gmap string bytes) (m : Manifest) (newest_first : list PendingFlush) :
    option Manifest :=
  head (omap (λ f,
    file ← logs !! staging_path f;
    match read_staging_manifest file with
    | Ok (Some data) =>
      match decode_manifest_bytes decode_manifest data with
      | Ok m' => if version m <? version m' then Some m' else None
      | _ => None
      end
    | _ => None
    end) newest_first).

(** Whether a manifest was adopted. *)
Definition adopt_trailer (pending : list PendingFlush) : Prog K B bool :=
  m ← reads v_manifest;
  logs ← reads v_logs;
  match newest_trailer logs m (reverse pending) with
  | None => mret false
  | Some m =>
    let m := detect_and_normalize_strategy m in
    _ ← update_vfs (λ w, w <| v_manifest := m |>);
    _ ← on_cache (ensure_group_capacity (total_groups m));
    _ ← (if bool_decide (Manifest.group_pages m = []) then mret ()
         else on_cache (set_group_pages (Manifest.group_pages m)));
    mret true
  end.

(** The sizes of a log, in a manifest that has none. *)
Definition with_log_sizes (ps ppg : Z) (m : Manifest) : Manifest :=
  let m := if Manifest.page_size m =? 0 then m <| Manifest.page_size := ps |> else m in
  if Manifest.pages_per_group m =? 0 then m <| Manifest.pages_per_group := ppg |> else m.

Definition grow_page_count (committed page_num : Z) (m : Manifest) : Manifest :=
  let new_count := Z.min (wrap64 (page_num + 1)) committed in
  if page_count m <? new_count then m <| page_count := new_count |> else m.

(** A page of a log goes into the cache; a failure is ignored. *)
Definition replay_page (committed : Z) (page : Z * bytes) : Prog K B () :=
  _ ← attempt (on_cache (write_page nonce now page.1 page.2));
  update_vfs (λ w, w <| v_manifest ::= grow_page_count committed page.1 |>).

(** Logs of another page size are skipped, unreadable ones ignored. *)
Definition replay_log (committed ppg : Z) (f : PendingFlush) : Prog K B () :=
  m ← reads v_manifest;
  let ps := pf_page_size f in
  if (0 <? ps) && negb (Manifest.page_size m =? 0) && negb (ps =? Manifest.page_size m) then mret () else
  _ ← (if 0 <? ps then
         current ← reads (λ w, DiskCache.page_size (v_cache w));
         _ ← (if current =? ps then mret () else on_cache (set_page_size ps));
         update_vfs (λ w, w <| v_manifest ::= with_log_sizes ps ppg |>)
       else mret ());
  logs ← reads v_logs;
  match default (Err NotFound) (read_staging_log <$> logs !! staging_path f) with
  | Ok pages => fold_prog (λ _ : (), replay_page committed) () (hiter pages)
  | Err _ => mret ()
  | Panic => pure Panic
  end.

Definition recover_logs (is_local : bool) (ppg : Z) (pending : list PendingFlush) : Prog K B () :=
  if bool_decide (pending = []) then mret () else
  adopted ← adopt_trailer pending;
  m ← reads v_manifest;
  let committed := if (adopted : bool) then page_count m else 2 ^ 64 - 1 in
  _ ← fold_prog (λ _ : (), replay_log committed ppg) () pending;
  m ← reads v_manifest;
  _ ← on_cache (clear_pages_at_or_above (page_count m));
  if is_local then remove_logs pending else mret ().

(* ------------------------------------------------------------------ *)
(** * Opening *)

(** The warm state, else what is published, else an empty database. *)
Definition first_manifest (local : option Manifest) (b : B) : io Manifest * B :=
  match local with
  | Some m => (Ok m, b)
  | None =>
    let '(fetched, b) := get_manifest decode_manifest b in
    (m ← fetched; Ok (default empty_manifest m), b)
  end.

(** [assemble]: the shared state and the number of the next staging log.
    [grow] is the outcome of extending the cache file, [calls] those of the
    later system calls on it. *)
Definition assemble (config : CacheConfig K) (is_local : bool) (dir : CacheDir)
    (tracker_file : gset SubChunkId * gmap SubChunkId SubChunkTier * gmap SubChunkId Z)
    (grow : option io_kind) (calls : list (option Fault)) (b : B) : io (Vfs K B * Z) :=
  local ← load_manifest_local from_slice None (dir_state_file dir);
  dirty ← load_dirty_groups from_slice None (dir_state_file dir);
  let '(found, b) := first_manifest local b in
  found ← found;
  let m := detect_and_normalize_strategy found in
  let ps := if 0 <? Manifest.page_size m then Manifest.page_size m else 4096 in
  let ppg := if 0 <? Manifest.pages_per_group m then Manifest.pages_per_group m
             else DiskCache.pages_per_group config in
  cache ← new_with_compression_at from_slice
    {| ttl_secs := ttl_secs config; DiskCache.pages_per_group := ppg;
       DiskCache.sub_pages_per_frame := DiskCache.sub_pages_per_frame config;
       encryption_key := encryption_key config; cache_compression := cache_compression config;
       mem_cache_budget := mem_cache_budget config |}
    now ps (page_count m) (Manifest.group_pages m) (dir_cache_file dir) (dir_state_file dir) tracker_file grow;
  let entries := hiter (dir_logs dir) in
  let pending := recover_staging_logs entries ps in
  let start := {|
    v_cache := cache <| faults := calls |>; v_backend := b; v_manifest := m;
    v_dirty_groups := list_to_set dirty; v_pending := if is_local then [] else pending;
    v_logs := foldl (λ logs name, delete name logs) (dir_logs dir) (empty_logs entries) |} in
  match (_ ← on_cache (ensure_group_capacity (total_groups m)); recover_logs is_local ppg pending : Prog K B ()) start with
  | (Ok _, w) => Ok (w, wrap64 (foldr Z.max 0 (pf_version <$> pending) + 1))
  | (Err e, _) => Err e
  | (Panic, _) => Panic
  end.
End open.
