(* ===== verification/OpenSafety.v ===== *)
(** Reopening a database after a crash: the recovery of the staging logs puts
    every committed page back, so that no transaction is lost. *)

From stdpp Require Import strings.
From S2P Require Import Prelude Keys Wire Manifest Compress Encoding Backend ColdRead FlushManifest.
From S2P Require Import CacheTracking LocalState File DiskCache CacheView CacheWrite CacheSafety CacheSteps CacheReopen.
From S2P Require Import Staging Settings Vfs Flush FlushPages FlushRun FlushSafety Keeps Programs Handle HandleRead HandleSafety HandleWrite WriteSafety Open.

(* ------------------------------------------------------------------ *)
(** * The staging directory *)

Lemma sort_by_key_sorted {V} (l : list (Z * V)) : StronglySorted (λ a b, a.1 < b.1) l → sort_by_key l = l.
Proof.
  intros Hl. assert (NoDup l.*1 ∧ StronglySorted key_le l) as [Hnd Hle].
  { induction Hl as [|x l Hl [IH1 IH2] Hx]; [split; constructor|]. rewrite Forall_forall in Hx. split.
    - cbn. apply NoDup_cons. split; [|done]. intros (y & Heq & Hy)%list_elem_of_fmap. specialize (Hx y Hy). lia.
    - constructor; [done|]. apply Forall_forall. intros y Hy. specialize (Hx y Hy). unfold key_le. lia. }
  unfold sort_by_key. apply (StronglySorted_unique_strong key_le); [|apply (StronglySorted_merge_sort _)|done|apply merge_sort_Permutation].
  intros [k1 v1] [k2 v2]. rewrite merge_sort_Permutation. unfold key_le. cbn. intros H1 H2 Hle1 Hle2.
  assert (k1 = k2) as -> by lia. f_equal. by eapply NoDup_fst_inj.
Qed.

(** Sealed logs with increasing numbers, and nothing else. *)
Record shelf_ok (ps : Z) (fs : list PendingFlush) (logs : gmap string bytes) : Prop := {
  so_log : ∀ f, f ∈ fs → staging_path f = log_path (pf_version f) ∧ is_u64 (pf_version f) ∧ pf_page_size f = ps ∧
    ∃ recs data, logs !! staging_path f = Some (sealed_log ps recs data) ∧ Forall (record_ok ps) recs;
  so_order : StronglySorted (λ f g, pf_version f < pf_version g) fs;
  so_dir : ∀ path, is_Some (logs !! path) → ∃ f, f ∈ fs ∧ staging_path f = path
}.

Lemma sealed_entry fallback ps recs data v :
  is_valid_page_size ps = true → is_u64 v →
  recover_entry fallback (log_path v, sealed_log ps recs data) =
  Some {| staging_path := log_path v; pf_version := v; pf_page_size := ps |}.
Proof.
  intros Hps Hv. unfold sealed_log, finalize, append_manifest. cbn [fst sw_bytes]. rewrite write_log_bytes, <-app_assoc.
  by apply recover_entry_log.
Qed.

(** The scan finds them, oldest first. *)
Lemma recover_shelf `{HashIter} fallback ps fs logs :
  is_valid_page_size ps = true → shelf_ok ps fs logs →
  recover_staging_logs (hiter logs) fallback = fs ∧ empty_logs (hiter logs) = [].
Proof.
  intros Hps [Hlog Hord Hdir]. set (entry f := (staging_path f, default [] (logs !! staging_path f))).
  assert (∀ f g, f ∈ fs → g ∈ fs → staging_path f = staging_path g → pf_version f = pf_version g) as Hinj.
  { intros f g Hf Hg. destruct (Hlog f Hf) as (-> & [? ?] & _), (Hlog g Hg) as (-> & [? ?] & _). by apply log_path_inj. }
  assert (hiter logs ≡ₚ entry <$> fs) as Hperm.
  { apply NoDup_Permutation.
    - apply (NoDup_fmap_1 fst), NoDup_hiter.
    - clear Hdir. induction Hord as [|f fs Hord IH Hf]; [constructor|]. cbn. constructor.
      + intros (g & Heq & Hg)%list_elem_of_fmap. rewrite Forall_forall in Hf. specialize (Hf g Hg).
        injection Heq as Heq _. apply Hinj in Heq; [lia|by left|by right].
      + apply IH; [intros g Hg; apply Hlog; by right|]. intros g h Hg Hh. apply Hinj; by right.
    - intros [path file]. rewrite elem_of_hiter, list_elem_of_fmap. split.
      + intros Hf. destruct (Hdir path) as (f & Hin & <-); [by eexists|]. exists f. unfold entry. by rewrite Hf.
      + intros (f & [= -> ->] & Hf). destruct (Hlog f Hf) as (_ & _ & _ & recs & data & -> & _). done. }
  assert (omap (recover_entry fallback) (entry <$> fs) = fs) as Hentries.
  { clear Hperm Hdir Hord Hinj. induction fs as [|f fs IH]; [done|]. cbn.
    destruct (Hlog f) as (Hpath & Hv & Hf & recs & data & Hfile & _); [by left|].
    replace (entry f) with (log_path (pf_version f), sealed_log ps recs data) by (unfold entry; by rewrite Hfile, Hpath).
    rewrite sealed_entry by done.
    rewrite IH by (intros g Hg; apply Hlog; by right). f_equal. destruct f. cbn in *. by subst. }
  split.
  - unfold recover_staging_logs. set (l1 := _ <$> omap _ _). set (l2 := (λ p, (pf_version p, p)) <$> fs).
    assert (StronglySorted (λ a b : Z * PendingFlush, a.1 < b.1) l2) as Hl2.
    { unfold l2. clear -Hord. induction Hord as [|f fs Hord IH Hf]; cbn; constructor; [done|]. by apply Forall_fmap. }
    assert (l1 ≡ₚ l2) as Hl12 by (unfold l1, l2; by rewrite Hperm, Hentries).
    assert (NoDup l1.*1) as Hnd.
    { rewrite Hl12. clear -Hl2. induction Hl2 as [|x l Hl IH Hx]; [constructor|]. cbn. constructor; [|done].
      rewrite Forall_forall in Hx. intros (y & Heq & Hy)%list_elem_of_fmap. specialize (Hx y Hy). lia. }
    rewrite (sort_by_key_unique l1 l2 Hnd Hl12), sort_by_key_sorted by done.
    unfold l2. rewrite <-list_fmap_compose. apply list_fmap_id.
  - apply elem_of_nil_inv. intros name ([path file] & Hin & Hname)%list_elem_of_omap.
    rewrite Hperm in Hin. apply list_elem_of_fmap in Hin as (f & [= -> ->] & Hf).
    destruct (Hlog f Hf) as (Hpath & Hv & _ & recs & data & Hfile & _). rewrite Hfile, Hpath in Hname. cbn [fst snd default id from_option] in Hname.
    destruct (stem_and_extension _) as [stem ext].
    replace (length (sealed_log ps recs data) =? 0)%nat with false in Hname; [by rewrite andb_false_r in Hname|].
    symmetry. apply Nat.eqb_neq. unfold sealed_log, finalize, append_manifest. cbn [fst sw_bytes].
    rewrite write_log_bytes, !length_app, length_le_bytes. lia.
Qed.

Section open_safety.
Context `{HashIter} `{Compression} `{Aead K} `{StorageLaws B} (nonce : Z → bytes) `{!CacheLaws nonce}.
Variable from_slice : bytes → option LocalState.
Variable decode_manifest : bytes → option Manifest.
Variable now : Z.
Variable key : option K.
Variable m : Manifest.
Variable live : Prop.
Context (Hg : geometry m).
Variable o : gmap string bytes.
(** The pages of the logs, the newest of each, and the database they are of. *)
Variable staged : gmap Z bytes.
Variable D : Z → bytes.
Implicit Types (w : Vfs K B) (M : gmap Z bytes).
Abbreviation ps := (Manifest.page_size m).
Abbreviation cached := (cached key m live o).
Context (Hstaged : map_Forall (λ p d, d = D p ∧ 0 ≤ p ∧ is_Some (page_location m p)) staged).
Context (Hcount : page_count m ≤ 2 ^ 46).

(** Pages over the database. *)
Definition over M (D : Z → bytes) : Z → bytes := λ p, default (D p) (M !! p).

Lemma cached_ext (D1 D2 : Z → bytes) unstored n w :
  (∀ p, D1 p = D2 p) → cached D1 unstored n w → cached D2 unstored n w.
Proof.
  intros Heq ([] & Hrest). split; [|done]. split; try done; intros p; intros; rewrite <-Heq; eauto.
Qed.

Lemma put_over p d M q : put_page p d (over M D) q = over (<[p:=d]> M) D q.
Proof.
  unfold put_page, over. destruct (decide (q = p)) as [->|Hne]; [by rewrite lookup_insert_eq|by rewrite lookup_insert_ne].
Qed.

Lemma staged_page p : p ∈ dom staged → page_num_ok p ∧ p < page_count m.
Proof.
  intros [d Hd]%elem_of_dom. destruct (Hstaged p d Hd) as (_ & Hp & [loc Hloc]).
  destruct (location_listed m p loc Hg Hp Hloc) as [Hgid (i & _ & Hin)].
  assert (0 ≤ p < page_count m) as Hlt by (apply (ge_pages _ Hg (group_id loc) p Hgid); by eapply list_elem_of_lookup_2).
  unfold page_num_ok. split; lia.
Qed.

(** Some pages of the logs have been put back into the cache. *)
Definition recovering (w0 : Vfs K B) M n w : Prop :=
  cached (over M D) (dom staged) n w ∧ held M w ∧ log_part w = log_part w0.

(** A page within the database does not grow it. *)
Lemma grow_within committed p : 0 ≤ p < page_count m → grow_page_count committed p m = m.
Proof.
  intros Hp. unfold grow_page_count. rewrite (wrap64_id (p + 1)) by (unfold is_u64; lia).
  destruct (Z.ltb_spec (page_count m) (Z.min (p + 1) committed)); [lia|done].
Qed.

Lemma triple_replay_page w0 committed M n p d (E : Vfs K B → Prop) :
  p ∈ dom staged → Z.of_nat (length d) = ps → 1 ≤ n →
  triple (recovering w0 M n) (replay_page nonce now committed (p, d))
    (λ _, recovering w0 (<[p:=d]> M) (n - 1)) E.
Proof.
  intros Hp Hd Hn. destruct (staged_page p Hp) as [Hok Hlt]. unfold replay_page. cbn [fst snd].
  intros w (Hc & Hh' & Hlog).
  pose proof (triple_write_page nonce key m live now Hg o (over M D) (dom staged) M p d n (λ _, False) Hok Hd Hn w (conj Hc Hh')) as Hw.
  pose proof (log_kept_cache (write_page nonce now p d) w) as Hk.
  unfold attempt, update_vfs, mbind, Prog_bind. destruct (on_cache (write_page nonce now p d) w) as [[[]|e|] w']; [|done..].
  cbn in Hk. destruct Hw as [Hc' Hh'']. split; [|split; [|by rewrite <-Hlog, <-Hk]].
  - replace (dom staged) with ({[ p ]} ∪ dom staged) by set_solver. eapply cached_ext; [apply put_over|].
    destruct Hc' as (Hco & Hr & Hz). split; [|done]. pose proof (co_manifest _ _ _ _ _ _ Hco) as Hm. destruct Hco.
    split; cbn; try done. rewrite Hm. apply grow_within. unfold page_num_ok in Hok. lia.
  - done.
Qed.
Lemma triple_replay_pages w0 committed M n (l : list (Z * bytes)) (E : Vfs K B → Prop) :
  (∀ r, r ∈ l → r.1 ∈ dom staged ∧ Z.of_nat (length r.2) = ps) → Z.of_nat (length l) ≤ n →
  triple (recovering w0 M n) (fold_prog (λ _ : (), replay_page nonce now committed) () l)
    (λ _, recovering w0 (pages_of l M) (n - Z.of_nat (length l))) E.
Proof.
  revert M n. induction l as [|[p d] l IH]; intros M n Hl Hn; cbn [fold_prog length] in *.
  - apply triple_ret. intros w Hw. by replace (n - Z.of_nat 0) with n by lia.
  - destruct (Hl (p, d)) as [Hp Hd]; [by left|].
    apply (triple_bind _ _ _ (λ _, recovering w0 (<[p:=d]> M) (n - 1))); [apply triple_replay_page; [done|done|lia]|]. intros [].
    replace (n - Z.of_nat (S (length l))) with (n - 1 - Z.of_nat (length l)) by lia.
    apply (IH (<[p:=d]> M)); [intros r Hr; apply Hl; by right|lia].
Qed.

Lemma pages_of_hiter (pages : gmap Z bytes) M : pages_of (hiter pages) M = pages ∪ M.
Proof.
  rewrite pages_of_union. f_equal.
  assert (∀ l, pages_of l ∅ = list_to_map (reverse l)) as Hrev.
  { intros l. unfold pages_of. induction l as [|r l IH] using rev_ind; [done|].
    rewrite foldl_app, reverse_snoc. cbn. rewrite IH. by destruct r. }
  rewrite Hrev. etrans; [|apply list_to_map_hiter]. apply list_to_map_proper; [|apply reverse_Permutation].
  rewrite reverse_Permutation. apply NoDup_hiter.
Qed.

(** One log: its file reads as [pages], full pages of the database. *)
Definition log_reads (logs : gmap string bytes) f (pages : gmap Z bytes) : Prop :=
  read_staging_log <$> logs !! staging_path f = Some (Ok pages) ∧
  map_Forall (λ p d, p ∈ dom staged ∧ Z.of_nat (length d) = ps) pages.

Lemma triple_replay_log w0 committed ppg M n f pages (E : Vfs K B → Prop) :
  pf_page_size f = ps → log_reads (v_logs w0) f pages → Z.of_nat (size pages) ≤ n →
  triple (recovering w0 M n) (replay_log nonce now committed ppg f)
    (λ _, recovering w0 (pages ∪ M) (n - Z.of_nat (size pages))) E.
Proof.
  intros Hf [Hread Hpages] Hn. pose proof (ge_ps _ Hg) as Hpos. unfold replay_log. rewrite Hf.
  set (P := recovering w0 M n). apply triple_reads_bind. intros m'.
  apply (triple_pre _ (m' = m)); [by intros w [(Hc & _) <-]; apply Hc|]. intros ->.
  rewrite (proj2 (Z.ltb_lt 0 ps)) by lia. rewrite (proj2 (Z.eqb_neq ps 0)) by lia. rewrite Z.eqb_refl. cbn [negb andb].
  apply (triple_bind _ _ _ (λ _, P)).
  - apply triple_reads_bind. intros current.
    apply (triple_pre _ (current = ps)); [by intros w [[[(Hc & _) _] _] <-]; apply Hc|]. intros ->. rewrite Z.eqb_refl.
    apply (triple_bind _ _ _ (λ _, P)); [by apply triple_ret; intros w [[? _] _]|]. intros _.
    intros w ((Hco & Hr & Hz) & Hrest). unfold update_vfs. split; [|done]. split; [|done].
    destruct Hco. split; cbn; try done. rewrite co_manifest. unfold with_log_sizes.
    rewrite (proj2 (Z.eqb_neq ps 0)) by lia. destruct Hz as ([Hppg _] & _).
    by rewrite (proj2 (Z.eqb_neq (Manifest.pages_per_group m) 0)) by lia.
  - intros _. apply triple_reads_bind. intros logs.
    apply (triple_pre _ (logs = v_logs w0)); [by intros w [(_ & _ & [= _ Hl _]) <-]|]. intros ->.
    rewrite Hread. cbn [default]. rewrite <-(pages_of_hiter pages M), <-(length_hiter pages).
    eapply triple_conseq; [apply (triple_replay_pages w0 committed M n)|by intros w [? _]|done|done].
    + intros [p d] Hin%elem_of_hiter. by apply (Hpages p d).
    + by rewrite length_hiter.
Qed.
Lemma shelf_load_nonneg fs logs : 0 ≤ shelf_load fs logs.
Proof. unfold shelf_load. induction fs; cbn; lia. Qed.

(** All logs, oldest first. *)
Definition logs_from M (fs : list PendingFlush) (logs : gmap string bytes) : io (gmap Z bytes) :=
  fold_io (λ staged f, data ← ok_or (logs !! staging_path f) NotFound;
                       pages ← read_staging_log data;
                       Ok (pages ∪ staged)) M fs.

Lemma triple_replay_logs w0 committed ppg M n fs M' (E : Vfs K B → Prop) :
  logs_from M fs (v_logs w0) = Ok M' →
  (∀ f, f ∈ fs → pf_page_size f = ps ∧ log_reads (v_logs w0) f (log_pages (v_logs w0) f)) →
  shelf_load fs (v_logs w0) ≤ n →
  triple (recovering w0 M n) (fold_prog (λ _ : (), replay_log nonce now committed ppg) () fs)
    (λ _, recovering w0 M' (n - shelf_load fs (v_logs w0))) E.
Proof.
  revert M n. induction fs as [|f fs IH]; intros M n HM Hfs Hn.
  - injection HM as <-. apply triple_ret. intros w Hw. change (shelf_load [] (v_logs w0)) with 0. by rewrite Z.sub_0_r.
  - destruct (Hfs f) as [Hf Hr]; [by left|]. pose proof Hr as [Hread _].
    set (pages := log_pages (v_logs w0) f) in *.
    assert (shelf_load (f :: fs) (v_logs w0) = Z.of_nat (size pages) + shelf_load fs (v_logs w0)) as Hload by done.
    pose proof (shelf_load_nonneg fs (v_logs w0)) as Hpos.
    unfold logs_from in HM. cbn [fold_io] in HM. destruct (v_logs w0 !! staging_path f) as [data|]; [|done].
    injection Hread as Hread. cbn [ok_or mbind outcome_bind] in HM. rewrite Hread in HM. cbn [mbind outcome_bind] in HM.
    rewrite Hload in Hn |- *. cbn [fold_prog].
    apply (triple_bind _ _ _ (λ _, recovering w0 (pages ∪ M) (n - Z.of_nat (size pages)))).
    { apply triple_replay_log; [done|done|lia]. }
    intros []. replace (n - (Z.of_nat (size pages) + shelf_load fs (v_logs w0)))
      with (n - Z.of_nat (size pages) - shelf_load fs (v_logs w0)) by lia.
    apply IH; [done|intros g Hin; apply Hfs; by right|lia].
Qed.

Lemma logs_from_dom M fs logs M' f :
  logs_from M fs logs = Ok M' → dom M ⊆ dom M' ∧ (f ∈ fs →
    read_staging_log <$> logs !! staging_path f = Some (Ok (log_pages logs f)) ∧ dom (log_pages logs f) ⊆ dom M').
Proof.
  revert M. induction fs as [|g fs IH]; intros M HM.
  - injection HM as <-. split; [done|]. by intros ?%not_elem_of_nil.
  - unfold logs_from in HM. cbn [fold_io] in HM. destruct (logs !! staging_path g) as [data|] eqn:Hg'; [|done].
    cbn [ok_or mbind outcome_bind] in HM. destruct (read_staging_log data) as [pages|e|] eqn:Hr; [|done|done].
    cbn [mbind outcome_bind] in HM. destruct (IH (pages ∪ M) HM) as [Hdom Hin]. rewrite dom_union_L in Hdom.
    split; [set_solver|]. intros [->|Hf]%elem_of_cons; [|by apply Hin]. unfold log_pages. rewrite Hg'. cbn. rewrite Hr.
    split; [done|set_solver].
Qed.
Lemma clear_above_framed n c0 : keeps (framed c0) (clear_pages_at_or_above n : M K ()).
Proof. apply kept_modify. intros c. cbn. by destruct (0 <? _). Qed.

(** Clearing the pages behind the end of the database. *)
Lemma triple_clear w0 n (E : Vfs K B → Prop) :
  triple (recovering w0 staged n) (on_cache (clear_pages_at_or_above (page_count m))) (λ _, recovering w0 staged n) E.
Proof.
  apply triple_cache. intros w ((Hco & Hr & Hz) & Hh & Hlog).
  destruct (clear_above_run (page_count m) (v_cache w)) as (c' & Hrun & Hok & Hst); [apply Hco| |].
  { by apply wf_page_count, Hg. }
  exists (), c'. split; [done|].
  pose proof (clear_above_framed (page_count m) (v_cache w) (v_cache w) (coherent_framed key m _ _ live w Hco)) as Hf.
  rewrite Hrun in Hf. cbn in Hf.
  assert (cache_index c' = cache_index (v_cache w)) as Hindex.
  { injection Hrun as <-. cbn. by destruct (0 <? _). }
  split; [split; [|split]|split; [|done]].
  - apply coherent_cache; [done..|]. intros p d Hp. rewrite Hst by done. case_decide; [done|]. by apply (co_sound _ _ _ _ _ _ Hco).
  - unfold room. cbn. by rewrite (fm_cfg _ _ Hf), Hindex.
  - unfold sized. cbn. by rewrite (fm_cfg _ _ Hf).
  - intros p d Hd. destruct (Hh p d Hd) as [Hp Hs]. split; [done|]. cbn. rewrite Hst, decide_False; [done| |done].
    destruct (staged_page p) as [_ Hlt]; [by eapply elem_of_dom_2|]. lia.
Qed.

Definition trailers_old (fs : list PendingFlush) (logs : gmap string bytes) : Prop :=
  ∀ f file data m', f ∈ fs → logs !! staging_path f = Some file → read_staging_manifest file = Ok (Some data) →
    decode_manifest_bytes decode_manifest data = Ok m' → version m' ≤ version m.

Lemma no_newer_trailer fs logs : trailers_old fs logs → newest_trailer decode_manifest logs m fs = None.
Proof.
  intros Hold. unfold newest_trailer. apply head_None, elem_of_nil_inv. intros m' (f & Hf & Hm)%list_elem_of_omap.
  destruct (logs !! staging_path f) as [file|] eqn:Hfile; [cbn in Hm|done].
  destruct (read_staging_manifest file) as [[data|]| |] eqn:Hread; try done.
  destruct (decode_manifest_bytes _ data) as [m1| |] eqn:Hdec; try done.
  specialize (Hold f file data m1 Hf Hfile Hread Hdec). destruct (Z.ltb_spec (version m) (version m1)); [lia|done].
Qed.

(** The recovery puts every page of the logs back. *)
Lemma triple_recover w0 ppg n (E : Vfs K B → Prop) fs :
  logs_from ∅ fs (v_logs w0) = Ok staged →
  (∀ f, f ∈ fs → pf_page_size f = ps ∧ map_Forall (λ _ d, Z.of_nat (length d) = ps) (log_pages (v_logs w0) f)) →
  trailers_old fs (v_logs w0) → shelf_load fs (v_logs w0) ≤ n →
  triple (λ w, cached D (dom staged) n w ∧ log_part w = log_part w0)
    (recover_logs nonce decode_manifest now false ppg fs)
    (λ _ w, cached D (dom staged) (n - shelf_load fs (v_logs w0)) w ∧ held staged w ∧ log_part w = log_part w0) E.
Proof.
  intros HM Hfs Hold Hn. unfold recover_logs. case_bool_decide as Hnil.
  { subst fs. injection HM as <-. apply triple_ret. intros w [Hc Hl]. change (shelf_load [] (v_logs w0)) with 0.
    rewrite Z.sub_0_r. split; [done|]. split; [|done]. by intros p d ?%lookup_empty_Some. }
  set (P := λ w, cached D (dom staged) n w ∧ log_part w = log_part w0).
  assert (∀ f, f ∈ fs → pf_page_size f = ps ∧ log_reads (v_logs w0) f (log_pages (v_logs w0) f)) as Hreads.
  { intros f Hf. destruct (Hfs f Hf) as [Hps Hsz]. destruct (logs_from_dom ∅ fs (v_logs w0) staged f HM) as [_ Hin].
    destruct (Hin Hf) as [Hread Hdom]. split; [done|]. split; [done|]. intros p d Hd. split; [|by apply (Hsz p d)].
    apply Hdom. by eapply elem_of_dom_2. }
  apply (triple_bind _ _ _ (λ adopted w, P w ∧ adopted = false)).
  { unfold adopt_trailer. apply triple_reads_bind. intros m'.
    apply (triple_pre _ (m' = m)); [by intros w [[[Hc _] _] <-]; apply Hc|]. intros ->.
    apply triple_reads_bind. intros logs.
    apply (triple_pre _ (logs = v_logs w0)); [by intros w [[[_ [= _ Hl _]] _] <-]|]. intros ->.
    rewrite no_newer_trailer; [by apply triple_ret; intros w [[? _] _]|].
    intros f file data m'. rewrite elem_of_reverse. apply Hold. }
  intros adopted. apply triple_reads_bind. intros m'.
  apply (triple_bind _ _ _ (λ _, recovering w0 staged (n - shelf_load fs (v_logs w0)))).
  { eapply triple_conseq; [by eapply triple_replay_logs| |done|done].
    intros w [[[Hc Hl] _] _]. split; [|split; [|done]].
    - eapply cached_ext; [|exact Hc]. intros p. unfold over. by rewrite lookup_empty.
    - by intros p d ?%lookup_empty_Some. }
  intros []. apply triple_reads_bind. intros m''.
  apply (triple_pre _ (m'' = m)); [by intros w [(Hc & _) <-]; apply Hc|]. intros ->.
  apply (triple_bind _ _ _ (λ _, recovering w0 staged (n - shelf_load fs (v_logs w0)))).
  { eapply triple_conseq; [apply triple_clear|by intros w [? _]|done|done]. }
  intros []. apply triple_ret. intros w (Hc & Hh & Hl). split; [|done]. eapply cached_ext; [|exact Hc].
  intros p. unfold over. destruct (staged !! p) as [d|] eqn:Hd; [|done]. cbn. by destruct (Hstaged p d Hd).
Qed.
(* ------------------------------------------------------------------ *)
(** * Opening *)

(** A configuration that fits the files. *)
Record config_ok (config : CacheConfig K) (w : Vfs K B) (tracked : gset SubChunkId) : Prop := {
  cn_key : encryption_key config = encryption_key (cfg (v_cache w));
  cn_compression : cache_compression config = cache_compression (cfg (v_cache w));
  cn_spf : 0 ≤ DiskCache.sub_pages_per_frame config ≤ 2 ^ 13;
  cn_tracked : set_Forall id_ok tracked
}.

Lemma listed_groups_ok pages : pages ∈ Manifest.group_pages m → Forall page_num_ok pages.
Proof.
  intros [i Hi]%list_elem_of_lookup. apply Forall_forall. intros p Hp.
  assert (strategy m = BTreeAware) as Hs.
  { destruct (strategy m) eqn:Hs; [|done]. pose proof (ge_strategy _ Hg) as Hd. unfold detected_strategy in Hd. rewrite Hs in Hd.
    by destruct (Manifest.group_pages m). }
  assert (p ∈ group_page_nums m (Z.of_nat i)) as Hin.
  { unfold group_page_nums. by rewrite Hs, lookup_at_index, Hi. }
  pose proof (ge_pages _ Hg (Z.of_nat i) p ltac:(lia) Hin). unfold page_num_ok. lia.
Qed.

Lemma assemble_run config tf n w s b :
  detect_and_normalize_strategy (strip_indexes m) = m → is_valid_page_size ps = true →
  0 < Manifest.pages_per_group m ≤ 2 ^ 13 → 0 < Manifest.sub_pages_per_frame m →
  config_ok config w tf.1.1 → cached D (dom staged) n w → saved from_slice w s → cache_file (v_cache w) ≠ [] →
  shelf_ok ps (v_pending w) (v_logs w) → logs_from ∅ (v_pending w) (v_logs w) = Ok staged →
  (∀ f, f ∈ v_pending w → map_Forall (λ _ d, Z.of_nat (length d) = ps) (log_pages (v_logs w) f)) →
  trailers_old (v_pending w) (v_logs w) → shelf_load (v_pending w) (v_logs w) ≤ n →
  objects b = o → (live → reliable b) →
  ∃ w', assemble nonce from_slice decode_manifest now config false (left_behind w) tf None [] b =
      Ok (w', wrap64 (foldr Z.max 0 (pf_version <$> v_pending w) + 1)) ∧
    cached D (dom staged) (n - shelf_load (v_pending w) (v_logs w)) w' ∧ held staged w' ∧ log_part w' = log_part w.
Proof.
  intros Hnorm Hvalid Hppg Hspf [Ck Cc Cs Ct] (Hco & Hroom & _ & Ho) [Hsave Hsm (dirty & Hsd & Hdirty)] Hne Hshelf HM Hsz Hold Hn Hb Hlive.
  pose proof (ge_ps _ Hg) as Hpos. pose proof (co_manifest _ _ _ _ _ _ Hco) as Hm. pose proof (co_size _ _ _ _ _ _ Hco) as Hsize.
  rewrite Hm in Hsm. pose proof Hsave as (Hload & _).
  destruct (recover_shelf ps ps _ _ Hvalid Hshelf) as [Hrec Hempty].
  set (cf := {| ttl_secs := ttl_secs config; DiskCache.pages_per_group := Manifest.pages_per_group m;
       DiskCache.sub_pages_per_frame := DiskCache.sub_pages_per_frame config;
       encryption_key := encryption_key config; cache_compression := cache_compression config;
       mem_cache_budget := mem_cache_budget config |}).
  destruct (reopen_run from_slice cf (v_cache w) (state_file (v_cache w)) s now (page_count m) (Manifest.group_pages m) tf)
    as (c2 & Hnew & Hok2 & Hst2 & Hps2 & Hcomp2 & Hindex2 & Hids2 & Hacc2); [apply Hco|done|done|done|done| |].
  { split; cbn; try lia; [apply listed_groups_ok|]. pose proof (wf_page_count _ (ge_wf _ Hg)). lia. }
  unfold assemble, left_behind. cbn [dir_state_file dir_cache_file dir_logs].
  unfold load_manifest_local, load_dirty_groups. rewrite Hload. cbn [mbind outcome_bind option_bind]. rewrite Hsm, Hsd.
  cbn [first_manifest default]. cbn [mbind outcome_bind]. rewrite Hnorm.
  rewrite (proj2 (Z.ltb_lt 0 ps)), (proj2 (Z.ltb_lt 0 (Manifest.pages_per_group m))) by lia. fold cf.
  rewrite Hsize in Hnew. rewrite Hnew. cbn [mbind outcome_bind]. rewrite Hrec, Hempty. cbn [foldl].
  change (c2 <| faults := [] |>) with (quiet c2). rewrite quiet_id by apply Hok2. set (start := {| v_cache := c2; v_backend := b; v_manifest := m; v_dirty_groups := list_to_set (id dirty);
    v_pending := v_pending w; v_logs := v_logs w |}).
  assert (cached D (dom staged) n start ∧ log_part start = log_part w) as Hstart.
  { split; [|by unfold log_part; cbn; rewrite Hdirty]. split; [|split; [|split; [|done]]].
    - split; cbn; try done; [| |congruence| |].
      + unfold ids_ok. rewrite Hids2. cbn. destruct (encryption_key config); [done|]. apply Hco.
      + unfold access_ok. rewrite Hacc2. apply map_Forall_empty.
      + intros p d Hp. rewrite Hst2 by done. by apply (co_sound _ _ _ _ _ _ Hco).
      + rewrite Hb, <-Ho. apply Hco.
    - unfold room. cbn. rewrite Hcomp2. intros Hc. rewrite (Hindex2 Hc). by apply Hroom.
    - split; [lia|by left]. }
  set (P := λ w', cached D (dom staged) n w' ∧ log_part w' = log_part start).
  assert (triple P (_ ← on_cache (ensure_group_capacity (total_groups m));
                    recover_logs nonce decode_manifest now false (Manifest.pages_per_group m) (v_pending w) : Prog K B ())
    (λ _ w', cached D (dom staged) (n - shelf_load (v_pending w) (v_logs w)) w' ∧ held staged w' ∧ log_part w' = log_part start)
    (λ _, False)) as Hrecover.
  { apply (triple_bind _ _ _ (λ _, P)).
    - eapply (triple_annotate key m); [apply annotates_capacity| |by intros w' [[? _] _]].
      intros w' c' [Hc Hl] Hf Hs. split; [by apply cached_store|done].
    - intros []. apply (triple_recover start); [done| |done..]. intros f Hf. split; [by apply Hshelf|by apply Hsz]. }
  specialize (Hrecover start (conj (proj1 Hstart) eq_refl)).
  destruct ((_ ← on_cache _; recover_logs _ _ _ _ _ _) start) as [[[]|e|] w'] eqn:Hrun; [|done..].
  destruct Hrecover as (Hc' & Hh & Hl). exists w'. split; [reflexivity|]. split; [done|]. split; [done|].
  rewrite Hl. apply Hstart.
Qed.
End open_safety.

Lemma record_sizes ps recs : 0 ≤ ps → Forall (record_ok ps) recs →
  map_Forall (λ _ d, Z.of_nat (length d) = ps) (pages_of recs ∅).
Proof.
  intros Hps. unfold pages_of. induction recs as [|r recs IH] using rev_ind; intros Hr; [apply map_Forall_empty|].
  apply Forall_app in Hr as [Hr (_ & _ & Hl)%Forall_singleton]. rewrite foldl_app. cbn.
  apply map_Forall_insert_2; [lia|by apply IH].
Qed.

Lemma fold_max_bounds l a : 0 ≤ a → (∀ x, x ∈ l → 0 ≤ x < a) → (∀ x, x ∈ l → x ≤ foldr Z.max 0 l) ∧ 0 ≤ foldr Z.max 0 l ∧
  (foldr Z.max 0 l < a ∨ foldr Z.max 0 l = 0).
Proof.
  intros Ha. induction l as [|x l IH]; cbn; intros Hl; [split_and!; [by intros ? ?%not_elem_of_nil|lia..]|].
  destruct IH as (H1 & H2 & H3); [intros y Hy; apply Hl; by right|]. specialize (Hl x ltac:(by left)).
  split_and!; [|lia|lia]. intros y [->|Hy]%elem_of_cons; [lia|]. specialize (H1 y Hy). lia.
Qed.

Section crash.
Context `{HashIter} `{Compression} `{Aead K} `{StorageLaws B} (nonce : Z → bytes) `{!CacheLaws nonce}.
Variable from_slice : bytes → option LocalState.
Variable log_manifest : Manifest → option bytes.
Variable decode_manifest : bytes → option Manifest.
Variable key : option K.
Variable m : Manifest.
Variable live : Prop.
Variable o : gmap string bytes.
Variable N : Z.
Abbreviation ps := (Manifest.page_size m).
Abbreviation writing := (writing key m live o log_manifest N).
Context (Hg : geometry m) (Hvalid : is_valid_page_size ps = true).
Context (Hlogm : ∃ d, log_manifest m = Some d ∧ is_u64 (Z.of_nat (length d)) ∧
  ∀ m', decode_manifest d = Some m' → version m' = version m).

(** The logs of a connection between transactions. *)
Lemma writing_shelf staged D n s :
  writing [] staged D n s →
  let fs := v_pending (shared s) in let logs := v_logs (shared s) in
  shelf_ok ps fs logs ∧ logs_from ∅ fs logs = Ok staged ∧
  (∀ f, f ∈ fs → map_Forall (λ _ d, Z.of_nat (length d) = ps) (log_pages logs f)) ∧
  trailers_old decode_manifest m fs logs ∧ shelf_load fs logs + n ≤ N ∧
  ∀ f, f ∈ fs → 0 ≤ pf_version f < staging_seq s.
Proof.
  intros (_ & Hl & _) fs logs. pose proof (ge_ps _ Hg) as Hpos. destruct Hlogm as (data0 & Hd0 & Hlen & Hdec).
  assert (∀ f, f ∈ fs → ∃ recs, logs !! staging_path f = Some (sealed_log ps recs data0) ∧ Forall (record_ok ps) recs) as Hfile.
  { intros f Hf. destruct (sh_file _ _ _ _ (lg_shelf _ _ _ _ _ _ _ _ Hl f Hf)) as (recs & data & Hfile & Hrec & Hd).
    exists recs. by simplify_eq. }
  split_and!.
  - split; [|apply Hl|].
    + intros f Hf. destruct (lg_shelf _ _ _ _ _ _ _ _ Hl f Hf) as [Hp Hv Hps (recs & data & Hlog & Hrec & _)].
      pose proof (lg_seq _ _ _ _ _ _ _ _ Hl). split_and!; [done|unfold is_u64; lia|done|by exists recs, data].
    + intros path Hpath. destruct (lg_dir _ _ _ _ _ _ _ _ Hl path Hpath) as [?|(l & Hw & _)]; [done|].
      pose proof (lg_log _ _ _ _ _ _ _ _ Hl) as Hlog. rewrite Hw in Hlog. by destruct Hlog as [? _].
  - apply Hl.
  - intros f Hf. destruct (Hfile f Hf) as (recs & Hf' & Hrec). unfold log_pages. rewrite Hf'. cbn [fmap option_fmap option_map].
    rewrite read_sealed by done. apply record_sizes; [lia|done].
  - intros f file data m' Hf Hf' Hread Hdec'. destruct (Hfile f Hf) as (recs & Hlog & Hrec). rewrite Hlog in Hf'. injection Hf' as <-.
    rewrite read_sealed_manifest in Hread by done. injection Hread as <-.
    unfold decode_manifest_bytes in Hdec'. apply bind_Ok in Hdec' as (_ & _ & Hdec').
    destruct (decode_manifest data0) as [m1|] eqn:Hm1; [|done]. apply bind_Ok in Hdec' as (? & [= <-] & Hdec').
    apply bind_Ok in Hdec' as (_ & _ & [= <-]). by rewrite (Hdec _ eq_refl).
  - pose proof (lg_load _ _ _ _ _ _ _ _ Hl) as Hload. cbn in Hload. unfold fs, logs. lia.
  - intros f Hf. apply (lg_shelf _ _ _ _ _ _ _ _ Hl f Hf).
Qed.
(** What reopening the directory of a connection between transactions gives. *)
Lemma reopen_writing now config tf staged D n s :
  page_count m ≤ 2 ^ 46 → detect_and_normalize_strategy (strip_indexes m) = m →
  0 < Manifest.pages_per_group m ≤ 2 ^ 13 → 0 < Manifest.sub_pages_per_frame m →
  writing [] staged D n s → N ≤ 2 * n →
  cache_file (v_cache (shared s)) ≠ [] → (∃ st, saved from_slice (shared s) st) → config_ok config (shared s) tf.1.1 →
  ∃ w seq, assemble nonce from_slice decode_manifest now config false (left_behind (shared s)) tf None [] (v_backend (shared s))
             = Ok (w, seq) ∧
    (∀ f, f ∈ v_pending w → pf_version f < seq) ∧ held staged w ∧
    writing [] staged D 0 (s <| shared := w |>).
Proof.
  intros Hcount Hnorm Hppg Hspf Hs HN Hne [st Hst] Hconf.
  destruct (writing_shelf staged D n s Hs) as (Hshelf & HM & Hsz & Hold & Hload & Hver).
  destruct Hs as (Hc & Hl & Hb). change (newer [] staged) with staged in Hc.
  assert (map_Forall (λ p d, d = D p ∧ 0 ≤ p ∧ is_Some (page_location m p)) staged) as Hstaged.
  { intros p d Hd. by destruct (lg_pages _ _ _ _ _ _ _ _ Hl p d Hd) as (? & ? & ? & _). }
  destruct (assemble_run nonce from_slice decode_manifest now key m live Hg o staged D Hstaged Hcount config tf n (shared s) st
    (v_backend (shared s))) as (w & Hrun & Hc' & Hh & Hlog); try done; [lia|apply Hc|apply Hc|].
  eexists w, _. split; [exact Hrun|]. split; [|split; [done|]].
  - pose proof (lg_seq _ _ _ _ _ _ _ _ Hl) as Hseq. injection Hlog as -> _ _. intros f Hf.
    destruct (fold_max_bounds (pf_version <$> v_pending (shared s)) (staging_seq s)) as (Hmax & Hpos & Hlt); [lia| |].
    { intros x (g & -> & Hg')%list_elem_of_fmap. by apply Hver. }
    specialize (Hmax (pf_version f) ltac:(apply list_elem_of_fmap; by exists f)).
    rewrite wrap64_id; [lia|]. unfold is_u64. specialize (Hver f Hf). lia.
  - split; [|split].
    + destruct Hc' as (Hco & Hr & Hz). split; [done|]. split; [|done].
      change (room (v_cache w) 0). intros Hcomp. specialize (Hr Hcomp). lia.
    + apply logged_log_part; [done|]. pose proof (shelf_load_nonneg (v_pending (shared s)) (v_logs (shared s))).
      pose proof Hl as []. split; try done; cbn; lia.
    + by apply books_log_part.
Qed.
End crash.

(** C2. A crash loses no transaction. A connection in the two-phase mode, over a
    database whose groups are all stored whole, without override frames, runs
    transactions none of which fails; they write pages that already have a place
    in the database, in too few frames for automatic compaction to do anything.
    The process then dies. Opening the cache directory it left behind succeeds
    when its state file can be read: every page the transactions wrote is in the
    new cache, with what was written last, the next log has a fresh number, and a
    flush, which succeeds when nothing outside it fails, publishes a manifest
    under which every page that has a place reads as the last write left it, or as
    it was before. Transactions that grow the database are not covered, and a
    recovery can lose them ([synced_growth_is_lost]). *)
Theorem crash_loses_no_transaction `{HashIter} `{Compression} `{Aead K} `{StorageLaws B} nonce `{!CacheLaws nonce}
    rnd `{!FlushLaws rnd} to_vec from_slice log_manifest encode_manifest decode_manifest key m o now now' persists durable
    config tf fails gc override_threshold compaction_threshold D D' n ts (s : Conn K B) :
  geometry m → small m → keys_ok m → version m + 1 < 2 ^ 64 → is_valid_page_size (Manifest.page_size m) = true →
  page_count m ≤ 2 ^ 46 → detect_and_normalize_strategy (strip_indexes m) = m →
  0 < Manifest.pages_per_group m ≤ 2 ^ 13 → 0 < Manifest.sub_pages_per_frame m →
  (∃ d, log_manifest m = Some d ∧ is_u64 (Z.of_nat (length d)) ∧ ∀ m', decode_manifest d = Some m' → version m' = version m) →
  sy_copy persists = no_persist_fails → (∀ st, is_Some (to_vec st)) → codec_law to_vec from_slice →
  stored_whole key m o → uncompacted compaction_threshold m (list_to_set (concat ts).*1) →
  writing key m False o log_manifest n [] ∅ D n s →
  ts ≠ [] → Forall (λ ws, ws ≠ [] ∧ Forall (writable m) ws) ts → 2 * Z.of_nat (length (concat ts)) ≤ n → D' = after (concat ts) D →
  ∃ s', transactions nonce key m now log_manifest rnd to_vec from_slice encode_manifest decode_manifest persists durable ts s
          = (Ok (), s') ∧
    let crashed := shared s' in
    cache_file (v_cache crashed) ≠ [] → (∃ st, load_or_default from_slice None (state_file (v_cache crashed)) = Ok st) →
    config_ok config crashed tf.1.1 →
    ∃ w seq, assemble nonce from_slice decode_manifest now' config false (left_behind crashed) tf None [] (v_backend crashed)
               = Ok (w, seq) ∧
      (∀ f, f ∈ v_pending w → pf_version f < seq) ∧
      (∀ p, p ∈ (concat ts).*1 → stored (v_cache w) p = Some (D' p)) ∧
      let '(r, w') := run_flush rnd to_vec from_slice encode_manifest decode_manifest key fails false gc
                        override_threshold compaction_threshold w in
      r ≠ Panic ∧
      (flush_works to_vec from_slice encode_manifest decode_manifest m o (v_cache w) fails (v_backend w) → r = Ok ()) ∧
      (r = Ok () → ∀ p, 0 ≤ p → is_Some (page_location m p) →
         page_location (v_manifest w') p = page_location m p ∧
         cold_page key (v_manifest w') (objects (v_backend w')) p = Some (D' p)).
Proof.
  intros Hg Hsmall Hk Hv Hvalid Hcount Hnorm Hppg Hspf Hlogm Hno Ht Hcodec Hwhole Hcomp Hs Hne Hts Hn ->.
  pose proof Hlogm as (d0 & Hd0 & _).
  pose proof (op_transactions nonce key m False now Hg o log_manifest n rnd to_vec from_slice encode_manifest decode_manifest
    persists durable (mk_is_Some _ _ Hd0) ts ∅ D n Hvalid Hts ltac:(lia) s Hs) as Hrun.
  destruct (transactions _ _ _ _ _ _ _ _ _ _ _ _ _ s) as [[[]|e|] s']; [|done..].
  destruct Hrun as [Hrun Hset]. exists s'. split; [done|]. cbn zeta. intros Hfile Hread Hconf.
  destruct (reopen_writing nonce from_slice log_manifest decode_manifest key m False o n Hg Hvalid Hlogm now' config tf
    (newer (concat ts) ∅) (after (concat ts) D) (n - Z.of_nat (length (concat ts))) s')
    as (w & seq & Hopen & Hseq & Hheld & Hw); try done; [lia|by apply Hset|].
  exists w, seq. split; [done|]. split; [done|].
  destruct (writing_ready key m False Hg o log_manifest n _ _ _ _ override_threshold Hk Hv Hsmall Hwhole Hw) as [Hr Hnew].
  pose proof Hw as ((Hco & _ & _ & Ho) & Hl & _). pose proof (co_manifest _ _ _ _ _ _ Hco) as Hm. cbn in Hm, Ho, Hr, Hnew.
  split.
  - intros p Hp. destruct (pages_of_elem (concat ts) ∅ p Hp) as [d Hd]. destruct (Hheld p d Hd) as [_ Hst].
    rewrite Hst. f_equal. apply (lg_pages _ _ _ _ _ _ _ _ Hl p d Hd).
  - destruct (run_flush _ _ _ _ _ _ _ _ _ _ _ w) as [r w'] eqn:Hflush.
    assert (uncompacted compaction_threshold (v_manifest w) (dom (newer (concat ts) ∅))) as Hcomp'
      by (rewrite Hm; eapply uncompacted_mono; [apply pages_of_dom|done]).
    destruct (run_flush_end rnd to_vec from_slice encode_manifest decode_manifest key fails false gc override_threshold
      compaction_threshold w _ _ _ Hr Hcomp' Hflush) as [Hnp Hworks _ _ Hok].
    rewrite Hm, Ho in Hworks. split; [done|]. split; [done|]. intros -> p Hp Hloc.
    destruct (Hok eq_refl) as (_ & _ & Hpages & _). rewrite Hm in Hpages. destruct (Hpages p Hp Hloc) as [Hl' Hc].
    split; [done|]. rewrite Hc. by apply Hnew.
Qed.
