(* ===== verification/OpenExamples.v ===== *)
(** Reopening a small database after a crash: the witness of the theorem about
    recovery, and what a restart gets wrong. *)

From stdpp Require Import strings.
From S2P Require Import Prelude Keys Wire Staging Manifest Backend ColdRead.
From S2P Require Import CacheTracking LocalState StateCodec Compress Encoding File DiskCache CacheView CacheWrite CacheSafety CacheSteps CacheReopen CacheExamples.
From S2P Require Import Vfs Compact Flush FlushPages FlushRun FlushSafety FlushExamples.
From S2P Require Import Settings Programs Handle HandleRead HandleSafety HandleExamples HandleWrite WriteSafety WriteExamples.
From S2P Require Import Open OpenSafety.

#[local] Existing Instance canonical_iter.

(* ------------------------------------------------------------------ *)
(** * The witness *)

(** The transactions of WriteExamples, with codecs that keep what [serde] keeps. *)
Definition ox_transactions : list (list (Z * bytes)) → Op () MemStore () :=
  transactions demo_nonce fx_key fx_manifest 0 manifest_to_vec fx_rnd full_to_vec full_from_slice manifest_to_vec
    manifest_from_slice wx_fails wx_durable.

Definition ox_end : Conn () MemStore := (ox_transactions wx_ts wx_conn).2.

Definition ox_reopen (w : Vfs () MemStore) : io (Vfs () MemStore * Z) :=
  assemble demo_nonce full_from_slice manifest_from_slice 5 fx_config false (left_behind w) (∅, ∅, ∅) None [] (v_backend w).

Definition ox_flush (w : Vfs () MemStore) : io () * Vfs () MemStore :=
  run_flush fx_rnd full_to_vec full_from_slice manifest_to_vec manifest_from_slice fx_key fx_no_fails false true 2 8 w.

Definition opened_or {A C} (d : A) (r : io (A * C)) : A := match r with Ok (a, _) => a | _ => d end.

Definition ox_again : Vfs () MemStore := opened_or wx_state (ox_reopen (shared ox_end)).

Lemma ox_flush_ok : (ox_flush ox_again).1 = Ok ().
Proof. vm_compute. reflexivity. Qed.

Lemma ox_left : cache_file (v_cache (shared ox_end)) ≠ [] ∧
  (∃ st, load_or_default full_from_slice None (state_file (v_cache (shared ox_end))) = Ok st) ∧
  encryption_key (cfg (v_cache (shared ox_end))) = fx_key ∧ cache_compression (cfg (v_cache (shared ox_end))) = false.
Proof.
  split_and!.
  - intros Hf%(f_equal length). revert Hf. vm_compute. done.
  - eexists. vm_compute. reflexivity.
  - vm_compute. reflexivity.
  - vm_compute. reflexivity.
Qed.

Lemma ox_config : config_ok fx_config (shared ox_end) ∅.
Proof. destruct ox_left as (_ & _ & Hk & Hc). split; [by rewrite Hk|by rewrite Hc|cbn; lia|apply set_Forall_empty]. Qed.

Lemma ox_writing : writing fx_key fx_manifest False fx_objects manifest_to_vec 6 [] ∅ wx_pages 6 wx_conn.
Proof.
  destruct (wx_writing 6 ltac:(lia)) as ((Hco & Hc) & [] & Hb). split; [split; [|done]|split; [|done]].
  - destruct Hco. by split.
  - split; try done. intros f Hf. exact (False_ind _ (not_elem_of_nil _ Hf)).
Qed.

Lemma ox_logged : ∃ d, manifest_to_vec fx_manifest = Some d ∧ is_u64 (Z.of_nat (length d)) ∧
  ∀ m', manifest_from_slice d = Some m' → version m' = version fx_manifest.
Proof.
  eexists. split; [reflexivity|]. split.
  - unfold is_u64. split; [lia|]. apply Z.ltb_lt. vm_compute. reflexivity.
  - intros m' Hm. rewrite manifest_codec in Hm. by injection Hm as <-.
Qed.

Lemma ox_normal : @detect_and_normalize_strategy canonical_iter (strip_indexes fx_manifest) = fx_manifest.
Proof. apply (bool_decide_eq_true_1 _). vm_compute. reflexivity. Qed.

Lemma ox_written : 0 ∈ (concat wx_ts).*1 ∧ 4 ∈ (concat wx_ts).*1.
Proof.
  assert ((concat wx_ts).*1 = [0; 4; 0]) as Hl by (vm_compute; reflexivity). rewrite Hl. split; [by left|by right; left].
Qed.

Lemma crash_loses_no_transaction_witness :
  ∃ w seq w', ox_transactions wx_ts wx_conn = (Ok (), ox_end) ∧ ox_reopen (shared ox_end) = Ok (w, seq) ∧
    stored (v_cache w) 0 = Some (fx_page 0 3) ∧ stored (v_cache w) 4 = Some (fx_page 4 2) ∧
    ox_flush w = (Ok (), w') ∧
    cold_page fx_key (v_manifest w') (objects (v_backend w')) 0 = Some (fx_page 0 3) ∧
    cold_page fx_key (v_manifest w') (objects (v_backend w')) 4 = Some (fx_page 4 2) ∧
    cold_page fx_key (v_manifest w') (objects (v_backend w')) 2 = Some (fx_page 2 1).
Proof.
  destruct (crash_loses_no_transaction demo_nonce fx_rnd full_to_vec full_from_slice manifest_to_vec manifest_to_vec manifest_from_slice
    fx_key fx_manifest fx_objects 0 5 wx_fails wx_durable fx_config (∅, ∅, ∅) fx_no_fails true 2 8 wx_pages
    (after (concat wx_ts) wx_pages) 6 wx_ts wx_conn fx_geometry hx_small fx_keys_ok ltac:(vm_compute; reflexivity) eq_refl
    ltac:(vm_compute; discriminate) ox_normal ltac:(vm_compute; split; [reflexivity|discriminate]) eq_refl ox_logged eq_refl
    ltac:(by eexists) full_codec wx_whole (fx_uncompacted _) ox_writing ltac:(discriminate) wx_ts_writable ltac:(vm_compute; discriminate) eq_refl)
    as (s' & Hrun & Hopen).
  pose proof (eq_sym (f_equal snd Hrun) : s' = ox_end) as Hs. cbn zeta in Hopen. rewrite Hs in Hopen, Hrun. clear s' Hs.
  destruct ox_left as (Hfile & Hread & _).
  destruct (Hopen Hfile Hread ox_config) as (w & seq & Ho & _ & Hst & Hflush).
  pose proof (eq_sym (f_equal (opened_or wx_state) Ho) : w = ox_again) as Hw.
  destruct wx_after as (H0 & H4 & H2).
  destruct (proj1 (Forall_cons _ _ _) wx_place) as [P0 [P4 [P2 _]%Forall_cons]%Forall_cons].
  pose proof ox_flush_ok as Hok. rewrite <-Hw in Hok. unfold ox_flush in Hok |- *.
  destruct (run_flush _ _ _ _ _ _ _ _ _ _ _ w) as [r w'] eqn:Hrf. cbn in Hok. subst r.
  destruct Hflush as (_ & _ & Hpages). specialize (Hpages eq_refl). exists w, seq, w'.
  split; [exact Hrun|]. split; [exact Ho|]. split; [exact (eq_trans (Hst 0 (proj1 ox_written)) (f_equal Some H0))|].
  split; [exact (eq_trans (Hst 4 (proj2 ox_written)) (f_equal Some H4))|]. split; [exact Hrf|]. split; [|split].
  - exact (eq_trans (proj2 (Hpages 0 (proj1 P0) (proj2 P0))) (f_equal Some H0)).
  - exact (eq_trans (proj2 (Hpages 4 (proj1 P4) (proj2 P4))) (f_equal Some H4)).
  - exact (eq_trans (proj2 (Hpages 2 (proj1 P2) (proj2 P2))) (f_equal Some H2)).
Defined.

(* ------------------------------------------------------------------ *)
(** * What goes wrong *)

(** An eviction clears the bits of its pages in memory and punches their slots;
    the saved bitmap keeps the bits.  After a restart the page is present, and
    reads as zeros. *)
Definition ox_evicted : DiskCache () :=
  snd ((_ ← write_page demo_nonce 0 3 (pg 7); _ ← persist_bitmap full_to_vec full_from_slice None; evict_group 0 : M () ())
    (demo_cache false None)).

Definition ox_reopened : DiskCache () :=
  from_ok ox_evicted (new_with_compression_at full_from_slice (demo_config false None) 9 4 24 [] (cache_file ox_evicted)
    (state_file ox_evicted) (∅, ∅, ∅) None).

Example evicted_page_reopens_as_zeros :
  view ox_evicted 3 = None ∧ view ox_reopened 3 = Some (zeros 4).
Proof. vm_compute. done. Qed.

(** A sync keeps the version of the manifest, so the manifest behind the pages
    of its log is never newer than the published one.  When the state file
    could not be written (which a sync ignores), the page 6 that the sync gave
    a place is in the recovered cache and in no group, and the flush that
    succeeds frees the log. *)
Definition ox_sync_fails : SyncFails :=
  let step := Some (RenameTmp, OtherKind) in
  let fails := {| ff_manifest := step; ff_dirty := step; ff_bitmap := step |} in
  {| sy_commit := fails; sy_copy := fails; sy_flush := fails |}.

Definition ox_published : MemStore := {|
  ms_objects := <[MANIFEST_KEY := put_manifest_fields fx_manifest]> fx_objects; ms_faults := []
|}.

Definition ox_grown : Conn () MemStore :=
  snd ((_ ← write_all_at demo_nonce 0 no_log_fails (fx_page 6 2) (6 * 512);
        sync fx_rnd full_to_vec full_from_slice manifest_to_vec manifest_to_vec manifest_from_slice fx_key 0 wx_durable no_log_fails
          ox_sync_fails)
    (wx_conn <| shared ::= λ w, w <| v_backend := ox_published |> |>)).

Definition ox_regrown : Vfs () MemStore := opened_or wx_state (ox_reopen (shared ox_grown)).

Example trailer_of_sync_is_ignored :
  page_location (v_manifest (shared ox_grown)) 6 = Some {| group_id := 1; index := 2 |} ∧
  page_location (v_manifest ox_regrown) 6 = None ∧ view (v_cache ox_regrown) 6 = Some (fx_page 6 2) ∧
  let '(r, w) := ox_flush ox_regrown in
  r = Ok () ∧ page_location (v_manifest w) 6 = None ∧ v_pending w = [] ∧ v_logs w = ∅.
Proof. vm_compute. done. Qed.
