(* ===== verification/Rotation.v ===== *)
(** Rotation of the encryption key (src/src/tiered/rotation.rs): every stored
    object is opened with the old key and sealed with the new one under the
    names of the next version, and a new manifest commits the change. *)

From stdpp Require Import strings.
From S2P Require Import Prelude Keys Wire CacheTracking LocalState Compress Encoding File DiskCache.
From S2P Require Import Staging Manifest Backend ColdRead Vfs Compact Flush Open.

(* ------------------------------------------------------------------ *)
(** * Programs over the storage backend *)

Definition Remote (B A : Type) : Type := B → io A * B.

#[export] Instance Remote_ret B : MRet (Remote B) := λ A a b, (Ok a, b).
#[export] Instance Remote_bind B : MBind (Remote B) := λ A C f m b,
  match m b with
  | (Ok a, b') => f a b'
  | (Err e, b') => (Err e, b')
  | (Panic, b') => (Panic, b')
  end.

Definition lift {B A} (r : io A) : Remote B A := λ b, (r, b).

Fixpoint fold_remote {B A C} (f : A → C → Remote B A) (acc : A) (l : list C) : Remote B A :=
  match l with
  | [] => mret acc
  | x :: l => acc ← f acc x; fold_remote f acc l
  end.

(* ------------------------------------------------------------------ *)
(** * The rotation *)

(** The manifest under construction, the keys it replaces, and whether the old
    key has opened an object. *)
Record Rotation := { rt_manifest : Manifest; rt_replaced : list string; rt_validated : bool }.

Definition frames_of (m : Manifest) (gid : Z) : list FrameEntry := default [] (at_index (frame_tables m) gid).

(** [&blob[offset..offset + len]]. *)
Definition frame_slice (blob : bytes) (f : FrameEntry) : io bytes :=
  or_panic (slice (fe_offset f) (fe_offset f + fe_len f) blob).

Section rotation.
Context `{HashIter} `{Aead K} `{!EqDecision K} `{StorageBackend B}.
(** The decompressor without a dictionary. *)
Context (plain : Compression).
(** The random draw of each sealed piece of an object. *)
Variable rnd : string → Z → bytes.
Variable encode_manifest : Manifest → option bytes.
Variable decode_manifest : bytes → option Manifest.
Variable old_key new_key : option K.

Definition maybe_decrypt (data aad : bytes) : io bytes :=
  match old_key with Some k => decrypt_gcm_random_nonce data aad k | None => Ok data end.

Definition maybe_encrypt (nonce data aad : bytes) : io bytes :=
  match new_key with Some k => encrypt_gcm_random_nonce nonce data aad k | None => Ok data end.

Definition reencrypt (nonce data aad : bytes) : io bytes :=
  compressed ← maybe_decrypt data aad; maybe_encrypt nonce compressed aad.

Definition fetch (key : string) : Remote B bytes :=
  blob ← (get_page_group key : Remote B _); lift (ok_or blob NotFound).

(** The old key opens the first frame, or the object, of the first group. *)
Definition validate_old_key (frames : list FrameEntry) (gid : Z) (blob : bytes) : io () :=
  test_data ← match frames with f :: _ => frame_slice blob f | [] => Ok blob end;
  k ← or_panic old_key;
  match decrypt_gcm_random_nonce test_data (aad_page_group gid) k with
  | Ok _ => Ok ()
  | Err _ => Err InvalidInput
  | Panic => Panic
  end.

Definition rotate_frame (gid : Z) (new_object : string) (blob : bytes) (acc : bytes * list FrameEntry) (frame : FrameEntry) :
    io (bytes * list FrameEntry) :=
  frame_data ← frame_slice blob frame;
  output ← reencrypt (rnd new_object (Z.of_nat (length acc.2))) frame_data (aad_page_group gid);
  Ok (acc.1 ++ output,
      acc.2 ++ [{| fe_offset := Z.of_nat (length acc.1); fe_len := wrap32 (Z.of_nat (length output)) |}]).

(** The new object of a group with its frame table. *)
Definition rotate_blob (frames : list FrameEntry) (gid : Z) (new_object : string) (blob : bytes) : io (bytes * list FrameEntry) :=
  match frames with
  | [] => output ← reencrypt (rnd new_object 0) blob (aad_page_group gid); Ok (output, [])
  | _ => fold_io (rotate_frame gid new_object blob) ([], []) frames
  end.

Definition set_group (gid : Z) (k : string) (frames : list FrameEntry) (m : Manifest) : Manifest :=
  let m := m <| page_group_keys ::= <[Z.to_nat gid := k]> |> in
  if bool_decide (frames = []) then m else m <| frame_tables ::= <[Z.to_nat gid := frames]> |>.

Definition rotate_group (m : Manifest) (st : Rotation) (g : Z * string) : Remote B Rotation :=
  let '(gid, old_object) := g in
  if bool_decide (old_object = ""%string) then mret st else
  blob ← fetch old_object;
  _ ← lift (if rt_validated st then Ok () else validate_old_key (frames_of m gid) gid blob);
  let k := page_group_key gid (version (rt_manifest st)) in
  '(new_blob, new_frames) ← lift (rotate_blob (frames_of m gid) gid k blob);
  _ ← (put_page_groups [(k, new_blob)] : Remote B ());
  mret {| rt_manifest := set_group gid k new_frames (rt_manifest st);
          rt_replaced := rt_replaced st ++ [old_object]; rt_validated := true |}.

(** A bundle, of a kind given by its names, its identity and its field. *)
Definition rotate_bundle (key_of : Z → Z → string) (aad_of : Z → bytes) (set_key : Z → string → Manifest → Manifest)
    (st : Rotation) (c : Z * string) : Remote B Rotation :=
  let '(id, old_object) := c in
  blob ← fetch old_object;
  let k := key_of id (version (rt_manifest st)) in
  output ← lift (reencrypt (rnd k 0) blob (aad_of id));
  _ ← (put_page_groups [(k, output)] : Remote B ());
  mret {| rt_manifest := set_key id k (rt_manifest st); rt_replaced := rt_replaced st ++ [old_object];
          rt_validated := rt_validated st |}.

Definition set_interior (id : Z) (k : string) (m : Manifest) : Manifest := m <| interior_chunk_keys ::= <[id := k]> |>.
Definition set_index (id : Z) (k : string) (m : Manifest) : Manifest := m <| index_chunk_keys ::= <[id := k]> |>.

(** The first group of the new manifest is read back, opened and decompressed. *)
Definition verify_piece (gid : Z) (data : bytes) : io () :=
  decrypted ← decrypt_if_needed data (aad_page_group gid) new_key;
  _ ← map_err_other (@decompress plain decrypted); Ok ().

Definition verify_blob (m : Manifest) (gid : Z) (blob : bytes) : io () :=
  match frames_of m gid with
  | f :: _ =>
    _ ← guard_err (Z.of_nat (length blob) <? fe_offset f + fe_len f) OtherKind;
    data ← frame_slice blob f; verify_piece gid data
  | [] => verify_piece gid blob
  end.

Definition verify (m : Manifest) : Remote B () :=
  match list_find (λ k, k ≠ ""%string) (page_group_keys m) with
  | None => mret ()
  | Some (gid, k) =>
    r ← (get_page_group k : Remote B _);
    blob ← lift (ok_or r OtherKind);
    lift (verify_blob m (Z.of_nat gid) blob)
  end.

(** Everything before the commit. *)
Definition rotate_objects : Remote B Rotation :=
  _ ← lift (guard_err (bool_decide (old_key = None ∧ new_key = None)) InvalidInput);
  _ ← lift (guard_err (bool_decide (old_key = new_key)) InvalidInput);
  found ← (get_manifest decode_manifest : Remote B _);
  m ← lift (ok_or found NotFound);
  let start := {| rt_manifest := m <| version := wrap64 (version m + 1) |>; rt_replaced := [];
                  rt_validated := bool_decide (old_key = None) |} in
  st ← fold_remote (rotate_group m) start (enumerate (page_group_keys m));
  st ← fold_remote (rotate_bundle interior_chunk_key aad_interior_bundle set_interior) st (hiter (interior_chunk_keys m));
  st ← fold_remote (rotate_bundle index_chunk_key aad_index_bundle set_index) st (hiter (index_chunk_keys m));
  _ ← verify (rt_manifest st);
  mret st.

(** [remove_file] of the cache file and of the state file; a failure is ignored. *)
Definition clear_local (removed : bool * bool) (dir : CacheDir) : CacheDir := {|
  dir_cache_file := if removed.1 then [] else dir_cache_file dir;
  dir_state_file := if removed.2 then None else dir_state_file dir;
  dir_logs := dir_logs dir |}.

(** The commit, then the deletion of the replaced objects. *)
Definition commit_rotation (st : Rotation) : Remote B () :=
  _ ← (put_manifest encode_manifest decode_manifest (rt_manifest st) : Remote B ());
  _ ← (delete_objects (rt_replaced st) : Remote B Z);
  mret ().

Definition rotate_encryption_key (removed : bool * bool) (dir : CacheDir) (b : B) : io () * CacheDir * B :=
  match rotate_objects b with
  | (Ok st, b) => let '(r, b) := commit_rotation st b in (r, clear_local removed dir, b)
  | (Err e, b) => (Err e, dir, b)
  | (Panic, b) => (Panic, dir, b)
  end.
End rotation.
