(* ===== verification/RotationSafety.v ===== *)
(** The rotation of the key is all-or-nothing, and keeps every page. *)

From stdpp Require Import strings.
From S2P Require Import Prelude Keys Wire Manifest Backend ColdRead CacheTracking LocalState Compress Encoding File DiskCache.
From S2P Require Import Staging Vfs Compact CacheView Flush FlushPages FlushManifest Open Rotation.

(* ------------------------------------------------------------------ *)
(** * Outcomes of a program over the backend *)

Section ends.
Context `{HashIter} `{StorageLaws B} (L : Prop) (E : gmap string bytes → Prop).

(** A value comes with [Q]; a failure leaves [E].  Under [L] only storage
    fails, and nothing panics. *)
Definition ends {A} (m : Remote B A) (Q : A → gmap string bytes → Prop) (b : B) : Prop :=
  match m b with
  | (Ok a, b') => Q a (objects b') ∧ (reliable b → reliable b')
  | (Err _, b') => E (objects b') ∧ (L → ¬ reliable b)
  | (Panic, b') => E (objects b') ∧ ¬ L
  end.

Lemma ends_ret {A} (a : A) (Q : A → gmap string bytes → Prop) b : Q a (objects b) → ends (mret a) Q b.
Proof. by split. Qed.

Lemma ends_bind {A C} (m : Remote B A) (f : A → Remote B C) Q R b :
  ends m Q b → (∀ a b', Q a (objects b') → ends (f a) R b') → ends (m ≫= f) R b.
Proof.
  unfold ends, mbind, Remote_bind. intros Hm Hf. destruct (m b) as [[a|e|] b']; [|done..]. destruct Hm as [Hq Hb].
  specialize (Hf a b' Hq). destruct (f a b') as [[c|e|] b2]; destruct Hf as [? Hr]; split; try done; [by auto|]. intros Hl Hb0. by apply (Hr Hl), Hb.
Qed.

Lemma ends_lift {A} (r : io A) (Q : A → gmap string bytes → Prop) b :
  (∀ a, r = Ok a → Q a (objects b)) → E (objects b) → (L → ∃ a, r = Ok a) → ends (lift r) Q b.
Proof.
  intros Hq He Hl. unfold ends, lift. destruct r as [a|e|]; split; auto; intros Hx; by destruct (Hl Hx).
Qed.

Lemma ends_mono {A} (m : Remote B A) (Q R : A → gmap string bytes → Prop) b :
  ends m Q b → (∀ a o, Q a o → R a o) → ends m R b.
Proof. unfold ends. intros Hm Hqr. destruct (m b) as [[a|e|] b']; [|done..]. destruct Hm. by auto. Qed.

(** A loop, with an invariant on what has been done. *)
Lemma ends_fold {A C} (f : A → C → Remote B A) (I : list C → A → gmap string bytes → Prop) todo doing acc b :
  (∀ l x l2 a b, todo = l ++ x :: l2 → I (doing ++ l) a (objects b) → ends (f a x) (I (doing ++ l ++ [x])) b) →
  I doing acc (objects b) → ends (fold_remote f acc todo) (I (doing ++ todo)) b.
Proof.
  revert doing acc b. induction todo as [|x todo IH]; intros doing acc b Hstep Hi; cbn [fold_remote].
  { rewrite app_nil_r. by apply ends_ret. }
  eapply ends_bind; [apply (Hstep [] x todo); [done|by rewrite app_nil_r]|].
  intros a b' Ha. cbn beta in Ha. replace (doing ++ x :: todo) with ((doing ++ [x]) ++ todo) by by rewrite <-app_assoc.
  apply IH; [|done]. intros l y l2 a2 b2 -> Hi2. rewrite <-app_assoc in Hi2 |- *. by apply (Hstep (x :: l) y l2).
Qed.

Lemma ends_get k b : E (objects b) → ends (get_page_group k) (λ r o, o = objects b ∧ r = o !! k) b.
Proof.
  intros He. unfold ends. destruct (get_page_group_run k b) as (r & b' & -> & Ho & [->|[-> Hr]] & Hb).
  - by rewrite Ho.
  - rewrite Ho. by split.
Qed.

Lemma ends_get_manifest decode_manifest m b :
  E (objects b) → stored_manifest decode_manifest (objects b) = Ok (Some m) →
  ends (get_manifest decode_manifest) (λ r o, o = objects b ∧ r = Some m) b.
Proof.
  intros He Hm. unfold ends, get_manifest. destruct (get_page_group_run MANIFEST_KEY b) as (r & b' & -> & Ho & [->|[-> Hr]] & Hb).
  - unfold stored_manifest in Hm. cbn [mbind outcome_bind]. rewrite Hm. by rewrite Ho.
  - cbn [mbind outcome_bind]. by rewrite Ho.
Qed.

Lemma ends_put k d b :
  E (objects b) → (∀ o, (∀ k', k' ≠ k → o !! k' = objects b !! k') → E o) →
  ends (put_page_groups [(k, d)]) (λ _ o, o = <[k := d]> (objects b)) b.
Proof.
  intros He Hk. unfold ends.
  destruct (put_page_groups_run [(k, d)] b) as (r & b' & -> & [[-> Ho]|[-> Hr]] & Hother & Hb); [by split|].
  split; [|done]. apply Hk. intros k' Hne. apply Hother. intros Hin%list_elem_of_singleton. done.
Qed.
End ends.

(* ------------------------------------------------------------------ *)
(** * The same contents under two keys *)

Section same.
Context `{Compression} `{Aead K} (old_key new_key : option K).

(** [c] under the old key and [c'] under the new one. *)
Definition same_plain (aad c c' : bytes) : Prop :=
  ∃ x, decrypt_if_needed c aad old_key = Ok x ∧ decrypt_if_needed c' aad new_key = Ok x.

Definition same_frame (aad blob blob' : bytes) (e e' : FrameEntry) : Prop :=
  ∃ c c', slice (fe_offset e) (fe_offset e + fe_len e) blob = Some c ∧
    slice (fe_offset e') (fe_offset e' + fe_len e') blob' = Some c' ∧ same_plain aad c c'.

Definition same_object (aad : bytes) (frames frames' : list FrameEntry) (blob blob' : bytes) : Prop :=
  Forall2 (same_frame aad blob blob') frames frames' ∧ (frames = [] → same_plain aad blob blob').

Lemma same_subchunk aad c c' : same_plain aad c c' → decode_seekable_subchunk c' aad new_key = decode_seekable_subchunk c aad old_key.
Proof. intros (x & Ho & Hn). unfold decode_seekable_subchunk. by rewrite Ho, Hn. Qed.

Lemma same_bulk aad c c' : same_plain aad c c' → decode_page_group_bulk c' aad new_key = decode_page_group_bulk c aad old_key.
Proof. intros (x & Ho & Hn). unfold decode_page_group_bulk, group_header. by rewrite Ho, Hn. Qed.

Lemma same_bundle aad c c' : same_plain aad c c' → decode_interior_bundle c' aad new_key = decode_interior_bundle c aad old_key.
Proof. intros (x & Ho & Hn). unfold decode_interior_bundle. by rewrite Ho, Hn. Qed.

Lemma slice_longer {A} (a b : Z) (l s k : list A) : slice a b l = Some k → slice a b (l ++ s) = Some k.
Proof.
  intros (Hab & Hb & ->)%slice_Some. apply slice_Some. split; [done|]. rewrite length_app. split; [lia|].
  rewrite drop_app_le by lia. rewrite take_app_le; [done|]. rewrite length_drop. lia.
Qed.

(** The pieces of a new object stay where they are as it grows. *)
Lemma same_frames_longer aad blob blob' s l l' :
  Forall2 (same_frame aad blob blob') l l' → Forall2 (same_frame aad blob (blob' ++ s)) l l'.
Proof.
  intros Hl. eapply Forall2_impl; [exact Hl|]. intros e e' (c & c' & Hc & Hc' & Hs). exists c, c'.
  split; [done|]. split; [by apply slice_longer|done].
Qed.

Context `{!FlushLaws rnd} (open_shrinks : ∀ k n aad c d, gcm_decrypt k n aad c = Some d → (length d ≤ length c)%nat).

Lemma reencrypt_same k i data aad out :
  reencrypt old_key new_key (rnd k i) data aad = Ok out → Z.of_nat (length aad) < 2 ^ 8 →
  same_plain aad data out ∧ Z.of_nat (length out) ≤ Z.of_nat (length data) + 2 ^ 9.
Proof.
  unfold reencrypt. intros Hr Haad. apply bind_Ok in Hr as (x & Hx & He). split.
  - exists x. split; [exact Hx|]. apply (decrypt_if_needed_encrypt (rnd k i)); [apply fl_rnd|exact He].
  - assert (length x ≤ length data)%nat as Hlx.
    { unfold maybe_decrypt in Hx. destruct old_key as [k0|]; [|by injection Hx as ->].
      unfold decrypt_gcm_random_nonce in Hx. inv_ok. apply open_shrinks in Hx. rewrite length_drop in Hx. lia. }
    unfold maybe_encrypt in He. destruct new_key as [k0|]; [|injection He as <-; lia].
    unfold encrypt_gcm_random_nonce in He. inv_ok. rewrite length_app.
    pose proof (fl_rnd k i). match goal with Hs : gcm_encrypt _ _ _ _ = Some _ |- _ => apply fl_seal_bound in Hs end. lia.
Qed.

Lemma aad_page_group_short gid : Z.of_nat (length (aad_page_group gid)) < 2 ^ 8.
Proof. unfold aad_page_group. cbn [length]. rewrite length_le_bytes. lia. Qed.

Lemma rotate_frames_same gid k blob todo pre acc r :
  fold_io (rotate_frame rnd old_key new_key gid k blob) acc todo = Ok r →
  Forall (λ e, fe_len e ≤ 2 ^ 31) todo →
  Forall2 (same_frame (aad_page_group gid) blob acc.1) pre acc.2 →
  Forall2 (same_frame (aad_page_group gid) blob r.1) (pre ++ todo) r.2.
Proof.
  revert pre acc. induction todo as [|e todo IH]; intros pre acc Hr Hlen Hpre; cbn [fold_io] in Hr.
  { injection Hr as <-. by rewrite app_nil_r. }
  apply bind_Ok in Hr as (acc2 & Hacc & Hr). apply Forall_cons in Hlen as [He Hlen].
  replace (pre ++ e :: todo) with ((pre ++ [e]) ++ todo) by by rewrite <-app_assoc. apply (IH _ acc2); [done|done|].
  unfold rotate_frame in Hacc. apply bind_Ok in Hacc as (c & Hc%or_panic_Ok & Hacc). apply bind_Ok in Hacc as (out & Hout & [= <-]).
  cbn [fst snd]. apply reencrypt_same in Hout as [Hs Hsize]; [|apply aad_page_group_short].
  pose proof (slice_length _ _ _ _ Hc) as Hlc. pose proof (proj1 (slice_Some _ _ _ _) Hc) as (Hb & _).
  apply Forall2_app; [by apply same_frames_longer|]. constructor; [|constructor]. exists c, out. split; [done|]. split; [|done].
  cbn [fe_offset fe_len]. rewrite wrap32_id by (unfold is_u32; lia). rewrite <-(app_nil_r out) at 2. by apply slice_app.
Qed.

Lemma rotate_blob_same frames gid k blob r :
  rotate_blob rnd old_key new_key frames gid k blob = Ok r → Forall (λ e, fe_len e ≤ 2 ^ 31) frames →
  same_object (aad_page_group gid) frames r.2 blob r.1.
Proof.
  unfold rotate_blob, same_object. intros Hr Hlen. destruct frames as [|e frames].
  - apply bind_Ok in Hr as (out & Hout & [= <-]). split; [constructor|]. intros _.
    by apply reencrypt_same in Hout as [Hs _]; [|apply aad_page_group_short].
  - split; [|done]. by apply (rotate_frames_same gid k blob _ [] ([], []) r Hr Hlen).
Qed.
End same.

(* ------------------------------------------------------------------ *)
(** * The loops *)

Definition slot_frames (m : Manifest) (s : Slot) : list FrameEntry :=
  match s with PageGroup gid => frames_of m gid | _ => [] end.

Lemma slot_aad_short s : Z.of_nat (length (slot_aad s)) < 2 ^ 8.
Proof.
  destruct s; cbn [slot_aad]; unfold aad_page_group, aad_interior_bundle, aad_index_bundle, aad_override_frame; cbn [length];
    rewrite ?length_app, !length_le_bytes; lia.
Qed.

Section rotating.
(** [plain] comes first: it is not the decoder of the readers. *)
Context (plain : Compression) `{HashIter} `{Compression} `{Aead K} `{!EqDecision K} `{StorageLaws B}.
Context (rnd : string → Z → bytes) `{!FlushLaws rnd}.
Context (open_shrinks : ∀ k n aad c d, gcm_decrypt k n aad c = Some d → (length d ≤ length c)%nat).
Context (encode_manifest : Manifest → option bytes) (decode_manifest : bytes → option Manifest).
Context (old_key new_key : option K) (m : Manifest) (o : gmap string bytes).
Context (Hkeys : keys_ok m) (Hv : version m + 1 < 2 ^ 64) (Hno : ∀ gid f, override_of m gid f = None).
Context (Hlens : ∀ gid, Forall (λ e, fe_len e ≤ 2 ^ 31) (frames_of m gid)).

Abbreviation v := (version m + 1).

(** What the stored manifest refers to, and the manifest, are as before. *)
Definition kept (o' : gmap string bytes) : Prop :=
  ∀ k, k = MANIFEST_KEY ∨ (∃ s, references m s k) → o' !! k = o !! k.

Definition moved (m' : Manifest) (o' : gmap string bytes) (s : Slot) : Prop :=
  ∃ k blob blob', references m s k ∧ o !! k = Some blob ∧ references m' s (slot_key s v) ∧
    o' !! slot_key s v = Some blob' ∧ same_object old_key new_key (slot_aad s) (slot_frames m s) (slot_frames m' s) blob blob'.

(** Names and frame tables are all that changes. *)
Definition renamed (m' : Manifest) : Prop :=
  ∃ ks fts ic xc, length ks = length (page_group_keys m) ∧ length fts = length (frame_tables m) ∧
    m' = m <| version := v |> <| page_group_keys := ks |> <| frame_tables := fts |>
           <| interior_chunk_keys := ic |> <| index_chunk_keys := xc |>.

(** The slots of [D] are in objects of the new version, the others where they were. *)
Record rotating (D : Slot → Prop) (st : Rotation) (o' : gmap string bytes) : Prop := {
  ro_kept : kept o';
  ro_shape : renamed (rt_manifest st);
  ro_moved : ∀ s, D s → moved (rt_manifest st) o' s;
  ro_rest : ∀ s, ¬ D s → (∀ k, references (rt_manifest st) s k ↔ references m s k) ∧ slot_frames (rt_manifest st) s = slot_frames m s;
  ro_replaced : ∀ k, k ∈ rt_replaced st → ∃ s, references m s k
}.

(** What the old key must open for the rotation to go through. *)
Definition opens (aad c : bytes) : Prop :=
  ∃ x d, decrypt_if_needed c aad old_key = Ok x ∧ @decompress plain x = Ok d.

Record rotatable : Prop := {
  rb_change : old_key ≠ new_key;
  rb_objects : ∀ s k, references m s k → ∃ blob, o !! k = Some blob ∧
    (slot_frames m s = [] → opens (slot_aad s) blob) ∧
    Forall (λ e, ∃ c, slice (fe_offset e) (fe_offset e + fe_len e) blob = Some c ∧ opens (slot_aad s) c) (slot_frames m s);
  rb_encodes : ∀ m', is_Some (encode_manifest m')
}.

Abbreviation ends := (ends rotatable kept).

Lemma fresh_key s k : references m s k →
  (slot_ok s ∧ slot_key s v ≠ MANIFEST_KEY) ∧ (∀ s', ¬ references m s' (slot_key s v)) ∧
  ∀ s' k', references m s' k' → s' ≠ s → slot_key s' v ≠ slot_key s v.
Proof.
  intros Hr. destruct (ko_refs _ Hkeys _ _ Hr) as [Hs _]. pose proof (ko_version _ Hkeys) as Hver.
  assert (is_u64 v) as Hu by (unfold is_u64; lia). split; [split; [done|by apply (slot_key_spec s s v v)]|]. split.
  - intros s'. apply new_version_fresh; [done..|lia|done].
  - intros s' k' (Hs' & _)%(ko_refs _ Hkeys) Hne Heq. by destruct (proj2 (slot_key_spec s' s v v Hs' Hs Hu Hu) Heq).
Qed.

Lemma kept_insert o' s k blob : kept o' → references m s k → kept (<[slot_key s v := blob]> o').
Proof.
  intros Hk Hr k' Hk'. destruct (fresh_key s k Hr) as ([_ Hm] & Hf & _). rewrite lookup_insert_ne; [by apply Hk|].
  destruct Hk' as [->|[s' Hs']]; [done|]. intros <-. by apply (Hf s').
Qed.

Lemma rotating_step D st o' s k blob blob' m2 valid :
  rotating D st o' → ¬ D s → references m s k → o !! k = Some blob → renamed m2 →
  references m2 s (slot_key s v) →
  (∀ s', s' ≠ s → (∀ k, references m2 s' k ↔ references (rt_manifest st) s' k) ∧ slot_frames m2 s' = slot_frames (rt_manifest st) s') →
  same_object old_key new_key (slot_aad s) (slot_frames m s) (slot_frames m2 s) blob blob' →
  rotating (λ s', D s' ∨ s' = s) {| rt_manifest := m2; rt_replaced := rt_replaced st ++ [k]; rt_validated := valid |}
    (<[slot_key s v := blob']> o').
Proof.
  intros Hro Hs Hr Ho Hm2 Hr2 Hrest Hsame. destruct (fresh_key s k Hr) as (_ & _ & Hother). split; cbn [rt_manifest rt_replaced].
  - by eapply kept_insert; [apply Hro|].
  - done.
  - intros s' [Hd | ->].
    + assert (s' ≠ s) as Hne by by intros ->. destruct (Hrest s' Hne) as [Href Hfr].
      destruct (ro_moved _ _ _ Hro s' Hd) as (k' & b & b' & Hk' & Hb & Hrk & Hb' & Hs').
      exists k', b, b'. split; [done|]. split; [done|]. split; [by apply Href|].
      rewrite lookup_insert_ne by (intros Heq; by eapply (Hother s' k')). split; [done|]. by rewrite Hfr.
    + exists k, blob, blob'. rewrite lookup_insert_eq. done.
  - intros s' Hn. assert (¬ D s' ∧ s' ≠ s) as [Hd Hne] by (split; intros ?; apply Hn; [by left|by right]).
    destruct (Hrest s' Hne) as [Href Hfr]. destruct (ro_rest _ _ _ Hro s' Hd) as [Href2 Hfr2].
    split; [|by rewrite Hfr]. intros k'. by rewrite Href.
  - intros k'. rewrite elem_of_app, list_elem_of_singleton. intros [Hk| ->]; [by eapply ro_replaced|by exists s].
Qed.

Lemma rotating_iff D D' st o' : rotating D st o' → (∀ s, D s ↔ D' s) → rotating D' st o'.
Proof.
  intros [Hk Hs Hm Hr Hre] Hd. split; [done|done| | |done].
  - intros s Hs'. by apply Hm, Hd.
  - intros s Hs'. apply Hr. by intros ?%Hd.
Qed.

Lemma ends_fetch s k b :
  kept (objects b) → references m s k → ends (fetch k) (λ blob o', o' = objects b ∧ o !! k = Some blob) b.
Proof.
  intros Hk Hr. pose proof (Hk k (or_intror (ex_intro _ s Hr))) as Hsame. unfold fetch. eapply ends_bind; [by apply ends_get|].
  intros r b' [Ho ->]. rewrite Ho, Hsame. apply ends_lift; cbn beta.
  - intros blob Hb%ok_or_Ok. by rewrite Ho.
  - by rewrite Ho.
  - intros HL. destruct (rb_objects HL s k Hr) as (blob & -> & _). by exists blob.
Qed.

(** A loop that does not fail. *)
Lemma fold_io_total {A C} (f : A → C → io A) l acc :
  (∀ acc x, x ∈ l → ∃ acc', f acc x = Ok acc') → ∃ r, fold_io f acc l = Ok r.
Proof.
  revert acc. induction l as [|x l IH]; intros acc Hf; [by exists acc|]. cbn.
  destruct (Hf acc x) as [a Ha]; [by left|]. rewrite Ha. cbn. apply IH. intros a' y Hy. apply Hf. by right.
Qed.

Lemma reencrypt_opens nonce aad c : opens aad c → Z.of_nat (length aad) < 2 ^ 8 → ∃ out, reencrypt old_key new_key nonce c aad = Ok out.
Proof.
  intros (x & d & Hx & _) Haad. unfold reencrypt, maybe_decrypt, decrypt_if_needed in *. rewrite Hx. cbn [mbind outcome_bind].
  unfold maybe_encrypt. destruct new_key as [k|]; [|by eexists]. unfold encrypt_gcm_random_nonce.
  destruct (fl_seal_total k nonce aad x Haad) as [sealed ->]. by eexists.
Qed.

Lemma rotate_blob_opens gid k blob :
  (frames_of m gid = [] → opens (aad_page_group gid) blob) →
  Forall (λ e, ∃ c, slice (fe_offset e) (fe_offset e + fe_len e) blob = Some c ∧ opens (aad_page_group gid) c) (frames_of m gid) →
  ∃ r, rotate_blob rnd old_key new_key (frames_of m gid) gid k blob = Ok r.
Proof.
  intros Hwhole Hframes. unfold rotate_blob. destruct (frames_of m gid) as [|e l].
  - destruct (reencrypt_opens (rnd k 0) _ _ (Hwhole eq_refl) (aad_page_group_short gid)) as [out ->]. by eexists.
  - apply fold_io_total. intros acc x Hx. rewrite Forall_forall in Hframes. destruct (Hframes x Hx) as (c & Hc & Hop).
    unfold rotate_frame, frame_slice. rewrite Hc. cbn [or_panic mbind outcome_bind].
    destruct (reencrypt_opens (rnd k (Z.of_nat (length acc.2))) _ _ Hop (aad_page_group_short gid)) as [out ->]. by eexists.
Qed.

Lemma validate_opens gid blob :
  old_key ≠ None → (frames_of m gid = [] → opens (aad_page_group gid) blob) →
  Forall (λ e, ∃ c, slice (fe_offset e) (fe_offset e + fe_len e) blob = Some c ∧ opens (aad_page_group gid) c) (frames_of m gid) →
  validate_old_key old_key (frames_of m gid) gid blob = Ok ().
Proof.
  intros Hk Hwhole Hframes. unfold validate_old_key, frame_slice. destruct old_key as [k|] eqn:Hkey; [|done].
  assert (∀ c, opens (aad_page_group gid) c → ∃ x, decrypt_gcm_random_nonce c (aad_page_group gid) k = Ok x) as Hdec
    by (intros c (x & d & Hx & _); rewrite Hkey in Hx; by exists x).
  destruct (frames_of m gid) as [|e l]; cbn [mbind outcome_bind or_panic].
  - by destruct (Hdec _ (Hwhole eq_refl)) as [x ->].
  - apply Forall_cons in Hframes as [(c & -> & Hop) _]. cbn [mbind outcome_bind or_panic]. by destruct (Hdec _ Hop) as [x ->].
Qed.

Lemma renamed_version m' : renamed m' → version m' = v.
Proof. by intros (ks & fts & ic & xc & _ & _ & ->). Qed.

Lemma frames_of_cons gid e l : frames_of m gid = e :: l → 0 ≤ gid < Z.of_nat (length (frame_tables m)).
Proof.
  unfold frames_of. destruct (at_index (frame_tables m) gid) as [x|] eqn:Hx; [|done]. intros _.
  apply at_index_Some in Hx as [Hg Hx]. apply lookup_lt_Some in Hx. lia.
Qed.

Lemma set_group_spec m' gid k0 k fs :
  renamed m' → (gid, k0) ∈ enumerate (page_group_keys m) → k ≠ ""%string → (fs ≠ [] → frames_of m gid ≠ []) →
  renamed (set_group gid k fs m') ∧ references (set_group gid k fs m') (PageGroup gid) k ∧
  frames_of (set_group gid k fs m') gid = (if decide (fs = []) then frames_of m' gid else fs) ∧
  ∀ s', s' ≠ PageGroup gid →
    (∀ k', references (set_group gid k fs m') s' k' ↔ references m' s' k') ∧ slot_frames (set_group gid k fs m') s' = slot_frames m' s'.
Proof.
  intros (ks & fts & ic & xc & Hks & Hfts & ->) [Hg Hgid]%elem_of_enumerate Hk Hfs. apply lookup_lt_Some in Hgid.
  assert (∀ j, at_index (<[Z.to_nat gid := k]> ks) j = if decide (gid = j) then Some k else at_index ks j) as Hat.
  { intros j. rewrite at_index_insert by done. destruct (decide (gid = j)); [by rewrite decide_True by lia|by rewrite decide_False by lia]. }
  assert (∀ j, fs ≠ [] → at_index (<[Z.to_nat gid := fs]> fts) j = if decide (gid = j) then Some fs else at_index fts j) as Haf.
  { intros j Hne. rewrite at_index_insert by done. destruct (frames_of m gid) as [|e l] eqn:He; [by destruct (Hfs Hne)|].
    apply frames_of_cons in He. destruct (decide (gid = j)); [by rewrite decide_True by lia|by rewrite decide_False by lia]. }
  unfold set_group. split; [|split; [|split]].
  - case_bool_decide as Hd.
    + exists (<[Z.to_nat gid := k]> ks), fts, ic, xc. by rewrite length_insert.
    + exists (<[Z.to_nat gid := k]> ks), (<[Z.to_nat gid := fs]> fts), ic, xc. by rewrite !length_insert.
  - assert (key_at (<[Z.to_nat gid := k]> ks) gid = Some k) as Hr
      by (unfold key_at; rewrite Hat, decide_True by done; by destruct k). by case_bool_decide.
  - case_bool_decide as Hd; [by rewrite decide_True|]. rewrite decide_False by done. unfold frames_of. cbn.
    by rewrite Haf, decide_True by done.
  - intros s' Hs'. assert (∀ j, j ≠ gid → key_at (<[Z.to_nat gid := k]> ks) j = key_at ks j) as Hother
      by (intros j Hj; unfold key_at; by rewrite Hat, decide_False by done).
    assert (∀ j, fs ≠ [] → j ≠ gid → at_index (<[Z.to_nat gid := fs]> fts) j = at_index fts j) as Hotherf
      by (intros j Hne Hj; by rewrite Haf, decide_False by done).
    destruct s' as [j| | |]; [|by case_bool_decide..]. assert (j ≠ gid) as Hj by congruence.
    specialize (Hother j Hj). case_bool_decide as Hd; cbn; unfold group_key, frames_of; cbn; rewrite Hother; [done|].
    by rewrite Hotherf.
Qed.

(** Groups *)
Lemma ends_rotate_group D st gid k b :
  (gid, k) ∈ enumerate (page_group_keys m) → ¬ D (PageGroup gid) → rotating D st (objects b) →
  (old_key = None → rt_validated st = true) →
  ends (rotate_group rnd old_key new_key m st (gid, k))
    (λ st' o', rotating (λ s, D s ∨ (s = PageGroup gid ∧ k ≠ ""%string)) st' o' ∧ (old_key = None → rt_validated st' = true)) b.
Proof.
  intros Hin Hd Hro Hval. unfold rotate_group. case_bool_decide as Hk.
  { apply ends_ret. split; [|done]. eapply rotating_iff; [done|]. naive_solver. }
  assert (references m (PageGroup gid) k) as Hr.
  { apply elem_of_enumerate in Hin as [Hg Hin]. cbn. unfold group_key, key_at.
    rewrite (proj2 (at_index_Some _ _ _) (conj Hg Hin)). by destruct k. }
  pose proof (ro_kept _ _ _ Hro) as Hkept. destruct (ko_refs _ Hkeys _ _ Hr) as [Hslot _].
  destruct (fresh_key _ _ Hr) as ([_ Hnm] & Hfresh & _).
  eapply ends_bind; [by eapply ends_fetch|]. intros blob b1 [Ho1 Hblob]. cbn beta in Ho1.
  eapply (ends_bind _ _ _ _ (λ _ o', o' = objects b)).
  { apply ends_lift; [done|by rewrite Ho1|]. intros HL. destruct (rt_validated st); [by eexists|]. exists ().
    destruct (rb_objects HL _ _ Hr) as (blob2 & Hb2 & Hw & Hf). assert (blob2 = blob) as -> by congruence.
    apply validate_opens; [|done..]. intros Hnone. by discriminate (Hval Hnone). }
  intros _ b2 Ho2. cbn beta in Ho2. rewrite (renamed_version _ (ro_shape _ _ _ Hro)).
  eapply (ends_bind _ _ _ _ (λ r o', o' = objects b ∧ rotate_blob rnd old_key new_key (frames_of m gid) gid (page_group_key gid v) blob = Ok r)).
  { apply ends_lift; [done|by rewrite Ho2|]. intros HL. destruct (rb_objects HL _ _ Hr) as (blob2 & Hb2 & Hw & Hf).
    assert (blob2 = blob) as -> by congruence. by apply rotate_blob_opens. }
  intros [nb fs] b3 [Ho3 Hrot]. cbn beta in Ho3.
  pose proof (rotate_blob_same old_key new_key open_shrinks _ _ _ _ _ Hrot (Hlens gid)) as Hsame. cbn [fst snd] in Hsame.
  eapply ends_bind; [apply ends_put|].
  - by rewrite Ho3.
  - intros o2 Hother k' Hk'. rewrite Hother, Ho3; [by apply Hkept|].
    destruct Hk' as [->|[s Hs]]; [exact (not_eq_sym Hnm)|]. intros ->. by apply (Hfresh s).
  - intros [] b4 Ho4. cbn beta in Ho4. apply ends_ret. rewrite Ho4, Ho3. split; [|done].
    assert (frames_of m gid = [] ↔ fs = []) as Hnil.
    { destruct Hsame as [Hall _]. split; intros Hx; rewrite Hx in Hall; by inversion Hall. }
    destruct (set_group_spec (rt_manifest st) gid k (page_group_key gid v) fs) as (Hren & Href & Hfr & Hrest);
      [by apply Hro|done|done|naive_solver|].
    eapply rotating_iff; [apply (rotating_step D st (objects b) (PageGroup gid) k blob nb)|]; try done.
    + cbn [slot_aad slot_frames]. rewrite Hfr. destruct (decide (fs = [])) as [->|Hne]; [|done].
      destruct (ro_rest _ _ _ Hro _ Hd) as [_ Hfr2]. cbn in Hfr2. rewrite Hfr2. by rewrite (proj2 Hnil eq_refl) in Hsame |- *.
    + naive_solver.
Qed.

(** Bundles of one kind *)
Section bundles.
Context (slot_of : Z → Slot) (key_of : Z → Z → string) (aad_of : Z → bytes) (set_key : Z → string → Manifest → Manifest).
Context (Hkey : ∀ id, slot_key (slot_of id) v = key_of id v) (Haad : ∀ id, slot_aad (slot_of id) = aad_of id).
Context (Hwhole : ∀ m' id, slot_frames m' (slot_of id) = []) (Hinj : ∀ i j, slot_of i = slot_of j → i = j).
Context (Hset : ∀ m' id k, renamed m' → renamed (set_key id k m') ∧ references (set_key id k m') (slot_of id) k ∧
  ∀ s', s' ≠ slot_of id → (∀ k', references (set_key id k m') s' k' ↔ references m' s' k') ∧
    slot_frames (set_key id k m') s' = slot_frames m' s').

Lemma ends_rotate_bundle D st id k b :
  references m (slot_of id) k → ¬ D (slot_of id) → rotating D st (objects b) →
  ends (rotate_bundle rnd old_key new_key key_of aad_of set_key st (id, k)) (rotating (λ s, D s ∨ s = slot_of id)) b.
Proof.
  intros Hr Hd Hro. unfold rotate_bundle. pose proof (ro_kept _ _ _ Hro) as Hkept.
  destruct (fresh_key _ _ Hr) as ([_ Hnm] & Hfresh & _).
  eapply ends_bind; [by eapply ends_fetch|]. intros blob b1 [Ho1 Hblob]. cbn beta in Ho1.
  rewrite (renamed_version _ (ro_shape _ _ _ Hro)), <-Hkey, <-Haad.
  eapply (ends_bind _ _ _ _ (λ out o', o' = objects b ∧
    reencrypt old_key new_key (rnd (slot_key (slot_of id) v) 0) blob (slot_aad (slot_of id)) = Ok out)).
  { apply ends_lift; [done|by rewrite Ho1|]. intros HL. destruct (rb_objects HL _ _ Hr) as (blob2 & Hb2 & Hw & _).
    assert (blob2 = blob) as -> by congruence. apply reencrypt_opens; [by apply Hw|apply slot_aad_short]. }
  intros out b2 [Ho2 Hre]. cbn beta in Ho2.
  destruct (reencrypt_same old_key new_key open_shrinks _ _ _ _ _ Hre (slot_aad_short _)) as [Hsame _].
  eapply ends_bind; [apply ends_put|].
  - by rewrite Ho2.
  - intros o2 Hother k' Hk'. rewrite Hother, Ho2; [by apply Hkept|].
    destruct Hk' as [->|[s Hs]]; [exact (not_eq_sym Hnm)|]. intros ->. by apply (Hfresh s).
  - intros [] b4 Ho4. cbn beta in Ho4. apply ends_ret. rewrite Ho4, Ho2.
    destruct (Hset (rt_manifest st) id (slot_key (slot_of id) v)) as (Hren & Href & Hrest); [by apply Hro|].
    apply (rotating_step D st (objects b) (slot_of id) k blob out); try done. rewrite !Hwhole. by split; [constructor|].
Qed.

Lemma ends_rotate_bundles D st (refs : gmap Z string) b :
  (∀ id k, refs !! id = Some k → references m (slot_of id) k) → (∀ id, ¬ D (slot_of id)) → rotating D st (objects b) →
  ends (fold_remote (rotate_bundle rnd old_key new_key key_of aad_of set_key) st (hiter refs))
    (rotating (λ s, D s ∨ ∃ id, s = slot_of id ∧ is_Some (refs !! id))) b.
Proof.
  intros Hrefs Hd Hro.
  set (I := λ (l : list (Z * string)), rotating (λ s, D s ∨ ∃ id, s = slot_of id ∧ id ∈ l.*1)).
  eapply ends_mono; [apply (ends_fold _ _ _ I (hiter refs) [] st b)|].
  - intros l [id k] l2 a b' Hl Ha. cbn [app] in Ha |- *. unfold I in *.
    assert (refs !! id = Some k) as Hid by (apply elem_of_hiter; rewrite Hl; apply elem_of_app; right; by left).
    pose proof (NoDup_hiter refs) as Hnd. rewrite Hl, fmap_app, fmap_cons in Hnd.
    apply NoDup_app in Hnd as (_ & Hnd & _).
    eapply ends_mono; [eapply (ends_rotate_bundle (λ s, D s ∨ ∃ j, s = slot_of j ∧ j ∈ l.*1) a id k b'); [by apply Hrefs| |exact Ha]|].
    + intros [Hx|(j & ->%Hinj & Hj)]; [by apply (Hd id)|]. apply (Hnd j Hj). by left.
    + intros st' o' Hst'. eapply rotating_iff; [exact Hst'|]. intros s. rewrite fmap_app. cbn.
      setoid_rewrite elem_of_app. setoid_rewrite list_elem_of_singleton. naive_solver.
  - unfold I. eapply rotating_iff; [done|]. intros s. cbn. setoid_rewrite elem_of_nil. naive_solver.
  - intros st' o' Hst'. unfold I in Hst'. eapply rotating_iff; [exact Hst'|]. intros s. cbn [app].
    assert (∀ id, id ∈ (hiter refs).*1 ↔ is_Some (refs !! id)) as Hiff; [|by setoid_rewrite Hiff].
    intros id. rewrite list_elem_of_fmap. split.
    + intros ([i k] & -> & Hi%elem_of_hiter). by exists k.
    + intros [k Hk%elem_of_hiter]. by exists (id, k).
Qed.
End bundles.

Lemma enumerate_fst {A} (l : list A) : NoDup (enumerate l).*1.
Proof.
  unfold enumerate. rewrite fst_zip by (rewrite length_range; lia). apply NoDup_seqZ.
Qed.

Lemma ends_rotate_groups st b :
  rotating (λ _, False) st (objects b) → (old_key = None → rt_validated st = true) →
  ends (fold_remote (rotate_group rnd old_key new_key m) st (enumerate (page_group_keys m)))
    (rotating (λ s, ∃ gid k, s = PageGroup gid ∧ group_key m gid = Some k)) b.
Proof.
  intros Hro Hval.
  set (D := λ (l : list (Z * string)) s, ∃ gid k, s = PageGroup gid ∧ (gid, k) ∈ l ∧ k ≠ ""%string).
  set (I := λ l st' o', rotating (D l) st' o' ∧ (old_key = None → rt_validated st' = true)).
  eapply ends_mono; [apply (ends_fold _ _ _ I (enumerate (page_group_keys m)) [] st b)|].
  - intros l [gid k] l2 a b' Hl [Ha Hva]. cbn [app] in Ha |- *.
    pose proof (enumerate_fst (page_group_keys m)) as Hnd. rewrite Hl, fmap_app, fmap_cons in Hnd.
    apply NoDup_app in Hnd as (_ & Hnd & _).
    eapply ends_mono; [apply (ends_rotate_group (D l) a gid k b'); [rewrite Hl; apply elem_of_app; right; by left| |done..]|].
    + intros (j & k' & [= <-] & Hin & _). apply (Hnd gid); [|by left]. apply list_elem_of_fmap. by exists (gid, k').
    + intros st' o' [Hst' ?]. split; [|done]. eapply rotating_iff; [exact Hst'|]. intros s. unfold D.
      setoid_rewrite elem_of_app. setoid_rewrite list_elem_of_singleton. naive_solver.
  - split; [|done]. eapply rotating_iff; [done|]. intros s. unfold D. cbn. setoid_rewrite elem_of_nil. naive_solver.
  - intros st' o' [Hst' _]. eapply rotating_iff; [exact Hst'|]. intros s. unfold D. cbn [app].
    assert (∀ gid k, ((gid, k) ∈ enumerate (page_group_keys m) ∧ k ≠ ""%string) ↔ group_key m gid = Some k) as Hiff; [|by setoid_rewrite Hiff].
    intros gid k. rewrite elem_of_enumerate, <-at_index_Some. unfold group_key, key_at.
    destruct (at_index _ gid) as [[|c k']|]; naive_solver.
Qed.

(* ------------------------------------------------------------------ *)
(** * Up to the commit *)

Definition referenced (s : Slot) : Prop := ∃ k, references m s k.

Lemma referenced_em s : referenced s ∨ ¬ referenced s.
Proof.
  unfold referenced. destruct s as [g|i|i|g f]; cbn [references].
  - destruct (group_key m g); [left; by eexists|right; by intros [? [=]]].
  - destruct (interior_chunk_keys m !! i); [left; by eexists|right; by intros [? [=]]].
  - destruct (index_chunk_keys m !! i); [left; by eexists|right; by intros [? [=]]].
  - right. intros (k & ovr & Ho & _). by rewrite Hno in Ho.
Qed.

Lemma references_fun m' s k k' : references m' s k → references m' s k' → k = k'.
Proof. destruct s; cbn; [congruence..|]. intros (o1 & H1' & ->) (o2 & H2' & ->). congruence. Qed.

(** A slot of the new manifest is one of the old one, moved. *)
Lemma rotated_ref st o' s k :
  rotating referenced st o' → references (rt_manifest st) s k → k = slot_key s v ∧ moved (rt_manifest st) o' s.
Proof.
  intros Hro Hr. destruct (referenced_em s) as [Hs|Hs].
  - pose proof (ro_moved _ _ _ Hro s Hs) as Hm. split; [|done].
    destruct Hm as (_ & _ & _ & _ & _ & Hr' & _). by eapply references_fun.
  - exfalso. apply Hs. exists k. by apply (proj1 (ro_rest _ _ _ Hro s Hs)).
Qed.

Lemma opens_same aad c c' : opens aad c → same_plain old_key new_key aad c c' →
  ∃ x d, decrypt_if_needed c' aad new_key = Ok x ∧ @decompress plain x = Ok d.
Proof. intros (x & d & Hx & Hd) (y & Hy & Hn). exists x, d. split; [congruence|done]. Qed.

Lemma verify_moved st o' gid blob' :
  rotatable → rotating referenced st o' → references (rt_manifest st) (PageGroup gid) (page_group_key gid v) →
  o' !! page_group_key gid v = Some blob' → verify_blob plain new_key (rt_manifest st) gid blob' = Ok ().
Proof.
  intros HL Hro Hr Hb'. destruct (rotated_ref _ _ _ _ Hro Hr) as [_ (k & blob & b' & Hk & Hb & _ & Hb2 & Hsame & Hwhole)].
  cbn [slot_key] in Hb2. assert (b' = blob') as -> by congruence.
  destruct (rb_objects HL _ _ Hk) as (blob2 & Hb3 & Hw & Hf). assert (blob2 = blob) as -> by congruence.
  cbn [slot_aad slot_frames] in *. unfold verify_blob, verify_piece, frame_slice.
  destruct Hsame as [|e e' l l' (c & c' & Hc & Hc' & Hs) _].
  - destruct (opens_same _ _ _ (Hw eq_refl) (Hwhole eq_refl)) as (x & d & -> & Hd). cbn [mbind outcome_bind]. by rewrite Hd.
  - apply Forall_cons in Hf as [(c2 & Hc2 & Hop) _]. assert (c2 = c) as -> by congruence.
    destruct (opens_same _ _ _ Hop Hs) as (x & d & Hx & Hd). pose proof (proj1 (slice_Some _ _ _ _) Hc') as (_ & Hlen & _).
    destruct (Z.ltb_spec (Z.of_nat (length blob')) (fe_offset e' + fe_len e')); [lia|].
    cbn [guard_err mbind outcome_bind]. rewrite Hc'. cbn [or_panic mbind outcome_bind]. rewrite Hx. cbn [mbind outcome_bind]. by rewrite Hd.
Qed.

Lemma ends_verify st b :
  rotating referenced st (objects b) → ends (verify plain new_key (rt_manifest st)) (λ _ o', o' = objects b) b.
Proof.
  intros Hro. unfold verify. destruct (list_find _ _) as [[gid k]|] eqn:Hfind; [|by apply ends_ret].
  apply list_find_Some in Hfind as (Hk & Hne & _).
  assert (references (rt_manifest st) (PageGroup (Z.of_nat gid)) k) as Hr
    by (cbn; unfold group_key, key_at; rewrite lookup_at_index, Hk; by destruct k).
  destruct (rotated_ref _ _ _ _ Hro Hr) as [-> Hm]. destruct Hm as (k0 & blob & blob' & _ & _ & _ & Hb' & _). cbn [slot_key] in *.
  pose proof (ro_kept _ _ _ Hro) as Hkept.
  eapply ends_bind; [by apply ends_get|]. intros r b1 [Ho1 ->]. cbn beta. rewrite Ho1, Hb'.
  eapply (ends_bind _ _ _ _ (λ blob o', o' = objects b ∧ blob = blob')).
  { apply ends_lift; [|by rewrite Ho1|by eexists]. by intros a [= <-]. }
  intros bl b2 [Ho2 ->]. apply ends_lift; [done|by rewrite Ho2|].
  intros HL. exists (). by apply (verify_moved st (objects b)).
Qed.

Lemma set_interior_spec m' id k : renamed m' →
  renamed (set_interior id k m') ∧ references (set_interior id k m') (InteriorBundle id) k ∧
  ∀ s', s' ≠ InteriorBundle id →
    (∀ k', references (set_interior id k m') s' k' ↔ references m' s' k') ∧ slot_frames (set_interior id k m') s' = slot_frames m' s'.
Proof.
  intros (ks & fts & ic & xc & Hks & Hfts & ->). unfold set_interior. split; [by exists ks, fts, (<[id:=k]> ic), xc|].
  split; [cbn; by rewrite lookup_insert_eq|]. intros [g|i|i|g f] Hne; [done| |done..]. split; [|done]. intros k'. cbn.
  by rewrite lookup_insert_ne by congruence.
Qed.

Lemma set_index_spec m' id k : renamed m' →
  renamed (set_index id k m') ∧ references (set_index id k m') (IndexBundle id) k ∧
  ∀ s', s' ≠ IndexBundle id →
    (∀ k', references (set_index id k m') s' k' ↔ references m' s' k') ∧ slot_frames (set_index id k m') s' = slot_frames m' s'.
Proof.
  intros (ks & fts & ic & xc & Hks & Hfts & ->). unfold set_index. split; [by exists ks, fts, ic, (<[id:=k]> xc)|].
  split; [cbn; by rewrite lookup_insert_eq|]. intros [g|i|i|g f] Hne; [done..| |done]. split; [|done]. intros k'. cbn.
  by rewrite lookup_insert_ne by congruence.
Qed.

Lemma ends_rotate_objects b :
  objects b = o → stored_manifest decode_manifest o = Ok (Some m) →
  ends (rotate_objects plain rnd decode_manifest old_key new_key) (rotating referenced) b.
Proof.
  intros Ho Hm. assert (kept o) as Hkept by done. unfold rotate_objects.
  eapply (ends_bind _ _ _ _ (λ _ o', o' = o)).
  { apply ends_lift; [done|by rewrite Ho|]. intros [Hne _ _]. rewrite bool_decide_eq_false_2 by (intros [-> ->]; done). by eexists. }
  intros _ b1 Ho1. eapply (ends_bind _ _ _ _ (λ _ o', o' = o)).
  { apply ends_lift; [done|by rewrite Ho1|]. intros [Hne _ _]. rewrite bool_decide_eq_false_2 by done. by eexists. }
  intros _ b2 Ho2. eapply (ends_bind _ _ _ _ (λ r o', o' = o ∧ r = Some m)).
  { eapply ends_mono; [apply (ends_get_manifest _ _ decode_manifest m)|]; by rewrite Ho2. }
  intros r b3 [Ho3 ->]. eapply (ends_bind _ _ _ _ (λ m' o', o' = o ∧ m' = m)).
  { apply ends_lift; [|by rewrite Ho3|by eexists]. by intros m' [= <-]. }
  intros m' b4 [Ho4 ->]. pose proof (ko_version _ Hkeys). rewrite wrap64_id by (unfold is_u64; lia).
  eapply ends_bind.
  { apply ends_rotate_groups; [|by intros Hn; apply bool_decide_eq_true_2].
    rewrite Ho4. split; cbn [rt_manifest rt_replaced]; [done| |done|done|by intros k ?%elem_of_nil].
    by exists (page_group_keys m), (frame_tables m), (interior_chunk_keys m), (index_chunk_keys m). }
  intros st5 b5 H5. eapply ends_bind.
  { apply (ends_rotate_bundles InteriorBundle) with (refs := interior_chunk_keys m); try done.
    - by intros i j [=].
    - intros; by apply set_interior_spec.
    - by intros id (gid & k & [=] & _). }
  intros st6 b6 H6. eapply ends_bind.
  { apply (ends_rotate_bundles IndexBundle) with (refs := index_chunk_keys m); try done.
    - by intros i j [=].
    - intros; by apply set_index_spec.
    - intros id [(gid & k & [=] & _)|(i & [=] & _)]. }
  intros st7 b7 H7. assert (rotating referenced st7 (objects b7)) as H7'.
  { eapply rotating_iff; [exact H7|]. intros s. unfold referenced. split.
    - intros [[(gid & k & -> & Hk)|(id & -> & k & Hk)]|(id & -> & k & Hk)]; by exists k.
    - intros [k Hk]. destruct s as [g|i|i|g f]; cbn in Hk.
      + left. left. by exists g, k.
      + left. right. exists i. split; [done|by exists k].
      + right. exists i. split; [done|by exists k].
      + destruct Hk as (ovr & Hovr & _). by rewrite Hno in Hovr. }
  eapply ends_bind; [by apply ends_verify|]. intros [] b8 Ho8. cbn beta in Ho8. apply ends_ret. by rewrite Ho8.
Qed.
(* ------------------------------------------------------------------ *)
(** * Reading after the commit *)

Context (Hframes : ∀ gid, frames_of m gid ≠ [] → 0 < Manifest.sub_pages_per_frame m).

Lemma group_frames_of m' gid :
  group_frames m' gid =
  match frames_of m' gid with e :: ft => if 0 <? Manifest.sub_pages_per_frame m' then Some (e :: ft) else None | [] => None end.
Proof. unfold group_frames, frames_of. by destruct (at_index (frame_tables m') gid) as [[|]|]. Qed.

Lemma at_index_same {A C} (R : A → C → Prop) l l' j : Forall2 R l l' → option_Forall2 R (at_index l j) (at_index l' j).
Proof. intros Hl. unfold at_index. destruct (j <? 0); [constructor|by apply Forall2_lookup]. Qed.

Lemma rotated_slot st o' gid i :
  rotating referenced st o' → cold_slot new_key (rt_manifest st) o' gid i = cold_slot old_key m o gid i.
Proof.
  intros Hro. destruct (ro_shape _ _ _ Hro) as (ks & fts & ic & xc & _ & _ & Hm').
  assert (Manifest.page_size (rt_manifest st) = Manifest.page_size m) as Hps by by rewrite Hm'.
  assert (Manifest.sub_pages_per_frame (rt_manifest st) = Manifest.sub_pages_per_frame m) as Hspf by by rewrite Hm'.
  assert (∀ f, override_of (rt_manifest st) gid f = None) as Hno' by (intros f; rewrite Hm'; apply Hno).
  unfold cold_slot, cold_frame, base_frame. rewrite !group_frames_of, Hps, Hspf, !Hno, !Hno'.
  destruct (referenced_em (PageGroup gid)) as [Hs|Hs].
  - destruct (ro_moved _ _ _ Hro _ Hs) as (k & blob & blob' & Hk & Hb & Hk' & Hb' & Hall & Hwhole).
    cbn [references slot_frames slot_aad slot_key] in *. rewrite Hk, Hk'. cbn [mbind option_bind]. rewrite Hb, Hb'. cbn [mbind option_bind].
    pose proof (Hframes gid) as Hpos. revert Hpos Hwhole. destruct Hall as [|e e' l l' He Hl]; intros Hpos Hwhole.
    { by rewrite (same_bulk old_key new_key _ _ _ (Hwhole eq_refl)). }
    destruct (Z.ltb_spec 0 (Manifest.sub_pages_per_frame m)); [|by specialize (Hpos ltac:(done)); lia].
    pose proof (at_index_same _ _ _ (i / Manifest.sub_pages_per_frame m) (List.Forall2_cons _ _ He Hl)) as Hat.
    destruct Hat as [x x' (c & c' & Hc & Hc' & Hsame)|]; [|done]. cbn [mbind option_bind]. rewrite Hc, Hc'. cbn [mbind option_bind].
    by rewrite (same_subchunk old_key new_key _ _ _ Hsame).
  - assert (group_key m gid = None) as Hk.
    { destruct (group_key m gid) as [k|] eqn:Hk; [|done]. destruct Hs. by exists k. }
    destruct (ro_rest _ _ _ Hro _ Hs) as [Href Hfr]. cbn [references slot_frames] in Href, Hfr.
    assert (group_key (rt_manifest st) gid = None) as Hk'.
    { destruct (group_key (rt_manifest st) gid) as [k|] eqn:Hk'; [|done]. by rewrite (proj1 (Href k) eq_refl) in Hk. }
    rewrite Hfr, Hk, Hk'. by destruct (frames_of m gid).
Qed.

Lemma rotated_keys st o' : rotating referenced st o' → keys_ok (rt_manifest st).
Proof.
  intros Hro. pose proof (ko_version _ Hkeys). split; rewrite (renamed_version _ (ro_shape _ _ _ Hro)); [lia|].
  intros s k Hr. destruct (rotated_ref _ _ _ _ Hro Hr) as [-> (k0 & _ & _ & Hk0 & _)].
  split; [apply (ko_refs _ Hkeys _ _ Hk0)|]. exists v. split; [lia|done].
Qed.

(** Deleting what was replaced, and publishing, leave the new objects alone. *)
Lemma rotated_read st o1 o2 p :
  rotating referenced st o1 → (∀ k, k ≠ MANIFEST_KEY → k ∉ rt_replaced st → o2 !! k = o1 !! k) →
  page_location (rt_manifest st) p = page_location m p ∧ cold_page new_key (rt_manifest st) o2 p = cold_page old_key m o p.
Proof.
  intros Hro Ho. pose proof (rotated_keys _ _ Hro) as Hk'. destruct (ro_shape _ _ _ Hro) as (ks & fts & ic & xc & _ & _ & Hm').
  assert (page_location (rt_manifest st) p = page_location m p) as Hloc by by rewrite Hm'. split; [done|].
  rewrite (cold_page_objects new_key (rt_manifest st) o1 o2).
  - unfold cold_page. rewrite Hloc. destruct (page_location m p) as [loc|]; [|done]. by apply rotated_slot.
  - intros s k Hr. apply Ho; [intros ->; by apply (references_not_manifest _ s Hk')|].
    intros [s' Hs']%(ro_replaced _ _ _ Hro). destruct (rotated_ref _ _ _ _ Hro Hr) as [-> (k0 & _ & _ & Hk0 & _)].
    by apply (proj1 (proj2 (fresh_key s k0 Hk0)) s').
Qed.

(** The bundles of a kind hold what they held. *)
Definition same_bundles (slot_of : Z → Slot) (m' : Manifest) (o' : gmap string bytes) : Prop :=
  ∀ id k, references m (slot_of id) k → ∃ k' c c', references m' (slot_of id) k' ∧ o !! k = Some c ∧ o' !! k' = Some c' ∧
    decode_interior_bundle c' (slot_aad (slot_of id)) new_key = decode_interior_bundle c (slot_aad (slot_of id)) old_key.

Lemma rotated_bundles slot_of st o1 o2 :
  (∀ m' id, slot_frames m' (slot_of id) = []) →
  rotating referenced st o1 → (∀ k, k ≠ MANIFEST_KEY → k ∉ rt_replaced st → o2 !! k = o1 !! k) →
  same_bundles slot_of (rt_manifest st) o2.
Proof.
  intros Hw Hro Ho id k Hk. destruct (ro_moved _ _ _ Hro _ (ex_intro _ k Hk)) as (k0 & c & c' & Hk0 & Hc & Hr & Hc' & _ & Hsame).
  assert (k0 = k) as -> by by eapply references_fun. exists (slot_key (slot_of id) v), c, c'. split; [done|]. split; [done|].
  destruct (fresh_key _ _ Hk) as ([_ Hnm] & Hf & _). split.
  - rewrite Ho; [done..|]. intros [s Hs]%(ro_replaced _ _ _ Hro). by apply (Hf s).
  - apply same_bundle, Hsame, Hw.
Qed.

(** The state of storage under the new key. *)
Record rotated_to (m' : Manifest) (o' : gmap string bytes) : Prop := {
  rd_version : version m' = v;
  rd_keys : keys_ok m';
  rd_published : ∃ d, encode_manifest m' = Some d ∧ o' !! MANIFEST_KEY = Some d;
  rd_pages : ∀ p, page_location m' p = page_location m p ∧ cold_page new_key m' o' p = cold_page old_key m o p;
  rd_interior : same_bundles InteriorBundle m' o';
  rd_index : same_bundles IndexBundle m' o'
}.

Lemma rotated_committed st o1 o2 d :
  rotating referenced st o1 → encode_manifest (rt_manifest st) = Some d →
  (∀ k, k ∉ rt_replaced st → o2 !! k = <[MANIFEST_KEY := d]> o1 !! k) → rotated_to (rt_manifest st) o2.
Proof.
  intros Hro Hd Ho. assert (∀ k, k ≠ MANIFEST_KEY → k ∉ rt_replaced st → o2 !! k = o1 !! k) as Ho'
    by (intros k Hk Hn; by rewrite Ho, lookup_insert_ne).
  split.
  - by apply renamed_version, (ro_shape _ _ _ Hro).
  - by eapply rotated_keys.
  - exists d. split; [done|]. rewrite Ho; [by rewrite lookup_insert_eq|]. intros [s Hs]%(ro_replaced _ _ _ Hro).
    by apply (references_not_manifest _ s Hkeys).
  - intros p. by eapply rotated_read.
  - by eapply rotated_bundles.
  - by eapply rotated_bundles.
Qed.

Lemma commit_run st b r b' :
  rotating referenced st (objects b) → stored_manifest decode_manifest o = Ok (Some m) →
  commit_rotation encode_manifest decode_manifest st b = (r, b') →
  (r ≠ Panic) ∧
  (rotated_to (rt_manifest st) (objects b') ∨ (r ≠ Ok () ∧ kept (objects b') ∧ ¬ (rotatable ∧ reliable b))).
Proof.
  intros Hro Hm Hrun. unfold commit_rotation in Hrun. cbn [mbind Remote_bind] in Hrun.
  destruct (put_manifest_run encode_manifest decode_manifest (rt_manifest st) b) as (r1 & b1 & Hput & _ & Hc).
  unfold mbind, Remote_bind in Hrun. rewrite Hput in Hrun.
  assert (supersedes decode_manifest (rt_manifest st) (objects b)) as Hsup.
  { exists (Some m). split; [|intros m0 [= <-]; rewrite (renamed_version _ (ro_shape _ _ _ Hro)); lia].
    unfold stored_manifest in *. by rewrite (ro_kept _ _ _ Hro MANIFEST_KEY (or_introl eq_refl)). }
  destruct Hc as [(-> & _ & d & Hd & Ho1)|([e ->] & Ho1 & Hrel)].
  - destruct (delete_objects_run (rt_replaced st) b1) as (r2 & b2 & Hdel & Hnp & Ho2). rewrite Hdel in Hrun.
    assert (rotated_to (rt_manifest st) (objects b2)) as Hrot.
    { eapply rotated_committed; [exact Hro|exact Hd|]. intros k Hk. by rewrite Ho2, Ho1. }
    destruct r2 as [n|e|]; [|..|done]; injection Hrun as <- <-; by split; [|left].
  - injection Hrun as <- <-. split; [done|]. destruct Ho1 as [Ho1|(_ & _ & d & Hd & Ho1)].
    + right. split; [done|]. rewrite Ho1. split; [apply Hro|]. intros [HL Hb]. by apply (Hrel Hb); [apply HL|].
    + left. eapply rotated_committed; [exact Hro|exact Hd|]. intros k _. by rewrite Ho1.
Qed.
End rotating.

