(* ===== verification/RotationExamples.v ===== *)
(** A concrete rotation, and what a rotation gets wrong. *)

From stdpp Require Import strings.
From S2P Require Import Prelude Keys Wire Staging Manifest Backend ColdRead.
From S2P Require Import CacheTracking LocalState StateCodec Compress Encoding File DiskCache CacheView CacheWrite CacheSafety CacheReopen CacheExamples.
From S2P Require Import Vfs Compact Flush FlushPages FlushGroups FlushInv FlushBundles FlushManifest FlushRun FlushSafety FlushExamples.
From S2P Require Import Handle Programs HandleRead HandleSafety HandleExamples HandleWrite WriteSafety WriteExamples Open OpenSafety OpenExamples.
From S2P Require Import Rotation RotationSafety.

#[local] Existing Instance canonical_iter.

Definition rx_dir : CacheDir := {| dir_cache_file := [Byte.x01]; dir_state_file := None; dir_logs := ∅ |}.

(** Encryption is removed. *)
Definition rx_rotate (plain : Compression) (b : MemStore) : io () * CacheDir * MemStore :=
  rotate_encryption_key plain fx_rnd manifest_to_vec manifest_from_slice fx_key None (true, true) rx_dir b.

Lemma toy_open_shrinks (k : ()) (n aad c d : bytes) : gcm_decrypt k n aad c = Some d → (length d ≤ length c)%nat.
Proof.
  cbn. destruct (decide _); [|done]. unfold toy_open. destruct (decide _); [|done]. intros [= <-]. rewrite !length_drop. lia.
Qed.

Definition published (b : MemStore) : Manifest :=
  match stored_manifest manifest_from_slice (objects b) with Ok (Some m) => m | _ => empty_manifest end.

Lemma rx_stored : stored_manifest manifest_from_slice (objects ox_published) = Ok (Some fx_manifest).
Proof. vm_compute. reflexivity. Qed.

Lemma rx_refs s k : references fx_manifest s k →
  s = PageGroup 0 ∧ k = "p/d/0_v7"%string ∨ s = PageGroup 1 ∧ k = "p/d/1_v6"%string.
Proof.
  destruct s as [g|i|i|g f]; cbn [references].
  - change (group_key fx_manifest g) with (key_at ["p/d/0_v7"; "p/d/1_v6"]%string g). unfold key_at, at_index.
    destruct (Z.ltb_spec g 0); [done|]. destruct (Z.to_nat g) as [|[|n]] eqn:Hn; cbn; [| |done]; intros [= <-]; [left|right];
      (split; [f_equal; lia|done]).
  - change (interior_chunk_keys fx_manifest) with (∅ : gmap Z string). by intros ?%lookup_empty_Some.
  - change (index_chunk_keys fx_manifest) with (∅ : gmap Z string). by intros ?%lookup_empty_Some.
  - intros (ovr & Ho & _). by rewrite fx_no_override in Ho.
Qed.

Lemma rx_frames gid : frames_of fx_manifest gid = if decide (gid = 0) then fx_object0.2 else [].
Proof.
  change (frame_tables fx_manifest) with [fx_object0.2]. unfold frames_of. change (frame_tables fx_manifest) with [fx_object0.2].
  unfold at_index. destruct (Z.ltb_spec gid 0); [by rewrite decide_False by lia|].
  destruct (Z.to_nat gid) as [|[|n]] eqn:Hn; [rewrite decide_True by lia|rewrite decide_False by lia..]; done.
Qed.

(** A boolean form of [opens]. *)
Definition opens_b (aad c : bytes) : bool :=
  match decrypt_if_needed c aad fx_key with Ok x => match decompress x with Ok _ => true | _ => false end | _ => false end.

Lemma opens_of aad c : opens_b aad c = true → opens Compress.stored fx_key aad c.
Proof.
  unfold opens_b, opens. destruct (decrypt_if_needed c aad fx_key) as [x|e|]; [|done..]. destruct (decompress x) as [d|e|] eqn:Hd; [|done..].
  intros _. by exists x, d.
Qed.

Lemma rx_rotatable : rotatable Compress.stored manifest_to_vec fx_key None fx_manifest (objects ox_published).
Proof.
  split; [discriminate| |by eexists]. intros s k [[-> ->]|[-> ->]]%rx_refs; cbn [slot_frames slot_aad]; rewrite rx_frames; cbn [decide].
  - exists fx_object0.1. split; [vm_compute; reflexivity|]. split; [discriminate|].
    assert (Forall (λ e, match slice (fe_offset e) (fe_offset e + fe_len e) fx_object0.1 with
      | Some c => opens_b (aad_page_group 0) c | None => false end = true) fx_object0.2) as Hall by (repeat constructor).
    eapply Forall_impl; [exact Hall|]. intros e He. cbn beta in He. destruct (slice _ _ _) as [c|]; [|done]. exists c. split; [done|by apply opens_of].
  - eexists. split; [vm_compute; reflexivity|]. split; [|constructor]. intros _. apply opens_of. vm_compute. reflexivity.
Qed.

Lemma rx_lens gid : Forall (λ e, fe_len e ≤ 2 ^ 31) (frames_of fx_manifest gid).
Proof.
  rewrite rx_frames. destruct (decide (gid = 0)); [|constructor].
  apply (bool_decide_eq_true_1 _). vm_compute. reflexivity.
Qed.

Lemma rx_next : version fx_manifest + 1 < 2 ^ 64.
Proof. vm_compute. reflexivity. Qed.
Lemma rx_spf gid : frames_of fx_manifest gid ≠ [] → 0 < Manifest.sub_pages_per_frame fx_manifest.
Proof. intros _. vm_compute. reflexivity. Qed.
Lemma rx_reliable : reliable ox_published.
Proof. reflexivity. Qed.


Example rotated_in_full :
  let '(r, dir, b) := rx_rotate Compress.stored ox_published in
  r = Ok () ∧ dir_cache_file dir = [] ∧ page_group_keys (published b) = ["p/d/0_v8"; "p/d/1_v8"]%string ∧
  cold_page None (published b) (objects b) 2 = Some (fx_page 2 1) ∧ objects b !! "p/d/0_v7"%string = None.
Proof. vm_compute. done. Qed.

(* ------------------------------------------------------------------ *)
(** * What goes wrong *)

(** The rotation leaves override frames alone: they stay sealed with the old
    key, and the new manifest refers to them. *)
Definition rx_flushed : MemStore :=
  v_backend (run_flush fx_rnd full_to_vec full_from_slice manifest_to_vec manifest_from_slice fx_key fx_no_fails false true 2 0 (fx_state [])).2.

Example overrides_are_not_rotated :
  cold_page fx_key (published rx_flushed) (objects rx_flushed) 0 = Some (fx_page 0 2) ∧
  let '(r, _, b) := rx_rotate Compress.stored rx_flushed in
  r = Ok () ∧ cold_page None (published b) (objects b) 4 = Some (fx_page 4 2) ∧
  cold_page None (published b) (objects b) 0 ≠ Some (fx_page 0 2).
Proof. split; [vm_compute; reflexivity|]. vm_compute. done. Qed.

(** A decompressor that has no dictionary and refuses what was compressed with
    one: the verification fails after everything has been uploaded. *)
Definition no_dictionary : Compression.
Proof. by refine {| encode_all := λ _, None; decode_stream := λ _, None |}. Defined.

Example dictionary_fails_verification :
  let '(r, dir, b) := rx_rotate no_dictionary ox_published in
  r = Err OtherKind ∧ dir = rx_dir ∧ version (published b) = 7 ∧ is_Some (objects b !! "p/d/0_v8"%string).
Proof. vm_compute. repeat split; by eexists. Qed.
