(* ===== verification/BTreePeek.v ===== *)
(** The parsers of B-tree pages behind the lookahead
    (src/src/tiered/btree_peek.rs): the rowids of index and of table leaves,
    the children of interior table pages.  They do no I/O, and a page that is
    not what it should be gives a partial result. *)

From S2P Require Import Prelude.

(* ------------------------------------------------------------------ *)
(** * Numbers on a page *)

Definition read_u16 (buf : bytes) (off : Z) : option Z := of_be <$> slice off (off + 2) buf.
Definition read_u32 (buf : bytes) (off : Z) : option Z := of_be <$> slice off (off + 4) buf.

(** Up to [more] bytes of seven bits, and one of eight. *)
Fixpoint varint_loop (more : nat) (val used : Z) (tail : bytes) : option (Z * Z) :=
  match tail with
  | [] => None
  | b :: tail =>
    match more with
    | O => Some (Z.lor (Z.shiftl val 8) (of_be [b]), used + 1)
    | S more =>
      let val := Z.lor (Z.shiftl val 7) (Z.land (of_be [b]) 127) in
      if Z.land (of_be [b]) 128 =? 0 then Some (val, used + 1) else varint_loop more val (used + 1) tail
    end
  end.

(** The varint at an offset and the number of its bytes. *)
Definition read_varint (buf : bytes) (off : Z) : option (Z * Z) :=
  tail ← slice off (Z.of_nat (length buf)) buf;
  varint_loop 8 0 0 tail.

Definition checked_add (a b : Z) : option Z := if a + b <? 2 ^ 64 then Some (a + b) else None.

(** Reinterpretation as [i64]. *)
Definition as_i64 (z : Z) : Z := (z + 2 ^ 63) mod 2 ^ 64 - 2 ^ 63.

Definition serial_type_size (serial_type : Z) : option Z :=
  if serial_type =? 0 then Some 0 else if serial_type =? 1 then Some 1 else if serial_type =? 2 then Some 2 else
  if serial_type =? 3 then Some 3 else if serial_type =? 4 then Some 4 else if serial_type =? 5 then Some 6 else
  if (serial_type =? 6) || (serial_type =? 7) then Some 8 else
  if (serial_type =? 8) || (serial_type =? 9) then Some 0 else
  if (serial_type =? 10) || (serial_type =? 11) then None else
  if 12 <=? serial_type then Some ((serial_type - 12) / 2) else None.

Definition int_bytes (serial_type : Z) : option Z :=
  if serial_type =? 1 then Some 1 else if serial_type =? 2 then Some 2 else if serial_type =? 3 then Some 3 else
  if serial_type =? 4 then Some 4 else if serial_type =? 5 then Some 6 else if serial_type =? 6 then Some 8 else None.

Definition read_record_int (buf : bytes) (off serial_type : Z) : option Z :=
  if (serial_type =? 0) || (serial_type =? 8) then Some 0 else if serial_type =? 9 then Some 1 else
  n ← int_bytes serial_type;
  src ← slice off (off + n) buf;
  let val := foldl (λ val b, as_i64 (Z.lor (as_i64 (Z.shiftl val 8)) (of_be [b]))) 0 src in
  let shift := 64 - n * 8 in
  Some (Z.shiftr (as_i64 (Z.shiftl val shift)) shift).

Definition read_record_int_key (buf : bytes) (off serial_type : Z) : option (option Z) :=
  if (serial_type =? 0) || (serial_type =? 7) then Some None else
  if ((1 <=? serial_type) && (serial_type <=? 6)) || (serial_type =? 8) || (serial_type =? 9)
  then Some <$> read_record_int buf off serial_type else Some None.

Definition btree_header (page : bytes) (page1 : bool) (header_len : Z) : option Z :=
  let header := if page1 then 100 else 0 in
  if header + header_len <=? Z.of_nat (length page) then Some header else None.

Definition kind_at (page : bytes) (header : Z) : option Z := (λ b, of_be [b]) <$> at_index page header.

Definition index_max_local_payload (usable_size : Z) : Z :=
  if usable_size <=? 12 then 0 else saturating_sub ((usable_size - 12) * 64 / 255) 23.

Definition index_usable_size (page : bytes) (page1 : bool) (usable_size : option Z) : Z :=
  match usable_size with
  | Some usable => Z.min usable (Z.of_nat (length page))
  | None =>
    if page1 then saturating_sub (Z.of_nat (length page)) (default 0 (kind_at page 20)) else Z.of_nat (length page)
  end.

(* ------------------------------------------------------------------ *)
(** * Index leaves *)

Record IndexLeafRowids := {
  il_rowids : list Z;
  il_first_int_keys : list (option Z);
  il_overflow_cells : Z;
  il_malformed_cells : Z;
  il_stopped_early : bool
}.

#[export] Instance IndexLeafRowids_settable : Settable IndexLeafRowids := {| rebuild := λ o, {|
  il_rowids := il_rowids o; il_first_int_keys := il_first_int_keys o; il_overflow_cells := il_overflow_cells o; il_malformed_cells := il_malformed_cells o; il_stopped_early := il_stopped_early o |} |}.

(** The serial types between [pos] and [header_end].  Each takes a byte, so the
    length of the page is enough fuel. *)
Fixpoint read_serials (fuel : nat) (page : bytes) (pos header_end : Z) : option (list Z) :=
  if header_end <=? pos then Some [] else
  match fuel with
  | O => None
  | S fuel =>
    '(serial, used) ← read_varint page pos;
    if used =? 0 then None else
    serials ← read_serials fuel page (pos + used) header_end;
    Some (serial :: serials)
  end.

(** The offset behind the values of [serials]. *)
Fixpoint skip_values (payload_end body_pos : Z) (serials : list Z) : option Z :=
  match serials with
  | [] => Some body_pos
  | serial :: serials =>
    size ← serial_type_size serial;
    body_pos ← checked_add body_pos size;
    if payload_end <? body_pos then None else skip_values payload_end body_pos serials
  end.

(** The rowid of a cell, its first column when that is an integer, and whether
    the payload overflows. *)
Definition parse_index_leaf_cell_rowid (page : bytes) (cell_off max_local : Z) : option (Z * option Z * bool) :=
  '(payload_len, payload_len_bytes) ← read_varint page cell_off;
  payload_start ← checked_add cell_off payload_len_bytes;
  payload_end ← checked_add payload_start payload_len;
  if max_local <? payload_len then Some (0, None, true) else
  if Z.of_nat (length page) <? payload_end then None else
  '(header_len, header_len_bytes) ← read_varint page payload_start;
  if header_len <? header_len_bytes then None else
  header_end ← checked_add payload_start header_len;
  if payload_end <? header_end then None else
  serials ← read_serials (length page) page (payload_start + header_len_bytes) header_end;
  rowid_serial ← last serials;
  first_serial ← head serials;
  first_int_key ← read_record_int_key page header_end first_serial;
  body_pos ← skip_values payload_end header_end (take (length serials - 1) serials);
  rowid_size ← serial_type_size rowid_serial;
  if payload_end <? body_pos + rowid_size then None else
  rowid ← read_record_int page body_pos rowid_serial;
  Some (rowid, first_int_key, false).

Fixpoint index_leaf_loop (page : bytes) (pointer_array max_local cap : Z) (out : IndexLeafRowids) (cells : list Z) :
    IndexLeafRowids :=
  match cells with
  | [] => out
  | i :: cells =>
    if cap <=? Z.of_nat (length (il_rowids out)) then out <| il_stopped_early := true |> else
    match read_u16 page (pointer_array + i * 2) with
    | None => out <| il_stopped_early := true |>
    | Some cell_off =>
      let out := match parse_index_leaf_cell_rowid page cell_off max_local with
                 | None => out <| il_malformed_cells ::= Z.succ |>
                 | Some (_, _, true) => out <| il_overflow_cells ::= Z.succ |>
                 | Some (rowid, first_int_key, false) =>
                   out <| il_rowids ::= λ l, l ++ [rowid] |> <| il_first_int_keys ::= λ l, l ++ [first_int_key] |>
                 end in
      index_leaf_loop page pointer_array max_local cap out cells
    end
  end.

Definition no_index_rowids : IndexLeafRowids :=
  {| il_rowids := []; il_first_int_keys := []; il_overflow_cells := 0; il_malformed_cells := 0; il_stopped_early := false |}.

Definition parse_index_leaf_rowids (page : bytes) (page1 : bool) (cap : Z) (usable_size : option Z) : IndexLeafRowids :=
  if cap =? 0 then no_index_rowids else
  match btree_header page page1 8 with
  | None => no_index_rowids
  | Some header =>
    if bool_decide (kind_at page header ≠ Some 10) then no_index_rowids else
    index_leaf_loop page (header + 8) (index_max_local_payload (index_usable_size page page1 usable_size)) cap
      no_index_rowids (range 0 (default 0 (read_u16 page (header + 3))))
  end.

(* ------------------------------------------------------------------ *)
(** * Table pages *)

Record TableLeafRowids := { tl_rowids : list Z; tl_malformed_cells : Z; tl_stopped_early : bool }.

#[export] Instance TableLeafRowids_settable : Settable TableLeafRowids := {| rebuild := λ o, {|
  tl_rowids := tl_rowids o; tl_malformed_cells := tl_malformed_cells o; tl_stopped_early := tl_stopped_early o |} |}.

(** A rowid above the range of [i64] is an error of [i64::try_from]. *)
Definition table_leaf_cell (page : bytes) (cell_off : Z) : option Z :=
  '(_, payload_len_bytes) ← read_varint page cell_off;
  '(rowid, _) ← read_varint page (cell_off + payload_len_bytes);
  if rowid <? 2 ^ 63 then Some rowid else None.

Fixpoint table_leaf_loop (page : bytes) (pointer_array cap : Z) (out : TableLeafRowids) (cells : list Z) : TableLeafRowids :=
  match cells with
  | [] => out
  | i :: cells =>
    if cap <=? Z.of_nat (length (tl_rowids out)) then out <| tl_stopped_early := true |> else
    match read_u16 page (pointer_array + i * 2) with
    | None => out <| tl_stopped_early := true |>
    | Some cell_off =>
      let out := match table_leaf_cell page cell_off with
                 | None => out <| tl_malformed_cells ::= Z.succ |>
                 | Some rowid => out <| tl_rowids ::= λ l, l ++ [rowid] |>
                 end in
      table_leaf_loop page pointer_array cap out cells
    end
  end.

Definition no_table_rowids : TableLeafRowids := {| tl_rowids := []; tl_malformed_cells := 0; tl_stopped_early := false |}.

Definition parse_table_leaf_rowids (page : bytes) (page1 : bool) (cap : Z) : TableLeafRowids :=
  if cap =? 0 then no_table_rowids else
  match btree_header page page1 8 with
  | None => no_table_rowids
  | Some header =>
    if bool_decide (kind_at page header ≠ Some 13) then no_table_rowids else
    table_leaf_loop page (header + 8) cap no_table_rowids (range 0 (default 0 (read_u16 page (header + 3))))
  end.

(** Child pointers are 1-based. *)
Record TableInteriorCell := { child_page : Z; rowid_key : Z }.

Record TableInteriorCells := {
  rightmost_child_page : option Z;
  cells : list TableInteriorCell;
  ti_malformed_cells : Z;
  ti_stopped_early : bool
}.

#[export] Instance TableInteriorCells_settable : Settable TableInteriorCells := {| rebuild := λ o, {|
  rightmost_child_page := rightmost_child_page o; cells := cells o; ti_malformed_cells := ti_malformed_cells o; ti_stopped_early := ti_stopped_early o |} |}.

Definition table_interior_cell (page : bytes) (cell_off : Z) : option TableInteriorCell :=
  if Z.of_nat (length page) <? cell_off + 4 then None else
  child ← read_u32 page cell_off;
  '(key, _) ← read_varint page (cell_off + 4);
  Some {| child_page := child; rowid_key := as_i64 key |}.

Fixpoint table_interior_loop (page : bytes) (pointer_array : Z) (out : TableInteriorCells) (l : list Z) : TableInteriorCells :=
  match l with
  | [] => out
  | i :: l =>
    match read_u16 page (pointer_array + i * 2) with
    | None => out <| ti_stopped_early := true |>
    | Some cell_off =>
      let out := match table_interior_cell page cell_off with
                 | None => out <| ti_malformed_cells ::= Z.succ |>
                 | Some cell => out <| cells ::= λ l, l ++ [cell] |>
                 end in
      table_interior_loop page pointer_array out l
    end
  end.

Definition no_table_cells : TableInteriorCells :=
  {| rightmost_child_page := None; cells := []; ti_malformed_cells := 0; ti_stopped_early := false |}.

Definition parse_table_interior_cells (page : bytes) (page1 : bool) : TableInteriorCells :=
  match btree_header page page1 12 with
  | None => no_table_cells
  | Some header =>
    if bool_decide (kind_at page header ≠ Some 5) then no_table_cells else
    table_interior_loop page (header + 12) (no_table_cells <| rightmost_child_page := read_u32 page (header + 8) |>)
      (range 0 (default 0 (read_u16 page (header + 3))))
  end.
