(* ===== verification/SqliteFormat.v ===== *)
(** The file format of SQLite, as far as the theorems about B-trees need it:
    varints, what is stored at an offset of a page, and the layout of interior
    and of leaf pages. *)

From coqutil Require Import Byte.
From S2P Require Import Prelude BTreePeek.

(* ------------------------------------------------------------------ *)
(** * Numbers *)

Lemma of_be_one z : 0 ≤ z < 256 → of_be [byte.of_Z z] = z.
Proof.
  intros Hz. change (Z.lor (byte.unsigned (byte.of_Z z)) (Z.shiftl 0 8) = z).
  rewrite byte.unsigned_of_Z, Z.shiftl_0_l, Z.lor_0_r. by apply Z.mod_small.
Qed.

Lemma of_be_byte b : 0 ≤ of_be [b] < 256.
Proof. apply (of_be_bound [b]). Qed.

(** The bits of a shifted number and of what is below it do not meet. *)
Lemma lor_below n a b : 0 ≤ n → 0 ≤ b < 2 ^ n → Z.lor (a * 2 ^ n) b = a * 2 ^ n + b.
Proof.
  intros Hn Hb. pose proof (Z.add_lor_land (a * 2 ^ n) b). enough (Z.land (a * 2 ^ n) b = 0) by lia.
  apply Z.bits_inj'. intros i Hi. rewrite Z.land_spec, Z.bits_0. destruct (decide (i < n)).
  - by rewrite Z.mul_pow2_bits_low.
  - rewrite <-(Z.mod_small b (2 ^ n)) by done. rewrite Z.mod_pow2_bits_high by lia. apply andb_false_r.
Qed.

Lemma of_be_cons x l : of_be (x :: l) = of_be [x] * 256 ^ Z.of_nat (length l) + of_be l.
Proof.
  unfold of_be at 1. cbn [rev]. rewrite le_combine_app, length_rev. fold (of_be l).
  replace (256 ^ Z.of_nat (length l)) with (2 ^ (Z.of_nat (length l) * 8)).
  - rewrite Z.lor_comm, Z.shiftl_mul_pow2 by lia. apply lor_below; [lia|]. rewrite Z.mul_comm. apply of_be_bound.
  - change 256 with (2 ^ 8). rewrite <-Z.pow_mul_r by lia. f_equal. lia.
Qed.

Lemma byte_continues b : (Z.land (of_be [b]) 128 =? 0) = (of_be [b] <? 128).
Proof. by destruct b. Qed.

Lemma byte_seven b : Z.land (of_be [b]) 127 = of_be [b] mod 128.
Proof. apply (Z.land_ones _ 7). lia. Qed.

(* ------------------------------------------------------------------ *)
(** * Varints *)

(** [n] bytes that continue. *)
Fixpoint put_groups (n : nat) (v : Z) : bytes :=
  match n with
  | O => []
  | S n => byte.of_Z (128 + v / 128 ^ Z.of_nat n mod 128) :: put_groups n v
  end.

(** The varint that SQLite writes. *)
Definition put_varint (v : Z) : bytes :=
  if v <? 2 ^ 56 then put_groups (Z.to_nat (Z.log2 v / 7)) (v / 128) ++ [byte.of_Z (v mod 128)]
  else put_groups 8 (v / 256) ++ [byte.of_Z (v mod 256)].

Lemma length_put_groups n v : length (put_groups n v) = n.
Proof. induction n; cbn; [done|]. by f_equal. Qed.

Lemma put_varint_nonempty v : 1 ≤ Z.of_nat (length (put_varint v)).
Proof. unfold put_varint. case_match; rewrite length_app; cbn; lia. Qed.

Lemma varint_groups n more val used v rest :
  varint_loop (n + more) val used (put_groups n v ++ rest) =
    varint_loop more (val * 128 ^ Z.of_nat n + v mod 128 ^ Z.of_nat n) (used + Z.of_nat n) rest.
Proof.
  revert val used. induction n as [|n IH]; intros val used; cbn [put_groups app Nat.add].
  { cbn [Z.of_nat]. rewrite Z.pow_0_r, Z.mod_1_r, Z.mul_1_r, !Z.add_0_r. done. }
  pose proof (Z.mod_pos_bound (v / 128 ^ Z.of_nat n) 128 ltac:(lia)) as Hq. set (q := v / 128 ^ Z.of_nat n mod 128) in *.
  cbn [varint_loop]. rewrite byte_continues, byte_seven, of_be_one by lia. destruct (Z.ltb_spec (128 + q) 128); [lia|].
  replace ((128 + q) mod 128) with q by (replace (128 + q) with (q + 1 * 128) by lia; by rewrite Z.mod_add, Z.mod_small).
  rewrite IH, Z.shiftl_mul_pow2, lor_below by lia. rewrite Nat2Z.inj_succ, Z.pow_succ_r by lia.
  rewrite (Z.mul_comm 128 (128 ^ _)), Z.rem_mul_r by lia. fold q. f_equal; [ring|lia].
Qed.

Lemma varint_put v rest : 0 ≤ v < 2 ^ 64 →
  varint_loop 8 0 0 (put_varint v ++ rest) = Some (v, Z.of_nat (length (put_varint v))).
Proof.
  intros Hv. unfold put_varint. destruct (Z.ltb_spec v (2 ^ 56)) as [Hlt|Hge].
  - set (n := Z.to_nat (Z.log2 v / 7)). pose proof (Z.log2_nonneg v). pose proof (Z.div_mod (Z.log2 v) 7 ltac:(lia)).
    pose proof (Z.mod_pos_bound (Z.log2 v) 7 ltac:(lia)).
    assert (Z.of_nat n = Z.log2 v / 7) as Hn by (unfold n; pose proof (Z.div_pos (Z.log2 v) 7); lia).
    assert (Z.log2 v < 56) as Hlog.
    { destruct (decide (v = 0)) as [->|]; [done|]. apply Z.log2_lt_pow2; lia. }
    assert (v / 128 < 128 ^ Z.of_nat n) as Hdiv.
    { apply Z.div_lt_upper_bound; [lia|]. change 128 with (2 ^ 7) at 2. rewrite <-Z.pow_mul_r by lia.
      change 128 with (2 ^ 7). rewrite <-Z.pow_add_r by lia. destruct (decide (v = 0)) as [->|]; [apply Z.pow_pos_nonneg; lia|].
      pose proof (Z.log2_spec v ltac:(lia)) as [_ Hs]. eapply Z.lt_le_trans; [exact Hs|]. apply Z.pow_le_mono_r; lia. }
    assert (n ≤ 7)%nat as Hn7 by lia.
    replace 8%nat with (n + S (7 - n))%nat by lia. rewrite <-app_assoc, varint_groups.
    rewrite Z.mod_small by (split; [apply Z.div_pos; lia|done]). cbn [app varint_loop].
    pose proof (Z.mod_pos_bound v 128 ltac:(lia)). rewrite byte_continues, byte_seven, of_be_one by lia.
    destruct (Z.ltb_spec (v mod 128) 128); [|lia]. rewrite (Z.mod_small (v mod 128)) by lia.
    rewrite Z.shiftl_mul_pow2, lor_below by lia. f_equal. rewrite length_app, length_put_groups. cbn [length].
    pose proof (Z.div_mod v 128). f_equal; lia.
  - change 8%nat with (8 + 0)%nat at 1. rewrite <-app_assoc, varint_groups.
    rewrite Z.mod_small by (split; [apply Z.div_pos; lia|apply Z.div_lt_upper_bound; lia]). cbn [app varint_loop].
    pose proof (Z.mod_pos_bound v 256 ltac:(lia)). rewrite of_be_one by lia.
    rewrite Z.shiftl_mul_pow2, lor_below by lia. f_equal. rewrite length_app, length_put_groups. cbn [length].
    pose proof (Z.div_mod v 256). f_equal; lia.
Qed.

(* ------------------------------------------------------------------ *)
(** * Places on a page *)

(** What follows an offset. *)
Definition follows (page : bytes) (off : Z) (rest : bytes) : Prop := ∃ pre, page = pre ++ rest ∧ Z.of_nat (length pre) = off.

Lemma follows_skip page off a b : follows page off (a ++ b) → follows page (off + Z.of_nat (length a)) b.
Proof. intros (pre & -> & <-). exists (pre ++ a). rewrite <-app_assoc, length_app. split; [done|lia]. Qed.

Lemma follows_slice page off a b : follows page off (a ++ b) → slice off (off + Z.of_nat (length a)) page = Some a.
Proof. intros (pre & -> & <-). by apply slice_app. Qed.

Lemma follows_end page off rest : follows page off rest → 0 ≤ off ∧ off + Z.of_nat (length rest) = Z.of_nat (length page).
Proof. intros (pre & -> & <-). rewrite length_app. lia. Qed.

(** What is stored at an offset. *)
Definition placed (page : bytes) (off : Z) (bs : bytes) : Prop := slice off (off + Z.of_nat (length bs)) page = Some bs.

Lemma placed_follows page off bs : placed page off bs ↔ ∃ rest, follows page off (bs ++ rest).
Proof.
  split; [|intros [rest Hf]; by eapply follows_slice].
  intros (Ha & Hb & Hk)%slice_Some. replace (off + Z.of_nat (length bs) - off) with (Z.of_nat (length bs)) in Hk by lia.
  rewrite Nat2Z.id in Hk. exists (drop (length bs) (drop (Z.to_nat off) page)), (take (Z.to_nat off) page).
  rewrite Hk at 1. rewrite !take_drop. split; [done|]. rewrite length_take. lia.
Qed.

Lemma placed_app page off a b : placed page off (a ++ b) → placed page off a ∧ placed page (off + Z.of_nat (length a)) b.
Proof.
  rewrite !placed_follows. intros [rest Hf]. rewrite <-app_assoc in Hf. split; [by eexists|].
  apply follows_skip in Hf. by eexists.
Qed.

Lemma placed_end page off bs : placed page off bs → 0 ≤ off ∧ off + Z.of_nat (length bs) ≤ Z.of_nat (length page).
Proof. intros (? & ? & _)%slice_Some. lia. Qed.

(** The varint at an offset. *)
Lemma placed_varint page off v : 0 ≤ v < 2 ^ 64 → placed page off (put_varint v) →
  varint_loop 8 0 0 (drop (Z.to_nat off) page) = Some (v, Z.of_nat (length (put_varint v))).
Proof.
  intros Hv [rest (pre & -> & <-)]%placed_follows. rewrite Nat2Z.id, drop_app_length. by apply varint_put.
Qed.

(* ------------------------------------------------------------------ *)
(** * Records *)

(** The number of bytes of a value, by its serial type; 10 and 11 are reserved. *)
Definition value_size (serial : Z) : option Z :=
  match serial with
  | 0 | 8 | 9 => Some 0
  | 1 => Some 1 | 2 => Some 2 | 3 => Some 3 | 4 => Some 4 | 5 => Some 6 | 6 | 7 => Some 8
  | 10 | 11 => None
  | _ => Some ((serial - 12) / 2)
  end.

(** Two's complement of [n] bytes. *)
Definition signed (n z : Z) : Z := if z <? 2 ^ (8 * n - 1) then z else z - 2 ^ (8 * n).

(** The integer that a value is, unless it is not one. *)
Definition value_int (serial : Z) (data : bytes) : option Z :=
  match serial with
  | 8 => Some 0
  | 9 => Some 1
  | 1 | 2 | 3 | 4 | 5 | 6 => Some (signed (Z.of_nat (length data)) (of_be data))
  | _ => None
  end.

(* ------------------------------------------------------------------ *)
(** * Pages of B-trees *)

(** The offsets of the cells, in the pointer array. *)
Definition pointers_at (page : bytes) (start : Z) (offs : list Z) : Prop :=
  ∀ i off, offs !! i = Some off → 0 ≤ off < 2 ^ 16 ∧ placed page (start + Z.of_nat i * 2) (be_bytes 2 off).

(** The header of a page: its kind and the number of its cells. *)
Definition page_header (page : bytes) (hdr kind : Z) (cells : nat) : Prop :=
  Z.of_nat cells < 2 ^ 16 ∧ placed page hdr (be_bytes 1 kind) ∧ placed page (hdr + 3) (be_bytes 2 (Z.of_nat cells)).

(** An interior page, of an index (2) or of a table (5): the rightmost child and
    the children at the start of the cells, 1-based. *)
Definition interior_layout (page : bytes) (hdr kind right : Z) (children : list Z) : Prop :=
  kind ∈ [2; 5] ∧ page_header page hdr kind (length children) ∧ 0 ≤ right < 2 ^ 32 ∧ placed page (hdr + 8) (be_bytes 4 right) ∧
  ∃ offs, pointers_at page (hdr + 12) offs ∧
    Forall2 (λ off child, 0 ≤ child < 2 ^ 32 ∧ placed page off (be_bytes 4 child)) offs children.

(** How much of a payload stays on a leaf of [usable] bytes. *)
Definition max_stored (usable : Z) (is_table : bool) : Z := if is_table then usable - 35 else (usable - 12) * 64 / 255 - 23.
Definition min_stored (usable : Z) : Z := (usable - 12) * 32 / 255 - 23.
Definition stored_len (usable : Z) (is_table : bool) (payload : Z) : Z :=
  let most := max_stored usable is_table in
  let least := min_stored usable in
  if payload <=? most then payload else
  let fitting := least + (payload - least) mod (usable - 4) in
  if fitting <=? most then fitting else least.

(** A cell of a leaf: the length of the payload, the rowid of a table, the local
    part of the payload and, when that is not all, the first overflow page. *)
Definition leaf_cell_at (usable : Z) (is_table : bool) (page : bytes) (off : Z) (overflow : option Z) : Prop :=
  ∃ payload rowid stored, 0 ≤ payload < 2 ^ 63 ∧ 0 ≤ rowid < 2 ^ 64 ∧
    placed page off (put_varint payload ++ (if is_table then put_varint rowid else []) ++ stored ++ from_option (be_bytes 4) [] overflow) ∧
    Z.of_nat (length stored) = stored_len usable is_table payload ∧
    match overflow with
    | Some o => max_stored usable is_table < payload ∧ 1 ≤ o < 2 ^ 32
    | None => payload ≤ max_stored usable is_table
    end.

(** A leaf, of an index (10) or of a table (13), with the first overflow pages of
    its cells. *)
Definition leaf_layout (usable : Z) (page : bytes) (hdr kind : Z) (firsts : list Z) : Prop :=
  kind ∈ [10; 13] ∧ ∃ offs overflows, page_header page hdr kind (length offs) ∧ pointers_at page (hdr + 8) offs ∧
    Forall2 (leaf_cell_at usable (kind =? 13) page) offs overflows ∧ firsts = omap id overflows.
