(* ===== verification/PeekSafety.v ===== *)
(** The parsers of BTreePeek read what SQLite stores: the cells of an index leaf
    that are laid out by the file format give their rowids. *)

From S2P Require Import Prelude BTreePeek SqliteFormat.

(* ------------------------------------------------------------------ *)
(** * Numbers *)

Lemma as_i64_id z : -2 ^ 63 ≤ z < 2 ^ 63 → as_i64 z = z.
Proof. intros Hz. unfold as_i64. rewrite Z.mod_small by lia. lia. Qed.

Lemma as_i64_period z k : as_i64 (z + k * 2 ^ 64) = as_i64 z.
Proof. unfold as_i64. replace (z + k * 2 ^ 64 + 2 ^ 63) with (z + 2 ^ 63 + k * 2 ^ 64) by lia. by rewrite Z.mod_add by lia. Qed.

Lemma as_i64_split z : ∃ k, as_i64 z = z + k * 2 ^ 64.
Proof. exists (- ((z + 2 ^ 63) / 2 ^ 64)). unfold as_i64. pose proof (Z.div_mod (z + 2 ^ 63) (2 ^ 64)). lia. Qed.

(** What is computed on wrapped numbers can be wrapped at the end. *)
Lemma as_i64_linear a b z : as_i64 (as_i64 z * a + b) = as_i64 (z * a + b).
Proof.
  destruct (as_i64_split z) as [k ->]. replace ((z + k * 2 ^ 64) * a + b) with (z * a + b + k * a * 2 ^ 64) by lia.
  apply as_i64_period.
Qed.

Lemma int_loop src acc :
  foldl (λ val b, as_i64 (Z.lor (as_i64 (Z.shiftl val 8)) (of_be [b]))) (as_i64 acc) src =
    as_i64 (acc * 256 ^ Z.of_nat (length src) + of_be src).
Proof.
  revert acc. induction src as [|b src IH]; intros acc; cbn [foldl length].
  { f_equal. change (of_be []) with 0. lia. }
  assert (as_i64 (Z.lor (as_i64 (Z.shiftl (as_i64 acc) 8)) (of_be [b])) = as_i64 (acc * 256 + of_be [b])) as ->.
  { rewrite Z.shiftl_mul_pow2 by lia. destruct (as_i64_split (as_i64 acc * 2 ^ 8)) as [k Hk]. rewrite Hk.
    replace (as_i64 acc * 2 ^ 8 + k * 2 ^ 64) with ((as_i64 acc + k * 2 ^ 56) * 2 ^ 8) by lia.
    rewrite lor_below by first [lia | apply of_be_byte].
    replace ((as_i64 acc + k * 2 ^ 56) * 2 ^ 8 + of_be [b]) with (as_i64 acc * 256 + of_be [b] + k * 2 ^ 64) by lia.
    by rewrite as_i64_period, as_i64_linear. }
  rewrite IH. f_equal. rewrite (of_be_cons b src), Nat2Z.inj_succ, Z.pow_succ_r by lia. ring.
Qed.

Lemma int_of_bytes n src : 1 ≤ n ≤ 8 → Z.of_nat (length src) = n →
  Z.shiftr (as_i64 (Z.shiftl (foldl (λ val b, as_i64 (Z.lor (as_i64 (Z.shiftl val 8)) (of_be [b]))) 0 src) (64 - n * 8))) (64 - n * 8)
    = signed n (of_be src).
Proof.
  intros Hn Hlen. change 0 with (as_i64 0) at 1. rewrite int_loop, Z.mul_0_l, Z.add_0_l.
  pose proof (of_be_bound src) as Hb. rewrite Hlen in Hb. set (z := of_be src) in *.
  rewrite Z.shiftl_mul_pow2, Z.shiftr_div_pow2 by lia. pose proof (as_i64_linear (2 ^ (64 - n * 8)) 0 z) as Hl.
  rewrite !Z.add_0_r in Hl. rewrite Hl. unfold signed, as_i64.
  assert (2 ^ 64 = 2 ^ (8 * n) * 2 ^ (64 - n * 8)) as H64 by (rewrite <-Z.pow_add_r by lia; f_equal; lia).
  assert (2 ^ 63 = 2 ^ (8 * n - 1) * 2 ^ (64 - n * 8)) as H63 by (rewrite <-Z.pow_add_r by lia; f_equal; lia).
  assert (2 ^ (8 * n) = 2 * 2 ^ (8 * n - 1)) as H8 by (rewrite <-Z.pow_succ_r by lia; f_equal; lia).
  assert (0 < 2 ^ (64 - n * 8)) as Hs by (apply Z.pow_pos_nonneg; lia).
  rewrite H64, H63. set (s := 2 ^ (64 - n * 8)) in *. set (h := 2 ^ (8 * n - 1)) in *. rewrite H8 in *.
  destruct (Z.ltb_spec z h).
  - rewrite Z.mod_small by nia. replace (z * s + h * s - h * s) with (z * s) by lia. by apply Z.div_mul; lia.
  - replace (z * s + h * s) with ((z - h) * s + 1 * (2 * h * s)) by lia. rewrite Z.mod_add, Z.mod_small by nia.
    replace ((z - h) * s - h * s) with ((z - 2 * h) * s) by lia. by apply Z.div_mul; lia.
Qed.

Lemma read_varint_put page off v rest :
  0 ≤ v < 2 ^ 64 → follows page off (put_varint v ++ rest) → read_varint page off = Some (v, Z.of_nat (length (put_varint v))).
Proof.
  intros Hv Hf. unfold read_varint. pose proof (follows_end _ _ _ Hf) as [_ Hend]. rewrite <-Hend.
  rewrite <-(app_nil_r (put_varint v ++ rest)) in Hf. rewrite (follows_slice _ _ _ _ Hf). cbn. by apply varint_put.
Qed.

Lemma read_u16_put page off v rest : 0 ≤ v < 2 ^ 16 → follows page off (be_bytes 2 v ++ rest) → read_u16 page off = Some v.
Proof.
  intros Hv Hf. apply follows_slice in Hf. rewrite length_be_bytes in Hf. unfold read_u16. change (Z.of_nat 2) with 2 in Hf.
  rewrite Hf. cbn. f_equal. by apply of_be_be_bytes.
Qed.

(* ------------------------------------------------------------------ *)
(** * Records *)

(** A value: its serial type and its bytes. *)
Definition field : Type := Z * bytes.

Definition field_ok (f : field) : Prop := 0 ≤ f.1 < 2 ^ 64 ∧ value_size f.1 = Some (Z.of_nat (length f.2)).

Definition int_of (f : field) : option Z := value_int f.1 f.2.

(** The header of [header_len] bytes, the length included, and the values. *)
Definition header_of (fields : list field) (header_len : Z) : bytes := put_varint header_len ++ concat (put_varint <$> fields.*1).
Definition record_of (fields : list field) (header_len : Z) : bytes := header_of fields header_len ++ concat fields.*2.
Definition index_cell (fields : list field) (header_len : Z) : bytes :=
  put_varint (Z.of_nat (length (record_of fields header_len))) ++ record_of fields header_len.

(** One of the first ten serial types, or a longer one. *)
Ltac serial_cases s :=
  destruct (Z.eqb_spec s 0) as [->|]; [|destruct (Z.eqb_spec s 1) as [->|]; [|destruct (Z.eqb_spec s 2) as [->|];
  [|destruct (Z.eqb_spec s 3) as [->|]; [|destruct (Z.eqb_spec s 4) as [->|]; [|destruct (Z.eqb_spec s 5) as [->|];
  [|destruct (Z.eqb_spec s 6) as [->|]; [|destruct (Z.eqb_spec s 7) as [->|]; [|destruct (Z.eqb_spec s 8) as [->|];
  [|destruct (Z.eqb_spec s 9) as [->|]]]]]]]]]].

Lemma serial_size s n : 0 ≤ s → value_size s = Some n → serial_type_size s = Some n.
Proof.
  intros Hs. serial_cases s; try done. unfold serial_type_size.
  destruct (Z.eqb_spec s 10) as [->|]; [done|]. destruct (Z.eqb_spec s 11) as [->|]; [done|].
  rewrite !(proj2 (Z.eqb_neq _ _)) by lia. cbn [orb]. rewrite (proj2 (Z.leb_le 12 s)) by lia. intros <-.
  unfold value_size. destruct s as [|s|s]; [lia| |lia]. do 4 (try destruct s as [s|s|]; try done).
Qed.

Lemma value_int_serial s data z : value_int s data = Some z → 1 ≤ s ≤ 6 ∨ 8 ≤ s ≤ 9.
Proof. unfold value_int. repeat case_match; intros; try done; lia. Qed.

Lemma read_record_int_of page off f rest z :
  field_ok f → follows page off (f.2 ++ rest) → int_of f = Some z → read_record_int page off f.1 = Some z.
Proof.
  intros [_ Hsize] Hf Hz. pose proof (follows_slice _ _ _ _ Hf) as Hsl. destruct f as [s data]. unfold int_of in Hz. cbn [fst snd] in *.
  pose proof (value_int_serial _ _ _ Hz).
  assert (∀ n, 1 ≤ n ≤ 8 → Z.of_nat (length data) = n →
    (src ← slice off (off + n) page;
     Some (Z.shiftr (as_i64 (Z.shiftl (foldl (λ val b, as_i64 (Z.lor (as_i64 (Z.shiftl val 8)) (of_be [b]))) 0 src) (64 - n * 8)))
            (64 - n * 8))) = Some (signed (Z.of_nat (length data)) (of_be data))) as Hint.
  { intros n Hn <-. rewrite Hsl. cbn [mbind option_bind]. f_equal. by apply int_of_bytes. }
  serial_cases s; try lia; cbn in Hsize, Hz; injection Hsize as Hlen; injection Hz as <-; try done; apply Hint; lia.
Qed.

Lemma read_record_int_key_of page off f rest :
  field_ok f → follows page off (f.2 ++ rest) → read_record_int_key page off f.1 = Some (int_of f).
Proof.
  intros Hok Hf. unfold read_record_int_key. destruct (int_of f) as [z|] eqn:Hz.
  - rewrite (read_record_int_of _ _ _ _ _ Hok Hf Hz). apply value_int_serial in Hz.
    destruct (Z.eqb_spec f.1 0); [lia|]. destruct (Z.eqb_spec f.1 7); [lia|]. cbn [orb].
    replace ((1 <=? f.1) && (f.1 <=? 6) || (f.1 =? 8) || (f.1 =? 9)) with true by lia. done.
  - destruct f as [s data]. unfold int_of in Hz. cbn [fst snd] in *. serial_cases s; try done.
    assert (10 ≤ s) by (destruct Hok as [Hs _]; cbn in Hs; lia).
    rewrite (proj2 (Z.leb_gt s 6)) by lia. by rewrite andb_false_r.
Qed.

Lemma read_serials_put page fields pos fuel rest :
  Forall field_ok fields → (length fields ≤ fuel)%nat → follows page pos (concat (put_varint <$> fields.*1) ++ rest) →
  read_serials fuel page pos (pos + Z.of_nat (length (concat (put_varint <$> fields.*1)))) = Some fields.*1.
Proof.
  intros Hok. revert pos fuel. induction Hok as [|f fields [Hf _] _ IH]; intros pos fuel Hfuel Hfol.
  { cbn. rewrite Z.add_0_r. destruct fuel; cbn; by rewrite Z.leb_refl. }
  cbn [fmap list_fmap map concat] in Hfol |- *. rewrite <-app_assoc in Hfol. pose proof (put_varint_nonempty f.1) as Hne.
  destruct fuel as [|fuel]; [cbn in Hfuel; lia|]. cbn [read_serials].
  destruct (Z.leb_spec (pos + Z.of_nat (length (put_varint f.1 ++ concat (put_varint <$> fields.*1)))) pos) as [Hle|_].
  { rewrite length_app in Hle. lia. }
  rewrite (read_varint_put _ _ _ _ Hf Hfol). cbn [mbind option_bind].
  destruct (Z.eqb_spec (Z.of_nat (length (put_varint f.1))) 0); [lia|].
  apply follows_skip in Hfol. specialize (IH _ fuel ltac:(cbn in Hfuel; lia) Hfol).
  replace (pos + Z.of_nat (length (put_varint f.1 ++ concat (put_varint <$> fields.*1))))
    with (pos + Z.of_nat (length (put_varint f.1)) + Z.of_nat (length (concat (put_varint <$> fields.*1))))
    by (rewrite length_app; lia).
  by rewrite IH.
Qed.

Lemma skip_values_put fields payload_end pos :
  Forall field_ok fields → 0 ≤ pos → pos + Z.of_nat (length (concat fields.*2)) ≤ payload_end → payload_end < 2 ^ 64 →
  skip_values payload_end pos fields.*1 = Some (pos + Z.of_nat (length (concat fields.*2))).
Proof.
  intros Hok. revert pos. induction Hok as [|f fields [Hs Hf] _ IH]; intros pos Hpos Hend Hmax.
  { cbn. by rewrite Z.add_0_r. }
  cbn [fmap list_fmap map concat skip_values] in Hend |- *. rewrite length_app in Hend |- *.
  apply (serial_size _ _ (proj1 Hs)) in Hf. rewrite Hf. cbn [mbind option_bind].
  unfold checked_add. destruct (Z.ltb_spec (pos + Z.of_nat (length f.2)) (2 ^ 64)); [|lia]. cbn [mbind option_bind].
  destruct (Z.ltb_spec payload_end (pos + Z.of_nat (length f.2))); [lia|].
  rewrite IH by lia. f_equal. lia.
Qed.

(** A record whose last value is the rowid. *)
Record record_ok (max_local : Z) (fields : list field) (header_len : Z) (rowid : Z) : Prop := {
  ro_fields : Forall field_ok fields;
  ro_header : header_len = Z.of_nat (length (header_of fields header_len));
  ro_local : Z.of_nat (length (record_of fields header_len)) ≤ max_local;
  ro_rowid : int_of <$> last fields = Some (Some rowid)
}.

Lemma checked_add_ok a b : a + b < 2 ^ 64 → checked_add a b = Some (a + b).
Proof. intros Hs. unfold checked_add. by destruct (Z.ltb_spec (a + b) (2 ^ 64)); [|lia]. Qed.

(** The values of a record. *)
Lemma values_read page pos payload_end fields rowid rest :
  Forall field_ok fields → int_of <$> last fields = Some (Some rowid) → follows page pos (concat fields.*2 ++ rest) →
  payload_end = pos + Z.of_nat (length (concat fields.*2)) → payload_end < 2 ^ 64 →
  (rowid_serial ← last fields.*1;
   first_serial ← head fields.*1;
   first_int_key ← read_record_int_key page pos first_serial;
   body_pos ← skip_values payload_end pos (take (length fields.*1 - 1) fields.*1);
   rowid_size ← serial_type_size rowid_serial;
   if payload_end <? body_pos + rowid_size then None else
   rowid ← read_record_int page body_pos rowid_serial;
   Some (rowid, first_int_key, false)) = Some (rowid, head fields ≫= int_of, false).
Proof.
  intros Hok Hrow Hfol Hend Hmax. pose proof (follows_end _ _ _ Hfol) as [Hpos _].
  assert (∀ f, head fields = Some f → read_record_int_key page pos f.1 = Some (int_of f)) as Hkey.
  { intros f Hf. destruct fields as [|f' more]; [done|]. injection Hf as ->. cbn in Hfol. rewrite <-app_assoc in Hfol.
    eapply read_record_int_key_of; [by inversion Hok|exact Hfol]. }
  destruct (last fields) as [l|] eqn:Hlast; [|done]. cbn in Hrow. injection Hrow as Hrow. apply last_Some in Hlast as [init ->].
  apply Forall_app in Hok as [Hinit Hl]. apply Forall_cons in Hl as [Hl _].
  rewrite !fmap_app. cbn [fmap list_fmap map]. rewrite last_snoc. cbn [mbind option_bind].
  destruct (head (init ++ [l])) as [f|] eqn:Hhead; [|by destruct init].
  assert (head (init.*1 ++ [l.1]) = Some f.1) as -> by (destruct init; cbn in Hhead |- *; by injection Hhead as ->).
  cbn [mbind option_bind]. rewrite (Hkey f eq_refl). cbn [mbind option_bind].
  rewrite length_app, Nat.add_sub, take_app_length. rewrite fmap_app, concat_app in Hfol, Hend. cbn [fmap list_fmap map concat] in Hfol, Hend.
  rewrite app_nil_r in Hfol, Hend. rewrite length_app in Hend. rewrite <-app_assoc in Hfol.
  rewrite skip_values_put by (done || lia). cbn [mbind option_bind]. rewrite (serial_size _ _ (proj1 (proj1 Hl)) (proj2 Hl)). cbn [mbind option_bind].
  apply follows_skip in Hfol. rewrite (read_record_int_of _ _ _ _ _ Hl Hfol Hrow).
  by destruct (Z.ltb_spec payload_end (pos + Z.of_nat (length (concat init.*2)) + Z.of_nat (length l.2))); [lia|].
Qed.

Lemma parse_cell page off max_local fields header_len rowid rest :
  record_ok max_local fields header_len rowid → Z.of_nat (length page) < 2 ^ 63 →
  follows page off (index_cell fields header_len ++ rest) →
  parse_index_leaf_cell_rowid page off max_local = Some (rowid, head fields ≫= int_of, false).
Proof.
  intros [Hok Hhdr Hlocal Hrow] Hsmall Hfol. pose proof (follows_end _ _ _ Hfol) as [Hoff Hend].
  unfold index_cell in Hfol, Hend. rewrite !length_app in Hend. set (r := record_of fields header_len) in *.
  assert (length r = length (header_of fields header_len) + length (concat fields.*2))%nat as Hlen by apply length_app.
  pose proof Hhdr as Hh. unfold header_of in Hh. rewrite length_app in Hh.
  unfold parse_index_leaf_cell_rowid. rewrite <-app_assoc in Hfol.
  rewrite (read_varint_put page off (Z.of_nat (length r)) _ ltac:(lia) Hfol). cbn [mbind option_bind].
  rewrite checked_add_ok by lia. cbn [mbind option_bind]. apply follows_skip in Hfol.
  set (start := off + Z.of_nat (length (put_varint (Z.of_nat (length r))))) in *.
  rewrite checked_add_ok by lia. cbn [mbind option_bind].
  destruct (Z.ltb_spec max_local (Z.of_nat (length r))); [lia|].
  destruct (Z.ltb_spec (Z.of_nat (length page)) (start + Z.of_nat (length r))); [lia|].
  unfold r, record_of in Hfol. pose proof Hfol as Hbody. rewrite <-app_assoc in Hbody. apply follows_skip in Hbody.
  rewrite <-Hhdr in Hbody. unfold header_of in Hfol. rewrite <-!app_assoc in Hfol.
  rewrite (read_varint_put page start header_len _ ltac:(lia) Hfol). cbn [mbind option_bind].
  destruct (Z.ltb_spec header_len (Z.of_nat (length (put_varint header_len)))); [lia|].
  rewrite checked_add_ok by lia. cbn [mbind option_bind].
  destruct (Z.ltb_spec (start + Z.of_nat (length r)) (start + header_len)); [lia|].
  apply follows_skip in Hfol.
  replace (start + header_len) with (start + Z.of_nat (length (put_varint header_len)) + Z.of_nat (length (concat (put_varint <$> fields.*1)))) at 1 by lia.
  rewrite (read_serials_put page fields _ (length page) (concat fields.*2 ++ rest)); [|done| |done].
  - cbn [mbind option_bind]. apply (values_read page (start + header_len) _ fields rowid rest); try done; lia.
  - enough (length fields ≤ length (concat (put_varint <$> fields.*1)))%nat by lia.
    clear. induction fields as [|f fields IH]; cbn; [lia|]. rewrite length_app. pose proof (put_varint_nonempty f.1). lia.
Qed.

Lemma parse_spilled page off max_local n rest :
  max_local < n < 2 ^ 62 → Z.of_nat (length page) < 2 ^ 62 → follows page off (put_varint n ++ rest) → 0 ≤ max_local →
  parse_index_leaf_cell_rowid page off max_local = Some (0, None, true).
Proof.
  intros Hn Hsmall Hfol Hmax. pose proof (follows_end _ _ _ Hfol) as [Hoff Hend]. rewrite length_app in Hend.
  unfold parse_index_leaf_cell_rowid. rewrite (read_varint_put page off n _ ltac:(lia) Hfol). cbn [mbind option_bind].
  rewrite checked_add_ok by lia. cbn [mbind option_bind]. rewrite checked_add_ok by lia. cbn [mbind option_bind].
  by destruct (Z.ltb_spec max_local n); [|lia].
Qed.

(* ------------------------------------------------------------------ *)
(** * Index leaves *)

(** A cell that is stored on the page with its rowid, or only begins there. *)
Inductive leaf_cell :=
  | kept_cell (fields : list field) (header_len rowid : Z)
  | spilled_cell (payload_len : Z).

Definition cell_at (max_local : Z) (page : bytes) (off : Z) (c : leaf_cell) : Prop :=
  match c with
  | kept_cell fields header_len rowid =>
    record_ok max_local fields header_len rowid ∧ ∃ rest, follows page off (index_cell fields header_len ++ rest)
  | spilled_cell n => max_local < n < 2 ^ 62 ∧ ∃ rest, follows page off (put_varint n ++ rest)
  end.

Definition row_of (c : leaf_cell) : option Z := match c with kept_cell _ _ rowid => Some rowid | _ => None end.
Definition first_key_of (c : leaf_cell) : option (option Z) :=
  match c with kept_cell fields _ _ => Some (head fields ≫= int_of) | _ => None end.
Definition is_spilled (c : leaf_cell) : bool := match c with spilled_cell _ => true | _ => false end.

(** An index leaf of [usable] bytes with the cells [cs], each at its offset. *)
Record index_leaf (page : bytes) (page1 : bool) (usable : Z) (cs : list (Z * leaf_cell)) : Prop := {
  lf_usable : 480 ≤ usable ≤ Z.of_nat (length page);
  lf_size : Z.of_nat (length page) < 2 ^ 62;
  lf_head : page_header page (if page1 then 100 else 0) 10 (length cs);
  lf_pointers : pointers_at page ((if page1 then 100 else 0) + 8) cs.*1;
  lf_cells : Forall (λ oc, cell_at (max_stored usable false) page oc.1 oc.2) cs
}.

(** The parser's view of such a page. *)
Record parsed_leaf (page : bytes) (header max_local : Z) (cs : list (Z * leaf_cell)) : Prop := {
  pl_max : 0 ≤ max_local;
  pl_kind : kind_at page header = Some 10;
  pl_count : read_u16 page (header + 3) = Some (Z.of_nat (length cs));
  pl_pointers : ∀ i oc, cs !! i = Some oc → read_u16 page (header + 8 + Z.of_nat i * 2) = Some oc.1;
  pl_cells : Forall (λ oc, cell_at max_local page oc.1 oc.2) cs
}.

Lemma placed_u16 page off v : 0 ≤ v < 2 ^ 16 → placed page off (be_bytes 2 v) → read_u16 page off = Some v.
Proof. intros Hv [rest Hf]%placed_follows. by eapply read_u16_put. Qed.

Lemma leaf_parsed page page1 usable cs : index_leaf page page1 usable cs →
  parsed_leaf page (if page1 then 100 else 0) (index_max_local_payload (index_usable_size page page1 (Some usable))) cs.
Proof.
  intros [Hu Hsize (Hn & Hkind & Hcount) Hptr Hcells].
  assert (index_max_local_payload (index_usable_size page page1 (Some usable)) = max_stored usable false) as ->.
  { unfold index_max_local_payload, index_usable_size, max_stored, saturating_sub. rewrite Z.min_l by lia.
    destruct (Z.leb_spec usable 12); [lia|]. pose proof (Z.div_le_lower_bound ((usable - 12) * 64) 255 23 ltac:(lia) ltac:(lia)). lia. }
  split; [| | | |done].
  - unfold max_stored. pose proof (Z.div_le_lower_bound ((usable - 12) * 64) 255 23 ltac:(lia) ltac:(lia)). lia.
  - apply slice_Some in Hkind as (Ha & Hb & Hk). unfold kind_at, at_index. rewrite (proj2 (Z.ltb_ge (if page1 then 100 else 0) 0)) by (by destruct page1).
    pose proof (f_equal (lookup 0%nat) Hk) as Hl. rewrite lookup_take_lt in Hl by (rewrite length_be_bytes; lia).
    rewrite lookup_drop, Nat.add_0_r in Hl. rewrite <-Hl. vm_compute. reflexivity.
  - by apply placed_u16; [lia|].
  - intros i oc Hi. destruct (Hptr i oc.1) as [Hr Hpl]; [by rewrite list_lookup_fmap, Hi|]. by apply placed_u16.
Qed.

Lemma max_local_nonneg usable : 0 ≤ index_max_local_payload usable.
Proof. unfold index_max_local_payload, saturating_sub. case_match; lia. Qed.

Section loop.
Variables (page : bytes) (pointer_array max_local cap : Z) (cs : list (Z * leaf_cell)).
Hypothesis Hsize : Z.of_nat (length page) < 2 ^ 62.
Hypothesis Hmax : 0 ≤ max_local.
Hypothesis Hptr : ∀ i oc, cs !! i = Some oc → read_u16 page (pointer_array + Z.of_nat i * 2) = Some oc.1.
Hypothesis Hcells : Forall (λ oc, cell_at max_local page oc.1 oc.2) cs.

Lemma parse_at oc : oc ∈ cs → parse_index_leaf_cell_rowid page oc.1 max_local =
  match oc.2 with
  | kept_cell fields _ rowid => Some (rowid, head fields ≫= int_of, false)
  | spilled_cell _ => Some (0, None, true)
  end.
Proof.
  intros Hin. rewrite Forall_forall in Hcells. specialize (Hcells oc Hin). destruct oc as [off [fields h rowid|n]]; cbn in *.
  - destruct Hcells as [Hok [rest Hf]]. eapply parse_cell; [done|lia|done].
  - destruct Hcells as [Hn [rest Hf]]. by eapply parse_spilled.
Qed.

Lemma leaf_loop todo i out :
  drop i cs = todo → length (il_rowids out) = length (il_first_int_keys out) → Z.of_nat (length (il_rowids out)) ≤ cap →
  let out' := index_leaf_loop page pointer_array max_local cap out (range (Z.of_nat i) (Z.of_nat (length cs))) in
  il_rowids out' = take (Z.to_nat cap) (il_rowids out ++ omap row_of todo.*2) ∧
  il_first_int_keys out' = take (Z.to_nat cap) (il_first_int_keys out ++ omap first_key_of todo.*2) ∧
  il_malformed_cells out' = il_malformed_cells out ∧
  (Z.of_nat (length (il_rowids out) + length todo) ≤ cap → il_stopped_early out' = il_stopped_early out ∧
     il_overflow_cells out' = il_overflow_cells out + Z.of_nat (length (filter is_spilled todo.*2))).
Proof.
  revert i out. induction todo as [|oc todo IH]; intros i out Hdrop Hkeys Hcap; cbn zeta.
  { assert (length cs ≤ i)%nat as Hi by (apply (f_equal length) in Hdrop; rewrite length_drop in Hdrop; cbn in Hdrop; lia).
    rewrite range_nil by lia. cbn. rewrite !app_nil_r, !take_ge by lia. split_and!; try done. intros _. by rewrite Z.add_0_r. }
  assert (cs !! i = Some oc) as Hi by (rewrite <-(Nat.add_0_r i), <-lookup_drop, Hdrop; done).
  pose proof (lookup_lt_Some _ _ _ Hi) as Hlt. rewrite range_cons by lia.
  assert (drop (S i) cs = todo) as Hdrop' by (erewrite drop_S in Hdrop by done; by injection Hdrop).
  cbn [index_leaf_loop]. destruct (Z.leb_spec cap (Z.of_nat (length (il_rowids out)))) as [Hle|Hgt].
  { cbn [il_rowids il_first_int_keys il_malformed_cells set_field]. rewrite !take_app_le, !take_ge by lia.
    split_and!; try done. cbn [length]. lia. }
  rewrite (Hptr i oc Hi), (parse_at oc) by by eapply list_elem_of_lookup_2. replace (Z.of_nat i + 1) with (Z.of_nat (S i)) by lia.
  destruct oc as [off [fields h rowid|n]]; cbn [snd].
  - set (out1 := out <| il_rowids ::= _ |> <| il_first_int_keys ::= _ |>).
    destruct (IH (S i) out1 Hdrop') as (Hr & Hk & Hm & Hs).
    + cbn. rewrite !length_app. cbn. lia.
    + cbn. rewrite length_app. cbn. lia.
    + rewrite Hr, Hk, Hm. cbn. rewrite <-!app_assoc. split_and!; try done. intros Hc. apply Hs. cbn.
      rewrite length_app. cbn. lia.
  - set (out1 := out <| il_overflow_cells ::= _ |>).
    destruct (IH (S i) out1 Hdrop') as (Hr & Hk & Hm & Hs); [done|done|].
    rewrite Hr, Hk, Hm. split_and!; try done. intros Hc. destruct Hs as [-> ->]; [cbn in *; lia|].
    split; [done|]. change (((off, spilled_cell n) :: todo).*2) with (spilled_cell n :: todo.*2).
    rewrite filter_cons_True by done. cbn [length]. change (il_overflow_cells out1) with (Z.succ (il_overflow_cells out)). lia.
Qed.
End loop.

(** C39. The rowids of an index leaf.  From a page that SQLite has laid out, of
    any number of records, the parser takes the rowid of each record that is
    stored on the page, in order and up to the number it is asked for, with the
    first column where it is an integer; it counts the records that overflow,
    and takes none of them for malformed. *)
Theorem index_leaf_parsed page page1 usable cap cs :
  index_leaf page page1 usable cs → 0 < cap →
  let out := parse_index_leaf_rowids page page1 cap (Some usable) in
  il_rowids out = take (Z.to_nat cap) (omap row_of cs.*2) ∧
  il_first_int_keys out = take (Z.to_nat cap) (omap first_key_of cs.*2) ∧
  il_malformed_cells out = 0 ∧
  (Z.of_nat (length cs) ≤ cap → il_stopped_early out = false ∧
     il_overflow_cells out = Z.of_nat (length (filter is_spilled cs.*2))).
Proof.
  intros Hleaf Hcap. pose proof (leaf_parsed _ _ _ _ Hleaf) as [Hmax Hkind Hcount Hptr Hcells].
  pose proof (lf_size _ _ _ _ Hleaf) as Hsize. pose proof (lf_usable _ _ _ _ Hleaf) as Husable.
  cbn zeta. unfold parse_index_leaf_rowids.
  destruct (Z.eqb_spec cap 0); [lia|]. unfold btree_header. rewrite (proj2 (Z.leb_le _ _)) by (destruct page1; lia).
  rewrite bool_decide_eq_false_2 by (intros Hne; by apply Hne). rewrite Hcount. cbn [default from_option].
  apply (leaf_loop page _ _ cap cs Hsize Hmax Hptr Hcells cs 0%nat no_index_rowids); [done|done|cbn; lia].
Qed.

(** A leaf with a record of two columns, the second the rowid, and one that
    overflows. *)
Definition sample_leaf : bytes :=
  be_bytes 1 10 ++ zeros 2 ++ be_bytes 2 2 ++ zeros 3 ++ be_bytes 2 12 ++ be_bytes 2 18 ++
  index_cell [(1, be_bytes 1 7); (1, be_bytes 1 42)] 3 ++ put_varint 1000 ++ zeros 492.

Definition sample_cells : list (Z * leaf_cell) :=
  [(12, kept_cell [(1, be_bytes 1 7); (1, be_bytes 1 42)] 3 42); (18, spilled_cell 1000)].

Lemma sample_leaf_ok : index_leaf sample_leaf false 512 sample_cells.
Proof.
  split; [vm_compute; split; congruence|vm_compute; reflexivity|split_and!; vm_compute; reflexivity| |].
  - intros [|[|i]] off; [intros [= <-]|intros [= <-]|done]; (split; [lia|vm_compute; reflexivity]).
  - constructor; [|constructor; [|constructor]]; cbn.
    + split; [split|].
      * repeat constructor; cbn; lia.
      * vm_compute. reflexivity.
      * vm_compute. congruence.
      * vm_compute. reflexivity.
      * apply placed_follows. vm_compute. reflexivity.
    + split; [vm_compute; split; congruence|]. apply placed_follows. vm_compute. reflexivity.
Qed.

Lemma index_leaf_parsed_witness :
  let out := parse_index_leaf_rowids sample_leaf false 100 (Some 512) in
  il_rowids out = [42] ∧ il_first_int_keys out = [Some 7] ∧ il_overflow_cells out = 1.
Proof.
  destruct (index_leaf_parsed sample_leaf false 512 100 sample_cells sample_leaf_ok ltac:(lia)) as (Hr & Hk & _ & Ho).
  destruct (Ho ltac:(cbn; lia)) as [_ Hn]. split; [exact Hr|]. split; [exact Hk|exact Hn].
Defined.

(** A row with a negative rowid is taken for a malformed cell of its table's
    leaf: the varint is above the range of [i64::try_from]. *)
Definition negative_leaf : bytes :=
  be_bytes 1 13 ++ zeros 2 ++ be_bytes 2 1 ++ zeros 3 ++ be_bytes 2 10 ++ put_varint 2 ++ put_varint (2 ^ 64 - 5) ++ zeros 493.

Example negative_rowid_malformed :
  let out := parse_table_leaf_rowids negative_leaf false 100 in tl_rowids out = [] ∧ tl_malformed_cells out = 1.
Proof. split; vm_compute; reflexivity. Qed.
