(* ===== verification/Lookahead.v ===== *)
(** The index lookahead (src/src/tiered/lookahead.rs and its callers in
    src/src/tiered/handle.rs): the rowids of an index leaf are resolved to the
    pages of the table, through the interior pages that are cached, and the
    frames of these pages are fetched ahead. *)

From stdpp Require Import strings.
From S2P Require Import Prelude Keys Manifest BTreePeek.
From S2P Require Import CacheTracking Compress Encoding File DiskCache.

(* ------------------------------------------------------------------ *)
(** * Resolving a rowid *)

(** The page of a rowid, when it is known, and the pages on the way. *)
Record RowidPathResolution := { rp_rowid : Z; rp_page_num : option Z; rp_path : list Z }.

(** The first child whose key is not below the rowid. *)
Fixpoint choose_cell (l : list TableInteriorCell) (right : option Z) (rowid : Z) : option Z :=
  match l with
  | [] => right
  | cell :: l => if rowid <=? rowid_key cell then Some (child_page cell) else choose_cell l right rowid
  end.

Definition choose_table_child (interior : TableInteriorCells) (rowid : Z) : option Z :=
  choose_cell (cells interior) (rightmost_child_page interior) rowid.

Definition header_at (page_num : Z) : Z := if page_num =? 0 then 100 else 0.

(** The children, 0-based. *)
Definition child_page_nums (interior : TableInteriorCells) : list Z :=
  (λ child, child - 1) <$>
    filter (λ child, 1 ≤ child) ((child_page <$> cells interior) ++ option_list (rightmost_child_page interior)).

Section resolve.
Context `{Compression} `{Aead K}.

(** A page that cannot be read is skipped, and the buffer is taken to keep what
    it had. *)
Fixpoint any_cached_leaf (l : list Z) (child_page : bytes) : M K bool :=
  match l with
  | [] => mret false
  | child_page_num :: l =>
    present ← gets (λ c, cache_is_present c child_page_num);
    if negb present then any_cached_leaf l child_page else λ c,
    match read_page child_page_num child_page c with
    | (Ok child_page, c) =>
      if bool_decide (kind_at child_page (header_at child_page_num) = Some 13) then (Ok true, c)
      else any_cached_leaf l child_page c
    | (Err _, c) => any_cached_leaf l child_page c
    | (Panic, c) => (Panic, c)
    end
  end.

Definition parent_has_cached_table_leaf_child (interior : TableInteriorCells) (page_size : Z) : M K bool :=
  any_cached_leaf (child_page_nums interior) (zeros (Z.to_nat page_size)).

Variable known_table_interiors : option (gset Z).

(** The descent, of [depth] pages at most. *)
Fixpoint descend (depth : nat) (page_size rowid page_num : Z) (page : bytes) (path : list Z) : M K (option Z * list Z) :=
  match depth with
  | O => mret (None, path)
  | S depth =>
    let path := path ++ [page_num] in
    present ← gets (λ c, cache_is_present c page_num);
    if negb present then mret (None, path) else
    page ← read_page page_num page;
    if bool_decide (kind_at page (header_at page_num) = Some 13) then mret (Some page_num, path) else
    if bool_decide (kind_at page (header_at page_num) ≠ Some 5) then mret (None, path) else
    let interior := parse_table_interior_cells page (page_num =? 0) in
    match choose_table_child interior rowid with
    | None => mret (None, path)
    | Some child_1based =>
      if child_1based =? 0 then mret (None, path) else
      let child_page := child_1based - 1 in
      present ← gets (λ c, cache_is_present c child_page);
      if present : bool then descend depth page_size rowid child_page page path else
      let path := path ++ [child_page] in
      if (match known_table_interiors with Some interiors => bool_decide (child_page ∉ interiors) | None => false end)
      then mret (Some child_page, path) else
      inferred ← parent_has_cached_table_leaf_child interior page_size;
      mret (if inferred : bool then Some child_page else None, path)
    end
  end.

Definition resolve_rowid_to_page_with_path (table_root_page rowid : Z) : M K (option Z * list Z) :=
  ps ← gets page_size;
  if ps =? 0 then mret (None, []) else descend 64 ps rowid table_root_page (zeros (Z.to_nat ps)) [].

Fixpoint resolve_rowids_to_pages_with_paths_and_known_interiors (table_root_page : Z) (rowids : list Z) :
    M K (list RowidPathResolution) :=
  match rowids with
  | [] => mret []
  | rowid :: rowids => λ c,
    let '(r, c) := resolve_rowid_to_page_with_path table_root_page rowid c in
    (_ ← lift (match r with Panic => Panic | _ => Ok () end);
     rest ← resolve_rowids_to_pages_with_paths_and_known_interiors table_root_page rowids;
     let '(page_num, path) := match r with Ok found => found | _ => (None, []) end in
     mret ({| rp_rowid := rowid; rp_page_num := page_num; rp_path := path |} :: rest)) c
  end.
End resolve.

(* ------------------------------------------------------------------ *)
(** * The window of rows *)

(** At most [cap] rows around the anchors, which are in order. *)
Definition anchored_lookahead_window (row_count : Z) (anchor_matches : list Z) (cap : Z) : option (Z * Z) :=
  match anchor_matches, last anchor_matches with
  | first :: _, Some final =>
    if (row_count =? 0) || (cap =? 0) then None else
    let cap := Z.min row_count cap in
    if row_count <=? first then None else
    let final := if row_count <=? final then row_count - 1 else final in
    let final := if cap <? wrap64 (final + 1 - first) then first else final in
    let anchor_len := wrap64 (final - first + 1) in
    let start := saturating_sub first (saturating_sub cap anchor_len / 2) in
    let start := if start + cap <? final + 1 then wrap64 (final + 1 - cap) else start in
    let end_ := Z.min (start + cap) row_count in
    Some (saturating_sub end_ cap, end_)
  | _, _ => None
  end.

(** The rows whose first column is the key of the search. *)
Definition key_matches (row_count : Z) (first_int_keys : list (option Z)) (key_hint : option Z) : list Z :=
  match key_hint with
  | Some hint => (filter (λ ik, ik.2 = Some hint) (enumerate (take (Z.to_nat row_count) first_int_keys))).*1
  | None => []
  end.

Definition key_or_anchor_lookahead_window (row_count : Z) (first_int_keys : list (option Z)) (key_hint : option Z)
    (anchor_matches : list Z) (cap : Z) : option (Z * Z) :=
  if (row_count =? 0) || (cap =? 0) then None else
  match key_matches row_count first_int_keys key_hint with
  | [] => anchored_lookahead_window row_count anchor_matches cap
  | first :: _ as matches =>
    let final := default first (last matches) in
    if wrap64 (final + 1 - first) <=? cap then Some (first, final + 1) else
    let anchors := filter (λ i, first ≤ i ≤ final) anchor_matches in
    '(start, end_) ← anchored_lookahead_window row_count (if bool_decide (anchors = []) then [first] else anchors) cap;
    let start := Z.max start first in let end_ := Z.min end_ (final + 1) in
    if start <? end_ then Some (start, end_) else None
  end.

(** The frames around the anchor's. *)
Definition anchored_frame_window (frame_count anchor_frame cap : Z) : Z * Z :=
  if (frame_count =? 0) || (cap =? 0) then (0, 0) else
  let cap := Z.min frame_count cap in
  let start := saturating_sub anchor_frame (cap / 2) in
  let start := if frame_count <? start + cap then frame_count - cap else start in
  (start, start + cap).

Definition manifest_usable_size (m : Manifest) : Z :=
  saturating_sub (Manifest.page_size m) (default 0 (header ← db_header m; kind_at header 20)).

(* ------------------------------------------------------------------ *)
(** * Firing *)

Record RetainedLookahead := {
  index_tree_name : string;
  table_name : string;
  rl_rowids : list Z;
  rl_first_int_keys : list (option Z);
  key_hint : option Z
}.

(** The served index leaf, kept until a leaf of its table is served. *)
Definition retain (m : Manifest) (tree_name table : string) (hint : option Z) (page_num : Z) (page : bytes) : option RetainedLookahead :=
  let parsed := parse_index_leaf_rowids page (page_num =? 0) (2 ^ 64 - 1) (Some (manifest_usable_size m)) in
  if bool_decide (il_rowids parsed = []) then None else
  Some {| index_tree_name := tree_name; table_name := table; rl_rowids := il_rowids parsed;
          rl_first_int_keys := il_first_int_keys parsed; key_hint := hint |}.

(** The rows that the served leaf of the table holds. *)
Definition anchor_rows (rowids : list Z) (anchor_page_num : Z) (anchor_page : option bytes) : list Z :=
  match anchor_page with
  | Some page =>
    let held := tl_rowids (parse_table_leaf_rowids page (anchor_page_num =? 0) (2 ^ 64 - 1)) in
    (filter (λ ir, ir.2 ∈ held) (enumerate rowids)).*1
  | None => []
  end.

Definition add_frame (frames : gmap Z (gset Z)) (gid frame : Z) : gmap Z (gset Z) :=
  <[gid := {[ frame ]} ∪ default ∅ (frames !! gid)]> frames.

(** The frame of a page, unless its group has no such frame. *)
Definition frame_of (m : Manifest) (page_num : Z) : option (Z * Z) :=
  loc ← page_location m page_num;
  let frame := index loc / Manifest.sub_pages_per_frame m in
  ft ← at_index (frame_tables m) (group_id loc);
  if frame <? Z.of_nat (length ft) then Some (group_id loc, frame) else None.

(** The frames of the resolved pages; when there are none, those around the
    anchor's. *)
Definition frames_by_gid (m : Manifest) (anchor_page_num : Z) (resolutions : list RowidPathResolution) : gmap Z (gset Z) :=
  let frames := foldl (λ frames r,
    match r ← rp_page_num r; frame_of m r with
    | Some (gid, frame) => add_frame frames gid frame
    | None => frames
    end) ∅ resolutions in
  if negb (bool_decide (frames = ∅)) then frames else
  match page_location m anchor_page_num with
  | None => ∅
  | Some loc =>
    match at_index (frame_tables m) (group_id loc) with
    | None => ∅
    | Some ft =>
      let '(start, end_) := anchored_frame_window (Z.of_nat (length ft)) (index loc / Manifest.sub_pages_per_frame m) 32 in
      foldl (λ frames frame, add_frame frames (group_id loc) frame) ∅ (range start end_)
    end
  end.

(** The batches that are submitted: the object and the frames of each group. *)
Definition batches (m : Manifest) (frames : list (Z * gset Z)) : list (Z * string * list Z) :=
  omap (λ '(gid, frames),
    key ← at_index (page_group_keys m) gid;
    if bool_decide (key = ""%string) then None else
    if bool_decide (default [] (at_index (frame_tables m) gid) = []) then None else
    Some (gid, key, merge_sort Z.le (elements frames))) frames.

Section fire.
Context `{HashIter} `{Compression} `{Aead K}.

(** [fire_retained_lookahead], up to the thread pool that fetches. *)
Definition fire_retained_lookahead (m : Manifest) (retained : RetainedLookahead) (anchor_page_num : Z)
    (anchor_page : option bytes) : M K (list (Z * string * list Z)) :=
  if Manifest.sub_pages_per_frame m =? 0 then mret [] else
  match tree_name_to_root_page (tree_indexes m) !! table_name retained with
  | None => mret []
  | Some table_root_page =>
    match key_or_anchor_lookahead_window (Z.of_nat (length (rl_rowids retained))) (rl_first_int_keys retained) (key_hint retained)
            (anchor_rows (rl_rowids retained) anchor_page_num anchor_page) 32 with
    | None => mret []
    | Some (start, end_) =>
      window_rowids ← lift (or_panic (slice start end_ (rl_rowids retained)));
      resolutions ← resolve_rowids_to_pages_with_paths_and_known_interiors None table_root_page window_rowids;
      mret (batches m (hiter (frames_by_gid m anchor_page_num resolutions)))
    end
  end.
End fire.
