(* ===== verification/LookaheadSafety.v ===== *)
(** The lookahead finds rows: a page that a rowid is resolved to is the leaf
    that holds the row; the windows of rows and of frames are within bounds and
    hold their anchor. *)

From stdpp Require Import strings.
From S2P Require Import Prelude Manifest BTreePeek.
From S2P Require Import CacheTracking Compress Encoding File DiskCache CacheView Lookahead.

(* ------------------------------------------------------------------ *)
(** * Table B-trees *)

Section tree.
Variable D : Z → bytes.

Definition kind_of (p : Z) : option Z := kind_at (D p) (header_at p).
Definition interior_of (p : Z) : TableInteriorCells := parse_table_interior_cells (D p) (p =? 0).
Definition children_of (p : Z) : list Z :=
  (child_page <$> cells (interior_of p)) ++ option_list (rightmost_child_page (interior_of p)).

Definition leaf_holds (p rowid : Z) : Prop := rowid ∈ tl_rowids (parse_table_leaf_rowids (D p) (p =? 0) (2 ^ 64 - 1)).

(** The subtrees, with the rowids of each above the key on its left and up to
    the key on its right. *)
Fixpoint subtrees (T : Z → Z → Z → Prop) (right lo hi : Z) (l : list TableInteriorCell) : Prop :=
  match l with
  | [] => 1 ≤ right ∧ lo ≤ hi ∧ T (right - 1) lo hi
  | cell :: l => 1 ≤ child_page cell ∧ lo ≤ rowid_key cell ∧ T (child_page cell - 1) lo (rowid_key cell) ∧
                 subtrees T right (rowid_key cell) hi l
  end.

(** The tree at a page, of some height: all leaves at the same depth. *)
Fixpoint table_tree (height : nat) (p lo hi : Z) : Prop :=
  match height with
  | O => kind_of p = Some 13 ∧ ∀ rowid, leaf_holds p rowid → lo < rowid ≤ hi
  | S height => kind_of p = Some 5 ∧ ∃ right, rightmost_child_page (interior_of p) = Some right ∧
                subtrees (table_tree height) right lo hi (cells (interior_of p))
  end.

(** The row is on leaf [q] of the tree. *)
Fixpoint tree_holds (height : nat) (p rowid q : Z) : Prop :=
  match height with
  | O => q = p ∧ leaf_holds p rowid
  | S height => ∃ child, child ∈ children_of p ∧ tree_holds height (child - 1) rowid q
  end.

Fixpoint tree_page (height : nat) (p x : Z) : Prop :=
  x = p ∨ match height with O => False | S height => ∃ child, child ∈ children_of p ∧ tree_page height (child - 1) x end.

Lemma subtrees_le T right lo hi l : subtrees T right lo hi l → lo ≤ hi.
Proof. revert lo. induction l as [|cell l IH]; intros lo; cbn; [lia|]. intros (_ & Hle & _ & Hrest%IH). lia. Qed.

Lemma subtrees_child T right lo hi l child :
  subtrees T right lo hi l → child ∈ (child_page <$> l) ++ [right] →
  1 ≤ child ∧ ∃ lo' hi', lo ≤ lo' ∧ hi' ≤ hi ∧ T (child - 1) lo' hi'.
Proof.
  revert lo. induction l as [|cell l IH]; intros lo; cbn.
  - intros (Hr & Hle & HT) ->%list_elem_of_singleton. split; [done|]. exists lo, hi. split_and!; [lia|lia|done].
  - intros (Hc & Hle & HT & Hrest) [->|Hin]%elem_of_cons.
    + split; [done|]. exists lo, (rowid_key cell). apply subtrees_le in Hrest. split_and!; [lia|lia|done].
    + destruct (IH _ Hrest Hin) as (Hc1 & lo' & hi' & ? & ? & ?). split; [done|]. exists lo', hi'. split_and!; [lia|lia|done].
Qed.

Lemma children_right p right : rightmost_child_page (interior_of p) = Some right →
  children_of p = (child_page <$> cells (interior_of p)) ++ [right].
Proof. intros Hr. unfold children_of. by rewrite Hr. Qed.

Lemma holds_within height p lo hi rowid q : table_tree height p lo hi → tree_holds height p rowid q → lo < rowid ≤ hi.
Proof.
  revert p lo hi. induction height as [|height IH]; intros p lo hi; cbn.
  - intros [_ Hb] [_ Hh]. by apply Hb.
  - intros (_ & right & Hr & Hsub) (child & Hin & Hh). rewrite (children_right _ _ Hr) in Hin.
    destruct (subtrees_child _ _ _ _ _ _ Hsub Hin) as (_ & lo' & hi' & ? & ? & HT). specialize (IH _ _ _ HT Hh). lia.
Qed.

(** The child that the search takes is the one the row is under. *)
Lemma choose_right height right lo hi l rowid q child :
  subtrees (table_tree height) right lo hi l → child ∈ (child_page <$> l) ++ [right] → tree_holds height (child - 1) rowid q →
  ∃ taken, choose_cell l (Some right) rowid = Some taken ∧ taken ∈ (child_page <$> l) ++ [right] ∧ tree_holds height (taken - 1) rowid q.
Proof.
  revert lo. induction l as [|cell l IH]; intros lo; cbn.
  - intros (_ & _ & HT) ->%list_elem_of_singleton Hh. exists right. by split_and!; [|left|].
  - intros (Hc & Hle & HT & Hrest) Hin Hh. destruct (Z.leb_spec rowid (rowid_key cell)) as [Hk|Hk].
    + exists (child_page cell). split; [done|]. split; [by left|].
      apply elem_of_cons in Hin as [->|Hin]; [done|]. destruct (subtrees_child _ _ _ _ _ _ Hrest Hin) as (_ & lo' & hi' & ? & ? & HT').
      pose proof (holds_within _ _ _ _ _ _ HT' Hh). lia.
    + apply elem_of_cons in Hin as [->|Hin].
      { pose proof (holds_within _ _ _ _ _ _ HT Hh). lia. }
      destruct (IH _ Hrest Hin Hh) as (taken & ? & ? & ?). exists taken. split; [done|]. split; [by right|done].
Qed.

Lemma tree_kind height p lo hi : table_tree height p lo hi → kind_of p = Some (if decide (height = 0%nat) then 13 else 5).
Proof. destruct height; cbn; [by intros [-> _]|by intros [-> _]]. Qed.

(** The children of a page are leaves when one of them is. *)
Lemma sibling_leaf height p lo hi child child' :
  table_tree (S height) p lo hi → child ∈ children_of p → child' ∈ children_of p → kind_of (child' - 1) = Some 13 → height = 0%nat.
Proof.
  cbn. intros (_ & right & Hr & Hsub) Hin Hin' Hk. rewrite (children_right _ _ Hr) in Hin'.
  destruct (subtrees_child _ _ _ _ _ _ Hsub Hin') as (_ & lo' & hi' & _ & _ & HT). apply tree_kind in HT.
  rewrite HT in Hk. by destruct (decide _).
Qed.
End tree.

(* ------------------------------------------------------------------ *)
(** * The descent *)

Section descent.
Context `{Compression} `{Aead K}.
Variables (D : Z → bytes) (c : DiskCache K).
Hypothesis Hok : cache_ok c.
Hypothesis Hsound : ∀ p d, 0 ≤ p → stored c p = Some d → d = D p.

Lemma exact_read_state n off : (read_exact_at n off c).2 = c.
Proof.
  unfold read_exact_at. destruct (n =? 0); [done|]. unfold mbind, M_bind, pop_fault. rewrite (ok_quiet _ Hok).
  by destruct (_ <=? _).
Qed.

(** A read leaves the cache alone, and gives the database. *)
Lemma page_read_state p buf : (read_page p buf c).2 = c.
Proof.
  assert (∀ A (f : bytes → M K A) n off, (∀ b, (f b c).2 = c) → ((read_exact_at n off ≫= f) c).2 = c) as Hread.
  { intros A f n off Hf. pose proof (exact_read_state n off) as Hs. unfold mbind at 1, M_bind at 1.
    destruct (read_exact_at n off c) as [[b|e|] c']; cbn in Hs; subst c'; [apply Hf|done..]. }
  assert (∀ A B (x : io A) (f : A → M K B), (∀ a, (f a c).2 = c) → ((lift x ≫= f) c).2 = c) as Hlift.
  { intros A B x f Hf. unfold mbind, M_bind, lift. by destruct x. }
  unfold read_page, check_tainted. unfold mbind at 1, M_bind at 1. unfold gets at 1, mbind at 1, M_bind at 1, lift at 1.
  rewrite (ok_taint _ Hok). cbn [guard_err]. unfold mbind at 1, M_bind at 1, gets at 1.
  destruct ((cache_compression ∘ cfg) c).
  - unfold read_page_compressed. unfold mbind at 1, M_bind at 1, gets at 1. apply Hlift. intros e. apply Hread. intros b.
    unfold mbind at 1, M_bind at 1, gets at 1. apply Hlift. intros d. unfold mbind at 1, M_bind at 1, gets at 1.
    apply Hlift. intros d'. by case_match.
  - unfold mbind at 1, M_bind at 1, gets at 1. unfold mbind at 1, M_bind at 1, gets at 1. case_match; [done|].
    unfold mbind at 1, M_bind at 1, gets at 1. case_match; [|apply exact_read_state].
    apply Hread. intros b. by apply Hlift.
Qed.

Lemma read_present p buf : 0 ≤ p → cache_is_present c p → Z.of_nat (length buf) = page_size c →
  read_page p buf c = (Ok (D p), c) ∧ Z.of_nat (length (D p)) = page_size c.
Proof.
  intros Hp Hpres Hbuf. pose proof (read_page_run c p buf Hok Hp Hpres Hbuf) as Hr. pose proof (page_read_state p buf) as Hs.
  destruct (ok_stored _ Hok p Hp Hpres) as [d Hd]. pose proof (stored_length _ _ _ Hd). rewrite Hd in Hr. apply Hsound in Hd; [|done].
  subst d. destruct (read_page p buf c). cbn in *. by subst.
Qed.

Lemma child_nums_spec (interior : TableInteriorCells) child :
  child ∈ child_page_nums interior ↔
  child + 1 ∈ (child_page <$> cells interior) ++ option_list (rightmost_child_page interior) ∧ 0 ≤ child.
Proof.
  unfold child_page_nums. rewrite list_elem_of_fmap. split.
  - intros (x & -> & [Hx Hin]%list_elem_of_filter). replace (x - 1 + 1) with x by lia. split; [done|lia].
  - intros [Hin Hp]. exists (child + 1). split; [lia|]. apply list_elem_of_filter. split; [lia|done].
Qed.

Lemma any_leaf_run l buf : Forall (λ p, 0 ≤ p) l → Z.of_nat (length buf) = page_size c →
  ∃ b : bool, any_cached_leaf l buf c = (Ok b, c) ∧ (b → ∃ p, p ∈ l ∧ kind_of D p = Some 13) ∧
    ((∃ p, p ∈ l ∧ cache_is_present c p ∧ kind_of D p = Some 13) → b).
Proof.
  intros Hl. revert buf. induction Hl as [|p l Hp _ IH]; intros buf Hbuf; cbn [any_cached_leaf].
  { exists false. split; [done|]. split; [done|]. by intros (p & ?%elem_of_nil & _). }
  unfold mbind, M_bind, gets. destruct (cache_is_present c p) eqn:Hpres; cbn [negb].
  - destruct (read_present p buf Hp ltac:(by rewrite Hpres) Hbuf) as [Hr Hlen]. rewrite Hr. case_bool_decide as Hk.
    + exists true. split; [done|]. split; [|done]. intros _. exists p. split; [by left|done].
    + destruct (IH (D p) Hlen) as (b & Hb & H1' & H2'). exists b. split; [done|]. split.
      * intros (q & Hq & Hk')%H1'. exists q. split; [by right|done].
      * intros (q & [->|Hq]%elem_of_cons & Hp' & Hk'); [done|]. apply H2'. by exists q.
  - destruct (IH buf Hbuf) as (b & Hb & H1' & H2'). exists b. split; [done|]. split.
    + intros (q & Hq & Hk')%H1'. exists q. split; [by right|done].
    + intros (q & [->|Hq]%elem_of_cons & Hp' & Hk'); [by rewrite Hpres in Hp'|]. apply H2'. by exists q.
Qed.

Variables (known : option (gset Z)) (rowid : Z).

(** The interior pages of the table, when they are given, are those. *)
Definition known_right (height : nat) (p : Z) : Prop :=
  ∀ interiors, known = Some interiors → ∀ x, tree_page D height p x → x ∈ interiors ↔ kind_of D x = Some 5.

(** The rowid is resolved to the leaf of the row or not at all; it is when the
    interior pages are cached and the leaf is, or the interior pages are known. *)
Definition resolved_right (height : nat) (p q : Z) (r : option Z * list Z) : Prop :=
  (r.1 = None ∨ r.1 = Some q ∧ last r.2 = Some q) ∧
  ((∀ x, tree_page D height p x → kind_of D x = Some 5 → cache_is_present c x) →
     is_Some known ∧ height ≠ 0%nat ∨ cache_is_present c q → r.1 = Some q).

Lemma tree_child height p child x : child ∈ children_of D p → tree_page D height (child - 1) x → tree_page D (S height) p x.
Proof. intros Hin Hx. right. by exists child. Qed.

Lemma tree_page_root height p : tree_page D height p p.
Proof. destruct height; by left. Qed.

Lemma child_listed p right child : rightmost_child_page (interior_of D p) = Some right → 1 ≤ child →
  child ∈ children_of D p → child - 1 ∈ child_page_nums (interior_of D p).
Proof.
  intros Hr Hc Hin. apply child_nums_spec. replace (child - 1 + 1) with child by lia. split; [|lia]. exact Hin.
Qed.

(** A child that is not cached is taken for a leaf only when it is one. *)
Lemma uncached_child_run height p lo hi child q (page : bytes) (path : list Z) :
  table_tree D (S height) p lo hi → child ∈ children_of D p → 1 ≤ child → tree_holds D height (child - 1) rowid q →
  Z.of_nat (length page) = page_size c → ¬ cache_is_present c (child - 1) → known_right (S height) p →
  ∃ r, (if (match known with Some interiors => bool_decide (child - 1 ∉ interiors) | None => false end)
        then mret (Some (child - 1), path ++ [child - 1]) else
        inferred ← parent_has_cached_table_leaf_child (interior_of D p) (page_size c);
        mret (if inferred : bool then Some (child - 1) else None, path ++ [child - 1])) c = (Ok r, c) ∧
    resolved_right (S height) p q r.
Proof.
  intros Ht Hin Hc Hh Hpage Habs Hknown. pose proof Ht as (_ & right & Hr & Hsub).
  pose proof Hin as Hin'. rewrite (children_right _ _ _ Hr) in Hin'.
  destruct (subtrees_child _ _ _ _ _ _ Hsub Hin') as (_ & lo' & hi' & _ & _ & HT).
  pose proof (tree_kind _ _ _ _ _ HT) as Hk. pose proof (tree_child height p child (child - 1) Hin (tree_page_root _ _)) as Hpg.
  assert (height = 0%nat → q = child - 1) as Hleaf by (intros ->; by destruct Hh).
  assert (height ≠ 0%nat → ¬ ∀ x, tree_page D (S height) p x → kind_of D x = Some 5 → cache_is_present c x) as Hdeep.
  { intros Hne Hall. apply Habs, Hall; [done|]. rewrite Hk. by case_decide. }
  assert (∃ b : bool, parent_has_cached_table_leaf_child (interior_of D p) (page_size c) c = (Ok b, c) ∧
            (b → height = 0%nat) ∧ (cache_is_present c q → height = 0%nat → False)) as (b & Hb & Hb1 & Hb2).
  { unfold parent_has_cached_table_leaf_child. destruct (any_leaf_run (child_page_nums (interior_of D p)) (zeros (Z.to_nat (page_size c))))
      as (b & Hb & Hb1 & _).
    - apply Forall_forall. by intros x [_ ?]%child_nums_spec.
    - unfold zeros. rewrite length_replicate. pose proof (Zle_0_nat (length page)). lia.
    - exists b. split; [exact Hb|]. split.
      + intros (x & [Hx _]%child_nums_spec & Hkx)%Hb1. replace x with (x + 1 - 1) in Hkx by lia. eapply sibling_leaf; done.
      + intros Hq Hz. rewrite (Hleaf Hz) in Hq. done. }
  unfold resolved_right. destruct known as [interiors|] eqn:Hkn.
  - case_bool_decide as Hmem.
    + exists (Some (child - 1), path ++ [child - 1]). split; [done|]. cbn [fst snd]. rewrite last_snoc.
      assert (height = 0%nat) as Hz.
      { destruct (decide (height = 0%nat)); [done|]. exfalso. apply Hmem, (Hknown interiors Hkn _ Hpg). exact Hk. }
      rewrite (Hleaf Hz). split; [by right|done].
    + unfold mbind, M_bind. rewrite Hb. destruct (decide (height = 0%nat)) as [Hz|Hz].
      { exfalso. apply (Hknown interiors Hkn _ Hpg) in Hmem. by rewrite Hk in Hmem. }
      destruct b; [by destruct Hz, Hb1|]. eexists. split; [done|]. split; [by left|]. intros Hall. by destruct (Hdeep Hz).
  - unfold mbind, M_bind. rewrite Hb. destruct b.
    + eexists. split; [done|]. cbn [fst snd]. rewrite last_snoc. rewrite (Hleaf (Hb1 I)). split; [by right|done].
    + eexists. split; [done|]. split; [by left|]. intros Hall [[[] _]|Hq]; [done|]. destruct (decide (height = 0%nat)) as [Hz|Hz].
      * by destruct Hb2.
      * by destruct (Hdeep Hz).
Qed.

Lemma descend_run height p lo hi q depth page path :
  table_tree D height p lo hi → tree_holds D height p rowid q → 0 ≤ p → (height < depth)%nat →
  Z.of_nat (length page) = page_size c → known_right height p →
  ∃ r, descend known depth (page_size c) rowid p page path c = (Ok r, c) ∧ resolved_right height p q r.
Proof.
  revert depth p lo hi page path. induction height as [|height IH]; intros depth p lo hi page path Ht Hh Hp Hd Hpage Hknown;
    (destruct depth as [|depth]; [lia|]); cbn [descend]; unfold mbind at 1, M_bind at 1, gets at 1;
    destruct (cache_is_present c p) eqn:Hpres; cbn [negb].
  - destruct (read_present p page Hp ltac:(by rewrite Hpres) Hpage) as [Hr _]. unfold mbind at 1, M_bind at 1. rewrite Hr.
    pose proof (tree_kind _ _ _ _ _ Ht) as Hk. unfold kind_of in Hk. rewrite Hk. cbn.
    exists (Some p, path ++ [p]). split; [done|]. destruct Hh as [-> _]. split; [right; cbn [fst snd]; by rewrite last_snoc|done].
  - exists (None, path ++ [p]). split; [done|]. destruct Hh as [-> _]. split; [by left|].
    intros _ [[_ ?]|Hq]; [done|by rewrite Hpres in Hq].
  - destruct (read_present p page Hp ltac:(by rewrite Hpres) Hpage) as [Hr Hlen]. unfold mbind at 1, M_bind at 1. rewrite Hr.
    pose proof (tree_kind _ _ _ _ _ Ht) as Hk. unfold kind_of in Hk. rewrite Hk.
    pose proof Ht as (_ & right & Hright & Hsub). destruct Hh as (child0 & Hin0 & Hh0).
    rewrite (children_right _ _ _ Hright) in Hin0.
    destruct (choose_right _ _ _ _ _ _ _ _ _ Hsub Hin0 Hh0) as (child & Hch & Hin & Hh).
    destruct (subtrees_child _ _ _ _ _ _ Hsub Hin) as (Hc & lo' & hi' & _ & _ & HT). rewrite <-(children_right _ _ _ Hright) in Hin.
    cbn zeta. change (parse_table_interior_cells (D p) (p =? 0)) with (interior_of D p).
    unfold choose_table_child. rewrite Hright, Hch. destruct (Z.eqb_spec child 0); [lia|].
    unfold mbind at 1, M_bind at 1, gets at 1. rewrite bool_decide_false by done. rewrite bool_decide_false by (intros Hn; by apply Hn).
    destruct (cache_is_present c (child - 1)) eqn:Hpc.
    + destruct (IH depth (child - 1) lo' hi' (D p) (path ++ [p]) HT Hh ltac:(lia) ltac:(lia) Hlen) as (r & Hrun & Hsound' & Hfull).
      { intros ints Hi x Hx. apply (Hknown ints Hi). by eapply tree_child. }
      exists r. split; [exact Hrun|]. split; [exact Hsound'|]. intros Hall Hor. apply Hfull.
      * intros x Hx. apply Hall. by eapply tree_child.
      * destruct (decide (height = 0%nat)) as [->|Hz]; [right; destruct Hh as [-> _]; by rewrite Hpc|].
        destruct Hor as [[Hs _]|Hq]; [left|right]; done.
    + apply (uncached_child_run height p lo hi child q (D p) (path ++ [p]) Ht Hin Hc Hh Hlen); [rewrite Hpc; by intros []|done].
  - exists (None, path ++ [p]). split; [done|]. split; [by left|]. intros Hall _. pose proof (tree_kind _ _ _ _ _ Ht) as Hk.
    specialize (Hall p (tree_page_root (S height) p) Hk). by rewrite Hpres in Hall.
Qed.
End descent.

(** A row of the table is looked up on its leaf.  The cache is consistent and
    serves the pages [D]; the table is a tree of at most 63 levels above its
    leaves; the known interior pages, where they are given, are those of the
    table.  The rowid is then resolved to the leaf of the row or not at all, and
    it is resolved when the interior pages are cached and the leaf is cached too
    or the interior pages are known. *)
Theorem rowid_resolved `{Compression} `{Aead K} (D : Z → bytes) (c : DiskCache K) known height root lo hi rowid q :
  cache_ok c → (∀ p d, 0 ≤ p → stored c p = Some d → d = D p) → 0 ≤ root → 0 < page_size c → (height < 64)%nat →
  table_tree D height root lo hi → tree_holds D height root rowid q → known_right D known height root →
  ∃ r, resolve_rowid_to_page_with_path known root rowid c = (Ok r, c) ∧ resolved_right D c known height root q r.
Proof.
  intros Hok Hsound Hroot Hps Hh Ht Hq Hknown. unfold resolve_rowid_to_page_with_path, mbind, M_bind, gets.
  destruct (Z.eqb_spec (page_size c) 0); [lia|]. eapply descend_run; try done.
  unfold zeros. rewrite length_replicate. lia.
Qed.

(* ------------------------------------------------------------------ *)
(** * The windows *)

(** The window of frames is as wide as it may be and holds the anchor. *)
Theorem frame_window_holds_anchor frame_count anchor cap :
  0 ≤ anchor < frame_count → 0 < cap →
  let '(a, b) := anchored_frame_window frame_count anchor cap in
  0 ≤ a ≤ anchor ∧ anchor < b ≤ frame_count ∧ b - a = Z.min frame_count cap.
Proof.
  intros Ha Hc. unfold anchored_frame_window, saturating_sub.
  destruct (Z.eqb_spec frame_count 0); [lia|]. destruct (Z.eqb_spec cap 0); [lia|]. cbn [orb].
  set (c := Z.min frame_count cap). pose proof (Z.div_mod c 2 ltac:(lia)). pose proof (Z.mod_pos_bound c 2 ltac:(lia)).
  destruct (Z.ltb_spec frame_count (Z.max 0 (anchor - c / 2) + c)); lia.
Qed.

(** So is the window of rows, around the first of its anchors. *)
Theorem row_window_holds_anchor row_count first more final cap :
  last (first :: more) = Some final → 0 ≤ first ≤ final → first < row_count < 2 ^ 62 → final < 2 ^ 62 → 0 < cap →
  ∃ a b, anchored_lookahead_window row_count (first :: more) cap = Some (a, b) ∧
    0 ≤ a ≤ first ∧ first < b ≤ row_count ∧ b - a = Z.min row_count cap.
Proof.
  intros Hl Hf Hr Hfin Hc. unfold anchored_lookahead_window. rewrite Hl. unfold saturating_sub.
  destruct (Z.eqb_spec row_count 0); [lia|]. destruct (Z.eqb_spec cap 0); [lia|]. cbn [orb].
  destruct (Z.leb_spec row_count first); [lia|]. set (c := Z.min row_count cap).
  set (final' := if row_count <=? final then row_count - 1 else final).
  assert (first ≤ final' < row_count) as Hf' by (unfold final'; destruct (Z.leb_spec row_count final); lia).
  clearbody final'. rewrite (wrap64_id (final' + 1 - first)) by (unfold is_u64; lia).
  set (final2 := if c <? final' + 1 - first then first else final').
  assert (first ≤ final2 < row_count ∧ final2 + 1 - first ≤ c) as Hf2 by (unfold final2; destruct (Z.ltb_spec c (final' + 1 - first)); lia).
  clearbody final2. rewrite (wrap64_id (final2 - first + 1)) by (unfold is_u64; lia).
  set (half := Z.max 0 (c - (final2 - first + 1)) / 2).
  assert (0 ≤ half ∧ 2 * half ≤ c - (final2 - first + 1)) as Hh.
  { unfold half. pose proof (Z.div_mod (Z.max 0 (c - (final2 - first + 1))) 2 ltac:(lia)).
    pose proof (Z.mod_pos_bound (Z.max 0 (c - (final2 - first + 1))) 2 ltac:(lia)). lia. }
  clearbody half. eexists _, _. split; [done|].
  destruct (Z.ltb_spec (Z.max 0 (first - half) + c) (final2 + 1)) as [Hlt|Hge]; [rewrite !wrap64_id by (unfold is_u64; lia)|]; lia.
Qed.
