(* ===== verification/BTreeWalker.v ===== *)
(** The pages of each B-tree of a SQLite database (src/src/btree_walker.rs):
    sqlite_master gives the roots, and each tree is walked breadth first with
    the overflow chains of its leaves.

    The walk and the recursion over sqlite_master are given fuel; running out of
    it is a [Panic] of the model, which the theorems below exclude. *)

From stdpp Require Import strings.
From S2P Require Import Prelude Vfs.

(* ------------------------------------------------------------------ *)
(** * The parts of a page *)

(** Interior index and table pages, leaf index and table pages. *)
Definition INTERIOR_INDEX : Z := 2.
Definition INTERIOR_TABLE : Z := 5.
Definition LEAF_INDEX : Z := 10.
Definition LEAF_TABLE : Z := 13.

Definition size_of (buf : bytes) : Z := Z.of_nat (length buf).

(** A SQLite varint: seven bits per byte, eight in the ninth; and the number of
    bytes read. *)
Fixpoint varint_from (more : nat) (val used : Z) (buf : bytes) : Z * Z :=
  match more, buf with
  | _, [] => (val, used)
  | O, b :: _ => (Z.lor (Z.shiftl val 8) (of_be [b]), used + 1)
  | S more, b :: rest =>
    let val := Z.lor (Z.shiftl val 7) (Z.land (of_be [b]) 127) in
    if Z.land (of_be [b]) 128 =? 0 then (val, used + 1) else varint_from more val (used + 1) rest
  end.

Definition read_varint (buf : bytes) : Z * Z := varint_from 8 0 0 buf.

(** The varint at an offset of the page, and the offset behind it. *)
Definition varint_at (pos : Z) (buf : bytes) : Z * Z :=
  let '(val, used) := read_varint (drop (Z.to_nat pos) buf) in (val, pos + used).

(** The offsets of the cells, from the pointer array; one that is cut off ends
    the list. *)
Definition cell_offsets (start count : Z) (buf : bytes) : list Z :=
  (λ i, be_at 2 (start + i * 2) buf) <$>
    filter (λ i, start + i * 2 + 2 ≤ size_of buf) (range 0 count).

Definition extract_interior_children (buf : bytes) (hdr_off : Z) : list Z :=
  if size_of buf <? hdr_off + 12 then [] else
  let max_cells := saturating_sub (size_of buf) (hdr_off + 12) / 2 in
  let cell_count := Z.min (be_at 2 (hdr_off + 3) buf) max_cells in
  be_at 4 (hdr_off + 8) buf ::
    ((λ off, be_at 4 off buf) <$> filter (λ off, off + 4 ≤ size_of buf) (cell_offsets (hdr_off + 12) cell_count buf)).

Definition sub64 (a b : Z) : Z := wrap64 (a - b).

(** Payload that stays on the page, of table and of index leaves. *)
Definition max_local_of (usable : Z) (is_table : bool) : Z :=
  if is_table then sub64 usable 35 else sub64 (wrap64 (sub64 usable 12 * 64) / 255) 23.

Definition min_local_of (usable : Z) : Z := sub64 (wrap64 (sub64 usable 12 * 32) / 255) 23.

(** The local part of a payload that overflows. *)
Definition local_size_of (usable max_local payload : Z) : io Z :=
  let min_local := min_local_of usable in
  if sub64 usable 4 =? 0 then Panic else
  let surplus := wrap64 (min_local + sub64 payload min_local mod sub64 usable 4) in
  Ok (if surplus <=? max_local then surplus else min_local).

(** The first overflow page of a cell, if it has one. *)
Definition cell_overflow (usable : Z) (is_table : bool) (buf : bytes) (cell_off : Z) : io (list Z) :=
  let max_local := max_local_of usable is_table in
  let '(payload, pos) := varint_at cell_off buf in
  let pos := if is_table then (varint_at pos buf).2 else pos in
  if payload <=? max_local then Ok [] else
  local ← local_size_of usable max_local payload;
  let off := wrap64 (pos + local) in
  Ok (if size_of buf <? wrap64 (off + 4) then [] else
      let ovfl := be_at 4 off buf in if ovfl =? 0 then [] else [ovfl]).

Definition extract_leaf_overflow_pages (page_size : Z) (buf : bytes) (hdr_off type_byte : Z) : io (list Z) :=
  if size_of buf <? hdr_off + 8 then Ok [] else
  let cell_count := be_at 2 (hdr_off + 3) buf in
  cells ← mapM (cell_overflow page_size (type_byte =? LEAF_TABLE) buf)
    (filter (λ off, off < size_of buf) (cell_offsets (hdr_off + 8) cell_count buf));
  Ok (concat cells).

(* ------------------------------------------------------------------ *)
(** * Records of sqlite_master *)

Definition serial_type_size (st : Z) : Z :=
  if st =? 1 then 1 else if st =? 2 then 2 else if st =? 3 then 3 else if st =? 4 then 4 else
  if st =? 5 then 6 else if (st =? 6) || (st =? 7) then 8 else
  if st <? 12 then 0 else if st mod 2 =? 0 then (st - 12) / 2 else (st - 13) / 2.

(** The length of the longest sequence at the head that can still be UTF-8, and
    whether it is complete ([String::from_utf8_lossy]). *)
Definition utf8_head (b : list Z) : nat * bool :=
  let within lo hi i := let x := default 0 (b !! i) in (lo <=? x) && (x <=? hi) in
  let tail i := within 128 191 i in
  match b with
  | [] => (0%nat, true)
  | x :: _ =>
    if x <? 128 then (1%nat, true) else
    if (194 <=? x) && (x <=? 223) then if tail 1%nat then (2%nat, true) else (1%nat, false) else
    if (224 <=? x) && (x <=? 239) then
      if negb (if x =? 224 then within 160 191 1%nat else if x =? 237 then within 128 159 1%nat else tail 1%nat)
      then (1%nat, false) else if tail 2%nat then (3%nat, true) else (2%nat, false)
    else if (240 <=? x) && (x <=? 244) then
      if negb (if x =? 240 then within 144 191 1%nat else if x =? 244 then within 128 143 1%nat else tail 1%nat)
      then (1%nat, false) else if negb (tail 2%nat) then (2%nat, false) else
      if tail 3%nat then (4%nat, true) else (3%nat, false)
    else (1%nat, false)
  end.

Definition REPLACEMENT_CHARACTER : bytes := [Byte.xef; Byte.xbf; Byte.xbd].

Fixpoint utf8_lossy (fuel : nat) (b : bytes) : bytes :=
  match fuel, b with
  | S fuel, _ :: _ =>
    let '(n, valid) := utf8_head ((λ x, of_be [x]) <$> b) in
    (if valid then take n b else REPLACEMENT_CHARACTER) ++ utf8_lossy fuel (drop n b)
  | _, _ => []
  end.

Definition from_utf8_lossy (b : bytes) : string := String.string_of_list_byte (utf8_lossy (length b) b).

(** The sums are [usize]: a size beyond the page can wrap around. *)
Definition read_column_text (buf : bytes) (pos st : Z) : io (option (string * Z)) :=
  if (st <? 13) || negb (st mod 2 =? 1) then Ok (Some (""%string, serial_type_size st)) else
  let len := (st - 13) / 2 in
  let last := wrap64 (pos + len) in
  if size_of buf <? last then Ok None else
  text ← or_panic (slice pos last buf);
  Ok (Some (from_utf8_lossy text, len)).

(** Two's complement of [n] bytes. *)
Definition sign_extend (n : nat) (z : Z) : Z := if 2 ^ (8 * Z.of_nat n - 1) <=? z then z - 2 ^ (8 * Z.of_nat n) else z.

Definition int_size (st : Z) : option nat :=
  if st =? 1 then Some 1%nat else if st =? 2 then Some 2%nat else if st =? 3 then Some 3%nat else
  if st =? 4 then Some 4%nat else if st =? 5 then Some 6%nat else if st =? 6 then Some 8%nat else None.

Definition read_column_int (buf : bytes) (pos st : Z) : io (option Z) :=
  if (st =? 0) || (st =? 8) then Ok (Some 0) else if st =? 9 then Ok (Some 1) else
  match int_size st with
  | None => Ok None
  | Some n =>
    if size_of buf <? wrap64 (pos + Z.of_nat n) then Ok None else
    data ← or_panic (slice pos (pos + Z.of_nat n) buf);
    Ok (Some (sign_extend n (of_be data)))
  end.

Record MasterEntry := { me_type : string; me_name : string; me_root_page : Z }.

(** Up to [n] serial types, while the header lasts. *)
Fixpoint serial_types (n : nat) (header_end pos : Z) (buf : bytes) : list Z :=
  match n with
  | O => []
  | S n =>
    if (header_end <=? pos) || (size_of buf <=? pos) then [] else
    let '(st, pos) := varint_at pos buf in st :: serial_types n header_end pos buf
  end.

(** type, name, tbl_name, rootpage, sql. *)
Definition parse_master_cell (buf : bytes) (cell_off : Z) : io (option MasterEntry) :=
  if size_of buf <=? cell_off then Ok None else
  let '(_, pos) := varint_at cell_off buf in
  let '(_, payload_start) := varint_at pos buf in
  if size_of buf <=? payload_start then Ok None else
  let '(header_len, pos) := varint_at payload_start buf in
  let header_end := wrap64 (payload_start + header_len) in
  match serial_types 5 header_end pos buf with
  | [t0; t1; t2; t3; _] =>
    if size_of buf <=? header_end then Ok None else
    obj_type ← read_column_text buf header_end t0;
    match obj_type with
    | None => Ok None
    | Some (obj_type, sz) =>
      let pos := wrap64 (header_end + sz) in
      name ← read_column_text buf pos t1;
      match name with
      | None => Ok None
      | Some (name, sz) =>
        let pos := wrap64 (wrap64 (pos + sz) + serial_type_size t2) in
        root_page ← read_column_int buf pos t3;
        Ok (match root_page with
            | Some root => Some {| me_type := obj_type; me_name := name; me_root_page := wrap64 root |}
            | None => None
            end)
      end
    end
  | _ => Ok None
  end.

(* ------------------------------------------------------------------ *)
(** * The walk *)

Record BTreeEntry := { be_type : string; be_name : string; be_root_page : Z; be_pages : list Z }.

Record BTreeWalkResult := { wr_btrees : gmap Z BTreeEntry; wr_unowned_pages : list Z }.

(** The loop of [walk_btree]: pages to read, pages seen, pages found. *)
Record Walk := { wk_queue : list Z; wk_visited : gset Z; wk_pages : list Z }.

Section walker.
Variable page_count page_size : Z.
Variable read_page : Z → option bytes.

(** A child (1-based) seen for the first time is queued. *)
Definition push_child (w : Walk) (child_1based : Z) : Walk :=
  if child_1based =? 0 then w else
  let child := child_1based - 1 in
  if decide (child ∈ wk_visited w) then w else
  {| wk_queue := wk_queue w ++ [child]; wk_visited := {[ child ]} ∪ wk_visited w; wk_pages := wk_pages w |}.

Definition found (w : Walk) (p : Z) : Walk :=
  {| wk_queue := wk_queue w; wk_visited := {[ p ]} ∪ wk_visited w; wk_pages := wk_pages w ++ [p] |}.

(** An overflow chain, up to a page that was seen or cannot be read. *)
Fixpoint follow_chain (fuel : nat) (w : Walk) (ovfl : Z) : io Walk :=
  match fuel with
  | O => Panic
  | S fuel =>
    if bool_decide (ovfl ∈ wk_visited w) || (page_count <=? ovfl) then Ok w else
    match read_page ovfl with
    | None => Ok w
    | Some buf =>
      let w := found w ovfl in
      if size_of buf <? 4 then Ok w else
      let next := be_at 4 0 buf in
      if next =? 0 then Ok w else follow_chain fuel w (next - 1)
    end
  end.

Definition chain_fuel : nat := S (Z.to_nat page_count).

Definition walk_overflow (w : Walk) (ovfl_1based : Z) : io Walk :=
  if ovfl_1based =? 0 then Ok w else follow_chain chain_fuel w (ovfl_1based - 1).

(** A page of the queue. *)
Definition walk_page (w : Walk) (page_num : Z) : io Walk :=
  match read_page page_num with
  | None => Ok w
  | Some buf =>
    let w := {| wk_queue := wk_queue w; wk_visited := wk_visited w; wk_pages := wk_pages w ++ [page_num] |} in
    let hdr := header_offset page_num in
    if size_of buf <? hdr + 12 then Ok w else
    let type_byte := be_at 1 hdr buf in
    if (type_byte =? INTERIOR_INDEX) || (type_byte =? INTERIOR_TABLE) then
      Ok (foldl push_child w (extract_interior_children buf hdr))
    else if (type_byte =? LEAF_INDEX) || (type_byte =? LEAF_TABLE) then
      overflow_pages ← extract_leaf_overflow_pages page_size buf hdr type_byte;
      fold_io walk_overflow w overflow_pages
    else Ok w
  end.

Fixpoint walk_loop (fuel : nat) (w : Walk) : io (list Z) :=
  match wk_queue w with
  | [] => Ok (wk_pages w)
  | page_num :: queue =>
    match fuel with
    | O => Panic
    | S fuel =>
      w ← walk_page {| wk_queue := queue; wk_visited := wk_visited w; wk_pages := wk_pages w |} page_num;
      walk_loop fuel w
    end
  end.

(** Each page that can be read queues fewer pages than it has bytes. *)
Definition walk_fuel : nat := S (Z.to_nat (page_count * page_size)).

Definition walk_btree (root_page : Z) : io (list Z) :=
  pages ← walk_loop walk_fuel {| wk_queue := [root_page]; wk_visited := {[ root_page ]}; wk_pages := [] |};
  Ok (merge_sort Z.le pages).

(** ** sqlite_master *)

(** The leaves below a page, and the pages seen so far. *)
Fixpoint collect_leaf_pages_inner (fuel : nat) (acc : list Z * gset Z) (root_page : Z) : io (list Z * gset Z) :=
  match fuel with
  | O => Panic
  | S fuel =>
    let '(leaves, visited) := acc in
    if decide (root_page ∈ visited) then Ok acc else
    let visited := {[ root_page ]} ∪ visited in
    match read_page root_page with
    | None => Ok (leaves, visited)
    | Some buf =>
      let hdr := header_offset root_page in
      if size_of buf <? hdr + 1 then Ok (leaves, visited) else
      let type_byte := be_at 1 hdr buf in
      if type_byte =? INTERIOR_TABLE then
        fold_io (λ acc child, if child =? 0 then Ok acc else collect_leaf_pages_inner fuel acc (child - 1))
          (leaves, visited) (extract_interior_children buf hdr)
      else Ok (if type_byte =? LEAF_TABLE then leaves ++ [root_page] else leaves, visited)
    end
  end.

Definition collect_leaf_pages : io (list Z) :=
  '(leaves, _) ← collect_leaf_pages_inner (S (S (Z.to_nat page_count))) ([], ∅) 0;
  Ok leaves.

Definition parse_master_page (page_num : Z) : io (list MasterEntry) :=
  match read_page page_num with
  | None => Ok []
  | Some buf =>
    let hdr := header_offset page_num in
    if size_of buf <? hdr + 8 then Ok [] else
    if negb (be_at 1 hdr buf =? LEAF_TABLE) then Ok [] else
    entries ← mapM (parse_master_cell buf)
      (filter (λ off, off < size_of buf) (cell_offsets (hdr + 8) (be_at 2 (hdr + 3) buf) buf));
    Ok (omap id entries)
  end.

Definition parse_sqlite_master : io (list MasterEntry) :=
  leaf_pages ← collect_leaf_pages;
  entries ← mapM parse_master_page leaf_pages;
  Ok (concat entries).

(** ** All trees *)

Definition add_tree (acc : gmap Z BTreeEntry * gset Z) (root : Z) (obj_type name : string) :
    io (gmap Z BTreeEntry * gset Z) :=
  pages ← walk_btree root;
  Ok (<[root := {| be_type := obj_type; be_name := name; be_root_page := root; be_pages := pages |}]> acc.1,
      list_to_set pages ∪ acc.2).

(** A root page of 0 is an object without pages. *)
Definition add_entry (acc : gmap Z BTreeEntry * gset Z) (e : MasterEntry) : io (gmap Z BTreeEntry * gset Z) :=
  if me_root_page e =? 0 then Ok acc else add_tree acc (me_root_page e - 1) (me_type e) (me_name e).

Definition walk_all_btrees : io BTreeWalkResult :=
  master_entries ← parse_sqlite_master;
  acc ← add_tree (∅, ∅) 0 "table" "sqlite_master";
  '(btrees, all_owned) ← fold_io add_entry acc master_entries;
  Ok {| wr_btrees := btrees; wr_unowned_pages := filter (λ p, p ∉ all_owned) (range 0 page_count) |}.
End walker.
