(* ===== verification/BTreeSafety.v ===== *)
(** The walk of BTreeWalker.v: it ends on every file, its trees and the pages
    without a tree cover the database, and on a well-formed tree it finds the
    pages of the tree. *)

From stdpp Require Import strings.
From S2P Require BTreePeek.
From S2P Require Import Prelude SqliteFormat Vfs BTreeWalker.

(** [Vec::sort_unstable] on page numbers. *)
Lemma sorted_pages l : StronglySorted Z.le (merge_sort Z.le l) ∧ merge_sort Z.le l ≡ₚ l.
Proof. split; [apply StronglySorted_merge_sort; apply _|apply merge_sort_Permutation]. Qed.

Section btree_safety.
Variable page_count page_size : Z.
Variable read_page : Z → option bytes.

(** The reader serves full pages of the database; nothing is known of page
    numbers that SQLite cannot have. *)
Definition reader_ok : Prop :=
  ∀ p buf, 0 ≤ p < 2 ^ 32 → read_page p = Some buf → p < page_count ∧ size_of buf = page_size.

Context (Hps : 512 ≤ page_size ≤ 2 ^ 16) (Hread : reader_ok).

(* ------------------------------------------------------------------ *)
(** * Parts of pages *)

Lemma header_offset_bounds p : 0 ≤ header_offset p ≤ 100.
Proof. unfold header_offset. case_match; lia. Qed.

Lemma be_at_4 off buf : 0 ≤ be_at 4 off buf < 2 ^ 32.
Proof.
  unfold be_at. pose proof (of_be_bound (take 4 (drop (Z.to_nat off) buf))) as Hb.
  assert (2 ^ (8 * Z.of_nat (length (take 4 (drop (Z.to_nat off) buf)))) ≤ 2 ^ 32); [|lia].
  apply Z.pow_le_mono_r; [lia|]. rewrite length_take. lia.
Qed.

(** Page numbers as the file has them, 1-based. *)
Abbreviation pointers := (Forall (λ c, 0 ≤ c < 2 ^ 32)).

Lemma extract_children_pointers buf hdr : pointers (extract_interior_children buf hdr).
Proof.
  unfold extract_interior_children. case_match; [constructor|]. constructor; [apply be_at_4|].
  apply Forall_fmap, Forall_true. intros off. apply be_at_4.
Qed.

Lemma extract_children_length buf hdr : 0 ≤ hdr → Z.of_nat (length (extract_interior_children buf hdr)) ≤ size_of buf.
Proof.
  intros Hhdr. unfold extract_interior_children. destruct (Z.ltb_spec (size_of buf) (hdr + 12)) as [|Hlen]; [unfold size_of; cbn; lia|].
  cbn [length]. rewrite length_fmap. etrans; [apply inj_le, le_n_S, length_filter|].
  unfold cell_offsets. rewrite length_fmap. etrans; [apply inj_le, le_n_S, length_filter|]. rewrite length_range.
  unfold saturating_sub. pose proof (Z.div_le_upper_bound (Z.max 0 (size_of buf - (hdr + 12))) 2 (size_of buf - 1)). lia.
Qed.

Lemma mapM_total {A B} (f : A → io B) (P : B → Prop) l :
  (∀ x, ∃ y, f x = Ok y ∧ P y) → ∃ ys, mapM f l = Ok ys ∧ Forall P ys.
Proof.
  intros Hf. induction l as [|x l (ys & IH & Hys)]; [by eexists|]. cbn. destruct (Hf x) as (y & -> & Hy). cbn. rewrite IH.
  eexists. split; [done|by constructor].
Qed.

Lemma cell_overflow_Ok is_table buf off : ∃ l, cell_overflow page_size is_table buf off = Ok l ∧ pointers l.
Proof.
  unfold cell_overflow. destruct (varint_at off buf) as [payload pos]. case_match; [by eexists|].
  unfold local_size_of, sub64 at 1. rewrite wrap64_id by (unfold is_u64; lia).
  destruct (Z.eqb_spec (page_size - 4) 0); [lia|]. cbn [mbind outcome_bind]. eexists. split; [done|].
  repeat case_match; repeat constructor; apply be_at_4.
Qed.

Lemma extract_overflow_Ok buf hdr t : ∃ l, extract_leaf_overflow_pages page_size buf hdr t = Ok l ∧ pointers l.
Proof.
  unfold extract_leaf_overflow_pages. case_match; [by eexists|].
  edestruct (mapM_total (cell_overflow page_size (t =? LEAF_TABLE) buf)) as (ys & -> & Hys); [apply cell_overflow_Ok|].
  eexists. split; [done|]. by apply Forall_concat.
Qed.

(* ------------------------------------------------------------------ *)
(** * The walk ends *)

Lemma in_range_length (n : Z) (l : list Z) : NoDup l → Forall (λ p, 0 ≤ p < n) l → Z.of_nat (length l) ≤ Z.max 0 n.
Proof.
  intros Hnd Hl. pose proof (submseteq_length l (range 0 n)) as Hlen. rewrite length_range in Hlen.
  enough (l ⊆+ range 0 n) as Hs by (specialize (Hlen Hs); lia).
  apply NoDup_submseteq; [done|]. intros p Hp. rewrite elem_of_range. by rewrite Forall_forall in Hl; apply Hl.
Qed.

(** Pages are queued once, and found once. *)
Record walk_inv (w : Walk) : Prop := {
  wi_nodup : NoDup (wk_queue w ++ wk_pages w);
  wi_seen : ∀ p, p ∈ wk_queue w ++ wk_pages w → p ∈ wk_visited w;
  wi_pages : Forall (λ p, 0 ≤ p < page_count) (wk_pages w);
  wi_queue : pointers (wk_queue w)
}.

Lemma push_child_inv w c : 0 ≤ c < 2 ^ 32 → walk_inv w → walk_inv (push_child w c) ∧ wk_pages (push_child w c) = wk_pages w ∧
  (length (wk_queue (push_child w c)) ≤ S (length (wk_queue w)))%nat.
Proof.
  intros Hc [Hnd Hseen Hp Hq]. unfold push_child. destruct (Z.eqb_spec c 0); [split_and!; [done|done|lia]|]. cbn zeta. case_decide as Hv.
  { split_and!; [done|done|lia]. }
  split; [|split; [done|cbn; rewrite length_app; cbn; lia]]. split; cbn; [| |done|by apply Forall_app_2; [|repeat constructor; lia]].
  - rewrite <-(assoc_L (++)), Permutation_app_swap_app. cbn. constructor; [|done]. intros Hin. by apply Hv, Hseen.
  - intros p. rewrite !elem_of_app, list_elem_of_singleton. intros [[?|?]|?]; set_solver.
Qed.

Lemma push_children_inv l w : pointers l → walk_inv w →
  walk_inv (foldl push_child w l) ∧ wk_pages (foldl push_child w l) = wk_pages w ∧
  (length (wk_queue (foldl push_child w l)) ≤ length (wk_queue w) + length l)%nat.
Proof.
  intros Hl0. revert w. induction Hl0 as [|c l Hc Hl0 IH]; intros w Hw; cbn; [split_and!; [done|done|lia]|].
  destruct (push_child_inv w c Hc Hw) as (Hw' & Hp & Hl). destruct (IH _ Hw') as (? & -> & ?). split_and!; [done|done|lia].
Qed.

Lemma found_inv w p : walk_inv w → 0 ≤ p < page_count → p ∉ wk_visited w → walk_inv (found w p).
Proof.
  intros [Hnd Hseen Hp Hq] Hr Hv. split; cbn; [| | |done].
  - rewrite (assoc_L (++)). apply NoDup_app. split_and!; [done| |apply NoDup_singleton].
    intros q Hin ->%list_elem_of_singleton. by apply Hv, Hseen.
  - intros q. rewrite !elem_of_app, list_elem_of_singleton. set_solver.
  - by apply Forall_app_2; [|constructor].
Qed.

(** More pages found, the same queue. *)
Definition chained (w w' : Walk) : Prop :=
  walk_inv w' ∧ wk_queue w' = wk_queue w ∧ (length (wk_pages w) ≤ length (wk_pages w'))%nat.

Lemma follow_chain_inv fuel w o :
  walk_inv w → 0 ≤ o < 2 ^ 32 → (Z.to_nat page_count < fuel + length (wk_pages w))%nat →
  ∃ w', follow_chain page_count read_page fuel w o = Ok w' ∧ chained w w'.
Proof.
  revert w o. induction fuel as [|fuel IH]; intros w o Hw Ho Hf.
  { exfalso. pose proof (in_range_length page_count (wk_pages w)) as Hl. destruct Hw as [Hnd _ Hp _].
    apply NoDup_app in Hnd as (_ & _ & Hnd). specialize (Hl Hnd Hp). lia. }
  assert (chained w w) as Hrefl by (split_and!; [done|done|lia]).
  cbn [follow_chain]. case_bool_decide as Hv; cbn [orb]; [by eexists|]. case_match; [by eexists|].
  destruct (read_page o) as [buf|] eqn:Hr; [|by eexists]. destruct (Hread _ _ Ho Hr) as [Ho' _].
  pose proof (found_inv w o Hw ltac:(lia) Hv) as Hw'.
  assert (chained w (found w o)) as Hc by (split_and!; [done|done|cbn; rewrite length_app; lia]).
  case_match; [by eexists|]. cbn zeta. destruct (Z.eqb_spec (be_at 4 0 buf) 0); [by eexists|].
  destruct (IH (found w o) (be_at 4 0 buf - 1) Hw' ltac:(pose proof (be_at_4 0 buf); lia)) as (w' & Hrun & Hw2 & Hq & Hl); [cbn; rewrite length_app; cbn; lia|].
  exists w'. split; [done|]. split_and!; [done|done|]. cbn in Hl. rewrite length_app in Hl. lia.
Qed.

Lemma walk_overflows_inv l w : pointers l → walk_inv w →
  ∃ w', fold_io (walk_overflow page_count read_page) w l = Ok w' ∧ chained w w'.
Proof.
  intros Hl0. revert w. induction Hl0 as [|o l Ho Hl0 IH]; intros w Hw; cbn [fold_io]; [exists w; split; [done|split_and!; [done|done|lia]]|].
  assert (∃ w', walk_overflow page_count read_page w o = Ok w' ∧ chained w w') as (w1 & -> & Hw1 & Hq1 & Hl1).
  { unfold walk_overflow. destruct (Z.eqb_spec o 0); [exists w; split; [done|split_and!; [done|done|lia]]|].
    apply follow_chain_inv; [done|lia|]. unfold chain_fuel. lia. }
  destruct (IH w1 Hw1) as (w' & Hrun & Hw' & Hq & Hl). exists w'. split; [done|]. split_and!; [done|congruence|lia].
Qed.

(** Pages that are not read yet, each for a page full of children, and the queue. *)
Definition work_left (w : Walk) : Z :=
  Z.of_nat (length (wk_queue w)) + (Z.max 0 page_count - Z.of_nat (length (wk_pages w))) * page_size.

Lemma walk_page_inv w p q :
  walk_inv w → wk_queue w = p :: q →
  ∃ w', walk_page page_count page_size read_page {| wk_queue := q; wk_visited := wk_visited w; wk_pages := wk_pages w |} p = Ok w' ∧
    walk_inv w' ∧ work_left w' < work_left w.
Proof.
  intros Hw Hq. unfold walk_page. set (w0 := {| wk_queue := q; wk_visited := wk_visited w; wk_pages := wk_pages w |}).
  assert (walk_inv w0) as Hw0.
  { destruct Hw as [Hnd Hseen Hp Hb]. rewrite Hq in *. split; [by apply NoDup_cons in Hnd as [_ ?]| |done|by apply Forall_cons in Hb as [_ ?]].
    intros r Hr. apply Hseen. by right. }
  assert (work_left w = work_left w0 + 1) as Hleft by (unfold work_left; rewrite Hq; cbn [w0 wk_queue wk_pages length]; lia).
  destruct (read_page p) as [buf|] eqn:Hr; [|exists w0; split; [done|split; [done|lia]]].
  assert (0 ≤ p < 2 ^ 32) as Hp32 by (pose proof (wi_queue _ Hw) as Hb; rewrite Hq in Hb; by apply Forall_cons in Hb as [? _]).
  destruct (Hread _ _ Hp32 Hr) as [Hp Hlen].
  set (w1 := {| wk_queue := wk_queue w0; wk_visited := wk_visited w0; wk_pages := wk_pages w0 ++ [p] |}).
  assert (walk_inv w1) as Hw1.
  { destruct Hw as [Hnd Hseen Hpg Hb]. rewrite Hq in *. split; cbn; [| | |apply Hw0].
    - rewrite (assoc_L (++)). rewrite Permutation_app_comm. cbn. done.
    - intros r. rewrite !elem_of_app, list_elem_of_singleton. intros [?|[?| ->]]; apply Hseen; set_solver.
    - by apply Forall_app_2; [|repeat constructor; lia]. }
  assert (work_left w1 = work_left w0 - page_size) as Hleft1.
  { unfold work_left. cbn. rewrite length_app. cbn. lia. }
  case_match; [exists w1; split; [done|split; [done|lia]]|]. cbn zeta. case_match.
  - eexists. split; [done|]. pose proof (push_children_inv _ w1 (extract_children_pointers buf (header_offset p)) Hw1) as (Hw2 & Hp2 & Hl2).
    split; [exact Hw2|]. unfold work_left in Hleft, Hleft1 |- *. rewrite Hp2.
    pose proof (extract_children_length buf (header_offset p) ltac:(pose proof (header_offset_bounds p); lia)). cbn [w0 w1 wk_queue wk_pages] in *. lia.
  - case_match; [|exists w1; split; [done|split; [done|lia]]].
    destruct (extract_overflow_Ok buf (header_offset p) (be_at 1 (header_offset p) buf)) as (l & -> & Hl). cbn [mbind outcome_bind].
    destruct (walk_overflows_inv l w1 Hl Hw1) as (w2 & Hrun & Hw2 & Hq2 & Hl2). exists w2. split; [done|]. split; [done|].
    unfold work_left in *. rewrite Hq2. nia.
Qed.

Lemma walk_loop_inv fuel w :
  walk_inv w → work_left w ≤ Z.of_nat fuel →
  ∃ l, walk_loop page_count page_size read_page fuel w = Ok l ∧ NoDup l ∧ Forall (λ p, 0 ≤ p < page_count) l.
Proof.
  revert w. induction fuel as [|fuel IH]; intros w Hw Hf.
  - destruct (wk_queue w) as [|p q] eqn:Hq.
    + unfold walk_loop. rewrite Hq. exists (wk_pages w). split; [done|]. destruct Hw as [Hnd _ ? _].
      by apply NoDup_app in Hnd as (_ & _ & ?).
    + exfalso. destruct Hw as [Hnd _ Hp _]. apply NoDup_app in Hnd as (_ & _ & Hnd).
      pose proof (in_range_length _ _ Hnd Hp). unfold work_left in Hf. rewrite Hq in Hf. cbn [length] in Hf. nia.
  - cbn [walk_loop]. destruct (wk_queue w) as [|p q] eqn:Hq.
    + exists (wk_pages w). split; [done|]. destruct Hw as [Hnd _ ? _]. by apply NoDup_app in Hnd as (_ & _ & ?).
    + destruct (walk_page_inv w p q Hw Hq) as (w' & -> & Hw' & Hl). cbn [mbind outcome_bind]. apply IH; [done|lia].
Qed.

(** The pages of a walk, in order. *)
Definition pages_ok (l : list Z) : Prop := StronglySorted Z.lt l ∧ Forall (λ p, 0 ≤ p < page_count) l.

Lemma sorted_lt l : StronglySorted Z.le l → NoDup l → StronglySorted Z.lt l.
Proof.
  induction 1 as [|x l Hl IH Hx]; [constructor|]. intros [Hn Hnd]%NoDup_cons. constructor; [by apply IH|].
  rewrite Forall_forall in Hx |- *. intros y Hy. specialize (Hx y Hy). enough (x ≠ y) by lia. by intros ->.
Qed.

Lemma walk_btree_ends root : 0 ≤ root < 2 ^ 32 → ∃ l, walk_btree page_count page_size read_page root = Ok l ∧ pages_ok l.
Proof.
  intros Hroot. unfold walk_btree.
  destruct (walk_loop_inv (walk_fuel page_count page_size) {| wk_queue := [root]; wk_visited := {[ root ]}; wk_pages := [] |})
    as (l & -> & Hnd & Hl).
  - split; cbn; [apply NoDup_singleton|intros p ->%list_elem_of_singleton; set_solver|apply Forall_nil; exact I|apply Forall_singleton; exact Hroot].
  - unfold work_left, walk_fuel. cbn [wk_queue wk_pages length]. nia.
  - cbn [mbind outcome_bind]. eexists. split; [done|]. destruct (sorted_pages l) as [Hs Hp]. split.
    + apply sorted_lt; [done|]. by rewrite Hp.
    + by rewrite Hp.
Qed.

(* ------------------------------------------------------------------ *)
(** * All trees *)

(** What the loop over sqlite_master keeps: the pages owned so far are those of
    the trees found so far. *)
Record trees_inv (acc : gmap Z BTreeEntry * gset Z) : Prop := {
  tr_walk : map_Forall (λ root e, be_root_page e = root ∧ pages_ok (be_pages e) ∧
    walk_btree page_count page_size read_page root = Ok (be_pages e)) acc.1;
  tr_owned : ∀ p, p ∈ acc.2 ↔ ∃ root e, acc.1 !! root = Some e ∧ p ∈ be_pages e
}.

Lemma add_tree_inv acc root obj_type name : 0 ≤ root < 2 ^ 32 → trees_inv acc →
  ∃ acc', add_tree page_count page_size read_page acc root obj_type name = Ok acc' ∧ trees_inv acc' ∧
    (is_Some (acc'.1 !! root)) ∧ ∀ r, is_Some (acc.1 !! r) → is_Some (acc'.1 !! r).
Proof.
  intros Hroot [Hwalk Hown]. unfold add_tree. destruct (walk_btree_ends root Hroot) as (pages & Hrun & Hok). rewrite Hrun. cbn [mbind outcome_bind].
  eexists. split; [done|]. split; [split; cbn [fst snd]|].
  - by apply map_Forall_insert_2.
  - intros p. rewrite elem_of_union, elem_of_list_to_set, Hown. split.
    + intros [Hp|(r & e & He & Hp)].
      * eexists root, _. by rewrite lookup_insert_eq.
      * destruct (decide (root = r)) as [->|Hne].
        { eexists r, _. rewrite lookup_insert_eq. split; [done|]. cbn.
          destruct (Hwalk r e He) as (_ & _ & He'). rewrite Hrun in He'. by injection He' as ->. }
        exists r, e. by rewrite lookup_insert_ne.
    + intros (r & e & [[<- <-]|[Hne He]]%lookup_insert_Some & Hp); [by left|right; by exists r, e].
  - cbn. rewrite lookup_insert_eq. split; [by eexists|]. intros r Hr. destruct (decide (root = r)) as [->|]; [rewrite lookup_insert_eq; by eexists|].
    by rewrite lookup_insert_ne.
Qed.

(** The root pages SQLite can have. *)
Definition roots_ok (es : list MasterEntry) : Prop := Forall (λ e, 0 ≤ me_root_page e ≤ 2 ^ 32) es.

Lemma add_entries_inv es acc : roots_ok es → trees_inv acc →
  ∃ acc', fold_io (add_entry page_count page_size read_page) acc es = Ok acc' ∧ trees_inv acc' ∧
    (∀ r, is_Some (acc.1 !! r) → is_Some (acc'.1 !! r)) ∧
    ∀ e, e ∈ es → me_root_page e ≠ 0 → is_Some (acc'.1 !! (me_root_page e - 1)).
Proof.
  intros Hes. revert acc. induction Hes as [|e es He Hes IH]; intros acc Hacc; cbn [fold_io].
  { exists acc. split; [done|]. split; [done|]. split; [done|]. intros e He. by apply not_elem_of_nil in He. }
  assert (add_entry page_count page_size read_page acc e = if me_root_page e =? 0 then Ok acc else
    add_tree page_count page_size read_page acc (me_root_page e - 1) (me_type e) (me_name e)) as -> by done.
  destruct (Z.eqb_spec (me_root_page e) 0) as [Hz|Hz]; cbn [mbind outcome_bind].
  - destruct (IH acc Hacc) as (acc' & ? & ? & ? & Hall). exists acc'. split_and!; [done..|].
    intros e' [->|He']%elem_of_cons; [done|by apply Hall].
  - destruct (add_tree_inv acc (me_root_page e - 1) (me_type e) (me_name e) ltac:(lia) Hacc) as (acc1 & -> & Hacc1 & Hroot & Hkeep). cbn [mbind outcome_bind].
    destruct (IH acc1 Hacc1) as (acc' & ? & ? & Hkeep' & Hall). exists acc'. split_and!; [done..| |].
    + intros r Hr. by apply Hkeep', Hkeep.
    + intros e' [->|He']%elem_of_cons Hne; [by apply Hkeep'|by apply Hall].
Qed.

Lemma filter_sorted (P : Z → Prop) `{∀ p, Decision (P p)} l : StronglySorted Z.lt l → StronglySorted Z.lt (filter P l).
Proof.
  induction 1 as [|x l Hl IH Hx]; [constructor|]. rewrite filter_cons. case_decide; [|done]. constructor; [done|].
  rewrite Forall_forall in Hx |- *. intros y [_ Hy]%list_elem_of_filter. by apply Hx.
Qed.

Lemma range_sorted a b : StronglySorted Z.lt (range a b).
Proof.
  remember (Z.to_nat (b - a)) as n eqn:Hn. revert a Hn. induction n as [|n IH]; intros a Hn.
  - rewrite range_nil by lia. constructor.
  - rewrite range_cons by lia. constructor; [apply IH; lia|]. rewrite Forall_forall. intros y Hy%elem_of_range. lia.
Qed.

(** The result for the records [es] of sqlite_master. *)
Record walk_result (es : list MasterEntry) (r : BTreeWalkResult) : Prop := {
  wr_trees : map_Forall (λ root e, be_root_page e = root ∧ pages_ok (be_pages e) ∧
    walk_btree page_count page_size read_page root = Ok (be_pages e)) (wr_btrees r);
  wr_roots : is_Some (wr_btrees r !! 0) ∧ ∀ e, e ∈ es → me_root_page e ≠ 0 → is_Some (wr_btrees r !! (me_root_page e - 1));
  wr_unowned_ok : pages_ok (wr_unowned_pages r);
  wr_cover : ∀ p, 0 ≤ p < page_count → (p ∈ wr_unowned_pages r ↔ ¬ ∃ root e, wr_btrees r !! root = Some e ∧ p ∈ be_pages e)
}.

Lemma walk_all_run es : parse_sqlite_master page_count read_page = Ok es → roots_ok es →
  ∃ r, walk_all_btrees page_count page_size read_page = Ok r ∧ walk_result es r.
Proof.
  intros Hes Hroots. unfold walk_all_btrees. rewrite Hes. cbn [mbind outcome_bind].
  destruct (add_tree_inv (∅, ∅) 0 "table" "sqlite_master" ltac:(lia)) as (acc & -> & Hacc & H0 & _).
  { split; cbn; [apply map_Forall_empty|]. intros p. split; [set_solver|]. intros (r & e & He & _). by rewrite lookup_empty in He. }
  destruct (add_entries_inv es acc Hroots Hacc) as ([btrees owned] & Hrun & [Hwalk Hown] & Hkeep & Hall). cbn [mbind outcome_bind].
  rewrite Hrun. cbn [mbind outcome_bind]. eexists. split; [done|]. cbn [fst snd] in *. split; cbn.
  - done.
  - split; [by apply Hkeep|done].
  - split; [apply filter_sorted, range_sorted|]. rewrite Forall_forall. by intros p [_ ?%elem_of_range]%list_elem_of_filter.
  - intros p Hp. rewrite list_elem_of_filter, elem_of_range. split.
    + intros [Hn _] He. apply Hn. by rewrite Hown.
    + intros Hn. split; [|done]. by rewrite Hown.
Qed.

(* ------------------------------------------------------------------ *)
(** * The recursion over sqlite_master ends *)

Definition unseen (visited : gset Z) : nat := size (list_to_set (range 0 page_count) ∖ visited).

Lemma unseen_mono v1 v2 : v1 ⊆ v2 → (unseen v2 ≤ unseen v1)%nat.
Proof. intros Hv. unfold unseen. apply subseteq_size. set_solver. Qed.

Lemma unseen_drop v p : 0 ≤ p < page_count → p ∉ v → (unseen ({[ p ]} ∪ v) < unseen v)%nat.
Proof.
  intros Hp Hv. unfold unseen. apply subset_size. split; [set_solver|]. intros Hs. specialize (Hs p).
  rewrite !elem_of_difference, !elem_of_list_to_set, !elem_of_range in Hs. set_solver.
Qed.

Lemma collect_leaves_end fuel acc p : 0 ≤ p < 2 ^ 32 → (unseen acc.2 + 1 < fuel)%nat →
  ∃ acc', collect_leaf_pages_inner read_page fuel acc p = Ok acc' ∧ acc.2 ⊆ acc'.2.
Proof.
  revert acc p. induction fuel as [|fuel IH]; intros [leaves visited] p Hp32 Hf; [lia|]. cbn [collect_leaf_pages_inner snd] in *.
  case_decide as Hv; [by eexists|]. cbn zeta.
  destruct (read_page p) as [buf|] eqn:Hb; [|eexists; split; [done|set_solver]].
  destruct (Hread _ _ Hp32 Hb) as [Hp _]. pose proof (unseen_drop visited p ltac:(lia) Hv) as Hdrop.
  case_match; [eexists; split; [done|set_solver]|]. case_match; [|eexists; split; [done|cbn; set_solver]].
  set (visited' := {[ p ]} ∪ visited) in *. pose proof (extract_children_pointers buf (header_offset p)) as Hcs.
  revert Hcs. generalize (extract_interior_children buf (header_offset p)). intros cs Hcs.
  assert (∀ cs (acc : list Z * gset Z), pointers cs → visited' ⊆ acc.2 → ∃ acc',
    fold_io (λ acc child, if child =? 0 then Ok acc else collect_leaf_pages_inner read_page fuel acc (child - 1)) acc cs = Ok acc' ∧
    visited' ⊆ acc'.2) as Hfold.
  { clear cs Hcs. intros cs acc Hcs. revert acc. induction Hcs as [|c cs Hc Hcs IHcs]; intros acc Hacc; cbn [fold_io]; [by eexists|].
    assert (∃ acc', (if c =? 0 then Ok acc else collect_leaf_pages_inner read_page fuel acc (c - 1)) = Ok acc' ∧ visited' ⊆ acc'.2)
      as (acc1 & -> & Hacc1).
    { destruct (Z.eqb_spec c 0); [by eexists|]. destruct (IH acc (c - 1)) as (acc1 & ? & ?).
      - lia.
      - pose proof (unseen_mono _ _ Hacc). lia.
      - exists acc1. split; [done|]. by etrans. }
    cbn [mbind outcome_bind]. by apply IHcs. }
  destruct (Hfold cs (leaves, visited') Hcs ltac:(done)) as (acc' & Hrun & Hacc'). exists acc'. split; [done|]. set_solver.
Qed.

Lemma collect_leaf_pages_end : ∃ leaves, collect_leaf_pages page_count read_page = Ok leaves.
Proof.
  unfold collect_leaf_pages. destruct (collect_leaves_end (S (S (Z.to_nat page_count))) ([], ∅) 0) as ([leaves v] & -> & _).
  - lia.
  - cbn [snd]. unfold unseen. rewrite difference_empty_L, size_list_to_set by apply NoDup_seqZ. rewrite length_range. lia.
  - by eexists.
Qed.

(* ------------------------------------------------------------------ *)
(** * Pages as they are stored *)

Lemma placed_be_at n buf off v : 0 ≤ v < 2 ^ (8 * Z.of_nat n) → placed buf off (be_bytes n v) → be_at n off buf = v.
Proof.
  intros Hv [rest (pre & -> & <-)]%placed_follows. unfold be_at. rewrite Nat2Z.id, drop_app_length.
  rewrite take_app_length' by (by rewrite length_be_bytes). by apply of_be_be_bytes.
Qed.

Lemma filter_all (P : Z → Prop) `{!∀ x, Decision (P x)} l : Forall P l → filter P l = l.
Proof. induction 1 as [|x l Hx _ IH]; [done|]. rewrite filter_cons_True by done. by f_equal. Qed.

Lemma cell_offsets_placed buf start offs : pointers_at buf start offs → cell_offsets start (Z.of_nat (length offs)) buf = offs.
Proof.
  intros Hp. unfold cell_offsets. apply list_eq. intros i. rewrite list_lookup_fmap.
  assert (filter (λ i, start + i * 2 + 2 ≤ size_of buf) (range 0 (Z.of_nat (length offs))) = range 0 (Z.of_nat (length offs))) as ->.
  { apply filter_all, Forall_forall. intros x Hx%elem_of_range.
    destruct (lookup_lt_is_Some_2 offs (Z.to_nat x) ltac:(lia)) as [off Hoff]. destruct (Hp _ _ Hoff) as [_ Hpl%placed_end].
    rewrite length_be_bytes in Hpl. unfold size_of. lia. }
  destruct (offs !! i) as [off|] eqn:Hi.
  - pose proof (lookup_lt_Some _ _ _ Hi). replace i with (Z.to_nat (Z.of_nat i)) at 1 by lia. rewrite range_lookup by lia.
    cbn. f_equal. destruct (Hp _ _ Hi) as [Hoff Hpl]. by apply placed_be_at.
  - apply lookup_ge_None in Hi. rewrite lookup_ge_None_2; [done|]. rewrite length_range. lia.
Qed.

Lemma extract_children_placed buf hdr kind right children :
  0 ≤ hdr → interior_layout buf hdr kind right children → extract_interior_children buf hdr = right :: children.
Proof.
  intros Hhdr (_ & (Hn & _ & Hcount) & Hr & Hright & offs & Hp & Hc). unfold extract_interior_children.
  pose proof (placed_end _ _ _ Hright) as Hend. rewrite length_be_bytes in Hend. fold (size_of buf) in Hend.
  destruct (Z.ltb_spec (size_of buf) (hdr + 12)); [lia|].
  rewrite (placed_be_at 2 buf (hdr + 3) (Z.of_nat (length children))), (placed_be_at 4 buf (hdr + 8) right) by (done || lia).
  assert (Z.of_nat (length children) ≤ saturating_sub (size_of buf) (hdr + 12) / 2) as Hmax.
  { unfold saturating_sub. apply Z.div_le_lower_bound; [lia|]. rewrite <-(Forall2_length _ _ _ Hc).
    destruct offs as [|off offs _] using rev_ind; [cbn; lia|]. specialize (Hp (length offs) off). rewrite lookup_app_r, Nat.sub_diag in Hp by lia.
    destruct (Hp eq_refl) as [_ Hpl%placed_end]. rewrite length_be_bytes in Hpl. rewrite length_app. cbn. unfold size_of. lia. }
  rewrite Z.min_l by done. rewrite <-(Forall2_length _ _ _ Hc), cell_offsets_placed by done. f_equal.
  clear -Hc. induction Hc as [|off child offs children [Hr Hpl] _ IH]; [done|].
  pose proof (placed_end _ _ _ Hpl) as Hend. rewrite length_be_bytes in Hend.
  rewrite filter_cons_True by (unfold size_of; lia). cbn [fmap list_fmap map]. f_equal; [by apply placed_be_at|exact IH].
Qed.

(** The two readers of varints do the same on what is whole. *)
Lemma varint_loop_from more val used buf r : BTreePeek.varint_loop more val used buf = Some r → varint_from more val used buf = r.
Proof.
  revert val used buf. induction more as [|more IH]; intros val used [|b buf]; cbn; try done; [by intros [= <-]|].
  case_match; [by intros [= <-]|]. apply IH.
Qed.

Lemma varint_at_placed buf off v : 0 ≤ v < 2 ^ 64 → placed buf off (put_varint v) →
  varint_at off buf = (v, off + Z.of_nat (length (put_varint v))).
Proof. intros Hv Hp. unfold varint_at, read_varint. by rewrite (varint_loop_from _ _ _ _ _ (placed_varint _ _ _ Hv Hp)). Qed.

Lemma stored_bounds is_table : 0 ≤ min_stored page_size ≤ max_stored page_size is_table ∧ max_stored page_size is_table < 2 ^ 32.
Proof.
  unfold min_stored, max_stored. pose proof (Z.div_mod ((page_size - 12) * 32) 255 ltac:(lia)).
  pose proof (Z.mod_pos_bound ((page_size - 12) * 32) 255 ltac:(lia)). pose proof (Z.div_mod ((page_size - 12) * 64) 255 ltac:(lia)).
  pose proof (Z.mod_pos_bound ((page_size - 12) * 64) 255 ltac:(lia)). destruct is_table; lia.
Qed.

Lemma max_local_stored is_table : max_local_of page_size is_table = max_stored page_size is_table.
Proof.
  pose proof (stored_bounds is_table) as Hb. unfold max_local_of, max_stored, sub64 in *. destruct is_table; [by apply Z.mod_small; lia|].
  rewrite (wrap64_id (page_size - 12)), (wrap64_id ((page_size - 12) * 64)) by (unfold is_u64; lia).
  apply wrap64_id. unfold is_u64. lia.
Qed.

Lemma local_size_stored is_table payload :
  max_stored page_size is_table < payload < 2 ^ 63 →
  local_size_of page_size (max_stored page_size is_table) payload = Ok (stored_len page_size is_table payload).
Proof.
  intros Hp. pose proof (stored_bounds is_table) as Hb. unfold local_size_of, stored_len.
  assert (min_local_of page_size = min_stored page_size) as ->.
  { unfold min_local_of, min_stored, sub64 in *. rewrite (wrap64_id (page_size - 12)), (wrap64_id ((page_size - 12) * 32)) by (unfold is_u64; lia).
    apply wrap64_id. unfold is_u64. lia. }
  unfold sub64. rewrite (wrap64_id (page_size - 4)), (wrap64_id (payload - min_stored page_size)) by (unfold is_u64; lia).
  destruct (Z.eqb_spec (page_size - 4) 0); [lia|]. destruct (Z.leb_spec payload (max_stored page_size is_table)); [lia|].
  pose proof (Z.mod_pos_bound (payload - min_stored page_size) (page_size - 4) ltac:(lia)).
  by rewrite wrap64_id by (unfold is_u64; lia).
Qed.

Lemma cell_overflow_placed is_table buf off overflow :
  size_of buf = page_size → leaf_cell_at page_size is_table buf off overflow →
  cell_overflow page_size is_table buf off = Ok (option_list overflow) ∧ off < size_of buf.
Proof.
  intros Hsize (payload & rowid & stored & Hp & Hr & Hpl & Hlen & Ho). pose proof (stored_bounds is_table) as Hb.
  pose proof (placed_end _ _ _ Hpl) as Hend. pose proof (put_varint_nonempty payload). rewrite !length_app in Hend. unfold size_of in *.
  split; [|lia]. apply placed_app in Hpl as [Hp1 Hpl].
  unfold cell_overflow. rewrite (varint_at_placed buf off payload ltac:(lia) Hp1), max_local_stored.
  set (pos := off + Z.of_nat (length (put_varint payload))) in *.
  set (rest := stored ++ from_option (be_bytes 4) [] overflow) in *.
  assert (∃ pos', (if is_table then (varint_at pos buf).2 else pos) = pos' ∧ placed buf pos' rest) as (pos' & -> & Hrest).
  { destruct is_table; [|by exists pos]. apply placed_app in Hpl as [Hp2 Hpl]. rewrite (varint_at_placed buf pos rowid Hr Hp2). by eexists. }
  destruct overflow as [o|]; cbn [from_option] in rest.
  - destruct Ho as [Hlt Ho]. destruct (Z.leb_spec payload (max_stored page_size is_table)); [lia|].
    rewrite local_size_stored by lia. cbn [mbind outcome_bind]. apply placed_app in Hrest as [_ Hov]. rewrite <-Hlen.
    pose proof (placed_end _ _ _ Hov) as Hoe. rewrite length_be_bytes in Hoe.
    rewrite (wrap64_id (pos' + _)), (wrap64_id (pos' + _ + 4)) by (unfold is_u64; lia).
    unfold size_of. destruct (Z.ltb_spec (Z.of_nat (length buf)) (pos' + Z.of_nat (length stored) + 4)); [lia|].
    rewrite (placed_be_at 4 _ _ o) by (done || lia). by destruct (Z.eqb_spec o 0); [lia|].
  - by destruct (Z.leb_spec payload (max_stored page_size is_table)); [|lia].
Qed.

Lemma extract_overflow_placed buf hdr kind firsts :
  0 ≤ hdr → hdr + 8 ≤ size_of buf → size_of buf = page_size → leaf_layout page_size buf hdr kind firsts →
  extract_leaf_overflow_pages page_size buf hdr kind = Ok firsts ∧ Forall (λ o, 1 ≤ o < 2 ^ 32) firsts.
Proof.
  intros Hhdr Hfits Hsize (Hkind & offs & overs & (Hn & _ & Hcount) & Hp & Hc & ->). unfold extract_leaf_overflow_pages.
  destruct (Z.ltb_spec (size_of buf) (hdr + 8)); [lia|].
  rewrite (placed_be_at 2 buf (hdr + 3) (Z.of_nat (length offs))), cell_offsets_placed by (done || lia).
  change (kind =? LEAF_TABLE) with (kind =? 13). set (is_table := kind =? 13) in *. split.
  - assert (mapM (cell_overflow page_size is_table buf) (filter (λ off, off < size_of buf) offs) = Ok (option_list <$> overs)) as ->.
    { clear -Hc Hsize Hps. induction Hc as [|off ov offs overs Hcell _ IH]; [done|].
      destruct (cell_overflow_placed _ _ _ _ Hsize Hcell) as [Hrun Hoff]. rewrite filter_cons_True by done. cbn [mapM].
      rewrite Hrun. cbn [mbind outcome_bind]. rewrite IH. done. }
    cbn. f_equal. clear. induction overs as [|[o|] overs IH]; cbn; [done|by f_equal|done].
  - clear -Hc. induction Hc as [|off [o|] offs overs Hcell _ IH]; cbn; [constructor|constructor; [|done]|done].
    destruct Hcell as (_ & _ & _ & _ & _ & _ & _ & _ & ?). done.
Qed.

(* ------------------------------------------------------------------ *)
(** * Well-formed trees *)

Context (Hcount : page_count ≤ 2 ^ 32).

Lemma in_u32 p : 0 ≤ p < page_count → 0 ≤ p < 2 ^ 32.
Proof. lia. Qed.

(** An overflow chain: every page points to the next, the last to none. *)
Inductive chain : Z → list Z → Prop :=
  | chain_last p buf : 0 ≤ p < page_count → read_page p = Some buf → be_at 4 0 buf = 0 → chain p [p]
  | chain_next p buf l : 0 ≤ p < page_count → read_page p = Some buf → be_at 4 0 buf ≠ 0 → chain (be_at 4 0 buf - 1) l → chain p (p :: l).

(** The pages of a tree: an interior page and its subtrees, or a leaf and the
    overflow chains of its cells.  Pointers are 1-based. *)
Inductive btree : Z → list Z → Prop :=
  | btree_interior p buf subtrees :
      0 ≤ p < page_count → read_page p = Some buf → be_at 1 (header_offset p) buf ∈ [INTERIOR_INDEX; INTERIOR_TABLE] →
      Forall2 (λ child l, child ≠ 0 ∧ btree (child - 1) l) (extract_interior_children buf (header_offset p)) subtrees →
      btree p (p :: concat subtrees)
  | btree_leaf p buf firsts chains :
      0 ≤ p < page_count → read_page p = Some buf → be_at 1 (header_offset p) buf ∈ [LEAF_INDEX; LEAF_TABLE] →
      extract_leaf_overflow_pages page_size buf (header_offset p) (be_at 1 (header_offset p) buf) = Ok firsts →
      Forall2 (λ first l, first ≠ 0 ∧ chain (first - 1) l) firsts chains →
      btree p (p :: concat chains).

(** The same, of what is stored on the pages. *)
Inductive overflow_chain : Z → list Z → Prop :=
  | overflow_last p buf : 0 ≤ p < page_count → read_page p = Some buf → placed buf 0 (be_bytes 4 0) → overflow_chain p [p]
  | overflow_next p buf next l :
      0 ≤ p < page_count → read_page p = Some buf → 1 ≤ next < 2 ^ 32 → placed buf 0 (be_bytes 4 next) →
      overflow_chain (next - 1) l → overflow_chain p (p :: l).

Inductive stored_tree : Z → list Z → Prop :=
  | stored_interior p buf kind right children subtrees :
      0 ≤ p < page_count → read_page p = Some buf → interior_layout buf (if p =? 0 then 100 else 0) kind right children →
      Forall2 (λ child l, 1 ≤ child ∧ stored_tree (child - 1) l) (right :: children) subtrees → stored_tree p (p :: concat subtrees)
  | stored_leaf p buf kind firsts chains :
      0 ≤ p < page_count → read_page p = Some buf → leaf_layout page_size buf (if p =? 0 then 100 else 0) kind firsts →
      Forall2 (λ first l, overflow_chain (first - 1) l) firsts chains → stored_tree p (p :: concat chains).

Lemma chain_stored p l : overflow_chain p l → chain p l.
Proof.
  induction 1 as [p buf Hp Hb Hz|p buf next l Hp Hb Hn Hpl _ IH].
  - apply (chain_last p buf); [done|done|]. by apply placed_be_at.
  - assert (be_at 4 0 buf = next) as Hat by (apply placed_be_at; [lia|done]).
    apply (chain_next p buf); [done|done|lia|]. by rewrite Hat.
Qed.

Lemma kind_placed buf hdr kind n : page_header buf hdr kind n → 0 ≤ kind < 256 → be_at 1 hdr buf = kind.
Proof. intros (_ & Hk & _) Hr. by apply placed_be_at. Qed.

Lemma tree_stored p l : stored_tree p l → btree p l.
Proof.
  revert p l. fix IH 3. intros p l [p' buf kind right children subs Hp Hb Hl Hsub|p' buf kind firsts chains Hp Hb Hl Hch];
    fold (header_offset p') in Hl; pose proof (header_offset_bounds p') as Hh; destruct (Hread _ _ (in_u32 _ Hp) Hb) as [_ Hlen].
  - assert (be_at 1 (header_offset p') buf = kind) as Hk.
    { destruct Hl as (Hk & Hhd & _). eapply kind_placed; [done|]. rewrite !elem_of_cons, elem_of_nil in Hk. lia. }
    apply (btree_interior p' buf); [done|done|rewrite Hk; by destruct Hl|].
    rewrite (extract_children_placed buf (header_offset p') kind right children) by (done || lia).
    clear Hl Hk. induction Hsub as [|c l' cs subs' [Hc Ht] _ IHs]; constructor; [|done]. split; [lia|]. by apply IH.
  - assert (be_at 1 (header_offset p') buf = kind) as Hk.
    { destruct Hl as (Hk & offs & overs & Hhd & _). eapply kind_placed; [done|]. rewrite !elem_of_cons, elem_of_nil in Hk. lia. }
    destruct (extract_overflow_placed buf (header_offset p') kind firsts) as [Hex Hfirsts]; [lia|lia|done|done|].
    apply (btree_leaf p' buf firsts chains); [done|done|rewrite Hk; by destruct Hl|by rewrite Hk|].
    clear -Hch Hfirsts. induction Hch as [|o l' os ls Hc _ IHc]; constructor.
    + apply Forall_cons in Hfirsts as [Ho _]. split; [lia|]. by apply chain_stored.
    + apply IHc. by apply Forall_cons in Hfirsts as [_ ?].
Qed.

(** [w'] has the pages [l] in addition. *)
Definition walked (l : list Z) (w w' : Walk) : Prop :=
  wk_queue w' = wk_queue w ∧ wk_pages w' = wk_pages w ++ l ∧ wk_visited w' = list_to_set l ∪ wk_visited w.

Lemma chain_pages o l : chain o l → Forall (λ p, 0 ≤ p < page_count) l.
Proof. by induction 1; constructor. Qed.

Lemma follow_chain_run l o fuel w :
  chain o l → NoDup l → (∀ p, p ∈ l → p ∉ wk_visited w) → (length l ≤ fuel)%nat →
  ∃ w', follow_chain page_count read_page fuel w o = Ok w' ∧ walked l w w'.
Proof.
  intros Hc. revert fuel w. induction Hc as [o buf Ho Hb Hz|o buf l Ho Hb Hz Hc IH]; intros fuel w Hnd Hv Hf;
    (destruct fuel as [|fuel]; [cbn in Hf; lia|]); cbn [follow_chain];
    (rewrite bool_decide_false by (apply Hv; by left)); destruct (Hread _ _ (in_u32 _ Ho) Hb) as [_ Hlen];
    (destruct (Z.leb_spec page_count o); [lia|]); cbn [orb]; rewrite Hb; (destruct (Z.ltb_spec (size_of buf) 4); [lia|]).
  - rewrite Hz. eexists. split; [done|]. repeat split. cbn. set_solver.
  - cbn zeta. destruct (Z.eqb_spec (be_at 4 0 buf) 0); [done|]. apply NoDup_cons in Hnd as [Hn Hnd].
    destruct (IH fuel (found w o) Hnd) as (w' & Hrun & Hq & Hp & Hs).
    { intros p Hp. cbn. specialize (Hv p ltac:(by right)). set_solver. } { cbn in Hf. lia. }
    exists w'. split; [done|]. split; [done|]. cbn in Hp, Hs. split; [by rewrite Hp, <-(assoc_L (++))|]. rewrite Hs. cbn. set_solver.
Qed.

Lemma walk_overflows_run firsts chains w :
  Forall2 (λ first l, first ≠ 0 ∧ chain (first - 1) l) firsts chains →
  NoDup (concat chains) → (∀ p, p ∈ concat chains → p ∉ wk_visited w) →
  ∃ w', fold_io (walk_overflow page_count read_page) w firsts = Ok w' ∧ walked (concat chains) w w'.
Proof.
  intros Hf. revert w. induction Hf as [|o l firsts chains [Hz Hc] Hf IH]; intros w Hnd Hv; cbn [fold_io concat].
  { exists w. split; [done|]. split; [done|]. split; [by rewrite app_nil_r|set_solver]. }
  cbn in Hnd, Hv. apply NoDup_app in Hnd as (Hnd1 & Hdis & Hnd2).
  assert (walk_overflow page_count read_page w o = follow_chain page_count read_page (chain_fuel page_count) w (o - 1)) as ->.
  { unfold walk_overflow. by destruct (Z.eqb_spec o 0). }
  destruct (follow_chain_run l (o - 1) (chain_fuel page_count) w Hc Hnd1) as (w1 & -> & Hq1 & Hp1 & Hs1).
  { intros p Hp. apply Hv. set_solver. }
  { pose proof (in_range_length _ _ Hnd1 (chain_pages _ _ Hc)). unfold chain_fuel. lia. }
  cbn [mbind outcome_bind]. destruct (IH w1 Hnd2) as (w' & Hrun & Hq & Hp & Hs).
  { intros p Hp. rewrite Hs1. specialize (Hv p ltac:(set_solver)). specialize (Hdis p). set_solver. }
  exists w'. split; [done|]. split; [congruence|]. split; [by rewrite Hp, Hp1, (assoc_L (++))|]. rewrite Hs, Hs1, list_to_set_app_L. set_solver.
Qed.

Lemma push_children_run children w :
  Forall (λ c, c ≠ 0) children → NoDup (Z.pred <$> children) → (∀ c, c ∈ Z.pred <$> children → c ∉ wk_visited w) →
  let w' := foldl push_child w children in
  wk_queue w' = wk_queue w ++ (Z.pred <$> children) ∧ wk_pages w' = wk_pages w ∧
  wk_visited w' = list_to_set (Z.pred <$> children) ∪ wk_visited w.
Proof.
  revert w. induction children as [|c cs IH]; intros w Hz Hnd Hv; cbn.
  { rewrite app_nil_r. split_and!; [done|done|set_solver]. }
  apply Forall_cons in Hz as [Hc Hz]. cbn in Hnd, Hv. apply NoDup_cons in Hnd as [Hn Hnd].
  assert (push_child w c = {| wk_queue := wk_queue w ++ [Z.pred c]; wk_visited := {[ Z.pred c ]} ∪ wk_visited w; wk_pages := wk_pages w |}) as Hpush.
  { unfold push_child. destruct (Z.eqb_spec c 0); [done|]. cbn zeta. rewrite decide_False; [done|]. apply Hv. by left. }
  rewrite Hpush. destruct (IH {| wk_queue := wk_queue w ++ [Z.pred c]; wk_visited := {[ Z.pred c ]} ∪ wk_visited w; wk_pages := wk_pages w |} Hz Hnd)
    as (-> & -> & ->); cbn.
  - intros d Hd. specialize (Hv d ltac:(by right)). set_solver.
  - rewrite <-(assoc_L (++)). split_and!; [done|done|set_solver].
Qed.

(** The pages to come are those of the trees whose roots are queued. *)
Record walking (w : Walk) (trees : list (list Z)) : Prop := {
  wg_trees : Forall2 btree (wk_queue w) trees;
  wg_nodup : NoDup (wk_pages w ++ concat trees);
  wg_seen : wk_visited w = list_to_set (wk_pages w ++ wk_queue w)
}.

Lemma roots_in queue trees p : Forall2 btree queue trees → p ∈ queue → p ∈ concat trees.
Proof.
  induction 1 as [|q l queue trees Ht _ IH]; [done|]. cbn. rewrite elem_of_cons, elem_of_app. intros [->|Hp]; [left|right; by apply IH].
  destruct Ht; by left.
Qed.

Lemma roots_nodup queue trees : Forall2 btree queue trees → NoDup (concat trees) → NoDup queue.
Proof.
  induction 1 as [|q l queue trees Ht Hts IH]; [constructor|]. cbn. intros (Hl & Hdis & Hnd)%NoDup_app. constructor; [|by apply IH].
  intros Hq. apply (Hdis q); [by destruct Ht; left|by eapply roots_in].
Qed.

Lemma walk_page_run w p q l trees :
  walking w (l :: trees) → wk_queue w = p :: q →
  ∃ w' trees', walk_page page_count page_size read_page {| wk_queue := q; wk_visited := wk_visited w; wk_pages := wk_pages w |} p = Ok w' ∧
    walking w' trees' ∧ wk_pages w' ++ concat trees' ≡ₚ wk_pages w ++ l ++ concat trees ∧ (length (wk_pages w) < length (wk_pages w'))%nat.
Proof.
  intros [Ht Hnd Hs] Hq. rewrite Hq in Ht, Hs. apply Forall2_cons_1 in Ht as [Ht Hts]. cbn [concat] in Hnd.
  unfold walk_page.
  destruct Ht as [p buf subs Hp Hb Hty Hsub|p buf firsts chains Hp Hb Hty Hex Hch]; rewrite Hb; destruct (Hread _ _ (in_u32 _ Hp) Hb) as [_ Hlen];
    pose proof (header_offset_bounds p); cbn zeta; cbn [wk_queue wk_visited wk_pages];
    (destruct (Z.ltb_spec (size_of buf) (header_offset p + 12)); [lia|]).
  - assert ((be_at 1 (header_offset p) buf =? INTERIOR_INDEX) || (be_at 1 (header_offset p) buf =? INTERIOR_TABLE) = true) as ->.
    { rewrite !elem_of_cons, elem_of_nil in Hty. destruct Hty as [->|[->|[]]]; done. }
    set (cs := extract_interior_children buf (header_offset p)) in *.
    set (w1 := {| wk_queue := q; wk_visited := wk_visited w; wk_pages := wk_pages w ++ [p] |}).
    assert (Forall2 btree (Z.pred <$> cs) subs) as Hroots.
    { apply Forall2_fmap_l. eapply Forall2_impl; [exact Hsub|]. intros c l [_ Hc]. exact Hc. }
    assert (NoDup (wk_pages w ++ [p] ++ concat trees ++ concat subs)) as Hnd'.
    { eapply NoDup_Permutation_proper; [|exact Hnd]. solve_Permutation. }
    pose proof Hnd' as (_ & Hdis1 & (_ & Hdis2 & (Htr & Hdis3 & Hsubs)%NoDup_app)%NoDup_app)%NoDup_app.
    destruct (push_children_run cs w1) as (Hq' & Hp' & Hs').
    { eapply Forall2_Forall_l; [exact Hsub|]. apply Forall_true. by intros l c [? _]. }
    { by eapply roots_nodup. }
    { intros c Hc. apply (roots_in _ _ _ Hroots) in Hc. cbn. rewrite Hs, elem_of_list_to_set, elem_of_app, elem_of_cons.
      intros [Hin|[->|Hin]].
      - apply (Hdis1 c Hin). set_solver.
      - apply (Hdis2 p); set_solver.
      - apply (Hdis3 c); [by eapply roots_in|done]. }
    exists (foldl push_child w1 cs), (trees ++ subs). split; [done|]. split; [split|split].
    + rewrite Hq'. by apply Forall2_app.
    + rewrite Hp', concat_app. cbn. by rewrite <-!(assoc_L (++)).
    + rewrite Hs', Hp', Hq'. cbn. rewrite Hs. rewrite !list_to_set_app_L. cbn. set_solver.
    + rewrite Hp', concat_app. cbn. solve_Permutation.
    + rewrite Hp'. cbn. rewrite length_app. cbn. lia.
  - assert ((be_at 1 (header_offset p) buf =? INTERIOR_INDEX) || (be_at 1 (header_offset p) buf =? INTERIOR_TABLE) = false ∧
            (be_at 1 (header_offset p) buf =? LEAF_INDEX) || (be_at 1 (header_offset p) buf =? LEAF_TABLE) = true) as [-> ->].
    { rewrite !elem_of_cons, elem_of_nil in Hty. destruct Hty as [->|[->|[]]]; done. }
    rewrite Hex. cbn [mbind outcome_bind].
    pose proof Hnd as (_ & Hdis1 & (Hl & Hdis2 & Htr)%NoDup_app)%NoDup_app. apply NoDup_cons in Hl as [Hpl Hl].
    destruct (walk_overflows_run firsts chains {| wk_queue := q; wk_visited := wk_visited w; wk_pages := wk_pages w ++ [p] |} Hch Hl)
      as (w' & Hrun & Hq' & Hp' & Hs').
    { intros r Hr. cbn. rewrite Hs, elem_of_list_to_set, elem_of_app, elem_of_cons. intros [Hin|[->|Hin]].
      - apply (Hdis1 r Hin). set_solver.
      - done.
      - apply (Hdis2 r); [set_solver|by eapply roots_in]. }
    exists w', trees. split; [done|]. cbn in Hq', Hp', Hs'. split; [split|split].
    + by rewrite Hq'.
    + rewrite Hp'. eapply NoDup_Permutation_proper; [|exact Hnd]. solve_Permutation.
    + rewrite Hs', Hp', Hq', Hs. rewrite !list_to_set_app_L. cbn. set_solver.
    + rewrite Hp'. cbn. by rewrite <-!(assoc_L (++)).
    + rewrite Hp', !length_app. cbn. lia.
Qed.

Lemma btree_pages p l : btree p l → Forall (λ p, 0 ≤ p < page_count) l.
Proof.
  revert p l. fix IH 3. intros p l [p' buf subs Hp _ _ Hsub|p' buf firsts chains Hp _ _ _ Hch];
    (constructor; [exact Hp|]); apply Forall_concat.
  - induction Hsub as [|c l' cs subs' [_ Hc] _ IHs]; constructor; [by apply (IH (c - 1))|done].
  - clear IH. induction Hch as [|c l' cs subs' [_ Hc] _ IHs]; constructor; [by eapply chain_pages|done].
Qed.

Lemma walk_loop_run fuel w trees :
  walking w trees → (length (concat trees) ≤ fuel)%nat →
  ∃ l, walk_loop page_count page_size read_page fuel w = Ok l ∧ l ≡ₚ wk_pages w ++ concat trees.
Proof.
  revert w trees. induction fuel as [|fuel IH]; intros w trees Hw Hf; cbn [walk_loop];
    pose proof (wg_trees _ _ Hw) as Ht; destruct (wk_queue w) as [|p q] eqn:Hq; inversion Ht as [|? l ? trees' Htree]; subst.
  - eexists. split; [done|]. by rewrite app_nil_r.
  - exfalso. destruct Htree; cbn in Hf; lia.
  - eexists. split; [done|]. by rewrite app_nil_r.
  - destruct (walk_page_run w p q l trees' Hw Hq) as (w' & ts & -> & Hw' & Hperm & Hlt). cbn [mbind outcome_bind].
    destruct (IH w' ts Hw') as (k & Hrun & Hk).
    { apply Permutation_length in Hperm. rewrite !length_app in Hperm. cbn [concat] in Hf. rewrite length_app in Hf. lia. }
    exists k. split; [done|]. by rewrite Hk, Hperm.
Qed.

End btree_safety.


(** C20. The walk finds the pages of a tree.  The tree is given by what SQLite
    stores, on pages without reserved bytes: interior pages with their children,
    leaves with their cells, the overflow pages of the leaves chained, no page
    twice.  The walk from its root then lists the root, the subtrees and the
    chains, each page once and in order.  The overflow pages of the cells of
    interior index pages are not part of such a tree: the walk does not look for
    them. *)
Theorem walk_finds_tree page_count page_size read_page root pages :
  512 ≤ page_size ≤ 2 ^ 16 → reader_ok page_count page_size read_page →
  page_count ≤ 2 ^ 32 → stored_tree page_count page_size read_page root pages → NoDup pages →
  ∃ l, walk_btree page_count page_size read_page root = Ok l ∧ l ≡ₚ pages ∧ StronglySorted Z.lt l.
Proof.
  intros Hps Hread Hcount Ht%tree_stored Hnd; [|done..].
  assert (0 ≤ root < page_count) as Hroot by (by destruct Ht).
  destruct (walk_btree_ends _ _ _ Hps Hread root ltac:(lia)) as (l & Hrun & Hl & _). exists l. split; [done|].
  split; [|done]. unfold walk_btree in Hrun.
  destruct (walk_loop_run _ _ _ Hps Hread Hcount (walk_fuel page_count page_size) {| wk_queue := [root]; wk_visited := {[ root ]}; wk_pages := [] |} [pages])
    as (k & Hk & Hperm).
  - split; cbn; [by repeat constructor|by rewrite app_nil_r|set_solver].
  - cbn. rewrite app_nil_r. pose proof (in_range_length page_count pages Hnd) as Hlen.
    assert (Forall (λ p, 0 ≤ p < page_count) pages) as Hin; [|specialize (Hlen Hin); unfold walk_fuel; nia].
    by eapply btree_pages.
  - rewrite Hk in Hrun. cbn in Hrun. injection Hrun as <-. rewrite (proj2 (sorted_pages k)), Hperm. cbn. by rewrite app_nil_r.
Qed.
