(* ===== verification/Import.v ===== *)
(** Importing a SQLite file (src/src/tiered/import.rs): the pages are grouped
    by B-tree, encoded, uploaded, and a manifest is published. *)

From stdpp Require Import strings.
From S2P Require Import Prelude Keys CacheTracking LocalState Compress Encoding DiskCache.
From S2P Require Import Staging Manifest Backend ColdRead Vfs Compact Flush BTreeWalker.

(* ------------------------------------------------------------------ *)
(** * Packing pages into groups *)

(** [sort_by_key(|b| Reverse(b.pages.len()))]. *)
Definition larger (a b : Z * BTreeEntry) : Prop := (length (be_pages b.2) ≤ length (be_pages a.2))%nat.

#[export] Instance larger_dec a b : Decision (larger a b).
Proof. unfold larger. apply _. Defined.

(** A large tree gets its own groups; a small one waits. *)
Definition pack_tree (ppg : nat) (threshold : Z) (acc : list (list Z) * list Z) (tree : Z * BTreeEntry) :
    list (list Z) * list Z :=
  let sorted_pages := merge_sort Z.le (be_pages tree.2) in
  if threshold <=? Z.of_nat (length sorted_pages)
  then (acc.1 ++ chunks ppg sorted_pages, acc.2)
  else (acc.1, acc.2 ++ sorted_pages).

Definition pack_groups `{HashIter} (ppg : Z) (walk : BTreeWalkResult) : list (list Z) :=
  let btree_list := merge_sort larger (hiter (wr_btrees walk)) in
  let threshold := Z.max (ppg / 4) 1 in
  let '(group_pages_list, small_pages) := foldl (pack_tree (Z.to_nat ppg) threshold) ([], []) btree_list in
  group_pages_list ++ chunks (Z.to_nat ppg) (small_pages ++ merge_sort Z.le (wr_unowned_pages walk)).

(** [groups.swap(0, i)] for the group of page 0. *)
Definition page0_first (groups : list (list Z)) : list (list Z) :=
  match list_find (λ g, 0 ∈ g) groups, groups with
  | Some (i, g), g0 :: _ => <[0%nat := g]> (<[i := g0]> groups)
  | _, _ => groups
  end.

(** The group of each page; a page listed twice has the last one. *)
Definition page_to_gid (groups : list (list Z)) : gmap Z Z :=
  foldl (λ acc g, insert_all g.2 g.1 acc) ∅ (enumerate groups).

Definition btree_manifest_entry (groups : list (list Z)) (e : BTreeEntry) : BTreeManifestEntry :=
  let gid_set : gset Z := list_to_set (omap (λ p, page_to_gid groups !! p) (be_pages e)) in
  {| bt_name := be_name e; bt_obj_type := be_type e; bt_group_ids := merge_sort Z.le (elements gid_set);
     bt_pages := be_pages e |}.

(* ------------------------------------------------------------------ *)
(** * The import *)

Record ImportAcc := {
  ia_keys : list string;
  ia_frames : list (list FrameEntry);
  ia_uploads : list (string * bytes);
  ia_interior : list (Z * bytes);
  ia_index_leaves : list (Z * bytes)
}.

Section import.
Context `{HashIter} `{Compression} `{Aead K} `{StorageBackend B}.
Variable rnd : string → Z → bytes.
Variable encode_manifest : Manifest → option bytes.
Variable decode_manifest : bytes → option Manifest.
Variable key : option K.
(** [pages_per_group] and [sub_pages_per_frame] of the configuration. *)
Variable ppg sub_ppf : Z.

(** A page of the file; the offset is a [u64]. *)
Definition file_page (file : bytes) (page_size page_num : Z) : option bytes :=
  let offset := wrap64 (page_num * page_size) in slice offset (offset + page_size) file.

(** A page read for the upload goes into the bundles it belongs to. *)
Definition read_import_page (file : bytes) (page_size : Z) (acc : list bytes * (list (Z * bytes) * list (Z * bytes)))
    (pnum : Z) : io (list bytes * (list (Z * bytes) * list (Z * bytes))) :=
  let '(pages, (interior, leaves)) := acc in
  buf ← ok_or (file_page file page_size pnum) UnexpectedEof;
  t ← or_panic (type_byte pnum buf);
  Ok (pages ++ [buf],
      if (t =? 5) || (t =? 2) then (interior ++ [(pnum, buf)], leaves)
      else if (t =? 10) && is_valid_btree_page buf (header_offset pnum) then (interior, leaves ++ [(pnum, buf)])
      else (interior, leaves)).

Definition import_group (file : bytes) (m : Manifest) (acc : ImportAcc) (g : Z * list Z) : io ImportAcc :=
  '(pages, (interior, leaves)) ← fold_io (read_import_page file (Manifest.page_size m))
    ([], (ia_interior acc, ia_index_leaves acc)) g.2;
  let k := page_group_key g.1 (version m) in
  '(encoded, ft) ← encode_group rnd key m g.1 k (Some <$> pages);
  Ok {| ia_keys := ia_keys acc ++ [k]; ia_frames := ia_frames acc ++ [default [] ft];
        ia_uploads := ia_uploads acc ++ [(k, encoded)]; ia_interior := interior; ia_index_leaves := leaves |}.

(** The batches of an upload, up to the first that fails. *)
Fixpoint put_batches (batches : list (list (string * bytes))) (b : B) : io () * B :=
  match batches with
  | [] => (Ok (), b)
  | batch :: batches =>
    let '(r, b) := put_page_groups batch b in
    match r with Ok _ => put_batches batches b | Err e => (Err e, b) | Panic => (Panic, b) end
  end.

(** The bundles of one kind and their keys. *)
Definition import_bundle (key_of : Z → Z → string) (aad_of : Z → bytes) (page_size version : Z)
    (pages : list (Z * bytes)) (acc : list (string * bytes) * gmap Z string) (id : Z) :
    io (list (string * bytes) * gmap Z string) :=
  let k := key_of id version in
  encoded ← encode_interior_bundle (sort_by_key (filter (λ p, chunk_id page_size p.1 = id) pages)) page_size
              (rnd k 0) (aad_of id) key;
  Ok (acc.1 ++ [(k, encoded)], <[id := k]> acc.2).

Definition import_bundles (key_of : Z → Z → string) (aad_of : Z → bytes) (page_size version : Z)
    (pages : list (Z * bytes)) : io (list (string * bytes) * gmap Z string) :=
  fold_io (import_bundle key_of aad_of page_size version pages) ([], ∅)
    (hset_iter (list_to_set ((λ p, chunk_id page_size p.1) <$> pages))).

(** Page size, page count and version from the header; without a committed
    change the import stops. *)
Definition import_header (file : bytes) : io (Z * Z * Z) :=
  header ← ok_or (slice 0 100 file) UnexpectedEof;
  let raw_page_size := be_at 2 16 header in
  let page_size := if raw_page_size =? 1 then 65536 else raw_page_size in
  if (page_size =? 0) || (ppg =? 0) then Panic else
  let version := read_file_change_counter header in
  if version =? 0 then Panic else
  Ok (page_size, Z.of_nat (length file) / page_size, version).

(** The manifest without the objects. *)
Definition import_layout (ps n v : Z) (walk : BTreeWalkResult) : Manifest :=
  let groups := page0_first (pack_groups ppg walk) in
  empty_manifest <| Manifest.version := v |> <| change_counter := v |> <| page_count := n |>
    <| Manifest.page_size := ps |> <| Manifest.pages_per_group := ppg |> <| Manifest.sub_pages_per_frame := sub_ppf |>
    <| strategy := BTreeAware |> <| Manifest.group_pages := groups |>
    <| btrees := btree_manifest_entry groups <$> wr_btrees walk |>.

Definition import_groups (file : bytes) (m : Manifest) : io ImportAcc :=
  fold_io (import_group file m) {| ia_keys := []; ia_frames := []; ia_uploads := []; ia_interior := []; ia_index_leaves := [] |}
    (enumerate (Manifest.group_pages m)).

(** The encoded groups and the manifest without the bundles. *)
Definition prepare_import (file : bytes) : io (ImportAcc * Manifest) :=
  '(ps, n, v) ← import_header file;
  walk ← walk_all_btrees n ps (file_page file ps);
  let m := import_layout ps n v walk in
  acc ← import_groups file m;
  Ok (acc, m <| page_group_keys := ia_keys acc |> <| frame_tables := ia_frames acc |>).

Definition bind_io {A C} (r : io A) (b : B) (f : A → io C * B) : io C * B :=
  match r with Ok a => f a | Err e => (Err e, b) | Panic => (Panic, b) end.

Definition import_sqlite_file (locked : bool) (file : bytes) (b : B) : io Manifest * B :=
  if locked then (Err WouldBlock, b) else
  bind_io (prepare_import file) b (λ '(acc, m),
  let '(r, b) := put_batches (chunks 50 (ia_uploads acc)) b in
  bind_io r b (λ _,
  bind_io (import_bundles interior_chunk_key aad_interior_bundle (Manifest.page_size m) (version m) (ia_interior acc)) b
    (λ '(ups, interior_keys),
  let '(r, b) := put_page_groups ups b in
  bind_io r b (λ _,
  bind_io (import_bundles index_chunk_key aad_index_bundle (Manifest.page_size m) (version m) (ia_index_leaves acc)) b
    (λ '(ups, index_keys),
  let '(r, b) := put_page_groups ups b in
  bind_io r b (λ _,
  let m := build_page_index (m <| interior_chunk_keys := interior_keys |> <| index_chunk_keys := index_keys |>) in
  let '(r, b) := put_manifest encode_manifest decode_manifest m b in
  bind_io r b (λ _, (Ok m, b)))))))).
End import.
