(* ===== verification/ImportSafety.v ===== *)
(** The import: the groups partition the pages of the file, and what is
    published serves every page of it. *)

From stdpp Require Import strings.
From S2P Require Import Prelude Keys CacheTracking LocalState Compress Encoding DiskCache.
From S2P Require Import Staging Manifest Backend ColdRead Vfs Compact Flush FlushPages FlushGroups FlushBundles FlushManifest.
From S2P Require Import BTreeWalker BTreeSafety Import.

(* ------------------------------------------------------------------ *)
(** * Packing *)

Definition tree_pages (trees : list (Z * BTreeEntry)) : list Z := concat ((λ t, be_pages t.2) <$> trees).

Lemma pack_trees_pages ppg threshold trees acc : (0 < ppg)%nat →
  let acc' := foldl (pack_tree ppg threshold) acc trees in
  concat acc'.1 ++ acc'.2 ≡ₚ concat acc.1 ++ acc.2 ++ tree_pages trees.
Proof.
  intros Hppg. unfold tree_pages. revert acc. induction trees as [|t trees IH]; intros acc; cbn; [by rewrite app_nil_r|].
  cbn in IH. rewrite IH. unfold pack_tree. pose proof (proj2 (sorted_pages (be_pages t.2))) as Hs.
  case_match; cbn; rewrite ?concat_app, ?concat_chunks by done; rewrite Hs; solve_Permutation.
Qed.

Lemma pack_trees_sizes ppg threshold trees acc : (0 < ppg)%nat →
  Forall (λ g, (0 < length g ≤ ppg)%nat) acc.1 → Forall (λ g, (0 < length g ≤ ppg)%nat) (foldl (pack_tree ppg threshold) acc trees).1.
Proof.
  intros Hppg. revert acc. induction trees as [|t trees IH]; intros acc Hacc; cbn; [done|]. apply IH. unfold pack_tree.
  case_match; cbn; [|done]. apply Forall_app_2; [done|by apply chunks_bounds].
Qed.

Lemma pack_groups_spec `{HashIter} ppg walk : 0 < ppg →
  concat (pack_groups ppg walk) ≡ₚ tree_pages (hiter (wr_btrees walk)) ++ wr_unowned_pages walk ∧
  Forall (λ g, (0 < length g ≤ Z.to_nat ppg)%nat) (pack_groups ppg walk).
Proof.
  intros Hppg. unfold pack_groups. assert (0 < Z.to_nat ppg)%nat as Hn by lia.
  set (trees := merge_sort larger (hiter (wr_btrees walk))).
  assert (tree_pages trees ≡ₚ tree_pages (hiter (wr_btrees walk))) as Htrees.
  { unfold tree_pages, trees. by rewrite (merge_sort_Permutation larger). }
  pose proof (pack_trees_pages (Z.to_nat ppg) (Z.max (ppg / 4) 1) trees ([], []) Hn) as Hp.
  pose proof (pack_trees_sizes (Z.to_nat ppg) (Z.max (ppg / 4) 1) trees ([], []) Hn ltac:(constructor)) as Hs.
  destruct (foldl _ _ trees) as [groups small]. cbn in *. split.
  - rewrite concat_app, concat_chunks by done. rewrite (proj2 (sorted_pages _)), (assoc_L (++)), Hp. by rewrite Htrees.
  - apply Forall_app_2; [done|by apply chunks_bounds].
Qed.

Lemma page0_first_perm groups : page0_first groups ≡ₚ groups.
Proof.
  unfold page0_first. destruct (list_find _ groups) as [[i g]|] eqn:Hf; [|done]. apply list_find_Some in Hf as (Hi & _ & _).
  destruct groups as [|g0 groups]; [done|]. destruct i as [|i]; cbn in *; [by injection Hi as ->|].
  assert (groups ≡ₚ take i groups ++ g :: drop (S i) groups) as Hg by (by rewrite take_drop_middle).
  pose proof (insert_take_drop groups i g0 (lookup_lt_Some _ _ _ Hi)) as Hins.
  etrans; [apply Permutation_skip, reflexive_eq, Hins|]. clear Hins. rewrite Hg at 3. solve_Permutation.
Qed.

(** No page is in two trees. *)
Definition trees_disjoint (walk : BTreeWalkResult) : Prop := ∀ a b ea eb p,
  wr_btrees walk !! a = Some ea → wr_btrees walk !! b = Some eb → p ∈ be_pages ea → p ∈ be_pages eb → a = b.

Lemma walked_nodup l : StronglySorted Z.lt l → NoDup l.
Proof.
  induction 1 as [|x l Hl IH Hx]; constructor; [|done]. intros Hin. rewrite Forall_forall in Hx. specialize (Hx x Hin). lia.
Qed.

Lemma elem_of_concat_pages {A} (x : A) ls : x ∈ concat ls ↔ ∃ l, x ∈ l ∧ l ∈ ls.
Proof. rewrite list_elem_of_In, in_concat. setoid_rewrite list_elem_of_In. naive_solver. Qed.

Lemma tree_pages_elem `{HashIter} (m : gmap Z BTreeEntry) p :
  p ∈ tree_pages (hiter m) ↔ ∃ root e, m !! root = Some e ∧ p ∈ be_pages e.
Proof.
  unfold tree_pages. rewrite elem_of_concat_pages. split.
  - intros (l & Hp & ([root e] & -> & Hin%elem_of_hiter)%list_elem_of_fmap). by exists root, e.
  - intros (root & e & He & Hp). exists (be_pages e). split; [done|]. apply list_elem_of_fmap. exists (root, e).
    split; [done|]. by apply elem_of_hiter.
Qed.

(** The groups of a walked database hold each of its pages once. *)
Lemma groups_partition `{HashIter} ppg n walk : 0 < ppg →
  map_Forall (λ root e, be_root_page e = root ∧ pages_ok n (be_pages e)) (wr_btrees walk) → pages_ok n (wr_unowned_pages walk) →
  (∀ p, 0 ≤ p < n → (p ∈ wr_unowned_pages walk ↔ ¬ ∃ root e, wr_btrees walk !! root = Some e ∧ p ∈ be_pages e)) →
  trees_disjoint walk →
  let groups := page0_first (pack_groups ppg walk) in
  concat groups ≡ₚ range 0 n ∧ Forall (λ g, (0 < length g ≤ Z.to_nat ppg)%nat) groups.
Proof.
  intros Hppg Ht [Hu Hur] Hcover Hdis. cbn zeta. pose proof (page0_first_perm (pack_groups ppg walk)) as Hperm.
  destruct (pack_groups_spec ppg walk Hppg) as [Hc Hs]. split; [|by rewrite Hperm].
  assert (concat (page0_first (pack_groups ppg walk)) ≡ₚ concat (pack_groups ppg walk)) as -> by (by rewrite Hperm).
  rewrite Hc. apply NoDup_Permutation.
  - apply NoDup_app. split; [|split].
    + unfold tree_pages. pose proof (NoDup_hiter (wr_btrees walk)) as Hnd.
      assert (∀ r e, (r, e) ∈ hiter (wr_btrees walk) → wr_btrees walk !! r = Some e) as Hin by (intros r e; apply elem_of_hiter).
      revert Hnd Hin. generalize (hiter (wr_btrees walk)). intros l. induction l as [|[r e] l IH]; intros Hnd Hin; cbn; [constructor|]. cbn in Hnd. apply NoDup_cons in Hnd as [Hr Hnd].
      apply NoDup_app. split; [|split].
      * apply walked_nodup. apply (Ht r e). apply Hin. by left.
      * intros p Hp (l' & Hp' & ([r' e'] & -> & Hin')%list_elem_of_fmap)%elem_of_concat_pages. cbn in Hp'.
        assert (r = r') as <-. { eapply (Hdis r r' e e' p); [apply Hin; by left|apply Hin; by right|done|done]. }
        apply Hr. apply list_elem_of_fmap. by exists (r, e').
      * apply IH; [done|]. intros r' e' Hin'. apply Hin. by right.
    + intros p (root & e & He & Hp)%tree_pages_elem Hpu.
      assert (0 ≤ p < n) as Hr by (rewrite Forall_forall in Hur; by apply Hur). apply Hcover in Hpu; [|done]. apply Hpu. by exists root, e.
    + by apply walked_nodup.
  - apply NoDup_seqZ.
  - intros p. rewrite elem_of_app, tree_pages_elem, elem_of_range. split.
    + intros [(root & e & He & Hp)|Hp]; [|rewrite Forall_forall in Hur; by apply Hur].
      destruct (Ht root e He) as (_ & _ & Hb). rewrite Forall_forall in Hb. by apply Hb.
    + intros Hp. destruct (decide (p ∈ wr_unowned_pages walk)) as [|Hn]; [by right|left].
      destruct (decide (p ∈ tree_pages (hiter (wr_btrees walk)))) as [Hin|Hnin]; [by apply tree_pages_elem|].
      exfalso. apply Hn, Hcover; [done|]. intros He. by apply Hnin, tree_pages_elem.
Qed.

(* ------------------------------------------------------------------ *)
(** * The uploads *)

Lemma enumerate_size {A} (l : list A) : length (enumerate l) = length l.
Proof. unfold enumerate. rewrite length_zip_with, length_range. lia. Qed.

Lemma length_le_concat {A} c (ls : list (list A)) :
  Forall (λ l, (0 < length l ≤ c)%nat) ls → (length ls ≤ length (concat ls))%nat.
Proof. induction 1 as [|l ls Hl _ IH]; cbn; [lia|]. rewrite length_app. lia. Qed.

Lemma elem_of_enumerate_pos {A} (l : list A) i j x : enumerate l !! i = Some (j, x) → j = Z.of_nat i ∧ (i < length l)%nat.
Proof.
  intros Hi. pose proof (lookup_lt_Some _ _ _ Hi) as Hlt. rewrite enumerate_size in Hlt. split; [|done].
  destruct (lookup_lt_is_Some_2 l i Hlt) as [y Hy]. rewrite (enumerate_lookup _ _ _ Hy) in Hi. by injection Hi.
Qed.

Section uploads.
Context `{HashIter} `{StorageLaws B}.

(** An upload that was carried out, or one that failed. *)
Definition uploaded (ups : list (string * bytes)) (r : io ()) (b b' : B) : Prop :=
  ((r = Ok () ∧ objects b' = put_all ups (objects b)) ∨ (r = Err OtherKind ∧ ¬ reliable b)) ∧
  (∀ k, k ∉ ups.*1 → objects b' !! k = objects b !! k) ∧ (reliable b → reliable b').

Lemma put_groups_uploaded ups (b : B) : let '(r, b') := put_page_groups ups b in uploaded ups r b b'.
Proof. destruct (put_page_groups_run ups b) as (r & b' & -> & Hr). exact Hr. Qed.

Lemma put_batches_uploaded batches (b : B) : let '(r, b') := put_batches batches b in uploaded (concat batches) r b b'.
Proof.
  revert b. induction batches as [|ups batches IH]; intros b; cbn [put_batches concat].
  { split; [left; done|done]. }
  pose proof (put_groups_uploaded ups b) as Hu. destruct (put_page_groups ups b) as [r b1].
  destruct Hu as ([[-> Ho]|[-> Hn]] & Hother & Hrel).
  - specialize (IH b1). destruct (put_batches batches b1) as [r b']. destruct IH as (Hr & Hother' & Hrel'). split; [|split].
    + destruct Hr as [[-> Ho']|[-> Hn']]; [left|right; split; [done|by intros ?%Hrel]]. split; [done|].
      by rewrite Ho', Ho, put_all_app.
    + intros k Hk. rewrite fmap_app, not_elem_of_app in Hk. by rewrite Hother', Hother by apply Hk.
    + intros ?. by apply Hrel', Hrel.
  - split; [by right|]. split; [|done]. intros k Hk. rewrite fmap_app, not_elem_of_app in Hk. by apply Hother, Hk.
Qed.

End uploads.

(* ------------------------------------------------------------------ *)
(** * Encoding the groups *)

Section import_safety.
Context `{HashIter} `{Compression} `{Aead K} `{StorageLaws B} (rnd : string → Z → bytes) `{!FlushLaws rnd}.
Variable encode_manifest : Manifest → option bytes.
Variable decode_manifest : bytes → option Manifest.
Variable key : option K.
Context (ppg spf ps n v : Z) (groups : list (list Z)) (file : bytes).
Context (Hps : is_valid_page_size ps = true) (Hv : is_u64 v) (Hn : 0 ≤ n ≤ 2 ^ 32).
Context (Hppg : 0 < ppg ≤ 2 ^ 14) (Hbytes : 8 + ppg * ps ≤ 2 ^ 30) (Hspf : 0 ≤ spf ∧ spf * ps ≤ 2 ^ 30).
Context (Hpages : concat groups ≡ₚ range 0 n) (Hsizes : Forall (λ g, (0 < length g ≤ Z.to_nat ppg)%nat) groups).
Context (Hfile : ∀ p, 0 ≤ p < n → ∃ d, file_page file ps p = Some d ∧ Z.of_nat (length d) = ps).

(** A page of the file, and the pages of a group. *)
Definition page_of (p : Z) : bytes := default [] (file_page file ps p).
Definition group_of (nums : list Z) : list bytes := page_of <$> nums.

Lemma ps_bounds : 512 ≤ ps ≤ 2 ^ 16.
Proof. apply is_valid_page_size_bounds in Hps. lia. Qed.

(** The layout of the manifest to be published. *)
Record laid_out (m : Manifest) : Prop := {
  lo_ps : Manifest.page_size m = ps;
  lo_spf : Manifest.sub_pages_per_frame m = spf;
  lo_ppg : Manifest.pages_per_group m = ppg;
  lo_count : page_count m = n;
  lo_strategy : strategy m = BTreeAware;
  lo_groups : Manifest.group_pages m = groups;
  lo_overrides : subframe_overrides m = []
}.

Lemma laid_out_nums m gid : laid_out m → group_page_nums (build_page_index m) gid = default [] (at_index groups gid).
Proof.
  intros []. unfold group_page_nums. rewrite build_page_index_strategy, build_page_index_group_pages, lo_groups0.
  unfold detected_strategy. rewrite lo_strategy0. by destruct (Manifest.group_pages m).
Qed.

Lemma laid_out_detected m : laid_out m → detected_strategy m = BTreeAware.
Proof. intros []. unfold detected_strategy. rewrite lo_strategy0. by destruct (Manifest.group_pages m). Qed.

Lemma in_group gid nums : at_index groups gid = Some nums →
  (0 < length nums ≤ Z.to_nat ppg)%nat ∧ Forall (λ p, 0 ≤ p < n) nums.
Proof.
  intros [_ Hg]%at_index_Some. rewrite Forall_lookup in Hsizes. split; [by eapply Hsizes|]. rewrite Forall_forall. intros p Hp.
  apply elem_of_range. rewrite <-Hpages. apply elem_of_concat_pages. exists nums. split; [done|]. by eapply list_elem_of_lookup_2.
Qed.

Lemma laid_out_geometry m :
  laid_out m → (length (frame_tables m) ≤ length (page_group_keys m))%nat →
  length (page_group_keys m) = length groups → geometry (build_page_index m).
Proof.
  intros Hm Hft Hk. pose proof ps_bounds as Hb. pose proof (laid_out_detected m Hm) as Hd.
  pose proof (λ gid, laid_out_nums m gid Hm) as Hnums.
  assert (∀ gid, Z.of_nat (length (group_page_nums (build_page_index m) gid)) ≤ ppg) as Hlen.
  { intros gid. rewrite Hnums. destruct (at_index groups gid) as [nums|] eqn:Hg; cbn; [|lia]. apply in_group in Hg. lia. }
  destruct Hm. split.
  - apply build_page_index_wf. split; try (rewrite ?lo_count0, ?lo_ppg0, ?lo_groups0; lia || done).
    + apply validate_field_ranges_Ok. rewrite lo_ps0, lo_ppg0, lo_count0, lo_overrides0, lo_groups0, Hk. cbn.
      assert (2 ^ 32 ≤ u64_max / 65536) by done. split_and!; [by right|lia|lia|lia|lia|lia].
    + rewrite lo_groups0, Hpages. apply NoDup_seqZ.
    + rewrite lo_groups0. eapply Forall_impl; [exact Hsizes|]. intros g Hg. cbn in Hg. lia.
  - rewrite build_page_index_strategy. apply detected_strategy_stable;
      [apply build_page_index_group_pages|apply build_page_index_strategy].
  - intros _. rewrite build_page_index_group_pages. unfold build_page_index. by rewrite Hd.
  - destruct (build_page_index_shape m) as (s & pi & ti & ->). cbn. lia.
  - destruct (build_page_index_shape m) as (s & pi & ti & ->). cbn. by rewrite lo_spf0, lo_ps0.
  - intros gid p _ Hp. rewrite Hnums in Hp. destruct (at_index groups gid) as [nums|] eqn:Hg; cbn in Hp; [|by apply not_elem_of_nil in Hp].
    apply in_group in Hg as [_ Hg]. rewrite Forall_forall in Hg. specialize (Hg p Hp).
    destruct (build_page_index_shape m) as (s & pi & ti & ->). cbn. by rewrite lo_count0.
  - intros gid. specialize (Hlen gid). lia.
  - intros gid. specialize (Hlen gid). assert (Manifest.page_size (build_page_index m) = ps) as ->; [|nia].
    destruct (build_page_index_shape m) as (s & pi & ti & ->). done.
Qed.

(** Every page has its place. *)
Lemma laid_out_location m p : laid_out m → 0 ≤ p < n →
  ∃ gid i nums, at_index groups (Z.of_nat gid) = Some nums ∧ nums !! i = Some p ∧
    page_location (build_page_index m) p = Some {| group_id := Z.of_nat gid; index := Z.of_nat i |}.
Proof.
  intros Hm Hp. assert (p ∈ concat groups) as (nums & Hin & Hg)%elem_of_concat_pages by (rewrite Hpages; by apply elem_of_range).
  apply list_elem_of_lookup in Hin as [i Hi]. apply list_elem_of_lookup in Hg as [gid Hg].
  exists gid, i, nums. rewrite lookup_at_index. split; [done|]. split; [done|].
  unfold page_location. rewrite build_page_index_strategy, (laid_out_detected m Hm). unfold build_page_index.
  rewrite (laid_out_detected m Hm). cbn. rewrite (lo_groups _ Hm). apply index_groups_lookup.
  - rewrite Hpages. apply NoDup_seqZ.
  - exists gid, i, nums. split; [done|]. split; [done|]. rewrite wrap32_id; [done|].
    apply lookup_lt_Some in Hi. rewrite Forall_lookup in Hsizes. specialize (Hsizes _ _ Hg). cbn in Hsizes. unfold is_u32. lia.
Qed.

Lemma group_of_sized nums : Forall (λ p, 0 ≤ p < n) nums → Forall (λ d, Z.of_nat (length d) = ps) (group_of nums).
Proof.
  intros Hnums. apply Forall_fmap. eapply Forall_impl; [exact Hnums|]. intros p Hp. cbn. unfold page_of.
  by destruct (Hfile p Hp) as (d & -> & ?).
Qed.

Lemma encode_group_ext m m' gid k pages :
  Manifest.page_size m = Manifest.page_size m' → Manifest.sub_pages_per_frame m = Manifest.sub_pages_per_frame m' →
  encode_group rnd key m gid k pages = encode_group rnd key m' gid k pages.
Proof. intros H1' H2'. unfold encode_group. by rewrite H1', H2'. Qed.

(** An encoded group, as a manifest refers to it. *)
Definition encodes (gid : Z) (nums : list Z) (e : bytes * option (list FrameEntry)) : Prop :=
  let pages := Some <$> group_of nums in let nonces := rnd (page_group_key gid v) in
  match e.2 with
  | Some t => 0 < spf ∧ t ≠ [] ∧ Z.of_nat (length e.1) < 2 ^ 32 ∧
      encode_page_group_seekable pages ps spf nonces (aad_page_group gid) key = Ok (e.1, t)
  | None => encode_page_group pages ps (nonces 0) (aad_page_group gid) key = Ok e.1
  end.

Lemma group_encodes m gid nums : laid_out m → at_index groups gid = Some nums →
  ∃ e, encode_group rnd key m gid (page_group_key gid v) (Some <$> group_of nums) = Ok e ∧ encodes gid nums e.
Proof.
  intros Hm Hg. destruct (in_group _ _ Hg) as [Hlen Hin].
  set (m' := m <| page_group_keys := replicate (length groups) ""%string |> <| frame_tables := [] |>).
  assert (laid_out m') as Hm' by (by destruct Hm).
  assert (geometry (build_page_index m')) as Hgeo.
  { apply laid_out_geometry; [done|cbn; lia|]. cbn. by rewrite length_replicate. }
  assert (Manifest.page_size (build_page_index m') = ps ∧ Manifest.sub_pages_per_frame (build_page_index m') = spf) as [Hps' Hspf'].
  { destruct (build_page_index_shape m') as (s & pi & ti & ->). split; apply Hm'. }
  destruct (group_run rnd key (build_page_index m') gid (page_group_key gid v) (group_of nums)) as (data & ft & Hrun & Hft).
  - done.
  - rewrite Hps'. by apply group_of_sized.
  - rewrite laid_out_nums by done. rewrite Hg. unfold group_of. by rewrite length_fmap.
  - rewrite Hps', Hspf' in Hft. exists (data, ft). split.
    + rewrite <-Hrun. apply encode_group_ext; rewrite ?Hps', ?Hspf'; apply Hm.
    + unfold encodes. cbn. destruct ft as [t|]; [|apply Hft]. destruct Hft as (? & ? & ? & Ht). split_and!; try done.
      apply Ht. unfold group_of. destruct nums; [cbn in Hlen; lia|done].
Qed.

Lemma read_pages nums pages interior leaves : Forall (λ p, 0 ≤ p < n) nums →
  ∃ more, fold_io (read_import_page file ps) (pages, (interior, leaves)) nums = Ok (pages ++ group_of nums, more).
Proof.
  intros Hnums. revert pages interior leaves. induction Hnums as [|p nums Hp Hnums IH]; intros pages interior leaves; cbn [fold_io].
  { eexists. by rewrite app_nil_r. }
  destruct (Hfile p Hp) as (d & Hd & Hlen).
  assert (is_Some (type_byte p d)) as [t Ht].
  { unfold type_byte. apply fmap_is_Some. unfold at_index. pose proof ps_bounds. pose proof (header_offset_bounds p).
    destruct (Z.ltb_spec (header_offset p) 0); [lia|]. apply lookup_lt_is_Some. lia. }
  assert (∃ more, read_import_page file ps (pages, (interior, leaves)) p = Ok (pages ++ [d], more)) as ([i' l'] & ->).
  { unfold read_import_page. rewrite Hd. cbn [ok_or mbind outcome_bind]. rewrite Ht. cbn [or_panic mbind outcome_bind]. by eexists. }
  cbn [mbind outcome_bind]. destruct (IH (pages ++ [d]) i' l') as [more Hrun]. exists more. rewrite Hrun. do 2 f_equal.
  unfold group_of. rewrite fmap_cons. unfold page_of at 2. rewrite Hd. by rewrite <-(assoc_L (++)).
Qed.

(** The loop over the groups. *)
Lemma import_groups_run m gs acc : laid_out m → version m = v →
  Forall (λ g, at_index groups g.1 = Some g.2) gs →
  ∃ acc' encs, fold_io (import_group rnd key file m) acc gs = Ok acc' ∧ Forall2 (λ g e, encodes g.1 g.2 e) gs encs ∧
    ia_keys acc' = ia_keys acc ++ ((λ g, page_group_key g.1 v) <$> gs) ∧
    ia_frames acc' = ia_frames acc ++ ((λ e, default [] e.2) <$> encs) ∧
    ia_uploads acc' = ia_uploads acc ++ zip_with (λ g e, (page_group_key g.1 v, e.1)) gs encs.
Proof.
  intros Hm Hver Hgs. revert acc. induction Hgs as [|[gid nums] gs Hg Hgs IH]; intros acc; cbn [fold_io].
  { exists acc, []. by rewrite !app_nil_r. }
  cbn in Hg. destruct (in_group _ _ Hg) as [_ Hin]. destruct (group_encodes m gid nums Hm Hg) as ([data ft] & He & Henc).
  destruct (read_pages nums [] (ia_interior acc) (ia_index_leaves acc) Hin) as ([i' l'] & Hread).
  set (acc1 := {| ia_keys := ia_keys acc ++ [page_group_key gid v]; ia_frames := ia_frames acc ++ [default [] ft];
    ia_uploads := ia_uploads acc ++ [(page_group_key gid v, data)]; ia_interior := i'; ia_index_leaves := l' |}).
  assert (import_group rnd key file m acc (gid, nums) = Ok acc1) as ->.
  { unfold import_group. cbn [fst snd]. rewrite (lo_ps _ Hm), Hread. cbn [mbind outcome_bind app]. by rewrite Hver, He. }
  cbn [mbind outcome_bind]. destruct (IH acc1) as (acc' & encs & Hrun & Hall & Hk & Hf & Hu). exists acc', ((data, ft) :: encs).
  split; [done|]. split; [by constructor|]. rewrite Hk, Hf, Hu. cbn. by rewrite <-!(assoc_L (++)).
Qed.

(** The bundles of one kind. *)
Lemma import_bundles_run (slot_of : Z → Slot) aad_of pages :
  (∀ i, Z.of_nat (length (aad_of i)) < 2 ^ 8) →
  ∃ ups keys, import_bundles rnd key (λ i v, slot_key (slot_of i) v) aad_of ps v pages = Ok (ups, keys) ∧
    (∀ k, k ∈ ups.*1 → ∃ i, is_u32 i ∧ k = slot_key (slot_of i) v) ∧
    (∀ i k, keys !! i = Some k → is_u32 i ∧ k = slot_key (slot_of i) v).
Proof.
  intros Haad. unfold import_bundles.
  assert (Forall is_u32 (hset_iter (list_to_set ((λ p : Z * bytes, chunk_id ps p.1) <$> pages) : gset Z))) as Hids.
  { rewrite Forall_forall. intros i ([p d] & -> & _)%elem_of_hset_iter%elem_of_list_to_set%list_elem_of_fmap.
    apply Z.mod_pos_bound. lia. }
  revert Hids. generalize (hset_iter (list_to_set ((λ p : Z * bytes, chunk_id ps p.1) <$> pages) : gset Z)). intros ids Hids.
  assert (∀ acc : list (string * bytes) * gmap Z string,
    (∀ k, k ∈ acc.1.*1 → ∃ i, is_u32 i ∧ k = slot_key (slot_of i) v) →
    (∀ i k, acc.2 !! i = Some k → is_u32 i ∧ k = slot_key (slot_of i) v) →
    ∃ ups keys, fold_io (import_bundle rnd key (λ i v, slot_key (slot_of i) v) aad_of ps v pages) acc ids = Ok (ups, keys) ∧
      (∀ k, k ∈ ups.*1 → ∃ i, is_u32 i ∧ k = slot_key (slot_of i) v) ∧
      (∀ i k, keys !! i = Some k → is_u32 i ∧ k = slot_key (slot_of i) v)) as Hgen.
  2: { apply Hgen; cbn; [by intros k ?%not_elem_of_nil|by intros i k ?%lookup_empty_Some]. }
  induction Hids as [|i ids Hi Hids IH]; intros [ups keys] Hu Hk; cbn [fold_io fst snd] in *; [by exists ups, keys|].
  destruct (bundle_encode_run rnd key aad_of Haad (sort_by_key (filter (λ p, chunk_id ps p.1 = i) pages)) ps (slot_key (slot_of i) v) i)
    as [d Hd].
  assert (import_bundle rnd key (λ i v, slot_key (slot_of i) v) aad_of ps v pages (ups, keys) i =
    Ok (ups ++ [(slot_key (slot_of i) v, d)], <[i := slot_key (slot_of i) v]> keys)) as -> by (unfold import_bundle; by rewrite Hd).
  cbn [mbind outcome_bind]. apply IH; cbn [fst snd].
  - intros k. rewrite fmap_app, elem_of_app. intros [?|Hin]; [by apply Hu|]. apply list_elem_of_singleton in Hin. by exists i.
  - intros j k [[<- <-]|[_ Hj]]%lookup_insert_Some; [done|by apply Hk].
Qed.

(* ------------------------------------------------------------------ *)
(** * What is published *)

(** The manifest to be published and the uploads, as the loops leave them. *)
Record prepared (m : Manifest) (uploads ups1 ups2 : list (string * bytes)) (encs : list (bytes * option (list FrameEntry))) : Prop := {
  pr_layout : laid_out m;
  pr_version : version m = v;
  pr_encs : Forall2 (λ g e, encodes g.1 g.2 e) (enumerate groups) encs;
  pr_keys : page_group_keys m = (λ g, page_group_key g.1 v) <$> enumerate groups;
  pr_frames : frame_tables m = (λ e, default [] e.2) <$> encs;
  pr_uploads : uploads = zip_with (λ g e, (page_group_key g.1 v, e.1)) (enumerate groups) encs;
  pr_interior : ∀ i k, interior_chunk_keys m !! i = Some k → is_u32 i ∧ k = interior_chunk_key i v;
  pr_index : ∀ i k, index_chunk_keys m !! i = Some k → is_u32 i ∧ k = index_chunk_key i v;
  pr_ups1 : ∀ k, k ∈ ups1.*1 → ∃ i, is_u32 i ∧ k = interior_chunk_key i v;
  pr_ups2 : ∀ k, k ∈ ups2.*1 → ∃ i, is_u32 i ∧ k = index_chunk_key i v
}.

Section published.
Context (m : Manifest) (uploads ups1 ups2 : list (string * bytes)) (encs : list (bytes * option (list FrameEntry))).
Context (Hpr : prepared m uploads ups1 ups2 encs).
Context (o : gmap string bytes) (d : bytes).

Definition published : gmap string bytes := <[MANIFEST_KEY := d]> (put_all ups2 (put_all ups1 (put_all uploads o))).

Lemma groups_count : Z.of_nat (length groups) ≤ n.
Proof.
  pose proof (Permutation_length Hpages) as Hl. rewrite length_range in Hl.
  pose proof (length_le_concat _ _ Hsizes). lia.
Qed.

Lemma group_at gid nums : at_index groups (Z.of_nat gid) = Some nums →
  ∃ e, encs !! gid = Some e ∧ encodes (Z.of_nat gid) nums e ∧ enumerate groups !! gid = Some (Z.of_nat gid, nums) ∧ is_u64 (Z.of_nat gid).
Proof.
  rewrite lookup_at_index. intros Hg. pose proof (enumerate_lookup _ _ _ Hg) as He.
  destruct (Forall2_lookup_l _ _ _ _ _ (pr_encs _ _ _ _ _ Hpr) He) as (e & Hle & Henc). exists e. split_and!; [done|done|done|].
  apply lookup_lt_Some in Hg. pose proof groups_count. unfold is_u64. lia.
Qed.

Lemma import_upload_keys : uploads.*1 = (λ g, page_group_key g.1 v) <$> enumerate groups ∧ NoDup uploads.*1.
Proof.
  assert (uploads.*1 = (λ g, page_group_key g.1 v) <$> enumerate groups) as Hk.
  { rewrite (pr_uploads _ _ _ _ _ Hpr). pose proof (Forall2_length _ _ _ (pr_encs _ _ _ _ _ Hpr)) as Hl. revert Hl.
    generalize (enumerate groups). intros gs. revert encs Hpr. clear. intros encs _. revert encs.
    induction gs as [|g gs IH]; intros [|e es] Hl; cbn in *; try done. rewrite IH by lia. done. }
  split; [done|]. rewrite Hk. apply NoDup_alt. intros i j k Hi Hj.
  rewrite list_lookup_fmap in Hi, Hj. apply fmap_Some in Hi as ([g1 n1] & Hi & ->), Hj as ([g2 n2] & Hj & Heq).
  pose proof (elem_of_enumerate_pos _ _ _ _ Hi) as [-> H1']. pose proof (elem_of_enumerate_pos _ _ _ _ Hj) as [-> H2'].
  pose proof groups_count. assert (is_u64 (Z.of_nat i) ∧ is_u64 (Z.of_nat j)) as [Hui Huj] by (unfold is_u64; lia).
  cbn in Heq. destruct (slot_key_spec (PageGroup (Z.of_nat i)) (PageGroup (Z.of_nat j)) v v) as [_ Hinj]; [done..|].
  destruct (Hinj Heq) as [[= ?] _]. lia.
Qed.

Lemma import_spares_manifest : MANIFEST_KEY ∉ uploads.*1 ∧ MANIFEST_KEY ∉ ups1.*1 ∧ MANIFEST_KEY ∉ ups2.*1.
Proof.
  assert (∀ s, slot_ok s → MANIFEST_KEY ≠ slot_key s v) as Hne.
  { intros s Hs Heq. by destruct (slot_key_spec s s v v Hs Hs Hv Hv) as [? _]. }
  split_and!.
  - rewrite (proj1 import_upload_keys). intros ([gid g] & Heq & [i Hi]%list_elem_of_lookup)%list_elem_of_fmap.
    destruct (elem_of_enumerate_pos _ _ _ _ Hi) as [-> Hlt].
    pose proof groups_count. apply (Hne (PageGroup (Z.of_nat i))); [cbn; unfold is_u64; lia|done].
  - intros (i & Hi & Heq)%(pr_ups1 _ _ _ _ _ Hpr). by apply (Hne (InteriorBundle i)).
  - intros (i & Hi & Heq)%(pr_ups2 _ _ _ _ _ Hpr). by apply (Hne (IndexBundle i)).
Qed.

Lemma published_group gid nums e : enumerate groups !! gid = Some (Z.of_nat gid, nums) → encs !! gid = Some e →
  is_u64 (Z.of_nat gid) → published !! page_group_key (Z.of_nat gid) v = Some e.1.
Proof.
  intros Hg He Hu. destruct import_upload_keys as [Hkeys Hnd]. set (k := page_group_key (Z.of_nat gid) v).
  assert (∀ s, slot_ok s → slot_key s v = k → s = PageGroup (Z.of_nat gid)) as Hinj.
  { intros s Hs Heq. by destruct (slot_key_spec s (PageGroup (Z.of_nat gid)) v v Hs Hu Hv Hv) as [_ [? _]%(λ H, H Heq)]. }
  unfold published. rewrite lookup_insert_ne.
  2: { intros Heq. destruct (slot_key_spec (PageGroup (Z.of_nat gid)) (PageGroup 0) v v Hu ltac:(done) Hv Hv) as [Hne _].
       by apply Hne. }
  rewrite put_all_other, put_all_other.
  - apply put_all_in; [done|]. rewrite (pr_uploads _ _ _ _ _ Hpr). apply (list_elem_of_lookup_2 _ gid). rewrite lookup_zip_with, Hg. cbn.
    by rewrite He.
  - intros (i & Hi & Heq)%(pr_ups1 _ _ _ _ _ Hpr). by specialize (Hinj (InteriorBundle i) Hi (eq_sym Heq)).
  - intros (i & Hi & Heq)%(pr_ups2 _ _ _ _ _ Hpr). by specialize (Hinj (IndexBundle i) Hi (eq_sym Heq)).
Qed.

Abbreviation pm := (build_page_index m).

Lemma published_shape : Manifest.page_size pm = ps ∧ Manifest.sub_pages_per_frame pm = spf ∧ page_count pm = n ∧
  version pm = v ∧ page_group_keys pm = page_group_keys m ∧ frame_tables pm = frame_tables m ∧ subframe_overrides pm = [] ∧
  interior_chunk_keys pm = interior_chunk_keys m ∧ index_chunk_keys pm = index_chunk_keys m.
Proof.
  destruct (pr_layout _ _ _ _ _ Hpr). pose proof (pr_version _ _ _ _ _ Hpr).
  destruct (build_page_index_shape m) as (s & pi & ti & ->). by split_and!.
Qed.

Lemma published_geometry : geometry pm.
Proof.
  apply laid_out_geometry; [apply Hpr|..]; rewrite ?(pr_keys _ _ _ _ _ Hpr), ?(pr_frames _ _ _ _ _ Hpr), ?length_fmap, ?enumerate_size.
  - by rewrite <-(Forall2_length _ _ _ (pr_encs _ _ _ _ _ Hpr)), enumerate_size.
  - done.
Qed.

Lemma published_no_override gid f : override_of pm gid f = None.
Proof.
  unfold override_of. destruct published_shape as (_ & _ & _ & _ & _ & _ & -> & _). unfold at_index. by case_match.
Qed.

Lemma published_base gid : 0 ≤ gid → stored_base key pm published gid (group_of (default [] (at_index groups gid))).
Proof.
  intros Hgid. destruct published_shape as (Hps' & Hspf' & _ & _ & Hk & Hf & _).
  destruct (at_index groups gid) as [nums|] eqn:Hg; cbn; [|by split; [constructor|]].
  destruct (in_group _ _ Hg) as [_ Hin]. rewrite <-(Z2Nat.id gid) in Hg |- * by done.
  destruct (group_at _ _ Hg) as (e & He & Henc & Hen & Hu). split; [rewrite Hps'; by apply group_of_sized|]. intros _.
  exists (page_group_key (Z.of_nat (Z.to_nat gid)) v), e.1, (rnd (page_group_key (Z.of_nat (Z.to_nat gid)) v)).
  split; [|split; [by eapply published_group|split; [intros; apply fl_rnd|]]].
  - unfold group_key, key_at. rewrite lookup_at_index, Hk, (pr_keys _ _ _ _ _ Hpr), list_lookup_fmap, Hen. done.
  - assert (group_frames pm (Z.of_nat (Z.to_nat gid)) = e.2) as ->.
    { unfold group_frames. rewrite lookup_at_index, Hf, (pr_frames _ _ _ _ _ Hpr), list_lookup_fmap, He, Hspf'. cbn.
      unfold encodes in Henc. destruct e.2 as [[|t ts]|]; cbn; [by destruct Henc as (_ & ? & _)| |done].
      destruct Henc as [Hpos _]. by destruct (Z.ltb_spec 0 spf); [|lia]. }
    rewrite Hps', Hspf'. unfold encodes in Henc. destruct e.2 as [t|]; [|done]. by destruct Henc as (_ & _ & ? & ?).
Qed.

Lemma published_whole : stored_whole key pm published.
Proof.
  split; [|apply published_no_override]. intros gid Hgid. eexists. split; [by apply published_base|].
  unfold group_of. rewrite length_fmap. by rewrite (laid_out_nums m gid (pr_layout _ _ _ _ _ Hpr)).
Qed.

Lemma published_keys : keys_ok pm.
Proof.
  destruct published_shape as (_ & _ & _ & Hver & Hk & _ & _ & Hi & Hx). split; rewrite Hver; [exact Hv|].
  assert (∀ s k, slot_ok s ∧ k = slot_key s v → slot_ok s ∧ ∃ v', 0 ≤ v' ≤ v ∧ k = slot_key s v') as Hat.
  { intros s k [Hs ->]. split; [done|]. exists v. unfold is_u64 in Hv. split; [lia|done]. }
  intros [gid|i|i|gid f] k Href; apply Hat; cbn in Href |- *.
  - unfold group_key, key_at in Href. destruct (at_index (page_group_keys pm) gid) as [k'|] eqn:Hg; [|done].
    assert (k' = k) as -> by (by destruct k'; [|injection Href]). apply at_index_Some in Hg as [Hgid Hg].
    rewrite Hk, (pr_keys _ _ _ _ _ Hpr), list_lookup_fmap in Hg. apply fmap_Some in Hg as ([g nums] & Hg & ->).
    destruct (elem_of_enumerate_pos _ _ _ _ Hg) as [-> Hlt]. cbn. rewrite Z2Nat.id by done.
    pose proof groups_count. unfold is_u64. split; [lia|done].
  - rewrite Hi in Href. by apply (pr_interior _ _ _ _ _ Hpr).
  - rewrite Hx in Href. by apply (pr_index _ _ _ _ _ Hpr).
  - destruct Href as (ovr & Hov & _). by rewrite published_no_override in Hov.
Qed.

Lemma published_page p : 0 ≤ p < n →
  is_Some (page_location pm p) ∧ cold_page key pm published p = file_page file ps p.
Proof.
  intros Hp. destruct (laid_out_location m p (pr_layout _ _ _ _ _ Hpr) Hp) as (gid & i & nums & Hg & Hi & Hloc).
  split; [by eexists|]. unfold cold_page. rewrite Hloc. cbn. destruct (Hfile p Hp) as (d' & Hd & _).
  pose proof published_geometry as Hgeo. rewrite Hd.
  apply (cold_base_slot key pm published (Z.of_nat gid) (group_of nums)); [done| | | |].
  - pose proof (published_base (Z.of_nat gid) ltac:(lia)) as Hb. by rewrite Hg in Hb.
  - unfold group_of. rewrite list_lookup_fmap, Hi. cbn. unfold page_of. by rewrite Hd.
  - pose proof (ge_bytes _ Hgeo (Z.of_nat gid)) as Hb. rewrite (laid_out_nums m _ (pr_layout _ _ _ _ _ Hpr)), Hg in Hb.
    unfold group_of. rewrite length_fmap. exact Hb.
  - intros _. apply published_no_override.
Qed.
End published.
End import_safety.

(* ------------------------------------------------------------------ *)
(** * The import *)

(** A file that can be imported: sizes within the bounds of a manifest, pages
    that fit a stored group, and B-trees that share no page. *)
Record importable (ppg spf : Z) (file : bytes) (ps n v : Z) (es : list MasterEntry) (walk : BTreeWalkResult) : Prop := {
  im_header : import_header ppg file = Ok (ps, n, v);
  im_ps : is_valid_page_size ps = true;
  im_count : n ≤ 2 ^ 32;
  im_ppg : 0 < ppg ≤ 2 ^ 14;
  im_bytes : 8 + ppg * ps ≤ 2 ^ 30;
  im_spf : 0 ≤ spf ∧ spf * ps ≤ 2 ^ 30;
  im_master : parse_sqlite_master n (file_page file ps) = Ok es;
  im_roots : roots_ok es;
  im_walk : walk_all_btrees n ps (file_page file ps) = Ok walk;
  im_disjoint : trees_disjoint walk
}.

Section importing.
Context (ppg spf : Z) (file : bytes) (ps n v : Z) (es : list MasterEntry) (walk : BTreeWalkResult).
Context (Him : importable ppg spf file ps n v es walk).

Lemma importable_sizes : 512 ≤ ps ≤ 2 ^ 16 ∧ n = Z.of_nat (length file) / ps ∧ is_u64 v.
Proof.
  pose proof (is_valid_page_size_bounds _ (im_ps _ _ _ _ _ _ _ _ Him)) as Hb. pose proof (im_header _ _ _ _ _ _ _ _ Him) as Hh.
  unfold import_header in Hh. destruct (slice 0 100 file) as [header|]; [|done]. cbn [ok_or mbind outcome_bind] in Hh.
  destruct (_ || _); [done|]. destruct (Z.eqb_spec (read_file_change_counter header) 0); [done|]. injection Hh as Hps Hn <-.
  split; [lia|]. split; [by rewrite <-Hn, Hps|]. unfold read_file_change_counter, is_u64. destruct (_ <? 28); [lia|].
  pose proof (be_at_4 24 header). lia.
Qed.

Lemma file_page_spec p : 0 ≤ p < 2 ^ 32 → ∀ d, file_page file ps p = Some d ↔
  p < n ∧ d = take (Z.to_nat ps) (drop (Z.to_nat (p * ps)) file).
Proof.
  intros Hp d. destruct importable_sizes as (Hps & -> & _). unfold file_page. rewrite wrap64_id by (unfold is_u64; nia).
  rewrite slice_Some. pose proof (Z.mul_div_le (Z.of_nat (length file)) ps ltac:(lia)).
  replace (p * ps + ps - p * ps) with ps by lia. split.
  - intros (_ & Hl & <-). split; [|done]. apply Z.lt_le_trans with (p + 1); [lia|]. apply Z.div_le_lower_bound; lia.
  - intros [Hlt ->]. split; [nia|]. split; [nia|done].
Qed.

Lemma file_reader_ok : reader_ok n ps (file_page file ps).
Proof.
  intros p buf Hp Hd. pose proof (proj1 (file_page_spec p Hp buf) Hd) as [Hlt ->]. split; [done|].
  destruct importable_sizes as (Hps & -> & _). pose proof (Z.mul_div_le (Z.of_nat (length file)) ps ltac:(lia)).
  unfold size_of. rewrite length_take, length_drop. nia.
Qed.

Lemma file_full p : 0 ≤ p < n → ∃ d, file_page file ps p = Some d ∧ Z.of_nat (length d) = ps.
Proof.
  intros Hp. pose proof (im_count _ _ _ _ _ _ _ _ Him). eexists. assert (0 ≤ p < 2 ^ 32) as Hp' by lia.
  pose proof (proj2 (file_page_spec p Hp' _) (conj (proj2 Hp) eq_refl)) as Hd. split; [exact Hd|]. by apply (file_reader_ok p).
Qed.

Lemma importable_groups `{HashIter} :
  let groups := page0_first (pack_groups ppg walk) in
  concat groups ≡ₚ range 0 n ∧ Forall (λ g, (0 < length g ≤ Z.to_nat ppg)%nat) groups.
Proof.
  destruct importable_sizes as (Hps & _ & _).
  destruct (walk_all_run n ps _ Hps file_reader_ok es (im_master _ _ _ _ _ _ _ _ Him) (im_roots _ _ _ _ _ _ _ _ Him)) as (r & Hr & [Ht _ Hu Hc]).
  rewrite (im_walk _ _ _ _ _ _ _ _ Him) in Hr. injection Hr as <-.
  pose proof (im_ppg _ _ _ _ _ _ _ _ Him). apply groups_partition; [lia| |done|done|apply Him].
  eapply map_Forall_impl; [exact Ht|]. by intros root e (? & ? & _).
Qed.
End importing.

Ltac import_failed := match goal with H : (Err _, _) = (_, _) |- _ => injection H as <- <- end;
  split; [done|split; [|done]]; intros ?; exfalso; intuition.

(** What [prepare_import] gives for an importable file. *)
Lemma prepare_import_run `{HashIter} `{Compression} `{Aead K} rnd `{!FlushLaws rnd} (key : option K) ppg spf file ps n v es walk :
  importable ppg spf file ps n v es walk →
  let groups := page0_first (pack_groups ppg walk) in
  ∃ acc m encs, prepare_import rnd key ppg spf file = Ok (acc, m) ∧ laid_out ppg spf ps n groups m ∧ version m = v ∧
    Forall2 (λ g e, encodes rnd key spf ps v file g.1 g.2 e) (enumerate groups) encs ∧
    page_group_keys m = (λ g, page_group_key g.1 v) <$> enumerate groups ∧
    frame_tables m = (λ e, default [] e.2) <$> encs ∧
    ia_uploads acc = zip_with (λ g e, (page_group_key g.1 v, e.1)) (enumerate groups) encs ∧
    interior_chunk_keys m = ∅ ∧ index_chunk_keys m = ∅.
Proof.
  intros Him. cbn zeta. destruct (importable_sizes _ _ _ _ _ _ _ _ Him) as (Hps & Hn & Hv).
  destruct (importable_groups _ _ _ _ _ _ _ _ Him) as [Hpages Hsizes]. set (groups := page0_first (pack_groups ppg walk)) in *.
  assert (0 ≤ n ≤ 2 ^ 32) as Hn0 by (split; [subst n; apply Z.div_pos; lia|apply Him]).
  set (m0 := import_layout ppg spf ps n v walk).
  assert (laid_out ppg spf ps n groups m0) as Hlay by done.
  assert (Forall (λ g, at_index groups g.1 = Some g.2) (enumerate groups)) as Hall.
  { rewrite Forall_lookup. intros i [j g] Hi. destruct (elem_of_enumerate_pos _ _ _ _ Hi) as [-> Hlt]. cbn. rewrite lookup_at_index.
    destruct (lookup_lt_is_Some_2 groups i Hlt) as [g' Hg]. rewrite (enumerate_lookup _ _ _ Hg) in Hi. by injection Hi as ->. }
  edestruct (import_groups_run rnd key ppg spf ps n v groups file (im_ps _ _ _ _ _ _ _ _ Him) Hn0 (im_ppg _ _ _ _ _ _ _ _ Him)
    (im_bytes _ _ _ _ _ _ _ _ Him) (im_spf _ _ _ _ _ _ _ _ Him) Hpages Hsizes (file_full _ _ _ _ _ _ _ _ Him) m0 (enumerate groups))
    as (acc & encs & Hrun & Henc & Hk & Hf & Hu); [done|done|done|].
  eexists acc, _, encs. split; [|].
  { unfold prepare_import. rewrite (im_header _ _ _ _ _ _ _ _ Him). cbn [mbind outcome_bind].
    rewrite (im_walk _ _ _ _ _ _ _ _ Him). cbn [mbind outcome_bind]. unfold import_groups. fold m0.
    change (Manifest.group_pages m0) with groups. rewrite Hrun. reflexivity. }
  split; [by destruct Hlay|]. by split_and!.
Qed.

(** C4. Importing a SQLite file publishes the whole file.  When the file can be
    imported, the import does not panic, and succeeds unless the storage fails
    or holds a manifest that is not older; a manifest it returns is well-formed
    and published, every group is stored under a name of its version, and every
    page of the file is read back from storage as it is in the file. *)
Theorem import_publishes `{HashIter} `{Compression} `{Aead K} `{StorageLaws B} rnd `{!FlushLaws rnd} encode_manifest decode_manifest
    (key : option K) ppg spf file ps n v es walk (b : B) r b' :
  importable ppg spf file ps n v es walk →
  import_sqlite_file rnd encode_manifest decode_manifest key ppg spf false file b = (r, b') →
  r ≠ Panic ∧
  (reliable b → (∀ m, is_Some (encode_manifest m)) →
    (∃ old, stored_manifest decode_manifest (objects b) = Ok old ∧ ∀ m0, old = Some m0 → version m0 < v) → ∃ m, r = Ok m) ∧
  ∀ m, r = Ok m →
    geometry m ∧ keys_ok m ∧ version m = v ∧ page_count m = n ∧ stored_whole key m (objects b') ∧
    (∃ d, encode_manifest m = Some d ∧ objects b' !! MANIFEST_KEY = Some d) ∧
    ∀ p, 0 ≤ p < n → is_Some (page_location m p) ∧ cold_page key m (objects b') p = file_page file ps p.
Proof.
  intros Him Hrun. destruct (importable_sizes _ _ _ _ _ _ _ _ Him) as (Hps & Hn & Hv).
  destruct (importable_groups _ _ _ _ _ _ _ _ Him) as [Hpages Hsizes].
  assert (0 ≤ n ≤ 2 ^ 32) as Hn0 by (split; [subst n; apply Z.div_pos; lia|apply Him]).
  destruct (prepare_import_run rnd key _ _ _ _ _ _ _ _ Him) as (acc & m & encs & Hprep & Hlay & Hver & Henc & Hk & Hf & Hu & Hi0 & Hx0).
  set (groups := page0_first (pack_groups ppg walk)) in *.
  unfold import_sqlite_file in Hrun. rewrite Hprep in Hrun. cbn [bind_io] in Hrun.
  pose proof (put_batches_uploaded (chunks 50 (ia_uploads acc)) b) as Hup. rewrite concat_chunks in Hup by lia.
  destruct (put_batches _ b) as [r1 b1]. destruct Hup as ([[-> Ho1]|[-> Hn1]] & Hk1 & Hrel1); cbn [bind_io] in Hrun; [|by import_failed].
  rewrite (lo_ps _ _ _ _ _ _ Hlay), Hver in Hrun.
  destruct (import_bundles_run rnd key ps v InteriorBundle aad_interior_bundle (ia_interior acc)) as (ups1 & keys1 & Hrun1 & Hu1 & Hkeys1).
  { intros i. cbn [aad_interior_bundle length]. rewrite length_le_bytes. lia. }
  change (λ i v, slot_key (InteriorBundle i) v) with interior_chunk_key in Hrun1. rewrite Hrun1 in Hrun. cbn [bind_io] in Hrun.
  pose proof (put_groups_uploaded ups1 b1) as Hup. destruct (put_page_groups ups1 b1) as [r2 b2].
  destruct Hup as ([[-> Ho2]|[-> Hn2]] & Hk2 & Hrel2); cbn [bind_io] in Hrun; [|by import_failed].
  destruct (import_bundles_run rnd key ps v IndexBundle aad_index_bundle (ia_index_leaves acc)) as (ups2 & keys2 & Hrun2 & Hu2 & Hkeys2).
  { intros i. cbn [aad_index_bundle length]. rewrite length_le_bytes. lia. }
  change (λ i v, slot_key (IndexBundle i) v) with index_chunk_key in Hrun2. rewrite Hrun2 in Hrun. cbn [bind_io] in Hrun.
  pose proof (put_groups_uploaded ups2 b2) as Hup. destruct (put_page_groups ups2 b2) as [r3 b3].
  destruct Hup as ([[-> Ho3]|[-> Hn3]] & Hk3 & Hrel3); cbn [bind_io] in Hrun; [|by import_failed].
  set (m1 := m <| interior_chunk_keys := keys1 |> <| index_chunk_keys := keys2 |>) in *.
  assert (prepared rnd key ppg spf ps n v groups file m1 (ia_uploads acc) ups1 ups2 encs) as Hpr by (split; (by destruct Hlay || done)).
  assert (version (build_page_index m1) = v) as Hver1 by (destruct (build_page_index_shape m1) as (? & ? & ? & ->); exact Hver).
  destruct (put_manifest_run encode_manifest decode_manifest (build_page_index m1) b3) as (r4 & b4 & Hput & Hrel4 & Hr4).
  rewrite Hput in Hrun. destruct Hr4 as [(-> & Hsup & d & Hd & Ho4)|((e & ->) & _ & Hlive)]; cbn [bind_io] in Hrun; injection Hrun as <- <-.
  - split; [done|]. split; [by eexists|]. intros m' [= <-].
    assert (objects b4 = published (ia_uploads acc) ups1 ups2 (objects b) d) as -> by (by rewrite Ho4, Ho3, Ho2, Ho1).
    assert (∀ p, 0 ≤ p < n → ∃ d, file_page file ps p = Some d ∧ Z.of_nat (length d) = ps) as Hfull by apply (file_full _ _ _ _ _ _ _ _ Him).
    destruct Him. split_and!.
    + by eapply published_geometry.
    + by eapply published_keys.
    + done.
    + destruct (build_page_index_shape m1) as (? & ? & ? & ->). apply Hlay.
    + by eapply published_whole.
    + exists d. split; [done|]. apply lookup_insert_eq.
    + intros p Hp. by eapply published_page.
  - split; [done|]. split; [|done]. intros Hrel Henc' (old & Hold & Hlt). exfalso.
    apply Hlive; [by apply Hrel3, Hrel2, Hrel1|done|]. exists old. rewrite Hver1. split; [|done]. rewrite <-Hold.
    destruct (import_spares_manifest rnd key ppg spf ps n v groups file Hv Hn0 Hpages Hsizes m1 _ _ _ _ Hpr) as (Hs0 & Hs1 & Hs2).
    unfold stored_manifest. by rewrite Hk3, Hk2, Hk1.
Qed.
