(* ===== verification/ImportExamples.v ===== *)
(** A SQLite file of six pages: the witnesses of the theorems about the walk and
    the import, and imports that go wrong. *)

From stdpp Require Import strings.
From S2P Require Import Prelude Keys Wire Staging Manifest Backend ColdRead.
From S2P Require Import CacheTracking LocalState Compress Encoding File DiskCache CacheView CacheWrite CacheSafety CacheReopen CacheExamples.
From S2P Require Import Vfs Compact Flush FlushPages FlushGroups FlushInv FlushBundles FlushManifest FlushRun FlushSafety FlushExamples.
From S2P Require Import SqliteFormat BTreeWalker BTreeSafety Import ImportSafety.

#[local] Existing Instance canonical_iter.

(** Bytes at an offset. *)
Definition patch (off : nat) (data page : bytes) : bytes := take off page ++ data ++ drop (off + length data) page.

(** sqlite_master with one record: the table t, whose root is page 1 (2 for
    SQLite). *)
Definition ix_page0 : bytes :=
  patch 16 [Byte.x02; Byte.x00] (patch 24 (be_bytes 4 9) (
  patch 100 [Byte.x0d; Byte.x00; Byte.x00; Byte.x00; Byte.x01; Byte.x01; Byte.x90; Byte.x00; Byte.x01; Byte.x90] (
  patch 400 (be_bytes 1 14 ++ be_bytes 1 1 ++ [Byte.x06; Byte.x17; Byte.x0f; Byte.x0f; Byte.x01; Byte.x0d] ++
             String.list_byte_of_string "tablett" ++ [Byte.x02]) (zeros 512)))).

(** The root: leaves 2 and 3. *)
Definition ix_page1 : bytes :=
  patch 0 ([Byte.x05; Byte.x00; Byte.x00; Byte.x00; Byte.x01; Byte.x01; Byte.xf4; Byte.x00] ++ be_bytes 4 4 ++ [Byte.x01; Byte.xf4]) (
  patch 500 (be_bytes 4 3 ++ [Byte.x01]) (zeros 512)).

Definition ix_page2 : bytes := patch 0 [Byte.x0d] (zeros 512).

(** A payload of 1000 bytes, of which 39 stay; the rest is on page 4. *)
Definition ix_page3 : bytes :=
  patch 0 [Byte.x0d; Byte.x00; Byte.x00; Byte.x00; Byte.x01; Byte.x00; Byte.x64; Byte.x00; Byte.x00; Byte.x64] (
  patch 100 [Byte.x87; Byte.x68; Byte.x01] (patch 142 (be_bytes 4 5) (zeros 512))).

Definition ix_page4 : bytes := patch 4 [Byte.x2a] (zeros 512).

Definition ix_file : bytes := ix_page0 ++ ix_page1 ++ ix_page2 ++ ix_page3 ++ ix_page4 ++ zeros 512.

Definition ix_read : Z → option bytes := file_page ix_file 512.

Definition ix_es : list MasterEntry := [{| me_type := "table"; me_name := "t"; me_root_page := 2 |}].

Definition ix_walk : BTreeWalkResult := {|
  wr_btrees := {[ 0 := {| be_type := "table"; be_name := "sqlite_master"; be_root_page := 0; be_pages := [0] |};
                  1 := {| be_type := "table"; be_name := "t"; be_root_page := 1; be_pages := [1; 2; 3; 4] |} ]};
  wr_unowned_pages := [5]
|}.

Lemma ix_master : parse_sqlite_master 6 ix_read = Ok ix_es.
Proof. vm_compute. reflexivity. Qed.

Lemma ix_walked : walk_all_btrees 6 512 ix_read = Ok ix_walk.
Proof. vm_compute. reflexivity. Qed.

Lemma ix_importable : importable 4 2 ix_file 512 6 9 ix_es ix_walk.
Proof.
  split; [vm_compute; reflexivity|reflexivity|lia|lia|lia|lia|exact ix_master| |exact ix_walked|].
  - repeat constructor; cbn; lia.
  - intros a b ea eb p Ha Hb. cbn in Ha, Hb. apply lookup_insert_Some in Ha as [[<- <-]|[Ha0 [<- <-]%lookup_singleton_Some]];
      apply lookup_insert_Some in Hb as [[<- <-]|[Hb0 [<- <-]%lookup_singleton_Some]]; cbn; try done; set_solver.
Qed.

Lemma ix_reader : reader_ok 6 512 ix_read.
Proof. exact (file_reader_ok _ _ _ _ _ _ _ _ ix_importable). Qed.

(* ------------------------------------------------------------------ *)
(** * Witnesses *)


(** What the pages of the table store. *)
Ltac stored := vm_compute; first [done|reflexivity].

Lemma ix_interior : interior_layout ix_page1 0 5 4 [3].
Proof.
  split; [by right; left|]. split; [split_and!; stored|]. split; [lia|]. split; [stored|]. exists [500]. split.
  - intros [|i] off; [|done]. intros [= <-]. split; [lia|stored].
  - constructor; [split; [lia|stored]|constructor].
Qed.

Lemma ix_leaf3 : leaf_layout 512 ix_page3 0 13 [5].
Proof.
  split; [by right; left|]. exists [100], [Some 5]. split; [split_and!; stored|]. split; [|split; [|done]].
  - intros [|i] off; [|done]. intros [= <-]. split; [lia|stored].
  - constructor; [|constructor]. exists 1000, 1, (zeros 39). split_and!; (lia || stored).
Qed.

Lemma ix_leaf2 : leaf_layout 512 ix_page2 0 13 [].
Proof. split; [by right; left|]. exists [], []. split; [split_and!; stored|]. split; [by intros i off|]. by split; [constructor|]. Qed.

Lemma ix_tree : stored_tree 6 512 ix_read 1 (1 :: concat [[3; 4]; [2]]).
Proof.
  apply (stored_interior 6 512 ix_read 1 ix_page1 5 4 [3]); [lia|stored|exact ix_interior|].
  constructor; [split; [lia|]|constructor; [split; [lia|]|constructor]].
  - apply (stored_leaf 6 512 ix_read 3 ix_page3 13 [5] [[4]]); [lia|stored|exact ix_leaf3|].
    constructor; [|constructor]. apply (overflow_last 6 ix_read 4 ix_page4); [lia|stored|stored].
  - apply (stored_leaf 6 512 ix_read 2 ix_page2 13 [] []); [lia|stored|exact ix_leaf2|constructor].
Qed.

Lemma walk_finds_tree_witness : ∃ l, walk_btree 6 512 ix_read 1 = Ok l ∧ l ≡ₚ [1; 3; 4; 2].
Proof.
  destruct (walk_finds_tree 6 512 ix_read 1 (1 :: concat [[3; 4]; [2]]) ltac:(lia) ix_reader ltac:(lia) ix_tree
    ltac:(cbn; repeat constructor; set_solver)) as (l & Hrun & Hp & _).
  exists l. split; [exact Hrun|exact Hp].
Defined.

Definition ix_store : MemStore := {| ms_objects := ∅; ms_faults := [] |}.

Definition ix_import (b : MemStore) : io Manifest * MemStore :=
  import_sqlite_file fx_rnd version_encode version_decode fx_key 4 2 false ix_file b.

Lemma import_publishes_witness :
  ∃ m b', ix_import ix_store = (Ok m, b') ∧ page_count m = 6 ∧
    cold_page fx_key m (objects b') 3 = Some ix_page3 ∧ cold_page fx_key m (objects b') 5 = Some (zeros 512).
Proof.
  unfold ix_import. destruct (import_sqlite_file _ _ _ _ _ _ _ _ ix_store) as [r b'] eqn:Hrun.
  destruct (import_publishes fx_rnd version_encode version_decode fx_key 4 2 ix_file 512 6 9 ix_es ix_walk ix_store r b'
    ix_importable Hrun) as (_ & Hlive & Hok).
  destruct (Hlive eq_refl ltac:(by eexists) ltac:(exists None; split; [reflexivity|done])) as [m ->].
  destruct (Hok m eq_refl) as (_ & _ & _ & Hn & _ & _ & Hpages). exists m, b'. split; [reflexivity|]. split; [exact Hn|].
  split.
  - exact (eq_trans (proj2 (Hpages 3 ltac:(lia))) ltac:(vm_compute; reflexivity)).
  - exact (eq_trans (proj2 (Hpages 5 ltac:(lia))) ltac:(vm_compute; reflexivity)).
Defined.

(* ------------------------------------------------------------------ *)
(** * What goes wrong *)

(** A manifest of version 12 is stored, whose group 0 was last written at version
    9, which is also the change counter of the file.  The import is refused, and
    the group is overwritten all the same. *)
Definition ix_occupied : MemStore := {|
  ms_objects := {[ MANIFEST_KEY := default [] (version_encode (empty_manifest <| version := 12 |>)); "p/d/0_v9"%string := [Byte.x01] ]};
  ms_faults := []
|}.

Example refused_import_overwrites :
  let '(r, b') := ix_import ix_occupied in
  r = Err OtherKind ∧ objects b' !! MANIFEST_KEY = objects ix_occupied !! MANIFEST_KEY ∧
  bool_decide (objects b' !! "p/d/0_v9"%string = objects ix_occupied !! "p/d/0_v9"%string) = false.
Proof. vm_compute. done. Qed.

(** An interior page of an index whose cell has an overflow page (4) keeps it:
    the walk does not look for it. *)
Definition ix_index_page : bytes :=
  patch 0 ([Byte.x02; Byte.x00; Byte.x00; Byte.x00; Byte.x01; Byte.x00; Byte.x64; Byte.x00] ++ be_bytes 4 4 ++ [Byte.x00; Byte.x64]) (
  patch 100 (be_bytes 4 3 ++ [Byte.x87; Byte.x68]) (patch 145 (be_bytes 4 5) (zeros 512))).

Definition ix_index_read (p : Z) : option bytes :=
  if p =? 1 then Some ix_index_page else if p =? 2 then Some (patch 0 [Byte.x0a] (zeros 512)) else
  if p =? 3 then Some (patch 0 [Byte.x0a] (zeros 512)) else if p =? 4 then Some ix_page4 else None.

Example interior_overflow_missed :
  cell_overflow 512 false ix_index_page 104 = Ok [5] ∧ walk_btree 5 512 ix_index_read 1 = Ok [1; 2; 3].
Proof. vm_compute. done. Qed.

(** A record of sqlite_master whose first two columns claim 2^63 bytes: the sum
    of the sizes wraps around, the bound holds, and the slice is out of range. *)
Example hostile_record_panics :
  let maximal last := repeat Byte.xff 8 ++ [last] in
  parse_master_cell ([Byte.x20; Byte.x01; Byte.x16] ++ maximal Byte.xfe ++ maximal Byte.xff ++ [Byte.x00; Byte.x00; Byte.x00] ++ zeros 100) 0 = Panic.
Proof. vm_compute. reflexivity. Qed.
