(* ===== verification/Publish.v ===== *)
(** The manifest of a running database (src/src/tiered/vfs.rs): adopting the
    manifest of another writer, moving the replay cursor, publishing the
    manifest with its chain anchor. *)

From Stdlib Require Import Ascii String.
From stdpp Require Import strings.
From S2P Require Import Prelude Keys Wire CacheTracking LocalState Compress Encoding File DiskCache.
From S2P Require Import Staging Manifest Backend ColdRead Vfs Compact Flush Import.

(* ------------------------------------------------------------------ *)
(** * Replay cursors *)

(** [s.trim().is_empty()] on the bytes of a [String]: every character is white
    space. *)
Fixpoint blank (l : list Z) : bool :=
  match l with
  | [] => true
  | 194 :: c :: l => ((c =? 133) || (c =? 160)) && blank l
  | 225 :: 154 :: 128 :: l => blank l
  | 226 :: 128 :: c :: l => (((128 <=? c) && (c <=? 138)) || (c =? 168) || (c =? 169) || (c =? 175)) && blank l
  | 226 :: 129 :: 159 :: l => blank l
  | 227 :: 128 :: 128 :: l => blank l
  | c :: l => (((9 <=? c) && (c <=? 13)) || (c =? 32)) && blank l
  end.

Definition is_blank (s : string) : bool := blank ((λ c, Z.of_nat (nat_of_ascii c)) <$> String.list_ascii_of_string s).

Definition validate_replay_cursor_anchor (anchor : bytes) : io () :=
  guard_err (negb (bool_decide (anchor = [])) && negb (length anchor =? 32)%nat) InvalidInput.

Definition validate_replay_cursor_update (m : Manifest) (c : ReplayCursor) : io () :=
  _ ← guard_err (last_applied_seq c <? last_applied_seq (cursor m)) InvalidInput;
  _ ← validate_replay_cursor_anchor (base_object_checksum c);
  if 0 <? last_applied_seq c then
    _ ← guard_err (negb (length (base_object_checksum c) =? 32)%nat) InvalidInput;
    _ ← guard_err (cursor_epoch c =? 0) InvalidInput;
    guard_err (is_blank (writer_id m)) InvalidInput
  else Ok ().

Definition validate_replay_cursor_publish (m : Manifest) (seq epoch : Z) (writer : string) : io () :=
  _ ← guard_err (seq <? last_applied_seq (cursor m)) InvalidInput;
  _ ← guard_err (epoch =? 0) InvalidInput;
  guard_err (is_blank writer) InvalidInput.

(** [io::Error::from] a payload error. *)
Definition wire_io {A} (r : outcome PayloadVersionError A) : io A :=
  match r with Ok a => Ok a | Err _ => Err InvalidData | Panic => Panic end.

(* ------------------------------------------------------------------ *)
(** * Adopting a manifest *)

(** An exact repetition, and anything older, is refused; at the same version a
    greater replay cursor is taken. *)
Definition refuses (current m : Manifest) : bool :=
  (0 <? version m) && (0 <? version current) && (version m <=? version current)
  && negb ((version m =? version current) && (change_counter current <? change_counter m)).

(** The groups whose object has another name, and those with overrides when
    the version differs. *)
Definition changed_groups (old new : Manifest) : list Z :=
  let max_len := Z.of_nat (Nat.max (length (page_group_keys old)) (length (page_group_keys new))) in
  let changed := filter (λ gid, at_index (page_group_keys old) gid ≠ at_index (page_group_keys new) gid) (range 0 max_len) in
  if negb (version new =? version old) && (0 <? version new)
  then changed ++ filter (λ gid, default ∅ (at_index (subframe_overrides new) gid) ≠ ∅ ∧ gid ∉ changed)
                    (range 0 (Z.of_nat (length (subframe_overrides new))))
  else changed.

(** The outcome of each write of the state file. *)
Record PublishFails := {
  pb_manifest : option (persist_step * io_kind);
  pb_dirty : option (persist_step * io_kind);
  pb_bitmap : option (persist_step * io_kind)
}.

Section publish.
Context `{HashIter} `{Compression} `{Aead K} `{StorageBackend B}.
Variable nonce : Z → bytes.
Variable to_vec : LocalState → option bytes.
Variable from_slice : bytes → option LocalState.
Variable encode_manifest : Manifest → option bytes.
Variable decode_manifest : bytes → option Manifest.
(** CBOR and BLAKE3. *)
Variable into_writer : CanonicalManifestV1 → option bytes.
Variable from_reader : bytes → option CanonicalManifestV1.
Variable blake3 : bytes → bytes.
Variable now : Z.

Definition save_manifest (fail : option (persist_step * io_kind)) (m : Manifest) : Prog K B () :=
  on_cache (λ c, let '(r, f) := persist_manifest_local to_vec from_slice fail (state_file c) m in
                 (r, c <| state_file := f |>)).

Definition save_dirty (fail : option (persist_step * io_kind)) : Prog K B () :=
  dirty ← reads v_dirty_groups;
  on_cache (λ c, let '(r, f) := persist_dirty_groups to_vec from_slice fail (state_file c) (hset_iter dirty) in
                 (r, c <| state_file := f |>)).

(** The cache under the new manifest: its groups, without the pages of those
    that changed, and page 0 from the header. *)
Definition adopt_groups (current m : Manifest) : Prog K B () :=
  _ ← (if bool_decide (Manifest.group_pages m = []) then mret () else
       _ ← on_cache (set_group_pages (Manifest.group_pages m));
       on_cache (ensure_group_capacity (Z.of_nat (length (Manifest.group_pages m)))));
  _ ← on_cache (for_each evict_group (changed_groups current m));
  match db_header m with
  | Some page0 => _ ← attempt (on_cache (write_page nonce now 0 page0)); mret ()
  | None => mret ()
  end.

(** [set_manifest]; failures of the state file are reported and dropped. *)
Definition set_manifest (fails : PublishFails) (m : Manifest) : Prog K B () :=
  let m := detect_and_normalize_strategy m in
  current ← reads v_manifest;
  if refuses current m then mret () else
  _ ← adopt_groups current m;
  _ ← update_vfs (λ w, w <| v_manifest := m |>);
  _ ← attempt (save_manifest (pb_manifest fails) m);
  _ ← attempt (save_dirty (pb_dirty fails));
  _ ← on_cache bump_generation;
  _ ← attempt (on_cache (persist_bitmap to_vec from_slice (pb_bitmap fails)));
  mret ().

Definition set_manifest_bytes (fails : PublishFails) (data : bytes) : Prog K B () :=
  m ← pure (wire_io (decode from_reader data));
  set_manifest fails m.

(** The version of what the backend has, if anything. *)
Definition fetch_and_apply_remote_manifest (fails : PublishFails) : Prog K B (option Z) :=
  found ← on_backend (get_manifest decode_manifest);
  match found with
  | Some m => _ ← set_manifest fails m; mret (Some (version m))
  | None => mret None
  end.

(** [seed_manifest]: published first, then kept locally. *)
Definition seed_manifest (fail : option (persist_step * io_kind)) (m : Manifest) : Prog K B () :=
  _ ← on_backend (put_manifest encode_manifest decode_manifest m);
  save_manifest fail m.

(** [TurboliteVfs::import_sqlite_file]. *)
Definition import_into_vfs (rnd : string → Z → bytes) (key : option K) (ppg spf : Z) (locked : bool) (file : bytes)
    (fails : PublishFails) (fail : option (persist_step * io_kind)) : Prog K B Manifest :=
  m ← on_backend (import_sqlite_file rnd encode_manifest decode_manifest key ppg spf locked file);
  let m := detect_and_normalize_strategy m in
  current ← reads v_manifest;
  let m := if version m <=? version current then m <| version := wrap64 (version current + 1) |> else m in
  _ ← set_manifest fails m;
  _ ← save_manifest fail m;
  mret m.

(* ------------------------------------------------------------------ *)
(** * Moving the cursor *)

(** A manifest is saved, then installed. *)
Definition install_manifest (fail : option (persist_step * io_kind)) (m : Manifest) : Prog K B () :=
  _ ← save_manifest fail m;
  update_vfs (λ w, w <| v_manifest := m |>).

Definition manifest_bytes : Prog K B bytes :=
  m ← reads v_manifest; pure (wire_io (encode into_writer m)).

Definition manifest_bytes_with_replay_cursor_at_least (fail : option (persist_step * io_kind)) (cc : Z) : Prog K B bytes :=
  m ← reads v_manifest;
  _ ← install_manifest fail (m <| change_counter := Z.max (change_counter m) cc |>);
  manifest_bytes.

Definition manifest_bytes_with_exact_replay_cursor (fail : option (persist_step * io_kind)) (cc : Z) : Prog K B bytes :=
  m ← reads v_manifest;
  _ ← install_manifest fail (m <| change_counter := cc |>);
  manifest_bytes.

Definition update_replay_cursor (fail : option (persist_step * io_kind)) (c : ReplayCursor) : Prog K B () :=
  m ← reads v_manifest;
  _ ← pure (validate_replay_cursor_update m c);
  install_manifest fail (m <| cursor := c |>).

(** [manifest_bytes_with_installed_replay_cursor_anchor]: the anchor is the
    checksum of the manifest without it. *)
Definition publish_cursor (fail : option (persist_step * io_kind)) (seq epoch : Z) (writer : string) :
    Prog K B (bytes * bytes) :=
  m ← reads v_manifest;
  _ ← pure (validate_replay_cursor_publish m seq epoch writer);
  let stamped anchor := m <| cursor := {| last_applied_seq := seq; base_object_checksum := anchor; cursor_epoch := epoch |} |>
                          <| writer_id := writer |> <| change_counter := seq |> in
  anchor ← pure (wire_io (base_anchor_checksum into_writer blake3 (stamped (base_object_checksum (cursor m)))));
  _ ← install_manifest fail (stamped anchor);
  payload ← manifest_bytes;
  mret (payload, anchor).

(* ------------------------------------------------------------------ *)
(** * Flushing *)

Section flushing.
Variables (rnd : string → Z → bytes) (key : option K) (fails : FlushFails) (gc : bool).
Variables (override_threshold compaction_threshold : Z).

Definition flush_to_storage : Prog K B () :=
  flush_dirty_groups rnd to_vec from_slice encode_manifest decode_manifest key fails false gc override_threshold compaction_threshold.

Definition has_pending_flush (w : Vfs K B) : bool :=
  negb (bool_decide (v_dirty_groups w = ∅)) || negb (bool_decide (v_pending w = [])).

Definition publish_replayed_base : Prog K B bytes := _ ← flush_to_storage; manifest_bytes.

Definition publish_replayed_base_with_replay_cursor_anchor (fail : option (persist_step * io_kind)) (seq epoch : Z)
    (writer : string) : Prog K B (bytes * bytes) :=
  _ ← flush_to_storage; publish_cursor fail seq epoch writer.
End flushing.
End publish.
