(* ===== verification/PublishSafety.v ===== *)
(** Adopting a newer manifest keeps the cache coherent, and a published manifest
    verifies at its reader. *)

From stdpp Require Import strings.
From S2P Require Import Prelude Float64 Keys Wire Manifest Compress Encoding Backend ColdRead FlushManifest.
From S2P Require Import CacheTracking LocalState File DiskCache CacheView CacheWrite CacheSafety CacheSteps.
From S2P Require Import Staging Settings Vfs Compact Flush FlushPages Keeps Programs Handle HandleRead HandleSafety HandleWrite WriteSafety.
From S2P Require Import Open OpenSafety Import Publish.

(* ------------------------------------------------------------------ *)
(** * Evicting groups *)

Section evict.
Context `{HashIter} `{Compression} `{Aead K}.
Implicit Types c : DiskCache K.

Lemma evict_group_next n gid : keeps (λ c, next_offset (cache_index c) = n) (evict_group gid).
Proof.
  assert (∀ l c, next_offset (cache_index (drop_slots l c)) = next_offset (cache_index c)) as Hdrop.
  { intros l c. by destruct (drop_slots_spec l c) as [(m & b & ->) _]. }
  unfold evict_group, clear_pages_from_disk, clear_pages_from_mem_cache. keeps_all; apply keeps_modify; intros c Hc.
  - cbn zeta. case_match; cbn; rewrite ?removed_next, Hdrop; done.
  - case_match; [done|by rewrite Hdrop].
  - done.
  - unfold set_group_state. by case_match.
Qed.

(** What is left is what was there, outside the groups. *)
Lemma evict_groups_run gids c :
  cache_ok c → ids_ok c → access_ok c → Forall is_u32 gids →
  ∃ c', for_each evict_group gids c = (Ok (), c') ∧ framed c c' ∧ cache_ok c' ∧
    next_offset (cache_index c') = next_offset (cache_index c) ∧
    ∀ p d, 0 ≤ p → stored c' p = Some d → stored c p = Some d ∧ ∀ gid, gid ∈ gids → p ∉ cache_group_page_nums c gid.
Proof.
  intros Hok Hids Hacc Hgids. revert c Hok Hids Hacc.
  induction Hgids as [|gid gids Hgid _ IH]; intros c Hok Hids Hacc; cbn [for_each].
  { exists c. split; [done|]. split; [by apply framed_refl|]. split; [done|]. split; [done|].
    intros p d Hp Hd. split; [done|]. by intros gid ?%elem_of_nil. }
  destruct (evict_group_run gid c Hok Hgid) as (c1 & Hrun & Hok1 & Hs1 & _).
  pose proof (kept_evict_group c gid c (framed_refl c Hids Hacc)) as Hf1. rewrite Hrun in Hf1. cbn in Hf1.
  pose proof (evict_group_next (next_offset (cache_index c)) gid c eq_refl) as Hn1. rewrite Hrun in Hn1. cbn in Hn1.
  unfold mbind, M_bind. rewrite Hrun. destruct (IH c1) as (c2 & Hrun2 & Hf2 & Hok2 & Hn2 & Hs2); [done|apply Hf1..|].
  exists c2. split; [done|]. split; [by eapply framed_trans|]. split; [done|]. split; [congruence|].
  intros p d Hp Hd. destruct (Hs2 p d Hp Hd) as [Hd1 Hout]. rewrite Hs1 in Hd1 by done.
  destruct (decide _) as [|Hnot]; [done|]. split; [done|]. intros g [-> | Hg]%elem_of_cons; [done|].
  specialize (Hout g Hg). unfold cache_group_page_nums in *. by rewrite (fm_groups _ _ Hf1), (fm_cfg _ _ Hf1) in Hout.
Qed.
End evict.

(* ------------------------------------------------------------------ *)
(** * Running programs *)

Section steps.
Context {K B : Type}.
Implicit Types (w : Vfs K B).

Lemma bind_runs {A C} (m : Prog K B A) (f : A → Prog K B C) w a w' : m w = (Ok a, w') → (m ≫= f) w = f a w'.
Proof. intros Hm. unfold mbind, Prog_bind. by rewrite Hm. Qed.

Lemma on_cache_runs {A} (x : M K A) w c0 a c : v_cache w = c0 → x c0 = (Ok a, c) → on_cache x w = (Ok a, w <| v_cache := c |>).
Proof. intros <- Hx. unfold on_cache. by rewrite Hx. Qed.

Lemma attempt_runs {A} (m : Prog K B A) w a w' : m w = (Ok a, w') → attempt m w = (Ok (inr a), w').
Proof. intros Hm. unfold attempt. by rewrite Hm. Qed.
End steps.

(* ------------------------------------------------------------------ *)
(** * Adopting a manifest *)

Section adopt.
Context `{HashIter} `{Compression} `{Aead K} `{StorageLaws B} (nonce : Z → bytes) `{!CacheLaws nonce}.
Context (to_vec : LocalState → option bytes) (from_slice : bytes → option LocalState) (now : Z).
Context (key : option K) (m m2 : Manifest) (D D2 : Z → bytes) (unstored unstored2 : gset Z) (live : Prop).
Implicit Types (w : Vfs K B).

(** A group is carried over when its object keeps its name and nothing is laid
    over it: the versions are the same, or the new manifest has no override for
    it (or no version, as the manifests of a fresh database). *)
Definition carried_over (gid : Z) : Prop :=
  at_index (page_group_keys m2) gid = at_index (page_group_keys m) gid ∧
  (version m2 = version m ∨ version m2 ≤ 0 ∨ default ∅ (at_index (subframe_overrides m2) gid) = ∅).

(** The new manifest describes [D2], in which the pages of the groups that are
    carried over, and those of no group, are what they were. *)
Record succeeds w : Prop := {
  su_geometry : geometry m2;
  su_small : small m2;
  su_size : Manifest.page_size m2 = Manifest.page_size m;
  su_keys : Z.of_nat (length (page_group_keys m)) ≤ 2 ^ 32 ∧ Z.of_nat (length (page_group_keys m2)) ≤ 2 ^ 32 ∧
    Z.of_nat (length (subframe_overrides m2)) ≤ 2 ^ 32;
  su_positional : Manifest.group_pages m2 = [] →
    group_pages (v_cache w) = [] ∧ DiskCache.pages_per_group (cfg (v_cache w)) = Manifest.pages_per_group m2;
  su_kept : ∀ gid p, 0 ≤ gid → 0 ≤ p → carried_over gid → p ∈ group_page_nums m2 gid → D2 p = D p;
  su_rest : ∀ p, 0 ≤ p → (∀ gid, 0 ≤ gid → p ∉ group_page_nums m2 gid) → D2 p = D p;
  su_header : ∀ d, db_header m2 = Some d → d = D2 0 ∧ Z.of_nat (length d) = Manifest.page_size m2;
  su_stored : ∀ p, 0 ≤ p → is_Some (page_location m2 p) → p ∉ unstored2 →
    cold_page key m2 (objects (v_backend w)) p = Some (D2 p)
}.

(** The cache holds nothing but pages of [D2]. *)
Definition holds_new c : Prop :=
  cache_ok c ∧ ids_ok c ∧ access_ok c ∧ page_size c = Manifest.page_size m2 ∧ ∀ p d, 0 ≤ p → stored c p = Some d → d = D2 p.

Lemma changed_u32 w : succeeds w → Forall is_u32 (changed_groups m m2).
Proof.
  intros Hs. destruct (su_keys _ Hs) as (H1' & H2' & H3'). apply Forall_forall. intros gid. unfold changed_groups, is_u32.
  set (changed := filter _ (range 0 _)).
  assert (gid ∈ changed → 0 ≤ gid < 2 ^ 32) as Hc by (unfold changed; intros [_ Hg%elem_of_range]%list_elem_of_filter; lia).
  destruct (negb _ && _); [|done]. rewrite elem_of_app. intros [Hg|[_ Hg%elem_of_range]%list_elem_of_filter]; [by apply Hc|lia].
Qed.

Lemma at_index_beyond {A} (l : list A) gid : ¬ gid < Z.of_nat (length l) → at_index l gid = None.
Proof. intros Hg. unfold at_index. case_match; [done|]. apply lookup_ge_None_2. lia. Qed.

(** What is not taken for changed is carried over. *)
Lemma unchanged_carried gid : 0 ≤ gid → gid ∉ changed_groups m m2 → carried_over gid.
Proof.
  intros Hgid. unfold changed_groups, carried_over. set (changed := filter _ (range 0 _)).
  assert (gid ∉ changed → at_index (page_group_keys m2) gid = at_index (page_group_keys m) gid) as Hkey.
  { intros Hno. destruct (decide (gid < Z.of_nat (Nat.max (length (page_group_keys m)) (length (page_group_keys m2))))) as [Hlt|Hge].
    - destruct (decide (at_index (page_group_keys m) gid = at_index (page_group_keys m2) gid)) as [|Hne]; [done|].
      destruct Hno. unfold changed. apply list_elem_of_filter. split; [done|]. apply elem_of_range. lia.
    - by rewrite !at_index_beyond by lia. }
  destruct (Z.eqb_spec (version m2) (version m)); cbn [negb andb]; [by auto|].
  destruct (Z.ltb_spec 0 (version m2)); [|by auto].
  rewrite not_elem_of_app. intros [Hc Ho]. split; [by apply Hkey|]. right. right.
  destruct (decide (gid < Z.of_nat (length (subframe_overrides m2)))) as [Hlt|Hge]; [|by rewrite at_index_beyond].
  destruct (decide (default ∅ (at_index (subframe_overrides m2) gid) = ∅)) as [|Hne]; [done|].
  destruct Ho. apply list_elem_of_filter. split; [done|]. apply elem_of_range. lia.
Qed.

(** The groups of the cache contain those of the manifest. *)
Lemma covered w c gid p :
  succeeds w → 0 ≤ gid → p ∈ group_page_nums m2 gid → cfg c = cfg (v_cache w) →
  group_pages c = (if bool_decide (Manifest.group_pages m2 = []) then group_pages (v_cache w) else Manifest.group_pages m2) →
  p ∈ cache_group_page_nums c gid.
Proof.
  intros Hs Hgid Hp Hcfg Hgp. unfold cache_group_page_nums. rewrite Hgp, Hcfg. unfold group_page_nums in Hp.
  pose proof (ge_strategy _ (su_geometry _ Hs)) as Hd. case_bool_decide as Hg.
  - destruct (su_positional _ Hs Hg) as [-> ->].
    assert (at_index ([] : list (list Z)) gid = None) as Hnil by (unfold at_index; by destruct (gid <? 0)).
    rewrite Hnil. rewrite Hg in Hp. destruct (strategy m2); [|rewrite Hnil in Hp; by apply elem_of_nil in Hp].
    apply elem_of_range in Hp as [? Hlt]. apply elem_of_range. lia.
  - destruct (strategy m2) eqn:Hst.
    + apply detected_Positional in Hd as [? _]; done.
    + by destruct (at_index (Manifest.group_pages m2) gid) as [g|]; [|by apply elem_of_nil in Hp].
Qed.

Lemma adopt_cache w :
  succeeds w → coherent key m D unstored live w → room (v_cache w) 1 →
  ∃ w', adopt_groups nonce now m m2 w = (Ok (), w') ∧ holds_new (v_cache w') ∧
    w' = w <| v_cache := v_cache w' |>.
Proof.
  intros Hs Hco Hroom. set (gp := if bool_decide (Manifest.group_pages m2 = []) then group_pages (v_cache w) else Manifest.group_pages m2).
  assert (∃ c1, (if bool_decide (Manifest.group_pages m2 = []) then mret () else
       _ ← on_cache (set_group_pages (Manifest.group_pages m2));
       on_cache (ensure_group_capacity (Z.of_nat (length (Manifest.group_pages m2))))) w = (Ok (), w <| v_cache := c1 |>) ∧
     cache_ok c1 ∧ ids_ok c1 ∧ access_ok c1 ∧ page_size c1 = page_size (v_cache w) ∧ cfg c1 = cfg (v_cache w) ∧
     group_pages c1 = gp ∧ cache_index c1 = cache_index (v_cache w) ∧ ∀ p, stored c1 p = stored (v_cache w) p)
    as (c1 & Hrun1 & Hok1 & Hids1 & Hacc1 & Hps1 & Hcfg1 & Hgp1 & Hidx1 & Hst1).
  { unfold gp. case_bool_decide as Hg.
    - exists (v_cache w). rewrite Vfs_same_cache. split; [done|]. split_and!; try done; apply Hco.
    - eexists. split; [reflexivity|]. split; [|split_and!; try done; apply Hco].
      destruct (co_cache _ _ _ _ _ _ Hco). split; cbn; try done. intros pages.
      apply (listed_groups_ok m2 (su_geometry _ Hs)). pose proof (sm_pages _ (su_small _ Hs)). lia. }
  unfold adopt_groups. rewrite (bind_runs _ _ _ _ _ Hrun1).
  destruct (evict_groups_run (changed_groups m m2) c1 Hok1 Hids1 Hacc1 (changed_u32 w Hs))
    as (c2 & Hrun2 & Hf2 & Hok2 & Hn2 & Hst2).
  set (w1 := w <| v_cache := c1 |>). rewrite (bind_runs _ _ _ _ _ (on_cache_runs _ w1 c1 _ _ eq_refl Hrun2)).
  set (w2 := w1 <| v_cache := c2 |>).
  assert (∀ p d, 0 ≤ p → stored c2 p = Some d → d = D2 p) as Hsound.
  { intros p d Hp Hd. destruct (Hst2 p d Hp Hd) as [Hd1 Hout]. rewrite Hst1 in Hd1.
    enough (D2 p = D p) as -> by by apply (co_sound _ _ _ _ _ _ Hco).
    destruct (decide (D2 p = D p)) as [|Hne]; [done|]. apply (su_rest _ Hs); [done|]. intros gid Hgid Hin. apply Hne.
    apply (su_kept _ Hs gid); [done|done| |done]. apply unchanged_carried; [done|]. intros Hg. apply (Hout gid Hg). by apply (covered w). }
  assert (page_size c2 = Manifest.page_size m2) as Hps2
    by (rewrite (fm_ps _ _ Hf2), Hps1, (su_size _ Hs); apply Hco).
  destruct (db_header m2) as [d|] eqn:Hhdr; [|exists w2; split; [done|]; split; [|done]; by split_and!; [|apply Hf2..| |]].
  destruct (su_header _ Hs d Hhdr) as [-> Hlen].
  destruct (write_page_grows nonce now 0 (D2 0) c2) as (c3 & Hrun3 & Hw3 & _); [done|unfold page_num_ok; lia|congruence| |].
  { unfold room in *. by rewrite (fm_cfg _ _ Hf2), Hn2, Hcfg1, Hidx1. }
  rewrite (bind_runs _ _ _ _ _ (attempt_runs _ _ _ _ (on_cache_runs _ w2 c2 _ _ eq_refl Hrun3))).
  eexists. split; [reflexivity|]. split; [|done]. cbn.
  pose proof (kept_write_page nonce c2 now 0 (D2 0) c2 (framed_refl c2 (fm_ids _ _ Hf2) (fm_access _ _ Hf2))) as Hk.
  rewrite Hrun3 in Hk. cbn in Hk. split_and!; [apply Hw3|apply Hk..| |].
  - by rewrite (wr_ps _ _ _ Hw3).
  - intros p d Hp. rewrite (wr_stored _ _ _ Hw3) by done. destruct (decide (p = 0)) as [->|Hne].
    + rewrite lookup_singleton_eq. by intros [= <-].
    + rewrite lookup_singleton_ne by done. by apply Hsound.
Qed.

(** The rest of the shared state: the manifest, and what is written to the
    state file, aside. *)
Definition adopted w0 w : Prop :=
  coherent key m2 D2 unstored2 live w ∧ v_backend w = v_backend w0 ∧ v_dirty_groups w = v_dirty_groups w0 ∧
  v_pending w = v_pending w0 ∧ v_logs w = v_logs w0.

Lemma adopted_cache w0 w c :
  adopted w0 w → framed (v_cache w) c → same_store (v_cache w) c → adopted w0 (w <| v_cache := c |>).
Proof. intros (Hc & ?) Hf Hs. split; [by apply coherent_same_store|done]. Qed.

Lemma adopted_state_file w0 w f : adopted w0 w → adopted w0 (w <| v_cache := v_cache w <| state_file := f |> |>).
Proof.
  intros Hw. apply adopted_cache; [done| |done]. destruct Hw as (Hc & _). destruct (coherent_framed _ _ _ _ _ _ Hc). by split.
Qed.

Lemma set_manifest_run m_in fails w :
  detect_and_normalize_strategy m_in = m2 → refuses m m2 = false →
  succeeds w → coherent key m D unstored live w → room (v_cache w) 1 →
  ∃ w', set_manifest nonce to_vec from_slice now fails m_in w = (Ok (), w') ∧ adopted w w'.
Proof.
  intros Hnorm Href Hs Hco Hroom. unfold set_manifest. rewrite Hnorm.
  rewrite (bind_runs (reads v_manifest) _ w _ w eq_refl). rewrite (co_manifest _ _ _ _ _ _ Hco), Href.
  destruct (adopt_cache w Hs Hco Hroom) as (w1 & Hrun & (Hok & Hids & Hacc & Hps & Hsound) & Hw1).
  rewrite (bind_runs _ _ _ _ _ Hrun), (bind_runs (update_vfs _) _ w1 () _ eq_refl).
  set (w2 := w1 <| v_manifest := m2 |>).
  assert (adopted w w2) as H2'.
  { split; [|unfold w2; by rewrite Hw1]. split; try done; unfold w2; rewrite Hw1; cbn [v_backend].
    - apply Hs.
    - apply Hco. }
  assert (∀ x : M K (), (∀ c, (x c).1 ≠ Panic ∧ ∃ f, (x c).2 = c <| state_file := f |>) →
    triple (adopted w) (attempt (on_cache x)) (λ _, adopted w) (λ _, False)) as Hfile.
  { intros x Hx. apply triple_state_file; [done|]. intros w' f. apply adopted_state_file. }
  enough (triple (adopted w) (_ ← attempt (save_manifest to_vec from_slice (pb_manifest fails) m2);
    _ ← attempt (save_dirty to_vec from_slice (pb_dirty fails)); _ ← on_cache bump_generation;
    _ ← attempt (on_cache (persist_bitmap to_vec from_slice (pb_bitmap fails))); mret ()) (λ _, adopted w) (λ _, False)) as Ht.
  { specialize (Ht w2 H2'). destruct ((_ ← attempt (save_manifest _ _ _ _); _) w2) as [[[]|e|] w']; [|done..]. by exists w'. }
  apply (triple_bind _ _ _ (λ _, adopted w)).
  { apply Hfile. intros c. unfold persist_manifest_local. split; [apply state_update|]. destruct (LocalState.update _ _ _ _ _). by eexists. }
  intros _. apply (triple_bind _ _ _ (λ _, adopted w)).
  { intros w' Hw'. unfold save_dirty, attempt, mbind, Prog_bind, reads.
    pose proof (Hfile (λ c, let '(r, f) := persist_dirty_groups to_vec from_slice (pb_dirty fails) (state_file c) (hset_iter (v_dirty_groups w')) in
                 (r, c <| state_file := f |>))) as Hx. apply Hx; [|done]. intros c. unfold persist_dirty_groups.
    split; [apply state_update|]. destruct (LocalState.update _ _ _ _ _). by eexists. }
  intros _. apply (triple_bind _ _ _ (λ _, adopted w)).
  { eapply (triple_annotate key m2); [apply annotates_generation| |by intros w' [? _]]. intros w' c. apply adopted_cache. }
  intros _. apply (triple_bind _ _ _ (λ _, adopted w)); [|intros _; by apply triple_ret].
  apply Hfile. intros c. unfold persist_bitmap. split; [apply state_update|]. destruct (LocalState.update _ _ _ _ _). by eexists.
Qed.
End adopt.

(** Both manifests have a version, and the new one's is smaller, or the same
    without a greater change counter. *)
Definition outdated (m m2 : Manifest) : Prop :=
  0 < version m ∧ 0 < version m2 ∧
  (version m2 < version m ∨ version m2 = version m ∧ change_counter m2 ≤ change_counter m).

Lemma refuses_spec m m2 : refuses m m2 = true ↔ outdated m m2.
Proof.
  unfold refuses, outdated. rewrite !andb_true_iff, negb_true_iff, andb_false_iff, !Z.ltb_lt, Z.leb_le, Z.eqb_neq, Z.ltb_ge. lia.
Qed.

(** C5. A reader that adopts the manifest of another writer serves the new
    database. A manifest that is older, or repeated, changes nothing. One that is
    not leaves a cache that holds pages of the new database only, whatever was
    cached before; what waits for an upload still waits, and failing writes of the
    state file do not matter. The new database may differ from the old one in
    every group whose object has another name and, when the versions differ, in
    every group with overrides, and only there. *)
Theorem set_manifest_adopts `{HashIter} `{Compression} `{Aead K} `{StorageLaws B} nonce `{!CacheLaws nonce}
    to_vec from_slice now key m m_in D D2 unstored unstored2 live fails (w : Vfs K B) :
  let m2 := detect_and_normalize_strategy m_in in
  coherent key m D unstored live w →
  (outdated m m2 → set_manifest nonce to_vec from_slice now fails m_in w = (Ok (), w)) ∧
  (¬ outdated m m2 → succeeds key m m2 D D2 unstored2 w → room (v_cache w) 1 →
     ∃ w', set_manifest nonce to_vec from_slice now fails m_in w = (Ok (), w') ∧
       coherent key m2 D2 unstored2 live w' ∧ v_backend w' = v_backend w ∧ v_dirty_groups w' = v_dirty_groups w ∧
       v_pending w' = v_pending w ∧ v_logs w' = v_logs w).
Proof.
  intros m2 Hco. rewrite <-refuses_spec. split.
  - intros Href. unfold set_manifest. rewrite (bind_runs (reads v_manifest) _ w _ w eq_refl), (co_manifest _ _ _ _ _ _ Hco).
    fold m2. by rewrite Href.
  - intros Href%not_true_is_false Hs Hroom.
    destruct (set_manifest_run nonce to_vec from_slice now key m m2 D D2 unstored unstored2 live m_in fails w eq_refl Href Hs Hco Hroom)
      as (w' & Hrun & Hw'). by exists w'.
Qed.

(* ------------------------------------------------------------------ *)
(** * Publishing the cursor *)

Section cursors.
Context `{HashIter} {K B : Type}.
Context (to_vec : LocalState → option bytes) (from_slice : bytes → option LocalState).
Context (into_writer : CanonicalManifestV1 → option bytes) (blake3 : bytes → bytes).

(** The manifest with a cursor. *)
Definition stamped (m : Manifest) (seq epoch : Z) (writer : string) (anchor : bytes) : Manifest :=
  m <| cursor := {| last_applied_seq := seq; base_object_checksum := anchor; cursor_epoch := epoch |} |>
    <| writer_id := writer |> <| change_counter := seq |>.

Lemma cursor_run fail seq epoch writer (w : Vfs K B) payload anchor w' :
  publish_cursor to_vec from_slice into_writer blake3 fail seq epoch writer w = (Ok (payload, anchor), w') →
  validate_replay_cursor_publish (v_manifest w) seq epoch writer = Ok () ∧
  v_manifest w' = stamped (v_manifest w) seq epoch writer anchor ∧
  base_anchor_checksum into_writer blake3 (v_manifest w') = Ok anchor ∧ encode into_writer (v_manifest w') = Ok payload.
Proof.
  unfold publish_cursor. rewrite (bind_runs (reads v_manifest) _ w _ w eq_refl). unfold mbind at 1, Prog_bind at 1, pure.
  destruct (validate_replay_cursor_publish _ _ _ _) as [[]|e|] eqn:Hval; [|done..]. cbn beta zeta.
  set (m0 := v_manifest w). fold (stamped m0 seq epoch writer (base_object_checksum (cursor m0))).
  unfold mbind at 1, Prog_bind at 1. destruct (base_anchor_checksum _ _ _) as [a|e|] eqn:Ha; cbn [wire_io]; [|done..].
  fold (stamped m0 seq epoch writer a).
  unfold install_manifest, save_manifest, on_cache, manifest_bytes, mbind, Prog_bind, pure, reads, update_vfs.
  destruct (persist_manifest_local _ _ _ _ _) as [[[]|e|] f]; [|done..]. cbn [v_manifest set_field].
  destruct (encode into_writer (stamped m0 seq epoch writer a)) as [p|e|] eqn:Hp; cbn [wire_io]; [|done..].
  intros [= <- <- <-]. split; [done|]. split; [done|]. split; [|exact Hp].
  exact Ha.
Qed.
End cursors.

(** C21. What a promotion publishes verifies at its reader.  A publication that
    returns has moved the cursor forward, to a nonzero epoch and a writer that
    is named; the payload decodes to the installed manifest, with the cursor
    and the change counter at the published position, and the anchor in it is
    the checksum that the reader computes. *)
Theorem published_cursor_verifies `{HashIter} {K B} to_vec from_slice into_writer from_reader blake3 fail seq epoch writer
    (w : Vfs K B) payload anchor w' :
  (∀ c b, into_writer c = Some b → from_reader b = Some c) →
  Z.of_nat (length payload) ≤ 6 + MAX_MANIFEST_BYTES →
  validate_field_ranges (strip_indexes (v_manifest w)) = Ok () →
  publish_cursor to_vec from_slice into_writer blake3 fail seq epoch writer w = (Ok (payload, anchor), w') →
  last_applied_seq (cursor (v_manifest w)) ≤ seq ∧ epoch ≠ 0 ∧ is_blank writer = false ∧
  ∃ m, decode from_reader payload = Ok m ∧ m = strip_indexes (v_manifest w') ∧
    cursor m = {| last_applied_seq := seq; base_object_checksum := anchor; cursor_epoch := epoch |} ∧
    writer_id m = writer ∧ change_counter m = seq ∧ page_group_keys m = page_group_keys (v_manifest w) ∧
    base_anchor_checksum into_writer blake3 m = Ok anchor.
Proof.
  intros Hcbor Hlen Hranges Hrun. apply cursor_run in Hrun as (Hval & Hm & Hanchor & Henc).
  unfold validate_replay_cursor_publish in Hval.
  destruct (Z.ltb_spec seq (last_applied_seq (cursor (v_manifest w)))); [done|].
  destruct (Z.eqb_spec epoch 0); [done|]. destruct (is_blank writer) eqn:Hb; [done|].
  split; [lia|]. split; [done|]. split; [done|]. exists (strip_indexes (v_manifest w')). split.
  - apply (decode_encoded into_writer); try done. by rewrite Hm.
  - split; [done|]. rewrite Hm in Hanchor |- *. do 4 (split; [done|]).
    unfold base_anchor_checksum, encode in *. rewrite <-Hanchor. 
    by rewrite <-(canonical_of_strip (clear_anchor (stamped _ _ _ _ _))).
Qed.
