(* ===== verification/PublishExamples.v ===== *)
(** A small database that takes the manifest of another writer, and one that
    publishes its own: the witnesses of the theorems of PublishSafety, and what
    the adoption of a manifest does to a local commit. *)

From stdpp Require Import strings.
From S2P Require Import Prelude Keys Wire Staging Manifest Backend ColdRead.
From S2P Require Import CacheTracking LocalState StateCodec Compress Encoding File DiskCache CacheView CacheWrite CacheSafety CacheReopen CacheExamples.
From S2P Require Import Vfs Compact Flush FlushPages FlushRun FlushSafety FlushExamples.
From S2P Require Import Settings Programs Handle HandleRead HandleSafety HandleExamples HandleWrite WriteSafety WriteExamples.
From S2P Require Import Open OpenSafety OpenExamples Import Publish PublishSafety.

#[local] Existing Instance canonical_iter.

(* ------------------------------------------------------------------ *)
(** * Adopting *)

(** Another writer has stored group 1 again, at version 8. *)
Definition px_manifest : Manifest := fx_manifest <| version := 8 |> <| page_group_keys := ["p/d/0_v7"; "p/d/1_v8"]%string |>.

Definition px_object : bytes :=
  from_ok [] (encode_page_group (Some <$> [fx_page 4 5; fx_page 5 5]) 512 (zeros 12) (aad_page_group 1) fx_key).

Definition px_pages (p : Z) : bytes :=
  if decide (0 ≤ p < 6) then fx_page p (if decide (4 ≤ p) then 5 else 1) else zeros 512.

(** The reader has read page 4, and sees the new object. *)
Definition px_state : Vfs () MemStore := wx_state
  <| v_backend := {| ms_objects := <["p/d/1_v8"%string := px_object]> fx_objects; ms_faults := [] |} |>.

Definition px_no_fails : PublishFails := {| pb_manifest := None; pb_dirty := None; pb_bitmap := None |}.

Definition px_adopt (m : Manifest) (w : Vfs () MemStore) : io () * Vfs () MemStore :=
  set_manifest demo_nonce full_to_vec full_from_slice 0 px_no_fails m w.

Lemma px_normal : @detect_and_normalize_strategy canonical_iter (strip_indexes px_manifest) = px_manifest.
Proof. apply (bool_decide_eq_true_1 _). vm_compute. reflexivity. Qed.

Lemma px_stored_old p :
  p ∈ [0; 1; 2; 3; 4; 5] → cold_page fx_key fx_manifest (objects (v_backend px_state)) p = Some (wx_pages p).
Proof.
  intros Hcases. rewrite !elem_of_cons, elem_of_nil in Hcases.
  destruct Hcases as [->|[->|[->|[->|[->|[->|[]]]]]]]; vm_compute; reflexivity.
Qed.

Lemma px_coherent : coherent fx_key fx_manifest wx_pages ∅ True px_state.
Proof.
  destruct wx_coherent. split; try done. intros p Hp Hl _. apply px_stored_old. by apply wx_located.
Qed.

(** Renaming the objects leaves the pages where they are. *)
Lemma renamed_location m v keys p : page_location (m <| version := v |> <| page_group_keys := keys |>) p = page_location m p.
Proof. by destruct m. Qed.

Lemma px_location p : page_location px_manifest p = page_location fx_manifest p.
Proof. apply renamed_location. Qed.

Lemma renamed_geometry m v keys :
  geometry m → well_formed (m <| version := v |> <| page_group_keys := keys |>) →
  geometry (m <| version := v |> <| page_group_keys := keys |>).
Proof. destruct m. intros [_ H1 H2 H3 H4 H5 H6 H7] Hwf. by split. Qed.

Lemma renamed_small m v keys :
  length keys = length (page_group_keys m) → small m → small (m <| version := v |> <| page_group_keys := keys |>).
Proof. destruct m. intros Hl []. split; try done. cbn in *. by rewrite Hl. Qed.

Lemma px_geometry : geometry px_manifest.
Proof.
  apply renamed_geometry; [exact fx_geometry|].
  split; [vm_compute; reflexivity|cbn; lia|cbn; lia|apply (bool_decide_eq_true_1 _); vm_compute; reflexivity|].
  repeat constructor; cbn; lia.
Qed.

Lemma px_small : small px_manifest.
Proof. apply renamed_small; [reflexivity|exact hx_small]. Qed.

Lemma px_stored p :
  0 ≤ p → is_Some (page_location px_manifest p) → p ∉ (∅ : gset Z) →
  cold_page fx_key px_manifest (objects (v_backend px_state)) p = Some (px_pages p).
Proof.
  intros Hp Hloc _. rewrite px_location in Hloc. pose proof (wx_located p Hp Hloc) as Hcases. clear -Hcases.
  rewrite !elem_of_cons, elem_of_nil in Hcases.
  destruct Hcases as [->|[->|[->|[->|[->|[->|[]]]]]]]; vm_compute; reflexivity.
Qed.

Lemma px_succeeds : succeeds fx_key fx_manifest px_manifest wx_pages px_pages ∅ px_state.
Proof.
  split.
  - exact px_geometry.
  - exact px_small.
  - vm_compute. reflexivity.
  - split_and!; apply Z.leb_le; vm_compute; reflexivity.
  - intros Hg. change ([[0; 2; 1; 3]; [4; 5]] = []) in Hg. discriminate Hg.
  - intros gid p Hgid Hp (Hkey & _) Hin. unfold px_pages, wx_pages. destruct (decide (0 ≤ p < 6)) as [Hlt|]; [|done].
    rewrite decide_False; [done|]. intros H4. assert (gid = 1) as ->; [|discriminate Hkey].
    apply list_elem_of_lookup in Hin as [i Hi]. apply fx_group_pages in Hi; [|done].
    rewrite !elem_of_cons, elem_of_nil in Hi. naive_solver lia.
  - intros p Hp Hout. unfold px_pages, wx_pages. destruct (decide (0 ≤ p < 6)); [|done].
    rewrite decide_False; [done|]. intros H4. apply (Hout 1); [lia|].
    change (group_page_nums px_manifest 1) with [4; 5].
    assert (p = 4 ∨ p = 5) as [-> | ->] by lia; [by left|by right; left].
  - intros d Hd. change (None = Some d) in Hd. discriminate Hd.
  - exact px_stored.
Qed.

Lemma px_room : room wx_cache 1.
Proof. destruct wx_tracker as (_ & _ & Hcc & _). unfold room. by rewrite Hcc. Qed.

Lemma px_newer : ¬ outdated fx_manifest px_manifest.
Proof. rewrite <-refuses_spec. vm_compute. discriminate. Qed.

Lemma px_repeated : outdated px_manifest px_manifest.
Proof. apply refuses_spec. vm_compute. reflexivity. Qed.

Lemma set_manifest_adopts_witness :
  ∃ w', px_adopt (strip_indexes px_manifest) px_state = (Ok (), w') ∧
    coherent fx_key px_manifest px_pages ∅ True w' ∧
    px_adopt (strip_indexes px_manifest) w' = (Ok (), w').
Proof.
  pose proof (set_manifest_adopts demo_nonce full_to_vec full_from_slice 0 fx_key fx_manifest (strip_indexes px_manifest)
    wx_pages px_pages ∅ ∅ True px_no_fails px_state) as Hall.
  cbv zeta in Hall. rewrite px_normal in Hall. destruct (Hall px_coherent) as [_ Htake].
  destruct (Htake px_newer px_succeeds px_room) as (w' & Hrun & Hco & _).
  exists w'. split; [exact Hrun|]. split; [exact Hco|].
  pose proof (set_manifest_adopts demo_nonce full_to_vec full_from_slice 0 fx_key px_manifest (strip_indexes px_manifest)
    px_pages px_pages ∅ ∅ True px_no_fails w') as Hagain.
  cbv zeta in Hagain. rewrite px_normal in Hagain. destruct (Hagain Hco) as [Hkeep _].
  exact (Hkeep px_repeated).
Defined.

(** A local commit to page 0 waits for its upload when the manifest of another
    writer arrives, with a new object for group 0.  The log and the dirty group
    are kept, as intended; the cached page goes, and a read gives the stored
    content until the log is uploaded. *)
Definition px_rival : Manifest :=
  px_manifest <| page_group_keys := ["p/d/0_v8"; "p/d/1_v6"]%string |>.

Definition px_committed : Vfs () MemStore := shared ox_end
  <| v_backend := {| ms_objects := <["p/d/0_v8"%string := fx_object0.1]> fx_objects; ms_faults := [] |} |>.

Example adoption_hides_local_commit :
  let '(r, w) := px_adopt (strip_indexes px_rival) px_committed in
  view (v_cache px_committed) 0 = Some (fx_page 0 3) ∧ r = Ok () ∧ view (v_cache w) 0 = None ∧
  v_pending w = v_pending px_committed ∧ v_logs w = v_logs px_committed ∧
  (hx_read 0 (hx_conn w)).1 = Ok (fx_page 0 1).
Proof. vm_compute. done. Qed.

(* ------------------------------------------------------------------ *)
(** * Publishing *)

Definition px_owner : Vfs () MemStore := wx_state <| v_manifest := shared_group_manifest |>.

Definition px_hash (b : bytes) : bytes := take 4 b.

Definition px_publish (seq : Z) : io (bytes * bytes) * Vfs () MemStore :=
  publish_cursor wx_to_vec wx_from_slice toy_writer px_hash None seq 3 "w" px_owner.

Definition px_payload : bytes := match (px_publish 11).1 with Ok (p, _) => p | _ => [] end.
Definition px_anchor : bytes := match (px_publish 11).1 with Ok (_, a) => a | _ => [] end.

Lemma px_published : (px_publish 11).1 = Ok (px_payload, px_anchor).
Proof. vm_compute. reflexivity. Qed.

Lemma published_cursor_verifies_witness :
  ∃ m, decode toy_reader px_payload = Ok m ∧ last_applied_seq (cursor m) = 11 ∧
    base_anchor_checksum toy_writer px_hash m = Ok px_anchor.
Proof.
  destruct (published_cursor_verifies wx_to_vec wx_from_slice toy_writer toy_reader px_hash None 11 3 "w" px_owner
    px_payload px_anchor (px_publish 11).2 toy_cbor ltac:(apply Z.leb_le; vm_compute; reflexivity) ltac:(vm_compute; reflexivity)
    (outcome_pair _ _ px_published)) as (_ & _ & _ & m & Hd & _ & Hc & _ & _ & _ & Ha).
  exists m. split; [exact Hd|]. split; [|exact Ha]. by rewrite Hc.
Defined.
