(* ===== verification/Maintenance.v ===== *)
(** Maintenance of a database (src/src/tiered/vfs.rs): garbage collection and
    validation of the stored objects, clearing and refilling the cache. *)

From stdpp Require Import strings.
From S2P Require Import Prelude Keys Wire CacheTracking LocalState Compress Encoding File DiskCache.
From S2P Require Import Staging Manifest Backend ColdRead Vfs Rotation.

(* ------------------------------------------------------------------ *)
(** * Listing the keys *)

(** [StorageBackend::list], with the order in which a backend lists its keys:
    a batch is the next part of it, and empty only at the end. *)
Class KeyListing (B : Type) `{StorageBackend B} := {
  st_list : string → option string → B → io (list string) * B;
  key_order : B → list string;
  key_order_law : ∀ b, NoDup (key_order b) ∧ ∀ k, k ∈ key_order b ↔ is_Some (objects b !! k);
  st_list_law : ∀ pre rest b r b', st_list "" (last pre) b = (r, b') → key_order b = pre ++ rest →
    objects b' = objects b ∧ key_order b' = key_order b ∧ r ≠ Panic ∧
    ∀ l, r = Ok l → ∃ post, rest = l ++ post ∧ (l = [] → post = [])
}.

Section maintenance.
Context `{HashIter} `{Compression} `{Aead K} `{KeyListing B}.
Variable decode_manifest : bytes → option Manifest.

(** [list_all_keys]: every batch but the last adds a key, so one round more
    than there are keys is enough. *)
Fixpoint list_loop (fuel : nat) (after : option string) (out : list string) : Remote B (list string) :=
  match fuel with
  | O => lift Panic
  | S fuel =>
    batch ← (λ b, let '(r, b) := st_list "" after b in (map_err_other r, b));
    match last batch with
    | None => mret out
    | Some k =>
      let out := out ++ batch in
      if 10000000 <? Z.of_nat (length out) then lift (Err OtherKind) else list_loop fuel (Some k) out
    end
  end.

Definition list_all_keys : Remote B (list string) := λ b, list_loop (S (size (objects b))) None [] b.

(* ------------------------------------------------------------------ *)
(** * Garbage collection *)

Definition manifest_keys (m : Manifest) : gset string :=
  list_to_set (filter (λ k, k ≠ ""%string) (page_group_keys m)) ∪
  list_to_set (hiter (interior_chunk_keys m)).*2 ∪ list_to_set (hiter (index_chunk_keys m)).*2 ∪
  list_to_set (subframe_overrides m ≫= λ ovs, ovr_key <$> (hiter ovs).*2).

(** The number of objects that nothing refers to; they are deleted. *)
Definition gc : Remote B Z :=
  found ← (get_manifest decode_manifest : Remote B _);
  let m := default empty_manifest found in
  all_keys ← list_all_keys;
  let live_keys := {[ MANIFEST_KEY ]} ∪ manifest_keys m in
  let orphans := filter (λ k, k ∉ live_keys) all_keys in
  _ ← (if bool_decide (orphans = []) then mret 0 else (delete_objects orphans : Remote B Z));
  mret (Z.of_nat (length orphans)).

Definition destroy_remote : Remote B () :=
  all_keys ← list_all_keys;
  if bool_decide (all_keys = []) then mret () else _ ← (delete_objects all_keys : Remote B Z); mret ().

(* ------------------------------------------------------------------ *)
(** * Validation *)

(** The messages of the errors are left out. *)
Record ValidateResult := {
  vr_version : Z;
  vr_groups_total : Z; vr_groups_present : Z; vr_groups_missing : list string;
  vr_interior_total : Z; vr_interior_present : Z; vr_interior_missing : list string;
  vr_index_total : Z; vr_index_present : Z; vr_index_missing : list string;
  vr_orphaned : list string;
  vr_decode_errors : list string
}.

(** [s3_ok]. *)
Definition s3_ok (v : ValidateResult) : bool :=
  bool_decide (vr_groups_missing v = []) && bool_decide (vr_interior_missing v = [])
  && bool_decide (vr_index_missing v = []) && bool_decide (vr_decode_errors v = []).

(** The decoders without a dictionary. *)
Variable plain : Compression.
Variable key : option K.

Definition failed {A} (r : io A) : bool := match r with Ok _ => false | _ => true end.

(** Whether the object of a group fails to decode: frame by frame when the
    database has frames and the group a table, as a whole when it has none. *)
Definition group_fails (m : Manifest) (gid : Z) (data : bytes) : io bool :=
  let aad := aad_page_group gid in
  if 0 <? Manifest.sub_pages_per_frame m then
    match at_index (frame_tables m) gid with
    | Some (e :: ft) =>
      match @decode_page_group_seekable_full plain K _ data (e :: ft) (Manifest.page_size m)
              (wrap32 (Z.of_nat (length (group_page_nums m gid)))) (page_count m) 0 aad key with
      | Panic => Panic
      | r => Ok (failed r)
      end
    | _ => Ok false
    end
  else match @decode_page_group plain K _ data aad key with Panic => Panic | r => Ok (failed r) end.

Definition bundle_fails (aad : bytes) (data : bytes) : io bool :=
  match @decode_interior_bundle plain K _ data aad key with Panic => Panic | r => Ok (failed r) end.

(** One object: whatever keeps it from being decoded is an error of its key. *)
Definition check_object (k : string) (fails : bytes → io bool) (errors : list string) : Remote B (list string) := λ b,
  match get_page_group k b with
  | (Ok (Some data), b) => (bad ← fails data; Ok (if (bad : bool) then errors ++ [k] else errors), b)
  | (Ok None, b) | (Err _, b) => (Ok (errors ++ [k]), b)
  | (Panic, b) => (Panic, b)
  end.

Definition missing (all_keys : gset string) (l : list string) : list string := filter (λ k, k ∉ all_keys) l.

Definition validate (m : Manifest) : Remote B ValidateResult :=
  listed ← list_all_keys;
  let all_keys : gset string := list_to_set listed in
  let groups := filter (λ k, k ≠ ""%string) (page_group_keys m) in
  let interior := hiter (interior_chunk_keys m) in
  let index := hiter (index_chunk_keys m) in
  let pg_missing := missing all_keys groups in
  let int_missing := missing all_keys interior.*2 in
  let idx_missing := missing all_keys index.*2 in
  errors ← fold_remote (λ errors g,
    if bool_decide (g.2 = ""%string ∨ g.2 ∈ pg_missing) then mret errors
    else check_object g.2 (group_fails m g.1) errors) [] (enumerate (page_group_keys m));
  errors ← fold_remote (λ errors c, if bool_decide (c.2 ∈ int_missing) then mret errors
    else check_object c.2 (bundle_fails (aad_interior_bundle c.1)) errors) errors interior;
  errors ← fold_remote (λ errors c, if bool_decide (c.2 ∈ idx_missing) then mret errors
    else check_object c.2 (bundle_fails (aad_index_bundle c.1)) errors) errors index;
  let live_keys := {[ MANIFEST_KEY ]} ∪ list_to_set (page_group_keys m) ∪ manifest_keys m in
  mret {|
    vr_version := version m;
    vr_groups_total := Z.of_nat (length groups);
    vr_groups_present := Z.of_nat (length groups) - Z.of_nat (length pg_missing); vr_groups_missing := pg_missing;
    vr_interior_total := Z.of_nat (length interior);
    vr_interior_present := Z.of_nat (length interior) - Z.of_nat (length int_missing); vr_interior_missing := int_missing;
    vr_index_total := Z.of_nat (length index);
    vr_index_present := Z.of_nat (length index) - Z.of_nat (length idx_missing); vr_index_missing := idx_missing;
    vr_orphaned := elements (all_keys ∖ live_keys);
    vr_decode_errors := errors
  |}.
End maintenance.

(* ------------------------------------------------------------------ *)
(** * The cache *)

Section cache.
Context `{HashIter} `{Compression} `{Aead K} {B : Type}.
Variable nonce : Z → bytes.
Variable to_vec : LocalState → option bytes.
Variable from_slice : bytes → option LocalState.
Variable now : Z.

(** The pages of the groups that wait for an upload. *)
Definition pending_group_pages (w : Vfs K B) : list (Z * list Z) :=
  (λ gid, (gid, group_page_nums (v_manifest w) gid)) <$> hset_iter (v_dirty_groups w).

(** [clear_cache].  The bitmap is first saved in a file of its own, which
    nothing reads again; [prune] is the outcome of the write of the state file. *)
Definition clear_cache (prune : option (persist_step * io_kind)) : Prog K B () :=
  w ← reads id;
  let c := v_cache w in
  let pending := pending_group_pages w in
  _ ← on_cache (modify (λ c, c <| group_states ::= imap (λ i _,
        if bool_decide (i = 0%nat ∨ Z.of_nat i ∈ pending.*1) then Present else GroupNone) |> <| group_access := ∅ |>));
  let group0 := match DiskCache.group_pages c with
                | g0 :: _ => g0
                | [] => range 0 (DiskCache.pages_per_group (cfg c))
                end in
  let keep := hset_iter (interior_pages c) ++ hset_iter (index_pages c) ++ concat pending.*2 ++ group0 in
  _ ← on_cache (modify (λ c, c <| bitmap ::= λ b, foldl CacheTracking.mark_present (bitmap_clear_all b) keep |>));
  _ ← on_cache (prune_cache_index to_vec from_slice prune (list_to_set keep));
  on_cache (modify (λ c, c <| tracker ::= clear_data_only |>)).

(** [replace_cache_from_sqlite_file]: every page from the file. *)
Definition replace_cache_from_sqlite_file (save : option (persist_step * io_kind)) (input : bytes) : Prog K B () :=
  m ← reads v_manifest;
  if (page_count m =? 0) || (Manifest.page_size m =? 0) then pure (Err NotFound) else
  _ ← fold_prog (λ (_ : ()) p,
        let offset := wrap64 (p * Manifest.page_size m) in
        page ← pure (ok_or (slice offset (offset + Manifest.page_size m) input) UnexpectedEof);
        on_cache (write_page nonce now p page)) () (range 0 (page_count m));
  _ ← on_cache (mark_all_pages_present (page_count m));
  _ ← on_cache bump_generation;
  _ ← attempt (on_cache (persist_bitmap to_vec from_slice save));
  mret ().

(** [sync_after_external_restore]: the cache file was rewritten. *)
Definition sync_after_external_restore (save : option (persist_step * io_kind)) (count : Z) : Prog K B () :=
  _ ← on_cache (clear_pages_from_mem_cache (range 0 count));
  _ ← on_cache bump_generation;
  _ ← on_cache (mark_all_pages_present count);
  _ ← attempt (on_cache (persist_bitmap to_vec from_slice save));
  mret ().
End cache.
