(* ===== verification/MaintenanceSafety.v ===== *)
(** Collection spares what the manifest refers to, a clean validation report
    means that the objects decode, and a cache refilled from a file serves it. *)

From stdpp Require Import strings.
From S2P Require Import Prelude Float64 Keys Wire Manifest Compress Encoding Backend ColdRead FlushManifest.
From S2P Require Import CacheTracking LocalState File DiskCache CacheView CacheWrite CacheSafety CacheSteps.
From S2P Require Import Staging Vfs Compact Flush FlushPages Rotation RotationSafety Maintenance.

(* ------------------------------------------------------------------ *)
(** * Listing *)

Section listing.
Context `{HashIter} `{StorageLaws B} `{!KeyListing B}.

(** The rest of the keys, whatever the sizes of the batches. *)
Lemma list_loop_run fuel pre rest (b : B) :
  key_order b = pre ++ rest → (length rest < fuel)%nat →
  ∃ r b', list_loop fuel (last pre) pre b = (r, b') ∧ objects b' = objects b ∧ (r = Ok (pre ++ rest) ∨ ∃ e, r = Err e).
Proof.
  revert pre rest b. induction fuel as [|fuel IH]; intros pre rest b Ho Hlen; [lia|]. cbn [list_loop].
  unfold mbind, Remote_bind. destruct (st_list "" (last pre) b) as [r b1] eqn:Hl.
  destruct (st_list_law pre rest b r b1 Hl Ho) as (Hob & Hord & Hnp & Hok).
  destruct r as [l|e|]; [|by exists (Err OtherKind), b1; split_and!; [..|right; eexists]|done].
  destruct (Hok l eq_refl) as (post & -> & Hend). cbn [map_err_other].
  destruct (last l) as [k|] eqn:Hlast.
  - destruct (_ <? _); [by exists (Err OtherKind), b1; split_and!; [..|right; eexists]|].
    assert (last (pre ++ l) = Some k) as Hlast'. { rewrite last_app, Hlast. done. }
    rewrite <-Hlast'. destruct (IH (pre ++ l) post b1) as (r & b2 & Hrun & Hob2 & Hr).
    + by rewrite Hord, Ho, app_assoc.
    + rewrite length_app in Hlen. destruct l as [|x l]; [done|]. cbn in Hlen. lia.
    + exists r, b2. split; [done|]. split; [congruence|]. by rewrite app_assoc.
  - apply last_None in Hlast as ->. rewrite Hend by done. exists (Ok pre), b1.
    split; [done|]. split; [done|]. left. by rewrite app_nil_r.
Qed.

Lemma key_order_size (b : B) : length (key_order b) = size (objects b).
Proof.
  destruct (key_order_law b) as [Hnd Hin]. rewrite <-size_dom, <-(size_list_to_set (C := gset string)) by done.
  f_equal. apply set_eq. intros k. rewrite elem_of_list_to_set, Hin, elem_of_dom. done.
Qed.

Lemma list_all_keys_run (b : B) :
  ∃ r b', list_all_keys b = (r, b') ∧ objects b' = objects b ∧ (r = Ok (key_order b) ∨ ∃ e, r = Err e).
Proof.
  destruct (list_loop_run (S (size (objects b))) [] (key_order b) b) as (r & b' & Hrun & Ho & Hr); [done| |by exists r, b'].
  rewrite key_order_size. lia.
Qed.
End listing.

(* ------------------------------------------------------------------ *)
(** * Collection *)

Section collection.
Context `{HashIter}.

Lemma override_key m gid f ovr : override_of m gid f = Some ovr → ovr_key ovr ∈ subframe_overrides m ≫= (λ ovs, ovr_key <$> (hiter ovs).*2).
Proof.
  unfold override_of. destruct (at_index (subframe_overrides m) gid) as [ovs|] eqn:Hg; [|done]. cbn. intros Ho.
  apply list_elem_of_bind. exists ovs. split; [|apply at_index_Some in Hg as [_ Hg]; by eapply list_elem_of_lookup_2].
  apply list_elem_of_fmap. exists ovr. split; [done|]. apply list_elem_of_fmap. exists (f, ovr). split; [done|]. by apply elem_of_hiter.
Qed.

(** The live keys are those of the references. *)
Lemma referenced_live m s k : references m s k → k ∈ manifest_keys m.
Proof.
  unfold manifest_keys. rewrite !elem_of_union, !elem_of_list_to_set. destruct s as [g|i|i|g f]; cbn [references].
  - unfold group_key, key_at. intros Hk. left. left. left. apply list_elem_of_filter.
    destruct (at_index (page_group_keys m) g) as [k'|] eqn:Hg; [|done]. assert (k' = k ∧ k ≠ ""%string) as [-> Hne] by by destruct k'; [|injection Hk as <-].
    split; [done|]. apply at_index_Some in Hg as [_ Hg]. by eapply list_elem_of_lookup_2.
  - intros Hk. left. left. right. apply list_elem_of_fmap. exists (i, k). split; [done|]. by apply elem_of_hiter.
  - intros Hk. left. right. apply list_elem_of_fmap. exists (i, k). split; [done|]. by apply elem_of_hiter.
  - intros (ovr & Ho & ->). right. by eapply override_key.
Qed.

Lemma live_referenced m k : k ∈ manifest_keys m → ∃ s, references m s k.
Proof.
  unfold manifest_keys. rewrite !elem_of_union, !elem_of_list_to_set. intros [[[Hk|Hk]|Hk]|Hk].
  - apply list_elem_of_filter in Hk as [Hne [i Hi]%list_elem_of_lookup]. exists (PageGroup (Z.of_nat i)). cbn.
    unfold group_key, key_at. rewrite lookup_at_index, Hi. by destruct k.
  - apply list_elem_of_fmap in Hk as ([i k'] & -> & Hk). apply elem_of_hiter in Hk. by exists (InteriorBundle i).
  - apply list_elem_of_fmap in Hk as ([i k'] & -> & Hk). apply elem_of_hiter in Hk. by exists (IndexBundle i).
  - apply list_elem_of_bind in Hk as (ovs & Hk & [i Hi]%list_elem_of_lookup).
    apply list_elem_of_fmap in Hk as (ovr & -> & Hk). apply list_elem_of_fmap in Hk as ([f ovr'] & -> & Hk).
    apply elem_of_hiter in Hk. exists (OverrideFrame (Z.of_nat i) f). cbn. exists ovr'. split; [|done].
    unfold override_of. by rewrite lookup_at_index, Hi.
Qed.
End collection.

(** Deleting the keys of a list takes as many objects as it has keys. *)
Lemma size_without (l : list string) (o o' : gmap string bytes) :
  NoDup l → (∀ k, k ∈ l → is_Some (o !! k)) → (∀ k, k ∈ l → o' !! k = None) → (∀ k, k ∉ l → o' !! k = o !! k) →
  Z.of_nat (size o') = Z.of_nat (size o) - Z.of_nat (length l).
Proof.
  intros Hnd Hin Hgone Hkept. assert (dom o' = dom o ∖ list_to_set l) as Hdom.
  { apply set_eq. intros k. rewrite elem_of_difference, elem_of_list_to_set, !elem_of_dom.
    destruct (decide (k ∈ l)) as [Hk|Hk]; [rewrite Hgone by done|rewrite Hkept by done].
    - split; [by intros []|by intros [_ []]].
    - naive_solver. }
  rewrite <-(size_dom o'), <-(size_dom o), Hdom, size_difference.
  - rewrite size_list_to_set by done. assert (length l ≤ size (dom o))%nat; [|lia].
    rewrite <-(size_list_to_set (C := gset string)) by done. apply subseteq_size. intros k. rewrite elem_of_list_to_set, elem_of_dom. auto.
  - intros k. rewrite elem_of_list_to_set, elem_of_dom. auto.
Qed.

(** C10. A collection keeps the published database and nothing else.  Whatever
    the listing or the deletion do, the stored manifest and every object it
    refers to are as before, so every page reads as before.  After a collection
    that returns these are all the objects there are, and the number it returns
    is that of the objects that are gone. *)
Theorem gc_spares_referenced `{HashIter} `{Compression} `{Aead K} `{StorageLaws B} `{!KeyListing B} decode_manifest (key : option K) m (b : B) r b' :
  stored_manifest decode_manifest (objects b) = Ok (Some m) →
  gc decode_manifest b = (r, b') →
  r ≠ Panic ∧ objects b' !! MANIFEST_KEY = objects b !! MANIFEST_KEY ∧
  (∀ s k, references m s k → objects b' !! k = objects b !! k) ∧
  (∀ p, cold_page key m (objects b') p = cold_page key m (objects b) p) ∧
  ∀ n, r = Ok n →
    (∀ k, k ≠ MANIFEST_KEY → (∀ s, ¬ references m s k) → objects b' !! k = None) ∧
    n = Z.of_nat (size (objects b)) - Z.of_nat (size (objects b')).
Proof.
  intros Hm Hrun.
  assert (r ≠ Panic ∧ (∀ k, k = MANIFEST_KEY ∨ k ∈ manifest_keys m → objects b' !! k = objects b !! k) ∧
    ∀ n, r = Ok n → (∀ k, k ≠ MANIFEST_KEY → k ∉ manifest_keys m → objects b' !! k = None) ∧
      n = Z.of_nat (size (objects b)) - Z.of_nat (size (objects b'))) as (Hnp & Hlive & Hn).
  2: { assert (∀ s k, references m s k → objects b' !! k = objects b !! k) as Href
         by (intros s k Hr; apply Hlive; right; by eapply referenced_live).
       split; [done|]. split; [apply Hlive; by left|]. split; [done|]. split; [intros p; by apply cold_page_objects|].
       intros n Hr. destruct (Hn n Hr) as [Hgone Hcount]. split; [|done]. intros k Hk Hno. apply Hgone; [done|].
       intros [s Hs]%live_referenced. by apply (Hno s). }
  unfold gc, mbind, Remote_bind, get_manifest in Hrun.
  destruct (get_page_group_run MANIFEST_KEY b) as (r1 & b1 & Hget & Ho1 & Hr1 & _). rewrite Hget in Hrun.
  destruct Hr1 as [->|[-> _]]; [|injection Hrun as <- <-; split_and!; [done| |done]; intros; by rewrite Ho1].
  unfold stored_manifest in Hm. cbn [mbind outcome_bind] in Hrun. rewrite Hm in Hrun. cbn [default id from_option] in Hrun.
  destruct (list_all_keys_run b1) as (r2 & b2 & Hlist & Ho2 & Hr2). rewrite Hlist in Hrun. destruct Hr2 as [->|[e ->]].
  2: { injection Hrun as <- <-. split_and!; [done| |done]. intros k _. by rewrite Ho2, Ho1. }
  destruct (key_order_law b1) as [Hnd Hin]. rewrite Ho1 in Hin, Ho2.
  set (orphans := filter (λ k, k ∉ {[MANIFEST_KEY]} ∪ manifest_keys m) (key_order b1)) in *.
  assert (∀ k, k ∈ orphans ↔ (k ≠ MANIFEST_KEY ∧ k ∉ manifest_keys m) ∧ is_Some (objects b !! k)) as Horph.
  { intros k. unfold orphans. rewrite list_elem_of_filter, Hin, not_elem_of_union, not_elem_of_singleton. done. }
  assert (NoDup orphans) as Hnd' by by apply NoDup_filter.
  case_bool_decide as Hempty.
  - injection Hrun as <- <-. rewrite Ho2. split; [done|]. split; [done|]. intros n [= <-]. rewrite Hempty in *. split; [|cbn; lia].
    intros k Hk Hkm. destruct (objects b !! k) eqn:Hok; [|done]. assert (k ∈ ([] : list string)) as []%elem_of_nil. apply Horph. by eauto.
  - destruct (delete_objects_run orphans b2) as (r3 & b3 & Hdel & Hnp & Ho3). rewrite Hdel in Hrun. rewrite Ho2 in Ho3.
    assert (∀ k, k = MANIFEST_KEY ∨ k ∈ manifest_keys m → objects b3 !! k = objects b !! k) as Hk
      by (intros k Hk; apply Ho3; rewrite Horph; naive_solver).
    destruct r3 as [n3|e|]; [| |done]; injection Hrun as <- <-; split_and!; try done. intros n [= <-].
    pose proof (delete_objects_ok _ _ _ _ Hdel) as Hgone. split.
    + intros k Hne Hkm. destruct (decide (k ∈ orphans)) as [|Hno]; [by apply Hgone|]. rewrite Ho3 by done.
      destruct (objects b !! k) eqn:Hok; [|done]. destruct Hno. apply Horph. by eauto.
    + rewrite (size_without orphans (objects b) (objects b3)); [lia|done| |done|done]. intros k Hkk. by apply Horph.
Qed.
