(* ===== verification/MaintenanceExamples.v ===== *)
(** Concrete collections, clearings and adoptions of a manifest. *)

From stdpp Require Import strings.
From S2P Require Import Prelude Keys Wire Staging Manifest Backend ColdRead.
From S2P Require Import CacheTracking LocalState StateCodec Compress Encoding File DiskCache CacheView CacheWrite CacheSafety CacheReopen CacheExamples.
From S2P Require Import Vfs Compact Flush FlushPages FlushGroups FlushInv FlushBundles FlushManifest FlushRun FlushSafety FlushExamples.
From S2P Require Import Handle Programs HandleRead HandleSafety HandleExamples HandleWrite WriteSafety WriteExamples Open OpenSafety OpenExamples.
From S2P Require Import Import Publish PublishSafety Rotation RotationSafety RotationExamples Maintenance MaintenanceSafety.

#[local] Existing Instance canonical_iter.

(* ------------------------------------------------------------------ *)
(** * A listing of the memory backend *)

Fixpoint after_key (k : string) (l : list string) : list string :=
  match l with
  | [] => []
  | x :: l => if decide (x = k) then l else after_key k l
  end.

Lemma after_key_split k pre rest : k ∉ pre → after_key k (pre ++ k :: rest) = rest.
Proof.
  induction pre as [|x pre IH]; intros Hk; cbn; [by rewrite decide_True|].
  apply not_elem_of_cons in Hk as [Hne Hk]. rewrite decide_False by done. by apply IH.
Qed.

Definition listed_after (after : option string) (b : MemStore) : list string :=
  let keys := (map_to_list (ms_objects b)).*1 in
  match after with Some k => after_key k keys | None => keys end.

#[export] Program Instance mem_listing : KeyListing MemStore := {|
  st_list prefix after b := ms_op (listed_after after b, ms_objects b) (λ _, ms_objects b) b;
  key_order b := (map_to_list (ms_objects b)).*1
|}.
Next Obligation.
  intros b. split; [apply NoDup_fst_map_to_list|]. intros k. rewrite list_elem_of_fmap. split.
  - intros ([k' d] & -> & Hk%elem_of_map_to_list). by exists d.
  - intros [d Hd]. exists (k, d). split; [done|]. by apply elem_of_map_to_list.
Qed.
Next Obligation.
  intros pre rest b r b' Hl Ho. cbn in Hl. unfold ms_op in Hl.
  assert (listed_after (last pre) b = rest) as Hrest.
  { unfold listed_after. cbn in Ho. pose proof (NoDup_fst_map_to_list (ms_objects b)) as Hnd. rewrite Ho in Hnd |- *.
    destruct (last pre) as [k|] eqn:Hk; [|by apply last_None in Hk as ->].
    apply last_Some in Hk as [pre' ->]. rewrite <-app_assoc in Hnd |- *. cbn in *. apply after_key_split.
    apply NoDup_app in Hnd as (_ & Hnd & _). intros Hin. apply (Hnd k Hin). by left. }
  rewrite Hrest in Hl.
  destruct (ms_faults b) as [|[n|] fs]; injection Hl as <- <-; cbn; split_and!; try done;
    intros l [= <-]; exists []; by rewrite app_nil_r.
Qed.

(* ------------------------------------------------------------------ *)
(** * Collection *)

(** The published database with an object that nothing refers to. *)
Definition mx_store : MemStore :=
  {| ms_objects := <["p/d/1_v5"%string := [Byte.x00]]> (objects ox_published); ms_faults := [] |}.

Lemma mx_stored : stored_manifest manifest_from_slice (objects mx_store) = Ok (Some fx_manifest).
Proof. vm_compute. reflexivity. Qed.

Lemma mx_count : (gc manifest_from_slice mx_store).1 = Ok 1.
Proof. vm_compute. reflexivity. Qed.
Lemma mx_freed : objects (gc manifest_from_slice mx_store).2 !! "p/d/1_v5"%string = None.
Proof. vm_compute. reflexivity. Qed.

Lemma gc_spares_referenced_witness :
  ∃ b', gc manifest_from_slice mx_store = (Ok 1, b') ∧ objects b' !! "p/d/1_v5"%string = None ∧
    cold_page fx_key fx_manifest (objects b') 4 = cold_page fx_key fx_manifest (objects mx_store) 4.
Proof.
  pose proof (gc_spares_referenced manifest_from_slice fx_key fx_manifest mx_store (gc manifest_from_slice mx_store).1
    (gc manifest_from_slice mx_store).2 mx_stored (surjective_pairing _)) as (_ & _ & _ & Hpages & _).
  exists (gc manifest_from_slice mx_store).2. split; [exact (outcome_pair _ _ mx_count)|]. split; [exact mx_freed|exact (Hpages 4)].
Defined.

(** A flush uploads the objects of the next version before it publishes the
    manifest, and a collection takes no lock: one that runs in between deletes
    them, and the manifest that is then published refers to nothing. *)
Definition mx_next : Manifest := fx_manifest <| version := 8 |> <| page_group_keys := ["p/d/0_v7"; "p/d/1_v8"]%string |>.

Example gc_races_flush :
  let '(r, b) := (_ ← (put_page_groups [("p/d/1_v8"%string, default [] (fx_objects !! "p/d/1_v6"%string))] : Remote MemStore ());
                  _ ← (gc manifest_from_slice : Remote MemStore Z);
                  (put_manifest manifest_to_vec manifest_from_slice mx_next : Remote MemStore ())) ox_published in
  r = Ok () ∧ version (published b) = 8 ∧ cold_page fx_key (published b) (objects b) 4 = None ∧
  cold_page fx_key fx_manifest (objects ox_published) 4 = Some (fx_page 4 1).
Proof. vm_compute. done. Qed.

(** Validation does not look at override frames: an object of one that is gone
    is not reported. *)
Definition mx_lost : MemStore := {| ms_objects := delete "p/d/0_f0_v8"%string (objects rx_flushed); ms_faults := [] |}.

Example validate_misses_overrides :
  cold_page fx_key (published mx_lost) (objects mx_lost) 0 = None ∧
  match validate Compress.stored fx_key (published mx_lost) mx_lost with
  | (Ok v, _) => s3_ok v = true ∧ vr_orphaned v = []
  | _ => False
  end.
Proof. vm_compute. done. Qed.

(* ------------------------------------------------------------------ *)
(** * Clearing *)

(** Clearing the cache marks the pages of group 0 present whether they are
    cached or not; the ones that are not read as zeros. *)
Definition mx_fresh : Vfs () MemStore := fx_state [] <| v_dirty_groups := ∅ |>.

Example clear_cache_invents_pages :
  view (v_cache mx_fresh) 2 = None ∧
  let '(r, w) := clear_cache full_to_vec full_from_slice None mx_fresh in
  r = Ok () ∧ view (v_cache w) 2 = Some (zeros 512) ∧ cold_page fx_key fx_manifest fx_objects 2 = Some (fx_page 2 1).
Proof. vm_compute. done. Qed.
