(* ===== verification/Replay.v ===== *)
(** Direct page replay (src/src/tiered/replay.rs): a handle stages decoded pages
    in memory; [finalize] writes the staging log, installs the pages in the live
    cache, and publishes the manifest, rolling back or tainting the cache when a
    page cannot be written.  The gate, the flush lock and the epoch serialise a
    finalize against readers and flushes, so it is one step on the shared state. *)

From stdpp Require Import pretty.
From S2P Require Import Prelude Keys CacheTracking LocalState Compress File DiskCache Staging Manifest.

#[local] Open Scope Z_scope.

Definition SQLITE_DB_HEADER_LEN : Z := 100.

(* ------------------------------------------------------------------ *)
(** * The page count of a manifest *)

(** The loop of the shrinking branch: a group that loses all its pages is
    dropped with its key, frames and overrides. *)
Definition shrink_groups (new_page_count : Z) (m : Manifest) : list (Z * list Z) :=
  filter (λ ig, ig.2 ≠ []) ((λ ig, (ig.1, filter (λ p, p < new_page_count) ig.2)) <$> enumerate (group_pages m)).

(** The last group filled up to [ppg], and the first page not yet placed. *)
Definition fill_last (ppg next_page new_page_count : Z) (groups : list (list Z)) : list (list Z) * Z :=
  match reverse groups with
  | [] => (groups, next_page)
  | last :: before =>
    let n := Z.min (saturating_sub ppg (Z.of_nat (length last))) (new_page_count - next_page) in
    (reverse before ++ [last ++ range next_page (next_page + n)], next_page + n)
  end.

(** New groups of [ppg] pages; each one places a page, so the number of pages
    left is enough fuel. *)
Fixpoint new_groups (fuel : nat) (ppg next_page new_page_count : Z) : list (list Z) :=
  match fuel with
  | O => []
  | S fuel =>
    if next_page <? new_page_count then
      let take := Z.min ppg (new_page_count - next_page) in
      range next_page (next_page + take) :: new_groups fuel ppg (next_page + take) new_page_count
    else []
  end.

Definition set_replay_page_count `{HashIter} (m : Manifest) (old_page_count new_page_count : Z) : Manifest :=
  if new_page_count <=? old_page_count then
    match strategy m with
    | Positional => m <| page_count := new_page_count |>
    | BTreeAware =>
      let kept := shrink_groups new_page_count m in
      let pick {A} (d : A) (l : list A) := (λ ig : Z * list Z, default d (at_index l ig.1)) <$> kept in
      build_page_index (set_groups m new_page_count kept.*2 (pick ""%string (page_group_keys m))
        (pick [] (frame_tables m)) (pick ∅ (subframe_overrides m)))
    end
  else
    let m := m <| page_count := new_page_count |> in
    match strategy m with
    | Positional => m
    | BTreeAware =>
      let ppg := pages_per_group m in
      build_page_index (if 0 <? ppg then
        let '(groups, next_page) := fill_last ppg old_page_count new_page_count (group_pages m) in
        m <| group_pages := groups ++ new_groups (Z.to_nat (new_page_count - next_page)) ppg next_page new_page_count |>
      else m)
    end.

(* ------------------------------------------------------------------ *)
(** * The handle *)

Record ReplayHandle := {
  staged : gmap Z bytes;
  target_page_count : option Z;
  max_sqlite_page_id : Z;
  committed_seqs : list Z;
  expected_next_seq : Z;
  rh_page_size : Z;
  consumed : bool
}.

#[export] Instance ReplayHandle_settable : Settable ReplayHandle := {| rebuild := λ h, {|
  staged := staged h; target_page_count := target_page_count h; max_sqlite_page_id := max_sqlite_page_id h;
  committed_seqs := committed_seqs h; expected_next_seq := expected_next_seq h;
  rh_page_size := rh_page_size h; consumed := consumed h |} |}.

(** [ReplayHandle::new] over the live manifest. *)
Definition new_handle (m : Manifest) : io ReplayHandle :=
  if page_size m =? 0 then Err InvalidData else
  Ok {| staged := ∅; target_page_count := None; max_sqlite_page_id := 0; committed_seqs := [];
        expected_next_seq := 1; rh_page_size := page_size m; consumed := false |}.

Definition check_not_consumed (h : ReplayHandle) : io () := guard_err (consumed h) OtherKind.

(** The methods on [&mut self]: the result and the handle afterwards. *)
Definition apply_page (sqlite_page_id : Z) (data : bytes) (h : ReplayHandle) : io () * ReplayHandle :=
  match (_ ← check_not_consumed h;
         _ ← guard_err (sqlite_page_id =? 0) InvalidInput;
         guard_err (negb (Z.of_nat (length data) =? rh_page_size h)) InvalidData) with
  | Ok _ => (Ok (), h <| max_sqlite_page_id ::= Z.max sqlite_page_id |>
                      <| staged ::= <[sqlite_page_id - 1 := data]> |>)
  | r => (r, h)
  end.

Definition set_target_page_count (n : Z) (h : ReplayHandle) : io () * ReplayHandle :=
  match check_not_consumed h with
  | Ok _ => (Ok (), h <| target_page_count := Some n |>)
  | r => (r, h)
  end.

Definition set_expected_next_changeset_seq (next_seq : Z) (h : ReplayHandle) : io () * ReplayHandle :=
  match (_ ← check_not_consumed h;
         _ ← guard_err (negb (bool_decide (committed_seqs h = []))) InvalidInput;
         guard_err (next_seq =? 0) InvalidInput) with
  | Ok _ => (Ok (), h <| expected_next_seq := next_seq |>)
  | r => (r, h)
  end.

Definition commit_changeset (seq : Z) (h : ReplayHandle) : io () * ReplayHandle :=
  match (_ ← check_not_consumed h; guard_err (negb (seq =? expected_next_seq h)) InvalidData) with
  | Ok _ => (Ok (), h <| committed_seqs ::= λ l, l ++ [seq] |>
                      <| expected_next_seq ::= λ n, wrap64 (n + 1) |>)
  | r => (r, h)
  end.

(** [abort] consumes the handle and touches nothing else. *)
Definition abort (h : ReplayHandle) : io () := Ok ().

(* ------------------------------------------------------------------ *)
(** * Finalize *)

(** The shared state a finalize works on; [ctx_logs] is the staging directory. *)
Record ReplayContext (K : Type) := {
  ctx_cache : DiskCache K;
  shared_manifest : Manifest;
  vfs_page_count : Z;
  pending_flushes : list PendingFlush;
  staging_seq : Z;
  replay_epoch : Z;
  ctx_logs : gmap string bytes
}.
Arguments ctx_cache {_}. Arguments shared_manifest {_}. Arguments vfs_page_count {_}.
Arguments pending_flushes {_}. Arguments staging_seq {_}. Arguments replay_epoch {_}. Arguments ctx_logs {_}.

#[export] Instance ReplayContext_settable K : Settable (ReplayContext K) := {| rebuild := λ w, {|
  ctx_cache := ctx_cache w; shared_manifest := shared_manifest w; vfs_page_count := vfs_page_count w;
  pending_flushes := pending_flushes w; staging_seq := staging_seq w; replay_epoch := replay_epoch w;
  ctx_logs := ctx_logs w |} |}.

Record FinalizeReport := { installed_pages_in_this_cycle : gset Z; new_page_count : Z }.

Definition log_path (v : Z) : string := decimal v +:+ ".log".

(** The pages of a handle in the order of its [BTreeMap]. *)
Definition staged_pages (h : ReplayHandle) : list (Z * bytes) := sort_by_key (map_to_list (staged h)).

Section replay.
Context `{HashIter} `{Compression} `{Aead K} (nonce : Z → bytes).
Variable to_vec : LocalState → option bytes.
Variable from_slice : bytes → option LocalState.
(** [rmp_serde::to_vec] on a manifest. *)
Variable encode_manifest : Manifest → option bytes.

(** The bytes of the staging log, or the failure of the trailer's encoding. *)
Definition staging_log_bytes (h : ReplayHandle) (m : Manifest) : io bytes :=
  let writer := foldl (λ w r, append w r.1 r.2) (open_log (rh_page_size h)) (staged_pages h) in
  trailer ← ok_or (encode_manifest m) InvalidData;
  Ok (finalize (append_manifest writer trailer)).1.

(** [fail] is the error of the first file-system call on the log that fails, if
    any does; a partial file is removed. *)
Definition write_staging_log (fail : option io_kind) (h : ReplayHandle) (m : Manifest) (v : Z)
    (logs : gmap string bytes) : io string * gmap string bytes :=
  match (b ← staging_log_bytes h m; match fail with Some e => Err e | None => Ok b end) with
  | Ok b => (Ok (log_path v), <[log_path v := b]> logs)
  | Err e => (Err e, delete (log_path v) logs)
  | Panic => (Panic, logs)
  end.

(** The page as it was, when it was present; a short read counts as absent. *)
Definition pre_image (ps page_num : Z) : M K (io_kind + option bytes) :=
  was_present ← gets (λ c, cache_is_present c page_num);
  if negb was_present then mret (inr None) else
  r ← try_io (read_page page_num (zeros (Z.to_nat ps)));
  mret (match r with
        | inr buf => inr (Some buf)
        | inl UnexpectedEof => inr None
        | inl e => inl e
        end).

(** The write loop of the commit phase: the pre-images captured so far, on the
    left when a read or a write failed. *)
Fixpoint commit_pages (ps : Z) (pages : list (Z * bytes)) (pre_images : list (Z * bytes)) :
    M K (list (Z * bytes) + list (Z * bytes)) :=
  match pages with
  | [] => mret (inr pre_images)
  | (page_num, new_bytes) :: pages =>
    pre ← pre_image ps page_num;
    match pre with
    | inl _ => mret (inl pre_images)
    | inr pre =>
      r ← try_io (write_page_no_visibility nonce page_num new_bytes);
      match r with
      | inl _ => mret (inl pre_images)
      | inr _ => commit_pages ps pages
                   (match pre with Some buf => pre_images ++ [(page_num, buf)] | None => pre_images end)
      end
    end
  end.

(** The pages whose pre-image could not be restored. *)
Definition rollback_pre_images (pre_images : list (Z * bytes)) : M K (list Z) :=
  fold_m (λ failed x, r ← try_io (write_page_no_visibility_rollback nonce x.1 x.2);
                      mret (match r with inl _ => failed ++ [x.1] | inr _ => failed end))
    [] (reverse pre_images).

(** Whether the staging log is removed; otherwise the cache is tainted. *)
Definition handle_commit_phase_failure (pre_images : list (Z * bytes)) : M K bool :=
  failed ← rollback_pre_images pre_images;
  if bool_decide (failed = []) then mret true else
  _ ← modify (λ c, c <| tainted := true |>);
  mret false.

(** Steps 4 and 5: [Ok true] when the pages are visible, [Ok false] when the
    writes failed and the log is to be removed, otherwise the error that ends
    the finalize with the log kept. *)
Inductive commit_outcome := Committed | RolledBack | CacheTainted.

Definition commit_phase (ps : Z) (pages : list (Z * bytes)) (shrink_to : option Z) : M K commit_outcome :=
  r ← commit_pages ps pages [];
  match r with
  | inl pre_images =>
    removed ← handle_commit_phase_failure pre_images;
    mret (if removed : bool then RolledBack else CacheTainted)
  | inr _ =>
    _ ← clear_pages_from_mem_cache pages.*1;
    _ ← mark_pages_present pages.*1;
    _ ← (match shrink_to with Some n => truncate_to_page_count n ps | None => mret () end);
    _ ← bump_generation;
    mret Committed
  end.

(** The post-replay manifest (step 2). *)
Definition post_manifest (h : ReplayHandle) (pre : Manifest) (n : Z) : Manifest :=
  let m := if n =? page_count pre then pre else set_replay_page_count pre (page_count pre) n in
  let m := match staged h !! 0 with
           | Some page0 => if SQLITE_DB_HEADER_LEN <=? Z.of_nat (length page0)
                           then m <| db_header := Some page0 |> else m
           | None => m
           end in
  let m := m <| version := wrap64 (version pre + 1) |> in
  m <| change_counter ::= λ cc, foldl Z.max cc (committed_seqs h) |>.

Definition target_count (h : ReplayHandle) (pre : Manifest) : Z :=
  match target_page_count h with
  | Some n => n
  | None => Z.max (page_count pre) (max_sqlite_page_id h)
  end.

(** Steps 6 to 8: the manifest, the page count, the queued log, the bitmap. *)
Definition publish_replay (state_fail : option (persist_step * io_kind)) (report : FinalizeReport)
    (post : Manifest) (flush : PendingFlush) (w : ReplayContext K) : io FinalizeReport * ReplayContext K :=
  let w := w <| shared_manifest := post |> <| vfs_page_count := new_page_count report |>
             <| pending_flushes ::= λ l, l ++ [flush] |> in
  let '(saved, c) := persist_bitmap to_vec from_slice state_fail (ctx_cache w) in
  (_ ← saved; Ok report, w <| ctx_cache := c |>).

(** What follows the commit phase. *)
Definition finish_commit (state_fail : option (persist_step * io_kind)) (report : FinalizeReport)
    (post : Manifest) (flush : PendingFlush) (r : io commit_outcome) (w : ReplayContext K) :
    io FinalizeReport * ReplayContext K :=
  match r with
  | Err e => (Err e, w)
  | Panic => (Panic, w)
  | Ok RolledBack => (Err OtherKind, w <| ctx_logs ::= delete (staging_path flush) |>)
  | Ok CacheTainted => (Err OtherKind, w)
  | Ok Committed => publish_replay state_fail report post flush w
  end.

(** The commit phase on the shared state, under the gate and the flush lock. *)
Definition commit_replay (state_fail : option (persist_step * io_kind)) (report : FinalizeReport)
    (h : ReplayHandle) (post : Manifest) (flush : PendingFlush) (w : ReplayContext K) :
    io FinalizeReport * ReplayContext K :=
  let n := new_page_count report in
  let '(r, c) := commit_phase (rh_page_size h) (staged_pages h)
                   (if n <? page_count (shared_manifest w) then Some n else None) (ctx_cache w) in
  finish_commit state_fail report post flush r
    (w <| replay_epoch ::= λ e, wrap64 (e + 1) |> <| ctx_cache := c |>).

(** [finalize_inner]; [log_fail] and [state_fail] are the failing calls on the
    staging log and on the state file. *)
Definition finalize_replay (log_fail : option io_kind) (state_fail : option (persist_step * io_kind))
    (h : ReplayHandle) (w : ReplayContext K) : io FinalizeReport * ReplayContext K :=
  match check_not_consumed h with Err e => (Err e, w) | Panic => (Panic, w) | Ok _ =>
  let pre := shared_manifest w in
  let n := target_count h pre in
  let report := {| installed_pages_in_this_cycle := dom (staged h); new_page_count := n |} in
  if n <? max_sqlite_page_id h then (Err InvalidData, w) else
  if bool_decide (staged h = ∅) && (n =? page_count pre) then (Ok report, w) else
  let post := post_manifest h pre n in
  let v := staging_seq w in
  let '(logged, logs) := write_staging_log log_fail h post v (ctx_logs w) in
  let w := w <| staging_seq ::= λ s, wrap64 (s + 1) |> <| ctx_logs := logs |> in
  match logged with Err e => (Err e, w) | Panic => (Panic, w) | Ok path =>
  commit_replay state_fail report h post
    {| staging_path := path; pf_version := v; pf_page_size := rh_page_size h |} w
  end end.
End replay.
