(* ===== verification/ReplayPages.v ===== *)
(** What a replay handle and its manifest guarantee (Replay.v): the groups keep
    partitioning the database when its page count moves, the handle accepts only
    contiguous changesets and well-sized pages, and the staging log it writes
    reads back to the staged pages. *)

From S2P Require Import Prelude Keys CacheTracking LocalState Compress File DiskCache Staging Manifest Replay.

#[local] Open Scope Z_scope.

(* ------------------------------------------------------------------ *)
(** * Groups *)

Lemma range_split a b c : a ≤ b ≤ c → range a c = range a b ++ range b c.
Proof.
  intros Hb. unfold range. replace (c - a) with ((b - a) + (c - b)) by lia.
  rewrite seqZ_app by lia. do 2 f_equal. lia.
Qed.

Lemma new_groups_concat ppg fuel next n :
  0 < ppg → next ≤ n → n - next ≤ Z.of_nat fuel → concat (new_groups fuel ppg next n) = range next n.
Proof.
  intros Hppg. revert next. induction fuel as [|fuel IH]; intros next Hn Hf; cbn [new_groups].
  - replace n with next by lia. unfold range. by rewrite Z.sub_diag.
  - destruct (Z.ltb_spec next n) as [Hlt|Hge].
    + cbn [concat]. rewrite IH by lia. rewrite <-range_split by lia. done.
    + replace n with next by lia. unfold range. by rewrite Z.sub_diag.
Qed.

Lemma new_groups_sizes ppg fuel next n :
  0 < ppg → Forall (λ g, 0 < Z.of_nat (length g) ≤ ppg) (new_groups fuel ppg next n).
Proof.
  intros Hppg. revert next. induction fuel as [|fuel IH]; intros next; cbn [new_groups]; [constructor|].
  destruct (Z.ltb_spec next n); [|constructor]. constructor; [|apply IH]. rewrite length_range. lia.
Qed.

Lemma fill_last_concat ppg next n groups :
  next ≤ n → ∃ k, fill_last ppg next n groups = (k, (fill_last ppg next n groups).2) ∧
    let next' := (fill_last ppg next n groups).2 in
    next ≤ next' ≤ n ∧ concat k = concat groups ++ range next next' ∧
    Forall2 (λ g g', g' = g ∨ Z.of_nat (length g') ≤ ppg) groups k.
Proof.
  intros Hn. unfold fill_last. destruct (reverse groups) as [|l before] eqn:Hr.
  - exists groups. split; [done|]. cbn. split; [lia|]. unfold range. rewrite Z.sub_diag, app_nil_r.
    split; [done|]. apply Forall_Forall2_diag, Forall_forall. by left.
  - apply (f_equal reverse) in Hr. rewrite reverse_involutive, reverse_cons in Hr. subst groups.
    unfold saturating_sub. set (k := Z.min _ _). eexists. split; [reflexivity|]. cbn.
    assert (0 ≤ k ≤ n - next) as Hk by (unfold k; lia).
    split; [lia|]. split.
    + rewrite !concat_app. cbn. by rewrite !app_nil_r, <-app_assoc.
    + apply Forall2_app; [apply Forall_Forall2_diag, Forall_forall; by left|]. constructor; [|constructor].
      destruct (decide (k = 0)) as [Hk0|Hk0].
      * left. rewrite Hk0, Z.add_0_r. unfold range. by rewrite Z.sub_diag, app_nil_r.
      * right. rewrite length_app, length_range. unfold k in *. lia.
Qed.

Lemma concat_shrink n groups :
  concat (filter (λ g, g ≠ []) ((filter (λ p, p < n)) <$> groups)) = filter (λ p, p < n) (concat groups).
Proof.
  induction groups as [|g gs IH]; [done|]. rewrite fmap_cons. cbn [concat]. rewrite filter_app, <-IH.
  rewrite filter_cons. case_decide as Hg; [done|].
  by rewrite Hg.
Qed.

Lemma shrink_groups_snd n m :
  (shrink_groups n m).*2 = filter (λ g, g ≠ []) ((filter (λ p, p < n)) <$> group_pages m).
Proof.
  unfold shrink_groups. assert (snd <$> enumerate (group_pages m) = group_pages m) as Hs.
  { unfold enumerate. apply snd_zip. rewrite length_range. lia. }
  revert Hs. generalize (enumerate (group_pages m)) as l. intros l <-.
  induction l as [|[i g] l IH]; [done|].
  rewrite !fmap_cons. cbn [snd fst]. rewrite !filter_cons. cbn [snd]. by case_decide; cbn; rewrite <-IH.
Qed.

Lemma filter_range n k : 0 ≤ n → filter (λ p, p < n) (range 0 k) ≡ₚ range 0 (Z.min n k).
Proof.
  intros Hn. apply NoDup_Permutation.
  - apply NoDup_filter, NoDup_seqZ.
  - apply NoDup_seqZ.
  - intros p. rewrite list_elem_of_filter, !elem_of_range. lia.
Qed.

(** The groups list each page of the database once. *)
Definition groups_partition (m : Manifest) : Prop := concat (group_pages m) ≡ₚ range 0 (page_count m).

Lemma indexed_location `{HashIter} m p :
  strategy m = BTreeAware → groups_partition m →
  is_Some (page_location (build_page_index m) p) ↔ 0 ≤ p < page_count m.
Proof.
  intros Hs Hp. unfold groups_partition in Hp. assert (detected_strategy m = BTreeAware) as Hd.
  { unfold detected_strategy. rewrite Hs. by destruct (group_pages m). }
  unfold build_page_index, page_location. rewrite Hd. cbn.
  assert (NoDup (concat (group_pages m))) as Hnd by (rewrite Hp; apply NoDup_seqZ).
  rewrite <-elem_of_range, <-Hp. split.
  - intros [loc Hl]. apply index_groups_lookup in Hl as (g & i & pages & Hg & Hi & _); [|done].
    apply list_elem_of_In, in_concat. exists pages. rewrite <-!list_elem_of_In.
    split; by eapply list_elem_of_lookup_2.
  - intros Hin. apply list_elem_of_In, in_concat in Hin as (pages & Hg & Hi).
    rewrite <-!list_elem_of_In in *. apply list_elem_of_lookup in Hg as [g Hg]. apply list_elem_of_lookup in Hi as [i Hi].
    eexists. apply index_groups_lookup; [done|]. exists g, i, pages. done.
Qed.

(** C27. Replay keeps the page-to-group assignment exact when it moves the page
    count, in either direction: the groups of a B-tree-aware manifest list each
    page of the new size once and no other, every such page has a location and
    no page beyond the end has one, and groups that grew stay within their
    capacity. *)
Theorem replay_page_count_partition `{HashIter} m n :
  strategy m = BTreeAware → groups_partition m → 0 ≤ page_count m → 0 ≤ n → 0 < pages_per_group m →
  Forall (λ g, Z.of_nat (length g) ≤ pages_per_group m) (group_pages m) →
  let m' := set_replay_page_count m (page_count m) n in
  page_count m' = n ∧ strategy m' = BTreeAware ∧ groups_partition m' ∧
  (∀ p, is_Some (page_location m' p) ↔ 0 ≤ p < n) ∧
  Forall (λ g, Z.of_nat (length g) ≤ pages_per_group m) (group_pages m').
Proof.
  intros Hs Hp H0 Hn Hppg Hsize. cbn zeta. unfold groups_partition in Hp.
  assert (∃ m0, set_replay_page_count m (page_count m) n = build_page_index m0 ∧ strategy m0 = BTreeAware ∧
    page_count m0 = n ∧ groups_partition m0 ∧
    Forall (λ g, Z.of_nat (length g) ≤ pages_per_group m) (group_pages m0)) as (m0 & -> & Hs0 & Hn0 & Hp0 & Hsz0).
  { unfold set_replay_page_count. rewrite Hs. destruct (Z.leb_spec n (page_count m)) as [Hle|Hgt].
    - eexists. split; [reflexivity|]. split; [exact Hs|]. split; [done|]. unfold groups_partition. cbn.
      rewrite shrink_groups_snd, concat_shrink. split.
      + rewrite Hp, filter_range by done. by rewrite Z.min_l.
      + apply Forall_forall. intros g [_ Hg]%list_elem_of_filter. apply list_elem_of_fmap in Hg as (g' & -> & Hg').
        rewrite Forall_forall in Hsize. specialize (Hsize g' Hg').
        pose proof (length_filter (λ p, p < n) g'). lia.
    - cbn [strategy]. change (strategy (m <| page_count := n |>)) with (strategy m). rewrite Hs.
      change (pages_per_group (m <| page_count := n |>)) with (pages_per_group m).
      change (group_pages (m <| page_count := n |>)) with (group_pages m).
      destruct (Z.ltb_spec 0 (pages_per_group m)) as [_|]; [|lia].
      destruct (fill_last_concat (pages_per_group m) (page_count m) n (group_pages m)) as (k & Hk & Hb & Hc & Hf); [lia|].
      rewrite Hk. set (next := (fill_last _ _ _ _).2) in *. eexists. split; [reflexivity|]. split; [exact Hs|].
      split; [done|]. unfold groups_partition. cbn. rewrite concat_app, Hc, new_groups_concat by lia. split.
      + rewrite Hp, <-app_assoc, <-range_split, <-range_split by lia. done.
      + apply Forall_app. split.
        * rewrite Forall_forall in Hsize. apply Forall_forall. intros g' (i & Hi)%list_elem_of_lookup.
          destruct (Forall2_lookup_r _ _ _ _ _ Hf Hi) as (g & Hg & [->|?]); [|done].
          apply Hsize. by eapply list_elem_of_lookup_2.
        * eapply Forall_impl; [by apply new_groups_sizes|]. cbn. lia. }
  assert (detected_strategy m0 = BTreeAware) as Hd.
  { unfold detected_strategy. rewrite Hs0. by destruct (group_pages m0). }
  assert (∀ p, is_Some (page_location (build_page_index m0) p) ↔ 0 ≤ p < n) as Hloc
    by (intros p; rewrite indexed_location, Hn0 by done; done).
  unfold groups_partition in *. unfold build_page_index in *. rewrite Hd in *. by split_and!.
Qed.

(* ------------------------------------------------------------------ *)
(** * The handle *)

(** The methods a driver calls before it finalizes. *)
Inductive handle_op :=
  | ApplyPage (sqlite_page_id : Z) (data : bytes)
  | SetTarget (page_count : Z)
  | SetExpected (next_seq : Z)
  | CommitChangeset (seq : Z).

Definition run_handle_op (op : handle_op) (h : ReplayHandle) : io () * ReplayHandle :=
  match op with
  | ApplyPage id data => apply_page id data h
  | SetTarget n => set_target_page_count n h
  | SetExpected n => set_expected_next_changeset_seq n h
  | CommitChangeset seq => commit_changeset seq h
  end.

(** Arguments in their machine types; the sequence counter has not wrapped. *)
Definition handle_op_ok (op : handle_op) (h : ReplayHandle) : Prop :=
  match op with
  | ApplyPage id _ => is_u32 id
  | SetTarget n | SetExpected n => is_u64 n
  | CommitChangeset _ => expected_next_seq h + 1 < 2 ^ 64
  end.

Record handle_ok (h : ReplayHandle) : Prop := {
  ho_seqs : ∃ first, 1 ≤ first ≤ expected_next_seq h ∧ committed_seqs h = range first (expected_next_seq h);
  ho_pages : map_Forall (λ p d, 0 ≤ p < max_sqlite_page_id h ∧ Z.of_nat (length d) = rh_page_size h) (staged h);
  ho_max : 0 ≤ max_sqlite_page_id h < 2 ^ 32
}.

Lemma new_handle_ok m h : new_handle m = Ok h → handle_ok h ∧ rh_page_size h = page_size m ∧ staged h = ∅.
Proof.
  unfold new_handle. destruct (Z.eqb_spec (page_size m) 0); [done|]. intros [= <-].
  split; [|done]. split; cbn; [exists 1; split; [lia|done]|done|lia].
Qed.

(** What a call does: nothing when it is refused. *)
Definition handle_effect (op : handle_op) (h h' : ReplayHandle) : Prop :=
  match op with
  | ApplyPage id data => 0 < id ∧ Z.of_nat (length data) = rh_page_size h ∧
      staged h' = <[id - 1 := data]> (staged h) ∧ committed_seqs h' = committed_seqs h
  | SetTarget n => target_page_count h' = Some n ∧ staged h' = staged h ∧ committed_seqs h' = committed_seqs h
  | SetExpected n => committed_seqs h = [] ∧ 0 < n ∧ expected_next_seq h' = n ∧ staged h' = staged h
  | CommitChangeset seq => seq = expected_next_seq h ∧ committed_seqs h' = committed_seqs h ++ [seq] ∧
      staged h' = staged h
  end.

(** C40. A replay handle stays well typed and contiguous: whatever a driver
    calls, each call is either refused without any effect or has exactly its
    documented effect (a page supersedes an earlier one of the same number), the
    staged pages keep the pinned page size and 1-based numbers, and the
    committed changesets are consecutive from the cursor the driver set. *)
Theorem replay_handle_invariant op h :
  handle_ok h → handle_op_ok op h →
  let '(r, h') := run_handle_op op h in
  handle_ok h' ∧ r ≠ Panic ∧ (r = Ok () → handle_effect op h h') ∧ (∀ e, r = Err e → h' = h) ∧
  (consumed h = true → r = Err OtherKind).
Proof.
  intros [(first & Hf & Hs) Hp Hm] Hop.
  assert (handle_ok h) as Hh by (split; [by exists first|done|done]).
  destruct op as [id data|n|n|seq]; cbn [run_handle_op handle_op_ok handle_effect] in *.
  - unfold apply_page, check_not_consumed, guard_err. destruct (consumed h); [by split_and!|].
    unfold is_u32 in Hop. destruct (Z.eqb_spec id 0) as [|Hid]; [by split_and!|]. cbn.
    destruct (Z.eqb_spec (Z.of_nat (length data)) (rh_page_size h)) as [Hl|]; [|by split_and!]. cbn.
    split_and!; try done; [|intros _; split_and!; [lia|done..]]. split; cbn; [by exists first| |lia].
    apply map_Forall_insert_2; [split; [lia|done]|]. intros p d Hd. specialize (Hp p d Hd). cbn in Hp. split; [lia|apply Hp].
  - unfold set_target_page_count, check_not_consumed, guard_err. destruct (consumed h); [by split_and!|]. cbn.
    split_and!; try done. split; cbn; [by exists first|done|done].
  - unfold set_expected_next_changeset_seq, check_not_consumed, guard_err. destruct (consumed h); [by split_and!|].
    case_bool_decide as He; [|by split_and!]. cbn. destruct (Z.eqb_spec n 0) as [|Hn]; [by split_and!|]. cbn.
    unfold is_u64 in Hop. split_and!; try done; [|intros _; split_and!; [done|lia|done..]].
    split; cbn; [|done|done]. exists n. split; [lia|]. rewrite He. unfold range. by rewrite Z.sub_diag.
  - unfold commit_changeset, check_not_consumed, guard_err. destruct (consumed h); [by split_and!|]. cbn.
    destruct (Z.eqb_spec seq (expected_next_seq h)) as [->|]; [|by split_and!]. cbn.
    split_and!; try done. split; cbn; [|done|done]. exists first. rewrite wrap64_id by (unfold is_u64; lia).
    split; [lia|]. rewrite Hs. rewrite (range_split first (expected_next_seq h) (expected_next_seq h + 1)) by lia.
    f_equal. unfold range. replace (_ + 1 - _) with 1 by lia. done.
Qed.

(* ------------------------------------------------------------------ *)
(** * The staging log *)

Lemma elem_of_staged h p d : (p, d) ∈ staged_pages h ↔ staged h !! p = Some d.
Proof. unfold staged_pages. rewrite sort_by_key_perm. apply elem_of_map_to_list. Qed.

Lemma NoDup_staged h : NoDup (staged_pages h).*1.
Proof. unfold staged_pages. rewrite sort_by_key_perm. apply NoDup_fst_map_to_list. Qed.

Lemma pages_of_staged h : pages_of (staged_pages h) ∅ = staged h.
Proof.
  unfold pages_of. apply map_eq. intros p.
  assert (∀ l acc, NoDup l.*1 → foldl (λ (acc : gmap Z bytes) r, <[r.1 := r.2]> acc) acc l !! p =
    match list_to_map (M:=gmap Z bytes) l !! p with Some d => Some d | None => acc !! p end) as Hfold.
  { induction l as [|[q d] l IH]; intros acc Hnd; cbn; [by rewrite lookup_empty|].
    apply NoDup_cons in Hnd as [Hq Hnd]. rewrite IH by done. destruct (decide (p = q)) as [->|Hne].
    - rewrite !lookup_insert_eq. rewrite (not_elem_of_list_to_map_1 _ _ Hq). done.
    - by rewrite !lookup_insert_ne by done. }
  rewrite Hfold by apply NoDup_staged. rewrite lookup_empty.
  destruct (staged h !! p) as [d|] eqn:Hd.
  - apply elem_of_staged in Hd. by rewrite (elem_of_list_to_map_1 _ _ _ (NoDup_staged h) Hd).
  - rewrite (not_elem_of_list_to_map_1 _ _); [done|]. intros ([q d] & -> & Hq)%list_elem_of_fmap.
    apply elem_of_staged in Hq. cbn in Hd. congruence.
Qed.

Lemma staged_records h : handle_ok h → Forall (record_ok (rh_page_size h)) (staged_pages h).
Proof.
  intros [_ Hp Hm]. apply Forall_forall. intros [p d] Hd%elem_of_staged. specialize (Hp p d Hd). cbn in Hp.
  unfold record_ok, is_u64, MANIFEST_MAGIC. cbn. lia.
Qed.

(** C36. The staging log of a replay carries everything a restart needs: the log
    that [finalize] writes reads back to exactly the staged pages, and its
    trailer to the encoded post-replay manifest. *)
Theorem replay_log_recovers encode h m b :
  handle_ok h → is_valid_page_size (rh_page_size h) = true →
  (∀ t, encode m = Some t → is_u64 (Z.of_nat (length t))) →
  staging_log_bytes encode h m = Ok b →
  read_staging_log b = Ok (staged h) ∧ read_staging_manifest b = Ok (encode m).
Proof.
  intros Hh Hps Hlen. unfold staging_log_bytes. fold (write_log (rh_page_size h) (staged_pages h)).
  destruct (encode m) as [t|] eqn:Ht; [cbn [ok_or mbind outcome_bind]|done]. unfold finalize, append_manifest.
  cbn [fst sw_bytes]. intros <-%Ok_inj. specialize (Hlen t eq_refl).
  pose proof (staged_records h Hh) as Hrec. destruct (valid_header _ Hps) as [Hu H512].
  rewrite write_log_bytes, <-app_assoc. set (body := concat _). set (tr := le_bytes 8 MANIFEST_MAGIC ++ _).
  assert (∀ rest, read_exact 4 (le_bytes 4 (rh_page_size h) ++ rest) = Some (le_bytes 4 (rh_page_size h), rest)) as Hhd
    by (intros rest; apply read_exact_app, length_le_bytes).
  assert (∀ rest, read_exact 8 (tr ++ rest) = Some (le_bytes 8 MANIFEST_MAGIC,
    le_bytes 8 (Z.of_nat (length t)) ++ t ++ rest)) as Htr.
  { intros rest. unfold tr. rewrite <-!app_assoc. apply read_exact_app, length_le_bytes. }
  assert (length tr = 16 + length t)%nat as Hltr by (unfold tr; rewrite !length_app, !length_le_bytes; lia).
  assert (of_le (le_bytes 8 MANIFEST_MAGIC) = MANIFEST_MAGIC) as Hmagic by (by apply of_le_le_bytes).
  split.
  - unfold read_staging_log. rewrite length_app, length_le_bytes.
    destruct (Nat.ltb_spec (4 + length (body ++ tr)) 4); [lia|]. rewrite Hhd. cbn [ok_or mbind outcome_bind].
    rewrite of_le_le_bytes, Hps by done. cbn [negb].
    destruct (read_pages_records (rh_page_size h) (staged_pages h) tr (S (length (body ++ tr))) ∅ Hrec)
      as (fuel & Hfuel & Hr); [unfold body; lia|]. fold body in Hr. rewrite Hr.
    rewrite pages_of_staged. f_equal. destruct fuel as [|fuel]; [lia|]. cbn [read_pages].
    rewrite <-(app_nil_r tr), Htr, Hmagic. by rewrite Z.eqb_refl.
  - unfold read_staging_manifest. rewrite length_app, length_le_bytes.
    destruct (Z.ltb_spec (Z.of_nat (4 + length (body ++ tr))) 4); [lia|]. rewrite Hhd. cbn [ok_or mbind outcome_bind].
    rewrite of_le_le_bytes, Hps by done. cbn [negb].
    destruct (find_manifest_records (rh_page_size h) (Z.of_nat (4 + length (body ++ tr))) (staged_pages h) tr
      (S (length (body ++ tr))) Hrec) as (fuel & Hfuel & Hr); [unfold body; lia|]. fold body in Hr. rewrite Hr.
    destruct fuel as [|fuel]; [lia|]. cbn [find_manifest].
    rewrite <-(app_nil_r tr), Htr, Hmagic, Z.eqb_refl.
    rewrite read_exact_app by apply length_le_bytes. cbn [ok_or mbind outcome_bind].
    rewrite of_le_le_bytes by exact Hlen.
    destruct (Z.ltb_spec (Z.of_nat (4 + length (body ++ tr ++ []))) (Z.of_nat (length t))) as [Hlt|_];
      [rewrite !length_app in Hlt; lia|].
    rewrite Nat2Z.id, read_exact_app by done. done.
Qed.
