(* ===== verification/ReplayCommit.v ===== *)
(** The commit phase of a replay (Replay.v) on a cache whose system calls may
    fail: the pages become visible together, or the cache is as it was and the
    log is gone, or the cache is tainted and the log is kept. *)

From S2P Require Import Prelude Keys Staging Manifest Replay ReplayPages.
From S2P Require Import CacheTracking LocalState Compress File DiskCache CacheView CacheWrite CacheSafety.

Section replay_commit.
Context `{HashIter} `{Compression} `{Aead K} (nonce : Z → bytes) `{!CacheLaws nonce}.
Implicit Types c : DiskCache K.

(* ------------------------------------------------------------------ *)
(** * System calls that may fail *)

(** A failing call reports its own error and has written nothing. *)
Definition clean_fault (f : option Fault) : Prop :=
  match f with Some f => f_kind f ≠ UnexpectedEof ∧ f_written f = 0%nat | None => True end.

Definition clean (c : DiskCache K) : Prop := Forall clean_fault (faults c).

Lemma pop_fault_run c :
  clean c → ∃ f fs, pop_fault c = (Ok f, c <| faults := fs |>) ∧ Forall clean_fault fs ∧ clean_fault f ∧
    (faults c = [] → f = None ∧ fs = []).
Proof.
  unfold clean, pop_fault. destruct (faults c) as [|f fs] eqn:Hf.
  - intros _. exists None, []. destruct c. cbn in Hf. by subst.
  - intros [? ?]%Forall_cons. by exists f, fs.
Qed.

Lemma set_len_outcome n c :
  clean c → n < 2 ^ 63 →
  ∃ r fs, Forall clean_fault fs ∧ (faults c = [] → r = Ok () ∧ fs = []) ∧
    ((r = Ok () ∧ set_len n c = (r, c <| faults := fs |> <| cache_file ::= file_set_len n |>)) ∨
     (∃ e, r = Err e ∧ set_len n c = (r, c <| faults := fs |>))).
Proof.
  intros Hc Hn. destruct (pop_fault_run c Hc) as (f & fs & Hrun & Hfs & Hf & Hq).
  unfold set_len, mbind, M_bind. rewrite Hrun. destruct f as [f|].
  - exists (Err (f_kind f)), fs. split; [done|]. split; [by intros [? ?]%Hq|]. right. by eexists.
  - exists (Ok ()), fs. split; [done|]. split; [by intros [_ ?]%Hq|]. left. split; [done|].
    by destruct (Z.leb_spec (2 ^ 63) n); [lia|].
Qed.

Lemma write_outcome d off c :
  clean c → off < 2 ^ 63 →
  ∃ r fs, Forall clean_fault fs ∧ (faults c = [] → r = Ok () ∧ fs = []) ∧
    ((r = Ok () ∧ write_all_at d off c = (r, c <| faults := fs |> <| cache_file ::= file_write_at d off |>)) ∨
     (∃ e, r = Err e ∧ write_all_at d off c = (r, c <| faults := fs |>))).
Proof.
  intros Hc Ho. unfold write_all_at. case_bool_decide as Hd.
  { exists (Ok ()), (faults c). split; [done|]. split; [done|]. left. subst d. split; [done|]. by destruct c. }
  destruct (pop_fault_run c Hc) as (f & fs & Hrun & Hfs & Hf & Hq).
  unfold mbind, M_bind. rewrite Hrun. destruct f as [f|].
  - exists (Err (f_kind f)), fs. split; [done|]. split; [by intros [? ?]%Hq|]. right. eexists. split; [done|].
    destruct Hf as [_ Hw]. unfold modify. rewrite Hw, take_0. done.
  - exists (Ok ()), fs. split; [done|]. split; [by intros [_ ?]%Hq|]. left. split; [done|].
    by destruct (Z.leb_spec (2 ^ 63) off); [lia|].
Qed.

Lemma read_outcome n off b c :
  clean c → 0 < n → 0 ≤ off < 2 ^ 63 → file_read_at n off (cache_file c) = Some b →
  ∃ r fs, read_exact_at n off c = (r, c <| faults := fs |>) ∧ Forall clean_fault fs ∧
    (faults c = [] → r = Ok b ∧ fs = []) ∧ (r = Ok b ∨ ∃ e, r = Err e ∧ e ≠ UnexpectedEof).
Proof.
  intros Hc Hn Ho Hb. destruct (pop_fault_run c Hc) as (f & fs & Hrun & Hfs & Hf & Hq).
  unfold read_exact_at. destruct (Z.eqb_spec n 0); [lia|]. unfold mbind, M_bind. rewrite Hrun. destruct f as [f|].
  - exists (Err (f_kind f)), fs. split_and!; [done|done|by intros [? ?]%Hq|]. right. eexists. split; [done|apply Hf].
  - exists (Ok b), fs. destruct (Z.leb_spec (2 ^ 63) off); [lia|]. unfold gets, lift. cbn. rewrite Hb.
    split_and!; [done|done|by intros [_ ?]%Hq|by left].
Qed.

(* ------------------------------------------------------------------ *)
(** * Writes without visibility *)

(** Only the file, its length, the nonces and the pending faults differ. *)
Definition io_only (c c' : DiskCache K) : Prop :=
  c' = c <| cache_file := cache_file c' |> <| cache_file_len := cache_file_len c' |>
         <| draws := draws c' |> <| faults := faults c' |>.

Lemma io_only_refl c : io_only c c.
Proof. unfold io_only. by destruct c. Qed.

Lemma io_only_trans c1 c2 c3 : io_only c1 c2 → io_only c2 c3 → io_only c1 c3.
Proof. unfold io_only. intros -> ->. done. Qed.

(** The file is as long as recorded, and the failures ahead are clean. *)
Record file_ok (c : DiskCache K) : Prop := {
  fo_len : cache_file_len c = Z.of_nat (length (cache_file c));
  fo_max : Z.of_nat (length (cache_file c)) < 2 ^ 63;
  fo_clean : clean c
}.

(** The file only grew. *)
Record grown (c c' : DiskCache K) : Prop := {
  gr_io : io_only c c';
  gr_ok : file_ok c';
  gr_len : (length (cache_file c) ≤ length (cache_file c'))%nat;
  gr_quiet : faults c = [] → faults c' = []
}.

Lemma grown_refl c : file_ok c → grown c c.
Proof. split; [apply io_only_refl|done|done|done]. Qed.

Lemma grown_trans c1 c2 c3 : grown c1 c2 → grown c2 c3 → grown c1 c3.
Proof. intros [? ? ? ?] [? ? ? ?]. split; [by eapply io_only_trans|done|lia|auto]. Qed.

Definition slot_read (c : DiskCache K) (q : Z) : option bytes :=
  file_read_at (slot_stride c) (q * slot_stride c) (cache_file c).

(** The page in a slot of a plain or encrypted cache, visible or not. *)
Definition slot_page (c : DiskCache K) (q : Z) : option bytes :=
  b ← slot_read c q; decode_slot (cfg c) (page_size c) b.

Lemma stored_slot c p :
  cache_compression (cfg c) = false →
  stored c p = if CacheTracking.is_present (bitmap c) p then slot_page c p else None.
Proof.
  intros Hc. unfold stored, region, cache_is_present, slot_page, slot_read. rewrite Hc. cbn.
  by destruct (CacheTracking.is_present (bitmap c) p).
Qed.

Lemma slot_page_eq c c' q :
  io_only c c' → slot_read c' q = slot_read c q → slot_page c' q = slot_page c q.
Proof. intros Hio Hs. unfold slot_page. rewrite Hs, Hio. done. Qed.

(** A plain cache with the page size of a database. *)
Record plain_ok (c : DiskCache K) : Prop := {
  pl_plain : cache_compression (cfg c) = false;
  pl_ps : 0 < page_size c ≤ 2 ^ 16;
  pl_file : file_ok c
}.

Lemma plain_stride c : plain_ok c → 0 < slot_stride c ≤ 2 ^ 16 + 28.
Proof.
  intros [_ Hps _]. unfold slot_stride, slot_width, GCM_RANDOM_NONCE_OVERHEAD. destruct (encryption_key _); lia.
Qed.

Lemma grown_plain c c' : plain_ok c → grown c c' → plain_ok c'.
Proof. intros [Hc Hps _] [Hio Hf _ _]. split; [by rewrite Hio|by rewrite Hio|done]. Qed.

Lemma ensure_outcome needed c :
  file_ok c → needed < 2 ^ 63 →
  ∃ r c', ensure_file_len needed c = (r, c') ∧ r ≠ Panic ∧ grown c c' ∧ (faults c = [] → r = Ok ()) ∧
    (r = Ok () → needed ≤ Z.of_nat (length (cache_file c'))) ∧
    ∀ n o, 0 ≤ n → 0 ≤ o → o + n ≤ Z.of_nat (length (cache_file c)) →
      file_read_at n o (cache_file c') = file_read_at n o (cache_file c).
Proof.
  intros [Hl Hmax Hc] Hn. unfold ensure_file_len. unfold mbind at 1, M_bind at 1. unfold gets at 1. rewrite Hl.
  destruct (Z.leb_spec needed (Z.of_nat (length (cache_file c)))) as [Hle|Hgt].
  { exists (Ok ()), c. split_and!; try done. by apply grown_refl. }
  destruct (set_len_outcome needed c Hc Hn) as (r & fs & Hfs & Hq & [[-> Hrun]|(e & -> & Hrun)]);
    unfold mbind, M_bind; rewrite Hrun.
  - eexists (Ok ()), _. split; [reflexivity|]. split; [done|].
    match goal with |- grown _ ?x ∧ _ => set (c' := x) end.
    assert (length (cache_file c') = Z.to_nat needed) as Hlen by apply length_file_set_len.
    split; [|split_and!; [done|intros _; lia|]].
    + split; [done|split; [|lia|done]|lia|by intros [_ ?]%Hq]. rewrite Hlen. cbn. lia.
    + intros n o ???. apply read_set_len; lia.
  - exists (Err e), (c <| faults := fs |>). split_and!; try done; [|by intros [? _]%Hq].
    split; [by destruct c|by split|done|by intros [? _]%Hq].
Qed.

(** One write: it succeeds and only its slot changes, or it fails and no
    complete slot changes. *)
Lemma no_visibility_outcome p d c :
  plain_ok c → page_num_ok p → Z.of_nat (length d) = page_size c →
  ∃ r c', write_page_no_visibility_inner nonce p d c = (r, c') ∧ r ≠ Panic ∧ grown c c' ∧
    (faults c = [] → r = Ok ()) ∧ (r = Ok () → slot_page c' p = Some d) ∧
    ∀ q, 0 ≤ q → q ≠ p ∨ r ≠ Ok () → (q + 1) * slot_stride c ≤ Z.of_nat (length (cache_file c)) →
      slot_read c' q = slot_read c q.
Proof.
  intros Hpl [Hp0 Hp] Hd. pose proof (plain_stride _ Hpl) as Hstr. destruct Hpl as [Hc Hps Hf].
  unfold write_page_no_visibility_inner. unfold mbind at 1, M_bind at 1. unfold gets at 1. cbn [compose]. rewrite Hc.
  unfold mbind at 1, M_bind at 1. unfold lift at 1. cbn [guard_err].
  destruct (encrypt_slot_run nonce d c) as (enc & k & Hrun & Hdec & Hlen).
  unfold mbind at 1, M_bind at 1. rewrite Hrun. clear Hrun. set (c1 := c <| draws := k |>).
  assert (Z.of_nat (length enc) = slot_stride c) as Henc by (rewrite Hlen, Hd; done).
  unfold mbind at 1, M_bind at 1. unfold gets at 1. rewrite slot_offset_id by (change (slot_stride c1) with (slot_stride c); nia).
  change (slot_stride c1) with (slot_stride c). rewrite Henc.
  rewrite wrap64_id by (unfold is_u64; nia).
  assert (grown c c1) as Hg1 by (split; [by destruct c|by destruct Hf; split|done|done]).
  destruct (ensure_outcome (p * slot_stride c + slot_stride c) c1) as (r & c2 & Hrun & Hnp & Hg2 & Hq2 & Hlen2 & Hread2);
    [apply Hg1|nia|].
  assert (grown c c2) as Hg by by eapply grown_trans.
  assert (slot_stride c2 = slot_stride c) as Hs2 by (unfold slot_stride; by rewrite (gr_io _ _ Hg)).
  unfold mbind at 1, M_bind at 1. rewrite Hrun.
  assert (∀ q, 0 ≤ q → (q + 1) * slot_stride c ≤ Z.of_nat (length (cache_file c)) → slot_read c2 q = slot_read c q) as Hr2.
  { intros q Hq0 Hqb. unfold slot_read. rewrite Hs2. apply Hread2; [lia|nia|cbn; lia]. }
  destruct r as [[]|e|]; [|exists (Err e), c2; split_and!; try done; auto|done].
  specialize (Hlen2 eq_refl).
  destruct (write_outcome enc (p * slot_stride c) c2) as (r & fs & Hfs & Hq & [[-> Hw]|(e & -> & Hw)]);
    [apply Hg|nia|rewrite Hw..].
  - eexists (Ok ()), _. split; [reflexivity|]. split; [done|]. match goal with |- grown _ ?x ∧ _ => set (c3 := x) end.
    assert (enc ≠ []) as Hne by (intros ->; cbn in Henc; lia).
    assert (length (cache_file c3) = length (cache_file c2)) as Hlen3.
    { unfold c3. cbn. rewrite length_file_write_at by (done || nia). lia. }
    assert (grown c2 c3) as Hg3.
    { split; [by destruct c2|split; [|rewrite Hlen3; apply Hg|done]|lia|].
      - rewrite Hlen3. apply Hg.
      - by intros [_ ?]%Hq. }
    split; [by eapply grown_trans|]. split; [done|]. split.
    + intros _. unfold slot_page, slot_read. change (slot_stride c3) with (slot_stride c2). rewrite Hs2.
      change (cache_file c3) with (file_write_at enc (p * slot_stride c) (cache_file c2)).
      pose proof (read_write_same enc (p * slot_stride c) (cache_file c2) ltac:(nia)) as Hsame.
      rewrite Henc in Hsame. rewrite Hsame. cbn.
      apply decode_plain; rewrite (gr_io _ _ Hg); done.
    + intros q Hq0 [Hne'|] Hqb; [|done]. rewrite <-Hr2 by done. unfold slot_read. change (slot_stride c3) with (slot_stride c2).
      rewrite Hs2. pose proof (gr_len _ _ Hg). apply read_write_disjoint; [nia|nia|lia|lia|].
      assert (p < q ∨ q < p) as [?|?] by lia; [right|left]; nia.
  - exists (Err e), (c2 <| faults := fs |>). split; [done|]. split; [done|].
    assert (grown c2 (c2 <| faults := fs |>)) as Hg3.
    { split; [by destruct c2|split; [apply Hg|apply Hg|done]|done|by intros [_ ?]%Hq]. }
    split; [by eapply grown_trans|]. split; [|split; [done|]].
    + intros Hqc. apply (gr_quiet _ _ Hg) in Hqc. by apply Hq in Hqc as [? _].
    + intros q Hq0 _ Hqb. rewrite <-Hr2 by done. done.
Qed.

(* ------------------------------------------------------------------ *)
(** * The commit loop *)

(** The cache a finalize starts from. *)
Record base_ok (c : DiskCache K) : Prop := {
  ba_ok : cache_ok (quiet c);
  ba_plain : cache_compression (cfg c) = false;
  ba_clean : clean c
}.

Lemma base_plain c : base_ok c → plain_ok c.
Proof. intros [Hok Hc Hcl]. split; [done|apply Hok|]. split; [apply Hok|apply Hok|done]. Qed.

Lemma slot_bound c q b : 0 < slot_stride c → 0 ≤ q → slot_read c q = Some b →
  (q + 1) * slot_stride c ≤ Z.of_nat (length (cache_file c)).
Proof. intros Hs Hq Hb. apply file_read_at_Some in Hb as [Hl _]; nia. Qed.

Lemma zeros_length n : length (zeros n) = n.
Proof. apply length_replicate. Qed.

Lemma read_page_outcome p v c :
  plain_ok c → tainted c = false → page_num_ok p → slot_page c p = Some v →
  (∀ d, mem_slot c p = Some d → d = v) →
  ∃ r fs, read_page p (zeros (Z.to_nat (page_size c))) c = (r, c <| faults := fs |>) ∧ Forall clean_fault fs ∧
    (faults c = [] → r = Ok v ∧ fs = []) ∧ (r = Ok v ∨ ∃ e, r = Err e ∧ e ≠ UnexpectedEof).
Proof.
  intros Hpl Ht [Hp0 Hp] Hv Hm. pose proof (plain_stride _ Hpl) as Hstr. destruct Hpl as [Hc Hps [Hl Hmax Hcl]].
  unfold slot_page in Hv. destruct (slot_read c p) as [b|] eqn:Hb; [cbn in Hv|done].
  unfold decode_slot, decrypt_slot in Hv. rewrite Hc in Hv.
  unfold read_page. unfold mbind at 1, M_bind at 1. rewrite check_tainted_run by done.
  unfold mbind at 1, M_bind at 1. unfold gets at 1. cbn [compose]. rewrite Hc.
  do 2 (unfold mbind at 1, M_bind at 1; unfold gets at 1).
  assert (Z.of_nat (length v) = page_size c) as Hlen.
  { destruct (encryption_key (cfg c)) as [k|]; [destruct (decrypt_gcm_random_nonce b [] k); [|done|done]|]; cbn in Hv;
      match type of Hv with context [Z.of_nat (length ?x) =? _] => destruct (Z.eqb_spec (Z.of_nat (length x)) (page_size c)) end;
      naive_solver. }
  destruct (mem_slot c p) as [page|] eqn:Hmp.
  { exists (Ok v), (faults c). rewrite (Hm page eq_refl). split; [|split; [done|split; [done|by left]]].
    rewrite zeros_length, take_ge by lia. unfold mret, M_ret. rewrite copy_prefix_full by (rewrite zeros_length; lia).
    by destruct c. }
  unfold slot_read, slot_stride, slot_width in *. unfold mbind at 1, M_bind at 1. unfold gets at 1. cbn [compose].
  destruct (encryption_key (cfg c)) as [k|].
  - rewrite wrap64_id by (unfold is_u64; nia). unfold mbind at 1, M_bind at 1.
    destruct (read_outcome (page_size c + GCM_RANDOM_NONCE_OVERHEAD) (p * (page_size c + GCM_RANDOM_NONCE_OVERHEAD)) b c
      Hcl) as (r & fs & Hrun & Hfs & Hq & Hr); [lia|nia|exact Hb|]. rewrite Hrun.
    destruct Hr as [->|(e & -> & He)]; [|exists (Err e), fs; split_and!; try done; [by intros [? _]%Hq|right; by eexists]].
    unfold mbind at 1, M_bind at 1. destruct (decrypt_gcm_random_nonce b [] k) as [d| |]; [|done|done]. cbn in Hv |- *.
    destruct (Z.eqb_spec (Z.of_nat (length d)) (page_size c)) as [Hd|]; [|done]. injection Hv as ->.
    exists (Ok v), fs. split; [|split; [done|split; [by intros [_ ?]%Hq|by left]]].
    unfold mret, M_ret. rewrite zeros_length, take_ge by lia. rewrite copy_prefix_full by (rewrite zeros_length; lia). done.
  - rewrite wrap64_id by (unfold is_u64; nia). rewrite zeros_length, Z2Nat.id by lia.
    cbn in Hv. destruct (Z.eqb_spec (Z.of_nat (length b)) (page_size c)); [|done]. injection Hv as ->.
    by apply read_outcome; [|lia|nia|].
Qed.

(** What holds after some pages have been written over the base. *)
Record commit_inv (c0 : DiskCache K) (new : gmap Z bytes) (pre : list (Z * bytes)) (c : DiskCache K) : Prop := {
  ci_grown : grown c0 c;
  ci_new : ∀ p d, new !! p = Some d → slot_page c p = Some d;
  ci_rest : ∀ q, 0 ≤ q → new !! q = None → cache_is_present c0 q → slot_read c q = slot_read c0 q;
  ci_pre : ∀ q, 0 ≤ q → is_Some (new !! q) → cache_is_present c0 q → q ∈ pre.*1;
  ci_old : Forall (λ x, page_num_ok x.1 ∧ stored c0 x.1 = Some x.2) pre;
  ci_nodup : NoDup pre.*1 ∧ ∀ q, q ∈ pre.*1 → is_Some (new !! q)
}.

Lemma stored_base c p :
  cache_compression (cfg c) = false → cache_is_present c p → stored c p = slot_page c p.
Proof.
  intros Hc Hp. rewrite stored_slot by done. unfold cache_is_present in Hp. rewrite Hc in Hp. cbn in Hp.
  by destruct (CacheTracking.is_present (bitmap c) p).
Qed.

Lemma base_slot c p : base_ok c → 0 ≤ p → cache_is_present c p → ∃ v, slot_page c p = Some v ∧ stored c p = Some v.
Proof.
  intros [Hok Hc _] Hp Hpr. destruct (ok_stored _ Hok p Hp Hpr) as [v Hv]. exists v.
  rewrite <-stored_base by done. done.
Qed.

Lemma pre_image_outcome c0 new pre c p :
  base_ok c0 → commit_inv c0 new pre c → page_num_ok p → new !! p = None →
  ∃ r fs, pre_image (page_size c0) p c = (Ok r, c <| faults := fs |>) ∧ Forall clean_fault fs ∧
    (faults c = [] → fs = [] ∧ r = inr (stored c0 p)) ∧ (r = inr (stored c0 p) ∨ ∃ e, r = inl e).
Proof.
  intros Hb [Hg Hnew Hrest _ _ _] Hp Hn. pose proof (base_plain _ Hb) as Hpl. destruct Hp as [Hp0 Hp].
  pose proof (gr_io _ _ Hg) as Hio.
  unfold pre_image. unfold mbind at 1, M_bind at 1. unfold gets at 1.
  assert (cache_is_present c p = cache_is_present c0 p) as Hpres by (by rewrite Hio).
  rewrite Hpres. destruct (cache_is_present c0 p) eqn:Hp1; cbn [negb].
  2: { exists (inr None), (faults c). rewrite (stored_absent _ _ Hp1). split; [by destruct c|].
       split; [apply Hg|]. split; [done|by left]. }
  destruct (base_slot c0 p Hb Hp0 ltac:(by rewrite Hp1)) as (v & Hv & Hst). rewrite Hst.
  destruct (read_page_outcome p v c) as (r & fs & Hrun & Hfs & Hq & Hr).
  - by eapply grown_plain.
  - rewrite Hio. apply (ok_taint _ (ba_ok _ Hb)).
  - done.
  - rewrite (slot_page_eq c0 c); [done|done|]. apply Hrest; [done|done|by rewrite Hp1].
  - intros d. rewrite Hio. intros Hm. pose proof (ok_mem _ (ba_ok _ Hb) (ba_plain _ Hb) p d Hp0) as Hmem.
    specialize (Hmem ltac:(change (cache_is_present (quiet c0) p) with (cache_is_present c0 p); by rewrite Hp1) Hm).
    change (stored (quiet c0) p) with (stored c0 p) in Hmem. congruence.
  - assert (page_size c = page_size c0) as Hps by (by rewrite Hio). rewrite Hps in Hrun.
    unfold mbind at 1, M_bind at 1, try_io. rewrite Hrun.
    destruct Hr as [->|(e & -> & He)].
    + exists (inr (Some v)), fs. split; [done|]. split; [done|]. split; [by intros [_ ?]%Hq|by left].
    + exists (inl e), fs. split; [by destruct e|]. split; [done|]. split; [by intros [? _]%Hq|right; by eexists].
Qed.

(** A page written on top of the invariant. *)
Lemma commit_inv_step c0 new pre c c' p d pr :
  base_ok c0 → commit_inv c0 new pre c → page_num_ok p → new !! p = None → pr = stored c0 p →
  grown c c' → slot_page c' p = Some d →
  (∀ q, 0 ≤ q → q ≠ p → (q + 1) * slot_stride c ≤ Z.of_nat (length (cache_file c)) → slot_read c' q = slot_read c q) →
  map_Forall (λ q _, 0 ≤ q) new →
  commit_inv c0 (<[p := d]> new) (match pr with Some buf => pre ++ [(p, buf)] | None => pre end) c'.
Proof.
  intros Hb [Hg Hnew Hrest Hpre Hold [Hnd Hin]] Hp Hn -> Hg' Hd Hoth Hnn. pose proof (base_plain _ Hb) as Hpl.
  pose proof (plain_stride _ Hpl) as Hstr.
  assert (slot_stride c = slot_stride c0) as Hs by (unfold slot_stride; by rewrite (gr_io _ _ Hg)).
  assert (p ∉ pre.*1) as Hpp by (intros Hpp%Hin; rewrite Hn in Hpp; by destruct Hpp).
  split.
  - by eapply grown_trans.
  - intros q e. destruct (decide (q = p)) as [->|Hne]; [rewrite lookup_insert_eq; congruence|].
    rewrite lookup_insert_ne by done. intros He. pose proof (Hnew q e He) as Hq.
    rewrite (slot_page_eq c c'); [done|apply Hg'|]. unfold slot_page in Hq.
    destruct (slot_read c q) as [b|] eqn:Hbq; [|done]. rewrite <-Hbq. apply Hoth; [by apply (Hnn q e)|done|].
    eapply slot_bound; [by rewrite Hs; apply Hstr|by apply (Hnn q e)|done].
  - intros q Hq He Hpr. destruct (decide (q = p)) as [->|Hne]; [by rewrite lookup_insert_eq in He|].
    rewrite lookup_insert_ne in He by done. rewrite <-Hrest by done. apply Hoth; [done|done|].
    destruct (base_slot c0 q Hb Hq Hpr) as (v & Hv & _). unfold slot_page in Hv. rewrite <-Hrest in Hv by done.
    destruct (slot_read c q) as [b|] eqn:Hbq; [|done]. eapply slot_bound; [by rewrite Hs; apply Hstr|done|done].
  - intros q Hq Hsome Hpr. destruct (decide (q = p)) as [->|Hne].
    + destruct (base_slot c0 p Hb Hq Hpr) as (v & _ & ->). rewrite fmap_app. apply elem_of_app. right. by left.
    + rewrite lookup_insert_ne in Hsome by done. specialize (Hpre q Hq Hsome Hpr).
      destruct (stored c0 p); [|done]. rewrite fmap_app. apply elem_of_app. by left.
  - destruct (stored c0 p) as [buf|] eqn:Hst; [|done]. apply Forall_app. split; [done|]. constructor; [by split|constructor].
  - destruct (stored c0 p) as [buf|]; rewrite ?fmap_app.
    + split.
      * apply NoDup_app. split; [done|]. split; [|apply NoDup_singleton]. intros q Hq Hq'%list_elem_of_singleton. by subst.
      * intros q [Hq|Hq%list_elem_of_singleton]%elem_of_app.
        -- destruct (decide (q = p)) as [->|]; [rewrite lookup_insert_eq; by eexists|]. rewrite lookup_insert_ne; auto.
        -- cbn in Hq. subst q. rewrite lookup_insert_eq. by eexists.
    + split; [done|]. intros q Hq. destruct (decide (q = p)) as [->|]; [done|]. rewrite lookup_insert_ne; auto.
Qed.

(** A failed attempt at a page keeps the invariant. *)
Lemma commit_inv_frame c0 new pre c c' :
  base_ok c0 → commit_inv c0 new pre c → grown c c' → map_Forall (λ q _, 0 ≤ q) new →
  (∀ q, 0 ≤ q → (q + 1) * slot_stride c ≤ Z.of_nat (length (cache_file c)) → slot_read c' q = slot_read c q) →
  commit_inv c0 new pre c'.
Proof.
  intros Hb [Hg Hnew Hrest Hpre Hold Hnd] Hg' Hnn Hoth. pose proof (plain_stride _ (base_plain _ Hb)) as Hstr.
  assert (slot_stride c = slot_stride c0) as Hs by (unfold slot_stride; by rewrite (gr_io _ _ Hg)).
  split; try done; [by eapply grown_trans| |].
  - intros q e He. pose proof (Hnew q e He) as Hq. rewrite (slot_page_eq c c'); [done|apply Hg'|]. unfold slot_page in Hq.
    destruct (slot_read c q) as [b|] eqn:Hbq; [|done]. rewrite <-Hbq. apply Hoth; [by apply (Hnn q e)|].
    eapply slot_bound; [by rewrite Hs; apply Hstr|by apply (Hnn q e)|done].
  - intros q Hq He Hpr. rewrite <-Hrest by done. apply Hoth; [done|].
    destruct (base_slot c0 q Hb Hq Hpr) as (v & Hv & _). unfold slot_page in Hv. rewrite <-Hrest in Hv by done.
    destruct (slot_read c q) as [b|] eqn:Hbq; [|done]. eapply slot_bound; [by rewrite Hs; apply Hstr|done|done].
Qed.

Lemma write_no_visibility_run p d c :
  tainted c = false → write_page_no_visibility nonce p d c = write_page_no_visibility_inner nonce p d c.
Proof. intros Ht. unfold write_page_no_visibility, mbind, M_bind. by rewrite check_tainted_run. Qed.

Lemma commit_pages_outcome c0 pages new pre c :
  base_ok c0 → commit_inv c0 new pre c → NoDup pages.*1 → well_sized (page_size c0) pages →
  (∀ p, p ∈ pages.*1 → new !! p = None) → map_Forall (λ q _, 0 ≤ q) new →
  ∃ s c', commit_pages nonce (page_size c0) pages pre c = (Ok s, c') ∧
    (faults c = [] → ∃ pre', s = inr pre') ∧
    match s with
    | inr pre' => commit_inv c0 (pages_of pages new) pre' c'
    | inl pre' => ∃ new', commit_inv c0 new' pre' c'
    end.
Proof.
  intros Hb. revert new pre c. induction pages as [|[p d] pages IH]; intros new pre c Hi Hnd Hw Hfresh Hnn.
  { exists (inr pre), c. split_and!; [done|by eexists|done]. }
  rewrite fmap_cons in Hnd. apply NoDup_cons in Hnd as [Hp Hnd].
  unfold well_sized in Hw. apply Forall_cons in Hw as [[Hpn Hd] Hw]. cbn [fst snd] in Hp, Hpn, Hd. cbn [commit_pages]. assert (new !! p = None) as Hnp by (apply Hfresh; by left).
  destruct (pre_image_outcome c0 new pre c p Hb Hi Hpn Hnp) as (r & fs & Hrun & Hfs & Hq & Hr).
  set (c1 := c <| faults := fs |>).
  assert (grown c c1) as Hg1.
  { pose proof (gr_ok _ _ (ci_grown _ _ _ _ Hi)) as Hf. split; [by destruct c|split; [apply Hf|apply Hf|done]|done|].
    by intros [? _]%Hq. }
  assert (commit_inv c0 new pre c1) as Hi1 by (by apply (commit_inv_frame c0 new pre c)).
  unfold mbind at 1, M_bind at 1. rewrite Hrun. destruct Hr as [->|(e & ->)].
  2: { exists (inl pre), c1. split; [done|]. split; [by intros [_ ?]%Hq|]. by exists new. }
  assert (plain_ok c1) as Hpl1 by (eapply grown_plain; [by apply base_plain|apply Hi1]).
  assert (page_size c1 = page_size c0 ∧ tainted c1 = false) as [Hps1 Ht1].
  { rewrite (gr_io _ _ (ci_grown _ _ _ _ Hi1)). split; [done|apply (ok_taint _ (ba_ok _ Hb))]. }
  destruct (no_visibility_outcome p d c1 Hpl1 Hpn) as (r & c2 & Hw2 & Hnpan & Hg2 & Hq2 & Hd2 & Hoth); [by rewrite Hps1|].
  rewrite <-write_no_visibility_run in Hw2 by done. fold c1. unfold mbind at 1, M_bind at 1, try_io at 1.
  rewrite Hw2.
  destruct r as [[]|e|]; [|exists (inl pre), c2; split; [done|]; split|done].
  - destruct (IH (<[p := d]> new) (match stored c0 p with Some buf => pre ++ [(p, buf)] | None => pre end) c2)
      as (s & c' & Hrun' & Hq' & Hs).
    + eapply commit_inv_step; try done; [by apply Hd2|]. intros q Hq0 Hne. apply Hoth; [done|by left].
    + done.
    + done.
    + intros q Hq0. rewrite lookup_insert_ne by (intros ->; done). apply Hfresh. by right.
    + apply map_Forall_insert_2; [apply Hpn|done].
    + exists s, c'. split; [exact Hrun'|]. split; [|exact Hs].
      intros Hqc. apply Hq'. apply (gr_quiet _ _ Hg2). apply (gr_quiet _ _ Hg1). done.
  - intros Hqc. apply (gr_quiet _ _ Hg1) in Hqc. apply Hq2 in Hqc. done.
  - exists new. apply (commit_inv_frame c0 new pre c1); try done. intros q Hq0. apply Hoth; [done|by right].
Qed.

(* ------------------------------------------------------------------ *)
(** * Rollback *)

Lemma rollback_fold_outcome ps l failed c :
  plain_ok c → page_size c = ps → NoDup l.*1 → well_sized ps l →
  ∃ failed' c', fold_m (λ failed x, r ← try_io (write_page_no_visibility_rollback nonce x.1 x.2);
        mret (match r with inl _ => failed ++ [x.1] | inr _ => failed end)) failed l c = (Ok failed', c') ∧
    grown c c' ∧ (∃ more, failed' = failed ++ more) ∧
    (failed' = [] → ∀ q v, (q, v) ∈ l → slot_page c' q = Some v) ∧
    ∀ q, 0 ≤ q → q ∉ l.*1 → (q + 1) * slot_stride c ≤ Z.of_nat (length (cache_file c)) → slot_read c' q = slot_read c q.
Proof.
  intros Hpl Hps. revert failed c Hpl Hps. induction l as [|[p d] l IH]; intros failed c Hpl Hps Hnd Hw.
  { exists failed, c. split; [done|]. split; [apply grown_refl, Hpl|]. split; [exists []; by rewrite app_nil_r|].
    split; [intros _ q v []%not_elem_of_nil|done]. }
  rewrite fmap_cons in Hnd. apply NoDup_cons in Hnd as [Hp Hnd].
  unfold well_sized in Hw. apply Forall_cons in Hw as [[Hpn Hd] Hw]. cbn [fst snd] in Hp, Hpn, Hd. cbn [fold_m].
  destruct (no_visibility_outcome p d c Hpl Hpn) as (r & c1 & Hw1 & Hnpan & Hg1 & _ & Hd1 & Hoth); [by rewrite Hps|].
  assert (plain_ok c1) as Hpl1 by by eapply grown_plain.
  assert (page_size c1 = ps ∧ slot_stride c1 = slot_stride c) as [Hps1 Hs1]
    by (unfold slot_stride; rewrite (gr_io _ _ Hg1); done).
  set (failed1 := match r with Ok _ => failed | _ => failed ++ [p] end).
  assert (∀ (k : list Z → M K (list Z)), (acc ← (r ← try_io (write_page_no_visibility_rollback nonce (p, d).1 (p, d).2);
      mret (match r with inl _ => failed ++ [(p, d).1] | inr _ => failed end)); k acc) c = k failed1 c1) as Hstep.
  { intros k. unfold mbind, M_bind, try_io, write_page_no_visibility_rollback. cbn [fst snd]. rewrite Hw1. by destruct r. }
  rewrite (Hstep (λ acc, fold_m _ acc l)). clear Hstep.
  destruct (IH failed1 c1 Hpl1 Hps1 Hnd Hw) as (failed' & c' & Hrun & Hg & (more & Hmore) & Hok & Hrest).
  exists failed', c'. split; [exact Hrun|]. split; [by eapply grown_trans|].
  assert (∃ more, failed' = failed ++ more) as Hm.
  { rewrite Hmore. unfold failed1. destruct r; [by exists more| |]; exists ([p] ++ more); by rewrite app_assoc. }
  split; [done|]. pose proof (gr_len _ _ Hg1) as Hl1. rewrite Hs1 in Hrest. split.
  - intros Hnil. assert (r = Ok ()) as ->.
    { rewrite Hnil in Hmore. symmetry in Hmore. apply app_nil in Hmore as [Hf _]. unfold failed1 in Hf.
      destruct r as [[]| |]; [done| |]; by apply app_nil in Hf as [_ ?]. }
    intros q v [[= -> ->]|Hin]%elem_of_cons; [|by apply Hok]. specialize (Hd1 eq_refl).
    rewrite (slot_page_eq c1 c'); [done|apply Hg|]. unfold slot_page in Hd1.
    destruct (slot_read c1 p) as [b|] eqn:Hb; [|done]. rewrite <-Hb. apply Hrest; [apply Hpn|done|].
    pose proof (plain_stride _ Hpl). rewrite <-Hs1. eapply slot_bound; [rewrite Hs1; lia|apply Hpn|done].
  - intros q Hq Hql Hqb. cbn [fmap list_fmap fst] in Hql. apply not_elem_of_cons in Hql as [Hqp Hql].
    rewrite Hrest by (done || lia). apply Hoth; [done|by left|done].
Qed.

(** A rollback that restored every pre-image restored the cache. *)
Lemma rollback_restores c0 new pre c :
  base_ok c0 → commit_inv c0 new pre c →
  ∃ failed c', rollback_pre_images nonce pre c = (Ok failed, c') ∧ grown c0 c' ∧
    (failed = [] → ∀ q, 0 ≤ q → cache_is_present c0 q → slot_page c' q = stored c0 q).
Proof.
  intros Hb Hi. pose proof Hi as [Hg Hnew Hrest Hpre Hold [Hnd Hin]]. pose proof (base_plain _ Hb) as Hpl.
  pose proof (plain_stride _ Hpl) as Hstr.
  assert (plain_ok c) as Hplc by (by eapply grown_plain).
  assert (page_size c = page_size c0 ∧ slot_stride c = slot_stride c0) as [Hps Hs]
    by (unfold slot_stride; rewrite (gr_io _ _ Hg); done).
  destruct (rollback_fold_outcome (page_size c0) (reverse pre) [] c Hplc Hps) as (failed & c' & Hrun & Hg' & _ & Hok & Hoth).
  - by rewrite fmap_reverse, reverse_Permutation.
  - unfold well_sized. rewrite Forall_reverse. eapply Forall_impl; [exact Hold|]. intros [q v] [Hq Hv]. cbn in *.
    split; [done|]. by eapply stored_length.
  - exists failed, c'. split; [exact Hrun|]. split; [by eapply grown_trans|].
    intros Hnil q Hq Hpr. destruct (decide (q ∈ pre.*1)) as [Hqp|Hqp].
    + apply list_elem_of_fmap in Hqp as ([q' v] & -> & Hqv). rewrite Forall_forall in Hold. destruct (Hold _ Hqv) as [_ Hv].
      cbn in Hv |- *. rewrite Hv. apply Hok; [done|by apply elem_of_reverse].
    + assert (new !! q = None) as Hn.
      { destruct (new !! q) eqn:Hn; [|done]. exfalso. apply Hqp, Hpre; try done. }
      destruct (base_slot c0 q Hb Hq Hpr) as (v & Hv & ->). rewrite <-Hv.
      rewrite (slot_page_eq c0 c'); [done|eapply io_only_trans; [apply Hg|apply Hg']|]. rewrite <-Hrest by done.
      unfold slot_page in Hv. rewrite <-Hrest in Hv by done. destruct (slot_read c q) as [b|] eqn:Hbq; [|done].
      rewrite <-Hbq. apply Hoth; [done|by rewrite fmap_reverse, elem_of_reverse|].
      eapply slot_bound; [by rewrite Hs; apply Hstr|done|done].
Qed.

Lemma restored c0 c' :
  base_ok c0 → grown c0 c' → (∀ q, 0 ≤ q → cache_is_present c0 q → slot_page c' q = stored c0 q) →
  cache_ok (quiet c') ∧ ∀ p, 0 ≤ p → stored c' p = stored c0 p.
Proof.
  intros Hb Hg Hs. pose proof (gr_io _ _ Hg) as Hio. destruct Hb as [Hok Hc Hcl].
  assert (∀ p, cache_is_present c' p = cache_is_present c0 p) as Hpres by (intros p; by rewrite Hio).
  assert (∀ p, 0 ≤ p → stored c' p = stored c0 p) as Hst.
  { intros p Hp. destruct (cache_is_present c0 p) eqn:Hpr.
    - rewrite stored_base; [apply Hs; [done|by rewrite Hpr]|by rewrite Hio|by rewrite Hpres, Hpr].
    - rewrite !stored_absent; [done|done|by rewrite Hpres]. }
  split; [|done]. pose proof (gr_ok _ _ Hg) as [Hl Hmax _].
  destruct Hok. split; try done; try (rewrite Hio; done).
  - rewrite Hio. cbn. by rewrite Hc.
  - intros p Hp. change (cache_is_present (quiet c') p) with (cache_is_present c' p).
    change (stored (quiet c') p) with (stored c' p). rewrite Hpres, Hst by done. by apply ok_stored.
  - intros _ p d Hp. change (cache_is_present (quiet c') p) with (cache_is_present c' p).
    change (stored (quiet c') p) with (stored c' p). change (mem_slot (quiet c') p) with (mem_slot c' p).
    rewrite Hpres, Hst by done. rewrite Hio. by apply ok_mem.
Qed.

(* ------------------------------------------------------------------ *)
(** * The pages become visible *)

(** Everything but the bitmap, the in-memory copies and the group states is kept. *)
Definition marked (c c' : DiskCache K) : Prop :=
  c' = c <| bitmap := bitmap c' |> <| mem_cache := mem_cache c' |> <| mem_cache_bytes := mem_cache_bytes c' |>
         <| group_states := group_states c' |>.

Lemma set_present_only ppg pages c : only_states c (foldl (λ c p, set_group_state (p / ppg) Present c) c pages).
Proof.
  revert c. induction pages as [|p pages IH]; intros c; [apply only_states_refl|]. cbn.
  eapply only_states_trans; [apply only_states_set|apply IH].
Qed.

Lemma ensure_mark_spec b last pages q :
  Forall (λ p, 0 ≤ p ≤ last) pages → 0 ≤ q → 0 ≤ last →
  CacheTracking.is_present (foldl mark_present (ensure_capacity b last) pages) q ↔
  CacheTracking.is_present b q ∨ q ∈ pages.
Proof.
  intros Hp Hq Hl. assert (ensure_capacity b last = reserve_bits last b) as ->.
  { unfold reserve_bits. destruct (Z.ltb_spec (Z.of_nat (length (bits b))) (last / 8 + 1)); [done|].
    unfold ensure_capacity, grow_to. destruct b as [l]. cbn in *. f_equal.
    replace (_ - _)%nat with 0%nat by lia. by rewrite app_nil_r. }
  by apply reserve_mark_spec.
Qed.

Lemma mark_fold_length b l : length (bits (foldl mark_present b l)) = length (bits b).
Proof.
  revert b. induction l as [|p l IH]; intros b; [done|]. cbn. rewrite IH. unfold mark_present. by rewrite update_byte_length.
Qed.

Lemma mark_pages_present_run pages c :
  Forall (λ p, 0 ≤ p) pages →
  ∃ c', mark_pages_present pages c = (Ok (), c') ∧ marked c c' ∧ mem_cache c' = mem_cache c ∧
    (∀ q, 0 ≤ q → CacheTracking.is_present (bitmap c') q ↔ CacheTracking.is_present (bitmap c) q ∨ q ∈ pages) ∧
    bit_capacity (bitmap c') ≤ Z.max (bit_capacity (bitmap c)) (max_page pages + 8).
Proof.
  intros Hp. unfold mark_pages_present. case_bool_decide as Hne.
  { exists c. split; [done|]. split; [unfold marked; by destruct c|]. split; [done|]. subst.
    split; [|lia]. intros q _. split; [by left|]. by intros [?|?%not_elem_of_nil]. }
  destruct (max_page_bounds pages Hp) as (Hm0 & Hm & _).
  unfold mbind at 1, M_bind at 1. unfold modify at 1. unfold mbind at 1, M_bind at 1. unfold mark_pages, modify at 1.
  unfold mbind at 1, M_bind at 1. unfold gets at 1. set (c1 := c <| bitmap ::= _ |> <| bitmap ::= _ |>).
  assert (∀ q, 0 ≤ q → CacheTracking.is_present (bitmap c1) q ↔ CacheTracking.is_present (bitmap c) q ∨ q ∈ pages) as Hb
    by (intros q Hq; by apply ensure_mark_spec).
  assert (bit_capacity (bitmap c1) ≤ Z.max (bit_capacity (bitmap c)) (max_page pages + 8)) as Hcap.
  { unfold bit_capacity, c1. cbn. rewrite mark_fold_length. cbn. rewrite length_grow_to.
    pose proof (Z.div_mod (max_page pages) 8 ltac:(lia)). pose proof (Z.mod_pos_bound (max_page pages) 8 ltac:(lia)). lia. }
  destruct (_ =? 0); [exists c1; by split_and!|].
  unfold mbind at 1, M_bind at 1. unfold ensure_group_capacity, modify at 1. unfold modify.
  match goal with |- context [foldl ?f ?x pages] => set (c2 := x) end.
  pose proof (set_present_only (pages_per_group (cfg c1)) pages c2) as Hs. eexists. split; [reflexivity|].
  cbn [compose]. rewrite Hs. by split_and!.
Qed.

(** Dropping the in-memory copies and marking the pages. *)
Definition publish_pages (pages : list Z) : M K () := _ ← clear_pages_from_mem_cache pages; mark_pages_present pages.

Lemma publish_pages_run c0 new pre c pages :
  base_ok c0 → commit_inv c0 new pre c →
  map_Forall (λ p d, page_num_ok p ∧ Z.of_nat (length d) = page_size c0) new →
  (∀ q, q ∈ pages ↔ is_Some (new !! q)) →
  ∃ c', publish_pages pages c = (Ok (), c') ∧ written new (quiet c0) (quiet c') ∧ faults c' = faults c ∧
    generation c' = generation c0 ∧ bit_capacity (bitmap c') ≤ Z.max (bit_capacity (bitmap c0)) (max_page pages + 8).
Proof.
  intros Hb [Hg Hnew Hrest _ _ _] Hsz Hpages. pose proof (gr_io _ _ Hg) as Hio. pose proof Hb as [Hok Hc Hcl].
  unfold publish_pages, mbind, M_bind. rewrite clear_mem_run by (rewrite Hio; apply Hok).
  destruct (drop_slots_spec pages c) as [(m & mb & Hdrop) Hmem]. rewrite Hdrop in Hmem |- *. clear Hdrop.
  set (c1 := c <| mem_cache := m |> <| mem_cache_bytes := mb |>) in *.
  destruct (mark_pages_present_run pages c1) as (c2 & Hrun & Hmk & Hmc & Hbits & Hcap).
  { apply Forall_forall. intros q Hq. apply Hpages in Hq as [d Hd]. by apply (Hsz q d) in Hd as [[? _] _]. }
  exists c2. split; [exact Hrun|]. assert (bitmap c1 = bitmap c0) as Hb1 by (unfold c1; rewrite Hio; done).
  rewrite Hb1 in Hcap. split; [|split; [by rewrite Hmk|split; [|done]]].
  2: { rewrite Hmk. change (generation c = generation c0). by rewrite Hio. }
  assert (c2 = c <| bitmap := bitmap c2 |> <| mem_cache := mem_cache c2 |> <| mem_cache_bytes := mem_cache_bytes c2 |>
    <| group_states := group_states c2 |>) as Hc2 by exact Hmk.
  pose proof (gr_ok _ _ Hg) as [Hl Hmax _].
  assert (∀ q, slot_read c2 q = slot_read c q) as Hsr by (intros q; by rewrite Hc2).
  assert (slot_stride c2 = slot_stride c0) as Hs2 by (unfold slot_stride; rewrite Hc2, Hio; done).
  apply written_plain; try done; try (rewrite Hc2, Hio; done).
  - cbn. rewrite Hc2, Hio. apply (ok_taint _ Hok).
  - intros q Hq. change (bitmap (quiet c2)) with (bitmap c2). rewrite Hbits, Hpages by done.
    assert (bitmap c1 = bitmap (quiet c0)) as -> by (unfold c1; rewrite Hio; done). done.
  - intros p d Hp Hd. destruct (Hsz p d Hd) as [_ Hlen]. split; [done|]. specialize (Hnew p d Hd).
    unfold slot_page in Hnew. rewrite <-Hsr in Hnew. unfold slot_read in Hnew. rewrite Hs2 in Hnew.
    destruct (file_read_at _ _ (cache_file c2)) as [b|] eqn:Hbr; [cbn in Hnew|done]. exists b. split; [exact Hbr|].
    assert (decode_slot (cfg c0) (page_size c0) b = Some d) as Hdec by (rewrite <-Hnew, Hio; done).
    unfold decode_slot in Hdec. change (cfg (quiet c0)) with (cfg c0).
    destruct (decrypt_slot (cfg c0) b) as [d'|]; [cbn in Hdec|done]. rewrite Hc in Hdec. cbn in Hdec.
    destruct (_ =? _); [done|done].
  - intros p Hp Hn Hpr. change (slot_stride (quiet c0)) with (slot_stride c0).
    specialize (Hrest p Hp Hn Hpr). rewrite <-Hsr in Hrest. unfold slot_read in Hrest. by rewrite Hs2 in Hrest.
  - intros p d Hp Hm. change (mem_slot (quiet c2) p) with (mem_slot c2 p) in Hm.
    assert (mem_slot c2 p = mem_slot c1 p) as Hm12 by (unfold mem_slot; by rewrite Hmc).
    rewrite Hm12, Hmem in Hm. case_decide as Hpp; [done|]. destruct (new !! p) eqn:Hn.
    + exfalso. apply Hpp, Hpages. by rewrite Hn.
    + change (mem_slot (quiet c0) p) with (mem_slot c0 p). rewrite <-Hm, Hio. done.
Qed.
End replay_commit.
