(* ===== verification/ReplaySafety.v ===== *)
(** The finalize of a replay (Replay.v) as a whole: when nothing fails it
    publishes the pages, the manifest and the log together; whatever fails, the
    shared state is as before with no log left, or the cache refuses to serve
    and the log waits for the restart. *)

From S2P Require Import Prelude Keys Staging Manifest Replay ReplayPages.
From S2P Require Import CacheTracking LocalState Compress File DiskCache CacheView CacheWrite CacheSafety ReplayCommit.

Section replay_safety.
Context `{HashIter} `{Compression} `{Aead K} (nonce : Z → bytes) `{!CacheLaws nonce}.
Variable to_vec : LocalState → option bytes.
Variable from_slice : bytes → option LocalState.
Variable encode_manifest : Manifest → option bytes.
Implicit Types (c : DiskCache K) (w : ReplayContext K).

Lemma view_quiet c p : view c p = view (quiet c) p.
Proof. done. Qed.

Lemma staged_well_sized h ps :
  handle_ok h → rh_page_size h = ps → well_sized ps (staged_pages h) ∧
  map_Forall (λ p d, page_num_ok p ∧ Z.of_nat (length d) = ps) (staged h).
Proof.
  intros [_ Hp Hm] <-. assert (map_Forall (λ p d, page_num_ok p ∧ Z.of_nat (length d) = rh_page_size h) (staged h)) as Hs.
  { intros p d Hd. specialize (Hp p d Hd). cbn in Hp. unfold page_num_ok. split; [lia|apply Hp]. }
  split; [|done]. apply Forall_forall. intros [p d] Hd%elem_of_staged. by apply (Hs p d).
Qed.

Lemma elem_of_staged_nums h q : q ∈ (staged_pages h).*1 ↔ is_Some (staged h !! q).
Proof.
  rewrite list_elem_of_fmap. split.
  - intros ([p d] & -> & Hd%elem_of_staged). by eexists.
  - intros [d Hd]. exists (q, d). split; [done|]. by apply elem_of_staged.
Qed.

Lemma commit_inv_nil c : base_ok c → commit_inv c ∅ [] c.
Proof.
  intros Hb. split.
  - apply grown_refl, (base_plain _ Hb).
  - intros p d. by rewrite lookup_empty.
  - done.
  - intros q _. rewrite lookup_empty. by intros [? ?].
  - constructor.
  - split; [apply NoDup_nil_2|]. intros q []%not_elem_of_nil.
Qed.

(** The write loop over the staged pages. *)
Lemma commit_staged_outcome h c :
  base_ok c → handle_ok h → rh_page_size h = page_size c →
  ∃ s c', commit_pages nonce (rh_page_size h) (staged_pages h) [] c = (Ok s, c') ∧
    (faults c = [] → ∃ pre, s = inr pre) ∧
    match s with
    | inr pre => commit_inv c (staged h) pre c'
    | inl pre => ∃ new, commit_inv c new pre c'
    end.
Proof.
  intros Hb Hh Hps. destruct (staged_well_sized h _ Hh Hps) as [Hw _]. rewrite Hps.
  destruct (commit_pages_outcome nonce c (staged_pages h) ∅ [] c) as (s & c' & Hs); try done.
  - by apply commit_inv_nil.
  - apply NoDup_staged.
  - exists s, c'. by rewrite pages_of_staged in Hs.
Qed.

(** The failure branch: restored and clean, or tainted. *)
Lemma failure_outcome c0 new pre c :
  base_ok c0 → commit_inv c0 new pre c →
  ∃ removed c', handle_commit_phase_failure nonce pre c = (Ok removed, c') ∧
    (removed = true → cache_ok (quiet c') ∧ ∀ p, 0 ≤ p → stored c' p = stored c0 p) ∧
    (removed = false → tainted c' = true).
Proof.
  intros Hb Hi. destruct (rollback_restores nonce c0 new pre c Hb Hi) as (failed & c1 & Hrun & Hg & Hs).
  unfold handle_commit_phase_failure, mbind, M_bind. rewrite Hrun. case_bool_decide as Hf.
  - exists true, c1. split; [done|]. split; [|done]. intros _. apply restored; auto.
  - eexists false, _. split; [reflexivity|]. by split.
Qed.

Inductive phase_result (h : ReplayHandle) (c0 : DiskCache K) (o : commit_outcome) (c' : DiskCache K) : Prop :=
  | phase_committed : o = Committed → written (staged h) (quiet c0) (quiet c') → phase_result h c0 o c'
  | phase_rolled_back : o = RolledBack → cache_ok (quiet c') →
      (∀ p, 0 ≤ p → stored c' p = stored c0 p) → phase_result h c0 o c'
  | phase_tainted : o = CacheTainted → tainted c' = true → phase_result h c0 o c'.

Lemma written_same_store (new : gmap Z bytes) c c1 c2 : written new c c1 → same_store c1 c2 → written new c c2.
Proof.
  intros [Hok Hcfg Hps Hst] Hs. pose proof Hs as (Hcf & Hp & _). split; [by eapply same_store_ok|congruence|congruence|].
  intros p Hp0. rewrite (same_store_stored c1 c2) by done. auto.
Qed.

Lemma commit_phase_outcome h c :
  base_ok c → handle_ok h → rh_page_size h = page_size c →
  ∃ o c', commit_phase nonce (rh_page_size h) (staged_pages h) None c = (Ok o, c') ∧ phase_result h c o c'.
Proof.
  intros Hb Hh Hps. destruct (commit_staged_outcome h c Hb Hh Hps) as (s & c1 & Hrun & _ & Hs).
  unfold commit_phase. unfold mbind at 1, M_bind at 1. rewrite Hrun. destruct s as [pre|pre].
  - destruct Hs as [new Hi]. destruct (failure_outcome c new pre c1 Hb Hi) as (removed & c2 & Hrun2 & Hr & Ht).
    unfold mbind, M_bind. rewrite Hrun2. destruct removed.
    + exists RolledBack, c2. split; [done|]. destruct (Hr eq_refl). by apply phase_rolled_back.
    + exists CacheTainted, c2. split; [done|]. by apply phase_tainted; [|apply Ht].
  - destruct (staged_well_sized h _ Hh Hps) as [_ Hsz].
    destruct (publish_pages_run c (staged h) pre c1 (staged_pages h).*1 Hb Hs Hsz) as (c2 & Hrun2 & Hw & _);
      [apply elem_of_staged_nums|].
    unfold publish_pages, mbind, M_bind in Hrun2. unfold mbind, M_bind.
    destruct (clear_pages_from_mem_cache _ c1) as [[[]| |] c1'] eqn:Hcl; [|done|done].
    rewrite Hrun2. eexists Committed, _. split; [reflexivity|]. apply phase_committed; [done|].
    by eapply written_same_store; [exact Hw|repeat split].
Qed.

(** When nothing fails, also with a shrink. *)
Lemma commit_phase_success h c shrink :
  base_ok c → faults c = [] → handle_ok h → rh_page_size h = page_size c →
  (∀ n, shrink = Some n → max_sqlite_page_id h ≤ n ≤ 2 ^ 46) → bit_capacity (bitmap c) < 2 ^ 63 →
  ∃ c', commit_phase nonce (rh_page_size h) (staged_pages h) shrink c = (Ok Committed, c') ∧ cache_ok c' ∧
    generation c' = wrap64 (generation c + 1) ∧
    ∀ p, 0 ≤ p → stored c' p = match staged h !! p with
      | Some d => Some d
      | None => match shrink with
                | Some n => if decide (n ≤ p) then None else stored c p
                | None => stored c p
                end
      end.
Proof.
  intros Hb Hq Hh Hps Hsh Hcap. destruct (commit_staged_outcome h c Hb Hh Hps) as (s & c1 & Hrun & Hsucc & Hs).
  destruct (Hsucc Hq) as [pre ->].
  destruct (staged_well_sized h _ Hh Hps) as [Hw Hsz].
  destruct (publish_pages_run c (staged h) pre c1 (staged_pages h).*1 Hb Hs Hsz)
    as (c2 & Hrun2 & [Hok2 Hcfg2 Hps2 Hst2] & Hf2 & Hg2 & Hcap2); [apply elem_of_staged_nums|].
  assert (faults c2 = []) as Hq2 by (rewrite Hf2; by apply (gr_quiet _ _ (ci_grown _ _ _ _ Hs))).
  rewrite (quiet_id c2 Hq2) in *. rewrite (quiet_id c Hq) in *.
  assert (bit_capacity (bitmap c2) < 2 ^ 63) as Hcap3.
  { assert (max_page (staged_pages h).*1 < 2 ^ 46); [|lia].
    destruct (max_page_bounds (staged_pages h).*1) as (_ & _ & Hm).
    - apply Forall_fmap. eapply Forall_impl; [exact Hw|]. intros x [[? _] _]. done.
    - apply Hm, Forall_fmap. eapply Forall_impl; [exact Hw|]. by intros x [? _]. }
  unfold commit_phase. unfold mbind at 1, M_bind at 1. rewrite Hrun.
  unfold publish_pages, mbind, M_bind in Hrun2. unfold mbind, M_bind.
  destruct (clear_pages_from_mem_cache _ c1) as [[[]| |] c1'] eqn:Hcl; [|done|done]. rewrite Hrun2.
  destruct shrink as [n|].
  - specialize (Hsh n eq_refl). pose proof (ho_max _ Hh) as Hmax. rewrite Hps, <-Hps2.
    destruct (truncate_run n c2 Hok2) as (c3 & Hrun3 & Hok3 & _ & Hg3 & Hst3); [by rewrite Hcfg2; apply Hb|lia|done|].
    rewrite Hrun3. eexists. split; [reflexivity|]. set (c4 := c3 <| generation ::= _ |>).
    assert (same_store c3 c4) as Hss by (by repeat split).
    split; [by eapply same_store_ok|]. split; [unfold c4; cbn; by rewrite Hg3, Hg2|].
    intros p Hp. rewrite (same_store_stored c3 c4), Hst3, Hst2 by done.
    destruct (staged h !! p) as [d|] eqn:Hd; [|done]. apply (ho_pages _ Hh) in Hd as [Hd _]. by rewrite decide_False by lia.
  - eexists. split; [reflexivity|]. set (c4 := c2 <| generation ::= _ |>).
    assert (same_store c2 c4) as Hss by (by repeat split).
    split; [by eapply same_store_ok|]. split; [unfold c4; cbn; by rewrite Hg2|].
    intros p Hp. by rewrite (same_store_stored c2 c4), Hst2.
Qed.

(* ------------------------------------------------------------------ *)
(** * Finalize *)

(** The finalize has something to do, and its arguments are consistent. *)
Record finalize_ready (h : ReplayHandle) (w : ReplayContext K) (n : Z) : Prop := {
  fr_handle : handle_ok h;
  fr_open : consumed h = false;
  fr_ps : rh_page_size h = page_size (ctx_cache w);
  fr_target : n = target_count h (shared_manifest w);
  fr_covers : max_sqlite_page_id h ≤ n;
  fr_work : staged h ≠ ∅ ∨ n ≠ Manifest.page_count (shared_manifest w)
}.

(** All of it is visible: pages, manifest, page count, and the queued log. *)
Record published (h : ReplayHandle) (n : Z) (w w' : ReplayContext K) : Prop := {
  pu_ok : cache_ok (quiet (ctx_cache w'));
  pu_view : ∀ p, 0 ≤ p → view (ctx_cache w') p = match staged h !! p with
    | Some d => Some d
    | None => if decide (n ≤ p ∧ n < Manifest.page_count (shared_manifest w)) then None else view (ctx_cache w) p
    end;
  pu_manifest : shared_manifest w' = post_manifest h (shared_manifest w) n;
  pu_count : vfs_page_count w' = n;
  pu_pending : pending_flushes w' = pending_flushes w ++
    [{| staging_path := log_path (staging_seq w); pf_version := staging_seq w; pf_page_size := rh_page_size h |}];
  pu_log : ∃ b, staging_log_bytes encode_manifest h (shared_manifest w') = Ok b ∧
    ctx_logs w' !! log_path (staging_seq w) = Some b
}.

(** Nothing a reader, a flush or a restart can see has changed. *)
Record untouched (w w' : ReplayContext K) : Prop := {
  un_ok : cache_ok (quiet (ctx_cache w'));
  un_view : ∀ p, 0 ≤ p → view (ctx_cache w') p = view (ctx_cache w) p;
  un_manifest : shared_manifest w' = shared_manifest w;
  un_count : vfs_page_count w' = vfs_page_count w;
  un_pending : pending_flushes w' = pending_flushes w;
  un_logs : ctx_logs w' = ctx_logs w ∨ ctx_logs w' = delete (log_path (staging_seq w)) (ctx_logs w)
}.

(** The cache refuses to serve, and the log is there for the restart. *)
Record tainted_with_log (h : ReplayHandle) (n : Z) (w w' : ReplayContext K) : Prop := {
  ta_reads : ∀ p buf, (read_page p buf (ctx_cache w')).1 = Err OtherKind;
  ta_manifest : shared_manifest w' = shared_manifest w;
  ta_count : vfs_page_count w' = vfs_page_count w;
  ta_pending : pending_flushes w' = pending_flushes w;
  ta_log : ∃ b, staging_log_bytes encode_manifest h (post_manifest h (shared_manifest w) n) = Ok b ∧
    ctx_logs w' !! log_path (staging_seq w) = Some b
}.

Lemma untouched_same w w' :
  cache_ok (quiet (ctx_cache w)) → ctx_cache w' = ctx_cache w → shared_manifest w' = shared_manifest w →
  vfs_page_count w' = vfs_page_count w → pending_flushes w' = pending_flushes w →
  ctx_logs w' = ctx_logs w ∨ ctx_logs w' = delete (log_path (staging_seq w)) (ctx_logs w) → untouched w w'.
Proof. intros Hok Hc Hm Hn Hp Hl. split; try done; by rewrite Hc. Qed.

Lemma persist_cache_only (fail : option (persist_step * io_kind)) c :
  ∃ r c', persist_bitmap to_vec from_slice fail c = (r, c') ∧ same_store c c'.
Proof.
  unfold persist_bitmap. destruct (update _ _ _ _ _) as [r f]. exists r, (c <| state_file := f |>). split; [done|].
  by repeat split.
Qed.

Lemma tainted_reads c p buf : tainted c = true → (read_page p buf c).1 = Err OtherKind.
Proof. intros Ht. unfold read_page, check_tainted, mbind, M_bind, gets, lift. by rewrite Ht. Qed.

Lemma write_staging_log_cases fail h m v logs :
  (∃ b, staging_log_bytes encode_manifest h m = Ok b ∧ fail = None ∧
     write_staging_log encode_manifest fail h m v logs = (Ok (log_path v), <[log_path v := b]> logs)) ∨
  (∃ e, write_staging_log encode_manifest fail h m v logs = (Err e, delete (log_path v) logs) ∧
     (fail = None → encode_manifest m = None)).
Proof.
  unfold write_staging_log, staging_log_bytes. destruct (encode_manifest m) as [t|]; cbn.
  - destruct fail as [e|]; [right; by exists e|left]. eexists. by split_and!.
  - right. by eexists.
Qed.

(** The queued flush of a finalize. *)
Definition flush_of (h : ReplayHandle) (w : ReplayContext K) : PendingFlush :=
  {| staging_path := log_path (staging_seq w); pf_version := staging_seq w; pf_page_size := rh_page_size h |}.

(** The state in which the commit phase starts. *)
Definition logged (w : ReplayContext K) (b : bytes) : ReplayContext K :=
  w <| staging_seq ::= λ s, wrap64 (s + 1) |> <| ctx_logs := <[log_path (staging_seq w) := b]> (ctx_logs w) |>.

Lemma finalize_cases log_fail state_fail h w n :
  finalize_ready h w n →
  let post := post_manifest h (shared_manifest w) n in
  (∃ b, staging_log_bytes encode_manifest h post = Ok b ∧ log_fail = None ∧
     finalize_replay nonce to_vec from_slice encode_manifest log_fail state_fail h w =
     commit_replay nonce to_vec from_slice state_fail
       {| installed_pages_in_this_cycle := dom (staged h); new_page_count := n |} h post (flush_of h w) (logged w b)) ∨
  (∃ e, finalize_replay nonce to_vec from_slice encode_manifest log_fail state_fail h w =
     (Err e, w <| staging_seq ::= λ s, wrap64 (s + 1) |> <| ctx_logs ::= delete (log_path (staging_seq w)) |>) ∧
     (log_fail = None → encode_manifest post = None)).
Proof.
  intros [Hh Hopen Hps Hn Hcov Hwork]. unfold finalize_replay, check_not_consumed, guard_err. rewrite Hopen.
  cbn zeta. rewrite <-Hn. destruct (Z.ltb_spec n (max_sqlite_page_id h)); [lia|].
  assert (bool_decide (staged h = ∅) && (n =? Manifest.page_count (shared_manifest w)) = false) as Hnw.
  { destruct Hwork as [?|?]; [by rewrite bool_decide_false|]. rewrite (proj2 (Z.eqb_neq _ _)) by done. apply andb_false_r. }
  rewrite Hnw. set (post := post_manifest h (shared_manifest w) n).
  destruct (write_staging_log_cases log_fail h post (staging_seq w) (ctx_logs w)) as [(b & Hbytes & Hnone & Hlog)|(e & Hlog & Henc)];
    rewrite Hlog; [left; by exists b|right; by exists e].
Qed.

(** Publishing after the pages are in the cache [c1]. *)
Lemma publish_outcome state_fail h w n b c1 :
  staging_log_bytes encode_manifest h (post_manifest h (shared_manifest w) n) = Ok b →
  cache_ok (quiet c1) →
  (∀ p, 0 ≤ p → stored c1 p = match staged h !! p with
    | Some d => Some d
    | None => if decide (n ≤ p ∧ n < Manifest.page_count (shared_manifest w)) then None else view (ctx_cache w) p
    end) →
  ∃ saved c2 w', persist_bitmap to_vec from_slice state_fail c1 = (saved, c2) ∧
    publish_replay to_vec from_slice state_fail
      {| installed_pages_in_this_cycle := dom (staged h); new_page_count := n |}
      (post_manifest h (shared_manifest w) n) (flush_of h w)
      (logged w b <| replay_epoch ::= λ e, wrap64 (e + 1) |> <| ctx_cache := c1 |>) =
      (_ ← saved; Ok {| installed_pages_in_this_cycle := dom (staged h); new_page_count := n |}, w') ∧
    published h n w w'.
Proof.
  intros Hbytes Hok Hst. destruct (persist_cache_only state_fail c1) as (saved & c2 & Hp & Hs).
  eexists saved, c2, _. split; [done|]. unfold publish_replay.
  change (ctx_cache (_ <| pending_flushes ::= _ |>)) with c1. rewrite Hp. split; [reflexivity|].
  assert (same_store (quiet c1) (quiet c2)) as Hs'.
  { destruct Hs as (? & ? & ? & ? & ? & ? & ? & ? & ? & ?). by repeat split. }
  assert (cache_ok (quiet c2)) as Hok2 by by eapply same_store_ok.
  split; try done.
  - intros p Hp0. match goal with |- view ?x _ = _ => change x with c2 end. rewrite view_quiet, view_stored by done.
    rewrite (same_store_stored (quiet c1) (quiet c2)) by done. by apply Hst.
  - exists b. split; [done|]. cbn. by rewrite lookup_insert_eq.
Qed.

(** C8. A finalize does not end half-way, in an uncompressed cache, when the
    replay does not shrink the database and a system call that fails has written
    nothing: whichever calls on the log, the cache file or the state file fail,
    either everything is published (pages, manifest, page count and the queued
    log), or nothing a reader, a flush or a restart sees has changed, or the cache
    is tainted, so that every read fails, and the log is kept for the restart.
    Torn writes and shrinking replays do worse ([torn_page_survives_rollback],
    [failed_truncation_publishes_pages]). *)
Theorem finalize_all_or_nothing log_fail state_fail h w n :
  finalize_ready h w n → Manifest.page_count (shared_manifest w) ≤ n → base_ok (ctx_cache w) →
  let '(r, w') := finalize_replay nonce to_vec from_slice encode_manifest log_fail state_fail h w in
  published h n w w' ∨ (untouched w w' ∧ ∃ e, r = Err e) ∨ (tainted_with_log h n w w' ∧ ∃ e, r = Err e).
Proof.
  intros Hready Hgrow Hb. pose proof Hready as [Hh Hopen Hps Hn Hcov Hwork].
  destruct (finalize_cases log_fail state_fail h w n Hready) as [(b & Hbytes & _ & Hrun)|(e & Hrun & _)]; rewrite Hrun; clear Hrun.
  2: { right. left. split; [|by eexists]. apply untouched_same; try done; [apply Hb|by right]. }
  unfold commit_replay. cbn [new_page_count]. change (shared_manifest (logged w b)) with (shared_manifest w).
  destruct (Z.ltb_spec n (Manifest.page_count (shared_manifest w))); [lia|].
  change (ctx_cache (logged w b)) with (ctx_cache w).
  destruct (commit_phase_outcome h (ctx_cache w) Hb Hh Hps) as (o & c1 & Hrun & Ho). rewrite Hrun. clear Hrun.
  destruct Ho as [Ho Hw | Ho Hok Hst | Ho Ht]; subst o; cbn [finish_commit].
  - destruct (publish_outcome state_fail h w n b c1 Hbytes) as (saved & c2 & w' & _ & Hpub & Hp); [apply Hw| |].
    + intros p Hp. change (stored c1 p) with (stored (quiet c1) p). rewrite (wr_stored _ _ _ Hw) by done.
      rewrite decide_False by lia. destruct (staged h !! p); [done|].
      rewrite view_quiet, view_stored by (done || apply Hb). done.
    + rewrite Hpub. by left.
  - right. left. split; [|by eexists]. split; try done.
    + intros p Hp. match goal with |- view ?x _ = _ => change x with c1 end.
      rewrite view_quiet, view_stored by done. rewrite (view_quiet (ctx_cache w)), view_stored by (done || apply Hb).
      apply (Hst p Hp).
    + right. cbn. by rewrite delete_insert_eq.
  - right. right. split; [|by eexists]. split; try done.
    + intros p buf. by apply tainted_reads.
    + exists b. split; [done|]. cbn. by rewrite lookup_insert_eq.
Qed.

(** C29. A finalize whose system calls succeed publishes: it returns the report
    (or the error of saving the page bitmap, the last step), the staged pages
    read back, the other pages read as before except those a shrink cut off,
    and manifest, page count and queued log agree with them. *)
Theorem finalize_publishes state_fail h w n :
  finalize_ready h w n → base_ok (ctx_cache w) → faults (ctx_cache w) = [] →
  n ≤ 2 ^ 46 → bit_capacity (bitmap (ctx_cache w)) < 2 ^ 63 →
  is_Some (encode_manifest (post_manifest h (shared_manifest w) n)) →
  ∃ c1 saved c2 w', persist_bitmap to_vec from_slice state_fail c1 = (saved, c2) ∧
    finalize_replay nonce to_vec from_slice encode_manifest None state_fail h w =
      (_ ← saved; Ok {| installed_pages_in_this_cycle := dom (staged h); new_page_count := n |}, w') ∧
    published h n w w'.
Proof.
  intros Hready Hb Hq Hmax Hcap Henc. pose proof Hready as [Hh Hopen Hps Hn Hcov Hwork].
  destruct (finalize_cases None state_fail h w n Hready) as [(b & Hbytes & _ & Hrun)|(e & _ & He)]; rewrite Hrun || (rewrite He in Henc; by destruct Henc).
  clear Hrun. unfold commit_replay. cbn [new_page_count]. change (shared_manifest (logged w b)) with (shared_manifest w).
  change (ctx_cache (logged w b)) with (ctx_cache w).
  destruct (commit_phase_success h (ctx_cache w)
    (if n <? Manifest.page_count (shared_manifest w) then Some n else None) Hb Hq Hh Hps)
    as (c1 & Hrun & Hok1 & _ & Hst); [|done|].
  { intros k. destruct (_ <? _); [|done]. intros [= <-]. lia. }
  rewrite Hrun. clear Hrun. cbn [finish_commit].
  destruct (publish_outcome state_fail h w n b c1 Hbytes) as (saved & c2 & w' & Hper & Hpub & Hp).
  - assert (faults c1 = []) as Hq1 by apply (ok_quiet _ Hok1). by rewrite quiet_id.
  - intros p Hp. rewrite Hst by done. destruct (staged h !! p); [done|].
    assert (view (ctx_cache w) p = stored (ctx_cache w) p) as ->.
    { rewrite view_quiet, view_stored by (done || apply Hb). done. }
    destruct (Z.ltb_spec n (Manifest.page_count (shared_manifest w))); [|by rewrite decide_False by lia].
    destruct (decide (n ≤ p)); [by rewrite decide_True|by rewrite decide_False by tauto].
  - exists c1, saved, c2, w'. done.
Qed.
End replay_safety.
