(* ===== verification/ReplayExamples.v ===== *)
(** Concrete replays: the witnesses of the theorems on direct page replay, and
    the runs behind the findings about it. *)

From S2P Require Import Prelude Keys Staging Manifest Replay ReplayPages.
From S2P Require Import CacheTracking LocalState Compress File DiskCache CacheView CacheWrite CacheSafety CacheSteps.
From S2P Require Import CacheExamples ReplayCommit ReplaySafety.

#[local] Existing Instance canonical_iter.

(* ------------------------------------------------------------------ *)
(** * Page counts and handles *)

(** A B-tree-aware manifest of five pages in two groups, four pages a group. *)
Definition replay_manifest : Manifest :=
  set_groups (set_indexes empty_manifest BTreeAware ∅ no_tree_indexes) 5
    [[0; 3]; [4; 1; 2]] ["p/d/0_v1"; "p/d/1_v1"] [] []
  <| Manifest.pages_per_group := 4 |>.

Lemma replay_manifest_partition : groups_partition replay_manifest.
Proof. apply (bool_decide_eq_true_1 _). vm_compute. reflexivity. Qed.

Lemma replay_page_count_partition_witness :
  let m' := set_replay_page_count replay_manifest 5 11 in
  Manifest.group_pages m' = [[0; 3]; [4; 1; 2; 5]; [6; 7; 8; 9]; [10]] ∧ (∀ p, is_Some (page_location m' p) ↔ 0 ≤ p < 11).
Proof.
  destruct (replay_page_count_partition replay_manifest 11) as (_ & _ & _ & Hl & _).
  - reflexivity.
  - exact replay_manifest_partition.
  - cbn. lia.
  - lia.
  - cbn. lia.
  - repeat constructor; cbn; lia.
  - split; [vm_compute; reflexivity|exact Hl].
Defined.

(** A handle on pages of [ps] bytes that has staged SQLite page 8. *)
Definition demo_handle_to (target : option Z) (ps : Z) (d : bytes) : ReplayHandle := {|
  staged := {[7 := d]}; target_page_count := target; max_sqlite_page_id := 8;
  committed_seqs := [4]; expected_next_seq := 5; rh_page_size := ps; consumed := false
|}.

Definition demo_handle := demo_handle_to None.

Lemma demo_handle_ok t ps d : Z.of_nat (length d) = ps → handle_ok (demo_handle_to t ps d).
Proof.
  intros Hd. split; cbn.
  - exists 4. split; [lia|reflexivity].
  - apply map_Forall_singleton. lia.
  - lia.
Qed.

Lemma replay_handle_invariant_witness :
  let '(r, h') := run_handle_op (ApplyPage 8 (pg 6)) (demo_handle 4 (pg 5)) in
  r = Ok () ∧ handle_ok h' ∧ staged h' = {[7 := pg 6]}.
Proof.
  pose proof (replay_handle_invariant (ApplyPage 8 (pg 6)) (demo_handle 4 (pg 5))
    (demo_handle_ok None 4 (pg 5) eq_refl) ltac:(unfold handle_op_ok, is_u32; lia)) as H.
  destruct (run_handle_op _ _) as [r h'] eqn:Hrun. destruct H as (Hok & _ & Heff & _).
  assert (r = Ok ()) as Hr by (change r with (r, h').1; rewrite <-Hrun; reflexivity).
  split; [exact Hr|]. split; [exact Hok|]. destruct (Heff Hr) as (_ & _ & Hs & _). rewrite Hs. reflexivity.
Defined.

(** The codec of the demonstrations: one byte, the version. *)
Definition demo_encode_manifest (m : Manifest) : option bytes := Some (le_bytes 1 (version m)).

Lemma replay_log_recovers_witness :
  ∃ b, staging_log_bytes demo_encode_manifest (demo_handle 512 (zeros 512)) replay_manifest = Ok b ∧
    read_staging_log b = Ok {[7 := zeros 512]} ∧ read_staging_manifest b = Ok (demo_encode_manifest replay_manifest).
Proof.
  eexists. split; [reflexivity|].
  apply (replay_log_recovers demo_encode_manifest (demo_handle 512 (zeros 512)) replay_manifest).
  - apply demo_handle_ok. reflexivity.
  - reflexivity.
  - intros t [= <-]. rewrite length_le_bytes. unfold is_u64. lia.
  - reflexivity.
Defined.

(* ------------------------------------------------------------------ *)
(** * Finalize *)

(** A database of [n] positional pages over the cache [c]. *)
Definition demo_context (n : Z) (c : DiskCache ()) : ReplayContext () := {|
  ctx_cache := c;
  shared_manifest := empty_manifest <| Manifest.page_count := n |> <| Manifest.page_size := 4 |>
    <| Manifest.pages_per_group := 8 |>;
  vfs_page_count := n; pending_flushes := []; staging_seq := 3; replay_epoch := 0; ctx_logs := ∅
|}.

Definition demo_finalize (log_fail : option io_kind) (h : ReplayHandle) (w : ReplayContext ()) :=
  finalize_replay demo_nonce demo_to_vec demo_from_slice demo_encode_manifest log_fail None h w.

Lemma demo_base_ok c key fs :
  c = demo_written false key demo_pages → Forall clean_fault fs → base_ok (c <| faults := fs |>).
Proof.
  intros -> Hfs. split; [|by destruct key as [[]|]|exact Hfs].
  pose proof (demo_written_ok false key) as Hok. pose proof (quiet_id _ (ok_quiet _ Hok)) as Hq.
  rewrite <-Hq in Hok. exact Hok.
Qed.

Lemma demo_base_quiet key : base_ok (demo_written false key demo_pages).
Proof.
  pose proof (demo_base_ok _ key [] eq_refl ltac:(by constructor)) as Hb.
  assert (demo_written false key demo_pages <| faults := [] |> = demo_written false key demo_pages) as He
    by exact (quiet_id _ (ok_quiet _ (demo_written_ok false key))).
  by rewrite He in Hb.
Qed.

(** The cache of the demonstrations when the next call on the file fails. *)
Definition broken_cache : DiskCache () :=
  demo_written false None demo_pages <| faults := [Some {| f_kind := OtherKind; f_written := 0 |}] |>.

Lemma finalize_all_or_nothing_witness :
  let '(r, w') := demo_finalize None (demo_handle 4 (pg 6)) (demo_context 24 broken_cache) in
  r = Err OtherKind ∧ untouched (demo_context 24 broken_cache) w' ∧ ctx_logs w' = ∅.
Proof.
  pose proof (finalize_all_or_nothing demo_nonce demo_to_vec demo_from_slice demo_encode_manifest
    None None (demo_handle 4 (pg 6)) (demo_context 24 broken_cache) 24) as H.
  unfold demo_finalize. destruct (finalize_replay _ _ _ _ _ _ _ _) as [r w'] eqn:Hrun.
  assert (r = Err OtherKind) as Hr by (change r with (r, w').1; rewrite <-Hrun; vm_compute; reflexivity).
  assert (ctx_logs w' = ∅) as Hlogs by (change w' with (r, w').2; rewrite <-Hrun; vm_compute; reflexivity).
  split; [exact Hr|]. split; [|exact Hlogs]. destruct H as [Hp | [[Hu _] | [Ht _]]].
  - split; [by apply demo_handle_ok|reflexivity|vm_compute; reflexivity|reflexivity|cbn; lia|]. left. discriminate.
  - cbn. lia.
  - apply (demo_base_ok _ None); [reflexivity|]. repeat constructor; discriminate.
  - destruct (pu_log _ _ _ _ _ Hp) as (b & _ & Hb). rewrite Hlogs in Hb. discriminate.
  - exact Hu.
  - destruct (ta_log _ _ _ _ _ Ht) as (b & _ & Hb). rewrite Hlogs in Hb. discriminate.
Defined.

(** A replay that overwrites page 7 and grows the database to 30 pages. *)
Lemma finalize_publishes_witness :
  let c := demo_written false None demo_pages in
  let h := demo_handle_to (Some 30) 4 (pg 6) in
  let w' := (demo_finalize None h (demo_context 24 c)).2 in
  view (ctx_cache w') 7 = Some (pg 6) ∧ view (ctx_cache w') 18 = Some (pg 2) ∧
  vfs_page_count w' = 30 ∧ change_counter (shared_manifest w') = 4.
Proof.
  pose proof (demo_base_quiet None) as Hb.
  pose proof (ok_quiet _ (demo_written_ok false None)) as Hq.
  assert (page_size (demo_written false None demo_pages) = 4) as Hps by (vm_compute; reflexivity).
  assert (bit_capacity (bitmap (demo_written false None demo_pages)) < 2 ^ 63) as Hcap by (vm_compute; reflexivity).
  pose proof (demo_written_view false None 18 ltac:(lia) ltac:(discriminate)) as Hv.
  revert Hb Hq Hps Hcap Hv. generalize (demo_written false None demo_pages). intros c Hb Hq Hps Hcap Hv.
  cbn zeta. unfold demo_finalize.
  destruct (finalize_publishes demo_nonce demo_to_vec demo_from_slice demo_encode_manifest None
    (demo_handle_to (Some 30) 4 (pg 6)) (demo_context 24 c) 30) as (c1 & saved & c2 & w' & _ & Hrun & Hp).
  - split; [by apply demo_handle_ok|reflexivity|by symmetry|reflexivity|cbn; lia|]. left. discriminate.
  - exact Hb.
  - exact Hq.
  - lia.
  - exact Hcap.
  - by eexists.
  - rewrite Hrun. cbn [snd]. rewrite !(pu_view _ _ _ _ _ Hp), (pu_count _ _ _ _ _ Hp), (pu_manifest _ _ _ _ _ Hp) by lia.
    split_and!; [reflexivity| |reflexivity|reflexivity]. exact Hv.
Defined.

(* ------------------------------------------------------------------ *)
(** * Findings *)

(** The page whose own write was cut short is not among the pre-images, so a
    finalize reports a complete rollback and removes the log while a visible
    page has been torn. *)
Lemma torn_page_survives_rollback :
  let c := demo_written false None [(7, pg 0x01010101)] <| mem_cache := None |> <| mem_cache_bytes := 0 |>
    <| faults := [None; Some {| f_kind := OtherKind; f_written := 2 |}] |> in
  let '(r, w') := demo_finalize None (demo_handle 4 (pg 0x02020202)) (demo_context 24 c) in
  r = Err OtherKind ∧ ctx_logs w' = ∅ ∧ tainted (ctx_cache w') = false ∧
  view c 7 = Some (pg 0x01010101) ∧ view (ctx_cache w') 7 = Some (pg 0x01010202).
Proof. vm_compute. split_and!; reflexivity. Qed.

(** When the file cannot be truncated, a shrinking finalize fails with the
    staged pages already visible under the old manifest, and the log neither
    queued nor removed. *)
Lemma failed_truncation_publishes_pages :
  let c := demo_written false None [(7, pg 0x01010101)] <| mem_cache := None |> <| mem_cache_bytes := 0 |>
    <| faults := [None; None; Some {| f_kind := OtherKind; f_written := 0 |}] |> in
  let h := demo_handle_to (Some 9) 4 (pg 0x02020202) in
  let '(r, w') := demo_finalize None h (demo_context 24 c) in
  r = Err OtherKind ∧ view (ctx_cache w') 7 = Some (pg 0x02020202) ∧ Manifest.page_count (shared_manifest w') = 24 ∧
  pending_flushes w' = [] ∧ is_Some (ctx_logs w' !! "3.log").
Proof. vm_compute. split_and!; try reflexivity. by eexists. Qed.

(** A shrink drops the groups it empties and renumbers the rest, but the
    B-trees keep their old group numbers: tree [t] still names group 1, which
    is gone. *)
Lemma shrink_leaves_stale_btree_groups :
  let m := set_groups (set_indexes empty_manifest BTreeAware ∅ no_tree_indexes) 6
      [[5]; [0; 1; 2]] ["a"; "b"] [] [] in
  let m := m <| Manifest.pages_per_group := 4 |>
      <| btrees := {[ 2 := {| bt_name := "t"; bt_obj_type := "table"; bt_group_ids := [1]; bt_pages := [] |} ]} |> in
  let m' := set_replay_page_count m 6 3 in
  Manifest.group_pages m' = [[0; 1; 2]] ∧ page_group_keys m' = ["b"%string] ∧
  (bt_group_ids <$> btrees m' !! 2) = Some [1].
Proof. vm_compute. split_and!; reflexivity. Qed.
