(* ===== verification/Passthrough.v ===== *)
(** The encrypted journal and WAL files of a connection: the passthrough mode of
    [TurboliteHandle] with its log of nonces, [PassthroughNonceMap]
    (src/src/tiered/handle.rs).  Each write is sealed under a nonce of its own,
    remembered in a sidecar log next to the file. *)

From S2P Require Import Prelude Compress File.

(* ------------------------------------------------------------------ *)
(** * The log of nonces *)

(** An extent, its length and its nonce. *)
Record NonceRecord := { nr_start : Z; nr_len : Z; nr_nonce : Z }.

#[export] Instance NonceRecord_eq_dec : EqDecision NonceRecord.
Proof. solve_decision. Defined.

Abbreviation extents := (gmap Z (Z * Z)).

(** Whether the record replaces the entry that starts at [s]. *)
Definition covers_entry (r : NonceRecord) (s len : Z) : Prop :=
  nr_start r ≤ s < saturating_add (nr_start r) (nr_len r) ∧
  saturating_add s len ≤ saturating_add (nr_start r) (nr_len r).

#[export] Instance covers_entry_dec r s len : Decision (covers_entry r s len).
Proof. unfold covers_entry. apply _. Defined.

(** Newest wins: the entries inside the new extent go. *)
Definition apply_record (entries : extents) (r : NonceRecord) : extents :=
  <[nr_start r := (nr_len r, nr_nonce r)]>
    (filter (λ e, ¬ covers_entry r e.1 e.2.1) entries).

Definition record_data (r : NonceRecord) : bytes :=
  le_bytes 8 (nr_start r) ++ le_bytes 8 (nr_len r) ++ le_bytes 8 (nr_nonce r).

(** The records of a log, a torn one at its end ignored; each takes 24 bytes,
    so the length of the log is enough fuel. *)
Fixpoint parse_records (fuel : nat) (log : bytes) : list NonceRecord :=
  match fuel with
  | O => []
  | S fuel =>
    if (length log <? 24)%nat then [] else
    {| nr_start := of_le (take 8 log); nr_len := of_le (take 8 (drop 8 log));
       nr_nonce := of_le (take 8 (drop 16 log)) |} :: parse_records fuel (drop 24 log)
  end.

Definition replay_log (log : bytes) : extents :=
  foldl apply_record ∅ (parse_records (length log) log).

(** The extent that starts last among those covering the range: its start and
    nonce.  The sums are [u64]. *)
Definition nonce_lookup (entries : extents) (offset len : Z) : option (Z * Z) :=
  let read_end := wrap64 (offset + len) in
  match list_find (λ e, e.1 ≤ offset ∧ read_end ≤ wrap64 (e.1 + e.2.1))
          (reverse (sort_by_key (map_to_list entries))) with
  | Some (_, e) => Some (e.1, e.2.2)
  | None => None
  end.

(* ------------------------------------------------------------------ *)
(** * The file and its sidecar *)

(** The data file, the sidecar file, the map in memory, and whether the append
    handle is open. *)
Record Passthrough := {
  pt_data : bytes;
  pt_sidecar : option bytes;
  pt_entries : extents;
  pt_append : bool
}.

#[export] Instance Passthrough_settable : Settable Passthrough := {| rebuild := λ p, {|
  pt_data := pt_data p; pt_sidecar := pt_sidecar p; pt_entries := pt_entries p; pt_append := pt_append p |} |}.

(** The file-system calls of a write, in order; a write that fails leaves the
    first bytes it was given. *)
Inductive write_step :=
  | WriteData (n : nat) | SyncData | OpenSidecar | SyncParent | WriteRecord (n : nat) | SyncRecord.

(** The calls of [compact] that matter: up to the rename, and after it. *)
Inductive compact_step := BeforeRename | AfterRename.

Definition sidecar_bytes (entries : extents) : bytes :=
  concat ((λ e, record_data {| nr_start := e.1; nr_len := e.2.1; nr_nonce := e.2.2 |}) <$>
    sort_by_key (map_to_list entries)).

(** The log is rewritten as the live extents; a failure is dropped. *)
Definition compact (fail : option compact_step) (p : Passthrough) : Passthrough :=
  match fail with
  | Some BeforeRename => p
  | Some AfterRename => p <| pt_sidecar := Some (sidecar_bytes (pt_entries p)) |>
  | None => p <| pt_sidecar := Some (sidecar_bytes (pt_entries p)) |> <| pt_append := true |>
  end.

(** [load], with the data file as the handle finds it.  A sidecar that cannot be
    read is taken for a missing one, and compacted all the same. *)
Definition load (readable : bool) (fail : option compact_step) (data : bytes) (sidecar : option bytes) : Passthrough :=
  let entries := match (if readable then sidecar else None) with Some log => replay_log log | None => ∅ end in
  compact fail {| pt_data := data; pt_sidecar := sidecar; pt_entries := entries; pt_append := false |}.

(** [append_record]; the first append creates the sidecar and syncs its
    directory. *)
Definition append_record (fail : option (write_step * io_kind)) (r : NonceRecord) (p : Passthrough) :
    io () * Passthrough :=
  let opened := p <| pt_sidecar := Some (default [] (pt_sidecar p)) |> <| pt_append := true |> in
  let log := default [] (pt_sidecar p) in
  match fail, pt_append p, pt_sidecar p with
  | Some (OpenSidecar, e), false, _ => (Err e, p)
  | Some (SyncParent, e), false, None => (Err e, opened)
  | Some (WriteRecord n, e), _, _ => (Err e, opened <| pt_sidecar := Some (log ++ take n (record_data r)) |>)
  | Some (SyncRecord, e), _, _ => (Err e, opened <| pt_sidecar := Some (log ++ record_data r) |>)
  | _, _, _ => (Ok (), opened <| pt_sidecar := Some (log ++ record_data r) |>)
  end.

Definition commit_record (fail : option (write_step * io_kind)) (r : NonceRecord) (p : Passthrough) :
    io () * Passthrough :=
  match append_record fail r p with
  | (Ok _, p') => (Ok (), p' <| pt_entries ::= λ e, apply_record e r |>)
  | (x, p') => (x, p')
  end.

Section stream.
Context `{StreamCipher K}.

(** [write_all_at] of a passthrough handle with a key and a fresh nonce. *)
Definition passthrough_write (key : K) (fail : option (write_step * io_kind)) (nonce : Z) (buf : bytes) (offset : Z)
    (p : Passthrough) : io () * Passthrough :=
  match ctr_xor_at buf nonce 0 key with
  | Ok encrypted =>
    let written n := p <| pt_data ::= file_write_at (take n encrypted) offset |> in
    match fail with
    | Some (WriteData n, e) => (Err e, written n)
    | Some (SyncData, e) => (Err e, written (length encrypted))
    | _ => commit_record fail {| nr_start := offset; nr_len := Z.of_nat (length buf); nr_nonce := nonce |}
             (written (length encrypted))
    end
  | Err e => (Err e, p)
  | Panic => (Panic, p)
  end.

(** [read_exact_at]; a range no extent covers is read under the nonce of older
    versions, its offset. *)
Definition passthrough_read (key : K) (len offset : Z) (p : Passthrough) : io bytes :=
  buf ← ok_or (file_read_at len offset (pt_data p)) UnexpectedEof;
  let '(skip, nonce) := match nonce_lookup (pt_entries p) offset len with
                        | Some (start, nonce) => (offset - start, nonce)
                        | None => (0, offset)
                        end in
  ctr_xor_at buf nonce skip key.
End stream.

(* ------------------------------------------------------------------ *)
(** * Reading the log back *)

Definition record_ok (r : NonceRecord) : Prop :=
  is_u64 (nr_start r) ∧ is_u64 (nr_len r) ∧ is_u64 (nr_nonce r).

Definition entries_of (rs : list NonceRecord) : extents := foldl apply_record ∅ rs.

Lemma length_record_data r : length (record_data r) = 24%nat.
Proof. unfold record_data. by rewrite !length_app, !length_le_bytes. Qed.

Lemma of_le_field x t : is_u64 x → of_le (take 8 (le_bytes 8 x ++ t)) = x.
Proof. intros Hx. rewrite (take_app_length' (le_bytes 8 x)) by by rewrite length_le_bytes. by apply of_le_le_bytes. Qed.

Lemma parse_record r t fuel :
  record_ok r → (24 ≤ fuel)%nat →
  parse_records fuel (record_data r ++ t) = r :: parse_records (fuel - 1) t.
Proof.
  intros (Hs & Hl & Hn) Hf. destruct fuel as [|fuel]; [lia|]. cbn [parse_records].
  rewrite length_app, length_record_data. destruct (Nat.ltb_spec (24 + length t) 24); [lia|].
  rewrite (drop_app_length' (record_data r) t 24) by by rewrite length_record_data. rewrite Nat.sub_succ, Nat.sub_0_r. f_equal.
  destruct r as [s l n]. unfold record_data; cbn [nr_start nr_len nr_nonce] in *.
  rewrite <-!app_assoc. f_equal.
  - by apply of_le_field.
  - rewrite (drop_app_length' (le_bytes 8 s)) by by rewrite length_le_bytes. by apply of_le_field.
  - rewrite (app_assoc (le_bytes 8 s)), (drop_app_length' (le_bytes 8 s ++ le_bytes 8 l))
      by by rewrite length_app, !length_le_bytes.
    by apply of_le_field.
Qed.

Lemma parse_torn fuel t : (length t < 24)%nat → parse_records fuel t = [].
Proof. intros Ht. destruct fuel; [done|]. cbn [parse_records]. by destruct (Nat.ltb_spec (length t) 24); [|lia]. Qed.

Lemma parse_prefix rs k fuel :
  Forall record_ok rs → (length (take k (concat (record_data <$> rs))) ≤ fuel)%nat →
  parse_records fuel (take k (concat (record_data <$> rs))) = take (k / 24) rs.
Proof.
  intros Hrs. revert k fuel. induction Hrs as [|r rs Hr Hrs IH]; intros k fuel Hf.
  { change (concat (record_data <$> [])) with ([] : bytes). rewrite !take_nil. apply parse_torn. cbn. lia. }
  rewrite fmap_cons in *. cbn [concat] in *. destruct (decide (k < 24)%nat) as [Hk|Hk].
  - rewrite Nat.div_small by done. apply parse_torn. rewrite length_take. lia.
  - assert (take k (record_data r ++ concat (record_data <$> rs)) =
      record_data r ++ take (k - 24) (concat (record_data <$> rs))) as Ht.
    { rewrite take_app, length_record_data, (take_ge (record_data r)) by (rewrite length_record_data; lia). done. }
    rewrite Ht in *. rewrite length_app, length_record_data in Hf. rewrite parse_record by (done || lia).
    replace (k / 24)%nat with (S ((k - 24) / 24)).
    + cbn [take]. f_equal. apply IH. lia.
    + replace k with (k - 24 + 1 * 24)%nat at 2 by lia. rewrite Nat.div_add by done. lia.
Qed.

Lemma replay_prefix rs k :
  Forall record_ok rs → replay_log (take k (concat (record_data <$> rs))) = entries_of (take (k / 24) rs).
Proof. intros Hrs. unfold replay_log, entries_of. f_equal. by apply parse_prefix. Qed.

Lemma replay_records rs : Forall record_ok rs → replay_log (concat (record_data <$> rs)) = entries_of rs.
Proof.
  intros Hrs. assert (length (concat (record_data <$> rs)) = length rs * 24)%nat as Hl.
  { clear Hrs. induction rs as [|r rs IH]; cbn; [done|]. rewrite length_app, length_record_data, IH. lia. }
  rewrite <-(take_ge (concat _) (length rs * 24)) by lia. rewrite replay_prefix by done.
  rewrite Nat.div_mul, take_ge by done. done.
Qed.

(** What the code keeps of an extent fits its machine types. *)
Definition entry_ok (s : Z) (x : Z * Z) : Prop := is_u64 s ∧ is_u64 x.1 ∧ is_u64 x.2.

Lemma apply_record_ok e r : map_Forall entry_ok e → record_ok r → map_Forall entry_ok (apply_record e r).
Proof.
  intros He (Hs & Hl & Hn). apply map_Forall_insert_2; [by split|].
  intros k x Hx. apply map_lookup_filter_Some in Hx as [Hx _]. by apply He.
Qed.

Lemma entries_of_ok rs : Forall record_ok rs → map_Forall entry_ok (entries_of rs).
Proof.
  intros Hrs. unfold entries_of. assert (map_Forall entry_ok (∅ : extents)) as H0 by apply map_Forall_empty.
  revert H0. generalize (∅ : extents). induction Hrs as [|r rs Hr _ IH]; intros e He; [done|].
  apply IH. by apply apply_record_ok.
Qed.

Definition record_of (e : Z * (Z * Z)) : NonceRecord :=
  {| nr_start := e.1; nr_len := e.2.1; nr_nonce := e.2.2 |}.

(** Sorted entries do not cover one another's start from below. *)
Lemma fold_sorted (l : list (Z * (Z * Z))) (m : extents) :
  StronglySorted key_le l → NoDup l.*1 → (∀ k, is_Some (m !! k) → Forall (λ x, k < x.1) l) →
  foldl apply_record m (record_of <$> l) = list_to_map l ∪ m.
Proof.
  revert m. induction l as [|[s x] l IH]; intros m Hs Hnd Hm; [cbn; by rewrite map_empty_union|].
  rewrite list_to_map_cons. change (foldl apply_record m (record_of <$> (s, x) :: l))
    with (foldl apply_record (apply_record m (record_of (s, x))) (record_of <$> l)).
  apply StronglySorted_inv in Hs as [Hs Hhd]. apply NoDup_cons in Hnd as [Hni Hnd].
  assert (apply_record m (record_of (s, x)) = <[s := x]> m) as ->.
  { unfold apply_record. cbn. destruct x as [ln nc]; cbn. f_equal. apply map_filter_id. intros k y Hk Hc.
    assert (is_Some (m !! k)) as Hsome by by rewrite Hk. apply Hm, Forall_cons in Hsome as [Hlt _]. cbn in Hlt.
    destruct Hc as [[? _] _]. cbn in *. lia. }
  rewrite IH; [|done|done|].
  - rewrite <-insert_union_r, insert_union_l; [done|]. by apply not_elem_of_list_to_map_1.
  - intros k Hk. destruct (decide (k = s)) as [->|Hne].
    + apply Forall_forall. intros y Hy. rewrite Forall_forall in Hhd. specialize (Hhd y Hy). unfold key_le in Hhd. cbn in Hhd.
      assert (y.1 ≠ s); [|lia]. intros <-. apply Hni, list_elem_of_fmap. by exists y.
    + rewrite lookup_insert_ne in Hk by done. by apply Hm, Forall_cons in Hk as [_ ?].
Qed.

Lemma sorted_nodup {V} (e : gmap Z V) : NoDup (sort_by_key (map_to_list e)).*1.
Proof. rewrite sort_by_key_perm. apply NoDup_fst_map_to_list. Qed.

Lemma list_to_map_sorted {V} (e : gmap Z V) : (list_to_map (sort_by_key (map_to_list e)) : gmap Z V) = e.
Proof.
  transitivity (list_to_map (map_to_list e) : gmap Z V); [|apply list_to_map_to_list].
  apply list_to_map_proper; [apply sorted_nodup|]. apply sort_by_key_perm.
Qed.

(** The compacted log reads back as the extents it was made from. *)
Lemma replay_sidecar e : map_Forall entry_ok e → replay_log (sidecar_bytes e) = e.
Proof.
  intros He. unfold sidecar_bytes.
  assert ((λ x : Z * (Z * Z), record_data {| nr_start := x.1; nr_len := x.2.1; nr_nonce := x.2.2 |}) <$>
    sort_by_key (map_to_list e) = record_data <$> (record_of <$> sort_by_key (map_to_list e))) as ->
    by by rewrite <-list_fmap_compose.
  rewrite replay_records.
  - unfold entries_of. rewrite fold_sorted; [|apply (StronglySorted_merge_sort _)|apply sorted_nodup|].
    + by rewrite map_union_empty, list_to_map_sorted.
    + intros k [x Hx]. by rewrite lookup_empty in Hx.
  - apply Forall_fmap, Forall_forall. intros [s x] Hx. rewrite sort_by_key_perm in Hx.
    apply elem_of_map_to_list in Hx. by destruct (He _ _ Hx) as (? & ? & ?).
Qed.

Lemma load_entries fail data sidecar :
  pt_entries (load true fail data sidecar) = match sidecar with Some log => replay_log log | None => ∅ end.
Proof. by destruct fail as [[]|]. Qed.

(** C35. The log of nonces survives a crash: a log cut at any byte, as long as it
    can be read ([unreadable_log_is_lost]), opens to the extents of its whole
    records, newest over older, and opening it again, whether or not the
    compaction in between came through, gives the same. *)
Theorem nonce_log_recovers data rs k fail fail' :
  Forall record_ok rs →
  let p := load true fail data (Some (take k (concat (record_data <$> rs)))) in
  pt_entries p = entries_of (take (k / 24) rs) ∧
  pt_entries (load true fail' data (pt_sidecar p)) = pt_entries p.
Proof.
  intros Hrs p. subst p. rewrite !load_entries, replay_prefix by done. split; [done|].
  assert (map_Forall entry_ok (entries_of (take (k / 24) rs))) as He by by apply entries_of_ok, Forall_take.
  destruct fail as [[]|]; unfold load, compact; cbn; rewrite replay_prefix by done; by rewrite ?replay_sidecar.
Qed.

(* ------------------------------------------------------------------ *)
(** * Looking a range up *)

Lemma nonce_lookup_spec e o n s l nc :
  e !! s = Some (l, nc) → s ≤ o → wrap64 (o + n) ≤ wrap64 (s + l) →
  (∀ s' x, e !! s' = Some x → s < s' ≤ o → ¬ wrap64 (o + n) ≤ wrap64 (s' + x.1)) →
  nonce_lookup e o n = Some (s, nc).
Proof.
  intros He Hs Hc Hmax. unfold nonce_lookup.
  set (P := λ x : Z * (Z * Z), x.1 ≤ o ∧ wrap64 (o + n) ≤ wrap64 (x.1 + x.2.1)).
  set (l0 := sort_by_key (map_to_list e)).
  assert (∀ x, x ∈ reverse l0 ↔ e !! x.1 = Some x.2) as Hin.
  { intros [k x]. unfold l0. rewrite elem_of_reverse, sort_by_key_perm. apply elem_of_map_to_list. }
  destruct (list_find P (reverse l0)) as [[i [s0 [l1 nc0]]]|] eqn:Hf.
  - apply list_find_Some in Hf as (Hi & [Hs0 Hc0] & Hfirst). cbn in Hs0, Hc0.
    apply list_elem_of_split_length in Hi as (a & b & Hab & ->).
    assert ((s, (l, nc)) ∈ reverse l0) as Hel by (by apply Hin).
    assert (e !! s0 = Some (l1, nc0)) as He0.
    { apply (Hin (s0, (l1, nc0))). rewrite Hab. apply elem_of_app. right. by left. }
    rewrite Hab in Hel. apply elem_of_app in Hel as [Ha|[Heq|Hb]%elem_of_cons].
    + exfalso. apply list_elem_of_lookup in Ha as [j Hj].
      apply (Hfirst j (s, (l, nc))); [|by eapply lookup_lt_Some|by split].
      rewrite Hab. by apply lookup_app_l_Some.
    + by injection Heq as -> -> ->.
    + exfalso. assert (s ≤ s0) as Hle.
      { apply (f_equal reverse) in Hab. rewrite reverse_involutive, reverse_app, reverse_cons in Hab.
        assert (StronglySorted key_le l0) as Hst by apply (StronglySorted_merge_sort _).
        rewrite Hab, <-app_assoc in Hst.
        apply (StronglySorted_app_1_elem_of key_le (reverse b) ([(s0, (l1, nc0))] ++ reverse a) (s, (l, nc)) (s0, (l1, nc0)) Hst).
        - by apply elem_of_reverse.
        - by left. }
      destruct (decide (s = s0)) as [<-|Hne].
      { apply (f_equal reverse) in Hab. rewrite reverse_involutive in Hab.
        pose proof (sorted_nodup e) as Hnd. change (sort_by_key (map_to_list e)) with l0 in Hnd.
        rewrite Hab, fmap_reverse, reverse_Permutation, fmap_app, fmap_cons in Hnd.
        apply NoDup_app in Hnd as (_ & _ & [Hni _]%NoDup_cons). apply Hni, list_elem_of_fmap. by exists (s, (l, nc)). }
      by apply (Hmax s0 (l1, nc0) He0); [lia|].
  - exfalso. apply list_find_None in Hf. rewrite Forall_forall in Hf.
    apply (Hf (s, (l, nc))); [by apply Hin|by split].
Qed.

(** Where an entry comes from. *)
Lemma fold_apply_inv rs e s x :
  foldl apply_record e rs !! s = Some x →
  (∃ r, r ∈ rs ∧ nr_start r = s ∧ x = (nr_len r, nr_nonce r)) ∨ e !! s = Some x.
Proof.
  revert e. induction rs as [|r rs IH]; intros e; [by right|]. intros Hx. cbn [foldl] in Hx.
  destruct (IH _ Hx) as [(r' & Hr & ?)|He]; [left; exists r'; split; [by right|done]|].
  unfold apply_record in He. apply lookup_insert_Some in He as [[<- <-]|[_ He]].
  - left. exists r. split; [by left|done].
  - right. by apply map_lookup_filter_Some in He as [? _].
Qed.

(** An entry stays while later extents neither start with it nor cover it. *)
Lemma fold_apply_keep rs e s x :
  e !! s = Some x → Forall (λ r, nr_start r ≠ s ∧ ¬ covers_entry r s x.1) rs →
  foldl apply_record e rs !! s = Some x.
Proof.
  intros He Hrs. revert e He. induction Hrs as [|r rs [Hne Hc] _ IH]; intros e He; [done|]. cbn [foldl]. apply IH.
  unfold apply_record. rewrite lookup_insert_ne by done. by apply map_lookup_filter_Some.
Qed.

(* ------------------------------------------------------------------ *)
(** * Histories *)

Section history.
Context `{StreamCipher K}.
Variable key : K.

(** A write that succeeds, or the file closed and opened again, with a sidecar
    that can be read. *)
Inductive pt_op :=
  | PtWrite (nonce : Z) (buf : bytes) (offset : Z)
  | PtReopen (fail : option compact_step).

Definition run_op (p : Passthrough) (op : pt_op) : Passthrough :=
  match op with
  | PtWrite nonce buf offset => (passthrough_write key None nonce buf offset p).2
  | PtReopen fail => load true fail (pt_data p) (pt_sidecar p)
  end.

Definition op_record (op : pt_op) : option NonceRecord :=
  match op with
  | PtWrite nonce buf offset =>
      Some {| nr_start := offset; nr_len := Z.of_nat (length buf); nr_nonce := nonce |}
  | PtReopen _ => None
  end.

(** Offsets and nonces are [u64]; the file stays below 2^63 bytes. *)
Definition op_ok (op : pt_op) : Prop :=
  match op with
  | PtWrite nonce buf offset => is_u64 nonce ∧ 0 ≤ offset ∧ offset + Z.of_nat (length buf) < 2 ^ 63
  | PtReopen _ => True
  end.

Definition seal (nonce : Z) (buf : bytes) : bytes :=
  match ctr_xor_at buf nonce 0 key with Ok c => c | _ => [] end.

Lemma length_seal nonce buf : length (seal nonce buf) = length buf.
Proof. unfold seal, ctr_xor_at. apply length_imap. Qed.

Definition op_data (op : pt_op) (f : bytes) : bytes :=
  match op with PtWrite nonce buf offset => file_write_at (seal nonce buf) offset f | PtReopen _ => f end.

(** The sidecar holds exactly the extents in memory. *)
Definition logged (p : Passthrough) : Prop :=
  ∃ rs, Forall record_ok rs ∧ default [] (pt_sidecar p) = concat (record_data <$> rs) ∧
    pt_entries p = entries_of rs.

Lemma sidecar_records e : map_Forall entry_ok e →
  ∃ rs, Forall record_ok rs ∧ sidecar_bytes e = concat (record_data <$> rs) ∧ e = entries_of rs.
Proof.
  intros He. exists (record_of <$> sort_by_key (map_to_list e)).
  assert (Forall record_ok (record_of <$> sort_by_key (map_to_list e))) as Hok.
  { apply Forall_fmap, Forall_forall. intros [s x] Hx. rewrite sort_by_key_perm in Hx.
    apply elem_of_map_to_list in Hx. by destruct (He _ _ Hx) as (? & ? & ?). }
  split; [done|]. assert (sidecar_bytes e = concat (record_data <$> (record_of <$> sort_by_key (map_to_list e)))) as Hs
    by (unfold sidecar_bytes; by rewrite <-list_fmap_compose).
  split; [done|]. rewrite <-(replay_sidecar e) at 1 by done. by rewrite Hs, replay_records.
Qed.

Lemma run_op_spec p op :
  logged p → op_ok op →
  logged (run_op p op) ∧ pt_data (run_op p op) = op_data op (pt_data p) ∧
  pt_entries (run_op p op) = match op_record op with Some r => apply_record (pt_entries p) r | None => pt_entries p end.
Proof.
  intros (rs & Hrs & Hside & He) Hop. destruct op as [nonce buf off|fail]; cbn [run_op op_record op_data].
  - destruct Hop as (Hn & Ho & Hl).
    set (r := {| nr_start := off; nr_len := Z.of_nat (length buf); nr_nonce := nonce |}).
    assert (passthrough_write key None nonce buf off p =
      (Ok (), p <| pt_data ::= file_write_at (seal nonce buf) off |>
                <| pt_sidecar := Some (default [] (pt_sidecar p) ++ record_data r) |> <| pt_append := true |>
                <| pt_entries ::= λ e, apply_record e r |>)) as ->.
    { unfold passthrough_write, seal, ctr_xor_at. rewrite take_ge by done. done. }
    cbn. split; [|done]. exists (rs ++ [r]). split; [apply Forall_app; split; [done|]|].
    + apply Forall_singleton. unfold record_ok, is_u64 in *; cbn. lia.
    + cbn. rewrite Hside, He, fmap_app, concat_app. cbn. rewrite app_nil_r. split; [done|].
      unfold entries_of. by rewrite foldl_app.
  - assert (pt_entries (load true fail (pt_data p) (pt_sidecar p)) = pt_entries p) as Heq.
    { rewrite load_entries, He. destruct (pt_sidecar p) as [log|]; cbn in Hside.
      - rewrite Hside. by apply replay_records.
      - destruct rs as [|r rs]; [done|]. exfalso. apply (f_equal length) in Hside. cbn in Hside.
        by rewrite length_app, length_record_data in Hside. }
    split; [|split; [by destruct fail as [[]|]|done]].
    assert (pt_sidecar (load true fail (pt_data p) (pt_sidecar p)) = pt_sidecar p ∨
      pt_sidecar (load true fail (pt_data p) (pt_sidecar p)) = Some (sidecar_bytes (pt_entries p))) as [Hk|Hk].
    { rewrite <-Heq. destruct fail as [[]|]; [by left|by right|by right]. }
    + exists rs. by rewrite Hk, Heq.
    + destruct (sidecar_records (pt_entries p)) as (rs' & ? & ? & ?); [rewrite He; by apply entries_of_ok|].
      exists rs'. by rewrite Hk, Heq.
Qed.

Lemma run_ops_spec ops p :
  logged p → Forall op_ok ops →
  logged (foldl run_op p ops) ∧ pt_data (foldl run_op p ops) = foldl (λ f op, op_data op f) (pt_data p) ops ∧
  pt_entries (foldl run_op p ops) = foldl apply_record (pt_entries p) (omap op_record ops).
Proof.
  intros Hp Hops. revert p Hp. induction Hops as [|op ops Hop _ IH]; intros p Hp; [done|]. cbn [foldl].
  destruct (run_op_spec p op Hp Hop) as (Hl & Hd & He). destruct (IH _ Hl) as (Hl' & Hd' & He').
  split; [done|]. rewrite Hd', Hd, He', He. cbn. by destruct (op_record op).
Qed.

Lemma record_bounds ops r : Forall op_ok ops → r ∈ omap op_record ops →
  0 ≤ nr_start r ∧ 0 ≤ nr_len r ∧ nr_start r + nr_len r < 2 ^ 63.
Proof.
  intros Hops (op & Hop & Hr)%list_elem_of_omap. rewrite Forall_forall in Hops. specialize (Hops op Hop).
  destruct op; [|done]. injection Hr as <-. destruct Hops as (_ & ? & ?). cbn. lia.
Qed.

(** Ranges of a file that a later write does not touch. *)
Definition apart (r : NonceRecord) (o n : Z) : Prop := o + n ≤ nr_start r ∨ nr_start r + nr_len r ≤ o.

Lemma kept_bytes ops f o n d :
  Forall op_ok ops → 0 ≤ o → 0 < n → file_read_at n o f = Some d →
  Forall (λ r, apart r o n) (omap op_record ops) →
  file_read_at n o (foldl (λ f op, op_data op f) f ops) = Some d.
Proof.
  intros Hops Ho Hn. revert f. induction Hops as [|op ops Hop _ IH]; intros f Hf Ha; [done|]. cbn [foldl].
  destruct op as [nonce buf off|fail]; cbn [omap list_omap op_record op_data] in *; [|by apply IH].
  apply Forall_cons in Ha as [Ha Has]. apply IH; [|done]. destruct Hop as (_ & Hoff & _).
  pose proof Hf as Hf'. apply file_read_at_Some in Hf' as [Hlen _]; [|done..].
  rewrite read_write_disjoint; [done|done|done|lia|done|]. rewrite length_seal. exact Ha.
Qed.

(** C22. What is read is what was last written: after any sequence of successful
    writes, and of reopenings that can read the log, a range that lies within one
    write, touched by no later one, decrypts to that write's bytes. This needs
    that no later write starts at the same offset, and that no earlier one that
    starts inside the write reaches over the range and past its end
    ([older_extent_wins]). *)
Theorem passthrough_reads_last_write data pre post nonce buf s o n :
  Forall op_ok (pre ++ PtWrite nonce buf s :: post) →
  0 < n → s ≤ o → o + n ≤ s + Z.of_nat (length buf) →
  Forall (λ r, apart r o n ∧ nr_start r ≠ s) (omap op_record post) →
  Forall (λ r, s < nr_start r ≤ o → o + n ≤ nr_start r + nr_len r →
    nr_start r + nr_len r ≤ s + Z.of_nat (length buf)) (omap op_record pre) →
  let p := foldl run_op {| pt_data := data; pt_sidecar := None; pt_entries := ∅; pt_append := false |}
             (pre ++ PtWrite nonce buf s :: post) in
  passthrough_read key n o p = Ok (take (Z.to_nat n) (drop (Z.to_nat (o - s)) buf)).
Proof.
  intros Hops Hn Hs He Hpost Hpre p. set (p0 := Build_Passthrough data None ∅ false) in *.
  assert (logged p0) as Hp0 by by exists [].
  destruct (run_ops_spec _ p0 Hp0 Hops) as (_ & Hdata & Hent). fold p in Hdata, Hent.
  rewrite foldl_app in Hdata. rewrite omap_app in Hent. cbn [foldl omap list_omap op_record op_data] in Hdata, Hent.
  rewrite foldl_app in Hent. cbn [foldl] in Hent. apply Forall_app in Hops as [Hpre' [Hw Hops]%Forall_cons].
  destruct Hw as (_ & Hs0 & Hs1).
  set (r := {| nr_start := s; nr_len := Z.of_nat (length buf); nr_nonce := nonce |}) in *.
  set (e1 := foldl apply_record (pt_entries p0) (omap op_record pre)) in *.
  set (f1 := foldl (λ f op, op_data op f) (pt_data p0) pre) in *.
  assert (file_read_at n o (pt_data p) = Some (take (Z.to_nat n) (drop (Z.to_nat (o - s)) (seal nonce buf)))) as Hread.
  { rewrite Hdata. apply kept_bytes; [done|lia|done| |by eapply Forall_impl; [exact Hpost|intros ? [? _]]].
    replace o with (s + (o - s)) at 1 by lia. apply (file_read_at_sub (Z.of_nat (length buf))); [lia..|].
    rewrite <-(length_seal nonce buf) at 1. by apply read_write_same. }
  assert (Forall (λ r', 0 ≤ nr_start r' ∧ 0 ≤ nr_len r' ∧ nr_start r' + nr_len r' < 2 ^ 63) (omap op_record post)) as Hbp
    by (apply Forall_forall; intros r'; by apply record_bounds).
  assert (pt_entries p !! s = Some (Z.of_nat (length buf), nonce)) as Hlive.
  { rewrite Hent. apply fold_apply_keep.
    - unfold apply_record. by rewrite lookup_insert_eq.
    - apply Forall_forall. intros r' Hr'. rewrite Forall_forall in Hpost, Hbp.
      destruct (Hpost r' Hr') as [Ha Hne]. destruct (Hbp r' Hr') as (? & ? & ?). split; [done|].
      unfold covers_entry, saturating_add, u64_max, apart in *. cbn. intros [[? ?] ?]. lia. }
  assert (nonce_lookup (pt_entries p) o n = Some (s, nonce)) as Hlk.
  { apply (nonce_lookup_spec _ _ _ _ (Z.of_nat (length buf))); [done|done|rewrite !wrap64_id by (unfold is_u64; lia); lia|].
    intros s' x Hx [Hlt Hle] Hcov. rewrite Hent in Hx.
    apply fold_apply_inv in Hx as [(r' & Hr' & <- & ->)|Hx].
    - rewrite Forall_forall in Hpost, Hbp. destruct (Hpost r' Hr') as [Ha _]. destruct (Hbp r' Hr') as (? & ? & ?).
      cbn in Hcov. rewrite !wrap64_id in Hcov by (unfold is_u64; lia). unfold apart in Ha. lia.
    - unfold apply_record in Hx. apply lookup_insert_Some in Hx as [[? _]|[_ Hx]]; [cbn in *; lia|].
      apply map_lookup_filter_Some in Hx as [Hx Hnc].
      unfold e1 in Hx. apply fold_apply_inv in Hx as [(r' & Hr' & <- & ->)|Hx]; [|by cbn in Hx; apply lookup_empty_Some in Hx].
      rewrite Forall_forall in Hpre. specialize (Hpre r' Hr').
      assert (0 ≤ nr_len r' ∧ nr_start r' + nr_len r' < 2 ^ 63) as [? ?] by by apply (record_bounds pre).
      cbn in Hcov. rewrite !wrap64_id in Hcov by (unfold is_u64; lia). apply Hnc. unfold covers_entry, saturating_add, u64_max. cbn. lia. }
  unfold passthrough_read. rewrite Hread, Hlk. cbn [ok_or mbind outcome_bind].
  assert (ctr_xor_at buf nonce 0 key = Ok (seal nonce buf)) as Hseal by done.
  rewrite <-(ctr_subrange buf nonce 0 key (seal nonce buf) (Z.to_nat (o - s)) (Z.to_nat n) Hseal).
  f_equal; lia.
Qed.
End history.

(* ------------------------------------------------------------------ *)
(** * Witnesses and counterexamples *)

(** A keystream that depends on the nonce and the position. *)
#[local] Instance toy_stream : StreamCipher () := {|
  keystream := λ _ iv i, Byte.byte.of_Z (of_le iv + i)
|}.

Definition some_records : list NonceRecord :=
  [{| nr_start := 0; nr_len := 8; nr_nonce := 5 |}; {| nr_start := 2; nr_len := 2; nr_nonce := 6 |};
   {| nr_start := 0; nr_len := 16; nr_nonce := 7 |}].

Lemma nonce_log_recovers_witness :
  Forall record_ok some_records ∧
  pt_entries (load true None [] (Some (take 60 (concat (record_data <$> some_records))))) =
    entries_of (take 2 some_records) ∧
  pt_entries (load true None [] (Some (concat (record_data <$> some_records)))) = {[ 0 := (16, 7) ]}.
Proof.
  assert (Forall record_ok some_records) as Hok by (repeat constructor; unfold is_u64; cbn; lia).
  split; [done|]. split; [exact (proj1 (nonce_log_recovers [] some_records 60 None None Hok))|].
  pose proof (proj1 (nonce_log_recovers [] some_records 72 None None Hok)) as Hall.
  vm_compute in Hall. vm_compute. exact Hall.
Defined.

Definition page_a : bytes := [Byte.x01; Byte.x02; Byte.x03; Byte.x04].
Definition page_b : bytes := [Byte.x0a; Byte.x0b].

Definition wal_history : list (@pt_op) := [PtWrite 9 page_a 0; PtReopen (Some BeforeRename); PtWrite 4 page_b 1; PtReopen None].

(** The bytes written inside an earlier write read back, after reopening. *)
Lemma passthrough_reads_last_write_witness :
  passthrough_read () 1 2
    (foldl (run_op ()) {| pt_data := []; pt_sidecar := None; pt_entries := ∅; pt_append := false |} wal_history)
  = Ok [Byte.x0b].
Proof.
  pose proof (passthrough_reads_last_write () [] [PtWrite 9 page_a 0; PtReopen (Some BeforeRename)] [PtReopen None]
    4 page_b 1 2 1) as Hall.
  assert (Forall op_ok ([PtWrite 9 page_a 0; PtReopen (Some BeforeRename)] ++ PtWrite 4 page_b 1 :: [PtReopen None])) as Hok
    by (repeat constructor; unfold is_u64; cbn; lia).
  specialize (Hall Hok ltac:(lia) ltac:(lia) ltac:(cbn; lia)).
  specialize (Hall ltac:(constructor)). specialize (Hall ltac:(cbn; constructor; [cbn; lia|constructor])). exact Hall.
Defined.

(** A range over two writes is decrypted under neither nonce: the bytes of both
    are lost to a reader that asks for them at once. *)
Example spanning_read_garbled :
  let p := foldl (run_op ()) {| pt_data := []; pt_sidecar := None; pt_entries := ∅; pt_append := false |}
             [PtWrite 9 page_b 0; PtWrite 4 page_b 2] in
  passthrough_read () 2 0 p = Ok page_b ∧ passthrough_read () 2 2 p = Ok page_b ∧
  passthrough_read () 4 0 p ≠ Ok (page_b ++ page_b).
Proof. split; [reflexivity|]. split; [reflexivity|]. by vm_compute. Qed.

(** Of two extents that cover a range, the one that starts last is taken, which
    need not be the newer one. *)
Example older_extent_wins :
  let p := foldl (run_op ()) {| pt_data := []; pt_sidecar := None; pt_entries := ∅; pt_append := false |}
             [PtWrite 9 page_a 1; PtWrite 4 page_a 0] in
  nonce_lookup (pt_entries p) 1 3 = Some (1, 9) ∧
  passthrough_read () 3 1 p ≠ Ok (drop 1 page_a).
Proof. split; [reflexivity|]. by vm_compute. Qed.

(** A write that fails at its nonce leaves new bytes under an old nonce: the
    page written before is lost. *)
Example failed_record_loses_page :
  let p := foldl (run_op ()) {| pt_data := []; pt_sidecar := None; pt_entries := ∅; pt_append := false |}
             [PtWrite 9 page_a 0] in
  let '(r, p') := passthrough_write () (Some (WriteRecord 0, OtherKind)) 4 page_a 0 p in
  r = Err OtherKind ∧ passthrough_read () 4 0 p = Ok page_a ∧ passthrough_read () 4 0 p' ≠ Ok page_a.
Proof. split; [reflexivity|]. split; [reflexivity|]. by vm_compute. Qed.

(** A log that cannot be read when the file is opened is compacted to nothing:
    its extents are lost to every later opening. *)
Example unreadable_log_is_lost :
  let log := Some (concat (record_data <$> some_records)) in
  pt_entries (load true None [] log) = {[ 0 := (16, 7) ]} ∧
  pt_sidecar (load false None [] log) = Some [] ∧
  pt_entries (load true None [] (pt_sidecar (load false None [] log))) = ∅.
Proof. split; [vm_compute; reflexivity|]. split; vm_compute; reflexivity. Qed.

(** A record torn by a failed append shifts every later one: after reopening,
    none of them is found. *)
Example torn_record_shifts_log :
  let p := foldl (run_op ()) {| pt_data := []; pt_sidecar := None; pt_entries := ∅; pt_append := false |}
             [PtWrite 9 page_a 0] in
  let p1 := (passthrough_write () (Some (WriteRecord 3, OtherKind)) 4 page_b 8 p).2 in
  let p2 := (passthrough_write () None 4 page_b 8 p1).2 in
  passthrough_read () 2 8 p2 = Ok page_b ∧
  passthrough_read () 2 8 (load true None (pt_data p2) (pt_sidecar p2)) ≠ Ok page_b.
Proof. split; [reflexivity|]. by vm_compute. Qed.
