(* ===== verification/Locks.v ===== *)
(** Locks between connections: the in-process table and the WAL-index locks of
    src/src/lib.rs, and the five lock levels of the main database file
    ([TurboliteHandle::lock] of src/src/tiered/handle.rs). *)

From stdpp Require Import relations.
From S2P Require Import Prelude.

(* ------------------------------------------------------------------ *)
(** * The in-process table *)

(** The locks on one byte of a file. *)
Record SlotState := { sl_shared : gset Z; sl_exclusive : option Z }.

Definition no_locks : SlotState := {| sl_shared := ∅; sl_exclusive := None |}.

(** [InProcessLocks::slots], of one path. *)
Abbreviation slots := (gmap Z SlotState).

Definition slot_at (t : slots) (byte : Z) : SlotState := default no_locks (t !! byte).

(** Whether another connection is in the way. *)
Definition blocked (exclusive : bool) (conn_id : Z) (s : SlotState) : bool :=
  let other := match sl_exclusive s with Some c => negb (c =? conn_id) | None => false end in
  if exclusive then other || negb (bool_decide (sl_shared s ⊆ {[ conn_id ]})) else other.

Definition grant (exclusive : bool) (conn_id : Z) (s : SlotState) : SlotState :=
  if exclusive then {| sl_shared := sl_shared s ∖ {[ conn_id ]}; sl_exclusive := Some conn_id |}
  else {| sl_shared := {[ conn_id ]} ∪ sl_shared s; sl_exclusive := sl_exclusive s |}.

Definition release (conn_id : Z) (s : SlotState) : SlotState :=
  {| sl_shared := sl_shared s ∖ {[ conn_id ]};
     sl_exclusive := if bool_decide (sl_exclusive s = Some conn_id) then None else sl_exclusive s |}.

(** The check of [try_lock_inprocess]: slots appear as they are looked at. *)
Fixpoint check_slots (exclusive : bool) (conn_id : Z) (bytes : list Z) (t : slots) : bool * slots :=
  match bytes with
  | [] => (true, t)
  | b :: bytes =>
    let t := <[b := slot_at t b]> t in
    if blocked exclusive conn_id (slot_at t b) then (false, t) else check_slots exclusive conn_id bytes t
  end.

Definition try_lock_inprocess (offset len : Z) (exclusive : bool) (conn_id : Z) (t : slots) : bool * slots :=
  let bytes := range offset (offset + len) in
  let '(ok, t) := check_slots exclusive conn_id bytes t in
  (ok, if ok then foldl (λ t b, <[b := grant exclusive conn_id (slot_at t b)]> t) t bytes else t).

Definition unlock_inprocess (offset len : Z) (conn_id : Z) (t : slots) : slots :=
  foldl (λ t b, alter (release conn_id) b t) t (range offset (offset + len)).

Definition unlock_all_inprocess (conn_id : Z) (t : slots) : slots := release conn_id <$> t.

(* ------------------------------------------------------------------ *)
(** * WAL-index locks *)

Definition WAL_LOCK_OFFSET : Z := 120.

Inductive WalIndexLock := WalNone | WalShared | WalExclusive.

#[export] Instance WalIndexLock_eq_dec : EqDecision WalIndexLock.
Proof. solve_decision. Defined.

Definition unlock_range (conn_id first last : Z) (t : slots) : slots :=
  foldl (λ t s, unlock_inprocess (WAL_LOCK_OFFSET + s) 1 conn_id t) t (range first last).

(** Phase 1 of [FileWalIndex::lock]: the slots in order, given back when one is
    taken. *)
Fixpoint take_slots (start : Z) (exclusive : bool) (conn_id : Z) (slot_list : list Z) (t : slots) : bool * slots :=
  match slot_list with
  | [] => (true, t)
  | s :: rest =>
    match try_lock_inprocess (WAL_LOCK_OFFSET + s) 1 exclusive conn_id t with
    | (true, t) => take_slots start exclusive conn_id rest t
    | (false, t) => (false, unlock_range conn_id start s t)
    end
  end.

(** Phase 2: a file lock per slot, [file_lock] giving their outcomes; the first
    that is not granted ends it. *)
Fixpoint lock_files (file_lock : Z → io bool) (slot_list : list Z) : io bool :=
  match slot_list with
  | [] => Ok true
  | s :: rest =>
    match file_lock s with
    | Ok true => lock_files file_lock rest
    | r => r
    end
  end.

(** [FileWalIndex::lock] of the slots [first .. last]. *)
Definition wal_lock (file_lock : Z → io bool) (conn_id first last : Z) (lock : WalIndexLock) (t : slots) :
    io bool * slots :=
  match lock with
  | WalNone => (Ok true, unlock_range conn_id first last t)
  | _ =>
    let exclusive := bool_decide (lock = WalExclusive) in
    match take_slots first exclusive conn_id (range first last) t with
    | (false, t) => (Ok false, t)
    | (true, t) =>
      match lock_files file_lock (range first last) with
      | Ok true => (Ok true, t)
      | r => (r, unlock_range conn_id first last t)
      end
    end
  end.

(* ------------------------------------------------------------------ *)
(** * The main database file *)

Inductive LockKind := LockNone | LockShared | LockReserved | LockPending | LockExclusive.

#[export] Instance LockKind_eq_dec : EqDecision LockKind.
Proof. solve_decision. Defined.

Definition lock_rank (k : LockKind) : Z :=
  match k with LockNone => 0 | LockShared => 1 | LockReserved => 2 | LockPending => 3 | LockExclusive => 4 end.

Definition PENDING_BYTE : Z := 0x40000000.
Definition RESERVED_BYTE : Z := PENDING_BYTE + 1.
Definition SHARED_FIRST : Z := PENDING_BYTE + 2.
Definition SHARED_SIZE : Z := 510.

(** A guard of [file_guard]: a locked range of bytes. *)
Record Guard := { gu_exclusive : bool; gu_first : Z; gu_len : Z }.

(** What a connection holds: its level, its guards by name, and the read side of
    the replay gate; [ls_synced] is [synced_since_write]. *)
Record LockState := {
  ls_lock : LockKind;
  ls_guards : gmap string Guard;
  ls_gate : bool;
  ls_synced : bool
}.

#[export] Instance LockState_settable : Settable LockState := {| rebuild := λ s, {|
  ls_lock := ls_lock s; ls_guards := ls_guards s; ls_gate := ls_gate s; ls_synced := ls_synced s |} |}.

Section main_lock.
(** The outcome of trying a guard, the [n]th of the call. *)
Variable try_lock : nat → Guard → io bool.

Definition pending_guard (exclusive : bool) : Guard :=
  {| gu_exclusive := exclusive; gu_first := PENDING_BYTE; gu_len := 1 |}.
Definition reserved_guard : Guard := {| gu_exclusive := true; gu_first := RESERVED_BYTE; gu_len := 1 |}.
Definition shared_guard : Guard := {| gu_exclusive := false; gu_first := SHARED_FIRST; gu_len := 1 |}.
Definition exclusive_guard : Guard := {| gu_exclusive := true; gu_first := SHARED_FIRST; gu_len := SHARED_SIZE |}.

Definition add_guard (name : string) (g : Guard) (s : LockState) : LockState :=
  s <| ls_guards ::= <[name := g]> |>.

(** The pending byte is only tried; the gate is given back on a refusal. *)
Definition lock_shared (has_gate : bool) (s : LockState) : io bool * LockState :=
  let s := s <| ls_guards := ∅ |> <| ls_gate ::= λ g, g || has_gate |> in
  match try_lock 0 (pending_guard false) with
  | Ok true =>
    match try_lock 1 shared_guard with
    | Ok true => (Ok true, add_guard "shared" shared_guard s)
    | r => (r, s <| ls_gate := false |>)
    end
  | r => (r, s <| ls_gate := false |>)
  end.

Definition lock_reserved (s : LockState) : io bool * LockState :=
  if lock_rank (ls_lock s) <? 1 then (Ok false, s) else
  match try_lock 0 reserved_guard with
  | Ok true => (Ok true, add_guard "reserved" reserved_guard s)
  | r => (r, s)
  end.

Definition lock_pending (s : LockState) : io bool * LockState :=
  if lock_rank (ls_lock s) <? 2 then (Ok false, s) else
  match try_lock 0 (pending_guard true) with
  | Ok true => (Ok true, add_guard "pending" (pending_guard true) s)
  | r => (r, s)
  end.

(** The shared guard is given up for the exclusive one, and taken again when
    that is refused. *)
Definition lock_exclusive (s : LockState) : io bool * LockState :=
  if lock_rank (ls_lock s) <? 1 then (Ok false, s) else
  let pending := match ls_guards s !! "pending"%string with
                 | Some _ => (Ok true, s)
                 | None => match try_lock 0 (pending_guard true) with
                           | Ok true => (Ok true, add_guard "pending" (pending_guard true) s)
                           | r => (r, s)
                           end
                 end in
  match pending with
  | (Ok true, s) =>
    let s := s <| ls_guards ::= delete "shared"%string |> in
    match try_lock 1 exclusive_guard with
    | Ok true => (Ok true, add_guard "exclusive" exclusive_guard s)
    | Ok false =>
      match try_lock 2 shared_guard with
      | Ok true => (Ok false, add_guard "shared" shared_guard s)
      | _ => (Err OtherKind, s)
      end
    | r => (r, s)
    end
  | (r, s) => (r, s)
  end.

(** Leaving a write level with synced writes uploads them first. *)
Definition must_sync (target : LockKind) (s : LockState) : bool :=
  (2 <=? lock_rank (ls_lock s)) && (lock_rank target <=? 1) && ls_synced s.

(** [lock]: [sync] and [open_lock_file] are the outcomes of those calls. *)
Definition lock (has_gate : bool) (sync open_lock_file : io ()) (target : LockKind) (s : LockState) :
    io bool * LockState :=
  if bool_decide (ls_lock s = target) then (Ok true, s) else
  match (_ ← (if must_sync target s then sync else Ok ()); open_lock_file) with
  | Err e => (Err e, s)
  | Panic => (Panic, s)
  | Ok _ =>
    let '(r, s) := match target with
                   | LockNone => (Ok true, s <| ls_guards := ∅ |> <| ls_gate := false |>)
                   | LockShared => lock_shared has_gate s
                   | LockReserved => lock_reserved s
                   | LockPending => lock_pending s
                   | LockExclusive => lock_exclusive s
                   end in
    (r, match r with Ok true => s <| ls_lock := target |> | _ => s end)
  end.

Definition reserved (s : LockState) : bool := 2 <=? lock_rank (ls_lock s).
End main_lock.

(* ------------------------------------------------------------------ *)
(** * Exclusion in the process *)

(** A byte locked exclusively is locked by one connection only. *)
Definition slot_ok (s : SlotState) : Prop := ∀ c, sl_exclusive s = Some c → sl_shared s ⊆ {[ c ]}.

Lemma slot_at_insert t b s b' : slot_at (<[b := s]> t) b' = if decide (b' = b) then s else slot_at t b'.
Proof.
  unfold slot_at. destruct (decide (b' = b)) as [->|Hne]; [by rewrite lookup_insert_eq|by rewrite lookup_insert_ne].
Qed.

Lemma release_no_locks c : release c no_locks = no_locks.
Proof. unfold release, no_locks. cbn. f_equal. set_solver. Qed.

Lemma slot_at_release c t b b' :
  slot_at (alter (release c) b t) b' = if decide (b' = b) then release c (slot_at t b') else slot_at t b'.
Proof.
  unfold slot_at. destruct (decide (b' = b)) as [->|Hne]; [rewrite lookup_alter_eq|by rewrite lookup_alter_ne].
  destruct (t !! b); cbn; [done|by rewrite release_no_locks].
Qed.

Lemma release_idemp c s : release c (release c s) = release c s.
Proof.
  unfold release; cbn. f_equal; [set_solver|]. repeat case_bool_decide; congruence.
Qed.

Lemma release_grant e c s : blocked e c s = false → release c (grant e c s) = release c s.
Proof.
  unfold blocked, release, grant. destruct s as [sh ex]. destruct e; cbn; intros Hb.
  - apply orb_false_iff in Hb as [Hb _]. f_equal; [set_solver|]. rewrite bool_decide_eq_true_2 by done.
    destruct ex as [c'|]; cbn; [|done]. apply negb_false_iff, Z.eqb_eq in Hb as ->. by rewrite bool_decide_eq_true_2.
  - f_equal. set_solver.
Qed.

Lemma unlock_one c b t : unlock_inprocess b 1 c t = alter (release c) b t.
Proof. unfold unlock_inprocess. by rewrite range_cons, range_nil by lia. Qed.

Lemma slot_at_unlock_range c first last t b :
  slot_at (unlock_range c first last t) b =
    if decide (first ≤ b - WAL_LOCK_OFFSET < last) then release c (slot_at t b) else slot_at t b.
Proof.
  unfold unlock_range.
  assert (∀ l t, slot_at (foldl (λ t s, unlock_inprocess (WAL_LOCK_OFFSET + s) 1 c t) t l) b =
    if decide (b - WAL_LOCK_OFFSET ∈ l) then release c (slot_at t b) else slot_at t b) as Hl.
  { induction l as [|s l IH]; intros t'; [by rewrite decide_False by apply not_elem_of_nil|]. cbn [foldl].
    rewrite IH, unlock_one, slot_at_release. destruct (decide (b = WAL_LOCK_OFFSET + s)) as [->|Hne].
    - rewrite (decide_True (P := _ ∈ s :: l)) by (apply elem_of_cons; left; lia). rewrite release_idemp. by case_decide.
    - destruct (decide (b - WAL_LOCK_OFFSET ∈ l)) as [Hin|Hni].
      + by rewrite decide_True by by right.
      + rewrite decide_False; [done|]. intros [?|?]%elem_of_cons; [lia|done]. }
  rewrite Hl. apply decide_ext. rewrite elem_of_range. lia.
Qed.

(** One slot: refused when blocked, granted otherwise. *)
Lemma try_one b e c t :
  let '(ok, t') := try_lock_inprocess b 1 e c t in
  ok = negb (blocked e c (slot_at t b)) ∧
  ∀ b', slot_at t' b' = if ok && bool_decide (b' = b) then grant e c (slot_at t b') else slot_at t b'.
Proof.
  unfold try_lock_inprocess. rewrite range_cons, range_nil by lia. cbn [check_slots foldl].
  set (t1 := <[b := slot_at t b]> t). assert (∀ b', slot_at t1 b' = slot_at t b') as Ht1.
  { intros b'. unfold t1. rewrite slot_at_insert. by case_decide; subst. }
  rewrite Ht1. destruct (blocked e c (slot_at t b)); cbn; split; try done.
  intros b'. rewrite slot_at_insert, !Ht1. case_decide; case_bool_decide; congruence.
Qed.

(** The slots of a range, granted on top of [t0]. *)
Definition granted_upto (e : bool) (c first k : Z) (t0 t : slots) : Prop :=
  (∀ b, slot_at t b = if decide (first ≤ b - WAL_LOCK_OFFSET < k) then grant e c (slot_at t0 b) else slot_at t0 b) ∧
  ∀ s, first ≤ s < k → blocked e c (slot_at t0 (WAL_LOCK_OFFSET + s)) = false.

(** Every byte is as it was, or given back by [c]. *)
Definition only_released (c first last : Z) (t0 t : slots) : Prop :=
  ∀ b, slot_at t b = slot_at t0 b ∨
    first ≤ b - WAL_LOCK_OFFSET < last ∧ slot_at t b = release c (slot_at t0 b).

Lemma granted_released e c first k t0 t b :
  granted_upto e c first k t0 t →
  release c (slot_at t b) = release c (slot_at t0 b).
Proof.
  intros [Hg Hb]. rewrite Hg. case_decide; [|done]. apply release_grant.
  specialize (Hb (b - WAL_LOCK_OFFSET) ltac:(lia)). by replace (WAL_LOCK_OFFSET + (b - WAL_LOCK_OFFSET)) with b in Hb by lia.
Qed.

Lemma take_slots_spec (e : bool) c first last k t0 t :
  first ≤ k → granted_upto e c first k t0 t →
  let '(ok, t') := take_slots first e c (range k last) t in
  if ok then granted_upto e c first (Z.max k last) t0 t' else only_released c first last t0 t'.
Proof.
  intros Hk. remember (Z.to_nat (last - k)) as n eqn:Hn. revert k Hk t Hn.
  induction n as [|n IH]; intros k Hk t Hn Hg.
  { rewrite range_nil by lia. cbn. by replace (Z.max k last) with k by lia. }
  rewrite range_cons by lia. cbn [take_slots].
  pose proof (try_one (WAL_LOCK_OFFSET + k) e c t) as Ht.
  destruct (try_lock_inprocess (WAL_LOCK_OFFSET + k) 1 e c t) as [ok t1]. destruct Ht as [Hok Ht1].
  assert (slot_at t (WAL_LOCK_OFFSET + k) = slot_at t0 (WAL_LOCK_OFFSET + k)) as Hsame
    by (rewrite (proj1 Hg), decide_False; [done|lia]).
  destruct ok.
  - replace (Z.max k last) with (Z.max (k + 1) last) by lia. apply IH; [lia|lia|]. symmetry in Hok.
    apply negb_true_iff in Hok. split.
    + intros b. rewrite Ht1. cbn. case_bool_decide as Hb; cbn.
      * subst b. rewrite decide_True by lia. by rewrite Hsame.
      * rewrite (proj1 Hg). apply decide_ext. lia.
    + intros s Hs. destruct (decide (s = k)) as [->|]; [by rewrite <-Hsame|]. apply Hg. lia.
  - cbn in Ht1. intros b. rewrite (slot_at_unlock_range c first k t1 b).
    case_decide as Hd.
    + right. rewrite Ht1. split; [lia|]. by eapply granted_released.
    + left. rewrite Ht1, (proj1 Hg). by rewrite decide_False.
Qed.

(** What a call that asks for a lock does. *)
Definition wal_outcome (e : bool) (c first last : Z) (t : slots) (r : io bool) (t' : slots) : Prop :=
  match r with
  | Ok true => granted_upto e c first (Z.max first last) t t'
  | _ => only_released c first last t t'
  end.

Lemma wal_lock_spec file_lock c first last mode t r t' :
  wal_lock file_lock c first last mode t = (r, t') →
  match mode with
  | WalNone => r = Ok true ∧ t' = unlock_range c first last t
  | _ => wal_outcome (bool_decide (mode = WalExclusive)) c first last t r t'
  end.
Proof.
  assert (∀ m, m ≠ WalNone → wal_lock file_lock c first last m t = (r, t') →
    wal_outcome (bool_decide (m = WalExclusive)) c first last t r t') as Hl.
  { intros m Hm. unfold wal_lock. set (e := bool_decide (m = WalExclusive)).
    assert (granted_upto e c first first t t) as H0 by (split; [intros b; by rewrite decide_False by lia|lia]).
    pose proof (take_slots_spec e c first last first t t ltac:(lia) H0) as Hts.
    destruct m; [done| |]; fold e;
      (destruct (take_slots first e c (range first last) t) as [[] t1];
       [destruct (lock_files file_lock (range first last)) as [[]|k|] eqn:Hf|]; intros [= <- <-];
       try done;
       intros b; rewrite slot_at_unlock_range;
       (case_decide; [right; split; [lia|]; by eapply granted_released|left; rewrite (proj1 Hts), decide_False; [done|lia]])). }
  intros Hrun. destruct mode; [by injection Hrun as <- <-|by apply Hl|by apply Hl].
Qed.

(** A call of a connection, and what it may then count on: the slots it was
    granted, until it releases them or a call that covers them is refused. *)
Abbreviation wal_state := (slots * gmap (Z * Z) bool)%type.

Definition granted_after (c first last : Z) (mode : WalIndexLock) (r : io bool) (g : gmap (Z * Z) bool)
    (k : Z * Z) : option bool :=
  if decide (k.1 = c ∧ first ≤ k.2 < last) then
    match mode, r with
    | WalShared, Ok true => Some (default false (g !! k))
    | WalExclusive, Ok true => Some true
    | _, _ => None
    end
  else g !! k.

Inductive wal_step : relation wal_state :=
  | wal_step_lock file_lock c first last mode t g r t' g' :
      wal_lock file_lock c first last mode t = (r, t') →
      (∀ k, g' !! k = granted_after c first last mode r g k) →
      wal_step (t, g) (t', g').

(** The lock is in the table. *)
Definition held_by (c : Z) (e : bool) (s : SlotState) : Prop :=
  if e then sl_exclusive s = Some c else c ∈ sl_shared s.

Record wal_inv (st : wal_state) : Prop := {
  wi_slots : ∀ b, slot_ok (slot_at st.1 b);
  wi_granted : ∀ (c s : Z) (e : bool), st.2 !! (c, s) = Some e → held_by c e (slot_at st.1 (WAL_LOCK_OFFSET + s))
}.

Lemma slot_ok_release c s : slot_ok s → slot_ok (release c s).
Proof. intros Hs c'. unfold release; cbn. case_bool_decide; [done|]. intros Hc. specialize (Hs c' Hc). set_solver. Qed.

Lemma slot_ok_grant e c s : blocked e c s = false → slot_ok s → slot_ok (grant e c s).
Proof.
  unfold blocked, grant. intros Hb Hs c'. destruct e; cbn.
  - intros [= <-]. apply orb_false_iff in Hb as [_ Hb]. apply negb_false_iff, bool_decide_eq_true in Hb. set_solver.
  - intros Hc. rewrite Hc in Hb. apply negb_false_iff, Z.eqb_eq in Hb as ->. specialize (Hs c Hc). set_solver.
Qed.

(** What another connection holds is not affected. *)
Lemma held_release c c' e s : c ≠ c' → held_by c e s → held_by c e (release c' s).
Proof. unfold held_by, release. intros Hne. destruct e; cbn; [intros ->; case_bool_decide; congruence|set_solver]. Qed.

Lemma held_grant c c' e e' s : c ≠ c' → blocked e' c' s = false → held_by c e s → held_by c e (grant e' c' s).
Proof.
  unfold held_by, grant, blocked. intros Hne Hb. destruct e, e'; cbn; intros Hh; [|done| |set_solver].
  - rewrite Hh in Hb. apply orb_false_iff in Hb as [Hb _]. apply negb_false_iff, Z.eqb_eq in Hb. congruence.
  - apply orb_false_iff in Hb as [_ Hb]. apply negb_false_iff, bool_decide_eq_true in Hb. set_solver.
Qed.

Lemma wal_step_slot file_lock c first last mode t r t' b :
  wal_lock file_lock c first last mode t = (r, t') →
  slot_at t' b = slot_at t b ∨ first ≤ b - WAL_LOCK_OFFSET < last ∧
  (slot_at t' b = release c (slot_at t b) ∨
  r = Ok true ∧ mode ≠ WalNone ∧ slot_at t' b = grant (bool_decide (mode = WalExclusive)) c (slot_at t b) ∧
    blocked (bool_decide (mode = WalExclusive)) c (slot_at t b) = false).
Proof.
  intros Hrun%wal_lock_spec. assert (mode = WalNone ∨ mode ≠ WalNone) as [->|Hm] by (destruct mode; auto).
  { destruct Hrun as [_ ->]. rewrite slot_at_unlock_range. case_decide; auto. }
  assert (wal_outcome (bool_decide (mode = WalExclusive)) c first last t r t') as Ho by by destruct mode.
  clear Hrun. unfold wal_outcome in Ho. destruct r as [[]|e|]; [|destruct (Ho b) as [?|[? ?]]; [by left|right; split; [done|by left]]..].
  destruct Ho as [Hg Hb]. rewrite Hg. destruct (decide (first ≤ b - WAL_LOCK_OFFSET < Z.max first last)); [|by left]. right. split; [lia|]. right. split_and!; [done..|].
  specialize (Hb (b - WAL_LOCK_OFFSET) ltac:(lia)). by replace (WAL_LOCK_OFFSET + (b - WAL_LOCK_OFFSET)) with b in Hb by lia.
Qed.

Lemma wal_step_inv st st' : wal_step st st' → wal_inv st → wal_inv st'.
Proof.
  intros [file_lock c first last mode t g r t' g' Hrun Hg'] [Hs Hg]. cbn in *. split; cbn.
  - intros b. destruct (wal_step_slot _ _ _ _ _ _ _ _ b Hrun) as [->|[_ [->|(_ & _ & -> & ?)]]]; [done|by apply slot_ok_release|].
    by apply slot_ok_grant.
  - intros c' s e. rewrite Hg'. unfold granted_after. cbn. intros He.
    destruct (decide (c' = c ∧ first ≤ s < last)) as [[-> Hr]|Hne].
    + assert (mode ≠ WalNone ∧ r = Ok true) as [Hm ->] by (by destruct mode, r as [[]| |]).
      apply wal_lock_spec in Hrun.
      assert (wal_outcome (bool_decide (mode = WalExclusive)) c first last t (Ok true) t') as [Hgr Hb] by by destruct mode.
      specialize (Hb s ltac:(lia)). rewrite Hgr, decide_True by lia.
      destruct mode; [done| |].
      * injection He as <-. cbn. unfold held_by, grant; cbn. destruct (g !! (c, s)) as [[]|] eqn:Hold; cbn; [|set_solver..].
        by apply Hg in Hold.
      * by injection He as <-.
    + specialize (Hg c' s e He).
      destruct (wal_step_slot _ _ _ _ _ _ _ _ (WAL_LOCK_OFFSET + s) Hrun) as [->|[Hr Hcases]]; [done|].
      assert (c' ≠ c) as Hcc by (intros ->; apply Hne; split; [done|lia]).
      destruct Hcases as [->|(_ & _ & -> & Hb)]; [by apply held_release|by apply held_grant].
Qed.

(** C23. WAL-index locks exclude one another within a process: in whatever order
    connections take, upgrade and release slot ranges, and whatever the file
    locks answer, a slot that one connection holds exclusively is held by no
    other, where a connection holds what it was granted and has neither released
    nor forfeited by a refused call over it. *)
Theorem wal_index_exclusion st c1 c2 s e :
  rtc wal_step (∅, ∅) st → st.2 !! (c1, s) = Some true → st.2 !! (c2, s) = Some e → c1 = c2.
Proof.
  intros Hr H1 H2. assert (wal_inv st) as [Hs Hg].
  { assert (wal_inv (∅, ∅)) as H0.
    { split; cbn; [intros b; unfold slot_at; rewrite lookup_empty; by intros c|intros c s' e' Hc; by rewrite lookup_empty in Hc]. }
    revert H0. induction Hr as [|st0 st1 st2 Hstep _ IH]; [done|]. intros H0. apply IH; try done. by eapply wal_step_inv. }
  apply Hg in H1, H2. specialize (Hs (WAL_LOCK_OFFSET + s)). unfold held_by in *. destruct e; [congruence|].
  specialize (Hs c1 H1). set_solver.
Qed.

(* ------------------------------------------------------------------ *)
(** * Exclusion between processes *)

Definition compatible (g g' : Guard) : Prop :=
  gu_exclusive g = false ∧ gu_exclusive g' = false ∨
  gu_first g + gu_len g ≤ gu_first g' ∨ gu_first g' + gu_len g' ≤ gu_first g.

#[export] Instance compatible_dec g g' : Decision (compatible g g').
Proof. unfold compatible. apply _. Defined.

Section system.
(** [file_guard] locks ranges of the file for a process ([fcntl]): the guards
    held by others, the connection, the attempt and the guard it asks for. *)
Context (process : nat → nat) (try_lock : list (nat * Guard) → nat → nat → Guard → io bool).
Hypothesis file_guard_law : ∀ held h n g h' g',
  try_lock held h n g = Ok true → (h', g') ∈ held → process h' ≠ process h → compatible g g'.

(** The guards of the other connections. *)
Definition held_by_others (i : nat) (sys : list LockState) : list (nat * Guard) :=
  concat (imap (λ j s, if decide (j = i) then [] else (λ g, (j, g.2)) <$> map_to_list (ls_guards s)) sys).

(** What a call may come to: it is granted; or it fails before it has touched
    anything (the upload of a writer that steps down, the lock file); or it
    raises the level and is refused, or fails on the way to another level than
    exclusive.  Left out are the calls that give up guards and keep the level:
    a refused or failed lowering to shared, and an exclusive lock whose system
    calls fail or that cannot take its shared guard back. *)
Definition outcome_ok (s s' : LockState) (target : LockKind) (r : io bool) : Prop :=
  r = Ok true ∨ s' = s ∨ lock_rank (ls_lock s) < lock_rank target ∧ (r = Ok false ∨ target ≠ LockExclusive).

(** A call of SQLite: levels are raised one call at a time, and lowered to
    shared or none. *)
Inductive lock_step : relation (list LockState) :=
  | lock_step_call i s s' has_gate sync open target r sys :
      sys !! i = Some s →
      lock (try_lock (held_by_others i sys) i) has_gate sync open target s = (r, s') →
      lock_rank target ≤ 1 ∨ lock_rank (ls_lock s) < lock_rank target →
      outcome_ok s s' target r →
      lock_step sys (<[i := s']> sys).

(** Each level comes with its guard. *)
Record levels_ok (s : LockState) : Prop := {
  lv_shared : 1 ≤ lock_rank (ls_lock s) ≤ 3 → ls_guards s !! "shared"%string = Some shared_guard;
  lv_reserved : 2 ≤ lock_rank (ls_lock s) ≤ 3 → ls_guards s !! "reserved"%string = Some reserved_guard;
  lv_exclusive : lock_rank (ls_lock s) = 4 → ls_guards s !! "exclusive"%string = Some exclusive_guard
}.

(** A call's guards are old ones or granted ones. *)
Lemma lock_guards try has_gate sync open target s r s' name g :
  lock try has_gate sync open target s = (r, s') → ls_guards s' !! name = Some g →
  ls_guards s !! name = Some g ∨ ∃ n, try n g = Ok true.
Proof.
  assert (∀ (m : gmap string Guard) k x, <[k := x]> m !! name = Some g → x = g ∨ m !! name = Some g) as Hins
    by (intros m k x [[_ ?]|[_ ?]]%lookup_insert_Some; auto).
  assert (∀ (m : gmap string Guard) k, delete k m !! name = Some g → m !! name = Some g) as Hdel
    by (intros m k [_ ?]%lookup_delete_Some; done).
  unfold lock. case_bool_decide; [intros [= <- <-]; by left|].
  destruct (_ ≫= _) as [[]|e|]; [|intros [= <- <-]; by left..].
  destruct target; cbn [lock_shared lock_reserved].
  - intros [= <- <-]. cbn. by rewrite lookup_empty.
  - unfold lock_shared. destruct (try 0%nat _) as [[]|e|] eqn:H0; [|intros [= <- <-]; cbn; by rewrite lookup_empty..].
    destruct (try 1%nat _) as [[]|e|] eqn:H1; [|intros [= <- <-]; cbn; by rewrite lookup_empty..].
    intros [= <- <-]. cbn. intros [<-|Hl]%Hins; [right; by eexists|by rewrite lookup_empty in Hl].
  - unfold lock_reserved. destruct (_ <? _); [intros [= <- <-]; by left|].
    destruct (try 0%nat _) as [[]|e|] eqn:H0; intros [= <- <-]; [|by left..].
    cbn. intros [<-|Hl]%Hins; [right; by eexists|by left].
  - unfold lock_pending. destruct (_ <? _); [intros [= <- <-]; by left|].
    destruct (try 0%nat _) as [[]|e|] eqn:H0; intros [= <- <-]; [|by left..].
    cbn. intros [<-|Hl]%Hins; [right; by eexists|by left].
  - unfold lock_exclusive. destruct (_ <? _); [intros [= <- <-]; by left|].
    set (x := match ls_guards s !! "pending"%string with Some _ => _ | None => _ end).
    assert (ls_guards x.2 !! name = Some g → ls_guards s !! name = Some g ∨ ∃ n, try n g = Ok true) as Hx.
    { unfold x. destruct (ls_guards s !! "pending"%string); [by left|].
      destruct (try 0%nat _) as [[]|e|] eqn:H0; [|by left..]. cbn. intros [<-|Hl]%Hins; [right; by eexists|by left]. }
    clearbody x. destruct x as [[[]|e|] s1]; cbn [snd] in Hx; [|intros [= <- <-]; by apply Hx..].
    destruct (try 1%nat _) as [[]|e|] eqn:H1; [| |intros [= <- <-]; cbn; intros Hl%Hdel; by apply Hx..].
    + intros [= <- <-]. cbn. intros [<-|Hl%Hdel]%Hins; [right; by eexists|by apply Hx].
    + destruct (try 2%nat _) as [[]|e|] eqn:H2; intros [= <- <-]; cbn.
      * intros [<-|Hl%Hdel]%Hins; [right; by eexists|by apply Hx].
      * intros Hl%Hdel. by apply Hx.
      * intros Hl%Hdel. by apply Hx.
      * intros Hl%Hdel. by apply Hx.
Qed.

Lemma lock_rank_nonneg k : 0 ≤ lock_rank k.
Proof. destruct k; cbn; lia. Qed.

(** The rest of [lock]: a level that was granted is noted. *)
Definition noted (target : LockKind) (rs : io bool * LockState) : io bool * LockState :=
  let '(r, s) := rs in (r, match r with Ok true => s <| ls_lock := target |> | _ => s end).

Lemma lock_levels_reserved try s r s' :
  noted LockReserved (lock_reserved try s) = (r, s') → lock_rank (ls_lock s) < 2 → levels_ok s → levels_ok s'.
Proof.
  intros Hrun Hlt Hs. pose proof Hs as [H1 H2 H3]. unfold noted, lock_reserved in Hrun.
  destruct (Z.ltb_spec (lock_rank (ls_lock s)) 1); [by injection Hrun as <- <-|].
  destruct (try 0%nat _) as [[]|e|]; injection Hrun as <- <-; [|done..]. split; cbn.
  - intros _. rewrite lookup_insert_ne by done. apply H1. lia.
  - intros _. by rewrite lookup_insert_eq.
  - lia.
Qed.

Lemma lock_levels_pending try s r s' :
  noted LockPending (lock_pending try s) = (r, s') → lock_rank (ls_lock s) < 3 → levels_ok s → levels_ok s'.
Proof.
  intros Hrun Hlt Hs. pose proof Hs as [H1 H2 H3]. unfold noted, lock_pending in Hrun.
  destruct (Z.ltb_spec (lock_rank (ls_lock s)) 2); [by injection Hrun as <- <-|].
  destruct (try 0%nat _) as [[]|e|]; injection Hrun as <- <-; [|done..]. split; cbn.
  - intros _. rewrite lookup_insert_ne by done. apply H1. lia.
  - intros _. rewrite lookup_insert_ne by done. apply H2. lia.
  - lia.
Qed.

Lemma lock_levels_exclusive try s r s' :
  noted LockExclusive (lock_exclusive try s) = (r, s') → levels_ok s → r = Ok true ∨ r = Ok false → levels_ok s'.
Proof.
  intros Hrun Hs Hr. unfold noted, lock_exclusive in Hrun.
  destruct (Z.ltb_spec (lock_rank (ls_lock s)) 1); [by injection Hrun as <- <-|].
  set (x := match ls_guards s !! "pending"%string with Some _ => _ | None => _ end) in Hrun.
  assert (ls_lock x.2 = ls_lock s ∧ ∀ name, name ≠ "pending"%string → ls_guards x.2 !! name = ls_guards s !! name) as [Hl Hx].
  { unfold x. destruct (ls_guards s !! "pending"%string); [done|].
    destruct (try 0%nat _) as [[]|e|]; [|done..]. split; [done|]. intros name Hne. cbn. by rewrite lookup_insert_ne. }
  clearbody x. destruct x as [rx s1]; cbn [snd] in Hl, Hx.
  assert (levels_ok s1) as Hs1 by (destruct Hs as [H1 H2 H3]; split; rewrite Hl; intros ?; rewrite Hx by done; auto).
  destruct rx as [[]|e|]; [|by injection Hrun as <- <-..].
  destruct (try 1%nat _) as [[]|e|].
  - injection Hrun as <- <-. split; cbn; [lia..|]. intros _. by rewrite lookup_insert_eq.
  - destruct (try 2%nat _) as [[]|e|]; injection Hrun as <- <-; [|by destruct Hr..].
    destruct Hs1 as [G1 G2 G3]. split; cbn.
    + intros _. by rewrite lookup_insert_eq.
    + intros Hk. rewrite lookup_insert_ne, lookup_delete_ne by done. by apply G2.
    + intros Hk. rewrite lookup_insert_ne, lookup_delete_ne by done. by apply G3.
  - injection Hrun as <- <-. by destruct Hr.
  - injection Hrun as <- <-. by destruct Hr.
Qed.

(** Each level keeps its guard through a call with such an outcome. *)
Lemma lock_levels try has_gate sync open target s r s' :
  lock try has_gate sync open target s = (r, s') → levels_ok s →
  lock_rank target ≤ 1 ∨ lock_rank (ls_lock s) < lock_rank target → outcome_ok s s' target r → levels_ok s'.
Proof.
  unfold outcome_ok. intros Hrun Hs Hcontract [Hr|[->|Hr]]; [|done|].
  all: revert Hrun; unfold lock; case_bool_decide; [intros [= <- <-]; done|]; intros Hrun.
  all: destruct (_ ≫= _) as [[]|e|]; [|by injection Hrun as <- <-..].
  all: destruct target; cbn [lock_rank] in *.
  - injection Hrun as <- <-. split; cbn; lia.
  - unfold lock_shared in Hrun. destruct (try 0%nat _) as [[]|e|]; [|injection Hrun as <- <-; done..].
    destruct (try 1%nat _) as [[]|e|]; injection Hrun as <- <-; [split; cbn; [done|lia..]|done..].
  - destruct Hcontract; [done|]. by eapply (lock_levels_reserved try).
  - destruct Hcontract; [done|]. by eapply (lock_levels_pending try).
  - eapply (lock_levels_exclusive try); [exact Hrun|done|by left].
  - pose proof (lock_rank_nonneg (ls_lock s)). lia.
  - unfold lock_shared in Hrun. assert (lock_rank (ls_lock s) = 0) as H0' by (pose proof (lock_rank_nonneg (ls_lock s)); lia).
    destruct (try 0%nat _) as [[]|e|]; [destruct (try 1%nat _) as [[]|e|]|..]; injection Hrun as <- <-; split; cbn; first [done|lia].
  - destruct Hr as [Hlt _]. by eapply (lock_levels_reserved try).
  - destruct Hr as [Hlt _]. by eapply (lock_levels_pending try).
  - eapply (lock_levels_exclusive try); [exact Hrun|done|]. destruct Hr as [_ [->|?]]; [by right|done].
Qed.

Record system_inv (sys : list LockState) : Prop := {
  si_levels : ∀ i s, sys !! i = Some s → levels_ok s;
  si_guards : ∀ i j s s' n n' g g', process i ≠ process j → sys !! i = Some s → sys !! j = Some s' →
    ls_guards s !! n = Some g → ls_guards s' !! n' = Some g' → compatible g g'
}.

Lemma compatible_sym g g' : compatible g g' → compatible g' g.
Proof. unfold compatible. tauto. Qed.

Lemma guards_clash :
  ¬ compatible exclusive_guard exclusive_guard ∧ ¬ compatible exclusive_guard shared_guard ∧
  ¬ compatible shared_guard exclusive_guard ∧ ¬ compatible reserved_guard reserved_guard.
Proof. split_and!; refine (bool_decide_eq_false_1 _ _); vm_compute; reflexivity. Qed.

Lemma held_by_others_elem i j sys s n g :
  j ≠ i → sys !! j = Some s → ls_guards s !! n = Some g → (j, g) ∈ held_by_others i sys.
Proof.
  intros Hne Hj Hg. unfold held_by_others. apply list_elem_of_In, in_concat. 
  exists ((λ g, (j, g.2)) <$> map_to_list (ls_guards s)). split; apply list_elem_of_In.
  - apply list_elem_of_lookup. exists j. rewrite list_lookup_imap, Hj. cbn. by rewrite decide_False.
  - apply list_elem_of_fmap. exists (n, g). split; [done|]. by apply elem_of_map_to_list.
Qed.

Lemma lock_step_inv sys sys' : lock_step sys sys' → system_inv sys → system_inv sys'.
Proof.
  intros [i s s' has_gate sync open target r sys0 Hi Hrun Hc Hr] [Hl Hg].
  assert (∀ j sj n g n' g', process i ≠ process j → sys0 !! j = Some sj → ls_guards s' !! n = Some g →
    ls_guards sj !! n' = Some g' → compatible g g') as Hnew.
  { intros j sj n g n' g' Hp Hj Hn Hn'.
    destruct (lock_guards _ _ _ _ _ _ _ _ _ _ Hrun Hn) as [Hold|[k Hk]]; [by eapply (Hg i j)|].
    apply (file_guard_law _ _ _ _ j g' Hk); [|done]. apply (held_by_others_elem i j sys0 sj n'); [congruence|done|done]. }
  pose proof (lookup_lt_Some _ _ _ Hi) as Hlt. split.
  - intros j sj Hj. destruct (decide (j = i)) as [->|Hne].
    + rewrite list_lookup_insert_eq in Hj by done. injection Hj as <-. eapply lock_levels; try done. by eapply Hl.
    + rewrite list_lookup_insert_ne in Hj by done. by eapply Hl.
  - intros a b sa sb n n' g g' Hp Ha Hb Hn Hn'. destruct (decide (a = i)) as [->|Hai].
    + rewrite list_lookup_insert_eq in Ha by done. injection Ha as <-.
      rewrite list_lookup_insert_ne in Hb by congruence. by eapply (Hnew b).
    + rewrite list_lookup_insert_ne in Ha by done. destruct (decide (b = i)) as [->|Hbi].
      * rewrite list_lookup_insert_eq in Hb by done. injection Hb as <-. apply compatible_sym. by eapply (Hnew a).
      * rewrite list_lookup_insert_ne in Hb by done. by eapply (Hg a b).
Qed.

Definition unlocked : LockState := {| ls_lock := LockNone; ls_guards := ∅; ls_gate := false; ls_synced := false |}.

(** C24. Writers are alone, among processes: in every state that connections
    reach by calls whose outcomes are those of [outcome_ok] - granted, failed
    before anything was given up, or refused while raising the level - an
    exclusive connection is the only one with a lock, and at most one connection
    is reserved or pending.  A lowering to shared that is refused or fails is not
    among these outcomes, and breaks the exclusion
    ([refused_downgrade_keeps_level]); neither is an exclusive lock whose system
    calls fail. *)
Theorem main_lock_exclusion n sys i j si sj :
  rtc lock_step (replicate n unlocked) sys → process i ≠ process j →
  sys !! i = Some si → sys !! j = Some sj →
  (ls_lock si = LockExclusive → ls_lock sj = LockNone) ∧ ¬ (2 ≤ lock_rank (ls_lock si) ∧ 2 ≤ lock_rank (ls_lock sj)).
Proof.
  intros Hr Hp Hi Hj. assert (system_inv sys) as [Hl Hg].
  { assert (system_inv (replicate n unlocked)) as H0.
    { split.
      - intros k s [-> _]%lookup_replicate. by split; cbn; lia.
      - intros a b s s' k k' g g' _ [-> _]%lookup_replicate _ Hk _. cbn in Hk. by apply lookup_empty_Some in Hk. }
    revert H0. induction Hr as [|s0 s1 s2 Hstep _ IH]; [done|]. intros H0. apply IH; try done. by eapply lock_step_inv. }
  destruct (Hl i si Hi) as [S1 R1 E1], (Hl j sj Hj) as [S2 R2 E2].
  assert (∀ k k' g g', ls_guards si !! k = Some g → ls_guards sj !! k' = Some g' → compatible g g') as Hc
    by (intros; by eapply (Hg i j)).
  destruct guards_clash as (Cee & Ces & Cse & Crr). split.
  - intros Hx. rewrite Hx in E1. specialize (E1 eq_refl). destruct (ls_lock sj); [done|..]; exfalso; cbn in *.
    + apply Ces. apply (Hc _ _ _ _ E1 (S2 ltac:(lia))).
    + apply Ces. apply (Hc _ _ _ _ E1 (S2 ltac:(lia))).
    + apply Ces. apply (Hc _ _ _ _ E1 (S2 ltac:(lia))).
    + apply Cee. apply (Hc _ _ _ _ E1 (E2 eq_refl)).
  - intros [H1 H2].
    assert (∀ s, lock_rank (ls_lock s) ≤ 4) as Hmax by (intros s; destruct (ls_lock s); cbn; lia).
    pose proof (Hmax si). pose proof (Hmax sj).
    destruct (decide (lock_rank (ls_lock si) = 4)) as [Hi4|Hi4], (decide (lock_rank (ls_lock sj) = 4)) as [Hj4|Hj4].
    + apply Cee, (Hc _ _ _ _ (E1 Hi4) (E2 Hj4)).
    + apply Ces, (Hc _ _ _ _ (E1 Hi4) (S2 ltac:(lia))).
    + apply Cse, (Hc _ _ _ _ (S1 ltac:(lia)) (E2 Hj4)).
    + apply Crr, (Hc _ _ _ _ (R1 ltac:(lia)) (R2 ltac:(lia))).
Qed.
End system.

(* ------------------------------------------------------------------ *)
(** * Witnesses and counterexamples *)

(** Byte-range locks of processes, as the standard describes them: granted
    unless a guard of another process is in the way. *)
Definition range_locks (process : nat → nat) (held : list (nat * Guard)) (h _ : nat) (g : Guard) : io bool :=
  Ok (forallb (λ hg, bool_decide (process hg.1 = process h ∨ compatible g hg.2)) held).

Lemma range_locks_law process held h n g h' g' :
  range_locks process held h n g = Ok true → (h', g') ∈ held → process h' ≠ process h → compatible g g'.
Proof.
  unfold range_locks. intros [= Hall] Hin Hne. rewrite forallb_forall in Hall.
  specialize (Hall (h', g') (proj1 (list_elem_of_In _ _) Hin)). by apply bool_decide_eq_true in Hall as [?|?].
Qed.

(** A sequence of calls: the connection and the level it asks for. *)
Definition call_result (process : nat → nat) (sys : list LockState) (call : nat * LockKind) (s : LockState) :=
  lock (range_locks process (held_by_others call.1 sys) call.1) false (Ok ()) (Ok ()) call.2 s.

Definition run_call (process : nat → nat) (sys : list LockState) (call : nat * LockKind) : list LockState :=
  match sys !! call.1 with
  | Some s => <[call.1 := (call_result process sys call s).2]> sys
  | None => sys
  end.

(** The calls keep to the contract, and none that lowers a level is refused. *)
Fixpoint calls_ok (process : nat → nat) (sys : list LockState) (calls : list (nat * LockKind)) : bool :=
  match calls with
  | [] => true
  | call :: calls =>
    match sys !! call.1 with
    | Some s =>
      let up := lock_rank (ls_lock s) <? lock_rank call.2 in
      ((lock_rank call.2 <=? 1) || up) &&
      match (call_result process sys call s).1 with Ok true => true | Ok false => up | _ => false end
    | None => true
    end && calls_ok process (run_call process sys call) calls
  end.

Lemma calls_reach process calls sys :
  calls_ok process sys calls = true → rtc (lock_step (range_locks process)) sys (foldl (run_call process) sys calls).
Proof.
  revert sys. induction calls as [|call calls IH]; intros sys; [done|]. cbn [calls_ok foldl].
  intros [Hc Hrest]%andb_true_iff. specialize (IH _ Hrest). unfold run_call in *.
  destruct (sys !! call.1) as [s|] eqn:Hs; [|done]. eapply rtc_l; [|exact IH].
  apply andb_true_iff in Hc as [Hcontract Hr]. destruct (call_result process sys call s) as [r s'] eqn:Hrun. cbn [fst snd] in *.
  eapply lock_step_call; [exact Hs|exact Hrun| |].
  - apply orb_true_iff in Hcontract as [H%Z.leb_le|H%Z.ltb_lt]; auto.
  - destruct r as [[]|e|]; [by left| |done..]. right. right. split; [by apply Z.ltb_lt|by left].
Qed.

Definition two_writers : list (nat * LockKind) :=
  [(0%nat, LockShared); (1%nat, LockShared); (0%nat, LockReserved); (0%nat, LockExclusive); (1%nat, LockReserved);
   (1%nat, LockNone); (0%nat, LockExclusive); (1%nat, LockShared)].

Definition two_writers_end : list LockState := foldl (run_call id) (replicate 2 unlocked) two_writers.

Lemma main_lock_exclusion_witness :
  ls_lock <$> two_writers_end !! 0%nat = Some LockExclusive ∧ ls_lock <$> two_writers_end !! 1%nat = Some LockNone.
Proof.
  assert (ls_lock <$> two_writers_end !! 0%nat = Some LockExclusive) as H0 by (vm_compute; reflexivity).
  split; [exact H0|].
  assert (rtc (lock_step (range_locks id)) (replicate 2 unlocked) two_writers_end) as Hr
    by (apply calls_reach; vm_compute; reflexivity).
  apply fmap_Some in H0 as (s0 & H0 & Hx).
  destruct (two_writers_end !! 1%nat) as [s1|] eqn:H1; [|vm_compute in H1; discriminate].
  pose proof (main_lock_exclusion id (range_locks id) (range_locks_law id) 2 two_writers_end 0 1 s0 s1 Hr ltac:(done) H0 H1) as [Hall _].
  cbn. by rewrite (Hall (eq_sym Hx)).
Defined.

(** Two connections of one process: file locks do not hold between them, and
    the code takes no others, so both become exclusive. *)
Example same_process_not_excluded :
  ls_lock <$> foldl (run_call (λ _, 0%nat)) (replicate 2 unlocked)
    [(0%nat, LockShared); (0%nat, LockReserved); (0%nat, LockExclusive);
     (1%nat, LockShared); (1%nat, LockReserved); (1%nat, LockExclusive)] = [LockExclusive; LockExclusive].
Proof. vm_compute. reflexivity. Qed.

(** A writer that steps down while another connection waits at the pending byte
    is refused, but has given up its guards: it stays reserved in its own eyes
    while the other becomes exclusive. *)
Example refused_downgrade_keeps_level :
  let sys := foldl (run_call id) (replicate 2 unlocked)
    [(0%nat, LockShared); (1%nat, LockShared); (0%nat, LockReserved); (1%nat, LockExclusive);
     (0%nat, LockShared); (1%nat, LockExclusive)] in
  ls_lock <$> sys = [LockReserved; LockExclusive] ∧ (ls_guards <$> sys !! 0%nat) = Some ∅.
Proof. vm_compute. split; reflexivity. Qed.

(** Connection 1 takes the write lock, connection 2 a read lock. *)
Definition wal_taken : wal_state :=
  let t1 := (wal_lock (λ _, Ok true) 1 0 1 WalExclusive ∅).2 in
  ((wal_lock (λ _, Ok true) 2 3 4 WalShared t1).2, {[ (2, 3) := false; (1, 0) := true ]}).

Lemma wal_taken_reachable : rtc wal_step (∅, ∅) wal_taken.
Proof.
  eapply rtc_l; [eapply (wal_step_lock (λ _, Ok true) 1 0 1 WalExclusive ∅ ∅ (Ok true) _ {[ (1, 0) := true ]})|].
  - vm_compute. reflexivity.
  - intros [c s]. unfold granted_after. cbn [fst snd]. case_decide as Hd.
    + assert (s = 0) as -> by lia. destruct Hd as [-> _]. by rewrite lookup_singleton_eq.
    + rewrite lookup_singleton_ne; [done|]. intros [= <- <-]. apply Hd. lia.
  - eapply rtc_l; [eapply (wal_step_lock (λ _, Ok true) 2 3 4 WalShared _ {[ (1, 0) := true ]} (Ok true) _
      {[ (2, 3) := false; (1, 0) := true ]})|apply rtc_refl].
    + vm_compute. reflexivity.
    + intros [c s]. unfold granted_after. cbn [fst snd]. case_decide as Hd.
      * assert (s = 3) as -> by lia. destruct Hd as [-> _]. by rewrite lookup_insert_eq, lookup_singleton_ne.
      * rewrite lookup_insert_ne; [done|]. intros [= <- <-]. apply Hd. lia.
Qed.

Lemma wal_index_exclusion_witness :
  wal_taken.2 !! (1, 0) = Some true ∧ ∀ c e, wal_taken.2 !! (c, 0) = Some e → 1 = c.
Proof.
  split; [vm_compute; reflexivity|]. intros c e Hc.
  exact (wal_index_exclusion wal_taken 1 c 0 e wal_taken_reachable ltac:(vm_compute; reflexivity) Hc).
Defined.
